(* ===== verification/_CoqProject ===== *)
-Q . S2P
Prelude.v
Proc.v
Bump.v
Sched.v
SchedInv.v
SchedSpec.v
KInv.v
Exit.v
Wait.v
Clone.v
Signal.v
Kthread.v
System.v
Examples.v
Sync.v
Semaphore.v
Rwlock.v
Mutex.v
SyncExamples.v
Mailbox.v
BuddyBits.v
Bitset.v
BuddyTree.v
Buddy.v
Bytes.v
Mem.v
PageBuddy.v
Paging.v
Region.v
Vmm.v
Heap.v
Slab.v
Realloc.v
MemFile.v
Uspace.v
Elf.v
ElfSpec.v
MemExamples.v
ElfExamples.v
Hash.v
Sha256.v
Drbg.v
Md5.v
NetSum.v
Dns.v
Net.v
NetInv.v
NetSpec.v
NetExamples.v
Cstring.v
Printf.v
PrintfSpec.v
Symbols.v
Cmdline.v
Modl.v
ModlSpec.v
Lz4.v
Ring.v
Tty.v
Keyboard.v
Evdev.v
Vfs.v
Vfse.v
Cpio.v
FsExamples.v
