(* ===== verification/Prelude.v ===== *)
(** * Znu kernel: a verification library

    Znu is a small x86_64 kernel written in C.  The library models the parts of
    it whose behaviour is a matter of data structures and ordering rather than
    of device registers, and proves what those parts promise to their callers.
    All paths below are relative to src/.

    ** How the code is modelled

    A C function is a Rocq function in the state and error monad of this file:
    a call is [Done] with a result and a new state, [Panicked] (the code calls
    the kernel's panic) or [Fault] (a null or dangling pointer, or an access
    outside an object).  So a theorem of the form "the call is [Done]" also says
    that the call returns and touches no bad memory.  Objects are entries of
    finite maps keyed by their address, so aliasing and use after free are
    visible.  Pure code that can read outside a buffer gives an [option], [None]
    being such a read.  Machine integers are [Z] with the wrap-around written out
    ([u8] to [u64], [i32], [i64]).  Loops are structural, counted ([for_up],
    [for_all]), or run on fuel; running out of fuel is a [Fault] or [None], so
    every theorem that gives a result also shows that the fuel is enough.  Three
    pure loops give their accumulator instead, the two of the integer square root
    and the carry of the network checksum; their lemmas show that the result is
    the final one on the whole range of arguments.

    ** Parts and files

    - Processes (kernel/sched.c, kernel/kthread.c, kernel/signal.c, and the
      branches of arch/x86/idt.c and arch/x86/syscall.c that call them).  [Proc]:
      the process record, the table and the heap interface [KEnv].  [Bump]: an
      allocator that satisfies the interface.  [Sched], [SchedInv], [SchedSpec]:
      picking and switching, and what the scheduler chooses.
      [KInv]: the invariant of the table.  [Exit], [Wait], [Clone], [Signal],
      [Kthread]: the operations.  [System]: runs of several operations as a step
      relation, with the invariant of every reachable state.  [Examples]: the
      witnesses.
    - Synchronisation (arch/x86/spinlock.c, semaphore.c, rwlock.c, mutex.c).
      [Sync], [Semaphore], [Rwlock], [Mutex]: step relations over the
      interleavings of several processors.  [SyncExamples]: the witnesses.
      [Mailbox] (kernel/mailbox.c): tasks handed from processor to processor.
    - Physical memory (include/buddy.h, mm/pmm.c).  [BuddyBits], [Bitset]: the
      packed bits.  [BuddyTree]: the tree of statuses in them.  [Buddy]:
      allocation and release by pages.  [Mem], [PageBuddy]: the page interface
      used by the rest, and the buddy allocator as an instance of it.
    - Virtual memory (mm/mappage.c, mm/vmm.c).  [Paging]: walking and writing
      four-level tables.  [Region]: ranges.  [Vmm]: address spaces.
    - The heap (mm/slab.c).  [Heap]: its address range on top of the page tables.
      [Slab]: slabs and large blocks.  [Realloc]: objects as bytes.  [MemFile]:
      the files in memory of lib/libc/fs/vfs.c, which live on it.
      [MemExamples]: the witnesses for all of memory.
    - The program loader (lib/libc/elf/load.c).  [Uspace]: user address spaces as
      arrays of bytes.  [Elf]: the loader.  [ElfSpec]: what it puts into memory.
      [ElfExamples]: the witnesses.
    - Hashes and random numbers (lib/libc/md5.c, lib/libc/stdlib/entropy.c and
      rand.c).  [Bytes]: bytes and words.  [Hash]: iterated hash functions.
      [Sha256], [Md5]: the two instances.  [Drbg]: the generator and its users.
    - The network (drivers/net/net.c).  [NetSum]: byte order and checksums.
      [Dns]: messages.  [Net]: the stack from Ethernet to TCP.  [NetInv]: its
      invariant.  [NetSpec]: what it promises.  [NetExamples]: the witnesses.
    - Text (lib/libc/string, lib/libc/stdio/printf.c, kernel/symbols.c,
      kernel/cmdline.c).  [Cstring]: C strings.  [Printf], [PrintfSpec]: formatted
      output.  [Symbols]: the symbol table.  [Cmdline]: the boot command line.
    - Kernel modules (lib/libc/elf/modl.c).  [Modl]: the loader.  [ModlSpec]: the
      layout of an image and its relocation, and runs.
    - Decompression (kernel/lz4.c).  [Lz4]: blocks and both frame formats.
    - Terminals (kernel/tty.c, kernel/keyboard.c, kernel/vfs/devfs/evdev).
      [Ring]: circular buffers as queues, shared by terminals, keyboard, input
      device and pipes.  [Tty]: the line discipline and reads.  [Keyboard]: scan
      codes.  [Evdev]: the input device.
    - Files (lib/libc/fs/vfs.c, vfse.c, cpio.c).  [Vfs]: the tree of nodes.
      [Vfse]: descriptors, paths, pipes.  [Cpio]: the archive of the initial file
      system.  [FsExamples]: the witnesses for terminals and files.

    ** Interfaces

    Components meet in type classes.  [KEnv] with [KEnvOk] is the kernel heap and
    the address-space calls as the process and file code uses them: an allocation
    is fresh, a release ends the life of its object and of no other, a cloned
    address space is new and shows the same memory, and tearing one down leaves
    the others alone.  The theorems on
    processes and files assume these laws, and [Bump] shows that they can hold;
    [Slab] proves their counterparts for the allocator of mm/slab.c over memory as
    bytes, without being an instance of the class.  The classes [Buddy] and
    [BuddyOk] state what the page allocator promises to [Paging] and everything
    above it; [PageBuddy] discharges them for the allocator of include/buddy.h.
    [Nic] with [NicOk] is the network card, [Hardware] the random number
    instructions and counters of the processor, [ModCode] the code of loaded
    modules, [Drivers] and [FileOps] the operation tables of mounted file systems.

    ** What the theorems show

    - Processes: the scheduler takes the first runnable process of the highest
      priority from the cursor on, and passes over a runnable process of that
      priority fewer than 64 times in a row (nothing is shown for lower
      priorities); a process that was switched out for another one continues with
      its registers and FPU state (not so when it was switched out for the idle
      process); the invariant of the table is kept by every operation; exit,
      wait, clone and signals behave as specified on every branch: a child gets
      its own object, kernel stack, files and address space, a failed clone leaves
      the memory as it was, and waiting gives back exactly what the child owned;
      returning from a signal handler restores the interrupted state.
    - Synchronisation: exclusion of the locks in every reachable state, the
      counting of semaphores, tasks of one sender run once and in order, and where
      the code falls short, runs that show it.
    - Memory: the packed bits behave as an array; the tree stays consistent;
      an allocation is a free block of the right size inside the arena, fails only
      when there is none, and a release frees exactly its block;
      mapping a page affects that page only; ranges and address spaces follow;
      heap objects are disjoint, keep their bytes, and come back when freed; a
      file in memory of up to 2048 bytes is an array of bytes.
    - Programs and modules: the segments, the initial stack and the relocated
      fields hold what the image demands, for the images that the loaders place
      correctly; the others are shown by runs.
    - Hashes and random numbers: the hash functions compute what the standards
      define; the generator's output and its next state are given exactly as the
      code computes them, which is neither what its comments say nor the step of
      NIST SP 800-90A (see [drbg_generate_correct]); requests are answered or
      refused.
    - Network: every operation returns and keeps the invariant under any frames
      whose headers state lengths that fit the packet; a segment sent over an
      established connection arrives, if the receiver's queue has room for it;
      the parser of name service answers stays within the message.
    - Text: formatted output stays within its buffer; integer conversions are
      what the C standard says for widths that are not negative, the flags that
      have a meaning, and the length modifiers whose type the code reads, with
      examples of the others; symbols and arguments are found again.
    - LZ4 and archives: every well-formed frame decodes to its meaning, every
      well-formed archive is unpacked entry by entry.
    - Terminals and files: a terminal is a queue and a line; the input device keeps
      the last 63 events; a registered path is found again, and paths that do not
      start with it are looked up as before, but for the directories created on
      the way; reference counts equal the number of descriptors; a pipe is a
      bounded queue.

    ** Fuel and bounds

    Table sizes are those of the code.  The chain of parents in the buddy tree
    runs on 64 steps, more than the depth of a tree of 64-bit size; mapping a
    range on one step per page, [vmm_map_region] on one more; a copy to user space
    on one step per byte; LZ4, archives, symbols, the command line, module
    information and parameters, formats and DNS names on one step per byte of the
    input (or one more), since every round consumes at least one; the digits of a
    64-bit number on 65 steps; polling on the number of waiting frames and one
    more; sending on the number of bytes; a path on its length; a list of
    children on the number of nodes.

    ** Not modelled

    Most of arch/x86/syscall.c, which checks user pointers and calls the parts
    above; disk file systems and mounting, which rest on third-party libraries and
    block devices; the other device and process files; the system call filters; and
    everything that is port or memory-mapped I/O, assembly, mere output, user space
    or build tooling.  Caches, weak memory ordering and the effect of stac and clac
    are not modelled either. *)

From Stdlib Require Export ZArith Lia.
From stdpp Require Export base gmap list numbers.
#[global] Open Scope Z_scope.

(** ** Machine integers

    A [w]-bit unsigned integer is a [Z] in [0, 2^w); arithmetic wraps. *)

Definition wrap (w z : Z) : Z := z `mod` 2 ^ w.
Definition sint (w z : Z) : Z :=
  let u := wrap w z in if decide (u < 2 ^ (w - 1)) then u else u - 2 ^ w.

Abbreviation u8 := (wrap 8).
Abbreviation u16 := (wrap 16).
Abbreviation u32 := (wrap 32).
Abbreviation u64 := (wrap 64).
Abbreviation i32 := (sint 32).
Abbreviation i64 := (sint 64).

Lemma wrap_range w z : 0 ≤ w → 0 ≤ wrap w z < 2 ^ w.
Proof. intros ?. apply Z.mod_pos_bound. by apply Z.pow_pos_nonneg. Qed.

Lemma wrap_small w z : 0 ≤ z < 2 ^ w → wrap w z = z.
Proof. apply Z.mod_small. Qed.

Lemma wrap_wrap w z : 0 ≤ w → wrap w (wrap w z) = wrap w z.
Proof. intros ?. apply wrap_small, wrap_range. done. Qed.

Lemma sint_small w z : 0 < w → - 2 ^ (w - 1) ≤ z < 2 ^ (w - 1) → sint w z = z.
Proof.
  intros Hw Hz. unfold sint, wrap.
  assert (2 ^ w = 2 * 2 ^ (w - 1)) as E
    by (rewrite <-Z.pow_succ_r by lia; f_equal; lia).
  destruct (decide (0 ≤ z)).
  - rewrite Z.mod_small by lia. rewrite decide_True by lia. done.
  - rewrite <-(Z_mod_plus_full z 1), Z.mod_small by lia.
    rewrite decide_False by lia. lia.
Qed.

(** ** Record update

    [r <| f := v |>] is the record [r] with field [f] set to [v].  Each record
    declares its eta expansion once as an [Etable] instance; the update
    function of a field is derived from it. *)

Class Etable (R : Type) := eta_expand : R → R.
Class Settable {R T : Type} (proj : R → T) := update : (T → T) → R → R.
Arguments update {R T} proj {_} f r.

Ltac derive_settable :=
  lazymatch goal with
  | |- @Settable ?R ?T ?proj =>
      exact (λ (updated : T → T) (original : R),
        ltac:(let t := eval hnf in (@eta_expand R _ original) in
              lazymatch t with
              | context C [proj original] =>
                  let t' := context C [updated (proj original)] in exact t'
              end))
  end.

#[export] Hint Extern 1 (@Settable _ _ _) => derive_settable : typeclass_instances.

Declare Scope record_update_scope.
Delimit Scope record_update_scope with record_update.
#[global] Open Scope record_update_scope.
Notation "r <| f := v |>" := (update f (λ _, v) r)
  (at level 1, left associativity, f at level 9, v at level 200,
   format "r  <| f  :=  v |>") : record_update_scope.

(** ** Kernel computations

    C code that reads and writes kernel state is a function of the state.  It
    returns a value and the new state, stops the machine ([panic], [hcf]), or
    has no defined behaviour (a null or dangling pointer is dereferenced, an
    array is indexed out of range). *)

Inductive outcome (S A : Type) : Type :=
| Done (a : A) (s : S)
| Panicked (s : S)
| Fault.
Arguments Done {S A} a s.
Arguments Panicked {S A} s.
Arguments Fault {S A}.

Definition M (S A : Type) : Type := S → outcome S A.

#[global] Instance M_ret {S} : MRet (M S) := λ A a s, Done a s.
#[global] Instance M_bind {S} : MBind (M S) := λ A B f c s,
  match c s with
  | Done a s' => f a s'
  | Panicked s' => Panicked s'
  | Fault => Fault
  end.

Definition get_state {S} : M S S := λ s, Done s s.
Definition gets {S A} (f : S → A) : M S A := λ s, Done (f s) s.
Definition modify {S} (f : S → S) : M S unit := λ s, Done tt (f s).
Definition panic {S A} : M S A := λ s, Panicked s.
Definition fault {S A} : M S A := λ _, Fault.
Definition from_opt {S A} (o : option A) : M S A := λ s,
  match o with Some a => Done a s | None => Fault end.
Definition whenM {S} (b : bool) (c : M S unit) : M S unit :=
  if b then c else mret tt.

(** [for_up n i body]: [for (k = i; k < i + n; k++) body(k)], where the body
    may leave the loop early with a value ([break], [return]). *)
Fixpoint for_up {S B} (n : nat) (i : Z) (body : Z → M S (option B)) : M S (option B) :=
  match n with
  | O => mret None
  | Datatypes.S n' =>
      r ← body i;
      match r with
      | Some b => mret (Some b)
      | None => for_up n' (i + 1) body
      end
  end.

(** A loop whose body never leaves early. *)
Definition for_all {S} (n : nat) (i : Z) (body : Z → M S unit) : M S unit :=
  r ← for_up (B := unit) n i (λ k, body k ;; mret None);
  mret tt.

(** Weakest precondition: the computation returns normally, in a state and
    with a value that satisfy [Q]. *)
Definition wp {S A} (c : M S A) (Q : A → S → Prop) (s : S) : Prop :=
  match c s with Done a s' => Q a s' | _ => False end.

Section WP.
Context {S : Type}.
Implicit Types s : S.

Lemma wp_ret {A} (a : A) Q s : Q a s → wp (mret a : M S A) Q s.
Proof. done. Qed.

Lemma wp_bind {A B} (c : M S A) (f : A → M S B) Q s :
  wp c (λ a, wp (f a) Q) s → wp (c ≫= f) Q s.
Proof. unfold wp, mbind, M_bind. destruct (c s); naive_solver. Qed.

Lemma wp_assoc {A B C} (c : M S A) (f : A → M S B) (g : B → M S C) Q s :
  wp (c ≫= f) (λ b, wp (g b) Q) s → wp (c ≫= λ a, f a ≫= g) Q s.
Proof. unfold wp, mbind, M_bind. by destruct (c s) as [a s'|s'|]; [destruct (f a s')|..]. Qed.

Lemma wp_mono {A} (c : M S A) (Q Q' : A → S → Prop) s :
  wp c Q s → (∀ a s', Q a s' → Q' a s') → wp c Q' s.
Proof. unfold wp. destruct (c s); naive_solver. Qed.

Lemma wp_get Q s : Q s s → wp get_state Q s.
Proof. done. Qed.

Lemma wp_gets {A} (f : S → A) Q s : Q (f s) s → wp (gets f) Q s.
Proof. done. Qed.

Lemma wp_modify f Q s : Q tt (f s) → wp (modify f) Q s.
Proof. done. Qed.

Lemma wp_from_opt {A} (o : option A) a Q s :
  o = Some a → Q a s → wp (from_opt o : M S A) Q s.
Proof. by intros ->. Qed.

Lemma wp_when b c Q s :
  (b = true → wp c Q s) → (b = false → Q tt s) → wp (whenM b c) Q s.
Proof. destruct b; naive_solver. Qed.

Lemma wp_run {A} (c : M S A) Q s :
  wp c Q s ↔ ∃ a s', c s = Done a s' ∧ Q a s'.
Proof. unfold wp. destruct (c s); naive_solver. Qed.

Lemma wp_for_up {B} (n : nat) (i : Z) (body : Z → M S (option B))
    (I : Z → S → Prop) (Q : B → S → Prop) s :
  (∀ k s, i ≤ k < i + Z.of_nat n → I k s →
     wp (body k) (λ r s', match r with Some b => Q b s' | None => I (k + 1) s' end) s) →
  I i s →
  wp (for_up n i body)
     (λ r s', match r with Some b => Q b s' | None => I (i + Z.of_nat n) s' end) s.
Proof.
  revert i s. induction n as [|n IH]; intros i s Hb Hi; simpl.
  - apply wp_ret. by replace (i + Z.of_nat 0) with i by lia.
  - apply wp_bind. eapply wp_mono; [apply Hb; [lia|done]|].
    intros [b|] s' Hs'; [by apply wp_ret|].
    replace (i + Z.of_nat (Datatypes.S n)) with (i + 1 + Z.of_nat n) by lia.
    apply IH; [|done]. intros. apply Hb; [lia|done].
Qed.

Lemma wp_for_all (n : nat) (i : Z) (body : Z → M S unit) (I : Z → S → Prop) s :
  (∀ k s, i ≤ k < i + Z.of_nat n → I k s → wp (body k) (λ _ s', I (k + 1) s') s) →
  I i s →
  wp (for_all n i body) (λ _ s', I (i + Z.of_nat n) s') s.
Proof.
  intros Hb Hi. unfold for_all. apply wp_bind.
  eapply wp_mono; [eapply (wp_for_up n i _ I (λ _ _, False)); [|done]|].
  - intros k s' Hk HI. apply wp_bind. eapply wp_mono; [by apply Hb|].
    intros [] s'' ?. by apply wp_ret.
  - intros [b|] s' ?; [done|]. by apply wp_ret.
Qed.
End WP.

Arguments for_up : simpl never.
Arguments for_all : simpl never.
Arguments wp : simpl never.

(** C truth value of a pointer or integer. *)
Definition nz (z : Z) : bool := negb (z =? 0).

Lemma nz_true z : nz z = true ↔ z ≠ 0.
Proof. unfold nz. destruct (Z.eqb_spec z 0); naive_solver. Qed.
Lemma nz_false z : nz z = false ↔ z = 0.
Proof. unfold nz. destruct (Z.eqb_spec z 0); naive_solver. Qed.

(** ** Search loops

    A loop whose body only looks at the state computes the first hit. *)

Fixpoint first_some {B} (n : nat) (i : Z) (f : Z → option B) : option B :=
  match n with
  | O => None
  | S n' => match f i with Some b => Some b | None => first_some n' (i + 1) f end
  end.
Arguments first_some : simpl never.

Section Search.
Context {S B : Type}.
Implicit Types (f : Z → option B) (s : S).

Lemma for_up_search n i (body : Z → M S (option B)) f s :
  (∀ k, i ≤ k < i + Z.of_nat n → body k s = Done (f k) s) →
  for_up n i body s = Done (first_some n i f) s.
Proof.
  revert i. induction n as [|n IH]; intros i Hb; [done|].
  unfold for_up, first_some; fold (@for_up S B) (@first_some B).
  unfold mbind, M_bind. rewrite Hb by lia.
  destruct (f i); [done|]. apply IH. intros. apply Hb. lia.
Qed.

Lemma first_some_Some n i f b :
  first_some n i f = Some b →
  ∃ j, i ≤ j < i + Z.of_nat n ∧ f j = Some b ∧ ∀ j', i ≤ j' < j → f j' = None.
Proof.
  revert i. induction n as [|n IH]; intros i; [done|].
  unfold first_some; fold (@first_some B). destruct (f i) as [b'|] eqn:E.
  - intros [= ->]. exists i. split_and!; [lia|lia|done|lia].
  - intros (j & ? & ? & Hlt)%IH. exists j. split_and!; [lia|lia|done|].
    intros j' ?. destruct (decide (j' = i)) as [->|]; [done|]. apply Hlt. lia.
Qed.

Lemma first_some_None n i f :
  first_some n i f = None ↔ ∀ j, i ≤ j < i + Z.of_nat n → f j = None.
Proof.
  revert i. induction n as [|n IH]; intros i.
  - split; [lia|done].
  - unfold first_some; fold (@first_some B). destruct (f i) as [b|] eqn:E.
    + split; [done|]. intros H. rewrite H in E by lia. done.
    + rewrite IH. split; intros H j ?; [|apply H; lia].
      destruct (decide (j = i)) as [->|]; [done|]. apply H. lia.
Qed.

Lemma first_some_unique n i f j b :
  i ≤ j < i + Z.of_nat n → f j = Some b → (∀ j', i ≤ j' < j → f j' = None) →
  first_some n i f = Some b.
Proof.
  intros Hj Hb Hlt. destruct (first_some n i f) as [b'|] eqn:E.
  - apply first_some_Some in E as (j' & ? & Hj' & Hlt').
    destruct (Z.lt_trichotomy j j') as [?|[->|?]].
    + rewrite Hlt' in Hb by lia. done.
    + congruence.
    + rewrite Hlt in Hj' by lia. done.
  - rewrite first_some_None in E. rewrite E in Hb by lia. done.
Qed.
End Search.

(** Deterministic evaluation of a computation whose prefix is known. *)
Lemma bind_fault {S A B} (c : M S A) (f : A → M S B) s : c s = Fault → (c ≫= f) s = Fault.
Proof. unfold mbind, M_bind. by intros ->. Qed.

Lemma bind_done {S A B} (c : M S A) (f : A → M S B) s a s' :
  c s = Done a s' → (c ≫= f) s = f a s'.
Proof. unfold mbind, M_bind. by intros ->. Qed.

Lemma bind_inv {S A B} (c : M S A) (f : A → M S B) s b s' :
  (c ≫= f) s = Done b s' → ∃ a s1, c s = Done a s1 ∧ f a s1 = Done b s'.
Proof. unfold mbind, M_bind. destruct (c s); naive_solver. Qed.

Lemma wp_of_eq {S A} (c : M S A) Q s a s' : c s = Done a s' → Q a s' → wp c Q s.
Proof. unfold wp. by intros ->. Qed.

(** ** Frames

    [c] leaves the part [f] of the state alone whenever it returns. *)
Definition preserves {S A B} (f : S → B) (c : M S A) : Prop :=
  ∀ s a s', c s = Done a s' → f s' = f s.

Lemma preserves_ret {S A B} (f : S → B) (a : A) : preserves f (mret a : M S A).
Proof. by intros s b s' [= _ ->]. Qed.

Lemma preserves_bind {S A B C} (f : S → C) (c : M S A) (g : A → M S B) :
  preserves f c → (∀ a, preserves f (g a)) → preserves f (c ≫= g).
Proof.
  intros Hc Hg s b s' (a & s1 & E1 & E2)%bind_inv.
  by rewrite (Hg _ _ _ _ E2), (Hc _ _ _ E1).
Qed.

Lemma preserves_for_up {S B C} (f : S → C) n i (body : Z → M S (option B)) :
  (∀ i, preserves f (body i)) → preserves f (for_up n i body).
Proof.
  intros Hb. revert i. induction n as [|n IH]; intros i; simpl; [apply preserves_ret|].
  apply preserves_bind; [apply Hb|]. intros [b|]; [apply preserves_ret|apply IH].
Qed.

Lemma preserves_gets {S A B} (f : S → B) (g : S → A) : preserves f (gets g).
Proof. by intros s b s' [= _ ->]. Qed.

Lemma preserves_get {S B} (f : S → B) : preserves f get_state.
Proof. by intros s b s' [= _ ->]. Qed.

Lemma preserves_from_opt {S A B} (f : S → B) (o : option A) : preserves f (from_opt o : M S A).
Proof. intros s b s'. unfold from_opt. destruct o; congruence. Qed.

Lemma preserves_modify {S B} (f : S → B) g : (∀ s, f (g s) = f s) → preserves f (modify g).
Proof. intros Hg s [] s' [= <-]. apply Hg. Qed.

Create HintDb frame.
#[export] Hint Resolve preserves_ret preserves_bind preserves_for_up preserves_gets
  preserves_get preserves_from_opt : frame.

(** A loop that takes state [F i] to [F (i + 1)] at each index. *)
Lemma for_all_eq {S} (n : nat) (i : Z) (body : Z → M S unit) (F : Z → S) :
  (∀ k, i ≤ k < i + Z.of_nat n → body k (F k) = Done tt (F (k + 1))) →
  for_all n i body (F i) = Done tt (F (i + Z.of_nat n)).
Proof.
  intros Hb.
  pose proof (wp_for_all n i body (λ k s, s = F k) (F i)) as Hwp.
  apply wp_run in Hwp as ([] & s' & -> & ->); [done| |done].
  intros k s Hk ->. unfold wp. by rewrite Hb.
Qed.

(** A loop that is left in its first round, and one whose body goes wrong in
    round [k]. *)
Lemma for_up_first {S B} n i (body : Z → M S (option B)) s b s' : (0 < n)%nat →
  body i s = Done (Some b) s' → for_up n i body s = Done (Some b) s'.
Proof. intros Hn E. destruct n as [|n]; [lia|]. unfold for_up; fold (@for_up S B). by rewrite (bind_done _ _ _ _ _ E). Qed.

Lemma for_all_fault {S} (k n : nat) (i : Z) (body : Z → M S unit) (F : Z → S) : (k < n)%nat →
  (∀ j, i ≤ j < i + Z.of_nat k → body j (F j) = Done tt (F (j + 1))) →
  body (i + Z.of_nat k) (F (i + Z.of_nat k)) = Fault → for_all n i body (F i) = Fault.
Proof.
  unfold for_all. intros Hk Hb Hf. apply bind_fault.
  revert n i Hk Hb Hf. induction k as [|k IH]; intros [|n] i Hk Hb Hf; try lia;
    unfold for_up; fold (@for_up S unit).
  - rewrite Z.add_0_r in Hf. by do 2 apply bind_fault.
  - rewrite (bind_done (body i ;; mret None) _ _ None (F (i + 1))).
    2: { by rewrite (bind_done _ _ _ _ _ (Hb i ltac:(lia))). }
    apply IH; [lia| |].
    + intros j Hj. apply Hb. lia.
    + by replace (i + 1 + Z.of_nat k) with (i + Z.of_nat (Datatypes.S k)) by lia.
Qed.

(** ** Invariants

    [keeps P c]: from a state that satisfies [P] the computation returns, in a
    state that satisfies [P]. *)
Definition keeps {S A} (P : S → Prop) (c : M S A) : Prop := ∀ s, P s → wp c (λ _, P) s.

Section Keeps.
Context {S : Type} (P : S → Prop).

Lemma keeps_ret {A} (a : A) : keeps P (mret a : M S A).
Proof. by intros s Hs. Qed.

Lemma keeps_bind {A B} (c : M S A) (f : A → M S B) :
  keeps P c → (∀ a, keeps P (f a)) → keeps P (c ≫= f).
Proof. intros Hc Hf s Hs. apply wp_bind. eapply wp_mono; [by apply Hc|]. intros a s' Hs'. by apply Hf. Qed.

Lemma keeps_gets {A} (f : S → A) : keeps P (gets f).
Proof. by intros s Hs. Qed.

Lemma keeps_modify f : (∀ s, P s → P (f s)) → keeps P (modify f).
Proof. intros Hf s Hs. by apply wp_modify, Hf. Qed.

Lemma keeps_if {A} (b : bool) (c d : M S A) : keeps P c → keeps P d → keeps P (if b then c else d).
Proof. by destruct b. Qed.

Lemma keeps_for_up {B} n i (body : Z → M S (option B)) :
  (∀ k, keeps P (body k)) → keeps P (for_up n i body).
Proof.
  intros Hb s Hs. eapply wp_mono; [apply (wp_for_up n i body (λ _, P) (λ _, P)); [|done]|].
  - intros k s' _ Hs'. eapply wp_mono; [by apply Hb|]. by intros [].
  - by intros [].
Qed.

Lemma keeps_for_all n i (body : Z → M S unit) :
  (∀ k, keeps P (body k)) → keeps P (for_all n i body).
Proof.
  intros Hb. unfold for_all. apply keeps_bind; [|intros; apply keeps_ret].
  apply keeps_for_up. intros k. apply keeps_bind; [apply Hb|]. intros. apply keeps_ret.
Qed.
End Keeps.

Create HintDb keeps.
#[export] Hint Resolve keeps_ret keeps_bind keeps_gets keeps_if keeps_for_up keeps_for_all : keeps.

(** ** Computations that may stop the machine

    [wph H c Q s]: the computation returns and [Q] holds, or it stops the
    machine ([hcf], [panic]) in a state that satisfies [H]. *)
Definition wph {S A} (H : S → Prop) (c : M S A) (Q : A → S → Prop) (s : S) : Prop :=
  match c s with Done a s' => Q a s' | Panicked s' => H s' | Fault => False end.
Arguments wph : simpl never.

Section WPH.
Context {S : Type} (H : S → Prop).

Lemma wph_ret {A} (a : A) Q s : Q a s → wph H (mret a : M S A) Q s.
Proof. done. Qed.

Lemma wph_bind {A B} (c : M S A) (f : A → M S B) Q s :
  wph H c (λ a, wph H (f a) Q) s → wph H (c ≫= f) Q s.
Proof. unfold wph, mbind, M_bind. destruct (c s); naive_solver. Qed.

Lemma wph_assoc {A B C} (c : M S A) (f : A → M S B) (g : B → M S C) Q s :
  wph H (c ≫= f) (λ b, wph H (g b) Q) s → wph H (c ≫= λ a, f a ≫= g) Q s.
Proof. unfold wph, mbind, M_bind. by destruct (c s) as [a s'|s'|]; [destruct (f a s')|..]. Qed.

Lemma wph_mono {A} (c : M S A) (Q Q' : A → S → Prop) s :
  wph H c Q s → (∀ a s', Q a s' → Q' a s') → wph H c Q' s.
Proof. unfold wph. destruct (c s); naive_solver. Qed.

Lemma wph_gets {A} (f : S → A) Q s : Q (f s) s → wph H (gets f) Q s.
Proof. done. Qed.

Lemma wph_modify f Q s : Q tt (f s) → wph H (modify f) Q s.
Proof. done. Qed.

Lemma wph_panic {A} (Q : A → S → Prop) s : H s → wph H panic Q s.
Proof. done. Qed.

Lemma wph_wp {A} (c : M S A) Q s : wp c Q s → wph H c Q s.
Proof. unfold wp, wph. destruct (c s); naive_solver. Qed.

Lemma wph_for_up {B} (n : nat) (i : Z) (body : Z → M S (option B))
    (I : Z → S → Prop) (Q : B → S → Prop) s :
  (∀ k s, i ≤ k < i + Z.of_nat n → I k s →
     wph H (body k) (λ r s', match r with Some b => Q b s' | None => I (k + 1) s' end) s) →
  I i s →
  wph H (for_up n i body)
     (λ r s', match r with Some b => Q b s' | None => I (i + Z.of_nat n) s' end) s.
Proof.
  revert i s. induction n as [|n IH]; intros i s Hb Hi; unfold for_up; fold (@for_up S B).
  - apply wph_ret. by replace (i + Z.of_nat 0) with i by lia.
  - apply wph_bind. eapply wph_mono; [apply Hb; [lia|done]|].
    intros [b|] s' Hs'; [by apply wph_ret|].
    replace (i + Z.of_nat (Datatypes.S n)) with (i + 1 + Z.of_nat n) by lia.
    apply IH; [|done]. intros. apply Hb; [lia|done].
Qed.

Lemma wph_for_all (n : nat) (i : Z) (body : Z → M S unit) (I : Z → S → Prop) s :
  (∀ k s, i ≤ k < i + Z.of_nat n → I k s → wph H (body k) (λ _ s', I (k + 1) s') s) →
  I i s →
  wph H (for_all n i body) (λ _ s', I (i + Z.of_nat n) s') s.
Proof.
  intros Hb Hi. unfold for_all. apply wph_bind.
  eapply wph_mono; [eapply (wph_for_up n i _ I (λ _ _, False)); [|done]|].
  - intros k s' Hk HI. apply wph_bind. eapply wph_mono; [by apply Hb|].
    intros [] s'' ?. by apply wph_ret.
  - intros [b|] s' ?; [done|]. by apply wph_ret.
Qed.
End WPH.
