(* ===== verification/Proc.v ===== *)
(** * Processes, the process table and the kernel state

    Models [include/proc.h], [arch/x86/include/idt.h] (the register frame) and
    the globals of [kernel/sched.c].  A pointer is a [Z], [NULL] is [0].  The
    objects that live behind pointers are typed heaps: [procs] holds the
    [process_t] objects, [vfiles] the [vfs_file_t] objects.  Dereferencing a
    pointer that has no object is a [Fault]. *)

From S2P Require Import Prelude.

(** ** Constants of [proc.h], [gdt.h] and [idt.h] *)

Definition SIGINT : Z := 2.
Definition SIGKILL : Z := 9.
Definition SIGTERM : Z := 15.
Definition MAX_PROCESSES : Z := 64.
Definition MAX_FILES : Z := 32.
Definition KTHREAD_STACK_SIZE : Z := 16384.
(** [sizeof(process_t)], [sizeof(vfs_file_t)], [sizeof(registers_t)]. *)
Definition sizeof_process : Z := 1872.
Definition sizeof_vfs_file : Z := 24.
Definition sizeof_registers : Z := 192.

Inductive task_state :=
| TASK_RUNNING | TASK_READY | TASK_SLEEPING | TASK_WAITING | TASK_ZOMBIE.
#[global] Instance task_state_eq_dec : EqDecision task_state.
Proof. solve_decision. Defined.

Inductive task_prio := PRIO_IDLE | PRIO_LOW | PRIO_NORMAL | PRIO_HIGH.
#[global] Instance task_prio_eq_dec : EqDecision task_prio.
Proof. solve_decision. Defined.

(** The cast [(int)proc->priority]. *)
Definition prio_int (p : task_prio) : Z :=
  match p with PRIO_IDLE => 0 | PRIO_LOW => 1 | PRIO_NORMAL => 2 | PRIO_HIGH => 3 end.

Lemma prio_int_range p : 0 ≤ prio_int p ≤ 3.
Proof. by destruct p. Qed.

Inductive process_wait_reason := WAIT_NONE | WAIT_CHILD | WAIT_TTY.
#[global] Instance wait_reason_eq_dec : EqDecision process_wait_reason.
Proof. solve_decision. Defined.

(** [void *wait_channel]: [NULL] or the address of [ttys[id]]. *)
Inductive channel := ChanNull | ChanTty (id : Z).
#[global] Instance channel_eq_dec : EqDecision channel.
Proof. solve_decision. Defined.

(** ** [registers_t] *)

Record registers := mkRegisters {
  es : Z; ds : Z;
  r15 : Z; r14 : Z; r13 : Z; r12 : Z; r11 : Z; r10 : Z; r9 : Z; r8 : Z;
  rdi : Z; rsi : Z; rbp : Z; rbx : Z; rdx : Z; rcx : Z; rax : Z;
  int_no : Z; err_code : Z;
  rip : Z; cs : Z; rflags : Z; rsp : Z; ss : Z }.

#[global] Instance registers_eta : Etable registers := λ r,
  mkRegisters (es r) (ds r) (r15 r) (r14 r) (r13 r) (r12 r) (r11 r) (r10 r)
    (r9 r) (r8 r) (rdi r) (rsi r) (rbp r) (rbx r) (rdx r) (rcx r) (rax r)
    (int_no r) (err_code r) (rip r) (cs r) (rflags r) (rsp r) (ss r).

Definition zero_registers : registers :=
  mkRegisters 0 0 0 0 0 0 0 0 0 0 0 0 0 0 0 0 0 0 0 0 0 0 0 0.

#[global] Instance registers_eq_dec : EqDecision registers.
Proof. solve_decision. Defined.

(** ** [vfs_file_t] *)

Record vfs_file := mkVfsFile { f_node : Z; f_pos : Z; f_flags : Z }.
#[global] Instance vfs_file_eta : Etable vfs_file := λ f,
  mkVfsFile (f_node f) (f_pos f) (f_flags f).

(** ** [process_t]

    [context_ptr] is [NULL] or [&p->context]; it is the address of the process
    whose context it points to. *)

Record process := mkProcess {
  pid : Z; parent_pid : Z; exit_code : Z;
  pml4 : Z; entry : Z; stack_top : Z; kstack_top : Z; brk : Z; brk_start : Z;
  context : registers; context_ptr : Z;
  state : task_state; priority : task_prio;
  wait_reason : process_wait_reason; wait_channel : channel; wait_pid : Z;
  files : list Z; vfse : Z; sse_state : list Z;
  tls_base : Z; tls_size : Z; is_kthread : bool; sleep_deadline : Z;
  pending_signals : Z; blocked_signals : Z; signal_handlers : list Z;
  saved_user_context : registers; inside_signal_handler : bool;
  name : list Z }.

#[global] Instance process_eta : Etable process := λ p,
  mkProcess (pid p) (parent_pid p) (exit_code p) (pml4 p) (entry p) (stack_top p)
    (kstack_top p) (brk p) (brk_start p) (context p) (context_ptr p) (state p)
    (priority p) (wait_reason p) (wait_channel p) (wait_pid p) (files p) (vfse p)
    (sse_state p) (tls_base p) (tls_size p) (is_kthread p) (sleep_deadline p)
    (pending_signals p) (blocked_signals p) (signal_handlers p)
    (saved_user_context p) (inside_signal_handler p) (name p).

(** A [process_t] filled with zero bytes. *)
Definition zero_process : process :=
  mkProcess 0 0 0 0 0 0 0 0 0 zero_registers 0 TASK_RUNNING PRIO_IDLE
    WAIT_NONE ChanNull 0 (replicate (Z.to_nat MAX_FILES) 0) 0 (replicate 512 0)
    0 0 false 0 0 0 (replicate 64 0) zero_registers false (replicate 32 0).

(** ** What the scheduler needs from memory management

    The interface of [mm/slab.c] ([kmalloc], [kfree]) and [mm/vmm.c] (address
    spaces) as the process code uses it.  [kmalloc] and [vmm_clone_pml4] return
    [0] for [NULL]. *)

Class KEnv := {
  kenv : Type;
  kmalloc : Z → kenv → Z * kenv;
  kfree : Z → kenv → kenv;
  vmm_clone_pml4 : Z → kenv → Z * kenv;
  vmm_free_user_pages : Z → kenv → kenv;
  vmm_get_kernel_pml4 : kenv → Z;
  hhdm_offset : Z;
  (* link-time addresses of two functions, and the FPU image after [fninit] *)
  kernel_idle_loop : Z;
  kthread_trampoline : Z;
  fninit : list Z → list Z }.

(** What it promises.

    [live e p]: [p] was handed out by [kmalloc] and not given to [kfree] since;
    such addresses lie in the range [on_heap].  A non-null result of [kmalloc] is
    an address of that range that was not live, and the object fits below the end
    of the address space; [kfree] of a live address ends the life of that address
    and of no other.  (What the allocator makes of a dead block is its own affair.)

    [space e t]: the user half of the address space [t] is set up and has not been
    torn down; [view e t] is the user memory it shows, byte by byte.  A clone is a
    new space that shows what its original shows (user memory is mapped in pages
    of 4 KiB; the code would skip larger ones).  [vmm_free_user_pages] ends a
    space.  The spaces are independent: nothing else changes what one shows.
    Top-level tables are not on the heap, and [kfree] of one whose user half has
    been torn down does nothing: the word it reads as [slot_size] is part of
    entry 2. *)
Class KEnvOk `{!KEnv} := {
  live : kenv → Z → Prop;
  on_heap : Z → Prop;
  space : kenv → Z → Prop;
  view : kenv → Z → Z → option Z;
  live_heap e p : live e p → on_heap p;
  space_table e t : space e t → ¬ on_heap t;
  kmalloc_fresh n e p e' : kmalloc n e = (p, e') → p ≠ 0 →
    ¬ live e p ∧ ∀ q, live e' q ↔ q = p ∨ live e q;
  kmalloc_range n e p e' : kmalloc n e = (p, e') → p ≠ 0 → 0 < p ∧ p + n < 2 ^ 64;
  kmalloc_null n e e' : kmalloc n e = (0, e') → ∀ q, live e' q ↔ live e q;
  kmalloc_space n e p e' : kmalloc n e = (p, e') →
    ∀ t, (space e' t ↔ space e t) ∧ (space e t → view e' t = view e t);
  kfree_live e p : live e p → ∀ q, live (kfree p e) q ↔ live e q ∧ q ≠ p;
  kfree_space e p : live e p →
    ∀ t, (space (kfree p e) t ↔ space e t) ∧ (space e t → view (kfree p e) t = view e t);
  clone_live t e t' e' : vmm_clone_pml4 t e = (t', e') →
    (t' ≠ 0 → ¬ on_heap t') ∧ ∀ q, live e' q ↔ live e q;
  clone_space t e t' e' : vmm_clone_pml4 t e = (t', e') →
    (t' ≠ 0 → ¬ space e t' ∧ (space e t → view e' t' = view e t)) ∧
    ∀ u, (space e' u ↔ (u = t' ∧ t' ≠ 0) ∨ space e u) ∧ (space e u → view e' u = view e u);
  free_pages_live t e q : live (vmm_free_user_pages t e) q ↔ live e q;
  free_pages_space t e u : (space (vmm_free_user_pages t e) u ↔ space e u ∧ u ≠ t) ∧
    (space e u → u ≠ t → view (vmm_free_user_pages t e) u = view e u);
  kfree_table t e : ¬ on_heap t → let e1 := vmm_free_user_pages t e in
    (∀ q, live (kfree t e1) q ↔ live e1 q) ∧
    ∀ u, (space (kfree t e1) u ↔ space e1 u) ∧ (space e1 u → view (kfree t e1) u = view e1 u) }.

Lemma kfree_other `{!KEnv} `{!KEnvOk} e p q : live e p → q ≠ p → live e q → live (kfree p e) q.
Proof. intros Hp Hne Hq. by apply kfree_live. Qed.

(** ** Kernel state

    The globals of [kernel/sched.c], the typed heaps, the per-CPU stack slots
    [tss_per_cpu[i].rsp0] and [cpu_contexts[i].kernel_stack], the register
    frames stored on kernel stacks, and the CPU's FPU registers, [cr3] and id. *)

Section State.
Context `{!KEnv}.

Record kst := mkKst {
  processes : list Z; process_count : Z; current_process_index : Z;
  current_process : Z; init_process : Z; idle_process : Z; rr_cursor : Z;
  next_pid : Z;
  procs : gmap Z process; vfiles : gmap Z vfs_file;
  timer_ticks : Z; cpu_id : Z;
  tss_rsp0 : gmap Z Z; cpu_kernel_stack : gmap Z Z; kframes : gmap Z registers;
  fpu : list Z; cr3 : Z;
  env : kenv }.

#[global] Instance kst_eta : Etable kst := λ k,
  mkKst (processes k) (process_count k) (current_process_index k)
    (current_process k) (init_process k) (idle_process k) (rr_cursor k)
    (next_pid k) (procs k) (vfiles k) (timer_ticks k) (cpu_id k) (tss_rsp0 k)
    (cpu_kernel_stack k) (kframes k) (fpu k) (cr3 k) (env k).

(** [proc->...]: reading and writing through a [process_t*]. *)
Definition load (p : Z) : M kst process := λ k,
  if p =? 0 then Fault else
  match procs k !! p with Some q => Done q k | None => Fault end.

Definition store (p : Z) (q : process) : M kst unit := λ k,
  if p =? 0 then Fault else
  match procs k !! p with
  | Some _ => Done tt (k <| procs := <[p := q]> (procs k) |>)
  | None => Fault
  end.

Definition upd (p : Z) (f : process → process) : M kst unit :=
  q ← load p; store p (f q).

(** [processes[i]] *)
Definition slot (i : Z) : M kst Z := λ k,
  if decide (0 ≤ i) then
    match processes k !! Z.to_nat i with Some p => Done p k | None => Fault end
  else Fault.

Definition set_slot (i p : Z) : M kst unit := λ k,
  if decide (0 ≤ i < MAX_PROCESSES) then
    Done tt (k <| processes := <[Z.to_nat i := p]> (processes k) |>)
  else Fault.

(** [kmalloc]; [kzalloc(sizeof(process_t))]; [kfree]: the object at the freed
    address is gone. *)
Definition k_malloc (n : Z) : M kst Z := λ k,
  let '(p, e') := kmalloc n (env k) in Done p (k <| env := e' |>).

Definition kzalloc_process : M kst Z := λ k,
  let '(p, e') := kmalloc sizeof_process (env k) in
  if p =? 0 then Done 0 (k <| env := e' |>)
  else Done p (k <| env := e' |> <| procs := <[p := zero_process]> (procs k) |>).

Definition k_free (p : Z) : M kst unit := λ k,
  Done tt (k <| env := kfree p (env k) |>
             <| procs := delete p (procs k) |>
             <| vfiles := delete p (vfiles k) |>).

(** [vmm_switch]: load the physical address of the table into [cr3]. *)
Definition vmm_switch (t : Z) : M kst unit :=
  modify (λ k, k <| cr3 := u64 (t - hhdm_offset) |>).

Definition k_clone_pml4 (t : Z) : M kst Z := λ k,
  let '(p, e') := vmm_clone_pml4 t (env k) in Done p (k <| env := e' |>).

Definition k_free_user_pages (t : Z) : M kst unit :=
  modify (λ k, k <| env := vmm_free_user_pages t (env k) |>).

(** [dup_file] of [lib/libc/fs/vfs.c]. *)
Definition dup_file (src : Z) : M kst Z :=
  if src =? 0 then mret 0 else
  p ← k_malloc sizeof_vfs_file;
  if p =? 0 then mret 0 else
  k ← get_state;
  f ← from_opt (vfiles k !! src);
  modify (λ k, k <| vfiles := <[p := f]> (vfiles k) |>) ;;
  mret p.
End State.
