(* ===== verification/Bump.v ===== *)
(** * A concrete memory manager

    The smallest instance of the interface [KEnv]: addresses are handed out in
    increasing order and never reused, address spaces come from a range of
    their own.  It shows that the laws of [KEnvOk] can hold together, and it
    makes the process code executable. *)

From S2P Require Import Prelude Proc.

(** [bump_spaces]: the memory of each address space. *)
Record bump := mkBump {
  bump_next : Z; bump_table : Z; bump_live : list Z; bump_spaces : Z → option (Z → option Z) }.

Definition BUMP_BASE : Z := 0x10000.
Definition BUMP_LIMIT : Z := 0x4000000000.

(** The heap lies below [BUMP_LIMIT], the tables above it. *)
Definition bump_malloc (n : Z) (e : bump) : Z * bump :=
  let p := Z.max BUMP_BASE (bump_next e) in
  if (n <=? 0) || (BUMP_LIMIT <=? p + n) || bool_decide (p ∈ bump_live e) then (0, e)
  else (p, mkBump (p + 16 * ((n + 15) / 16)) (bump_table e) (p :: bump_live e) (bump_spaces e)).

Definition bump_clone (t : Z) (e : bump) : Z * bump :=
  let t' := Z.max BUMP_LIMIT (bump_table e) in
  match bump_spaces e t' with
  | Some _ => (0, e)
  | None => (t', mkBump (bump_next e) (t' + 4096) (bump_live e)
                   (λ u, if u =? t' then Some (default (λ _, None) (bump_spaces e t))
                         else bump_spaces e u))
  end.

Definition bump_drop (t : Z) (e : bump) : bump :=
  mkBump (bump_next e) (bump_table e) (bump_live e) (λ u, if u =? t then None else bump_spaces e u).

#[global] Instance bump_env : KEnv := {|
  kenv := bump;
  kmalloc := bump_malloc;
  kfree p e := mkBump (bump_next e) (bump_table e) (filter (λ q, q ≠ p) (bump_live e))
               (bump_spaces e);
  vmm_clone_pml4 := bump_clone;
  vmm_free_user_pages := bump_drop;
  vmm_get_kernel_pml4 _ := BUMP_LIMIT - 4096;
  hhdm_offset := 0;
  kernel_idle_loop := 0x1000;
  kthread_trampoline := 0x1100;
  fninit f := f |}.

#[global] Program Instance bump_env_ok : KEnvOk := {|
  live := λ e p, p ∈ bump_live e ∧ p < BUMP_LIMIT;
  on_heap := λ p, p < BUMP_LIMIT;
  space := λ e t, is_Some (bump_spaces e t) ∧ BUMP_LIMIT ≤ t;
  view := λ e t, default (λ _, None) (bump_spaces e t) |}.
Next Obligation. by intros e p []. Qed.
Next Obligation. simpl. intros e t [_ ?]. lia. Qed.
Next Obligation.
  simpl. intros n e p e'. unfold bump_malloc. destruct (_ || _) eqn:E; intros [= <- <-] Hp; [done|].
  rewrite !orb_false_iff, bool_decide_eq_false, Z.leb_gt, Z.leb_gt in E.
  split; [naive_solver|]. intros q. simpl. rewrite elem_of_cons. intuition (subst; lia).
Qed.
Next Obligation.
  simpl. intros n e p e'. unfold bump_malloc, BUMP_BASE, BUMP_LIMIT.
  destruct (_ || _) eqn:E; intros [= <- <-] Hp; [done|]. rewrite !orb_false_iff in E.
  destruct E as [[_ E] _]. apply Z.leb_gt in E. lia.
Qed.
Next Obligation.
  simpl. intros n e e'. unfold bump_malloc. destruct (_ || _); intros [=]; subst; [done|].
  unfold BUMP_BASE in *. lia.
Qed.
Next Obligation.
  simpl. intros n e p e'. unfold bump_malloc. by destruct (_ || _); intros [= <- <-] t.
Qed.
Next Obligation.
  simpl. intros e p _ q. rewrite list_elem_of_filter. naive_solver.
Qed.
Next Obligation. done. Qed.
Next Obligation.
  simpl. intros t e t' e'. unfold bump_clone. destruct (bump_spaces e _); intros [= <- <-]; [done|].
  split; [lia|done].
Qed.
Next Obligation.
  simpl. intros t e t' e'. unfold bump_clone. destruct (bump_spaces e _) eqn:E; intros [= <- <-].
  { split; [done|]. naive_solver. }
  simpl. set (t' := Z.max _ _) in *.
  split; [|intros u; split].
  - intros _. rewrite E, Z.eqb_refl. split; [|done]. by intros [[? [=]] _].
  - destruct (Z.eqb_spec u t') as [->|]; [|tauto]. rewrite E. split; [|intros _; split; [by eexists|unfold t'; lia]].
    intros _. left. unfold t', BUMP_LIMIT. lia.
  - intros [[m Hm] _]. destruct (Z.eqb_spec u t') as [->|]; [congruence|done].
Qed.
Next Obligation. done. Qed.
Next Obligation.
  simpl. intros t e u. destruct (Z.eqb_spec u t) as [->|]; [|naive_solver].
  split; [|done]. split; [by intros [[? [=]] _]|by intros [_ []]].
Qed.
Next Obligation.
  simpl. intros t e Ht. split; [|done]. intros q. rewrite list_elem_of_filter.
  intuition (subst; lia).
Qed.

(** The state before [init_scheduler]. *)
Definition bump_start : kst :=
  mkKst [] 0 0 0 0 0 0 1 ∅ ∅ 0 0 ∅ ∅ ∅ [] 0 (mkBump BUMP_BASE BUMP_LIMIT [] (λ _, None)).

(** Run a computation that is known to return. *)
Definition run {A} (c : M kst A) (k : kst) : kst :=
  match c k with Done _ k' => k' | Panicked k' => k' | Fault => k end.
