(* ===== verification/Sched.v ===== *)
(** * The scheduler: [kernel/sched.c]

    The process table, priority round-robin selection, sleeping and waking,
    [do_wait], [do_exit] and [clone_process]. *)

From S2P Require Import Prelude Proc.

(** What a [registers_t*] returned by the scheduler points to: the frame the
    caller passed in, the saved context of a process, or nothing. *)
Inductive frame := SameFrame | ContextOf (p : Z) | NullFrame.
#[global] Instance frame_eq_dec : EqDecision frame.
Proof. solve_decision. Defined.

Definition frame_of_ptr (p : Z) : frame := if p =? 0 then NullFrame else ContextOf p.
Definition is_some {A} (o : option A) : bool :=
  match o with Some _ => true | None => false end.
Definition frame_of_regs (regs : option registers) : frame :=
  if is_some regs then SameFrame else NullFrame.

Section Sched.
Context `{!KEnv}.

(** ** The process table *)

Definition process_table_find_free_slot : M kst Z :=
  r ← for_up (Z.to_nat MAX_PROCESSES) 0 (λ i,
        p ← slot i;
        mret (if negb (nz p) then Some i else None));
  mret (default (-1) r).

Definition process_table_find (proc : Z) : M kst Z :=
  if negb (nz proc) then mret (-1) else
  r ← for_up (Z.to_nat MAX_PROCESSES) 0 (λ i,
        p ← slot i;
        mret (if p =? proc then Some i else None));
  mret (default (-1) r).

Definition find_process_by_pid (n : Z) : M kst Z :=
  r ← for_up (Z.to_nat MAX_PROCESSES) 0 (λ i,
        p ← slot i;
        if nz p then
          q ← load p;
          mret (if pid q =? n then Some p else None)
        else mret None);
  mret (default 0 r).

Definition process_remove (proc : Z) : M kst unit :=
  index ← process_table_find proc;
  if index <? 0 then mret tt else
  set_slot index 0 ;;
  modify (λ k, if 0 <? process_count k
               then k <| process_count := process_count k - 1 |> else k) ;;
  modify (λ k, if current_process_index k =? index
               then k <| current_process_index := -1 |> else k).

Definition process_save_context (proc : Z) (regs : option registers) : M kst unit :=
  if negb (nz proc) then mret tt else
  match regs with
  | None => mret tt
  | Some r => upd proc (λ q, q <| context := r |> <| context_ptr := proc |>)
  end.

(** ** Selection *)

Definition process_is_runnable (proc : Z) : M kst bool :=
  if negb (nz proc) then mret false else
  idle ← gets idle_process;
  if proc =? idle then mret false else
  q ← load proc;
  mret (bool_decide (state q = TASK_READY) || bool_decide (state q = TASK_RUNNING)).

Definition wake_sleeping_processes : M kst unit :=
  now ← gets timer_ticks;
  for_all (Z.to_nat MAX_PROCESSES) 0 (λ i,
    p ← slot i;
    if negb (nz p) then mret tt else
    q ← load p;
    if bool_decide (state q ≠ TASK_SLEEPING) then mret tt else
    if nz (sleep_deadline q) && (sleep_deadline q <=? now) then
      store p (q <| sleep_deadline := 0 |> <| state := TASK_READY |>)
    else mret tt).

Fixpoint highest_from (n : nat) (i highest : Z) : M kst Z :=
  match n with
  | O => mret highest
  | S n' =>
      p ← slot i;
      r ← process_is_runnable p;
      if negb r then highest_from n' (i + 1) highest else
      q ← load p;
      highest_from n' (i + 1)
        (if highest <? prio_int (priority q) then prio_int (priority q) else highest)
  end.

Definition find_highest_priority : M kst Z :=
  highest_from (Z.to_nat MAX_PROCESSES) 0 (-1).

Definition pick_next_process : M kst Z :=
  highest ← find_highest_priority;
  if highest <? 0 then mret (-1) else
  modify (λ k, if (rr_cursor k <? 0) || (MAX_PROCESSES <=? rr_cursor k)
               then k <| rr_cursor := 0 |> else k) ;;
  cursor ← gets rr_cursor;
  r ← for_up (Z.to_nat MAX_PROCESSES) 0 (λ n,
        let index := (cursor + n) `rem` MAX_PROCESSES in
        p ← slot index;
        run ← process_is_runnable p;
        if negb run then mret None else
        q ← load p;
        if negb (prio_int (priority q) =? highest) then mret None
        else mret (Some index));
  mret (default (-1) r).

Definition update_kernel_stack (proc : Z) : M kst unit :=
  if negb (nz proc) then mret tt else
  q ← load proc;
  modify (λ k, k <| tss_rsp0 := <[cpu_id k := kstack_top q]> (tss_rsp0 k) |>
                 <| cpu_kernel_stack := <[cpu_id k := kstack_top q]> (cpu_kernel_stack k) |>).

(** ** Teardown *)

(** The body of the loops that close every file of a process. *)
Definition close_file (proc i : Z) : M kst unit :=
  q ← load proc;
  f ← from_opt (files q !! Z.to_nat i);
  if negb (nz f) then mret tt else
  k_free f ;;
  upd proc (λ q, q <| files := <[Z.to_nat i := 0]> (files q) |>).

Definition process_close_files (proc : Z) : M kst unit :=
  if negb (nz proc) then mret tt else
  for_all (Z.to_nat MAX_FILES) 0 (close_file proc).

Definition process_destroy (proc : Z) : M kst unit :=
  idle ← gets idle_process;
  if negb (nz proc) || (proc =? idle) then mret tt else
  process_close_files proc ;;
  q ← load proc;
  (if nz (kstack_top q) then
     k_free (u64 (kstack_top q - 32768)) ;;
     upd proc (λ q, q <| kstack_top := 0 |>)
   else mret tt) ;;
  q ← load proc;
  (if nz (pml4 q) && negb (is_kthread q) then
     k_free_user_pages (pml4 q) ;;
     upd proc (λ q, q <| pml4 := 0 |>)
   else mret tt) ;;
  k_free proc.

Definition adopt_children (proc : Z) : M kst unit :=
  init ← gets init_process;
  if negb (nz proc) || negb (nz init) || (proc =? init) then mret tt else
  for_all (Z.to_nat MAX_PROCESSES) 0 (λ i,
    child ← slot i;
    if negb (nz child) then mret tt else
    c ← load child;
    q ← load proc;
    if negb (parent_pid c =? pid q) then mret tt else
    ip ← load init;
    upd child (λ c, c <| parent_pid := pid ip |>) ;;
    c ← load child;
    ip ← load init;
    if bool_decide (state c = TASK_ZOMBIE) && bool_decide (state ip = TASK_WAITING)
    then upd init (λ ip, ip <| state := TASK_READY |>)
    else mret tt).

(** ** Entry points *)

Definition init_scheduler : M kst unit :=
  modify (λ k, k <| processes := replicate (Z.to_nat MAX_PROCESSES) 0 |>
                 <| process_count := 0 |> <| current_process_index := -1 |>
                 <| current_process := 0 |> <| init_process := 0 |>
                 <| idle_process := 0 |> <| rr_cursor := 0 |>) ;;
  idle ← kzalloc_process;
  modify (λ k, k <| idle_process := idle |>) ;;
  if negb (nz idle) then panic else
  kp ← gets (λ k, vmm_get_kernel_pml4 (env k));
  upd idle (λ q, q <| pid := 0 |> <| parent_pid := 0 |> <| state := TASK_RUNNING |>
                   <| priority := PRIO_IDLE |> <| is_kthread := true |>
                   <| pml4 := kp |>) ;;
  kstack ← k_malloc 32768;
  if negb (nz kstack) then panic else
  upd idle (λ q, q <| kstack_top := u64 (kstack + 32768) |>) ;;
  upd idle (λ q, q <| context :=
    zero_registers <| es := 0x10 |> <| ds := 0x10 |> <| rip := kernel_idle_loop |>
      <| rsp := kstack_top q |> <| cs := 0x08 |> <| ss := 0x10 |>
      <| rflags := 0x202 |> |>) ;;
  upd idle (λ q, q <| context_ptr := idle |>) ;;
  modify (λ k, k <| fpu := fninit (fpu k) |>) ;;
  image ← gets fpu;
  upd idle (λ q, q <| sse_state := image |>).

Definition add_process (proc : Z) : M kst Z :=
  if negb (nz proc) then mret (-1) else
  i ← process_table_find proc;
  if 0 <=? i then mret 0 else
  s ← process_table_find_free_slot;
  if s <? 0 then mret (-1) else
  set_slot s proc ;;
  modify (λ k, k <| process_count := process_count k + 1 |>) ;;
  mret 0.

(** No process could be selected: keep the running one, or go idle. *)
Definition schedule_idle (old : Z) (regs : option registers) : M kst frame :=
  run ← (if nz old then process_is_runnable old else mret false);
  if (run : bool) then
    upd old (λ q, q <| state := TASK_RUNNING |>) ;; mret (frame_of_regs regs)
  else if negb (nz old) && is_some regs then mret SameFrame
  else
    idle ← gets idle_process;
    if nz idle then
      modify (λ k, k <| current_process := idle |> <| current_process_index := -1 |>) ;;
      update_kernel_stack idle ;;
      q ← load idle;
      mret (frame_of_ptr (context_ptr q))
    else if is_some regs then mret SameFrame
    else panic.

(** Slot [next_index] was selected. *)
Definition schedule_to (old next_index : Z) (regs : option registers) : M kst frame :=
  next ← slot next_index;
  idle ← gets idle_process;
  if negb (nz next) then
    if is_some regs then mret SameFrame
    else if nz idle then q ← load idle; mret (frame_of_ptr (context_ptr q))
    else panic
  else if next =? old then
    upd next (λ q, q <| state := TASK_RUNNING |>) ;;
    modify (λ k, k <| current_process_index := next_index |>
                   <| rr_cursor := (next_index + 1) `rem` MAX_PROCESSES |>) ;;
    mret (frame_of_regs regs)
  else
    (if nz old && negb (old =? idle) then
       image ← gets fpu; upd old (λ q, q <| sse_state := image |>)
     else mret tt) ;;
    nq ← load next;
    (if negb (nz old) then vmm_switch (pml4 nq)
     else oq ← load old;
          if negb (pml4 oq =? pml4 nq) then vmm_switch (pml4 nq) else mret tt) ;;
    modify (λ k, k <| current_process := next |>
                   <| current_process_index := next_index |>) ;;
    upd next (λ q, q <| state := TASK_RUNNING |>) ;;
    modify (λ k, k <| rr_cursor := (next_index + 1) `rem` MAX_PROCESSES |>) ;;
    update_kernel_stack next ;;
    nq ← load next;
    modify (λ k, k <| fpu := sse_state nq |>) ;;
    mret (ContextOf next).

Definition scheduler (regs : option registers) : M kst frame :=
  old ← gets current_process;
  (if nz old && is_some regs then process_save_context old regs else mret tt) ;;
  wake_sleeping_processes ;;
  (if nz old then
     q ← load old;
     if bool_decide (state q = TASK_RUNNING) && is_some regs
     then upd old (λ q, q <| state := TASK_READY |>) else mret tt
   else mret tt) ;;
  next_index ← pick_next_process;
  if next_index <? 0 then schedule_idle old regs
  else schedule_to old next_index regs.

(** The table scan of [do_wait], from slot [i] on. *)
Fixpoint do_wait_from (cur wpid : Z) (n : nat) (i : Z) (has_children : bool)
    : M kst (Z * option Z * bool) :=
  match n with
  | O =>
      if negb has_children then mret (-1, None, false) else
      upd cur (λ q, q <| wait_reason := WAIT_CHILD |> <| wait_channel := ChanNull |>
                      <| wait_pid := wpid |> <| state := TASK_WAITING |>) ;;
      mret (0, None, true)
  | S n' =>
      child ← slot i;
      if negb (nz child) then do_wait_from cur wpid n' (i + 1) has_children else
      c ← load child;
      q ← load cur;
      if negb (parent_pid c =? pid q)
      then do_wait_from cur wpid n' (i + 1) has_children else
      if negb (wpid =? -1) && negb (pid c =? u64 wpid)
      then do_wait_from cur wpid n' (i + 1) has_children else
      if bool_decide (state c ≠ TASK_ZOMBIE)
      then do_wait_from cur wpid n' (i + 1) true else
      process_remove child ;;
      process_destroy child ;;
      upd cur (λ q, q <| wait_reason := WAIT_NONE |> <| wait_channel := ChanNull |>
                      <| wait_pid := -1 |>) ;;
      mret (i32 (pid c), Some (exit_code c), false)
  end.

(** [do_wait(pid, status, should_block)]: the result, the value stored through
    a non-null [status] (when a child is reaped), and the value stored through
    [should_block]. *)
Definition do_wait (wpid : Z) : M kst (Z * option Z * bool) :=
  cur ← gets current_process;
  if negb (nz cur) then mret (-1, None, false) else
  do_wait_from cur wpid (Z.to_nat MAX_PROCESSES) 0 false.

(** [do_exit(code)]: the frame that [force_context_restore] resumes. *)
Definition do_exit (code : Z) : M kst frame :=
  exiting ← gets current_process;
  idle ← gets idle_process;
  if negb (nz exiting) || (exiting =? idle) then panic else
  upd exiting (λ q, q <| exit_code := code |> <| state := TASK_ZOMBIE |>) ;;
  adopt_children exiting ;;
  q ← load exiting;
  parent ← find_process_by_pid (parent_pid q);
  (if nz parent then
     pq ← load parent;
     if bool_decide (state pq = TASK_WAITING) && bool_decide (wait_reason pq = WAIT_CHILD)
     then upd parent (λ q, q <| state := TASK_READY |> <| wait_reason := WAIT_NONE |>
                              <| wait_channel := ChanNull |> <| wait_pid := -1 |>)
     else mret tt
   else mret tt) ;;
  modify (λ k, k <| current_process := 0 |> <| current_process_index := -1 |>) ;;
  next ← scheduler None;
  match next with NullFrame => panic | _ => mret next end.

(** The failure paths of [clone_process] after the kernel stack is allocated. *)
Definition clone_undo (dst kstack : Z) : M kst unit :=
  for_all (Z.to_nat MAX_FILES) 0 (close_file dst) ;;
  k_free kstack ;;
  q ← load dst;
  k_free_user_pages (pml4 q) ;;
  k_free (pml4 q) ;;
  k_free dst.

(** The loop that duplicates the open files; [false] when [dup_file] failed. *)
Definition clone_files (src dst : Z) : M kst bool :=
  r ← for_up (Z.to_nat MAX_FILES) 0 (λ i,
        sq ← load src;
        f ← from_opt (files sq !! Z.to_nat i);
        if negb (nz f) then mret None else
        g ← dup_file f;
        upd dst (λ q, q <| files := <[Z.to_nat i := g]> (files q) |>) ;;
        mret (if nz g then None else Some tt));
  mret (negb (is_some r)).

(** The fields of the child that are copied before anything else is allocated. *)
Definition clone_fields (n : Z) (sq q : process) : process :=
  q <| pid := n |> <| parent_pid := pid sq |>
    <| priority := priority sq |> <| state := TASK_READY |>
    <| is_kthread := false |> <| entry := entry sq |>
    <| stack_top := stack_top sq |> <| brk := brk sq |>
    <| brk_start := brk_start sq |> <| tls_base := tls_base sq |>
    <| tls_size := tls_size sq |>
    <| blocked_signals := blocked_signals sq |>
    <| signal_handlers := signal_handlers sq |>
    <| name := name sq |>.

(** Address space, kernel stack, open files and table entry of the child. *)
Definition clone_resources (src dst : Z) (sq : process) (r : registers) : M kst Z :=
  t ← k_clone_pml4 (pml4 sq);
  upd dst (λ q, q <| pml4 := t |>) ;;
  if negb (nz t) then k_free dst ;; mret 0 else
  kstack ← k_malloc 32768;
  if negb (nz kstack) then
    k_free_user_pages t ;; k_free t ;; k_free dst ;; mret 0
  else
  upd dst (λ q, q <| kstack_top := u64 (kstack + 32768) |>
                  <| context := r <| rax := 0 |> |> <| context_ptr := dst |>
                  <| sse_state := sse_state sq |>) ;;
  ok ← clone_files src dst;
  if negb ok then clone_undo dst kstack ;; mret 0 else
  res ← add_process dst;
  if res <? 0 then clone_undo dst kstack ;; mret 0 else
  mret dst.

Definition clone_process (src : Z) (regs : option registers) : M kst Z :=
  match regs with
  | None => mret 0
  | Some r =>
  if negb (nz src) then mret 0 else
  sq ← load src;
  if bool_decide (state sq = TASK_ZOMBIE) then mret 0 else
  free ← process_table_find_free_slot;
  if free <? 0 then mret 0 else
  dst ← kzalloc_process;
  if negb (nz dst) then mret 0 else
  n ← gets next_pid;
  modify (λ k, k <| next_pid := u64 (n + 1) |>) ;;
  sq ← load src;
  upd dst (clone_fields n sq) ;;
  clone_resources src dst sq r
  end.
End Sched.
