(* ===== verification/SchedInv.v ===== *)
(** * The scheduler's invariant and its correctness

    The functional behaviour of [kernel/sched.c] on every state that satisfies
    the process-table invariant [kinv], and the preservation of [kinv]. *)

From S2P Require Import Prelude Proc Sched.

Section SchedInv.
Context `{!KEnv}.
Implicit Types (k : kst) (p i : Z) (q : process).

(** ** Pure views of the process table *)

Definition slot_at k i : Z := default 0 (processes k !! Z.to_nat i).

Definition runnableb k p : bool :=
  nz p && negb (p =? idle_process k) &&
  match procs k !! p with
  | Some q => bool_decide (state q = TASK_READY) || bool_decide (state q = TASK_RUNNING)
  | None => false
  end.

Definition prio_of k p : Z :=
  match procs k !! p with Some q => prio_int (priority q) | None => -1 end.

(** Every table entry is null or points to a process object. *)
Record table_ok k : Prop := {
  table_length : length (processes k) = Z.to_nat MAX_PROCESSES;
  table_procs p : p ∈ processes k → p ≠ 0 → is_Some (procs k !! p) }.

Lemma load_eq k p q : p ≠ 0 → procs k !! p = Some q → load p k = Done q k.
Proof. intros Hp Hq. unfold load. rewrite (proj2 (Z.eqb_neq p 0)) by done. by rewrite Hq. Qed.

Lemma store_eq k p q q' : p ≠ 0 → procs k !! p = Some q →
  store p q' k = Done tt (k <| procs := <[p := q']> (procs k) |>).
Proof. intros Hp Hq. unfold store. rewrite (proj2 (Z.eqb_neq p 0)) by done. by rewrite Hq. Qed.

Lemma upd_eq k p q f : p ≠ 0 → procs k !! p = Some q →
  upd p f k = Done tt (k <| procs := <[p := f q]> (procs k) |>).
Proof.
  intros Hp Hq. unfold upd. erewrite bind_done by by apply load_eq.
  by eapply store_eq.
Qed.

Section Table.
Context (k : kst) (Hk : table_ok k).

Lemma slot_lookup i : 0 ≤ i < MAX_PROCESSES → processes k !! Z.to_nat i = Some (slot_at k i).
Proof.
  intros Hi. unfold slot_at.
  destruct (lookup_lt_is_Some_2 (processes k) (Z.to_nat i)) as [p ->]; [|done].
  rewrite (table_length _ Hk). unfold MAX_PROCESSES in *. lia.
Qed.

Lemma slot_eq i : 0 ≤ i < MAX_PROCESSES → slot i k = Done (slot_at k i) k.
Proof.
  intros Hi. unfold slot. rewrite decide_True by lia. by rewrite slot_lookup.
Qed.

Lemma slot_elem i : 0 ≤ i < MAX_PROCESSES → slot_at k i ∈ processes k.
Proof. intros Hi. eapply list_elem_of_lookup_2, slot_lookup. done. Qed.

Lemma slot_proc i : 0 ≤ i < MAX_PROCESSES → slot_at k i ≠ 0 →
  is_Some (procs k !! slot_at k i).
Proof. intros Hi Hp. apply (table_procs _ Hk); [by apply slot_elem|done]. Qed.

Lemma runnable_eq p : (p ≠ 0 → is_Some (procs k !! p)) →
  process_is_runnable p k = Done (runnableb k p) k.
Proof.
  intros Hp. unfold process_is_runnable, runnableb.
  destruct (nz p) eqn:E; [|done]. apply nz_true in E. simpl.
  erewrite bind_done by done.
  destruct (p =? idle_process k); [done|]. simpl.
  destruct (Hp E) as [q Hq]. erewrite bind_done by by apply load_eq.
  by rewrite Hq.
Qed.

Lemma runnable_slot_eq i : 0 ≤ i < MAX_PROCESSES →
  process_is_runnable (slot_at k i) k = Done (runnableb k (slot_at k i)) k.
Proof. intros Hi. apply runnable_eq. intros. by apply slot_proc. Qed.
End Table.

Lemma runnableb_spec k p : runnableb k p = true ↔
  p ≠ 0 ∧ p ≠ idle_process k ∧ ∃ q, procs k !! p = Some q ∧
  (state q = TASK_READY ∨ state q = TASK_RUNNING).
Proof.
  unfold runnableb. rewrite !andb_true_iff, nz_true, negb_true_iff, Z.eqb_neq.
  destruct (procs k !! p) as [q|]; [|naive_solver].
  rewrite orb_true_iff, !bool_decide_eq_true. naive_solver.
Qed.

(** ** The highest runnable priority *)

Fixpoint highest_pure k (n : nat) (i h : Z) : Z :=
  match n with
  | O => h
  | S n' =>
      let p := slot_at k i in
      if negb (runnableb k p) then highest_pure k n' (i + 1) h else
      highest_pure k n' (i + 1) (if h <? prio_of k p then prio_of k p else h)
  end.

Lemma highest_from_eq k n i h : table_ok k → 0 ≤ i → i + Z.of_nat n ≤ MAX_PROCESSES →
  highest_from n i h k = Done (highest_pure k n i h) k.
Proof.
  intros Hk. revert i h. induction n as [|n IH]; intros i h Hi Hn; [done|]. simpl.
  erewrite bind_done by (apply slot_eq; [done|lia]).
  erewrite bind_done by (apply runnable_slot_eq; [done|lia]).
  destruct (runnableb k (slot_at k i)) eqn:E; simpl; [|apply IH; lia].
  apply runnableb_spec in E as (Hp & _ & q & Hq & _).
  erewrite bind_done by by apply load_eq.
  unfold prio_of. rewrite Hq. apply IH; lia.
Qed.

(** [h] bounds the priority of every runnable process of the slots [i, i+n). *)
Lemma highest_pure_ge k n i h : h ≤ highest_pure k n i h.
Proof.
  revert i h. induction n as [|n IH]; intros i h; simpl; [lia|].
  destruct (negb _); [apply IH|]. etrans; [|apply IH].
  destruct (Z.ltb_spec h (prio_of k (slot_at k i))); lia.
Qed.

Lemma highest_pure_ub k n i h j : i ≤ j < i + Z.of_nat n →
  runnableb k (slot_at k j) = true →
  prio_of k (slot_at k j) ≤ highest_pure k n i h.
Proof.
  revert i h. induction n as [|n IH]; intros i h Hj Hr; simpl; [lia|].
  destruct (decide (j = i)) as [->|Hne].
  - rewrite Hr. simpl. etrans; [|apply highest_pure_ge].
    destruct (Z.ltb_spec h (prio_of k (slot_at k i))); lia.
  - destruct (negb _); apply IH; (lia || done).
Qed.

Lemma highest_pure_wit k n i h : highest_pure k n i h = h ∨
  ∃ j, i ≤ j < i + Z.of_nat n ∧ runnableb k (slot_at k j) = true ∧
       prio_of k (slot_at k j) = highest_pure k n i h.
Proof.
  revert i h. induction n as [|n IH]; intros i h; simpl; [by left|].
  destruct (runnableb k (slot_at k i)) eqn:E; simpl.
  - destruct (IH (i + 1) (if h <? prio_of k (slot_at k i) then prio_of k (slot_at k i) else h))
      as [->|(j & ? & ? & ?)].
    + destruct (Z.ltb_spec h (prio_of k (slot_at k i))); [right|by left].
      exists i. split_and!; [lia|lia|done|done].
    + right. exists j. split_and!; [lia|lia|done|done].
  - destruct (IH (i + 1) h) as [->|(j & ? & ? & ?)]; [by left|right].
    exists j. split_and!; [lia|lia|done|done].
Qed.

#[local] Opaque highest_pure.
Definition highest k : Z := highest_pure k (Z.to_nat MAX_PROCESSES) 0 (-1).

Lemma find_highest_priority_eq k : table_ok k → find_highest_priority k = Done (highest k) k.
Proof.
  intros Hk. apply highest_from_eq; [done|lia|]. rewrite Z2Nat.id; [lia|done].
Qed.

(** ** Which slot is selected *)

(** Slot [i] holds a runnable process of the highest runnable priority. *)
Definition top_slot k i : bool :=
  runnableb k (slot_at k i) && (prio_of k (slot_at k i) =? highest k).

Definition cyclic (c n : Z) : Z := (c + n) `mod` MAX_PROCESSES.

Definition pick k : Z :=
  if highest k <? 0 then -1 else
  default (-1) (first_some (Z.to_nat MAX_PROCESSES) 0 (λ n,
    if top_slot k (cyclic (rr_cursor k) n) then Some (cyclic (rr_cursor k) n) else None)).

Lemma cyclic_range c n : 0 ≤ cyclic c n < MAX_PROCESSES.
Proof. apply Z.mod_pos_bound. done. Qed.

Lemma pick_next_process_eq k : table_ok k → 0 ≤ rr_cursor k < MAX_PROCESSES →
  pick_next_process k = Done (pick k) k.
Proof.
  intros Hk Hc. unfold pick_next_process, pick.
  erewrite bind_done by by apply find_highest_priority_eq.
  destruct (highest k <? 0); [done|].
  erewrite bind_done by done.
  rewrite (proj2 (Z.ltb_ge _ _)), (proj2 (Z.leb_gt _ _)) by lia. simpl.
  erewrite bind_done by done. cbn [gets].
  erewrite bind_done; [reflexivity|].
  apply for_up_search. intros n Hn.
  rewrite Z.rem_mod_nonneg by (unfold MAX_PROCESSES in *; lia).
  fold (cyclic (rr_cursor k) n).
  pose proof (cyclic_range (rr_cursor k) n) as Hr.
  erewrite bind_done by (apply slot_eq; done).
  erewrite bind_done by (apply runnable_slot_eq; done).
  unfold top_slot. destruct (runnableb k (slot_at k (cyclic (rr_cursor k) n))) eqn:E; [|done].
  simpl. apply runnableb_spec in E as (Hp & _ & q & Hq & _).
  erewrite bind_done by by apply load_eq.
  unfold prio_of. rewrite Hq. by destruct (_ =? _).
Qed.

Lemma highest_neg k : highest k < 0 ↔
  ∀ i, 0 ≤ i < MAX_PROCESSES → runnableb k (slot_at k i) = false.
Proof.
  split.
  - intros Hh i Hi. destruct (runnableb k (slot_at k i)) eqn:E; [|done].
    pose proof (highest_pure_ub k (Z.to_nat MAX_PROCESSES) 0 (-1) i) as Hub.
    rewrite Z2Nat.id in Hub by done. specialize (Hub ltac:(lia) E).
    apply runnableb_spec in E as (_ & _ & q & Hq & _).
    unfold prio_of in Hub. rewrite Hq in Hub. unfold highest in Hh.
    pose proof (prio_int_range (priority q)). lia.
  - intros Hn.
    destruct (highest_pure_wit k (Z.to_nat MAX_PROCESSES) 0 (-1)) as [E|(j & Hj & E & _)].
    + unfold highest. lia.
    + rewrite Z2Nat.id in Hj by done. rewrite Hn in E by lia. done.
Qed.

Lemma highest_ub k i : 0 ≤ i < MAX_PROCESSES → runnableb k (slot_at k i) = true →
  prio_of k (slot_at k i) ≤ highest k.
Proof. intros Hi Hr. apply highest_pure_ub; [rewrite Z2Nat.id by done; lia|done]. Qed.

Lemma top_slot_exists k : 0 ≤ highest k → ∃ i, 0 ≤ i < MAX_PROCESSES ∧ top_slot k i = true.
Proof.
  intros Hh.
  destruct (highest_pure_wit k (Z.to_nat MAX_PROCESSES) 0 (-1)) as [E|(j & Hj & E & Hp)].
  - unfold highest in Hh. lia.
  - rewrite Z2Nat.id in Hj by done. exists j. split; [lia|].
    unfold top_slot. rewrite E. simpl. apply Z.eqb_eq. done.
Qed.

(** How far slot [i] is from the cursor, in scheduling order. *)
Definition distance (c i : Z) : Z := (i - c) `mod` MAX_PROCESSES.

Lemma distance_range c i : 0 ≤ distance c i < MAX_PROCESSES.
Proof. apply Z.mod_pos_bound. done. Qed.

Lemma cyclic_distance c i : 0 ≤ i < MAX_PROCESSES → cyclic c (distance c i) = i.
Proof.
  intros Hi. unfold cyclic, distance. rewrite Z.add_mod_idemp_r by done.
  replace (c + (i - c)) with i by lia. by apply Z.mod_small.
Qed.

Lemma distance_cyclic c n : 0 ≤ n < MAX_PROCESSES → distance c (cyclic c n) = n.
Proof.
  intros Hn. unfold cyclic, distance. rewrite Zminus_mod_idemp_l.
  replace (c + n - c) with n by lia. by apply Z.mod_small.
Qed.

(** [pick] returns the runnable process of the highest priority that is nearest
    to the round-robin cursor, and [-1] only when nothing is runnable. *)
Lemma pick_spec k : 
  (pick k = -1 ∧ ∀ i, 0 ≤ i < MAX_PROCESSES → runnableb k (slot_at k i) = false) ∨
  (0 ≤ pick k < MAX_PROCESSES ∧ top_slot k (pick k) = true ∧
   ∀ i, 0 ≤ i < MAX_PROCESSES → top_slot k i = true →
        distance (rr_cursor k) (pick k) ≤ distance (rr_cursor k) i).
Proof.
  unfold pick. destruct (Z.ltb_spec (highest k) 0) as [Hh|Hh].
  - left. split; [done|]. by apply highest_neg.
  - right. destruct (first_some _ _ _) as [b|] eqn:E; simpl.
    + apply first_some_Some in E as (n & Hn & Hb & Hlt). rewrite Z2Nat.id in Hn by done.
      destruct (top_slot k (cyclic (rr_cursor k) n)) eqn:Ht; [|done].
      injection Hb as <-. split_and!; [apply cyclic_range..|done|].
      intros i Hi Hti. rewrite distance_cyclic by lia.
      destruct (Z.le_gt_cases n (distance (rr_cursor k) i)) as [|Hgt]; [done|].
      specialize (Hlt (distance (rr_cursor k) i)).
      rewrite cyclic_distance, Hti in Hlt by done.
      pose proof (distance_range (rr_cursor k) i). discriminate Hlt. lia.
    + destruct (top_slot_exists k Hh) as (i & Hi & Hti).
      rewrite first_some_None in E. rewrite Z2Nat.id in E by done.
      specialize (E (distance (rr_cursor k) i)).
      rewrite cyclic_distance, Hti in E by done.
      pose proof (distance_range (rr_cursor k) i). discriminate E. lia.
Qed.

(** ** What happens before the selection *)

(** [wake_sleeping_processes] on one process. *)
Definition wake_proc (now : Z) q : process :=
  if bool_decide (state q ≠ TASK_SLEEPING) then q else
  if nz (sleep_deadline q) && (sleep_deadline q <=? now)
  then q <| sleep_deadline := 0 |> <| state := TASK_READY |> else q.

Lemma kst_eq k k' :
  processes k = processes k' → process_count k = process_count k' →
  current_process_index k = current_process_index k' →
  current_process k = current_process k' → init_process k = init_process k' →
  idle_process k = idle_process k' → rr_cursor k = rr_cursor k' →
  next_pid k = next_pid k' → procs k = procs k' → vfiles k = vfiles k' →
  timer_ticks k = timer_ticks k' → cpu_id k = cpu_id k' → tss_rsp0 k = tss_rsp0 k' →
  cpu_kernel_stack k = cpu_kernel_stack k' → kframes k = kframes k' → fpu k = fpu k' →
  cr3 k = cr3 k' → env k = env k' → k = k'.
Proof. destruct k, k'; simpl; intros; by subst. Qed.

Definition map_procs k (f : Z → process → process) : kst :=
  k <| procs := map_imap (λ p q, Some (f p q)) (procs k) |>.

Lemma set_procs_eq k m m' : (∀ p, m !! p = m' !! p) →
  k <| procs := m |> = k <| procs := m' |>.
Proof. intros E. by rewrite (map_eq _ _ E). Qed.

Lemma lookup_map_procs k f p : procs (map_procs k f) !! p = f p <$> procs k !! p.
Proof. simpl. rewrite map_lookup_imap. by destruct (procs k !! p). Qed.

Lemma map_procs_ext k f g : (∀ p q, procs k !! p = Some q → f p q = g p q) →
  map_procs k f = map_procs k g.
Proof.
  intros Hfg. apply set_procs_eq. intros p.
  rewrite !map_lookup_imap. destruct (procs k !! p) eqn:E; [|done]. simpl. by rewrite Hfg.
Qed.

Lemma map_procs_map k f g :
  map_procs (map_procs k f) g = map_procs k (λ p q, g p (f p q)).
Proof.
  transitivity (k <| procs := map_imap (λ p q, Some (g p q)) (procs (map_procs k f)) |>);
    [done|].
  apply set_procs_eq. intros p. rewrite !map_lookup_imap, lookup_map_procs.
  by destruct (procs k !! p).
Qed.

Lemma map_procs_id k : map_procs k (λ _ q, q) = k.
Proof.
  transitivity (k <| procs := procs k |>); [|by destruct k].
  apply set_procs_eq. intros p. rewrite map_lookup_imap. by destruct (_ !! p).
Qed.

Lemma map_procs_insert k p q f : procs k !! p = Some q →
  k <| procs := <[p := f q]> (procs k) |> =
  map_procs k (λ p' q', if p' =? p then f q' else q').
Proof.
  intros Hq. apply set_procs_eq. intros p'.
  rewrite map_lookup_imap. destruct (Z.eqb_spec p' p) as [->|Hne].
  - rewrite lookup_insert_eq, Hq. done.
  - rewrite lookup_insert_ne by done. by destruct (procs k !! p').
Qed.

Lemma upd_map_eq k p q f : p ≠ 0 → procs k !! p = Some q →
  upd p f k = Done tt (map_procs k (λ p' q', if p' =? p then f q' else q')).
Proof. intros Hp Hq. erewrite upd_eq by done. by erewrite map_procs_insert. Qed.

Lemma wake_proc_idem now q : wake_proc now (wake_proc now q) = wake_proc now q.
Proof.
  unfold wake_proc.
  destruct (bool_decide (state q ≠ TASK_SLEEPING)) eqn:E1; [by rewrite E1|].
  destruct (nz (sleep_deadline q) && _) eqn:E2; [done|by rewrite E1, E2].
Qed.

(** The slots processed so far hold woken processes. *)
Definition wake_upto k (i : Z) : kst :=
  map_procs k (λ p q, if bool_decide (p ∈ take (Z.to_nat i) (processes k))
                      then wake_proc (timer_ticks k) q else q).

Lemma take_slot k i : table_ok k → 0 ≤ i < MAX_PROCESSES →
  take (Z.to_nat (i + 1)) (processes k) = take (Z.to_nat i) (processes k) ++ [slot_at k i].
Proof.
  intros Hk Hi. replace (Z.to_nat (i + 1)) with (S (Z.to_nat i)) by lia.
  by apply take_S_r, slot_lookup.
Qed.

Lemma wake_upto_step k i : table_ok k → procs k !! 0 = None → 0 ≤ i < MAX_PROCESSES →
  wake_upto k (i + 1) =
  map_procs (wake_upto k i)
    (λ p q, if p =? slot_at k i then wake_proc (timer_ticks k) q else q).
Proof.
  intros Hk H0 Hi. unfold wake_upto. rewrite map_procs_map. apply map_procs_ext.
  intros p q Hq. rewrite take_slot by done.
  destruct (Z.eqb_spec p (slot_at k i)) as [->|Hne].
  - rewrite bool_decide_true by set_solver. case_bool_decide; [|done].
    by rewrite wake_proc_idem.
  - f_equal. repeat case_bool_decide; set_solver.
Qed.

Definition wake_all k : kst :=
  map_procs k (λ p q, if bool_decide (p ∈ processes k)
                      then wake_proc (timer_ticks k) q else q).

Lemma table_ok_map k f : table_ok k → table_ok (map_procs k f).
Proof.
  intros Hk. split; [apply Hk|]. intros p Hp Hnz. rewrite lookup_map_procs.
  destruct (table_procs _ Hk p Hp Hnz) as [q ->]. by eexists.
Qed.

Lemma wake_sleeping_processes_eq k : table_ok k → procs k !! 0 = None →
  wake_sleeping_processes k = Done tt (wake_all k).
Proof.
  intros Hk H0. unfold wake_sleeping_processes. erewrite bind_done by done.
  assert (wake_upto k 0 = k) as E0 by apply map_procs_id.
  match goal with |- for_all ?n ?i ?body _ = _ =>
    pose proof (for_all_eq n i body (wake_upto k)) as HF end.
  rewrite E0 in HF. rewrite HF; clear HF E0.
  2:{ intros i Hi. rewrite Z2Nat.id in Hi by done.
    rewrite wake_upto_step by (done || lia).
    erewrite bind_done by (apply slot_eq; [by apply table_ok_map|lia]).
    change (slot_at (wake_upto k i) i) with (slot_at k i).
    set (p := slot_at k i). destruct (nz p) eqn:Hp; simpl.
    - apply nz_true in Hp.
      destruct (slot_proc (wake_upto k i) (table_ok_map _ _ Hk) i) as [q Hq]; [lia|done|].
      change (slot_at (wake_upto k i) i) with p in Hq.
      erewrite bind_done by by apply load_eq.
      erewrite <-(map_procs_insert _ p q (wake_proc (timer_ticks k))) by done.
      unfold wake_proc.
      assert (∀ s, procs s !! p = Some q → s <| procs := <[p := q]> (procs s) |> = s) as Hid.
      { intros s Hs. transitivity (s <| procs := procs s |>); [|by destruct s].
        apply set_procs_eq. intros. by rewrite insert_id. }
      case_bool_decide; [by rewrite Hid|]. destruct (_ && _); [|by rewrite Hid].
      by eapply store_eq.
    - apply nz_false in Hp. rewrite Hp. unfold mret, M_ret. f_equal.
      rewrite <-(map_procs_id (wake_upto k i)) at 1. apply map_procs_ext.
      intros p' q Hq. destruct (Z.eqb_spec p' 0) as [->|]; [|done].
      unfold wake_upto in Hq. rewrite lookup_map_procs, H0 in Hq. done. }
  do 2 f_equal. unfold wake_upto, wake_all. apply map_procs_ext. intros p q _.
    rewrite take_ge; [done|]. rewrite (table_length _ Hk). rewrite Z2Nat.id by done. lia.
Qed.

(** The state the selection looks at: the interrupted context is saved in the
    current process, sleepers whose deadline has passed are woken, and the
    current process, if it was running, is ready again. *)
Definition prep_proc k (regs : option registers) p q : process :=
  let q := match regs with
           | Some r => if p =? current_process k
                       then q <| context := r |> <| context_ptr := p |> else q
           | None => q
           end in
  let q := if bool_decide (p ∈ processes k) then wake_proc (timer_ticks k) q else q in
  if (p =? current_process k) && is_some regs && bool_decide (state q = TASK_RUNNING)
  then q <| state := TASK_READY |> else q.

Definition prep k (regs : option registers) : kst := map_procs k (prep_proc k regs).

(** The facts about [k] that every step of the scheduler relies on. *)
Record sched_ok k : Prop := {
  ok_table : table_ok k;
  ok_null : procs k !! 0 = None;
  ok_cursor : 0 ≤ rr_cursor k < MAX_PROCESSES;
  ok_current : current_process k ≠ 0 → is_Some (procs k !! current_process k);
  ok_idle : idle_process k ≠ 0 → is_Some (procs k !! idle_process k) }.

Lemma sched_ok_map k f : sched_ok k → sched_ok (map_procs k f).
Proof.
  intros [? H0 ? Hc Hi]. split; [by apply table_ok_map| |done|..].
  - by rewrite lookup_map_procs, H0.
  - intros Hnz. destruct (Hc Hnz) as [q Hq]. rewrite lookup_map_procs.
    change (current_process (map_procs k f)) with (current_process k). by rewrite Hq.
  - intros Hnz. destruct (Hi Hnz) as [q Hq]. rewrite lookup_map_procs.
    change (idle_process (map_procs k f)) with (idle_process k). by rewrite Hq.
Qed.

(** The three stages before the selection, each as a map over the heap. *)
Definition save_map k (regs : option registers) : kst :=
  map_procs k (λ p q, match regs with
    | Some r => if p =? current_process k
                then q <| context := r |> <| context_ptr := p |> else q
    | None => q end).

Definition demote_map k (regs : option registers) : kst :=
  map_procs k (λ p q,
    if (p =? current_process k) && is_some regs && bool_decide (state q = TASK_RUNNING)
    then q <| state := TASK_READY |> else q).

(** A map that changes nothing at a process that exists is the identity. *)
Lemma map_procs_same k f : (∀ p q, procs k !! p = Some q → f p q = q) → map_procs k f = k.
Proof. intros Hf. rewrite <-(map_procs_id k) at 2. by apply map_procs_ext. Qed.

Lemma save_stage_eq k regs : sched_ok k →
  (if nz (current_process k) && is_some regs
   then process_save_context (current_process k) regs else mret tt) k =
  Done tt (save_map k regs).
Proof.
  intros Hk. set (cur := current_process k). destruct (nz cur) eqn:Hc; simpl.
  - destruct regs as [r|]; simpl.
    + unfold process_save_context. rewrite Hc. simpl. apply nz_true in Hc.
      destruct (ok_current _ Hk Hc) as [q Hq].
      rewrite (upd_map_eq _ _ q) by done. f_equal. apply map_procs_ext.
      intros p ? _. fold cur. by destruct (Z.eqb_spec p cur) as [->|].
    + unfold mret, M_ret. f_equal. symmetry. by apply map_procs_same.
  - apply nz_false in Hc. unfold mret, M_ret. f_equal. symmetry. apply map_procs_same.
    intros p q Hq. destruct regs; [|done]. fold cur.
    destruct (Z.eqb_spec p cur) as [->|]; [|done].
    rewrite Hc, (ok_null _ Hk) in Hq. done.
Qed.

Lemma demote_stage_eq k regs : sched_ok k →
  (if nz (current_process k) then
     q ← load (current_process k);
     if bool_decide (state q = TASK_RUNNING) && is_some regs
     then upd (current_process k) (λ q, q <| state := TASK_READY |>) else mret tt
   else mret tt) k = Done tt (demote_map k regs).
Proof.
  intros Hk. set (cur := current_process k). destruct (nz cur) eqn:Hc; simpl.
  - apply nz_true in Hc. destruct (ok_current _ Hk Hc) as [q Hq]. fold cur in Hq.
    erewrite bind_done by by apply load_eq.
    destruct (bool_decide (state q = TASK_RUNNING) && is_some regs) eqn:E.
    + rewrite (upd_map_eq _ _ q) by done. f_equal. apply map_procs_ext.
      intros p q' Hq'. fold cur. destruct (Z.eqb_spec p cur) as [->|]; [|done].
      rewrite Hq in Hq'. injection Hq' as <-. rewrite andb_comm in E. simpl. by rewrite E.
    + unfold mret, M_ret. f_equal. symmetry. apply map_procs_same. intros p q' Hq'.
      fold cur. destruct (Z.eqb_spec p cur) as [->|]; [|done].
      rewrite Hq in Hq'. injection Hq' as <-. rewrite andb_comm in E. simpl. by rewrite E.
  - apply nz_false in Hc. unfold mret, M_ret. f_equal. symmetry. apply map_procs_same.
    intros p q Hq. fold cur. destruct (Z.eqb_spec p cur) as [->|]; [|done].
    rewrite Hc, (ok_null _ Hk) in Hq. done.
Qed.

Lemma scheduler_eq k regs : sched_ok k →
  scheduler regs k =
  (if pick (prep k regs) <? 0 then schedule_idle (current_process k) regs
   else schedule_to (current_process k) (pick (prep k regs)) regs) (prep k regs).
Proof.
  intros Hk. unfold scheduler. erewrite bind_done by done.
  erewrite bind_done by by apply save_stage_eq.
  pose proof (sched_ok_map k _ Hk : sched_ok (save_map k regs)) as Hk0.
  erewrite bind_done by (apply wake_sleeping_processes_eq; apply Hk0).
  pose proof (sched_ok_map _ _ Hk0 : sched_ok (wake_all (save_map k regs))) as Hk1.
  erewrite bind_done by exact (demote_stage_eq _ regs Hk1).
  assert (demote_map (wake_all (save_map k regs)) regs = prep k regs) as ->.
  { unfold demote_map, wake_all, save_map. rewrite !map_procs_map. by apply map_procs_ext. }
  pose proof (sched_ok_map k _ Hk : sched_ok (prep k regs)) as Hk2.
  erewrite bind_done by (apply pick_next_process_eq; apply Hk2).
  by destruct (_ <? 0).
Qed.

(** ** The switch itself *)

Definition pml4_of k p : Z := match procs k !! p with Some q => pml4 q | None => 0 end.
Definition kstack_of k p : Z := match procs k !! p with Some q => kstack_top q | None => 0 end.
Definition sse_of k p : list Z := match procs k !! p with Some q => sse_state q | None => [] end.

Definition set_kernel_stack k p : kst :=
  k <| tss_rsp0 := <[cpu_id k := kstack_of k p]> (tss_rsp0 k) |>
    <| cpu_kernel_stack := <[cpu_id k := kstack_of k p]> (cpu_kernel_stack k) |>.

Lemma update_kernel_stack_eq k p : p ≠ 0 → is_Some (procs k !! p) →
  update_kernel_stack p k = Done tt (set_kernel_stack k p).
Proof.
  intros Hp [q Hq]. unfold update_kernel_stack. rewrite (proj2 (nz_true p)) by done. simpl.
  erewrite bind_done by by apply load_eq.
  unfold modify, set_kernel_stack, kstack_of. by rewrite Hq.
Qed.

(** The state after a switch from [old] to the process of slot [i]. *)
Definition switched k (old i : Z) : kst :=
  let next := slot_at k i in
  (map_procs k (λ p q,
    if p =? next then q <| state := TASK_RUNNING |>
    else if (p =? old) && negb (old =? idle_process k)
    then q <| sse_state := fpu k |> else q))
  <| cr3 := if nz old && (pml4_of k old =? pml4_of k next) then cr3 k
            else u64 (pml4_of k next - hhdm_offset) |>
  <| current_process := next |> <| current_process_index := i |>
  <| rr_cursor := (i + 1) `mod` MAX_PROCESSES |>
  <| tss_rsp0 := <[cpu_id k := kstack_of k next]> (tss_rsp0 k) |>
  <| cpu_kernel_stack := <[cpu_id k := kstack_of k next]> (cpu_kernel_stack k) |>
  <| fpu := sse_of k next |>.

(** The selected process is the one that runs already. *)
Definition resumed k (i : Z) : kst :=
  (map_procs k (λ p q, if p =? slot_at k i then q <| state := TASK_RUNNING |> else q))
  <| current_process_index := i |> <| rr_cursor := (i + 1) `mod` MAX_PROCESSES |>.

Lemma schedule_to_same k i regs : table_ok k → 0 ≤ i < MAX_PROCESSES → slot_at k i ≠ 0 →
  schedule_to (slot_at k i) i regs k = Done (frame_of_regs regs) (resumed k i).
Proof.
  intros Hk Hi Hp. destruct (slot_proc k Hk i Hi Hp) as [q Hq].
  unfold schedule_to. erewrite bind_done by by apply slot_eq. erewrite bind_done by done.
  rewrite (proj2 (nz_true _)) by done. simpl. rewrite Z.eqb_refl.
  erewrite bind_done by by eapply upd_map_eq.
  erewrite bind_done by done. unfold mret, M_ret, resumed.
  by rewrite Z.rem_mod_nonneg by (unfold MAX_PROCESSES in *; lia).
Qed.

(** [fxsave] of the outgoing process. *)
Definition saved_fpu k old : kst :=
  map_procs k (λ p q, if (p =? old) && negb (old =? idle_process k)
                      then q <| sse_state := fpu k |> else q).

Lemma save_fpu_eq k old : (old ≠ 0 → is_Some (procs k !! old)) → procs k !! 0 = None →
  (if nz old && negb (old =? idle_process k) then
     image ← gets fpu; upd old (λ q, q <| sse_state := image |>)
   else mret tt) k = Done tt (saved_fpu k old).
Proof.
  intros Hold H0. destruct (nz old) eqn:Ho; simpl.
  - apply nz_true in Ho. destruct (Hold Ho) as [oq Hoq].
    unfold saved_fpu. destruct (old =? idle_process k); simpl.
    + unfold mret, M_ret. f_equal. symmetry. apply map_procs_same. intros.
      by rewrite andb_false_r.
    + erewrite bind_done by done. rewrite (upd_map_eq _ _ oq) by done. f_equal.
      apply map_procs_ext. intros. by rewrite andb_true_r.
  - apply nz_false in Ho. unfold mret, M_ret. f_equal. symmetry. apply map_procs_same.
    intros p ? Hpq. destruct (Z.eqb_spec p old); [|done]. subst. congruence.
Qed.

(** The address space changes only when it differs. *)
Lemma switch_space_eq k old nq : (old ≠ 0 → is_Some (procs k !! old)) →
  (if negb (nz old) then vmm_switch (pml4 nq)
   else oq ← load old;
        if negb (pml4 oq =? pml4 nq) then vmm_switch (pml4 nq) else mret tt) k =
  Done tt (k <| cr3 := if nz old && (pml4_of k old =? pml4 nq) then cr3 k
                       else u64 (pml4 nq - hhdm_offset) |>).
Proof.
  intros Hold. destruct (nz old) eqn:Ho; simpl; [|done].
  apply nz_true in Ho. destruct (Hold Ho) as [oq Hoq].
  erewrite bind_done by by apply load_eq. unfold pml4_of. rewrite Hoq.
  destruct (pml4 oq =? pml4 nq); simpl; [|done]. by destruct k.
Qed.

(** The steps of the switch, in the order the code performs them. *)
Lemma switched_steps k old i q : let next := slot_at k i in
  procs k !! next = Some q → next ≠ old → 0 ≤ i < MAX_PROCESSES →
  let f p q0 := if p =? next then q0 <| state := TASK_RUNNING |> else q0 in
  (set_kernel_stack
    ((map_procs
      ((saved_fpu k old)
        <| cr3 := if nz old && (pml4_of k old =? pml4 q) then cr3 (saved_fpu k old)
                  else u64 (pml4 q - hhdm_offset) |>
        <| current_process := next |> <| current_process_index := i |>) f)
      <| rr_cursor := (i + 1) `rem` MAX_PROCESSES |>) next)
  <| fpu := sse_state (q <| state := TASK_RUNNING |>) |> = switched k old i.
Proof.
  intros next Hq Hne Hi f.
  assert (procs (map_procs (saved_fpu k old) f) = procs (switched k old i)) as Em.
  { apply map_eq. intros p. unfold switched, saved_fpu. rewrite map_procs_map. simpl.
    rewrite !map_lookup_imap. destruct (procs k !! p); [|done]. simpl. f_equal. unfold f.
    fold next. destruct (Z.eqb_spec p next) as [->|]; [|done].
    by rewrite (proj2 (Z.eqb_neq _ _)) by done. }
  assert (kstack_of (map_procs (saved_fpu k old) f) next = kstack_of k next) as Ek.
  { unfold kstack_of. rewrite lookup_map_procs. unfold saved_fpu. rewrite lookup_map_procs, Hq.
    simpl. unfold f. rewrite Z.eqb_refl. simpl. by destruct (_ && _). }
  rewrite Z.rem_mod_nonneg by (unfold MAX_PROCESSES in *; lia).
  apply kst_eq; try reflexivity.
  - exact Em.
  - exact (f_equal (λ v, <[cpu_id k := v]> (tss_rsp0 k)) Ek).
  - exact (f_equal (λ v, <[cpu_id k := v]> (cpu_kernel_stack k)) Ek).
  - unfold switched, sse_of. fold next. simpl. by rewrite Hq.
  - unfold switched, pml4_of. fold next. simpl. by rewrite Hq.
Qed.

Lemma schedule_to_other k old i regs : table_ok k → 0 ≤ i < MAX_PROCESSES →
  slot_at k i ≠ 0 → slot_at k i ≠ old → (old ≠ 0 → is_Some (procs k !! old)) →
  procs k !! 0 = None →
  schedule_to old i regs k = Done (ContextOf (slot_at k i)) (switched k old i).
Proof.
  intros Hk Hi Hp Hne Hold H0. destruct (slot_proc k Hk i Hi Hp) as [q Hq].
  unfold schedule_to. erewrite bind_done by by apply slot_eq. erewrite bind_done by done.
  rewrite (proj2 (nz_true _)) by done. simpl. rewrite (proj2 (Z.eqb_neq _ _)) by done.
  set (next := slot_at k i) in *.
  erewrite bind_done by by apply save_fpu_eq.
  assert (procs (saved_fpu k old) !! next = Some q) as Hq1.
  { unfold saved_fpu. rewrite lookup_map_procs, Hq. simpl.
    by rewrite (proj2 (Z.eqb_neq _ _)) by done. }
  erewrite bind_done by by apply load_eq.
  erewrite bind_done.
  2:{ apply switch_space_eq. intros Ho. destruct (Hold Ho) as [oq Hoq].
      unfold saved_fpu. by rewrite lookup_map_procs, Hoq. }
  assert (pml4_of (saved_fpu k old) old = pml4_of k old) as ->.
  { unfold pml4_of, saved_fpu. rewrite lookup_map_procs. destruct (procs k !! old); [|done].
    simpl. by destruct (_ && _). }
  erewrite bind_done by done.
  erewrite bind_done by (eapply upd_map_eq; done).
  erewrite bind_done by done.
  set (f := λ p q0, if p =? next then q0 <| state := TASK_RUNNING |> else q0).
  assert (procs (map_procs (saved_fpu k old) f) !! next = Some (q <| state := TASK_RUNNING |>))
    as Hq2 by (rewrite lookup_map_procs, Hq1; unfold f; simpl; by rewrite Z.eqb_refl).
  erewrite bind_done by (apply update_kernel_stack_eq; [done|]; eexists; exact Hq2).
  erewrite bind_done by (apply load_eq; [done|exact Hq2]).
  erewrite bind_done by done. unfold mret, M_ret. f_equal. by apply switched_steps.
Qed.
End SchedInv.
