(* ===== verification/SchedSpec.v ===== *)
(** * What the scheduler guarantees

    The contract of [scheduler()] of [kernel/sched.c] on every state whose
    table is well formed: the process it selects, the frame it resumes, what
    happens to the contexts and FPU images of the processes involved, and a
    bound on the time a process of the highest priority waits. *)

From S2P Require Import Prelude Proc Sched SchedInv.

Section SchedSpec.
Context `{!KEnv}.
Implicit Types (k : kst) (p i j : Z) (q : process).
#[local] Opaque pick highest.

(** ** The abstract selection rule

    Slot [i] holds a runnable process, none of higher priority is runnable, and
    among those of the same priority it is the first from the cursor on. *)
Record selected k i : Prop := {
  sel_range : 0 ≤ i < MAX_PROCESSES;
  sel_runnable : runnableb k (slot_at k i) = true;
  sel_prio j : 0 ≤ j < MAX_PROCESSES → runnableb k (slot_at k j) = true →
    prio_of k (slot_at k j) ≤ prio_of k (slot_at k i);
  sel_first j : 0 ≤ j < MAX_PROCESSES → runnableb k (slot_at k j) = true →
    prio_of k (slot_at k j) = prio_of k (slot_at k i) →
    distance (rr_cursor k) i ≤ distance (rr_cursor k) j }.

Definition nothing_runnable k : Prop :=
  ∀ i, 0 ≤ i < MAX_PROCESSES → runnableb k (slot_at k i) = false.

Lemma top_slot_spec k i : top_slot k i = true ↔
  runnableb k (slot_at k i) = true ∧ prio_of k (slot_at k i) = highest k.
Proof. unfold top_slot. rewrite andb_true_iff, Z.eqb_eq. done. Qed.

Lemma pick_selected k :
  (pick k = -1 ∧ nothing_runnable k) ∨ (0 ≤ pick k ∧ selected k (pick k)).
Proof.
  destruct (pick_spec k) as [?|(Hr & Ht & Hd)]; [by left|right].
  apply top_slot_spec in Ht as [Hrun Hp]. split; [lia|]. split; [done..| |].
  - intros j Hj Hrj. rewrite Hp. by apply highest_ub.
  - intros j Hj Hrj Hpj. apply Hd; [done|]. apply top_slot_spec. split; congruence.
Qed.

(** The rule determines the slot. *)
Lemma selected_unique k i j : selected k i → selected k j → i = j.
Proof.
  intros Hi Hj.
  assert (prio_of k (slot_at k i) = prio_of k (slot_at k j)) as Hp
    by (apply Z.le_antisymm; [apply (sel_prio _ _ Hj)|apply (sel_prio _ _ Hi)]; by destruct Hi, Hj).
  assert (distance (rr_cursor k) i = distance (rr_cursor k) j) as Hd
    by (apply Z.le_antisymm; [apply (sel_first _ _ Hi)|apply (sel_first _ _ Hj)]; by destruct Hi, Hj).
  rewrite <-(cyclic_distance (rr_cursor k) i), Hd by apply Hi.
  apply cyclic_distance, Hj.
Qed.

Lemma runnable_nonnull k p : runnableb k p = true → p ≠ 0.
Proof. unfold runnableb. rewrite !andb_true_iff, nz_true. by intros [[??]?]. Qed.

(** ** The state after [scheduler] *)

(** Nothing is runnable: the CPU goes to the idle process. *)
Definition idled k : kst :=
  set_kernel_stack (k <| current_process := idle_process k |> <| current_process_index := -1 |>)
    (idle_process k).

Definition idle_frame k : frame :=
  match procs k !! idle_process k with
  | Some q => frame_of_ptr (context_ptr q)
  | None => NullFrame
  end.

Lemma schedule_idle_eq k old regs : sched_ok k → idle_process k ≠ 0 →
  (old ≠ 0 → is_Some (procs k !! old)) → (old ≠ 0 ∨ regs = None) → runnableb k old = false →
  schedule_idle old regs k = Done (idle_frame k) (idled k).
Proof.
  intros Hk Hidle Hold Hor Hrun. unfold schedule_idle.
  assert ((if nz old then process_is_runnable old else mret false) k = Done false k) as E.
  { destruct (nz old) eqn:Ho; [|done]. rewrite runnable_eq by done. by rewrite Hrun. }
  erewrite bind_done by exact E.
  assert (negb (nz old) && is_some regs = false) as ->.
  { destruct Hor as [Ho| ->]; [|by rewrite andb_false_r]. by rewrite (proj2 (nz_true _) Ho). }
  erewrite bind_done by done. rewrite (proj2 (nz_true _) Hidle).
  erewrite bind_done by done. destruct (ok_idle _ Hk Hidle) as [q Hq].
  erewrite bind_done by (apply update_kernel_stack_eq; done).
  erewrite bind_done by (apply load_eq; [done|exact Hq]).
  unfold idle_frame. by rewrite Hq.
Qed.

(** The whole of [scheduler] as a function of the prepared state. *)
Definition schedule_result k old (regs : option registers) : frame * kst :=
  if pick k <? 0 then
    if negb (nz old) && is_some regs then (SameFrame, k) else (idle_frame k, idled k)
  else if slot_at k (pick k) =? old then (frame_of_regs regs, resumed k (pick k))
  else (ContextOf (slot_at k (pick k)), switched k old (pick k)).

(** The current process is null, the idle process or an entry of the table. *)
Definition current_known k : Prop :=
  current_process k = 0 ∨ current_process k = idle_process k ∨
  current_process k ∈ processes k.

Lemma elem_slot k p : table_ok k → p ∈ processes k →
  ∃ i, 0 ≤ i < MAX_PROCESSES ∧ slot_at k i = p.
Proof.
  intros Hk (i & Hi)%list_elem_of_lookup. exists (Z.of_nat i).
  pose proof (lookup_lt_Some _ _ _ Hi) as Hlt. rewrite (table_length _ Hk) in Hlt.
  unfold slot_at. rewrite Nat2Z.id, Hi. split; [unfold MAX_PROCESSES in *; lia|done].
Qed.

Lemma scheduler_result k regs : sched_ok k → idle_process k ≠ 0 → current_known k →
  scheduler regs k =
  Done (schedule_result (prep k regs) (current_process k) regs).1
       (schedule_result (prep k regs) (current_process k) regs).2.
Proof.
  intros Hk Hidle Hcur. rewrite scheduler_eq by done.
  set (k1 := prep k regs). assert (sched_ok k1) as Hk1 by by apply sched_ok_map.
  set (old := current_process k).
  assert (old ≠ 0 → is_Some (procs k1 !! old)) as Hold by exact (ok_current _ Hk1).
  unfold schedule_result. destruct (pick_selected k1) as [[-> Hnone]|[Hge Hsel]].
  - simpl. destruct (nz old) eqn:Ho; simpl.
    + apply nz_true in Ho. rewrite schedule_idle_eq; try done; [by left|].
      destruct Hcur as [?|[Hc|Hc]]; [done| |].
      * unfold runnableb. change (idle_process k1) with (idle_process k).
        unfold old. rewrite Hc, Z.eqb_refl, andb_false_r. done.
      * destruct (elem_slot k1 old) as (i & Hi & <-); [apply Hk1|done|by apply Hnone].
    + apply nz_false in Ho. rewrite Ho. destruct regs as [r|]; simpl; [done|].
      apply schedule_idle_eq; try done; [by right].
  - rewrite (proj2 (Z.ltb_ge _ _)) by lia.
    assert (slot_at k1 (pick k1) ≠ 0) as Hnz by (eapply runnable_nonnull, sel_runnable, Hsel).
    destruct (Z.eqb_spec (slot_at k1 (pick k1)) old) as [<-|Hne].
    + apply schedule_to_same; [apply Hk1|apply Hsel|done].
    + apply schedule_to_other; try done; [apply Hk1|apply Hsel|apply Hk1].
Qed.

(** ** The contract *)

(** The frame that resumes the process of slot [i]. *)
Definition resume_frame k i (regs : option registers) : frame :=
  if slot_at k i =? current_process k then frame_of_regs regs else ContextOf (slot_at k i).

Inductive sched_post k regs : frame → kst → Prop :=
| PostRun i q k' :
    selected (prep k regs) i →
    current_process k' = slot_at k i → current_process_index k' = i →
    rr_cursor k' = (i + 1) `mod` MAX_PROCESSES →
    procs k' !! slot_at k i = Some q → state q = TASK_RUNNING →
    sched_post k regs (resume_frame k i regs) k'
| PostIdle k' :
    nothing_runnable (prep k regs) → (current_process k ≠ 0 ∨ regs = None) →
    current_process k' = idle_process k → current_process_index k' = -1 →
    sched_post k regs (idle_frame (prep k regs)) k'
| PostKeep :
    nothing_runnable (prep k regs) → current_process k = 0 → regs ≠ None →
    sched_post k regs SameFrame (prep k regs).

(** The process a switch starts is in the state [f] puts it. *)
Lemma map_procs_running k p f : is_Some (procs k !! p) →
  (∀ q, state (f p q) = TASK_RUNNING) →
  ∃ q, procs (map_procs k f) !! p = Some q ∧ state q = TASK_RUNNING.
Proof. intros [q Hq] Hf. rewrite lookup_map_procs, Hq. eexists. split; [done|apply Hf]. Qed.

Lemma selected_proc k i : sched_ok k → selected k i → is_Some (procs k !! slot_at k i).
Proof.
  intros Hk Hsel. apply slot_proc; [apply Hk|apply Hsel|].
  eapply runnable_nonnull, sel_runnable, Hsel.
Qed.

Lemma resumed_post k regs i : sched_ok k → selected (prep k regs) i →
  slot_at k i = current_process k →
  sched_post k regs (frame_of_regs regs) (resumed (prep k regs) i).
Proof.
  intros Hk Hsel E.
  destruct (map_procs_running (prep k regs) (slot_at k i) (λ p q, if p =? slot_at k i
     then q <| state := TASK_RUNNING |> else q)) as (q & Hq & Hrun).
  { eapply (selected_proc (prep k regs) i); [by apply sched_ok_map|done]. }
  { intros. by rewrite Z.eqb_refl. }
  pose proof (PostRun k regs i q (resumed (prep k regs) i) Hsel) as HP.
  unfold resume_frame in HP. rewrite (proj2 (Z.eqb_eq _ _) E) in HP.
  exact (HP (eq_sym E) eq_refl eq_refl Hq Hrun).
Qed.

Lemma switched_post k regs i : sched_ok k → selected (prep k regs) i →
  slot_at k i ≠ current_process k →
  sched_post k regs (ContextOf (slot_at k i)) (switched (prep k regs) (current_process k) i).
Proof.
  intros Hk Hsel E.
  destruct (map_procs_running (prep k regs) (slot_at k i) (λ p q, if p =? slot_at k i
     then q <| state := TASK_RUNNING |>
     else if (p =? current_process k) && negb (current_process k =? idle_process k)
     then q <| sse_state := fpu k |> else q)) as (q & Hq & Hrun).
  { eapply (selected_proc (prep k regs) i); [by apply sched_ok_map|done]. }
  { intros. by rewrite Z.eqb_refl. }
  pose proof (PostRun k regs i q (switched (prep k regs) (current_process k) i) Hsel) as HP.
  unfold resume_frame in HP. rewrite (proj2 (Z.eqb_neq _ _) E) in HP.
  exact (HP eq_refl eq_refl eq_refl Hq Hrun).
Qed.

Lemma scheduler_post k regs :
  sched_ok k → idle_process k ≠ 0 → current_known k →
  ∃ fr k', scheduler regs k = Done fr k' ∧ sched_post k regs fr k'.
Proof.
  intros Hk Hidle Hcur. rewrite scheduler_result by done. do 2 eexists. split; [done|].
  unfold schedule_result. destruct (pick_selected (prep k regs)) as [[-> Hnone]|[Hge Hsel]].
  - simpl. destruct (nz _) eqn:Ho; [|destruct regs]; simpl.
    + apply PostIdle; [done|left; by apply nz_true|done..].
    + apply PostKeep; [done|by apply nz_false|done].
    + apply PostIdle; [done|by right|done..].
  - rewrite (proj2 (Z.ltb_ge _ _)) by lia.
    destruct (Z.eqb_spec (slot_at (prep k regs) (pick (prep k regs))) (current_process k)).
    + by apply (resumed_post k regs (pick (prep k regs))).
    + by apply (switched_post k regs (pick (prep k regs))).
Qed.

(** C1: [scheduler] always returns.  It resumes the runnable process of the
    highest priority that comes first from the round-robin cursor on, marks it
    running and moves the cursor behind it; when nothing is runnable it resumes
    the idle process, or the interrupted code when there is no current process. *)
Theorem scheduler_correct k regs :
  sched_ok k → idle_process k ≠ 0 → current_known k →
  ∃ fr k', scheduler regs k = Done fr k' ∧ sched_post k regs fr k'.
Proof. apply scheduler_post. Qed.

(** ** Bounded waiting *)

(** When [scheduler] is called, slot [j] is runnable and no slot is runnable at a
    higher priority. *)
Record contends k regs j : Prop := {
  con_ok : sched_ok k;
  con_idle : idle_process k ≠ 0;
  con_cur : current_known k;
  con_range : 0 ≤ j < MAX_PROCESSES;
  con_run : runnableb (prep k regs) (slot_at k j) = true;
  con_top i : 0 ≤ i < MAX_PROCESSES → runnableb (prep k regs) (slot_at k i) = true →
    prio_of (prep k regs) (slot_at k i) ≤ prio_of (prep k regs) (slot_at k j) }.

Lemma contends_highest k regs j : sched_ok k → idle_process k ≠ 0 → current_known k →
  0 ≤ j < MAX_PROCESSES → runnableb (prep k regs) (slot_at k j) = true →
  prio_of (prep k regs) (slot_at k j) = highest (prep k regs) → contends k regs j.
Proof.
  intros Hk Hidle Hcur Hj Hr Hp. split; [done..|]. intros i Hi Hri. rewrite Hp.
  exact (highest_ub (prep k regs) i Hi Hri).
Qed.

(** [n] calls of [scheduler] in a row that each pass slot [j] over although it
    contends.  Between two calls the rest of the kernel may change anything but
    the cursor. *)
Inductive passed_over (j : Z) : kst → nat → Prop :=
| PassedNone k : passed_over j k 0
| PassedOnce k regs fr k1 k2 n :
    contends k regs j → scheduler regs k = Done fr k1 →
    current_process k1 ≠ slot_at k j → rr_cursor k2 = rr_cursor k1 →
    passed_over j k2 n → passed_over j k (S n).

Lemma distance_step c i j : 0 ≤ i < MAX_PROCESSES → 0 ≤ j < MAX_PROCESSES → i ≠ j →
  distance c i ≤ distance c j →
  distance ((i + 1) `mod` MAX_PROCESSES) j < distance c j.
Proof. unfold distance, MAX_PROCESSES. intros. Z.div_mod_to_equations. lia. Qed.

Lemma passed_over_distance j k n : passed_over j k n → Z.of_nat n ≤ distance (rr_cursor k) j.
Proof.
  induction 1 as [k|k regs fr k1 k2 n Hc Hs Hne Hrr _ IH].
  { pose proof (distance_range (rr_cursor k) j). lia. }
  destruct Hc as [Hk Hidle Hcur Hj Hrun Htop].
  destruct (scheduler_post k regs Hk Hidle Hcur) as (fr' & k' & E & HP).
  rewrite Hs in E. injection E as <- <-. destruct HP as [i q k' Hsel Hci _ Hrr' _ _|k' Hn|Hn].
  - assert (i ≠ j) as Hij by congruence.
    assert (distance (rr_cursor k) i ≤ distance (rr_cursor k) j) as Hle.
    { apply (sel_first _ _ Hsel); [done..|].
      apply Z.le_antisymm; [by apply (sel_prio _ _ Hsel)|]. apply Htop; apply Hsel. }
    pose proof (distance_step (rr_cursor k) i j (sel_range _ _ Hsel) Hj Hij Hle).
    rewrite Hrr, Hrr' in IH. lia.
  - pose proof (Hn j Hj : runnableb (prep k regs) (slot_at k j) = false). congruence.
  - pose proof (Hn j Hj : runnableb (prep k regs) (slot_at k j) = false). congruence.
Qed.

(** C3: bounded waiting.  A runnable process that no runnable process outranks
    is passed over by fewer than [MAX_PROCESSES] consecutive calls of
    [scheduler]. *)
Theorem bounded_waiting j k n : passed_over j k n → Z.of_nat n < MAX_PROCESSES.
Proof.
  intros Hn%passed_over_distance. pose proof (distance_range (rr_cursor k) j). lia.
Qed.

(** ** Context and FPU state of the processes involved *)

(** A call that changes the current process to one that is not the idle process
    is a switch. *)
Lemma scheduler_switch k regs fr k' : sched_ok k → idle_process k ≠ 0 → current_known k →
  scheduler regs k = Done fr k' → current_process k' ≠ current_process k →
  current_process k' ≠ idle_process k →
  ∃ i, selected (prep k regs) i ∧ slot_at k i ≠ current_process k ∧
    fr = ContextOf (slot_at k i) ∧ k' = switched (prep k regs) (current_process k) i.
Proof.
  intros Hk Hidle Hcur. rewrite scheduler_result by done. intros [= <- <-].
  unfold schedule_result. destruct (pick_selected (prep k regs)) as [[-> _]|[Hge Hsel]].
  - simpl. by destruct (_ && _).
  - rewrite (proj2 (Z.ltb_ge _ _)) by lia.
    destruct (Z.eqb_spec (slot_at (prep k regs) (pick (prep k regs))) (current_process k));
      [done|]. intros _ _. by exists (pick (prep k regs)).
Qed.

Lemma prep_saves k r q : procs k !! current_process k = Some q →
  ∃ q', procs (prep k (Some r)) !! current_process k = Some q' ∧ context q' = r ∧
    context_ptr q' = current_process k.
Proof.
  intros Hq. unfold prep. rewrite lookup_map_procs, Hq. eexists. split; [done|].
  unfold prep_proc. rewrite Z.eqb_refl. simpl. unfold wake_proc.
  repeat case_bool_decide; simpl; try done; by destruct (_ && _).
Qed.

Lemma prep_keeps k regs p q : procs k !! p = Some q → p ≠ current_process k →
  ∃ q', procs (prep k regs) !! p = Some q' ∧ context q' = context q ∧
    sse_state q' = sse_state q.
Proof.
  intros Hq Hne. unfold prep. rewrite lookup_map_procs, Hq. eexists. split; [done|].
  unfold prep_proc. rewrite (proj2 (Z.eqb_neq _ _)) by done. unfold wake_proc.
  destruct regs; repeat case_bool_decide; simpl; try done; by destruct (_ && _).
Qed.

Lemma lookup_switched k old i p : procs (switched k old i) !! p =
  (λ q, if p =? slot_at k i then q <| state := TASK_RUNNING |>
        else if (p =? old) && negb (old =? idle_process k)
        then q <| sse_state := fpu k |> else q) <$> procs k !! p.
Proof. exact (lookup_map_procs k _ p). Qed.

Lemma lookup_resumed k i p : procs (resumed k i) !! p =
  (λ q, if p =? slot_at k i then q <| state := TASK_RUNNING |> else q) <$> procs k !! p.
Proof. exact (lookup_map_procs k _ p). Qed.

(** Switching away from a process saves its registers and FPU state. *)
Lemma switch_out k r fr k' : sched_ok k → idle_process k ≠ 0 → current_known k →
  let old := current_process k in
  scheduler (Some r) k = Done fr k' → old ≠ 0 → old ≠ idle_process k →
  current_process k' ≠ old → current_process k' ≠ idle_process k →
  ∃ q, procs k' !! old = Some q ∧ context q = r ∧ sse_state q = fpu k.
Proof.
  intros Hk Hidle Hcur old Hs Hold Hni Hne Hne'.
  destruct (scheduler_switch _ _ _ _ Hk Hidle Hcur Hs Hne Hne') as (i & Hsel & Hi & -> & ->).
  destruct (ok_current _ Hk Hold) as [q Hq].
  destruct (prep_saves k r q Hq) as (q' & Hq' & Hc & _).
  rewrite lookup_switched. fold old in Hq'. rewrite Hq'. simpl.
  change (slot_at (prep k (Some r)) i) with (slot_at k i).
  rewrite (proj2 (Z.eqb_neq old (slot_at k i))) by done.
  change (idle_process (prep k (Some r))) with (idle_process k). fold old.
  rewrite Z.eqb_refl, (proj2 (Z.eqb_neq old (idle_process k))) by done. by eexists.
Qed.

(** Switching to a process resumes its saved registers and FPU state. *)
Lemma switch_in k regs fr k' q : sched_ok k → idle_process k ≠ 0 → current_known k →
  let p := current_process k' in
  scheduler regs k = Done fr k' → p ≠ current_process k → p ≠ idle_process k →
  procs k !! p = Some q →
  fr = ContextOf p ∧ fpu k' = sse_state q ∧
  ∃ q', procs k' !! p = Some q' ∧ context q' = context q ∧ state q' = TASK_RUNNING.
Proof.
  intros Hk Hidle Hcur p Hs Hne Hni Hq.
  destruct (scheduler_switch _ _ _ _ Hk Hidle Hcur Hs Hne Hni) as (i & Hsel & Hi & -> & ->).
  assert (p = slot_at k i) as Ep by done. clearbody p. subst p.
  destruct (prep_keeps k regs _ q Hq Hne) as (q' & Hq' & Hc & Hsse).
  split_and!; [done| |].
  - unfold switched. simpl. unfold sse_of. change (slot_at (prep k regs) i) with (slot_at k i).
    by rewrite Hq'.
  - rewrite lookup_switched, Hq'. simpl.
    change (slot_at (prep k regs) i) with (slot_at k i). rewrite Z.eqb_refl. by eexists.
Qed.

(** Between two states the saved registers and FPU image of [p] did not change. *)
Definition keeps_saved k k' p : Prop :=
  ∀ q, procs k !! p = Some q →
  ∃ q', procs k' !! p = Some q' ∧ context q' = context q ∧ sse_state q' = sse_state q.

Lemma keeps_saved_refl k p : keeps_saved k k p.
Proof. intros q Hq. by exists q. Qed.

(** C4: round trip of a context switch.  A process [p], not the idle one, that is
    interrupted with registers [r], switched out for another process that is not
    the idle one either, and later switched in again is resumed with exactly [r]
    and with the FPU state it had, if its saved state was left alone in between
    ([keeps_saved]).  The second condition on the switch is needed: when the
    scheduler turns to the idle process it does not save the FPU registers, and
    the process that was interrupted gets them back as they were at an earlier
    switch ([idle_switch_loses_fpu] below). *)
Theorem switch_roundtrip k r fr k1 k2 regs fr' k3 :
  sched_ok k → idle_process k ≠ 0 → current_known k →
  let p := current_process k in
  p ≠ 0 → p ≠ idle_process k →
  scheduler (Some r) k = Done fr k1 →
  current_process k1 ≠ p → current_process k1 ≠ idle_process k →
  sched_ok k2 → idle_process k2 = idle_process k → current_known k2 →
  keeps_saved k1 k2 p → current_process k2 ≠ p →
  scheduler regs k2 = Done fr' k3 → current_process k3 = p →
  fr' = ContextOf p ∧ fpu k3 = fpu k ∧
  ∃ q, procs k3 !! p = Some q ∧ context q = r ∧ state q = TASK_RUNNING.
Proof.
  intros Hk Hidle Hcur p Hp Hpi Hs Hne Hni Hk2 Hi2 Hcur2 Hkeep Hne2 Hs2 Hp3.
  destruct (switch_out _ _ _ _ Hk Hidle Hcur Hs Hp Hpi Hne Hni) as (q1 & Hq1 & Hc1 & Hf1).
  destruct (Hkeep q1 Hq1) as (q2 & Hq2 & Hc2 & Hf2). fold p in Hq1.
  rewrite <-Hp3 in Hq2. rewrite <-Hi2 in Hidle.
  destruct (switch_in k2 regs fr' k3 q2 Hk2 Hidle Hcur2 Hs2) as (E1 & E2 & q3 & E3 & E4 & E5);
    [congruence..|].
  rewrite Hp3 in *. split_and!; [done|congruence|]. exists q3. split_and!; [done|congruence|done].
Qed.

(** The switch to the idle process does not save the FPU registers.  A
    process that blocks while nothing else is runnable comes back with the FPU
    image of its previous switch, whatever the registers held when it blocked. *)
Theorem idle_switch_loses_fpu k r q fr k1 k2 regs fr' k3 :
  sched_ok k → idle_process k ≠ 0 → current_known k →
  let p := current_process k in
  p ≠ 0 → p ≠ idle_process k → procs k !! p = Some q →
  nothing_runnable (prep k (Some r)) → scheduler (Some r) k = Done fr k1 →
  sched_ok k2 → idle_process k2 = idle_process k → current_known k2 →
  keeps_saved k1 k2 p → current_process k2 ≠ p →
  scheduler regs k2 = Done fr' k3 → current_process k3 = p →
  fpu k3 = sse_state q.
Proof.
  intros Hk Hidle Hcur p Hp Hpi Hq Hn Hs Hk2 Hi2 Hcur2 Hkeep Hne2 Hs2 Hp3.
  rewrite scheduler_result in Hs by done. unfold schedule_result in Hs.
  destruct (pick_selected (prep k (Some r))) as [[Epick _]|[Hge Hsel]].
  - rewrite Epick in Hs. fold p in Hs. rewrite (proj2 (nz_true _) Hp) in Hs. simpl in Hs.
    injection Hs as _ <-.
    assert (∃ q', procs (prep k (Some r)) !! p = Some q' ∧ sse_state q' = sse_state q)
      as (q1 & Hq1 & Hf1).
    { unfold prep. rewrite lookup_map_procs, Hq. eexists. split; [done|].
      unfold prep_proc. fold p. rewrite Z.eqb_refl. simpl. unfold wake_proc.
      repeat case_bool_decide; simpl; try done; by destruct (_ && _). }
    destruct (Hkeep q1 Hq1) as (q2 & Hq2 & _ & Hf2).
    rewrite <-Hp3 in Hq2. rewrite <-Hi2 in Hidle.
    destruct (switch_in k2 regs fr' k3 q2 Hk2 Hidle Hcur2 Hs2) as (_ & E2 & _);
      [congruence..|]. congruence.
  - pose proof (Hn _ (sel_range _ _ Hsel)) as E. rewrite (sel_runnable _ _ Hsel) in E. done.
Qed.
End SchedSpec.
