(* ===== verification/KInv.v ===== *)
(** * The invariant of the process subsystem

    [kinv] relates the process table, the distinguished processes and the heap.
    [evolves] is the preorder of the changes that keep the identity of every
    process; every operation that neither creates nor destroys a process stays
    inside it. *)

From S2P Require Import Prelude Proc Sched SchedInv SchedSpec.

Section KInv.
Context {KE : KEnv} {KO : KEnvOk}.
Implicit Types (k : kst) (p i j a : Z) (q : process).
#[local] Opaque pick highest.

(** ** Ownership of heap objects *)

Inductive owner := OProc (p : Z) | OStack (p : Z) | OFile (p : Z) (i : nat) | OSpace (p : Z).

(** The addresses a process is responsible for: its own object, the kernel stack
    of a user process, the open files, and the address space of a user process. *)
Definition owns k (o : owner) a : Prop :=
  match o with
  | OProc p => a = p ∧ is_Some (procs k !! p)
  | OStack p => ∃ q, procs k !! p = Some q ∧ is_kthread q = false ∧
      kstack_top q ≠ 0 ∧ a = u64 (kstack_top q - 32768)
  | OFile p i => ∃ q, procs k !! p = Some q ∧ files q !! i = Some a ∧ a ≠ 0
  | OSpace p => ∃ q, procs k !! p = Some q ∧ is_kthread q = false ∧ pml4 q ≠ 0 ∧ a = pml4 q
  end.

(** What the memory manager keeps for an owner: a block of the heap, or an address
    space. *)
Definition held (e : kenv) (o : owner) a : Prop :=
  match o with OSpace _ => space e a | _ => live e a end.

(** The blocks of process [p]. *)
Definition has_block k p a : Prop :=
  owns k (OProc p) a ∨ owns k (OStack p) a ∨ ∃ i : nat, owns k (OFile p i) a.

(** The signal state of a process: [pending_signals] is a 64-bit word whose bit 0
    is never set. *)
Record signals_wf (pending : Z) (handlers : list Z) : Prop := {
  so_range : 0 ≤ pending < 2 ^ 64;
  so_zero : Z.testbit pending 0 = false;
  so_handlers : length handlers = 64%nat }.

Definition signals_ok q : Prop := signals_wf (pending_signals q) (signal_handlers q).

(** Every owned block is allocated, every owned address space is set up, both have
    one owner, and the arrays inside a
    process have their declared length. *)
Record heap_ok k : Prop := {
  heap_null : procs k !! 0 = None;
  heap_held o a : owns k o a → held (env k) o a;
  heap_inj o o' a : owns k o a → owns k o' a → o = o';
  heap_files p q : procs k !! p = Some q → length (files q) = Z.to_nat MAX_FILES;
  heap_signals p q : procs k !! p = Some q → signals_ok q;
  heap_vfile p (i : nat) a : owns k (OFile p i) a → is_Some (vfiles k !! a) }.

(** ** The table *)

Definition in_table k p : Prop := p ∈ processes k ∧ p ≠ 0.

Definition used_slots k : Z := Z.of_nat (length (filter (λ p, p ≠ 0) (processes k))).

Definition running_ok k : Prop :=
  ∀ p q, in_table k p → procs k !! p = Some q → state q = TASK_RUNNING → p = current_process k.

Record kinv k : Prop := {
  inv_length : length (processes k) = Z.to_nat MAX_PROCESSES;
  inv_table p : in_table k p → is_Some (procs k !! p);
  inv_nodup i j : 0 ≤ i < MAX_PROCESSES → 0 ≤ j < MAX_PROCESSES →
    slot_at k i = slot_at k j → slot_at k i ≠ 0 → i = j;
  inv_count : process_count k = used_slots k;
  inv_cursor : 0 ≤ rr_cursor k < MAX_PROCESSES;
  inv_idle : idle_process k ≠ 0 ∧ idle_process k ∉ processes k;
  inv_idle_proc : ∃ q, procs k !! idle_process k = Some q ∧ context_ptr q = idle_process k ∧
    pid q = 0 ∧ pending_signals q = 0;
  inv_init : init_process k ≠ 0 → in_table k (init_process k) ∧
    ∃ q, procs k !! init_process k = Some q ∧ parent_pid q = 0;
  inv_current : current_known k;
  inv_running : running_ok k;
  inv_pid p q : in_table k p → procs k !! p = Some q → 0 < pid q < next_pid k;
  inv_pid_inj p q p' q' : in_table k p → in_table k p' → procs k !! p = Some q →
    procs k !! p' = Some q' → pid q = pid q' → p = p';
  inv_kthread p q : in_table k p → procs k !! p = Some q → is_kthread q = true →
    parent_pid q = 0;
  inv_heap : heap_ok k }.

Lemma kinv_table_ok k : kinv k → table_ok k.
Proof. intros Hk. split; [apply Hk|]. intros p Hp Hnz. by apply (inv_table _ Hk). Qed.

Lemma kinv_sched_ok k : kinv k → sched_ok k.
Proof.
  intros Hk. split; [by apply kinv_table_ok|apply Hk|apply Hk| |].
  - intros Hnz. destruct (inv_current _ Hk) as [?|[->|Hin]]; [done| |by apply (inv_table _ Hk)].
    destruct (inv_idle_proc _ Hk) as (q & -> & _). done.
  - intros _. destruct (inv_idle_proc _ Hk) as (q & -> & _). done.
Qed.

(** ** Changes that keep identities *)

Record same_proc p q q' : Prop := {
  sp_pid : pid q' = pid q;
  sp_kstack : kstack_top q' = kstack_top q;
  sp_pml4 : pml4 q' = pml4 q;
  sp_files : files q' = files q;
  sp_kthread : is_kthread q' = is_kthread q;
  sp_parent : parent_pid q = 0 → parent_pid q' = 0;
  sp_context : context_ptr q = p → context_ptr q' = p;
  sp_signals : signals_ok q → signals_ok q';
  sp_quiet : pid q = 0 → pending_signals q = 0 → pending_signals q' = 0 }.

#[global] Instance same_proc_preorder p : PreOrder (same_proc p).
Proof.
  split; [by intros q; split|]. intros q1 q2 q3 H1 H2. pose proof H1 as []. pose proof H2 as [].
  split; try congruence; auto. intros E ?. apply (sp_quiet _ _ _ H2); [congruence|auto].
Qed.

Record evolves k k' : Prop := {
  ev_processes : processes k' = processes k;
  ev_count : process_count k' = process_count k;
  ev_idle : idle_process k' = idle_process k;
  ev_init : init_process k' = init_process k;
  ev_next : next_pid k' = next_pid k;
  ev_vfiles : vfiles k' = vfiles k;
  ev_env : env k' = env k;
  ev_procs p : option_Forall2 (same_proc p) (procs k !! p) (procs k' !! p) }.

#[global] Instance evolves_preorder : PreOrder evolves.
Proof.
  split.
  - intros k. by split.
  - intros k1 k2 k3 H12 H23. destruct H12, H23. split; try congruence. intros p.
    etrans; eauto.
Qed.

Lemma evolves_map k f : (∀ p q, procs k !! p = Some q → same_proc p q (f p q)) →
  evolves k (map_procs k f).
Proof.
  intros Hf. split; try done. intros p. rewrite lookup_map_procs.
  destruct (procs k !! p) eqn:E; constructor. by apply Hf.
Qed.

(** A process of the new state and the one it comes from. *)
Lemma evolves_back k k' p q' : evolves k k' → procs k' !! p = Some q' →
  ∃ q, procs k !! p = Some q ∧ same_proc p q q'.
Proof.
  intros He Hq'. pose proof (ev_procs _ _ He p) as Hp. rewrite Hq' in Hp.
  inversion Hp as [q ? Hs E|]; subst. by exists q.
Qed.

Lemma evolves_forth k k' p q : evolves k k' → procs k !! p = Some q →
  ∃ q', procs k' !! p = Some q' ∧ same_proc p q q'.
Proof.
  intros He Hq. pose proof (ev_procs _ _ He p) as Hp. rewrite Hq in Hp.
  inversion Hp as [? q' Hs E|]; subst. by exists q'.
Qed.

Lemma evolves_in_table k k' p : evolves k k' → in_table k' p ↔ in_table k p.
Proof. intros He. unfold in_table. by rewrite (ev_processes _ _ He). Qed.

Lemma evolves_slot k k' i : evolves k k' → slot_at k' i = slot_at k i.
Proof. intros He. unfold slot_at. by rewrite (ev_processes _ _ He). Qed.

Lemma evolves_owns k k' o a : evolves k k' → owns k' o a → owns k o a.
Proof.
  intros He. destruct o as [p|p|p i|p]; simpl.
  - intros [-> [q' Hq']]. destruct (evolves_back _ _ _ _ He Hq') as (q & -> & _). done.
  - intros (q' & Hq' & ? & ? & ->). destruct (evolves_back _ _ _ _ He Hq') as (q & Hq & []).
    exists q. split_and!; congruence.
  - intros (q' & Hq' & ? & ?). destruct (evolves_back _ _ _ _ He Hq') as (q & Hq & []).
    exists q. split_and!; congruence.
  - intros (q' & Hq' & ? & ? & ->). destruct (evolves_back _ _ _ _ He Hq') as (q & Hq & []).
    exists q. split_and!; congruence.
Qed.

Lemma heap_live k p a : heap_ok k → has_block k p a → live (env k) a.
Proof. intros Hh [Ho|[Ho|[i Ho]]]; exact (heap_held _ Hh _ _ Ho). Qed.

Lemma heap_file k p (i : nat) a : heap_ok k → owns k (OFile p i) a → live (env k) a.
Proof. intros Hh Ho. exact (heap_held _ Hh _ _ Ho). Qed.

Lemma evolves_heap_ok k k' : evolves k k' → heap_ok k → heap_ok k'.
Proof.
  intros He Hh. split.
  - pose proof (ev_procs _ _ He 0) as Hp. rewrite (heap_null _ Hh) in Hp. by inversion Hp.
  - intros o a Ho. rewrite (ev_env _ _ He). eapply (heap_held _ Hh), evolves_owns; done.
  - intros o o' a Ho Ho'. eapply (heap_inj _ Hh); eapply evolves_owns; done.
  - intros p q' Hq'. destruct (evolves_back _ _ _ _ He Hq') as (q & Hq & Hs).
    rewrite (sp_files _ _ _ Hs). by apply (heap_files _ Hh p).
  - intros p q' Hq'. destruct (evolves_back _ _ _ _ He Hq') as (q & Hq & Hs).
    apply (sp_signals _ _ _ Hs). by apply (heap_signals _ Hh p).
  - intros p i a Ho. rewrite (ev_vfiles _ _ He). eapply (heap_vfile _ Hh), evolves_owns; done.
Qed.

Lemma evolves_kinv k k' : evolves k k' → kinv k →
  0 ≤ rr_cursor k' < MAX_PROCESSES → current_known k' → running_ok k' → kinv k'.
Proof.
  intros He Hk Hcur Hkn Hrun.
  assert (∀ p q', in_table k' p → procs k' !! p = Some q' →
    ∃ q, in_table k p ∧ procs k !! p = Some q ∧ same_proc p q q') as Hback.
  { intros p q' Hin Hq'. destruct (evolves_back _ _ _ _ He Hq') as (q & ? & ?).
    exists q. rewrite <-evolves_in_table by done. done. }
  split; try done.
  - rewrite (ev_processes _ _ He). apply Hk.
  - intros p Hp%(evolves_in_table k k'); [|done]. destruct (inv_table _ Hk p Hp) as [q Hq].
    by destruct (evolves_forth _ _ _ _ He Hq) as (? & -> & _).
  - intros i j. rewrite !(evolves_slot k k') by done. apply (inv_nodup _ Hk).
  - rewrite (ev_count _ _ He), (inv_count _ Hk). unfold used_slots.
    by rewrite (ev_processes _ _ He).
  - rewrite (ev_idle _ _ He), (ev_processes _ _ He). apply Hk.
  - rewrite (ev_idle _ _ He). destruct (inv_idle_proc _ Hk) as (q & Hq & Hc & Hp & Hs0).
    destruct (evolves_forth _ _ _ _ He Hq) as (q' & Hq' & Hs). exists q'.
    split_and!; [done|by apply (sp_context _ _ _ Hs)|by rewrite (sp_pid _ _ _ Hs)|].
    by apply (sp_quiet _ _ _ Hs).
  - rewrite (ev_init _ _ He). intros Hnz. rewrite (evolves_in_table k k') by done.
    destruct (inv_init _ Hk Hnz) as (? & q & Hq & Hpp). split; [done|].
    destruct (evolves_forth _ _ _ _ He Hq) as (q' & Hq' & Hs). exists q'.
    split; [done|]. by apply (sp_parent _ _ _ Hs).
  - intros p q' Hp Hq'. destruct (Hback p q' Hp Hq') as (q & ? & Hq & Hs).
    rewrite (sp_pid _ _ _ Hs), (ev_next _ _ He). by apply (inv_pid _ Hk p).
  - intros p1 q1' p2 q2' Hp1 Hp2 Hq1 Hq2 E.
    destruct (Hback _ _ Hp1 Hq1) as (q1 & ? & ? & Hs1), (Hback _ _ Hp2 Hq2) as (q2 & ? & ? & Hs2).
    rewrite (sp_pid _ _ _ Hs1), (sp_pid _ _ _ Hs2) in E. by eapply (inv_pid_inj _ Hk).
  - intros p q' Hp Hq' Hkt. destruct (Hback p q' Hp Hq') as (q & ? & Hq & Hs).
    rewrite (sp_kthread _ _ _ Hs) in Hkt. apply (sp_parent _ _ _ Hs).
    by apply (inv_kthread _ Hk p).
  - by eapply evolves_heap_ok, inv_heap.
Qed.

(** ** [scheduler] *)

Lemma wake_proc_same p now q : same_proc p q (wake_proc now q).
Proof. unfold wake_proc. case_bool_decide; [done|]. by destruct (_ && _). Qed.

Lemma prep_proc_same k regs p q : same_proc p q (prep_proc k regs p q).
Proof.
  unfold prep_proc.
  set (q1 := match regs with Some _ => _ | None => _ end).
  set (q2 := if bool_decide (p ∈ processes k) then _ else _).
  assert (same_proc p q q1) as H1 by (unfold q1; destruct regs; [by destruct (_ =? _)|done]).
  assert (same_proc p q1 q2) as H2 by (unfold q2; case_bool_decide; [apply wake_proc_same|done]).
  etrans; [exact H1|]. etrans; [exact H2|]. by destruct (_ && _ && _).
Qed.

Lemma evolves_prep k regs : evolves k (prep k regs).
Proof. apply evolves_map. intros. apply prep_proc_same. Qed.

Lemma evolves_switched k old i : evolves k (switched k old i).
Proof.
  split; try done. intros p. rewrite lookup_switched. destruct (procs k !! p); constructor.
  destruct (_ =? _); [done|]. by destruct (_ && _).
Qed.

Lemma evolves_resumed k i : evolves k (resumed k i).
Proof.
  split; try done. intros p. rewrite lookup_resumed. destruct (procs k !! p); constructor.
  by destruct (_ =? _).
Qed.

Lemma evolves_idled k : evolves k (idled k).
Proof. by split. Qed.

Lemma wake_proc_running now q : state (wake_proc now q) = TASK_RUNNING → state q = TASK_RUNNING.
Proof. unfold wake_proc. case_bool_decide; [done|]. by destruct (_ && _). Qed.

(** What [scheduler] keeps of a process besides its identity. *)
Record sched_rel q q' : Prop := {
  sr_parent : parent_pid q' = parent_pid q;
  sr_exit : exit_code q' = exit_code q;
  sr_reason : wait_reason q' = wait_reason q;
  sr_channel : wait_channel q' = wait_channel q;
  sr_wpid : wait_pid q' = wait_pid q;
  sr_zombie : state q = TASK_ZOMBIE → state q' = TASK_ZOMBIE;
  sr_waiting : state q' = TASK_WAITING ↔ state q = TASK_WAITING }.

#[global] Instance sched_rel_preorder : PreOrder sched_rel.
Proof.
  split; [by intros q; split|]. intros q1 q2 q3 [] []. split; try congruence; naive_solver.
Qed.

Lemma wake_proc_rel now q : sched_rel q (wake_proc now q).
Proof.
  unfold wake_proc. case_bool_decide as E; [done|]. destruct (_ && _); [|done].
  split; try done; by rewrite E.
Qed.

Lemma prep_proc_rel k regs p q : sched_rel q (prep_proc k regs p q).
Proof.
  unfold prep_proc.
  set (q1 := match regs with Some _ => _ | None => _ end).
  set (q2 := if bool_decide (p ∈ processes k) then _ else _).
  assert (sched_rel q q1) as H1 by (unfold q1; destruct regs; [by destruct (_ =? _)|done]).
  assert (sched_rel q1 q2) as H2 by (unfold q2; case_bool_decide; [apply wake_proc_rel|done]).
  etrans; [exact H1|]. etrans; [exact H2|]. destruct (_ && _ && _) eqn:E; [|done].
  apply andb_true_iff in E as [_ E%bool_decide_eq_true]. split; try done; rewrite E; done.
Qed.

Lemma run_rel q : state q = TASK_READY ∨ state q = TASK_RUNNING →
  sched_rel q (q <| state := TASK_RUNNING |>).
Proof. intros [E|E]; split; try done; rewrite E; done. Qed.

(** Nobody is running while the selection is made. *)
Lemma prep_quiet k regs p q : kinv k → regs ≠ None ∨ current_process k = 0 →
  in_table k p → procs (prep k regs) !! p = Some q → state q ≠ TASK_RUNNING.
Proof.
  intros Hk Hr Hp Hq Hrun. unfold prep in Hq. rewrite lookup_map_procs in Hq.
  destruct (procs k !! p) as [q0|] eqn:Hq0; [|done]. injection Hq as <-.
  assert (state q0 = TASK_RUNNING → p = current_process k ∧ regs ≠ None) as Hcur.
  { intros E. pose proof (inv_running _ Hk p q0 Hp Hq0 E) as ->. split; [done|].
    destruct Hr as [|Hr]; [done|]. destruct Hp. congruence. }
  unfold prep_proc in Hrun. rewrite (bool_decide_true (p ∈ processes k)) in Hrun by apply Hp.
  set (q1 := match regs with Some _ => _ | None => _ end) in Hrun.
  assert (state q1 = state q0) as E1 by (unfold q1; destruct regs; [by destruct (_ =? _)|done]).
  rewrite <-E1 in Hcur. clearbody q1.
  destruct (_ && _ && _) eqn:E; [done|]. rewrite (bool_decide_true _ Hrun), andb_true_r in E.
  destruct (Hcur (wake_proc_running _ _ Hrun)) as [-> Hreg].
  rewrite Z.eqb_refl in E. by destruct regs.
Qed.

Lemma slot_in_table k i : kinv k → 0 ≤ i < MAX_PROCESSES → slot_at k i ≠ 0 →
  in_table k (slot_at k i).
Proof. intros Hk Hi Hnz. split; [|done]. by apply slot_elem; [apply kinv_table_ok|]. Qed.

Lemma cursor_range i : 0 ≤ (i + 1) `mod` MAX_PROCESSES < MAX_PROCESSES.
Proof. by apply Z.mod_pos_bound. Qed.

(** The three ways [scheduler] ends, each in a state that satisfies [kinv] again. *)
Section Ends.
Context (k : kst) (regs : option registers) (Hk : kinv k).
Context (Hr : regs ≠ None ∨ current_process k = 0).

Lemma kinv_idled : kinv (idled (prep k regs)).
Proof.
  apply (evolves_kinv k).
  - etrans; [apply (evolves_prep k regs)|apply evolves_idled].
  - done.
  - apply Hk.
  - right. by left.
  - intros p q Hp Hq Hrun. exfalso. by apply (prep_quiet k regs p q Hk Hr Hp Hq).
Qed.

Lemma kinv_prep : current_process k = 0 → kinv (prep k regs).
Proof.
  intros Hc. apply (evolves_kinv k).
  - apply evolves_prep.
  - done.
  - apply Hk.
  - by left.
  - intros p q Hp Hq Hrun. exfalso. by apply (prep_quiet k regs p q Hk Hr Hp Hq).
Qed.

Lemma kinv_resumed i : 0 ≤ i < MAX_PROCESSES → slot_at k i = current_process k →
  kinv (resumed (prep k regs) i).
Proof.
  intros Hi Hc. apply (evolves_kinv k).
  - etrans; [apply (evolves_prep k regs)|apply evolves_resumed].
  - done.
  - apply cursor_range.
  - apply Hk.
  - intros p q Hp Hq Hrun. rewrite lookup_resumed in Hq.
    destruct (procs (prep k regs) !! p) as [q0|] eqn:Hq0; [|done]. simpl in Hq.
    change (slot_at (prep k regs) i) with (slot_at k i) in Hq.
    destruct (Z.eqb_spec p (slot_at k i)) as [->|Hne]; [done|]. injection Hq as ->.
    exfalso. by apply (prep_quiet k regs p q Hk Hr Hp Hq0).
Qed.

Lemma kinv_switched i : 0 ≤ i < MAX_PROCESSES → slot_at k i ≠ 0 →
  kinv (switched (prep k regs) (current_process k) i).
Proof.
  intros Hi Hnz. apply (evolves_kinv k).
  - etrans; [apply (evolves_prep k regs)|apply evolves_switched].
  - done.
  - apply cursor_range.
  - right. right. exact (slot_elem k (kinv_table_ok k Hk) i Hi).
  - intros p q Hp Hq Hrun. rewrite lookup_switched in Hq.
    destruct (procs (prep k regs) !! p) as [q0|] eqn:Hq0; [|done]. simpl in Hq.
    change (slot_at (prep k regs) i) with (slot_at k i) in Hq.
    destruct (Z.eqb_spec p (slot_at k i)) as [->|Hne]; [done|].
    exfalso. apply (prep_quiet k regs p q0 Hk Hr Hp Hq0). injection Hq as <-.
    by destruct (_ && _).
Qed.

Lemma idle_frame_prep : idle_frame (prep k regs) = ContextOf (idle_process k).
Proof.
  destruct (inv_idle_proc _ Hk) as (q & Hq & Hc & _).
  destruct (evolves_forth _ _ _ _ (evolves_prep k regs) Hq) as (q' & Hq' & Hs).
  unfold idle_frame. change (idle_process (prep k regs)) with (idle_process k).
  rewrite Hq', (sp_context _ _ _ Hs Hc). unfold frame_of_ptr.
  destruct (inv_idle _ Hk) as [Hnz _]. by rewrite (proj2 (Z.eqb_neq _ _) Hnz).
Qed.
End Ends.

Lemma selected_state k i q : selected k i → procs k !! slot_at k i = Some q →
  state q = TASK_READY ∨ state q = TASK_RUNNING.
Proof.
  intros Hsel Hq. pose proof (sel_runnable _ _ Hsel) as Hr. unfold runnableb in Hr.
  rewrite Hq, !andb_true_iff, orb_true_iff, !bool_decide_eq_true in Hr. apply Hr.
Qed.

(** The states of the processes before and after. *)
Definition sched_keeps k k' : Prop := ∀ p, option_Forall2 sched_rel (procs k !! p) (procs k' !! p).

#[global] Instance sched_keeps_preorder : PreOrder sched_keeps.
Proof. split; [intros k p; done|]. intros k1 k2 k3 H1 H2 p. etrans; [apply H1|apply H2]. Qed.

Lemma prep_keeps_rel k regs : sched_keeps k (prep k regs).
Proof.
  intros p. unfold prep. rewrite lookup_map_procs. destruct (procs k !! p); constructor.
  apply prep_proc_rel.
Qed.

Lemma resumed_keeps k i : selected k i → sched_keeps k (resumed k i).
Proof.
  intros Hsel p. rewrite lookup_resumed. destruct (procs k !! p) as [q|] eqn:Hq; constructor.
  destruct (Z.eqb_spec p (slot_at k i)) as [->|]; [|done]. by eapply run_rel, selected_state.
Qed.

Lemma switched_keeps k old i : selected k i → sched_keeps k (switched k old i).
Proof.
  intros Hsel p. rewrite lookup_switched. destruct (procs k !! p) as [q|] eqn:Hq; constructor.
  destruct (Z.eqb_spec p (slot_at k i)) as [->|]; [by eapply run_rel, selected_state|].
  by destruct (_ && _).
Qed.

Record sched_ends k regs fr k' : Prop := {
  se_frame : fr ≠ NullFrame;
  se_inv : kinv k';
  se_evolves : evolves k k';
  se_keeps : sched_keeps k k';
  se_post : sched_post k regs fr k' }.

Lemma kinv_scheduler k regs : kinv k → regs ≠ None ∨ current_process k = 0 →
  ∃ fr k', scheduler regs k = Done fr k' ∧ sched_ends k regs fr k'.
Proof.
  intros Hk Hr. pose proof (kinv_sched_ok k Hk) as Hs.
  destruct (inv_idle _ Hk) as [Hidle Hni]. pose proof (inv_current _ Hk) as Hcur.
  destruct (scheduler_post k regs Hs Hidle Hcur) as (fr & k' & E & HP).
  exists fr, k'. split; [done|]. rewrite scheduler_result in E by done.
  unfold schedule_result in E. pose proof (evolves_prep k regs) as Hev.
  pose proof (prep_keeps_rel k regs) as Hkp.
  destruct (pick_selected (prep k regs)) as [[Ep Hnone]|[Hge Hsel]].
  - rewrite Ep in E. simpl in E. destruct (negb _ && _) eqn:Ec; injection E as <- <-.
    + apply andb_true_iff in Ec as [Ec _]. split; try done. apply kinv_prep; try done.
      apply negb_true_iff in Ec. by apply nz_false in Ec.
    + split; [by rewrite idle_frame_prep|by apply kinv_idled| | |done].
      * etrans; [exact Hev|apply evolves_idled].
      * exact Hkp.
  - rewrite (proj2 (Z.ltb_ge _ _)) in E by lia.
    pose proof (runnable_nonnull _ _ (sel_runnable _ _ Hsel)) as Hnz.
    destruct (Z.eqb_spec (slot_at (prep k regs) (pick (prep k regs))) (current_process k)) as [Ec|Ec];
      injection E as <- <-.
    + split; [|by apply kinv_resumed; [..|apply Hsel|]| | |done].
      * destruct regs; [done|]. destruct Hr as [|Hr]; [done|]. congruence.
      * etrans; [exact Hev|apply evolves_resumed].
      * etrans; [exact Hkp|by apply resumed_keeps].
    + split; [done|by apply kinv_switched; [..|apply Hsel|]| | |done].
      * etrans; [exact Hev|apply evolves_switched].
      * etrans; [exact Hkp|by apply switched_keeps].
Qed.
End KInv.
