(* ===== verification/Exit.v ===== *)
(** * Process exit

    [adopt_children] and [do_exit] of [kernel/sched.c]: the exiting process
    becomes a zombie, its children go to the init process, a parent that waits
    for a child is woken, and another process is resumed. *)

From S2P Require Import Prelude Proc Sched SchedInv SchedSpec KInv.

Section Exit.
Context {KE : KEnv} {KO : KEnvOk}.
Implicit Types (k s : kst) (p i j a : Z) (q : process).
#[local] Opaque pick highest.

(** ** Rules for the pointer operations *)

Lemma heap_nonnull k p q : procs k !! 0 = None → procs k !! p = Some q → p ≠ 0.
Proof. intros H0 Hq ->. congruence. Qed.

Lemma wp_load k p q Q : procs k !! 0 = None → procs k !! p = Some q → Q q k →
  wp (load p) Q k.
Proof.
  intros H0 Hq HQ. eapply wp_of_eq; [|done]. apply load_eq; [by eapply heap_nonnull|done].
Qed.

Definition put k p q : kst := k <| procs := <[p := q]> (procs k) |>.

Lemma wp_upd k p q f Q : procs k !! 0 = None → procs k !! p = Some q →
  Q tt (put k p (f q)) → wp (upd p f) Q k.
Proof.
  intros H0 Hq HQ. eapply wp_of_eq; [|done]. apply upd_eq; [by eapply heap_nonnull|done].
Qed.

Lemma wp_slot k i Q : table_ok k → 0 ≤ i < MAX_PROCESSES → Q (slot_at k i) k →
  wp (slot i) Q k.
Proof. intros Hk Hi HQ. eapply wp_of_eq; [by apply slot_eq|done]. Qed.

Lemma evolves_put k p q q' : procs k !! p = Some q → same_proc p q q' → evolves k (put k p q').
Proof.
  intros Hq Hs. split; try done. intros p'. unfold put. simpl.
  destruct (decide (p' = p)) as [->|Hne].
  - rewrite lookup_insert_eq, Hq. by constructor.
  - by rewrite lookup_insert_ne by done.
Qed.

Lemma lookup_put k p q p' : procs (put k p q) !! p' = if decide (p' = p) then Some q else procs k !! p'.
Proof.
  unfold put. simpl. destruct (decide (p' = p)) as [->|]; [by rewrite lookup_insert_eq|].
  by rewrite lookup_insert_ne.
Qed.

Lemma evolves_table_ok k k' : evolves k k' → table_ok k → table_ok k'.
Proof.
  intros He [Hl Hp]. split; [by rewrite (ev_processes _ _ He)|].
  intros p. rewrite (ev_processes _ _ He). intros Hin Hnz.
  destruct (Hp p Hin Hnz) as [q Hq]. by destruct (evolves_forth _ _ _ _ He Hq) as (? & -> & _).
Qed.

Lemma evolves_null k k' : evolves k k' → procs k !! 0 = None → procs k' !! 0 = None.
Proof.
  intros He H0. pose proof (ev_procs _ _ He 0) as Hp. rewrite H0 in Hp. by inversion Hp.
Qed.

(** ** Searching the table *)

Lemma find_process_by_pid_eq k n : kinv k →
  ∃ p, find_process_by_pid n k = Done p k ∧
    (p ≠ 0 → in_table k p ∧ ∃ q, procs k !! p = Some q ∧ pid q = n) ∧
    (∀ p' q, in_table k p' → procs k !! p' = Some q → pid q = n → p = p').
Proof.
  intros Hk. pose proof (kinv_table_ok k Hk) as Ht.
  set (hit := λ i, match procs k !! slot_at k i with
                   | Some q => if pid q =? n then Some (slot_at k i) else None
                   | None => None end).
  assert (∀ i, 0 ≤ i < MAX_PROCESSES → slot_at k i = 0 → hit i = None) as Hnull.
  { intros i _ E. unfold hit. rewrite E, (heap_null _ (inv_heap _ Hk)). done. }
  exists (default 0 (first_some (Z.to_nat MAX_PROCESSES) 0 hit)). split_and!.
  - unfold find_process_by_pid. erewrite bind_done; [done|]. apply for_up_search.
    intros i Hi. rewrite Z2Nat.id in Hi by done. erewrite bind_done by by apply slot_eq.
    destruct (nz (slot_at k i)) eqn:E.
    + apply nz_true in E. destruct (slot_proc k Ht i ltac:(lia) E) as [q Hq].
      erewrite bind_done by by apply load_eq. unfold hit. by rewrite Hq.
    + apply nz_false in E. by rewrite Hnull by (done || lia).
  - destruct (first_some _ _ _) as [p|] eqn:E; [|done]. intros Hnz. simpl in *.
    apply first_some_Some in E as (i & Hi & Hhit & _). rewrite Z2Nat.id in Hi by done.
    unfold hit in Hhit. destruct (procs k !! slot_at k i) as [q|] eqn:Hq; [|done].
    destruct (Z.eqb_spec (pid q) n); [|done]. injection Hhit as <-.
    split; [by apply slot_in_table|by exists q].
  - intros p' q Hp' Hq Hpid. destruct (elem_slot k p' Ht (proj1 Hp')) as (i & Hi & <-).
    destruct (first_some _ _ _) as [p|] eqn:E; simpl.
    + apply first_some_Some in E as (j & Hj & Hhit & _). rewrite Z2Nat.id in Hj by done.
      unfold hit in Hhit. destruct (procs k !! slot_at k j) as [q'|] eqn:Hq'; [|done].
      destruct (Z.eqb_spec (pid q') n); [|done]. injection Hhit as <-.
      eapply (inv_pid_inj _ Hk); try done; [|congruence]. apply slot_in_table; [done..|].
      intros Hz. rewrite Hz, (heap_null _ (inv_heap _ Hk)) in Hq'. done.
    + rewrite first_some_None in E. specialize (E i). rewrite Z2Nat.id in E by done.
      unfold hit in E. rewrite Hq, (proj2 (Z.eqb_eq _ _) Hpid) in E. by discriminate E.
Qed.

(** ** Reparenting *)

(** Entry [p] has been visited when the loop is at slot [i]. *)
Definition visited k i p : bool := bool_decide (p ∈ take (Z.to_nat i) (processes k)).

Lemma visited_step k i p : table_ok k → 0 ≤ i < MAX_PROCESSES →
  visited k (i + 1) p = visited k i p || bool_decide (p = slot_at k i).
Proof.
  intros Hk Hi. unfold visited. rewrite take_slot by done. rewrite <-bool_decide_or.
  apply bool_decide_ext. rewrite elem_of_app, list_elem_of_singleton. done.
Qed.

Lemma visited_fresh k i : kinv k → 0 ≤ i < MAX_PROCESSES → slot_at k i ≠ 0 →
  visited k i (slot_at k i) = false.
Proof.
  intros Hk Hi Hnz. apply bool_decide_eq_false. intros (j & Hj)%list_elem_of_lookup.
  apply lookup_take_Some in Hj as [Hj Hlt].
  enough (i = Z.of_nat j) by lia. apply (inv_nodup _ Hk); [done|lia| |done].
  symmetry. unfold slot_at at 1. by rewrite Nat2Z.id, Hj.
Qed.

Lemma visited_all k p : kinv k → visited k MAX_PROCESSES p = bool_decide (p ∈ processes k).
Proof.
  intros Hk. unfold visited. by rewrite take_ge by (rewrite (inv_length _ Hk); done).
Qed.

(** What the loop of [adopt_children] has done to a process when slot [i] is
    reached; [xp] and [ip] are the pids of the exiting and the init process. *)
Record adopted k (init xp ip i : Z) p q q' : Prop := {
  ad_parent : parent_pid q' =
    if visited k i p && (parent_pid q =? xp) then ip else parent_pid q;
  ad_exit : exit_code q' = exit_code q;
  ad_reason : wait_reason q' = wait_reason q;
  ad_state : state q' = state q ∨
    (p = init ∧ state q = TASK_WAITING ∧ state q' = TASK_READY);
  ad_rest : same_proc p q q' }.

Record adopting k (init xp ip i : Z) s : Prop := {
  adg_ev : evolves k s;
  adg_cur : current_process s = current_process k;
  adg_cursor : rr_cursor s = rr_cursor k;
  adg_procs p q : procs k !! p = Some q →
    ∃ q', procs s !! p = Some q' ∧ adopted k init xp ip i p q q' }.

(** Rewriting one process keeps the relation. *)
Lemma adopting_put k init xp ip i j s p q q' :
  adopting k init xp ip i s → procs k !! p = Some q → adopted k init xp ip j p q q' →
  (∀ p0 q0 q0', p0 ≠ p → procs k !! p0 = Some q0 → adopted k init xp ip i p0 q0 q0' →
     adopted k init xp ip j p0 q0 q0') →
  adopting k init xp ip j (put s p q').
Proof.
  intros [Hev Hc Hr Hp] Hq Ha Hrest. split; [|done..|].
  - destruct Hev. split; try done. intros p0. rewrite lookup_put.
    destruct (decide (p0 = p)) as [->|]; [|done]. rewrite Hq. constructor. apply Ha.
  - intros p0 q0 Hq0. rewrite lookup_put. destruct (decide (p0 = p)) as [->|Hne].
    + exists q'. replace q0 with q by congruence. done.
    + destruct (Hp p0 q0 Hq0) as (q0' & ? & ?). exists q0'. split; [done|]. by apply Hrest.
Qed.

Lemma adopting_skip k init xp ip i s : kinv k → 0 ≤ i < MAX_PROCESSES →
  (∀ q, procs k !! slot_at k i = Some q → parent_pid q ≠ xp) →
  adopting k init xp ip i s → adopting k init xp ip (i + 1) s.
Proof.
  intros Hk Hi Hs [Hev Hc Hr Hp]. split; [done..|]. intros p q Hq.
  destruct (Hp p q Hq) as (q' & Hq' & Ha). exists q'. split; [done|].
  destruct Ha as [Hpar ????]. split; try done. rewrite Hpar.
  rewrite visited_step by (done || by apply kinv_table_ok). case_bool_decide; [|by rewrite orb_false_r].
  subst p. rewrite (proj2 (Z.eqb_neq _ _) (Hs q Hq)). by rewrite !andb_false_r.
Qed.

Section Adopt.
Context (k : kst) (ex : Z) (qx qi : process) (Hk : kinv k).
Context (Hex : in_table k ex) (Hqx : procs k !! ex = Some qx).
Let init := init_process k.
Context (Hinit : init ≠ 0) (Hne : ex ≠ init) (Hqi : procs k !! init = Some qi).

Lemma adopting_child i s c c' : 0 ≤ i < MAX_PROCESSES → slot_at k i ≠ 0 →
  adopting k init (pid qx) (pid qi) i s →
  procs k !! slot_at k i = Some c → adopted k init (pid qx) (pid qi) i (slot_at k i) c c' →
  parent_pid c = pid qx →
  adopting k init (pid qx) (pid qi) (i + 1)
    (put s (slot_at k i) (c' <| parent_pid := pid qi |>)).
Proof.
  intros Hi Hnz Hs Hc Ha Hpar. pose proof (kinv_table_ok k Hk) as Ht.
  eapply adopting_put; [done|done| |].
  - destruct Ha as [????[]]. split; try done.
    + rewrite visited_step, (proj2 (Z.eqb_eq _ _) Hpar), bool_decide_true by done.
      by rewrite orb_true_r.
    + split; try done. intros E0. pose proof (inv_pid _ Hk _ _ Hex Hqx). lia.
  - intros p0 q0 q0' Hp0 Hq0 [Hp ????]. split; try done. rewrite Hp.
    by rewrite visited_step, bool_decide_false, orb_false_r.
Qed.

Lemma adopting_wake i s qi' :
  adopting k init (pid qx) (pid qi) i s → procs s !! init = Some qi' →
  state qi' = TASK_WAITING →
  adopting k init (pid qx) (pid qi) i (put s init (qi' <| state := TASK_READY |>)).
Proof.
  intros Hs Hqi' Hw. destruct (adg_procs _ _ _ _ _ _ Hs init qi Hqi) as (q' & Hq' & Ha).
  assert (q' = qi') as -> by congruence. eapply adopting_put; [done|done| |done].
  destruct Ha as [??? Hst []]. split; try done. right. destruct Hst as [<-|(?&?&?)]; [done|].
  congruence.
Qed.

Lemma adopt_children_wp :
  wp (adopt_children ex) (λ _ s, adopting k init (pid qx) (pid qi) MAX_PROCESSES s) k.
Proof.
  pose proof (kinv_table_ok k Hk) as Ht. pose proof (heap_null _ (inv_heap _ Hk)) as H0.
  unfold adopt_children. apply wp_bind, wp_gets. fold init.
  rewrite (proj2 (nz_true ex)) by apply Hex. rewrite (proj2 (nz_true init)) by done.
  rewrite (proj2 (Z.eqb_neq ex init)) by done. simpl.
  eapply wp_mono; [apply (wp_for_all _ 0 _ (adopting k init (pid qx) (pid qi)))|done].
  2:{ split; try done. intros p q Hq. exists q. split; [done|]. split; [|done|done|by left|done].
      unfold visited. by rewrite bool_decide_false by (simpl; set_solver). }
  intros i s Hi Hs. rewrite Z2Nat.id in Hi by done.
  pose proof (adg_ev _ _ _ _ _ _ Hs) as Hev.
  pose proof (evolves_null _ _ Hev H0) as H0s. pose proof (evolves_table_ok _ _ Hev Ht) as Hts.
  apply wp_bind, wp_slot; [done|lia|]. rewrite (evolves_slot k s) by done.
  destruct (nz (slot_at k i)) eqn:Hnz; simpl.
  2:{ apply nz_false in Hnz. apply wp_ret, adopting_skip; [done|lia| |done].
      rewrite Hnz, H0. done. }
  apply nz_true in Hnz. destruct (slot_proc k Ht i ltac:(lia) Hnz) as [c Hc].
  destruct (adg_procs _ _ _ _ _ _ Hs _ _ Hc) as (c' & Hc' & Ha).
  destruct (adg_procs _ _ _ _ _ _ Hs _ _ Hqx) as (qx' & Hqx' & Hax).
  destruct (adg_procs _ _ _ _ _ _ Hs _ _ Hqi) as (qi' & Hqi' & Hai).
  apply wp_bind. eapply wp_load; [done..|]. apply wp_bind. eapply wp_load; [done..|].
  rewrite (sp_pid _ _ _ (ad_rest _ _ _ _ _ _ _ _ Hax)), (ad_parent _ _ _ _ _ _ _ _ Ha).
  rewrite visited_fresh by (done || lia). simpl.
  destruct (Z.eqb_spec (parent_pid c) (pid qx)) as [Hpar|Hpar]; simpl.
  2:{ apply wp_ret, adopting_skip; [done|lia|congruence|done]. }
  apply wp_bind. eapply wp_load; [done..|]. apply wp_bind. eapply wp_upd; [done..|].
  rewrite (sp_pid _ _ _ (ad_rest _ _ _ _ _ _ _ _ Hai)).
  pose proof (adopting_child i s c c' ltac:(lia) Hnz Hs Hc Ha Hpar) as Hs2.
  set (s2 := put s _ _) in *. pose proof (evolves_null _ _ (adg_ev _ _ _ _ _ _ Hs2) H0) as H0s2.
  destruct (adg_procs _ _ _ _ _ _ Hs2 _ _ Hc) as (c2 & Hc2 & _).
  destruct (adg_procs _ _ _ _ _ _ Hs2 _ _ Hqi) as (qi2 & Hqi2 & _).
  apply wp_bind. eapply wp_load; [done..|]. apply wp_bind. eapply wp_load; [done..|].
  destruct (_ && _) eqn:E; [|by apply wp_ret].
  apply andb_true_iff in E as [_ E%bool_decide_eq_true].
  eapply wp_upd; [done..|]. by apply adopting_wake.
Qed.
End Adopt.

(** The parent of [p] after [ex] (with pid [xp]) has exited. *)
Definition new_parent k (ex xp p : Z) q : Z :=
  match procs k !! init_process k with
  | Some qi => if nz (init_process k) && negb (ex =? init_process k) &&
                  bool_decide (p ∈ processes k) && (parent_pid q =? xp)
               then pid qi else parent_pid q
  | None => parent_pid q
  end.

Record reparented k (ex xp : Z) s : Prop := {
  rep_ev : evolves k s;
  rep_cur : current_process s = current_process k;
  rep_cursor : rr_cursor s = rr_cursor k;
  rep_procs p q : procs k !! p = Some q →
    ∃ q', procs s !! p = Some q' ∧ parent_pid q' = new_parent k ex xp p q ∧
      exit_code q' = exit_code q ∧ wait_reason q' = wait_reason q ∧
      (state q' = state q ∨
       (p = init_process k ∧ state q = TASK_WAITING ∧ state q' = TASK_READY)) }.

Lemma adopt_children_spec k ex qx : kinv k → in_table k ex → procs k !! ex = Some qx →
  wp (adopt_children ex) (λ _ s, reparented k ex (pid qx) s) k.
Proof.
  intros Hk Hex Hqx.
  destruct (decide (init_process k = 0 ∨ ex = init_process k)) as [Hno|Hyes].
  - assert (adopt_children ex k = Done tt k) as E.
    { unfold adopt_children. erewrite bind_done by done.
      destruct Hno as [-> | <-]; [by rewrite orb_true_r|]. by rewrite Z.eqb_refl, orb_true_r. }
    eapply wp_of_eq; [exact E|]. split; try done. intros p q Hq. exists q.
    split_and!; try done; [|by left]. unfold new_parent. destruct (procs k !! init_process k); [|done].
    destruct Hno as [-> | ->]; [done|]. by rewrite Z.eqb_refl, andb_false_r.
  - assert (init_process k ≠ 0 ∧ ex ≠ init_process k) as [Hi Hne] by tauto.
    destruct (inv_init _ Hk Hi) as (_ & qi & Hqi & _).
    eapply wp_mono; [by apply (adopt_children_wp k ex qx qi)|].
    intros _ s [Hev Hc Hr Hp]. split; try done. intros p q Hq.
    destruct (Hp p q Hq) as (q' & Hq' & [Hpar ????]). exists q'. split_and!; try done.
    rewrite Hpar, visited_all by done. unfold new_parent.
    by rewrite Hqi, (proj2 (nz_true _) Hi), (proj2 (Z.eqb_neq _ _) Hne).
Qed.

Lemma reparented_kinv k ex xp s : kinv k → reparented k ex xp s → kinv s.
Proof.
  intros Hk [Hev Hc Hr Hp]. apply (evolves_kinv k); [done|done|rewrite Hr; apply Hk| |].
  - unfold current_known. rewrite Hc, (ev_idle _ _ Hev), (ev_processes _ _ Hev). apply Hk.
  - intros p q' Hin Hq' Hrun. rewrite Hc. apply evolves_in_table with (k := k) in Hin; [|done].
    destruct (evolves_back _ _ _ _ Hev Hq') as (q & Hq & _).
    destruct (Hp p q Hq) as (q'' & Hq'' & _ & _ & _ & Hst).
    replace q'' with q' in Hst by congruence. apply (inv_running _ Hk p q); [done..|].
    destruct Hst as [|(_ & _ & ?)]; congruence.
Qed.

(** Waking the parent. *)
Definition woken q : process :=
  q <| state := TASK_READY |> <| wait_reason := WAIT_NONE |>
    <| wait_channel := ChanNull |> <| wait_pid := -1 |>.

Definition waits_child q : bool :=
  bool_decide (state q = TASK_WAITING) && bool_decide (wait_reason q = WAIT_CHILD).

(** ** [do_exit] *)

Section DoExit.
Context (k : kst) (code : Z) (qx : process) (Hk : kinv k).
Let ex := current_process k.
Context (Hnz : ex ≠ 0) (Hni : ex ≠ idle_process k) (Hqx : procs k !! ex = Some qx).

Let zombie := qx <| exit_code := code |> <| state := TASK_ZOMBIE |>.
Let k1 := put k ex zombie.

Lemma exiting_in_table : in_table k ex.
Proof. destruct (inv_current _ Hk) as [?|[?|?]]; done. Qed.

Lemma exit_zombie_inv : kinv k1 ∧ evolves k k1.
Proof.
  assert (evolves k k1) as Hev by (by eapply evolves_put).
  split; [|done]. apply (evolves_kinv k); [done|done|apply Hk|apply Hk|].
  intros p q Hp Hq Hrun. unfold k1 in Hq. rewrite lookup_put in Hq.
  destruct (decide (p = ex)); [by simplify_eq|]. by apply (inv_running _ Hk p q).
Qed.

(** The state when [scheduler] is called. *)
Record exit_ready s : Prop := {
  er_inv : kinv s;
  er_ev : evolves k s;
  er_current : current_process s = 0;
  er_zombie : ∃ q, procs s !! ex = Some q ∧ state q = TASK_ZOMBIE ∧ exit_code q = code;
  er_parent p q : procs k !! p = Some q → p ≠ ex →
    ∃ q', procs s !! p = Some q' ∧ parent_pid q' = new_parent k ex (pid qx) p q;
  er_wake p q : in_table k p → p ≠ ex → procs k !! p = Some q →
    pid q = parent_pid qx → waits_child q = true →
    ∃ q', procs s !! p = Some q' ∧ state q' ≠ TASK_WAITING }.

Definition wake_parent (parent : Z) : M kst unit :=
  if nz parent then
    pq ← load parent;
    if bool_decide (state pq = TASK_WAITING) && bool_decide (wait_reason pq = WAIT_CHILD)
    then upd parent (λ q, q <| state := TASK_READY |> <| wait_reason := WAIT_NONE |>
                             <| wait_channel := ChanNull |> <| wait_pid := -1 |>)
    else mret tt
  else mret tt.

Lemma wake_parent_eq s p : kinv s → (p ≠ 0 → is_Some (procs s !! p)) →
  ∃ s', wake_parent p s = Done tt s' ∧ evolves s s' ∧ rr_cursor s' = rr_cursor s ∧
    current_process s' = current_process s ∧
    ∀ p' q, procs s !! p' = Some q → procs s' !! p' =
      Some (if bool_decide (p' = p) && waits_child q then woken q else q).
Proof.
  intros Hs Hp. pose proof (heap_null _ (inv_heap _ Hs)) as H0. unfold wake_parent.
  destruct (nz p) eqn:E.
  2:{ apply nz_false in E as ->. exists s. split_and!; try done. intros p' q Hq.
      case_bool_decide; [|done]. congruence. }
  apply nz_true in E. destruct (Hp E) as [q Hq]. erewrite bind_done by by apply load_eq.
  fold (waits_child q). destruct (waits_child q) eqn:Ew.
  - exists (put s p (woken q)). split_and!; [by eapply upd_eq|by eapply evolves_put|done..|].
    intros p' q' Hq'. rewrite lookup_put. case_bool_decide; case_decide; try done.
    simplify_eq. by rewrite Ew.
  - exists s. split_and!; try done. intros p' q' Hq'. case_bool_decide; [|done].
    simplify_eq. by rewrite Ew.
Qed.

Lemma exit_woken s p s' : kinv k1 → evolves k k1 → reparented k1 ex (pid qx) s →
  evolves s s' → rr_cursor s' = rr_cursor s → current_process s' = current_process s →
  (p ≠ 0 → in_table s p ∧ ∃ q, procs s !! p = Some q ∧ pid q = new_parent k1 ex (pid qx) ex zombie) →
  (∀ p' q, in_table s p' → procs s !! p' = Some q →
     pid q = new_parent k1 ex (pid qx) ex zombie → p = p') →
  (∀ p' q, procs s !! p' = Some q → procs s' !! p' =
      Some (if bool_decide (p' = p) && waits_child q then woken q else q)) →
  exit_ready (s' <| current_process := 0 |> <| current_process_index := -1 |>).
Proof.
  intros Hk1 Hev1 Hrep Hev' Hcur' Hc' Hpar Huniq Hl.
  pose proof (reparented_kinv _ _ _ _ Hk1 Hrep) as Hs. destruct Hrep as [Hev Hc Hr Hp].
  assert (procs k1 !! ex = Some zombie) as Hz by (unfold k1; by rewrite lookup_put, decide_True).
  assert (∃ q, procs s' !! ex = Some q ∧ state q = TASK_ZOMBIE ∧ exit_code q = code) as Hzs.
  { destruct (Hp ex zombie Hz) as (q & Hq & _ & Hex & _ & Hst).
    assert (state q = TASK_ZOMBIE) as Eq by (destruct Hst as [->|(_ & ? & _)]; done).
    exists q. rewrite (Hl _ _ Hq). unfold waits_child. rewrite Eq, andb_false_r. done. }
  assert (evolves k s') as Hevs by (etrans; [exact Hev1|]; etrans; [exact Hev|done]).
  split; [|by destruct Hevs|done|exact Hzs| |].
  - apply (evolves_kinv k); [by destruct Hevs|done|simpl|by left|].
    + rewrite Hcur', Hr. apply Hk.
    + intros p0 q0 Hin Hq0 Hrun. exfalso. simpl in Hq0.
      destruct (evolves_back _ _ _ _ Hev' Hq0) as (q & Hq & _). rewrite (Hl _ _ Hq) in Hq0.
      assert (state q = TASK_RUNNING) as Hrun'
        by (destruct (_ && _); injection Hq0 as <-; done).
      assert (p0 = ex) as ->.
      { unfold ex. rewrite <-(Hc : _ = current_process k). apply (inv_running _ Hs p0 q); try done.
        apply (evolves_in_table s s'); done. }
      destruct Hzs as (q1 & Hq1 & Hst & _). rewrite (Hl _ _ Hq) in Hq1.
      destruct (_ && _); simplify_eq; congruence.
  - intros p0 q0 Hq0 Hne. assert (procs k1 !! p0 = Some q0) as Hq1
      by (unfold k1; by rewrite lookup_put, decide_False).
    destruct (Hp p0 q0 Hq1) as (q & Hq & Hpp & _). exists (if bool_decide (p0 = p) && waits_child q then woken q else q).
    split; [exact (Hl _ _ Hq)|]. transitivity (parent_pid q); [by destruct (_ && _)|].
    rewrite Hpp. unfold new_parent, k1. rewrite lookup_put. simpl.
    destruct (decide (init_process k = ex)) as [->|]; [|done].
    rewrite Hqx. by rewrite Z.eqb_refl, andb_false_r.
  - intros p0 q0 Hin Hne Hq0 Hpid Hw. assert (procs k1 !! p0 = Some q0) as Hq1
      by (unfold k1; by rewrite lookup_put, decide_False).
    destruct (Hp p0 q0 Hq1) as (q & Hq & _ & _ & Hwr & Hst).
    destruct (evolves_forth _ _ _ _ Hev Hq1) as (q' & Hq' & Hsp).
    replace q' with q in Hsp by congruence.
    assert (parent_pid qx ≠ pid qx) as Hpx.
    { rewrite <-Hpid. intros E. apply Hne. eapply (inv_pid_inj _ Hk); try done.
      apply exiting_in_table. }
    assert (p = p0) as ->.
    { apply (Huniq p0 q); [by apply (evolves_in_table k1 s)|done|].
      rewrite (sp_pid _ _ _ Hsp), Hpid. unfold new_parent, zombie. simpl.
      rewrite (proj2 (Z.eqb_neq _ _) Hpx), andb_false_r. by case_match. }
    simpl. rewrite (Hl _ _ Hq), bool_decide_true by done. eexists. split; [done|].
    unfold waits_child in *. apply andb_true_iff in Hw as [Hw1%bool_decide_eq_true Hw2%bool_decide_eq_true].
    rewrite Hwr, Hw2. simpl. case_bool_decide; [done|]. done.
Qed.

Lemma do_exit_prefix : ∃ s, exit_ready s ∧ do_exit code k =
  (next ← scheduler None; match next with NullFrame => panic | _ => mret next end) s.
Proof.
  destruct exit_zombie_inv as [Hk1 Hev1]. pose proof exiting_in_table as Hin.
  unfold do_exit. erewrite bind_done by done. erewrite bind_done by done. fold ex.
  rewrite (proj2 (nz_true _) Hnz), (proj2 (Z.eqb_neq _ _) Hni). simpl.
  erewrite bind_done by by eapply upd_eq. fold k1.
  assert (procs k1 !! ex = Some zombie) as Hz by (unfold k1; by rewrite lookup_put, decide_True).
  assert (in_table k1 ex) as Hin1 by done.
  pose proof (adopt_children_spec k1 ex zombie Hk1 Hin1 Hz) as Hwp.
  apply wp_run in Hwp as ([] & s & Ea & Hrep). change (pid zombie) with (pid qx) in Hrep.
  pose proof (reparented_kinv _ _ _ _ Hk1 Hrep) as Hs.
  destruct (rep_procs _ _ _ _ Hrep ex zombie Hz) as (qz & Hqz & Hpz & _).
  destruct (find_process_by_pid_eq s (parent_pid qz) Hs) as (p & Ep & Hp1 & Hp2).
  destruct (wake_parent_eq s p Hs) as (s' & Ew & Hev' & Hr' & Hc' & Hl).
  { intros Hp0. destruct (Hp1 Hp0) as (? & ? & -> & ?). done. }
  exists (s' <| current_process := 0 |> <| current_process_index := -1 |>). split.
  - apply (exit_woken s p s'); try done; rewrite <-Hpz; done.
  - erewrite bind_done by exact Ea.
    erewrite bind_done by (apply load_eq; [done|exact Hqz]).
    erewrite bind_done by exact Ep.
    erewrite bind_done by exact Ew. by erewrite bind_done by done.
Qed.
End DoExit.

(** What [do_exit] leaves behind. *)
Record exit_post k (code : Z) qx (fr : frame) k' : Prop := {
  xp_inv : kinv k';
  xp_frame : fr ≠ NullFrame;
  xp_current : current_process k' ≠ current_process k;
  xp_zombie : ∃ q, procs k' !! current_process k = Some q ∧ state q = TASK_ZOMBIE ∧
    exit_code q = code;
  xp_children p q : p ≠ current_process k → procs k !! p = Some q →
    ∃ q', procs k' !! p = Some q' ∧
      parent_pid q' = new_parent k (current_process k) (pid qx) p q;
  xp_parent p q : in_table k p → p ≠ current_process k → procs k !! p = Some q →
    pid q = parent_pid qx → waits_child q = true →
    ∃ q', procs k' !! p = Some q' ∧ state q' ≠ TASK_WAITING }.

Lemma keeps_forth k k' p q : sched_keeps k k' → procs k !! p = Some q →
  ∃ q', procs k' !! p = Some q' ∧ sched_rel q q'.
Proof.
  intros Hkp Hq. specialize (Hkp p). rewrite Hq in Hkp.
  inversion Hkp as [? q' Hs E|]; subst. by exists q'.
Qed.

Lemma sched_ends_running k regs fr k' : sched_ends k regs fr k' → current_process k' ≠ current_process k →
  current_process k' ≠ idle_process k →
  ∃ q, procs k' !! current_process k' = Some q ∧ state q = TASK_RUNNING.
Proof.
  intros [_ _ _ _ HP] Hne Hni. destruct HP as [i q k' _ -> _ _ Hq Hrun|k' _ _ E _|]; [|done..].
  by exists q.
Qed.

Lemma do_exit_post k code qx : kinv k → current_process k ≠ 0 →
  current_process k ≠ idle_process k → procs k !! current_process k = Some qx →
  ∃ fr k', do_exit code k = Done fr k' ∧ exit_post k code qx fr k'.
Proof.
  intros Hk Hnz Hni Hqx. destruct (do_exit_prefix k code qx Hk Hnz Hni Hqx) as (s & Hs & ->).
  destruct Hs as [Hinv Hev Hcur (qz & Hqz & Hz & Hcode) Hpar Hwake].
  destruct (kinv_scheduler s None Hinv (or_intror Hcur)) as (fr & k' & E & Hend).
  exists fr, k'. split; [erewrite bind_done by exact E; by destruct fr, Hend|].
  destruct (keeps_forth _ _ _ _ (se_keeps _ _ _ _ Hend) Hqz) as (qz' & Hqz' & Hrz).
  split; [apply Hend|apply Hend| | | |].
  - intros Ec. destruct (sched_ends_running _ _ _ _ Hend) as (q & Hq & Hrun).
    + by rewrite Ec, Hcur.
    + by rewrite Ec, (ev_idle _ _ Hev).
    + rewrite Ec in Hq. pose proof (sr_zombie _ _ Hrz Hz). congruence.
  - exists qz'. split_and!; [done|by apply Hrz|]. by rewrite (sr_exit _ _ Hrz).
  - intros p q Hne Hq. destruct (Hpar p q Hq Hne) as (q1 & Hq1 & Hp1).
    destruct (keeps_forth _ _ _ _ (se_keeps _ _ _ _ Hend) Hq1) as (q' & Hq' & Hr).
    exists q'. split; [done|]. by rewrite (sr_parent _ _ Hr).
  - intros p q Hin Hne Hq Hpid Hw. destruct (Hwake p q Hin Hne Hq Hpid Hw) as (q1 & Hq1 & Hp1).
    destruct (keeps_forth _ _ _ _ (se_keeps _ _ _ _ Hend) Hq1) as (q' & Hq' & Hr).
    exists q'. split; [done|]. by rewrite (sr_waiting _ _ Hr).
Qed.

(** C7: [do_exit] never faults or panics for a process of the table.  The process
    becomes a zombie with its exit code and is not resumed, its children belong
    to the init process, a parent that waits for a child no longer waits, and
    the invariant of the process subsystem holds again. *)
Theorem do_exit_correct k code qx : kinv k → current_process k ≠ 0 →
  current_process k ≠ idle_process k → procs k !! current_process k = Some qx →
  ∃ fr k', do_exit code k = Done fr k' ∧ exit_post k code qx fr k'.
Proof. apply do_exit_post. Qed.
End Exit.
