(* ===== verification/Wait.v ===== *)
(** * Waiting for children and reclaiming processes

    [process_remove], [process_close_files], [process_destroy] and [do_wait] of
    [kernel/sched.c].  A process that has left the table is torn down completely:
    every block it owns goes to [kfree], its address space is torn down, and
    nothing else of the memory changes ([releases]). *)

From S2P Require Import Prelude Proc Sched SchedInv SchedSpec KInv Exit.

Section Wait.
Context {KE : KEnv} {KO : KEnvOk}.
Implicit Types (k s : kst) (p c i j a : Z) (q ch : process).
#[local] Opaque pick highest.

(** ** Changes outside the table *)

(** [k'] differs from [k] only in the process [c], the open files and the heap. *)
Record off_table c k k' : Prop := {
  ot_processes : processes k' = processes k;
  ot_count : process_count k' = process_count k;
  ot_current : current_process k' = current_process k;
  ot_idle : idle_process k' = idle_process k;
  ot_init : init_process k' = init_process k;
  ot_cursor : rr_cursor k' = rr_cursor k;
  ot_next : next_pid k ≤ next_pid k';
  ot_procs p : p ≠ c → procs k' !! p = procs k !! p }.

#[global] Instance off_table_preorder c : PreOrder (off_table c).
Proof.
  split; [by intros k; split|]. intros k1 k2 k3 H1 H2. pose proof H1 as []. pose proof H2 as [].
  split; try congruence; [lia|]. intros p Hp. by rewrite (ot_procs _ _ _ H2), (ot_procs _ _ _ H1).
Qed.

Lemma off_table_kinv c k k' : off_table c k k' → kinv k → heap_ok k' →
  ¬ in_table k c → c ≠ idle_process k → kinv k'.
Proof.
  intros [Hp Hn Hc Hi Hin Hr Hx Hq] Hk Hh Hct Hci.
  assert (∀ p, in_table k' p ↔ in_table k p) as Htab by (intros; unfold in_table; by rewrite Hp).
  assert (∀ p, in_table k' p → procs k' !! p = procs k !! p) as Hsame.
  { intros p Hpt%Htab. apply Hq. by intros ->. }
  split.
  - rewrite Hp. apply Hk.
  - intros p Hpt. rewrite Hsame by done. by apply (inv_table _ Hk), Htab.
  - unfold slot_at. rewrite Hp. apply (inv_nodup _ Hk).
  - unfold used_slots. rewrite Hn, Hp. apply (inv_count _ Hk).
  - rewrite Hr. apply Hk.
  - rewrite Hi, Hp. apply Hk.
  - rewrite Hi, Hq by done. apply Hk.
  - rewrite Hin. intros Hnz. destruct (inv_init _ Hk Hnz) as [Ht ?]. rewrite Htab.
    split; [done|]. rewrite Hsame; [done|]. by apply Htab.
  - unfold current_known. rewrite Hc, Hi, Hp. apply Hk.
  - intros p q Hpt Hpq. rewrite Hsame in Hpq by done. rewrite Hc.
    by apply (inv_running _ Hk); [apply Htab|].
  - intros p q Hpt Hpq. rewrite Hsame in Hpq by done. apply Htab in Hpt.
    pose proof (inv_pid _ Hk p q Hpt Hpq). lia.
  - intros p q p' q' Hpt Hpt' Hpq Hpq'. rewrite Hsame in Hpq, Hpq' by done.
    apply (inv_pid_inj _ Hk p q p' q'); try done; by apply Htab.
  - intros p q Hpt Hpq. rewrite Hsame in Hpq by done.
    by apply (inv_kthread _ Hk p); [apply Htab|].
  - done.
Qed.

(** ** Giving memory back *)

(** From [k] to [s] the blocks [B] and the address spaces [S] were given back, and
    nothing else of the memory changed; only [procs] may differ otherwise. *)
Record releases (B S : Z → Prop) k s : Prop := {
  rl_live a : live (env s) a ↔ live (env k) a ∧ ¬ B a;
  rl_space t : space (env s) t ↔ space (env k) t ∧ ¬ S t;
  rl_view t : space (env s) t → view (env s) t = view (env k) t;
  rl_vfiles a : live (env s) a → vfiles s !! a = vfiles k !! a;
  rl_rest : s <| procs := procs k |> <| vfiles := vfiles k |> <| env := env k |> = k }.

Definition nothing (_ : Z) : Prop := False.

Lemma releases_trans B1 S1 B2 S2 B S k1 k2 k3 :
  releases B1 S1 k1 k2 → releases B2 S2 k2 k3 →
  (∀ a, B a ↔ B1 a ∨ B2 a) → (∀ t, S t ↔ S1 t ∨ S2 t) → releases B S k1 k3.
Proof.
  intros [L1 P1 V1 F1 R1] [L2 P2 V2 F2 R2] HB HS. split.
  - intros a. rewrite L2, L1, HB. tauto.
  - intros t. rewrite P2, P1, HS. tauto.
  - intros t Ht. rewrite V2 by done. apply V1. by apply P2.
  - intros a Ha. rewrite F2 by done. apply F1. by apply L2.
  - rewrite <-R1. rewrite <-R2 at 1. done.
Qed.

Lemma releases_iff B S B' S' k s : releases B S k s → (∀ a, B a ↔ B' a) → (∀ t, S t ↔ S' t) →
  releases B' S' k s.
Proof.
  intros [L P V F R] HB HS. split; try done; intros x; [rewrite L, HB|rewrite P, HS]; done.
Qed.

Lemma releases_refl k : releases nothing nothing k k.
Proof. split; [unfold nothing; intros; tauto..|done|done|by destruct k]. Qed.

Lemma releases_put B S k s p q : releases B S k s → releases B S k (put s p q).
Proof. intros [L P V F R]. split; done. Qed.

Definition freed k a : kst :=
  k <| env := kfree a (env k) |> <| procs := delete a (procs k) |>
    <| vfiles := delete a (vfiles k) |>.

Lemma releases_freed k a : live (env k) a → releases (λ x, x = a) nothing k (freed k a).
Proof.
  intros Ha. split; simpl.
  - by apply kfree_live.
  - intros t. destruct (kfree_space _ _ Ha t) as [-> _]. unfold nothing. tauto.
  - intros t Ht. destruct (kfree_space _ _ Ha t) as [E Hv]. by apply Hv, E.
  - intros x Hx. apply kfree_live in Hx as [_ Hne]; [|done]. by rewrite lookup_delete_ne.
  - by destruct k.
Qed.

Lemma releases_pages k t :
  releases nothing (λ x, x = t) k (k <| env := vmm_free_user_pages t (env k) |>).
Proof.
  split; simpl.
  - intros a. rewrite free_pages_live. unfold nothing. tauto.
  - intros u. apply free_pages_space.
  - intros u [? ?]%free_pages_space. by apply free_pages_space.
  - done.
  - by destruct k.
Qed.

Lemma held_kfree e p o a : live e p → held e o a → a ≠ p → held (kfree p e) o a.
Proof.
  intros Hp Ha Hne. destruct o; simpl in *; try by apply kfree_other.
  by apply (kfree_space _ _ Hp).
Qed.

Lemma held_free_pages t e o a : held e o a → a ≠ t → held (vmm_free_user_pages t e) o a.
Proof.
  intros Ha Hne. destruct o; simpl in *; try by apply free_pages_live.
  by apply free_pages_space.
Qed.

(** Giving up an address and dropping its owner. *)
Lemma heap_ok_free k k' o a : heap_ok k → owns k o a →
  (∀ o' a', held (env k) o' a' → a' ≠ a → held (env k') o' a') →
  (∀ x, x ≠ a → vfiles k' !! x = vfiles k !! x) →
  (∀ o' a', owns k' o' a' → owns k o' a' ∧ o' ≠ o) →
  (∀ p q', procs k' !! p = Some q' →
     ∃ q, procs k !! p = Some q ∧ length (files q') = length (files q) ∧
       (signals_ok q → signals_ok q')) →
  heap_ok k'.
Proof.
  intros Hh Ho He Hv Hsub Hlen.
  assert (∀ o' a', owns k' o' a' → a' ≠ a) as Hne.
  { intros o' a' Ho' ->. destruct (Hsub _ _ Ho') as [Ho'' Hneq].
    apply Hneq. by eapply (heap_inj _ Hh). }
  split.
  - destruct (procs k' !! 0) as [q'|] eqn:E; [|done]. destruct (Hlen _ _ E) as (q & Hq & _).
    by rewrite (heap_null _ Hh) in Hq.
  - intros o' a' Ho'. apply He; [|by eapply Hne]. eapply (heap_held _ Hh), Hsub, Ho'.
  - intros o1 o2 a' H1 H2. eapply (heap_inj _ Hh); by apply Hsub.
  - intros p q' Hq'. destruct (Hlen _ _ Hq') as (q & Hq & -> & _). by apply (heap_files _ Hh p).
  - intros p q' Hq'. destruct (Hlen _ _ Hq') as (q & Hq & _ & Hs). apply Hs. by apply (heap_signals _ Hh p).
  - intros p i a' Ho'. rewrite Hv by by eapply Hne. by eapply (heap_vfile _ Hh), Hsub.
Qed.

Lemma freed_vfiles k a x : x ≠ a → vfiles (freed k a) !! x = vfiles k !! x.
Proof. intros Hne. simpl. by rewrite lookup_delete_ne. Qed.

(** An address that belongs to something else is not a process. *)
Lemma not_process k o a : heap_ok k → owns k o a → (∀ p, o ≠ OProc p) → procs k !! a = None.
Proof.
  intros Hh Ho Hno. destruct (procs k !! a) eqn:E; [|done]. exfalso. apply (Hno a).
  eapply (heap_inj _ Hh); [done|]. simpl. by rewrite E.
Qed.

Definition owner_of (o : owner) : Z :=
  match o with OProc p | OStack p | OFile p _ | OSpace p => p end.

(** What the fields of a process name. *)
Definition item q (o : owner) a : Prop :=
  match o with
  | OProc _ => False
  | OStack _ => is_kthread q = false ∧ kstack_top q ≠ 0 ∧ a = u64 (kstack_top q - 32768)
  | OFile _ i => files q !! i = Some a ∧ a ≠ 0
  | OSpace _ => is_kthread q = false ∧ pml4 q ≠ 0 ∧ a = pml4 q
  end.

Lemma owns_item k o q a : procs k !! owner_of o = Some q → item q o a → owns k o a.
Proof. destruct o; simpl; intros Hq Hi; [done|by exists q..]. Qed.

Lemma owns_put k c q q' o a : procs k !! c = Some q → owns (put k c q') o a →
  (o = OProc c ∨ owner_of o ≠ c) ∧ owns k o a ∨ owner_of o = c ∧ item q' o a.
Proof.
  intros Hq. destruct (decide (owner_of o = c)) as [<-|Hne].
  - destruct o as [p|p|p i|p]; simpl; rewrite lookup_insert_eq; intros H; [left|right; naive_solver..].
    destruct H as [-> _]. split; [by left|]. split; [done|by eexists].
  - intros H. left. split; [by right|]. revert H.
    destruct o as [p|p|p i|p]; simpl in *; by rewrite lookup_insert_ne.
Qed.

Lemma owns_freed k a o x : owns (freed k a) o x → owns k o x ∧ (∀ p, o = OProc p → p ≠ a).
Proof.
  assert (∀ p q, delete a (procs k) !! p = Some q → procs k !! p = Some q ∧ p ≠ a) as Hl
    by (intros p q [? ?]%lookup_delete_Some; done).
  destruct o as [p|p|p i|p]; simpl.
  - intros [-> [q Hq]]. destruct (Hl _ _ Hq) as [? ?]. split; [by split; [|eexists]|naive_solver].
  - intros (q & Hq & ?). destruct (Hl _ _ Hq) as [? ?]. split; [by exists q|done].
  - intros (q & Hq & ?). destruct (Hl _ _ Hq) as [? ?]. split; [by exists q|done].
  - intros (q & Hq & ?). destruct (Hl _ _ Hq) as [? ?]. split; [by exists q|done].
Qed.

(** ** Tearing a process down *)

(** The files of [c] below descriptor [i]. *)
Definition files_below k c i a : Prop := ∃ j : nat, Z.of_nat j < i ∧ owns k (OFile c j) a.

(** They are closed. *)
Record closing c k i s : Prop := {
  cl_off : off_table c k s;
  cl_heap : heap_ok s;
  cl_rel : releases (files_below k c i) nothing k s;
  cl_proc : ∃ q q', procs k !! c = Some q ∧ procs s !! c = Some q' ∧
    kstack_top q' = kstack_top q ∧ is_kthread q' = is_kthread q ∧ pml4 q' = pml4 q ∧
    (∀ j, 0 ≤ j < i → files q' !! Z.to_nat j = Some 0) ∧
    (∀ j, i ≤ j → files q' !! Z.to_nat j = files q !! Z.to_nat j) }.

Lemma closing_start c k q : heap_ok k → procs k !! c = Some q → closing c k 0 k.
Proof.
  intros Hh Hq. split; [done|done| |].
  - eapply releases_iff; [apply releases_refl| |done]. intros a. split; [done|].
    intros (j & ? & _). lia.
  - exists q, q. split_and!; try done. intros j Hj. lia.
Qed.

(** Descriptor [i] of [c] is the file [f]. *)
Lemma files_below_next k c q i f a : procs k !! c = Some q → 0 ≤ i →
  files q !! Z.to_nat i = Some f →
  files_below k c (i + 1) a ↔ files_below k c i a ∨ (a = f ∧ f ≠ 0).
Proof.
  intros Hq Hi Hf. split.
  - intros (j & Hj & Ho). destruct (decide (Z.of_nat j = i)) as [<-|]; [|left; exists j; split; [lia|done]].
    right. destruct Ho as (q' & Hq' & Hf' & Ha). rewrite Nat2Z.id in Hf. by simplify_eq.
  - intros [(j & Hj & Ho)|[-> Hnz]]; [exists j; split; [lia|done]|].
    exists (Z.to_nat i). split; [lia|]. by exists q.
Qed.

Lemma closing_step c k i s : closing c k i s → 0 ≤ i < MAX_FILES →
  wp (close_file c i) (λ _ s', closing c k (i + 1) s') s.
Proof.
  intros [Hoff Hh Hrel (q & q' & Hq & Hq' & Hks & Hkt & Hpm & Hz & Hr)] Hi.
  pose proof (heap_files _ Hh _ _ Hq') as Hlen.
  destruct (lookup_lt_is_Some_2 (files q') (Z.to_nat i)) as [f Hf].
  { rewrite Hlen. unfold MAX_FILES in *. lia. }
  assert (files q !! Z.to_nat i = Some f) as Hfk by by rewrite <-Hr.
  pose proof (λ a, files_below_next k c q i f a Hq (proj1 Hi) Hfk) as Hnext.
  apply wp_bind. eapply wp_load; [apply Hh|done|]. apply wp_bind. eapply wp_from_opt; [done|].
  destruct (nz f) eqn:Hnz; simpl.
  2:{ apply nz_false in Hnz as ->. apply wp_ret. split; [done..| |].
      - eapply releases_iff; [done| |done]. intros a. rewrite Hnext. tauto.
      - exists q, q'. split_and!; try done.
        + intros j Hj. destruct (decide (j = i)) as [->|]; [done|]. apply Hz. lia.
        + intros j Hj. apply Hr. lia. }
  apply nz_true in Hnz. assert (owns s (OFile c (Z.to_nat i)) f) as Ho by by exists q'.
  pose proof (not_process _ _ _ Hh Ho ltac:(done)) as Hnp.
  assert (c ≠ f) as Hcf by (intros ->; congruence).
  assert (procs (freed s f) !! c = Some q') as Hq2 by (simpl; by rewrite lookup_delete_ne).
  assert (procs (freed s f) !! 0 = None) as H0 by (simpl; apply lookup_delete_None; right; apply Hh).
  pose proof (heap_file _ _ _ _ Hh Ho) as Hlive.
  apply wp_bind. eapply wp_of_eq; [done|]. eapply wp_upd; [exact H0|exact Hq2|].
  change (closing c k (i + 1) (put (freed s f) c (q' <| files := <[Z.to_nat i := 0]> (files q') |>))).
  split.
  - etrans; [exact Hoff|]. split; try done. intros p Hp. rewrite lookup_put, decide_False by done.
    simpl. destruct (decide (p = f)) as [->|]; [by rewrite lookup_delete_eq|].
    by rewrite lookup_delete_ne.
  - eapply (heap_ok_free s _ (OFile c (Z.to_nat i)) f); [done|done| |apply freed_vfiles| |].
    + intros. by apply held_kfree.
    + intros o a Hown. apply (owns_put _ _ q') in Hown as [[Hne [? _]%owns_freed]|[Eo Hit]]; [| |done].
      { split; [done|]. intros ->. by destruct Hne. }
      assert (item q' o a ∧ o ≠ OFile c (Z.to_nat i)) as [? ?].
      { destruct o as [p|p|p j|p]; try done. destruct Hit as [Hj Ha]. simpl in *.
        apply list_lookup_insert_Some in Hj as [(? & <- & ?)|[Hne Hj]]; [done|]. split; [done|congruence]. }
      split; [|done]. apply (owns_item _ _ q'); [by rewrite Eo|done].
    + intros p p' Hp. rewrite lookup_put in Hp. destruct (decide (p = c)) as [->|].
      * injection Hp as <-. exists q'. simpl. by rewrite length_insert.
      * simpl in Hp. apply lookup_delete_Some in Hp as [_ Hp]. by exists p'.
  - apply releases_put. eapply releases_trans; [exact Hrel|by apply releases_freed| |].
    + intros a. rewrite Hnext. tauto.
    + intros t. unfold nothing. tauto.
  - eexists q, _. rewrite lookup_put, decide_True by done. split_and!; try done.
    + intros j Hj. simpl. destruct (decide (j = i)) as [->|].
      * rewrite list_lookup_insert_eq; [done|]. by eapply lookup_lt_Some.
      * rewrite list_lookup_insert_ne by lia. apply Hz. lia.
    + intros j Hj. simpl. rewrite list_lookup_insert_ne by lia. apply Hr. lia.
Qed.

(** All files of [c]. *)
Definition all_files k c a : Prop := ∃ j : nat, owns k (OFile c j) a.

Lemma files_below_all k c a : heap_ok k → files_below k c MAX_FILES a ↔ all_files k c a.
Proof.
  intros Hh. split; [intros (j & _ & Ho); by exists j|]. intros (j & Ho). exists j. split; [|done].
  destruct Ho as (q & Hq & Hj & _). apply lookup_lt_Some in Hj.
  rewrite (heap_files _ Hh _ _ Hq) in Hj. unfold MAX_FILES in *. lia.
Qed.

(** The files of [c] are closed. *)
Record closed c k q s : Prop := {
  cd_off : off_table c k s;
  cd_heap : heap_ok s;
  cd_rel : releases (all_files k c) nothing k s;
  cd_proc : ∃ q', procs s !! c = Some q' ∧ kstack_top q' = kstack_top q ∧
    is_kthread q' = is_kthread q ∧ pml4 q' = pml4 q ∧
    ∀ (i : nat) f, files q' !! i = Some f → f = 0 }.

Lemma close_loop_wp c k q : heap_ok k → procs k !! c = Some q →
  wp (for_all (Z.to_nat MAX_FILES) 0 (close_file c)) (λ _ s, closed c k q s) k.
Proof.
  intros Hh Hq. eapply wp_mono; [apply (wp_for_all _ 0 _ (closing c k))|].
  - intros i s Hi Hs. rewrite Z2Nat.id in Hi by done. by apply closing_step.
  - by eapply closing_start.
  - rewrite Z2Nat.id by done. intros [] s [Hoff Hs Hrel (q0 & q' & Hq0 & Hq' & ? & ? & ? & Hz & _)].
    assert (q0 = q) as -> by congruence. split; [done|done| |].
    + eapply releases_iff; [done| |done]. intros a. by apply files_below_all.
    + exists q'. split_and!; try done. intros i f Hf. pose proof (lookup_lt_Some _ _ _ Hf) as Hlt.
      rewrite (heap_files _ Hs _ _ Hq') in Hlt. specialize (Hz (Z.of_nat i)).
      rewrite Nat2Z.id in Hz. rewrite Hz in Hf by (unfold MAX_FILES in *; lia). congruence.
Qed.

Lemma process_close_files_wp c k q : heap_ok k → procs k !! c = Some q →
  wp (process_close_files c) (λ _ s, closed c k q s) k.
Proof.
  intros Hh Hq. unfold process_close_files.
  rewrite (proj2 (nz_true c)) by (eapply heap_nonnull; [apply Hh|done]). simpl.
  by apply close_loop_wp.
Qed.

(** A process changes and owns no more than before. *)
Lemma heap_ok_shrink c s q q' : heap_ok s → procs s !! c = Some q →
  (∀ o a, owner_of o = c → item q' o a → item q o a) → length (files q') = length (files q) →
  (signals_ok q → signals_ok q') →
  heap_ok (put s c q') ∧ ∀ o a, owns (put s c q') o a → owns s o a.
Proof.
  intros [H0 Hl Hi Hlen Hsg Hv] Hq Hit E3 E4.
  assert (∀ o a, owns (put s c q') o a → owns s o a) as Hsub.
  { intros o a Ho. apply (owns_put _ _ q) in Ho as [[_ ?]|[Eo ?]]; [done| |done].
    apply (owns_item _ _ q); [by rewrite Eo|by apply Hit]. }
  split; [|done]. split.
  - rewrite lookup_put, decide_False; [done|]. intros <-. congruence.
  - intros o a Ho. by apply Hl, Hsub.
  - intros o o' a Ho Ho'. by eapply Hi; apply Hsub.
  - intros p q1 Hq1. rewrite lookup_put in Hq1. destruct (decide (p = c)); [|by eapply Hlen].
    simplify_eq. rewrite E3. by eapply Hlen.
  - intros p q1 Hq1. rewrite lookup_put in Hq1. destruct (decide (p = c)); [|by eapply Hsg].
    simplify_eq. by eapply E4, Hsg.
  - intros p i a Ho. by eapply Hv, Hsub.
Qed.

Lemma heap_ok_put c s q q' : heap_ok s → procs s !! c = Some q →
  kstack_top q' = kstack_top q → pml4 q' = pml4 q → is_kthread q' = is_kthread q →
  files q' = files q → (signals_ok q → signals_ok q') → heap_ok (put s c q').
Proof.
  intros Hh Hq E1 Ep E2 E3 E4. apply (heap_ok_shrink c s q); try done; [|by rewrite E3].
  intros o a _. destruct o; simpl; by rewrite ?E1, ?E2, ?E3, ?Ep.
Qed.

Lemma off_table_put c s q' : off_table c s (put s c q').
Proof. split; try done. intros p Hp. by rewrite lookup_put, decide_False. Qed.

(** Freeing the kernel stack of [c] and forgetting it. *)
Lemma free_stack_heap c s q a : heap_ok s → procs s !! c = Some q → owns s (OStack c) a →
  heap_ok (put (freed s a) c (q <| kstack_top := 0 |>)) ∧ off_table c s (freed s a) ∧
  procs (freed s a) !! c = Some q.
Proof.
  intros Hh Hq Ho. pose proof (not_process _ _ _ Hh Ho ltac:(done)) as Hnp.
  assert (c ≠ a) as Hca by congruence.
  assert (procs (freed s a) !! c = Some q) as Hq2 by (simpl; by rewrite lookup_delete_ne).
  split_and!; [| |done].
  - eapply (heap_ok_free s _ (OStack c) a); [done|done| |apply freed_vfiles| |].
    + intros. apply held_kfree; [exact (heap_held _ Hh _ _ Ho)|done..].
    + intros o x Hown. apply (owns_put _ _ q) in Hown as [[Hne [? _]%owns_freed]|[Eo Hit]]; [| |done].
      { split; [done|]. intros ->. by destruct Hne. }
      assert (item q o x ∧ o ≠ OStack c) as [? ?] by (destruct o; try done; by destruct Hit as (_ & ? & _)).
      split; [|done]. apply (owns_item _ _ q); [by rewrite Eo|done].
    + intros p q1 H1. rewrite lookup_put in H1. destruct (decide (p = c)) as [->|].
      * injection H1 as <-. by exists q.
      * simpl in H1. apply lookup_delete_Some in H1 as [_ H1]. by exists q1.
  - split; try done. intros p Hp. simpl.
    destruct (decide (p = a)) as [->|]; [by rewrite lookup_delete_eq|by rewrite lookup_delete_ne].
Qed.

(** Only the object of [c] and its address space are left. *)
Record bare c k q s : Prop := {
  ba_off : off_table c k s;
  ba_heap : heap_ok s;
  ba_rel : releases (λ a, all_files k c a ∨ owns k (OStack c) a) nothing k s;
  ba_proc : ∃ q', procs s !! c = Some q' ∧ is_kthread q' = false ∧ pml4 q' = pml4 q }.

Lemma free_stack_wp c k s q : closed c k q s → procs k !! c = Some q → is_kthread q = false →
  wp (q ← load c;
      (if nz (kstack_top q) then
         k_free (u64 (kstack_top q - 32768)) ;; upd c (λ q, q <| kstack_top := 0 |>)
       else mret tt)) (λ _ s', bare c k q s') s.
Proof.
  intros [Hoff Hh Hrel (q' & Hq' & Hks & Hkt & Hpm & Hz)] Hq Hkf.
  assert (∀ x, owns k (OStack c) x ↔ kstack_top q' ≠ 0 ∧ x = u64 (kstack_top q' - 32768)) as Hown.
  { intros x. rewrite Hks. split; [intros (q1 & H1 & H2); simplify_eq; tauto|]. intros [? ->]. by exists q. }
  apply wp_bind. eapply wp_load; [apply Hh|done|].
  destruct (nz (kstack_top q')) eqn:E.
  2:{ apply nz_false in E. apply wp_ret. split; [done..| |].
      - eapply releases_iff; [done| |done]. intros x. rewrite Hown. tauto.
      - exists q'. split_and!; congruence || done. }
  apply nz_true in E. set (a := u64 (kstack_top q' - 32768)) in *.
  assert (owns s (OStack c) a) as Ho by (exists q'; split_and!; congruence || done).
  destruct (free_stack_heap c s q' a Hh Hq' Ho) as (Hh' & Hoff' & Hq2).
  assert (procs (freed s a) !! 0 = None) as H0 by (simpl; apply lookup_delete_None; right; apply Hh).
  apply wp_bind. eapply wp_of_eq; [done|]. eapply wp_upd; [exact H0|exact Hq2|].
  split; [|done| |].
  - etrans; [exact Hoff|]. etrans; [exact Hoff'|]. apply off_table_put.
  - apply releases_put.
    eapply releases_trans; [exact Hrel|apply releases_freed, (heap_held _ Hh _ _ Ho)| |].
    + intros x. rewrite Hown. tauto.
    + intros x. unfold nothing. tauto.
  - exists (q' <| kstack_top := 0 |>). rewrite lookup_put, decide_True by done.
    split_and!; [done|simpl; congruence|done].
Qed.

Lemma off_table_freed c k : off_table c k (freed k c).
Proof. split; try done. intros p Hp. simpl. by rewrite lookup_delete_ne. Qed.

(** Freeing the object of a process. *)
Lemma free_bare c s q : heap_ok s → procs s !! c = Some q → heap_ok (freed s c).
Proof.
  intros Hh Hq. assert (owns s (OProc c) c) as Ho by (split; [done|by eexists]).
  apply (heap_ok_free s _ (OProc c) c); [done|done| |apply freed_vfiles| |].
  - intros. apply held_kfree; [exact (heap_held _ Hh _ _ Ho)|done..].
  - intros o a [Hs Hne]%owns_freed. split; [done|]. intros ->. by apply (Hne c).
  - intros p q1 H1. simpl in H1. apply lookup_delete_Some in H1 as [_ H1]. by exists q1.
Qed.

(** The whole memory of [c] except its object was given back. *)
Record stripped c k s : Prop := {
  st_off : off_table c k s;
  st_heap : heap_ok s;
  st_rel : releases (λ a, all_files k c a ∨ owns k (OStack c) a) (owns k (OSpace c)) k s;
  st_proc : is_Some (procs s !! c) }.

Lemma free_pages_wp c k q s : bare c k q s → procs k !! c = Some q → is_kthread q = false →
  wp (q ← load c;
      (if nz (pml4 q) && negb (is_kthread q) then
         k_free_user_pages (pml4 q) ;; upd c (λ q, q <| pml4 := 0 |>)
       else mret tt)) (λ _ s', stripped c k s') s.
Proof.
  intros [Hoff Hh Hrel (q' & Hq' & Hkt & Hpm)] Hq Hkf.
  assert (∀ x, owns k (OSpace c) x ↔ pml4 q' ≠ 0 ∧ x = pml4 q') as Hown.
  { intros x. rewrite Hpm. split; [intros (q1 & H1 & H2); simplify_eq; tauto|]. intros [? ->]. by exists q. }
  pose proof (heap_null _ Hh) as H0. apply wp_bind. eapply wp_load; [done..|].
  rewrite Hkt. simpl. rewrite andb_true_r. destruct (nz (pml4 q')) eqn:E.
  2:{ apply nz_false in E. apply wp_ret. split; [done..| |by eexists].
      eapply releases_iff; [done|done|]. intros x. rewrite Hown. unfold nothing. tauto. }
  apply nz_true in E. set (t := pml4 q') in *.
  assert (owns s (OSpace c) t) as Ho by by exists q'.
  set (s1 := s <| env := vmm_free_user_pages t (env s) |>).
  apply wp_bind. eapply wp_of_eq; [done|]. fold s1. eapply wp_upd; [done|exact Hq'|].
  split.
  - etrans; [exact Hoff|]. etrans; [|apply off_table_put]. by split.
  - eapply (heap_ok_free s _ (OSpace c) t); [done|done| |done| |].
    + intros. by apply held_free_pages.
    + intros o x Hx. apply (owns_put s1 c q') in Hx as [[Hne ?]|[Eo Hit]]; [| |done].
      { split; [done|]. intros ->. by destruct Hne. }
      assert (item q' o x ∧ o ≠ OSpace c) as [? ?] by (destruct o; try done; by destruct Hit as (_ & ? & _)).
      split; [|done]. apply (owns_item _ _ q'); [by rewrite Eo|done].
    + intros p q1 H1. rewrite lookup_put in H1. destruct (decide (p = c)) as [->|].
      * injection H1 as <-. by exists q'.
      * by exists q1.
  - apply releases_put. eapply releases_trans; [exact Hrel|apply releases_pages| |].
    + intros x. unfold nothing. tauto.
    + intros x. rewrite Hown. unfold nothing. tauto.
  - rewrite lookup_put, decide_True by done. by eexists.
Qed.

(** The teardown of a process that is not in the table. *)
Lemma process_destroy_wp c k q : heap_ok k → procs k !! c = Some q → is_kthread q = false →
  c ≠ idle_process k →
  wp (process_destroy c) (λ _ s, off_table c k s ∧ heap_ok s ∧ procs s !! c = None ∧
    releases (has_block k c) (owns k (OSpace c)) k s) k.
Proof.
  intros Hh Hq Hkf Hni. unfold process_destroy. apply wp_bind, wp_gets.
  rewrite (proj2 (nz_true c)) by (eapply heap_nonnull; [apply Hh|done]).
  rewrite (proj2 (Z.eqb_neq _ _) Hni). simpl.
  apply wp_bind. eapply wp_mono; [by eapply process_close_files_wp|]. intros [] s1 Hs1.
  apply wp_assoc. eapply wp_mono; [by eapply free_stack_wp|]. intros [] s2 Hs2.
  apply wp_assoc. eapply wp_mono; [by eapply free_pages_wp|].
  intros [] s3 [Hoff Hh3 Hrel [q3 Hq3]]. eapply wp_of_eq; [done|]. fold (freed s3 c).
  split_and!; [|by eapply free_bare|simpl; apply lookup_delete_eq|].
  - etrans; [exact Hoff|apply off_table_freed].
  - eapply releases_trans; [exact Hrel|apply releases_freed| |intros; unfold nothing; tauto].
    + apply (heap_live _ c); [done|]. left. split; [done|by eexists].
    + intros a. unfold has_block, all_files, owns at 1. rewrite Hq.
      assert (a = c ∧ is_Some (Some q) ↔ a = c) as -> by (split; [by intros []|by split]). simpl. tauto.
Qed.

(** ** Leaving the table *)

Lemma used_insert (l : list Z) (i : nat) (x y : Z) : l !! i = Some x →
  Z.of_nat (length (filter (λ p, p ≠ 0) (<[i := y]> l))) + (if decide (x ≠ 0) then 1 else 0) =
  Z.of_nat (length (filter (λ p, p ≠ 0) l)) + (if decide (y ≠ 0) then 1 else 0).
Proof.
  intros Hi. rewrite insert_take_drop by (by eapply lookup_lt_Some).
  rewrite <-(take_drop_middle l i x Hi) at 3. rewrite !list.filter_app, !length_app, !filter_cons.
  repeat case_decide; simpl; lia.
Qed.

Lemma slot_insert k k' i p j : table_ok k → processes k' = <[Z.to_nat i := p]> (processes k) →
  0 ≤ i < MAX_PROCESSES → 0 ≤ j < MAX_PROCESSES →
  slot_at k' j = if decide (j = i) then p else slot_at k j.
Proof.
  intros Ht E Hi Hj. unfold slot_at. rewrite E. destruct (decide (j = i)) as [->|Hne].
  - rewrite list_lookup_insert_eq; [done|]. rewrite (table_length _ Ht).
    unfold MAX_PROCESSES in *. lia.
  - by rewrite list_lookup_insert_ne by lia.
Qed.

Lemma process_table_find_eq k c : kinv k → c ≠ 0 →
  ∃ i, process_table_find c k = Done i k ∧
    ((i = -1 ∧ c ∉ processes k) ∨ (0 ≤ i < MAX_PROCESSES ∧ slot_at k i = c)).
Proof.
  intros Hk Hc. pose proof (kinv_table_ok k Hk) as Ht.
  set (hit := λ i, if slot_at k i =? c then Some i else None).
  exists (default (-1) (first_some (Z.to_nat MAX_PROCESSES) 0 hit)). split.
  - unfold process_table_find. rewrite (proj2 (nz_true _) Hc). simpl.
    erewrite bind_done; [done|]. apply for_up_search. intros i Hi.
    rewrite Z2Nat.id in Hi by done. by erewrite bind_done by by apply slot_eq.
  - destruct (first_some _ _ _) as [j|] eqn:E; simpl.
    + right. apply first_some_Some in E as (i & Hi & Hh & _). rewrite Z2Nat.id in Hi by done.
      unfold hit in Hh. destruct (Z.eqb_spec (slot_at k i) c); simplify_eq. split; [lia|done].
    + left. split; [done|]. intros Hin. destruct (elem_slot k c Ht Hin) as (i & Hi & Ei).
      rewrite first_some_None in E. rewrite Z2Nat.id in E by done. specialize (E i Hi).
      unfold hit in E. rewrite Ei, Z.eqb_refl in E. done.
Qed.

Definition removed k i : kst :=
  k <| processes := <[Z.to_nat i := 0]> (processes k) |>
    <| process_count := process_count k - 1 |>
    <| current_process_index := if current_process_index k =? i then -1
                                else current_process_index k |>.

Lemma removed_in_table k i p : kinv k → 0 ≤ i < MAX_PROCESSES → slot_at k i ≠ 0 →
  in_table (removed k i) p ↔ in_table k p ∧ p ≠ slot_at k i.
Proof.
  intros Hk Hi Hnz. pose proof (kinv_table_ok k Hk) as Ht. unfold in_table. simpl. split.
  - intros [Hin Hp]. apply list_elem_of_lookup in Hin as [j Hj].
    apply list_lookup_insert_Some in Hj as [(_ & ? & _)|[Hne Hj]]; [done|].
    split; [split; [by eapply list_elem_of_lookup_2|done]|]. intros ->. apply Hne.
    pose proof (lookup_lt_Some _ _ _ Hj) as Hlt. rewrite (table_length _ Ht) in Hlt.
    enough (i = Z.of_nat j) by lia. apply (inv_nodup _ Hk); [done|lia| |done].
    symmetry. unfold slot_at at 1. by rewrite Nat2Z.id, Hj.
  - intros [[Hin Hp] Hne]. split; [|done]. apply list_elem_of_lookup in Hin as [j Hj].
    apply list_elem_of_lookup. exists j. rewrite list_lookup_insert_ne; [done|].
    intros <-. apply Hne. unfold slot_at. by rewrite Hj.
Qed.

Lemma removed_kinv k i : kinv k → 0 ≤ i < MAX_PROCESSES → slot_at k i ≠ 0 →
  slot_at k i ≠ current_process k → slot_at k i ≠ init_process k → kinv (removed k i).
Proof.
  intros Hk Hi Hnz Hnc Hnin. pose proof (kinv_table_ok k Hk) as Ht.
  assert (∀ p, in_table (removed k i) p → in_table k p) as Hsub
    by (intros p Hp; by apply removed_in_table in Hp as []).
  split.
  - simpl. rewrite length_insert. apply Hk.
  - intros p Hp. by apply (inv_table _ Hk), Hsub.
  - intros j j' Hj Hj'. rewrite !(slot_insert k (removed k i) i 0) by done.
    repeat case_decide; try done; subst; try congruence. by apply (inv_nodup _ Hk).
  - unfold used_slots. simpl. pose proof (slot_lookup k Ht i Hi) as Hl.
    pose proof (used_insert _ _ _ 0 Hl) as Hc. rewrite (inv_count _ Hk). unfold used_slots.
    repeat case_decide; try done. lia.
  - apply Hk.
  - split; [apply Hk|]. simpl. intros (j & Hj)%list_elem_of_lookup.
    apply list_lookup_insert_Some in Hj as [(_ & E & _)|[_ Hj]]; [by destruct (inv_idle _ Hk)|].
    destruct (inv_idle _ Hk) as [_ Hn]. apply Hn. by eapply list_elem_of_lookup_2.
  - apply Hk.
  - intros Hin. destruct (inv_init _ Hk Hin) as [? ?]. split; [|done].
    apply removed_in_table; done.
  - destruct (inv_current _ Hk) as [?|[?|?]]; [by left|by right; left|].
    destruct (decide (current_process k = 0)); [by left|]. right; right.
    apply removed_in_table; done.
  - intros p q Hp. by apply (inv_running _ Hk), Hsub.
  - intros p q Hp. by apply (inv_pid _ Hk), Hsub.
  - intros p q p' q' Hp Hp'. apply (inv_pid_inj _ Hk); by apply Hsub.
  - intros p q Hp. by apply (inv_kthread _ Hk), Hsub.
  - destruct (inv_heap _ Hk). by split.
Qed.

Lemma process_remove_eq k i : kinv k → 0 ≤ i < MAX_PROCESSES → slot_at k i ≠ 0 →
  process_remove (slot_at k i) k = Done tt (removed k i).
Proof.
  intros Hk Hi Hnz. pose proof (kinv_table_ok k Hk) as Ht.
  destruct (process_table_find_eq k (slot_at k i) Hk Hnz) as (j & Ej & Hj).
  assert (j = i) as ->.
  { destruct Hj as [[_ Hn]|[Hj Es]]; [by destruct Hn; apply slot_elem|].
    symmetry. by apply (inv_nodup _ Hk). }
  unfold process_remove. erewrite bind_done by exact Ej.
  rewrite (proj2 (Z.ltb_ge _ _)) by lia.
  assert (set_slot i 0 k = Done tt (k <| processes := <[Z.to_nat i := 0]> (processes k) |>)) as Es
    by (unfold set_slot; by rewrite decide_True).
  erewrite bind_done by exact Es.
  assert (0 < process_count k) as Hpos.
  { rewrite (inv_count _ Hk). unfold used_slots. pose proof (slot_lookup k Ht i Hi) as Hl.
    pose proof (used_insert _ _ _ 0 Hl). repeat case_decide; try done. lia. }
  erewrite bind_done by done. unfold modify. simpl. rewrite (proj2 (Z.ltb_lt _ _) Hpos). simpl.
  unfold removed. by destruct (_ =? i).
Qed.

(** ** [do_wait] *)

(** [ch] is a child of [qc] that [wait(wpid)] asks for. *)
Definition awaited qc (wpid : Z) (ch : process) : bool :=
  (parent_pid ch =? pid qc) && ((wpid =? -1) || (pid ch =? u64 wpid)).

Definition reap (cur child : Z) (ch : process) : M kst (Z * option Z * bool) :=
  process_remove child ;;
  process_destroy child ;;
  upd cur (λ q, q <| wait_reason := WAIT_NONE |> <| wait_channel := ChanNull |>
                  <| wait_pid := -1 |>) ;;
  mret (i32 (pid ch), Some (exit_code ch), false).

Definition block_on_child (cur wpid : Z) : M kst (Z * option Z * bool) :=
  upd cur (λ q, q <| wait_reason := WAIT_CHILD |> <| wait_channel := ChanNull |>
                  <| wait_pid := wpid |> <| state := TASK_WAITING |>) ;;
  mret (0, None, true).

Section Scan.
Context (k : kst) (cur wpid : Z) (qc : process) (Hk : kinv k).
Context (Hqc : procs k !! cur = Some qc).

Definition child_at i ch : Prop :=
  procs k !! slot_at k i = Some ch ∧ awaited qc wpid ch = true.

(** The three outcomes of the scan of slots [i, i + n). *)
Inductive scan_result (i : Z) (n : nat) (h : bool) : M kst (Z * option Z * bool) → Prop :=
| ScanReap j ch : i ≤ j < i + Z.of_nat n → child_at j ch → state ch = TASK_ZOMBIE →
    scan_result i n h (reap cur (slot_at k j) ch)
| ScanBlock : (∀ j ch, i ≤ j < i + Z.of_nat n → child_at j ch → state ch ≠ TASK_ZOMBIE) →
    (h = true ∨ ∃ j ch, i ≤ j < i + Z.of_nat n ∧ child_at j ch) →
    scan_result i n h (block_on_child cur wpid)
| ScanNone : h = false → (∀ j ch, i ≤ j < i + Z.of_nat n → ¬ child_at j ch) →
    scan_result i n h (mret (-1, None, false)).

(** Skipping a slot that holds no awaited child. *)
Lemma scan_skip i n h m : (∀ ch, ¬ child_at i ch) → scan_result (i + 1) n h m →
  scan_result i (S n) h m.
Proof.
  intros Hno Hs. destruct Hs as [j ch Hj Hc Hz|Hall Hsome|Hh Hall].
  - apply ScanReap; [lia|done..].
  - apply ScanBlock.
    + intros j ch Hj Hc. destruct (decide (j = i)) as [->|]; [by destruct (Hno ch)|].
      apply (Hall j); [lia|done].
    + destruct Hsome as [->|(j & ch & Hj & Hc)]; [by left|]. right. exists j, ch. split; [lia|done].
  - apply ScanNone; [done|]. intros j ch Hj. destruct (decide (j = i)) as [->|]; [done|].
    apply Hall. lia.
Qed.

(** Passing a living child. *)
Lemma scan_child i n h m ch : child_at i ch → state ch ≠ TASK_ZOMBIE →
  scan_result (i + 1) n true m → scan_result i (S n) h m.
Proof.
  intros Hc Hnz Hs. destruct Hs as [j ch' Hj Hc' Hz|Hall Hsome|Hh Hall]; [| |done].
  - apply ScanReap; [lia|done..].
  - apply ScanBlock; [|right; exists i, ch; split; [lia|done]].
    intros j ch' Hj Hc'. destruct (decide (j = i)) as [->|]; [|apply (Hall j); [lia|done]].
    destruct Hc as [E _], Hc' as [E' _]. congruence.
Qed.

Lemma do_wait_from_scan n i h : 0 ≤ i → i + Z.of_nat n ≤ MAX_PROCESSES →
  ∃ m, scan_result i n h m ∧ do_wait_from cur wpid n i h k = m k.
Proof.
  pose proof (kinv_table_ok k Hk) as Ht. pose proof (heap_null _ (inv_heap _ Hk)) as H0.
  revert i h. induction n as [|n IH]; intros i h Hi Hn; simpl.
  { destruct h; simpl.
    - eexists. split; [apply ScanBlock; [lia|by left]|done].
    - eexists. split; [apply ScanNone; [done|lia]|done]. }
  erewrite bind_done by (apply slot_eq; [done|lia]).
  destruct (nz (slot_at k i)) eqn:Hnz; simpl.
  2:{ apply nz_false in Hnz. destruct (IH (i + 1) h) as (m & Hm & E); [lia..|]. exists m.
      split; [|done]. apply scan_skip; [|done]. intros ch [Hc _]. congruence. }
  apply nz_true in Hnz. destruct (slot_proc k Ht i ltac:(lia) Hnz) as [ch Hc].
  erewrite bind_done by by apply load_eq.
  erewrite bind_done by (apply load_eq; [by eapply heap_nonnull|done]).
  assert (awaited qc wpid ch = false → ∃ m, scan_result i (S n) h m ∧
            do_wait_from cur wpid n (i + 1) h k = m k) as Hskip.
  { intros Ha. destruct (IH (i + 1) h) as (m & Hm & E); [lia..|]. exists m.
    split; [|done]. apply scan_skip; [|done]. intros ch' [Hc' Ha']. congruence. }
  unfold awaited in Hskip. destruct (parent_pid ch =? pid qc) eqn:Ep; simpl in *; [|by apply Hskip].
  rewrite <-negb_orb. destruct ((wpid =? -1) || (pid ch =? u64 wpid)) eqn:Ew; simpl in *; [|by apply Hskip].
  assert (child_at i ch) as Hch by (split; [done|]; unfold awaited; by rewrite Ep, Ew).
  case_bool_decide as Hz.
  - destruct (IH (i + 1) true) as (m & Hm & E); [lia..|]. exists m. split; [|done].
    by eapply scan_child.
  - exists (reap cur (slot_at k i) ch). split; [|done]. apply ScanReap; [lia|done|].
    destruct (state ch) eqn:E; try done; by destruct Hz.
Qed.
End Scan.

Definition wait_done q : process :=
  q <| wait_reason := WAIT_NONE |> <| wait_channel := ChanNull |> <| wait_pid := -1 |>.

(** [child] is gone, [cur] no longer waits, and no other process changed; exactly
    the blocks and the address space of [child] were given back, the other address
    spaces show what they showed, and the other open files are unchanged. *)
Record reaped k (cur child : Z) k' : Prop := {
  rp_inv : kinv k';
  rp_gone : procs k' !! child = None;
  rp_table p : in_table k' p ↔ in_table k p ∧ p ≠ child;
  rp_count : process_count k' = process_count k - 1;
  rp_current : current_process k' = current_process k;
  rp_cur : procs k' !! cur = wait_done <$> procs k !! cur;
  rp_other p : p ≠ child → p ≠ cur → procs k' !! p = procs k !! p;
  rp_live a : live (env k') a ↔ live (env k) a ∧ ¬ has_block k child a;
  rp_space t : space (env k') t ↔ space (env k) t ∧ ¬ owns k (OSpace child) t;
  rp_view t : space (env k') t → view (env k') t = view (env k) t;
  rp_vfiles a : live (env k') a → vfiles k' !! a = vfiles k !! a;
  rp_next : next_pid k' = next_pid k }.

Lemma kinv_put k p q q' : kinv k → procs k !! p = Some q → same_proc p q q' →
  (state q' = TASK_RUNNING → state q = TASK_RUNNING) → kinv (put k p q').
Proof.
  intros Hk Hq Hs Hst. apply (evolves_kinv k); [by eapply evolves_put|done|apply Hk|apply Hk|].
  intros p' q1 Hin Hq1 Hrun. rewrite lookup_put in Hq1.
  destruct (decide (p' = p)) as [->|]; [|by apply (inv_running _ Hk p' q1)].
  simplify_eq. apply (inv_running _ Hk p q); [done..|]. by apply Hst.
Qed.

Lemma reap_spec k cur qc wpid i ch : kinv k → in_table k cur → procs k !! cur = Some qc →
  cur = current_process k → state qc ≠ TASK_ZOMBIE → 0 ≤ i < MAX_PROCESSES →
  child_at k wpid qc i ch → state ch = TASK_ZOMBIE →
  wp (reap cur (slot_at k i) ch)
     (λ r k', r = (i32 (pid ch), Some (exit_code ch), false) ∧ reaped k cur (slot_at k i) k') k.
Proof.
  intros Hk Hcur Hqc Ecur Hnz Hi [Hch Haw] Hzom. set (child := slot_at k i) in *.
  assert (child ≠ 0) as Hc0 by (eapply heap_nonnull; [apply Hk|done]).
  assert (in_table k child) as Hct by by apply slot_in_table.
  assert (parent_pid ch = pid qc) as Hpar
    by (apply andb_true_iff in Haw as [Hp _]; by apply Z.eqb_eq).
  pose proof (inv_pid _ Hk _ _ Hcur Hqc) as Hpid.
  assert (child ≠ cur) as Hcc by (intros E; rewrite E in Hch; congruence).
  assert (child ≠ init_process k) as Hci.
  { intros E. destruct (inv_init _ Hk) as (_ & q & Hq & Hp0); [congruence|].
    rewrite <-E in Hq. simplify_eq. lia. }
  assert (child ≠ idle_process k) as Hcd.
  { intros E. destruct (inv_idle _ Hk) as [_ Hn], Hct as [Hin _]. by rewrite E in Hin. }
  assert (is_kthread ch = false) as Hkt.
  { destruct (is_kthread ch) eqn:E; [|done].
    pose proof (inv_kthread _ Hk _ _ Hct Hch E). lia. }
  assert (kinv (removed k i)) as Hk1 by (apply removed_kinv; fold child; try done; congruence).
  assert (¬ in_table (removed k i) child) as Hnt by (by intros [_ ?]%removed_in_table).
  apply wp_bind. eapply wp_of_eq; [by apply process_remove_eq|].
  apply wp_bind. eapply wp_mono; [by apply (process_destroy_wp child (removed k i) ch); [apply Hk1|..]|].
  intros [] s (Hoff & Hhs & Hgone & Hrel).
  pose proof (off_table_kinv _ _ _ Hoff Hk1 Hhs Hnt Hcd) as Hs.
  assert (procs s !! cur = Some qc) as Hqs by by rewrite (ot_procs _ _ _ Hoff).
  apply wp_bind. eapply wp_upd; [apply Hhs|done|]. apply wp_ret. split; [done|]. split.
  - by eapply kinv_put.
  - by rewrite lookup_put, decide_False.
  - intros p. pose proof (removed_in_table k i p Hk Hi Hc0) as Ht. unfold child. rewrite <-Ht.
    unfold in_table, put. simpl. by rewrite (ot_processes _ _ _ Hoff).
  - unfold put. simpl. by rewrite (ot_count _ _ _ Hoff).
  - unfold put. simpl. by rewrite (ot_current _ _ _ Hoff).
  - by rewrite lookup_put, decide_True, Hqc.
  - intros p H1 H2. rewrite lookup_put, decide_False by done. by rewrite (ot_procs _ _ _ Hoff).
  - apply Hrel.
  - apply Hrel.
  - apply Hrel.
  - apply Hrel.
  - exact (f_equal next_pid (rl_rest _ _ _ _ Hrel)).
Qed.

(** The outcomes of [wait(wpid)]. *)
Inductive wait_post k qc (wpid : Z) : Z * option Z * bool → kst → Prop :=
| WaitReaped i ch k' : 0 ≤ i < MAX_PROCESSES → child_at k wpid qc i ch →
    state ch = TASK_ZOMBIE → reaped k (current_process k) (slot_at k i) k' →
    wait_post k qc wpid (i32 (pid ch), Some (exit_code ch), false) k'
| WaitBlocked k' :
    (∃ i ch, 0 ≤ i < MAX_PROCESSES ∧ child_at k wpid qc i ch) →
    (∀ i ch, 0 ≤ i < MAX_PROCESSES → child_at k wpid qc i ch → state ch ≠ TASK_ZOMBIE) →
    k' = put k (current_process k)
      (qc <| wait_reason := WAIT_CHILD |> <| wait_channel := ChanNull |>
          <| wait_pid := wpid |> <| state := TASK_WAITING |>) → kinv k' →
    wait_post k qc wpid (0, None, true) k'
| WaitNoChild : (∀ i ch, 0 ≤ i < MAX_PROCESSES → ¬ child_at k wpid qc i ch) →
    wait_post k qc wpid (-1, None, false) k.

Lemma do_wait_post k qc wpid : kinv k →
  let cur := current_process k in
  cur ≠ 0 → cur ≠ idle_process k → procs k !! cur = Some qc → state qc ≠ TASK_ZOMBIE →
  ∃ r k', do_wait wpid k = Done r k' ∧ wait_post k qc wpid r k'.
Proof.
  intros Hk cur Hnz Hni Hqc Hzom.
  assert (in_table k cur) as Hin by (destruct (inv_current _ Hk) as [?|[?|?]]; done).
  destruct (do_wait_from_scan k cur wpid qc Hk Hqc (Z.to_nat MAX_PROCESSES) 0 false)
    as (m & Hm & E); [done|by rewrite Z2Nat.id|].
  assert (do_wait wpid k = m k) as ->.
  { unfold do_wait. erewrite bind_done by done. fold cur. by rewrite (proj2 (nz_true _) Hnz). }
  clear E. destruct Hm as [i ch Hi Hch Hz|Hall Hsome|_ Hno]; rewrite Z2Nat.id in * by done.
  - pose proof (reap_spec k cur qc wpid i ch Hk Hin Hqc eq_refl Hzom Hi Hch Hz) as Hwp.
    apply wp_run in Hwp as (r & k' & -> & -> & Hr). do 2 eexists. split; [done|].
    by apply (WaitReaped k qc wpid i ch).
  - unfold block_on_child. erewrite bind_done by by eapply upd_eq.
    do 2 eexists. split; [done|]. destruct Hsome as [?|Hsome]; [done|].
    apply WaitBlocked; try done. by eapply kinv_put.
  - do 2 eexists. split; [done|]. by apply WaitNoChild.
Qed.

(** C6: [do_wait] called by a living process of the table never faults.  If an
    awaited child is a zombie it is reaped: its pid and exit code are returned,
    it leaves the table and no other process changes.  Of the memory exactly what
    it owned is given back: its object, its kernel stack and its open files go to
    [kfree] and the user half of its address space is torn down (the code keeps
    the page of the top-level table), while all other blocks, open files and
    address spaces are as before.  If the awaited children are all alive the
    caller blocks, and without one the result is -1. *)
Theorem do_wait_correct k qc wpid : kinv k →
  let cur := current_process k in
  cur ≠ 0 → cur ≠ idle_process k → procs k !! cur = Some qc → state qc ≠ TASK_ZOMBIE →
  ∃ r k', do_wait wpid k = Done r k' ∧ wait_post k qc wpid r k'.
Proof. apply do_wait_post. Qed.
End Wait.
