(* ===== verification/Clone.v ===== *)
(** * Creating processes

    [add_process] and [clone_process] (fork) of [kernel/sched.c]: the child gets
    a fresh pid, copies of the parent's open files, a kernel stack and an address
    space of its own ([forked]); when anything fails nothing of it remains
    ([unforked]). *)

From S2P Require Import Prelude Proc Sched SchedInv SchedSpec KInv Exit Wait.

Section Clone.
Context {KE : KEnv} {KO : KEnvOk}.
Implicit Types (k s : kst) (p c a : Z) (q : process).
#[local] Opaque pick highest.

(** ** Taking memory *)

Lemma heap_ok_grow k k' o a : heap_ok k → (∀ o', ¬ owns k o' a) → held (env k') o a →
  (∀ o' a', held (env k) o' a' → held (env k') o' a') → procs k' !! 0 = None →
  (∀ o' a', owns k' o' a' → owns k o' a' ∨ (o' = o ∧ a' = a)) →
  (∀ p q, procs k' !! p = Some q → length (files q) = Z.to_nat MAX_FILES) →
  (∀ p q, procs k' !! p = Some q → signals_ok q) →
  (∀ p i x, owns k' (OFile p i) x → is_Some (vfiles k' !! x)) → heap_ok k'.
Proof.
  intros Hh Hna Ha Hl H0 Hsub Hlen Hsg Hv. split; try done.
  - intros o' a' Ho. destruct (Hsub _ _ Ho) as [?|[-> ->]]; [|done].
    by apply Hl, (heap_held _ Hh).
  - intros o1 o2 x H1 H2. apply Hsub in H1, H2.
    destruct H1 as [H1|[-> ->]], H2 as [H2|[-> E]]; try done.
    + by eapply (heap_inj _ Hh).
    + subst x. by destruct (Hna _ H1).
    + by destruct (Hna _ H2).
Qed.

Lemma held_kmalloc n e p e' o a : kmalloc n e = (p, e') → held e o a → held e' o a.
Proof.
  intros E. assert (∀ x, live e x → live e' x) as Hl.
  { destruct (decide (p = 0)) as [->|Hnz]; intros x; [by rewrite (kmalloc_null _ _ _ E)|].
    intros Hx. apply (kmalloc_fresh _ _ _ _ E Hnz). by right. }
  destruct o; simpl; try apply Hl. by apply (kmalloc_space _ _ _ _ E).
Qed.

Lemma fresh_block k n p e' o : heap_ok k → kmalloc n (env k) = (p, e') → p ≠ 0 → ¬ owns k o p.
Proof.
  intros Hh E Hnz Ho. destruct (kmalloc_fresh _ _ _ _ E Hnz) as [Hnl Hl].
  pose proof (heap_held _ Hh _ _ Ho) as Hp. destruct o; simpl in Hp; try done.
  apply space_table in Hp. apply Hp, (live_heap e'), Hl. by left.
Qed.

(** An address that is not allocated holds no object. *)
Lemma not_live_proc k a : heap_ok k → ¬ live (env k) a → procs k !! a = None.
Proof.
  intros Hh Hn. destruct (procs k !! a) eqn:E; [|done]. exfalso. apply Hn.
  apply (heap_live _ a); [done|]. left. split; [done|]. by rewrite E.
Qed.

(** ** The child under construction

    [s] has evolved from [k] by building the process [q] at [dst]. *)
Record cloning k dst q s : Prop := {
  cg_off : off_table dst k s;
  cg_heap : heap_ok s;
  cg_proc : procs s !! dst = Some q;
  cg_live a : live (env k) a → live (env s) a;
  cg_vfiles a : live (env k) a → vfiles s !! a = vfiles k !! a }.

Lemma kzalloc_process_wp k : heap_ok k →
  wp kzalloc_process (λ dst s, ∃ e', kmalloc sizeof_process (env k) = (dst, e') ∧
    ((dst = 0 ∧ s = k <| env := e' |> ∧ off_table 0 k s ∧ heap_ok s) ∨
     (dst ≠ 0 ∧ s = k <| env := e' |> <| procs := <[dst := zero_process]> (procs k) |> ∧
      procs k !! dst = None ∧ ¬ live (env k) dst ∧ cloning k dst zero_process s))) k.
Proof.
  intros Hh. unfold wp, kzalloc_process. destruct (kmalloc _ _) as [dst e'] eqn:E.
  destruct (Z.eqb_spec dst 0) as [->|Hnz]; exists e'; (split; [done|]).
  - left. split; [done|]. split; [done|]. split; [by split|]. destruct Hh as [? Hl ????].
    split; try done. intros o a Ho. simpl. eapply held_kmalloc; [done|]. by apply Hl.
  - right. destruct (kmalloc_fresh _ _ _ _ E Hnz) as [Hfr Hlv].
    pose proof (not_live_proc _ _ Hh Hfr) as Hnp. split_and!; try done. split.
    + split; try done. intros p Hp. simpl. by rewrite lookup_insert_ne.
    + assert (∀ p q, <[dst := zero_process]> (procs k) !! p = Some q →
        p = dst ∧ q = zero_process ∨ procs k !! p = Some q) as Hlk.
      { intros p q [[<- <-]|[_ ?]]%lookup_insert_Some; [by left|by right]. }
      apply (heap_ok_grow k _ (OProc dst) dst); try done.
      * intros o'. by eapply fresh_block.
      * simpl. apply Hlv. by left.
      * intros o' a'. simpl. by apply (held_kmalloc sizeof_process _ dst).
      * simpl. rewrite lookup_insert_ne by done. apply Hh.
      * intros o a Ho. destruct o as [p|p|p i|p]; simpl in Ho.
        -- destruct Ho as [-> [q Hq]]. destruct (Hlk _ _ Hq) as [[-> _]|Hq']; [by right|].
           left. split; [done|by eexists].
        -- destruct Ho as (q & Hq & Ho). destruct (Hlk _ _ Hq) as [[-> ->]|Hq'].
           ++ by destruct Ho as (_ & ? & _).
           ++ left. by exists q.
        -- destruct Ho as (q & Hq & Ho & Hnz'). destruct (Hlk _ _ Hq) as [[-> ->]|Hq'].
           ++ apply lookup_replicate in Ho as [-> _]. done.
           ++ left. by exists q.
        -- destruct Ho as (q & Hq & Ho). destruct (Hlk _ _ Hq) as [[-> ->]|Hq'].
           ++ by destruct Ho as (_ & ? & _).
           ++ left. by exists q.
      * intros p q Hq. destruct (Hlk _ _ Hq) as [[_ ->]|Hq']; [done|].
        by eapply (heap_files _ Hh).
      * intros p q Hq. destruct (Hlk _ _ Hq) as [[_ ->]|Hq']; [by split|].
        by eapply (heap_signals _ Hh).
      * intros p i x Ho. simpl. destruct Ho as (q & Hq & Ho & Hnz').
        destruct (Hlk _ _ Hq) as [[_ ->]|Hq']; [by apply lookup_replicate in Ho as [-> _]|].
        apply (heap_vfile _ Hh p i). by exists q.
    + simpl. apply lookup_insert_eq.
    + intros a Ha. simpl. apply Hlv. by right.
    + done.
Qed.

Lemma cloning_put k dst q q' s : cloning k dst q s →
  kstack_top q' = kstack_top q → pml4 q' = pml4 q → is_kthread q' = is_kthread q →
  files q' = files q → (signals_ok q → signals_ok q') → cloning k dst q' (put s dst q').
Proof.
  intros [Hoff Hh Hp Hl Hv] E1 E2 E3 E4 E5. split; [|by eapply heap_ok_put| |done|done].
  - etrans; [exact Hoff|apply off_table_put].
  - by rewrite lookup_put, decide_True.
Qed.

(** The memory manager may move on as long as it keeps what it holds. *)
Lemma cloning_env k dst q s e : cloning k dst q s → (∀ o a, held (env s) o a → held e o a) →
  cloning k dst q (s <| env := e |>).
Proof.
  intros [[] [] Hp Hl Hv] He. split; [by split| |done| |done].
  - split; try done. intros o a Ho. simpl. apply He. eauto.
  - intros a Ha. simpl. by apply (He (OProc 0)), Hl.
Qed.

(** ** The memory of the child

    [grown k u dst q s]: since [k] the memory has grown by exactly what the child [q]
    at [dst] owns, and its address space shows what [u] showed. *)

Definition blocks (dst : Z) q a : Prop :=
  a = dst ∨ item q (OStack dst) a ∨ ∃ i : nat, item q (OFile dst i) a.

Lemma has_block_blocks s dst q a : procs s !! dst = Some q → has_block s dst a ↔ blocks dst q a.
Proof.
  intros Hq. unfold has_block, blocks, owns, item. rewrite Hq. split.
  - intros [[-> _]|[(q' & ? & ?)|(i & q' & ? & ?)]]; simplify_eq; eauto.
  - intros [->|[?|[i ?]]]; [left; by split; [|eexists]|right; left; by exists q|].
    right; right. by exists i, q.
Qed.

Lemma owns_space s dst q t : procs s !! dst = Some q → owns s (OSpace dst) t ↔ item q (OSpace dst) t.
Proof. intros Hq. unfold owns, item. rewrite Hq. split; [intros (q' & ? & ?); by simplify_eq|by exists q]. Qed.

Record grown k u dst q s : Prop := {
  gr_live a : live (env s) a ↔ live (env k) a ∨ blocks dst q a;
  gr_space t : space (env s) t ↔ space (env k) t ∨ item q (OSpace dst) t;
  gr_block a : blocks dst q a → ¬ live (env k) a;
  gr_table t : item q (OSpace dst) t → ¬ space (env k) t;
  gr_view t : space (env k) t → view (env s) t = view (env k) t;
  gr_own t : item q (OSpace dst) t → space (env k) u → view (env s) t = view (env k) u;
  gr_next : next_pid s = next_pid k ∨ next_pid s = next_pid k + 1;
  gr_rest : s <| procs := procs k |> <| vfiles := vfiles k |> <| env := env k |>
              <| next_pid := next_pid k |> = k }.

Lemma zero_blocks dst a : blocks dst zero_process a ↔ a = dst.
Proof.
  split; [|by left]. intros [?|[(_ & ? & _)|(i & Hi & Ha)]]; [done|done|].
  by apply lookup_replicate in Hi as [-> _].
Qed.

Lemma grown_start k u dst e' : kmalloc sizeof_process (env k) = (dst, e') → dst ≠ 0 →
  grown k u dst zero_process (k <| env := e' |> <| procs := <[dst := zero_process]> (procs k) |>).
Proof.
  intros E Hnz. destruct (kmalloc_fresh _ _ _ _ E Hnz) as [Hfr Hlv].
  pose proof (kmalloc_space _ _ _ _ E) as Hsp.
  pose proof (zero_blocks dst) as Hb.
  split; simpl.
  - intros a. rewrite Hlv, Hb. tauto.
  - intros t. destruct (Hsp t) as [-> _]. split; [by left|]. intros [?|(_ & ? & _)]; done.
  - intros a. by rewrite Hb; intros ->.
  - by intros t (_ & ? & _).
  - intros t. apply Hsp.
  - by intros t (_ & ? & _).
  - by left.
  - by destruct k.
Qed.

(** The child changes in what does not own memory. *)
Lemma grown_put k u dst q q' s s' : grown k u dst q s → env s' = env s → next_pid s' = next_pid s →
  s' <| procs := procs k |> <| vfiles := vfiles k |> <| env := env k |> <| next_pid := next_pid k |> = k →
  kstack_top q' = kstack_top q → pml4 q' = pml4 q → is_kthread q' = is_kthread q →
  files q' = files q → grown k u dst q' s'.
Proof.
  intros [L P B T V O N R] Ee En Er E1 E2 E3 E4.
  assert (∀ o a, item q' o a ↔ item q o a) as Hi.
  { intros o a. destruct o; simpl; by rewrite ?E1, ?E2, ?E3, ?E4. }
  assert (∀ a, blocks dst q' a ↔ blocks dst q a) as Hb.
  { intros a. unfold blocks. setoid_rewrite Hi. done. }
  split; rewrite ?Ee, ?En; try done.
  - intros a. by rewrite Hb.
  - intros t. by rewrite Hi.
  - intros a. rewrite Hb. apply B.
  - intros t. rewrite Hi. apply T.
  - intros t. rewrite Hi. apply O.
Qed.

(** A failed allocation changes nothing. *)
Lemma grown_malloc_null k u dst q s n e' : grown k u dst q s → kmalloc n (env s) = (0, e') →
  grown k u dst q (s <| env := e' |>).
Proof.
  intros [L P B T V O N R] E. pose proof (kmalloc_space _ _ _ _ E) as Hsp. split; try done; simpl.
  - intros a. by rewrite (kmalloc_null _ _ _ E), L.
  - intros t. by rewrite (proj1 (Hsp t)), P.
  - intros t Ht. rewrite (proj2 (Hsp t)); [by apply V|]. apply P. by left.
  - intros t Ht. rewrite (proj2 (Hsp t)); [by apply O|]. apply P. by right.
Qed.

(** A block was allocated and recorded. *)
Lemma grown_malloc k u dst q q' s s' n p e' : grown k u dst q s → kmalloc n (env s) = (p, e') → p ≠ 0 →
  env s' = e' → next_pid s' = next_pid s →
  s' <| procs := procs k |> <| vfiles := vfiles k |> <| env := env k |> <| next_pid := next_pid k |> = k →
  (∀ a, blocks dst q' a ↔ a = p ∨ blocks dst q a) →
  pml4 q' = pml4 q → is_kthread q' = is_kthread q → grown k u dst q' s'.
Proof.
  intros [L P B T V O N R] E Hnz Ee En Er Hb E2 E3.
  destruct (kmalloc_fresh _ _ _ _ E Hnz) as [Hfr Hlv]. pose proof (kmalloc_space _ _ _ _ E) as Hsp.
  assert (∀ t, item q' (OSpace dst) t ↔ item q (OSpace dst) t) as Hi by (intros t; simpl; by rewrite E2, E3).
  split; rewrite ?Ee, ?En; try done.
  - intros a. rewrite Hlv, L, Hb. tauto.
  - intros t. by rewrite (proj1 (Hsp t)), P, Hi.
  - intros a [->|?]%Hb; [|by apply B]. intros Hk. apply Hfr, L. by left.
  - intros t. rewrite Hi. apply T.
  - intros t Ht. rewrite (proj2 (Hsp t)); [by apply V|]. apply P. by left.
  - intros t Ht%Hi. rewrite (proj2 (Hsp t)); [by apply O|]. apply P. by right.
Qed.

(** ** Undoing *)

(** The memory is again as it was; at most a process id was used up. *)
Record restored k s : Prop := {
  rs_live a : live (env s) a ↔ live (env k) a;
  rs_space t : space (env s) t ↔ space (env k) t;
  rs_view t : space (env k) t → view (env s) t = view (env k) t;
  rs_vfiles a : live (env k) a → vfiles s !! a = vfiles k !! a;
  rs_next : next_pid s = next_pid k ∨ next_pid s = next_pid k + 1;
  rs_rest : s <| procs := procs k |> <| vfiles := vfiles k |> <| env := env k |>
              <| next_pid := next_pid k |> = k }.

Lemma restored_refl k : restored k k.
Proof. split; try done; [by left|by destruct k]. Qed.

Lemma restored_malloc_null k n e' : kmalloc n (env k) = (0, e') → restored k (k <| env := e' |>).
Proof.
  intros E. pose proof (kmalloc_space _ _ _ _ E) as Hsp. split; simpl; try done.
  - by apply (kmalloc_null _ _ _ E).
  - intros t. apply Hsp.
  - intros t. apply Hsp.
  - by left.
  - by destruct k.
Qed.

Lemma grown_restored k u dst q s s' : grown k u dst q s → cloning k dst q s →
  releases (blocks dst q) (item q (OSpace dst)) s s' → restored k s'.
Proof.
  intros [L P B T V O N R] [_ _ _ _ Hv] [L' P' V' F' R'].
  assert (∀ a, live (env k) a → live (env s') a) as Hl.
  { intros a Ha. apply L'. split; [apply L; by left|]. intros Hb. by apply (B a). }
  assert (∀ t, space (env k) t → space (env s') t) as Hs.
  { intros t Ht. apply P'. split; [apply P; by left|]. intros Hb. by apply (T t). }
  assert (next_pid s' = next_pid s) as En by exact (f_equal next_pid R').
  split.
  - intros a. split; [|apply Hl]. intros [Ha Hb]%L'. apply L in Ha. tauto.
  - intros t. split; [|apply Hs]. intros [Ha Hb]%P'. apply P in Ha. tauto.
  - intros t Ht. rewrite V' by by apply Hs. by apply V.
  - intros a Ha. rewrite F' by by apply Hl. by apply Hv.
  - by rewrite En.
  - rewrite <-R. rewrite <-R' at 1. done.
Qed.

(** The construction has been given up: every process and the memory are as they
    were in [k]. *)
Record abandoned k s : Prop := {
  ab_off : off_table 0 k s;
  ab_heap : heap_ok s;
  ab_restored : restored k s }.

Lemma off_table_free k dst s : procs k !! dst = None → off_table dst k s →
  off_table 0 k (freed s dst).
Proof.
  intros Hd [? ? ? ? ? ? ? Hq]. split; try done. intros p _. simpl.
  destruct (decide (p = dst)) as [->|]; [by rewrite lookup_delete_eq|].
  rewrite lookup_delete_ne by done. by apply Hq.
Qed.

Lemma cloning_free k u dst q s : heap_ok k → procs k !! dst = None → cloning k dst q s →
  grown k u dst q s → (∀ a, blocks dst q a ↔ a = dst) → (∀ t, ¬ item q (OSpace dst) t) →
  abandoned k (freed s dst).
Proof.
  intros Hk Hd Hc Hg Hb Ht. pose proof Hc as [Hoff Hh Hp _ _]. split; [|by eapply free_bare|].
  - by apply off_table_free.
  - apply (grown_restored k u dst q s); [done..|]. eapply releases_iff; [apply releases_freed| |].
    + apply (gr_live _ _ _ _ _ Hg). right. by apply Hb.
    + intros a. by rewrite Hb.
    + intros t. split; [done|apply Ht].
Qed.

Definition dropped s t : kst := freed (s <| env := vmm_free_user_pages t (env s) |>) t.

Lemma releases_dropped s t : ¬ on_heap t → releases nothing (λ x, x = t) s (dropped s t).
Proof.
  intros Hn. destruct (kfree_table t (env s) Hn) as [Hl Hs].
  destruct (releases_pages s t) as [L P V F R]. split; simpl in *.
  - intros a. by rewrite Hl, L.
  - intros u. by rewrite (proj1 (Hs u)), P.
  - intros u Hu%Hs. rewrite (proj2 (Hs u)) by done. by apply V.
  - intros a Ha%Hl. rewrite lookup_delete_ne; [done|]. intros <-. apply Hn.
    by apply (live_heap (vmm_free_user_pages t (env s))).
  - by destruct s.
Qed.

Lemma drop_table_heap s t : heap_ok s → ¬ on_heap t → (∀ o, ¬ owns s o t) →
  heap_ok (dropped s t) ∧ procs (dropped s t) = procs s.
Proof.
  intros Hh Hn Hno. pose proof (releases_dropped s t Hn) as Hrel.
  assert (¬ live (env s) t) as Hnl by (intros Hl; by apply live_heap in Hl).
  assert (procs (dropped s t) = procs s) as Ep.
  { simpl. apply delete_id. by apply not_live_proc. }
  split; [|done]. destruct Hh as [H0 Hl Hi Hlen Hsg Hv].
  assert (∀ o a, owns (dropped s t) o a → owns s o a) as Hsub.
  { intros o a. unfold owns. by rewrite Ep. }
  split.
  - by rewrite Ep.
  - intros o a Ho%Hsub. pose proof (Hl o a Ho) as Ha. destruct o; simpl in Ha |- *;
      try (apply (rl_live _ _ _ _ Hrel); by split; [|intros []]).
    apply (rl_space _ _ _ _ Hrel). split; [done|]. intros ->. by eapply Hno.
  - intros o o' a Ho Ho'. by eapply Hi; apply Hsub.
  - rewrite Ep. apply Hlen.
  - rewrite Ep. apply Hsg.
  - intros p i a Ho%Hsub. simpl. rewrite lookup_delete_ne; [by eapply Hv|].
    intros ->. apply Hnl. exact (Hl _ _ Ho).
Qed.

(** The address space and then the object of [dst] are given back. *)
Lemma drop_last dst q s : heap_ok s → procs s !! dst = Some q → is_kthread q = false →
  pml4 q ≠ 0 → let s' := freed (dropped s (pml4 q)) dst in
  heap_ok s' ∧ off_table dst s s' ∧
  releases (λ a, a = dst) (item q (OSpace dst)) s s'.
Proof.
  intros Hh Hq Hkt Hnz s'. set (t := pml4 q). set (v := put s dst (q <| pml4 := 0 |>)).
  assert (owns s (OSpace dst) t) as Ho by by exists q.
  pose proof (heap_held _ Hh _ _ Ho) as Hsp. simpl in Hsp.
  pose proof (space_table _ _ Hsp) as Hn.
  destruct (heap_ok_shrink dst s q (q <| pml4 := 0 |>) Hh Hq) as [Hv Hsub]; [|done..|].
  { intros o a _. destruct o; try done. by intros (_ & ? & _). }
  destruct (drop_table_heap v t Hv Hn) as [Hh2 Ep].
  { intros o Hov. assert (o = OSpace dst) as -> by (eapply (heap_inj _ Hh); [by apply Hsub|done]).
    destruct Hov as (q1 & H1 & _ & H2 & _). unfold v in H1. rewrite lookup_put, decide_True in H1 by done.
    by injection H1 as <-. }
  assert (procs (dropped v t) !! dst = Some (q <| pml4 := 0 |>)) as Hq2
    by (rewrite Ep; unfold v; by rewrite lookup_put, decide_True).
  assert (s' = freed (dropped v t) dst) as ->.
  { unfold s', freed, dropped. simpl. apply kst_eq; try done. simpl. apply map_eq. intros p.
    rewrite !lookup_delete, lookup_insert. by repeat case_decide. }
  split_and!.
  - by eapply free_bare.
  - split; try done. intros p Hp. change (delete dst (procs (dropped v t)) !! p = procs s !! p).
    rewrite Ep, lookup_delete_ne by done. unfold v. by rewrite lookup_put, decide_False.
  - eapply releases_trans; [apply (releases_put nothing nothing s s dst (q <| pml4 := 0 |>)), releases_refl| | |].
    { eapply (releases_trans _ _ _ _ (λ a, a = dst) (λ x, x = t));
        [by apply (releases_dropped v)|apply releases_freed| |].
      - apply (heap_live _ dst); [done|]. left. split; [done|by eexists].
      - intros a. unfold nothing. tauto.
      - intros a. unfold nothing. tauto. }
    + intros a. unfold nothing. tauto.
    + intros a. unfold nothing. simpl. tauto.
Qed.

(** ** Recording what was allocated *)

(** The address [a] was obtained and is recorded in the child as [o]. *)
Lemma cloning_grow k dst q q' s s1 o a : cloning k dst q s → owner_of o = dst →
  procs s1 = procs s → off_table dst s s1 → (∀ o', ¬ owns s o' a) → ¬ live (env s) a →
  held (env s1) o a → (∀ o' a', held (env s) o' a' → held (env s1) o' a') →
  (∀ x, x ≠ a → vfiles s1 !! x = vfiles s !! x) →
  ((∃ i, o = OFile dst i) → is_Some (vfiles s1 !! a)) →
  (∀ o' a', owner_of o' = dst → item q' o' a' → item q o' a' ∨ (o' = o ∧ a' = a)) →
  length (files q') = length (files q) → (signals_ok q → signals_ok q') →
  cloning k dst q' (put s1 dst q').
Proof.
  intros [Hoff Hh Hp Hl Hv] Eo Eps Hoff1 Hno Hnl Ha Hkeep Hvs Hva Hit Elen Hsg.
  assert (procs s1 !! dst = Some q) as Hp1 by by rewrite Eps.
  assert (∀ o' a', owns (put s1 dst q') o' a' → owns s o' a' ∨ (o' = o ∧ a' = a)) as Hsub.
  { intros o' a' Ho'. apply (owns_put _ _ q) in Ho' as [[_ H]|[E H]]; [| |done].
    - left. revert H. unfold owns. by rewrite Eps.
    - destruct (Hit _ _ E H) as [?|?]; [left|by right]. apply (owns_item _ _ q); [by rewrite E|done]. }
  split.
  - etrans; [exact Hoff|]. etrans; [exact Hoff1|]. apply off_table_put.
  - apply (heap_ok_grow s _ o a); try done.
    + rewrite lookup_put, decide_False; [rewrite Eps; apply Hh|].
      intros <-. rewrite (heap_null _ Hh) in Hp. done.
    + intros p q1. rewrite lookup_put. destruct (decide (p = dst)) as [->|]; intros H1.
      * simplify_eq. rewrite Elen. by eapply (heap_files _ Hh).
      * rewrite Eps in H1. by eapply (heap_files _ Hh).
    + intros p q1. rewrite lookup_put. destruct (decide (p = dst)) as [->|]; intros H1.
      * simplify_eq. by eapply Hsg, (heap_signals _ Hh).
      * rewrite Eps in H1. by eapply (heap_signals _ Hh).
    + intros p i x Hx. simpl. destruct (Hsub _ _ Hx) as [Hs|[E ->]].
      * rewrite Hvs; [by eapply (heap_vfile _ Hh)|]. intros ->. by destruct (Hno _ Hs).
      * apply Hva. exists i. rewrite <-E in Eo. simpl in Eo. by rewrite <-Eo.
  - by rewrite lookup_put, decide_True.
  - intros x Hx. exact (Hkeep (OProc 0) x (Hl x Hx)).
  - intros x Hx. simpl. rewrite Hvs; [by apply Hv|]. intros ->. by apply Hnl, Hl.
Qed.

Lemma k_malloc_wp k dst q s n : cloning k dst q s →
  wp (k_malloc n) (λ p s',
    ∃ e', kmalloc n (env s) = (p, e') ∧ s' = s <| env := e' |> ∧ cloning k dst q s') s.
Proof.
  intros Hc. unfold wp, k_malloc. destruct (kmalloc n (env s)) as [p e'] eqn:E.
  exists e'. split_and!; [done..|]. apply cloning_env; [done|]. intros o a.
  by apply (held_kmalloc n _ p).
Qed.

Lemma off_table_env c s e : off_table c s (s <| env := e |>).
Proof. by split. Qed.

(** The cloned address space, or a failure to clone. *)
Lemma cloning_space k u dst q s t e : cloning k dst q s → grown k u dst q s →
  is_kthread q = false → pml4 q = 0 → vmm_clone_pml4 u (env s) = (t, e) →
  let q' := q <| pml4 := t |> in let s' := put (s <| env := e |>) dst q' in
  cloning k dst q' s' ∧ grown k u dst q' s'.
Proof.
  intros Hc Hg Hkt H0 E q' s'. destruct (clone_live _ _ _ _ E) as [Ht Hl].
  destruct (clone_space _ _ _ _ E) as [Hnew Hs]. pose proof Hc as [_ Hh _ _ _].
  assert (∀ o a, held (env s) o a → held e o a) as Hkeep.
  { intros o a. destruct o; simpl; try by rewrite Hl. intros Ha. apply Hs. by right. }
  assert (∀ x, item q' (OSpace dst) x ↔ x = t ∧ t ≠ 0) as Hit.
  { intros x. simpl. split; [naive_solver|]. intros [-> ?]. by split_and!. }
  split.
  - destruct (decide (t = 0)) as [->|Hnz].
    + apply (cloning_put k dst q); [by apply cloning_env|done..].
    + specialize (Ht Hnz). destruct (Hnew Hnz) as [Hns _].
      apply (cloning_grow k dst q q' s _ (OSpace dst) t); try done.
      * intros o Ho. pose proof (heap_held _ Hh _ _ Ho) as Hx.
        destruct o; simpl in Hx; try done; by apply live_heap in Hx.
      * intros Hx. by apply live_heap in Hx.
      * simpl. apply Hs. by left.
      * by intros [i ?].
      * intros o a Eo Ha. destruct o; simpl in *; try (by left). right. by destruct Ha as (_ & _ & ->); subst.
  - destruct Hg as [L P B T V O N R]. split; try done.
    + intros a. simpl. by rewrite Hl, L.
    + intros x. simpl env. rewrite (proj1 (Hs x)), P, Hit. simpl. rewrite H0. naive_solver.
    + intros x [-> Hnz]%Hit Hk. destruct (Hnew Hnz) as [Hns _]. apply Hns, P. by left.
    + intros x Hx. simpl. rewrite (proj2 (Hs x)); [by apply V|]. apply P. by left.
    + intros x [-> Hnz]%Hit Hu. destruct (Hnew Hnz) as [_ Hv]. simpl.
      rewrite Hv by (apply P; by left). by apply V.
Qed.

(** ** The kernel stack *)

Lemma stack_base kstack : 0 < kstack → kstack + 32768 < 2 ^ 64 →
  u64 (u64 (kstack + 32768) - 32768) = kstack ∧ u64 (kstack + 32768) ≠ 0.
Proof.
  intros H1 H2. rewrite (wrap_small 64 (kstack + 32768)) by lia.
  rewrite wrap_small by lia. lia.
Qed.

(** The stack of the child is recorded. *)
Lemma cloning_stack k u dst q q' s kstack e' : cloning k dst q s → grown k u dst q s →
  is_kthread q = false → kstack_top q = 0 →
  kmalloc 32768 (env s) = (kstack, e') → kstack ≠ 0 →
  kstack_top q' = u64 (kstack + 32768) → pml4 q' = pml4 q → is_kthread q' = false →
  files q' = files q → (signals_ok q → signals_ok q') →
  let s' := put (s <| env := e' |>) dst q' in cloning k dst q' s' ∧ grown k u dst q' s'.
Proof.
  intros Hc Hg Hkt H0 E Hnz Eks Epm Ekt Ef Esg s'.
  destruct (kmalloc_fresh _ _ _ _ E Hnz) as [Hfr Hlv].
  destruct (kmalloc_range _ _ _ _ E Hnz) as [H1 H2].
  destruct (stack_base kstack H1 H2) as [Hb Hb0].
  assert (∀ a, item q' (OStack dst) a ↔ a = kstack) as Hit.
  { intros a. simpl. rewrite Eks, Hb. split; [naive_solver|]. by intros ->. }
  split.
  - apply (cloning_grow k dst q q' s _ (OStack dst) kstack); try done.
    + intros o. eapply fresh_block; [apply Hc|done..].
    + simpl. apply Hlv. by left.
    + intros o a. simpl. by apply (held_kmalloc 32768 _ kstack).
    + by intros [i ?].
    + intros o a Eo Ha. destruct o as [p|p|p i|p]; [done| |left..].
      * right. apply Hit in Ha as ->. simpl in Eo. by subst.
      * revert Ha. simpl. by rewrite Ef.
      * revert Ha. simpl. by rewrite Epm, Ekt, Hkt.
    + by rewrite Ef.
  - apply (grown_malloc k u dst q q' s _ 32768 kstack e'); try done.
    + apply Hg.
    + intros a. unfold blocks. rewrite Hit. simpl. rewrite Ef, H0. naive_solver.
    + by rewrite Ekt.
Qed.

(** ** Open files *)

(** Descriptor [j] of the child: closed where the parent's is closed, and else a
    new file object with the contents of the parent's. *)
Definition dup_of k s (f g : Z) : Prop :=
  if decide (f = 0) then g = 0
  else g ≠ 0 ∧ ¬ live (env k) g ∧ vfiles s !! g = vfiles k !! f.

Record copying k u dst q0 (fs : list Z) (i : Z) q s : Prop := {
  cp_cloning : cloning k dst q s;
  cp_grown : grown k u dst q s;
  cp_same : q = q0 <| files := files q |>;
  cp_done j f : 0 ≤ j < i → fs !! Z.to_nat j = Some f →
    ∃ g, files q !! Z.to_nat j = Some g ∧ dup_of k s f g;
  cp_rest j : i ≤ j < MAX_FILES → files q !! Z.to_nat j = Some 0 }.

Lemma put_same s p q : procs s !! p = Some q → put s p q = s.
Proof.
  intros Hq. unfold put. transitivity (s <| procs := procs s |>); [|by destruct s].
  apply set_procs_eq. intros. by rewrite insert_id.
Qed.

Lemma same_files q0 q l : q = q0 <| files := files q |> →
  q <| files := l |> = q0 <| files := files (q <| files := l |>) |>.
Proof. intros ->. done. Qed.

(** A closed descriptor is left closed. *)
Lemma copying_closed k u dst q0 fs i q s : copying k u dst q0 fs i q s → 0 ≤ i < MAX_FILES →
  fs !! Z.to_nat i = Some 0 → copying k u dst q0 fs (i + 1) q s.
Proof.
  intros [Hc Hg Hs Hd Hr] Hi Hf. split; [done..| |].
  - intros j f Hj Hfj. destruct (decide (j = i)) as [->|]; [|apply Hd; [lia|done]].
    exists 0. simplify_eq. split; [apply Hr; lia|]. unfold dup_of. by rewrite decide_True.
  - intros j Hj. apply Hr. lia.
Qed.

(** A file was duplicated into [g]. *)
Lemma copying_dup k u dst q0 fs i q s f g e' fv : heap_ok k →
  copying k u dst q0 fs i q s → 0 ≤ i < MAX_FILES →
  fs !! Z.to_nat i = Some f → f ≠ 0 → vfiles k !! f = Some fv →
  kmalloc sizeof_vfs_file (env s) = (g, e') → g ≠ 0 →
  let q' := q <| files := <[Z.to_nat i := g]> (files q) |> in
  copying k u dst q0 fs (i + 1) q'
    (put (s <| env := e' |> <| vfiles := <[g := fv]> (vfiles s) |>) dst q').
Proof.
  intros Hk [Hc Hg Hs Hd Hr] Hi Hf Hnf Hfv E Hng q'. pose proof Hc as [Hoff Hh Hp Hl Hv].
  destruct (kmalloc_fresh _ _ _ _ E Hng) as [Hfr Hlv].
  set (s1 := s <| env := e' |> <| vfiles := <[g := fv]> (vfiles s) |>).
  assert (∀ x, x ≠ g → vfiles s1 !! x = vfiles s !! x) as Hvs
    by (intros x Hx; simpl; by rewrite lookup_insert_ne).
  pose proof (Hr i ltac:(lia)) as H0.
  assert (∀ j x, item q' (OFile dst j) x →
    item q (OFile dst j) x ∨ (OFile dst j = OFile dst (Z.to_nat i) ∧ x = g)) as Hit.
  { intros j x [Hj Hx]. simpl in Hj.
    apply list_lookup_insert_Some in Hj as [(<- & <- & _)|[_ Hj]]; [by right|by left]. }
  split.
  - apply (cloning_grow k dst q q' s s1 (OFile dst (Z.to_nat i)) g); try done.
    + intros o. by eapply fresh_block.
    + simpl. apply Hlv. by left.
    + intros o a. simpl. by apply (held_kmalloc sizeof_vfs_file _ g).
    + intros _. simpl. by rewrite lookup_insert_eq.
    + intros o a Eo Ha. destruct o as [p|p|p j|p]; try (by left). simpl in Eo. subst p. by apply Hit.
    + simpl. by rewrite length_insert.
  - apply (grown_malloc k u dst q q' s _ sizeof_vfs_file g e'); try done; [apply Hg|].
    intros a. unfold blocks. split.
    + intros [?|[?|[j Hj]]]; [by right; left|by right; right; left|].
      destruct (Hit _ _ Hj) as [?|[_ ?]]; [right; right; right; by exists j|by left].
    + intros [->|[?|[?|[j [Hj Ha]]]]]; [|by left|by right; left|]; right; right.
      * exists (Z.to_nat i). split; [|done]. simpl. apply list_lookup_insert_eq. by eapply lookup_lt_Some.
      * exists j. split; [|done]. simpl. rewrite list_lookup_insert_ne; [done|]. intros <-. congruence.
  - by apply same_files.
  - intros j f' Hj Hfj. simpl. destruct (decide (j = i)) as [->|Hne].
    + exists g. rewrite list_lookup_insert_eq by by eapply lookup_lt_Some.
      split; [done|]. simplify_eq. unfold dup_of. rewrite decide_False by done.
      split_and!; [done| |simpl; by rewrite lookup_insert_eq]. intros Hlg. by apply Hfr, Hl.
    + destruct (Hd j f') as (g' & Hg' & Hdup); [lia|done|]. exists g'.
      rewrite list_lookup_insert_ne by lia. split; [done|]. unfold dup_of in *.
      destruct (decide (f' = 0)); [done|]. destruct Hdup as (Hg0 & Hnl & Hvg).
      split_and!; [done|done|]. change (vfiles s1 !! g' = vfiles k !! f').
      rewrite Hvs; [done|]. intros ->. apply Hfr.
      apply (heap_file s dst (Z.to_nat j) g); [done|]. by exists q.
  - intros j Hj. simpl. rewrite list_lookup_insert_ne by lia. apply Hr. lia.
Qed.

Lemma dup_file_eq s f fv : f ≠ 0 → vfiles s !! f = Some fv →
  ∃ g e', kmalloc sizeof_vfs_file (env s) = (g, e') ∧
    dup_file f s = Done g (if g =? 0 then s <| env := e' |>
                           else s <| env := e' |> <| vfiles := <[g := fv]> (vfiles s) |>).
Proof.
  intros Hf Hfv. unfold dup_file. rewrite (proj2 (Z.eqb_neq _ _) Hf).
  unfold mbind, M_bind, k_malloc. destruct (kmalloc _ _) as [g e'] eqn:E.
  exists g, e'. split; [done|]. destruct (Z.eqb_spec g 0) as [->|]; [done|].
  simpl. unfold get_state, from_opt. simpl. by rewrite Hfv.
Qed.

Lemma dup_file_wp k u dst q0 qs src i q s : heap_ok k → procs k !! src = Some qs → src ≠ dst →
  copying k u dst q0 (files qs) i q s → 0 ≤ i < MAX_FILES →
  wp (sq ← load src;
      f ← from_opt (files sq !! Z.to_nat i);
      if negb (nz f) then mret None else
      g ← dup_file f;
      upd dst (λ q, q <| files := <[Z.to_nat i := g]> (files q) |>) ;;
      mret (if nz g then None else Some tt))
     (λ r s', match r with
              | Some _ => ∃ q', cloning k dst q' s' ∧ grown k u dst q' s' ∧ q' = q0 <| files := files q' |>
              | None => ∃ q', copying k u dst q0 (files qs) (i + 1) q' s'
              end) s.
Proof.
  intros Hk Hsrc Hne Hcp Hi. pose proof Hcp as [[Hoff Hh Hp Hl Hv] Hg Hs Hd Hr].
  assert (procs s !! src = Some qs) as Hsrc' by by rewrite (ot_procs _ _ _ Hoff).
  destruct (lookup_lt_is_Some_2 (files qs) (Z.to_nat i)) as [f Hf].
  { rewrite (heap_files _ Hk _ _ Hsrc). unfold MAX_FILES in *. lia. }
  apply wp_bind. eapply wp_load; [apply Hh|done|]. apply wp_bind. eapply wp_from_opt; [done|].
  destruct (nz f) eqn:Hnz; simpl.
  2:{ apply nz_false in Hnz as ->. apply wp_ret. exists q. by apply copying_closed. }
  apply nz_true in Hnz. assert (owns k (OFile src (Z.to_nat i)) f) as Ho by by exists qs.
  destruct (heap_vfile _ Hk _ _ _ Ho) as [fv Hfv].
  assert (vfiles s !! f = Some fv) as Hfvs by (rewrite Hv; [done|by eapply heap_file]).
  destruct (dup_file_eq s f fv Hnz Hfvs) as (g & e' & E & Ed).
  apply wp_bind. eapply wp_of_eq; [exact Ed|]. apply wp_bind.
  destruct (Z.eqb_spec g 0) as [->|Hng].
  - eapply wp_upd; [apply Hh|exact Hp|]. apply wp_ret. simpl.
    assert (<[Z.to_nat i := 0]> (files q) = files q) as Ef by (apply list_insert_id, Hr; lia).
    exists (q <| files := <[Z.to_nat i := 0]> (files q) |>). split_and!; [| |by apply same_files].
    + apply (cloning_put k dst q); try done. apply cloning_env; [by split|].
      intros o a. by apply (held_kmalloc sizeof_vfs_file _ 0).
    + apply (grown_put k u dst q _ (s <| env := e' |>)); try done; [by eapply grown_malloc_null|apply Hg].
  - eapply wp_upd; [apply Hh|exact Hp|]. apply wp_ret. rewrite (proj2 (nz_true _) Hng).
    eexists. by eapply copying_dup.
Qed.

Lemma clone_files_wp k u dst q0 qs src s : heap_ok k → procs k !! src = Some qs → src ≠ dst →
  cloning k dst q0 s → grown k u dst q0 s → files q0 = replicate (Z.to_nat MAX_FILES) 0 →
  wp (clone_files src dst)
     (λ ok s', ∃ q', if ok : bool then copying k u dst q0 (files qs) MAX_FILES q' s'
               else cloning k dst q' s' ∧ grown k u dst q' s' ∧ q' = q0 <| files := files q' |>) s.
Proof.
  intros Hk Hsrc Hne Hc Hg Hf. unfold clone_files. apply wp_bind.
  eapply wp_mono; [apply (wp_for_up _ 0 _ (λ i s, ∃ q, copying k u dst q0 (files qs) i q s)
    (λ _ s', ∃ q', cloning k dst q' s' ∧ grown k u dst q' s' ∧ q' = q0 <| files := files q' |>))|].
  - intros i s' Hi [q Hq]. rewrite Z2Nat.id in Hi by done. by eapply dup_file_wp.
  - exists q0. split; [done|done|by destruct q0|lia|]. intros j Hj. rewrite Hf.
    apply lookup_replicate. unfold MAX_FILES in *. split; [done|lia].
  - intros [[]|] s' Hs'; apply wp_ret; simpl; [done|]. by rewrite Z2Nat.id in Hs'.
Qed.

(** ** Giving up after the stack was allocated *)

Lemma clone_undo_wp k u dst q s kstack : heap_ok k → procs k !! dst = None → cloning k dst q s →
  grown k u dst q s → 0 < kstack → kstack + 32768 < 2 ^ 64 → kstack_top q = u64 (kstack + 32768) →
  is_kthread q = false → pml4 q ≠ 0 →
  wp (clone_undo dst kstack) (λ _ s', abandoned k s') s.
Proof.
  intros Hk Hd Hc Hg H1 H2 Hks Hkt Hpm. pose proof Hc as [Hoff Hh Hp _ _]. unfold clone_undo.
  apply wp_bind. eapply wp_mono; [by apply (close_loop_wp dst s q)|].
  intros [] s1 [Hoff1 Hh1 Hrel1 (q1 & Hq1 & Eks & Ekt & Epm & _)].
  destruct (stack_base kstack H1 H2) as [Hb Hb0].
  assert (owns s1 (OStack dst) kstack) as Ho by (exists q1; by rewrite Eks, Ekt, Hks).
  destruct (free_stack_heap dst s1 q1 kstack Hh1 Hq1 Ho) as (Hh2 & Hoff2 & Hq2).
  set (s2 := freed s1 kstack) in *. set (v := put s2 dst _) in Hh2.
  assert (procs s2 !! 0 = None) as H0 by (simpl; apply lookup_delete_None; right; apply Hh1).
  apply wp_bind. eapply wp_of_eq; [done|]. fold (freed s1 kstack). fold s2.
  apply wp_bind. eapply wp_load; [done..|].
  apply wp_bind, wp_modify, wp_bind. eapply wp_of_eq; [done|].
  eapply wp_of_eq; [done|]. fold (dropped s2 (pml4 q1)).
  change (abandoned k (freed (dropped s2 (pml4 q1)) dst)).
  assert (procs v !! dst = Some (q1 <| kstack_top := 0 |>)) as Hqv
    by (unfold v; by rewrite lookup_put, decide_True).
  destruct (drop_last dst _ v Hh2 Hqv) as (Hh3 & Hoff3 & Hrel3); [simpl; congruence..|].
  simpl in Hh3, Hoff3, Hrel3.
  assert (freed (dropped s2 (pml4 q1)) dst = freed (dropped v (pml4 q1)) dst) as ->.
  { unfold freed, dropped. simpl. apply kst_eq; try done. simpl. apply map_eq. intros p.
    rewrite !lookup_delete, lookup_insert, !lookup_delete. by repeat case_decide. }
  split; [|done|].
  - pose proof (off_table_put dst s2 (q1 <| kstack_top := 0 |>)) as Hov.
    assert (off_table dst k (freed (dropped v (pml4 q1)) dst)) as [? ? ? ? ? ? ? Hq]
      by (etrans; [exact Hoff|]; etrans; [exact Hoff1|]; etrans; [exact Hoff2|]; by etrans; [exact Hov|]).
    split; try done. intros p _. destruct (decide (p = dst)) as [->|]; [|by apply Hq].
    rewrite Hd. simpl. apply lookup_delete_eq.
  - apply (grown_restored k u dst q s); [done..|].
    eapply (releases_trans _ _ _ _ _ _ s s2).
    { eapply (releases_trans _ _ _ _ (λ a, all_files s dst a ∨ a = kstack) nothing);
        [exact Hrel1|apply releases_freed; exact (heap_held _ Hh1 _ _ Ho)|done|].
      intros t. unfold nothing. tauto. }
    { eapply (releases_trans _ _ _ _ (λ a, a = dst) (item q (OSpace dst)));
        [apply (releases_put nothing nothing s2 s2 dst (q1 <| kstack_top := 0 |>)), releases_refl|exact Hrel3| |].
      - intros a. unfold nothing. tauto.
      - intros t. unfold nothing. simpl. rewrite Ekt, Epm. tauto. }
    + intros a. unfold blocks, all_files. simpl. rewrite Hks, Hb, Hkt.
      assert (∀ (i : nat), owns s (OFile dst i) a ↔ files q !! i = Some a ∧ a ≠ 0) as Hf.
      { intros i. simpl. rewrite Hp. naive_solver. }
      setoid_rewrite Hf. naive_solver.
    + intros t. unfold nothing. tauto.
Qed.

(** ** Entering the table *)

Definition added k (i dst : Z) : kst :=
  k <| processes := <[Z.to_nat i := dst]> (processes k) |>
    <| process_count := process_count k + 1 |>.

Lemma find_free_slot_eq k : table_ok k →
  ∃ i, process_table_find_free_slot k = Done i k ∧
    ((i = -1 ∧ ∀ j, 0 ≤ j < MAX_PROCESSES → slot_at k j ≠ 0) ∨
     (0 ≤ i < MAX_PROCESSES ∧ slot_at k i = 0)).
Proof.
  intros Ht. set (hit := λ i, if negb (nz (slot_at k i)) then Some i else None).
  exists (default (-1) (first_some (Z.to_nat MAX_PROCESSES) 0 hit)). split.
  - unfold process_table_find_free_slot. erewrite bind_done; [done|]. apply for_up_search.
    intros i Hi. rewrite Z2Nat.id in Hi by done. by erewrite bind_done by by apply slot_eq.
  - destruct (first_some _ _ _) as [j|] eqn:E; simpl.
    + right. apply first_some_Some in E as (i & Hi & Hh & _). rewrite Z2Nat.id in Hi by done.
      unfold hit in Hh. destruct (nz (slot_at k i)) eqn:En; simplify_eq/=.
      apply nz_false in En. split; [lia|done].
    + left. split; [done|]. intros j Hj. rewrite first_some_None in E.
      rewrite Z2Nat.id in E by done. specialize (E j Hj). unfold hit in E.
      destruct (nz (slot_at k j)) eqn:En; [|done]. by apply nz_true.
Qed.

Lemma added_in_table k i dst p : table_ok k → 0 ≤ i < MAX_PROCESSES → slot_at k i = 0 →
  dst ≠ 0 → in_table (added k i dst) p ↔ in_table k p ∨ p = dst.
Proof.
  intros Ht Hi Hs Hd. pose proof (slot_lookup k Ht i Hi) as Hl. unfold in_table. simpl. split.
  - intros [Hin Hp]. apply list_elem_of_lookup in Hin as [j Hj].
    apply list_lookup_insert_Some in Hj as [(_ & ? & _)|[_ Hj]]; [by right|].
    left. split; [by eapply list_elem_of_lookup_2|done].
  - intros [[Hin Hp]| ->].
    + split; [|done]. apply list_elem_of_lookup in Hin as [j Hj]. apply list_elem_of_lookup.
      exists j. rewrite list_lookup_insert_ne; [done|]. intros <-. congruence.
    + split; [|done]. apply list_elem_of_lookup. exists (Z.to_nat i).
      apply list_lookup_insert_eq. by eapply lookup_lt_Some.
Qed.

Lemma added_kinv k i dst q : kinv k → 0 ≤ i < MAX_PROCESSES → slot_at k i = 0 → dst ≠ 0 →
  dst ∉ processes k → dst ≠ idle_process k → procs k !! dst = Some q →
  state q ≠ TASK_RUNNING → 0 < pid q < next_pid k →
  (∀ p q', in_table k p → procs k !! p = Some q' → pid q' ≠ pid q) →
  (is_kthread q = true → parent_pid q = 0) → kinv (added k i dst).
Proof.
  intros Hk Hi Hs Hd Hnt Hni Hq Hst Hpid Hfr Hkt. pose proof (kinv_table_ok k Hk) as Ht.
  assert (∀ p, in_table (added k i dst) p → in_table k p ∨ p = dst) as Hsub
    by (intros p Hp; by apply added_in_table in Hp).
  split.
  - simpl. rewrite length_insert. apply Hk.
  - intros p [Hp| ->]%Hsub; [by apply (inv_table _ Hk)|simpl; by rewrite Hq].
  - intros j j' Hj Hj'. rewrite !(slot_insert k (added k i dst) i dst) by done.
    assert (∀ m, 0 ≤ m < MAX_PROCESSES → slot_at k m ≠ dst) as Hno.
    { intros m Hm E. apply Hnt. rewrite <-E. by apply slot_elem. }
    repeat case_decide; intros E Hnz; [lia| | |by apply (inv_nodup _ Hk)].
    + by destruct (Hno j').
    + by destruct (Hno j).
  - unfold used_slots. simpl. pose proof (slot_lookup k Ht i Hi) as Hl.
    pose proof (used_insert _ _ _ dst Hl) as Hc. rewrite (inv_count _ Hk). unfold used_slots.
    rewrite Hs in Hc. repeat case_decide; try done. lia.
  - apply Hk.
  - split; [apply Hk|]. simpl. intros (j & Hj)%list_elem_of_lookup.
    apply list_lookup_insert_Some in Hj as [(_ & E & _)|[_ Hj]]; [done|].
    destruct (inv_idle _ Hk) as [_ Hn]. apply Hn. by eapply list_elem_of_lookup_2.
  - apply Hk.
  - intros Hin. destruct (inv_init _ Hk Hin) as [? ?]. split; [|done].
    apply added_in_table; try done. by left.
  - destruct (inv_current _ Hk) as [?|[?|?]]; [by left|by right; left|].
    destruct (decide (current_process k = 0)); [by left|]. right; right.
    apply added_in_table; try done. by left.
  - intros p q' [Hp| ->]%Hsub Hq' Hrun; [by apply (inv_running _ Hk p q')|].
    simpl in Hq'. congruence.
  - intros p q' [Hp| ->]%Hsub Hq'; [by apply (inv_pid _ Hk p)|]. simpl in *. by simplify_eq.
  - intros p1 q1 p2 q2 [Hp1| ->]%Hsub [Hp2| ->]%Hsub Hq1 Hq2 E; simpl in *; simplify_eq; try done.
    + by eapply (inv_pid_inj _ Hk).
    + by destruct (Hfr p1 q1).
    + by destruct (Hfr p2 q2).
  - intros p q' [Hp| ->]%Hsub Hq'; [by apply (inv_kthread _ Hk p)|]. simpl in *. by simplify_eq.
  - destruct (inv_heap _ Hk). by split.
Qed.

Lemma add_process_eq k dst : kinv k → dst ≠ 0 → dst ∉ processes k →
  ∃ r k', add_process dst k = Done r k' ∧
    ((r = -1 ∧ k' = k ∧ ∀ j, 0 ≤ j < MAX_PROCESSES → slot_at k j ≠ 0) ∨
     (r = 0 ∧ ∃ i, 0 ≤ i < MAX_PROCESSES ∧ slot_at k i = 0 ∧ k' = added k i dst)).
Proof.
  intros Hk Hd Hnt. unfold add_process. rewrite (proj2 (nz_true _) Hd). simpl.
  destruct (process_table_find_eq k dst Hk Hd) as (j & Ej & [[-> _]|[Hj Es]]).
  2:{ destruct Hnt. rewrite <-Es. apply slot_elem; [by apply kinv_table_ok|done]. }
  erewrite bind_done by exact Ej. simpl.
  destruct (find_free_slot_eq k (kinv_table_ok k Hk)) as (i & Ei & [[-> Hf]|[Hi Hs]]);
    erewrite bind_done by exact Ei.
  - exists (-1), k. split; [done|]. by left.
  - rewrite (proj2 (Z.ltb_ge _ _)) by lia. exists 0, (added k i dst). split; [|right; eauto].
    assert (set_slot i dst k = Done tt (k <| processes := <[Z.to_nat i := dst]> (processes k) |>)) as E
      by (unfold set_slot; by rewrite decide_True).
    by erewrite bind_done by exact E.
Qed.

(** ** [clone_process] *)

(** What the child inherits and what is its own. *)
Record child_of k qs (r : registers) dst q k' : Prop := {
  ch_pid : pid q = next_pid k;
  ch_parent : parent_pid q = pid qs;
  ch_state : state q = TASK_READY;
  ch_kthread : is_kthread q = false;
  ch_context : context q = r <| rax := 0 |> ∧ context_ptr q = dst;
  ch_fpu : sse_state q = sse_state qs;
  ch_copied : priority q = priority qs ∧ entry q = entry qs ∧ stack_top q = stack_top qs ∧
    brk q = brk qs ∧ brk_start q = brk_start qs ∧ tls_base q = tls_base qs ∧
    tls_size q = tls_size qs ∧ blocked_signals q = blocked_signals qs ∧
    signal_handlers q = signal_handlers qs ∧ name q = name qs;
  ch_own : pending_signals q = 0 ∧ inside_signal_handler q = false ∧
    wait_reason q = WAIT_NONE ∧ vfse q = 0;
  ch_files j f : 0 ≤ j < MAX_FILES → files qs !! Z.to_nat j = Some f →
    ∃ g, files q !! Z.to_nat j = Some g ∧ dup_of k k' f g;
  ch_stack : ∃ b, kstack_top q = b + 32768 ∧ 0 < b ∧ kstack_top q < 2 ^ 64 ∧
    live (env k') b ∧ ¬ live (env k) b;
  ch_space : pml4 q ≠ 0 ∧ space (env k') (pml4 q) ∧ ¬ space (env k) (pml4 q);
  ch_memory : is_kthread qs = false → pml4 qs ≠ 0 →
    view (env k') (pml4 q) = view (env k) (pml4 qs) }.

(** One child was added, and memory was taken for it alone. *)
Record forked k qs r dst k' : Prop := {
  fk_inv : kinv k';
  fk_fresh : dst ≠ 0 ∧ procs k !! dst = None;
  fk_table p : in_table k' p ↔ in_table k p ∨ p = dst;
  fk_next : next_pid k' = next_pid k + 1;
  fk_other p : p ≠ dst → procs k' !! p = procs k !! p;
  fk_child : ∃ q, procs k' !! dst = Some q ∧ child_of k qs r dst q k';
  fk_live a : live (env k') a ↔ live (env k) a ∨ has_block k' dst a;
  fk_block a : has_block k' dst a → ¬ live (env k) a;
  fk_space t : space (env k') t ↔ space (env k) t ∨ owns k' (OSpace dst) t;
  fk_view t : space (env k) t → view (env k') t = view (env k) t;
  fk_vfiles a : live (env k) a → vfiles k' !! a = vfiles k !! a;
  fk_count : process_count k' = process_count k + 1;
  fk_rest : k' <| procs := procs k |> <| vfiles := vfiles k |> <| env := env k |>
               <| next_pid := next_pid k |> <| processes := processes k |>
               <| process_count := process_count k |> = k }.

(** Nothing happened, but that a process id may have been used up. *)
Record unforked k k' : Prop := {
  uf_inv : kinv k';
  uf_rest : k' <| vfiles := vfiles k |> <| env := env k |> <| next_pid := next_pid k |> = k;
  uf_next : next_pid k' = next_pid k ∨ next_pid k' = next_pid k + 1;
  uf_live a : live (env k') a ↔ live (env k) a;
  uf_space t : space (env k') t ↔ space (env k) t;
  uf_view t : space (env k) t → view (env k') t = view (env k) t;
  uf_vfiles a : live (env k) a → vfiles k' !! a = vfiles k !! a }.

Lemma abandoned_unforked k s : kinv k → abandoned k s → unforked k s.
Proof.
  intros Hk [Hoff Hh [Hl Hs Hv Hf Hn Hr]]. pose proof (heap_null _ (inv_heap _ Hk)) as H0.
  split; try done.
  - apply (off_table_kinv 0 k); try done; [by intros []|]. intros E.
    by destruct (inv_idle _ Hk) as [? _].
  - assert (procs s = procs k) as E; [|rewrite <-E in Hr; exact Hr].
    apply map_eq. intros p. destruct (decide (p = 0)) as [->|]; [by rewrite H0, (heap_null _ Hh)|by apply Hoff].
Qed.

Lemma preserves_load {B} (f : kst → B) p : preserves f (load p).
Proof. intros s q s'. unfold load. repeat case_match; congruence. Qed.

Lemma preserves_upd {B} (f : kst → B) p g : (∀ s m, f (s <| procs := m |>) = f s) →
  preserves f (upd p g).
Proof.
  intros Hf. apply preserves_bind; [apply preserves_load|]. intros q s [] s'.
  unfold store. repeat case_match; try done. intros [= <-]. apply Hf.
Qed.

Lemma clone_files_next src dst : preserves next_pid (clone_files src dst).
Proof.
  unfold clone_files. apply preserves_bind; [|eauto with frame]. apply preserves_for_up.
  intros i. apply preserves_bind; [apply preserves_load|intros q].
  apply preserves_bind; [apply preserves_from_opt|intros f].
  destruct (negb (nz f)); [apply preserves_ret|].
  apply preserves_bind; [|intros g; apply preserves_bind; [by apply preserves_upd|eauto with frame]].
  unfold dup_file. destruct (f =? 0); [apply preserves_ret|].
  apply preserves_bind; [|intros p].
  - intros s a s'. unfold k_malloc. destruct (kmalloc _ _). by intros [= _ <-].
  - destruct (p =? 0); [apply preserves_ret|]. repeat (apply preserves_bind; [|intros ?]);
      eauto with frame. by apply preserves_modify.
Qed.

Section Fork.
Context (k : kst) (src : Z) (qs : process) (r : registers) (dst : Z).
Context (Hk : kinv k) (Hsrc : procs k !! src = Some qs) (Hpid : 0 < next_pid k).
Context (Hdst : dst ≠ 0) (Hnew : procs k !! dst = None).
Context (Hfree : ∃ i, 0 ≤ i < MAX_PROCESSES ∧ slot_at k i = 0).
Let n := next_pid k.
Let u := pml4 qs.

Definition fork_post (res : Z) (k' : kst) : Prop :=
  (res = 0 ∧ unforked k k') ∨ (res = dst ∧ forked k qs r dst k').

Lemma fork_gives_up s : abandoned k s → fork_post 0 s.
Proof. intros Ha. left. split; [done|]. by apply abandoned_unforked. Qed.

(** The last step: the finished child enters the table. *)
Lemma fork_enters q0 q s kstack : copying k u dst q0 (files qs) MAX_FILES q s →
  next_pid s = n + 1 → (∀ k', env k' = env s → (∀ j f, 0 ≤ j < MAX_FILES → files qs !! Z.to_nat j = Some f →
    ∃ g, files q !! Z.to_nat j = Some g ∧ dup_of k k' f g) → child_of k qs r dst q k') →
  wp (res ← add_process dst;
      if res <? 0 then clone_undo dst kstack ;; mret 0 else mret dst) fork_post s.
Proof.
  intros [[Hoff Hh Hp Hl Hv] Hg Hs Hd _] Hn Hch.
  assert (¬ in_table k dst) as Hnt.
  { intros Hin. destruct (inv_table _ Hk _ Hin) as [? E]. congruence. }
  assert (dst ≠ idle_process k) as Hni.
  { intros ->. destruct (inv_idle_proc _ Hk) as (? & E & _). congruence. }
  pose proof (off_table_kinv _ _ _ Hoff Hk Hh Hnt Hni) as Hks.
  assert (dst ∉ processes s) as Hns by (rewrite (ot_processes _ _ _ Hoff); by intros ?; apply Hnt).
  assert (child_of k qs r dst q s) as Hc by by apply Hch.
  destruct (add_process_eq s dst Hks Hdst Hns) as (res & k' & E & Hres).
  apply wp_bind. eapply wp_of_eq; [exact E|].
  destruct Hres as [(_ & _ & Hfull)|(-> & i & Hi & Hsl & ->)].
  { destruct Hfree as (i & Hi & Hz). destruct (Hfull i Hi). unfold slot_at.
    by rewrite (ot_processes _ _ _ Hoff). }
  apply wp_ret. right. split; [done|]. split.
  - destruct Hc as [Ep Epar Est Ekt _ _ _ _ _ _ _ _].
    apply (added_kinv s i dst q); try done.
    + by rewrite (ot_idle _ _ _ Hoff).
    + congruence.
    + rewrite Ep, Hn. unfold n. lia.
    + intros p q' Hin Hq'. rewrite Ep. rewrite (ot_procs _ _ _ Hoff) in Hq'.
      2:{ intros ->. apply Hns, Hin. }
      assert (in_table k p) as Hin' by (unfold in_table; by rewrite <-(ot_processes _ _ _ Hoff)).
      pose proof (inv_pid _ Hk _ _ Hin' Hq'). unfold n in *. lia.
    + congruence.
  - done.
  - intros p. rewrite added_in_table by (done || by apply kinv_table_ok).
    unfold in_table. by rewrite (ot_processes _ _ _ Hoff).
  - done.
  - intros p Hpd. simpl. by apply Hoff.
  - exists q. split; [done|]. apply Hch; [done|]. intros j f Hj Hf. by apply (Hd j f).
  - intros a. rewrite (has_block_blocks _ _ q) by done. apply (gr_live _ _ _ _ _ Hg).
  - intros a. rewrite (has_block_blocks _ _ q) by done. apply (gr_block _ _ _ _ _ Hg).
  - intros t. rewrite (owns_space _ _ q) by done. apply (gr_space _ _ _ _ _ Hg).
  - apply (gr_view _ _ _ _ _ Hg).
  - apply Hv.
  - simpl. by rewrite (ot_count _ _ _ Hoff).
  - pose proof (gr_rest _ _ _ _ _ Hg) as Hr. rewrite <-(ot_processes _ _ _ Hoff), <-(ot_count _ _ _ Hoff).
    exact Hr.
Qed.

Context (base : process) (Hbase : base = clone_fields n qs zero_process).

Lemma clone_next dst' q s m : cloning k dst' q s → next_pid s = next_pid k →
  next_pid k ≤ m → cloning k dst' q (s <| next_pid := m |>).
Proof. intros [[] [] ???] E Hm. split; try done; by split. Qed.

(** Files, table entry, or the way back. *)
Lemma fork_files_wp q0 s kstack : cloning k dst q0 s → grown k u dst q0 s → next_pid s = n + 1 →
  0 < kstack → kstack + 32768 < 2 ^ 64 → src ≠ dst →
  q0 = base <| pml4 := pml4 q0 |> <| kstack_top := u64 (kstack + 32768) |>
         <| context := r <| rax := 0 |> |> <| context_ptr := dst |>
         <| sse_state := sse_state qs |> →
  pml4 q0 ≠ 0 →
  wp (ok ← clone_files src dst;
      if negb ok then clone_undo dst kstack ;; mret 0 else
      res ← add_process dst;
      if res <? 0 then clone_undo dst kstack ;; mret 0 else mret dst) fork_post s.
Proof.
  intros Hc Hg Hn H1 H2 Hne Eq0 Hpm. pose proof (inv_heap _ Hk) as Hh.
  pose proof (clone_files_wp k u dst q0 qs src s Hh Hsrc Hne Hc Hg) as Hwp.
  apply wp_run in Hwp as (ok & s' & E & q' & Hq'); [|by rewrite Eq0, Hbase].
  apply wp_bind. eapply wp_of_eq; [exact E|]. apply clone_files_next in E. destruct ok; simpl.
  - eapply fork_enters; [exact Hq'|congruence|]. intros k' Ee Hf.
    pose proof Hq' as [Hc' Hg' Es _ _]. rewrite Eq0 in Es.
    assert (item q' (OSpace dst) (pml4 q0)) as Hsp by (rewrite Es, Hbase; done).
    assert (item q' (OStack dst) kstack) as Hst.
    { destruct (stack_base kstack H1 H2) as [Hb Hb0]. rewrite Es, Hbase. simpl. by rewrite Hb. }
    assert (pml4 q' = pml4 q0) as Epm by by rewrite Es.
    assert (kstack_top q' = kstack + 32768) as Eks by (rewrite Es; simpl; apply wrap_small; lia).
    rewrite Hbase in Es. split; [rewrite Es; done..|exact Hf| | |].
    + exists kstack. rewrite Eks, Ee. split_and!; [done|done|done| |].
      * apply (gr_live _ _ _ _ _ Hg'). right. right. by left.
      * apply (gr_block _ _ _ _ _ Hg'). right. by left.
    + rewrite Epm, Ee. split_and!; [done| |by apply (gr_table _ _ _ _ _ Hg')].
      apply (gr_space _ _ _ _ _ Hg'). by right.
    + intros Hu Hu0. rewrite Epm, Ee. apply (gr_own _ _ _ _ _ Hg'); [done|].
      apply (heap_held k Hh (OSpace src) u). by exists qs.
  - destruct Hq' as (Hc' & Hg' & Es). apply wp_bind.
    eapply wp_mono; [apply (clone_undo_wp k u dst q' s' kstack); try done|].
    + rewrite Es, Eq0. done.
    + rewrite Es, Eq0, Hbase. done.
    + by rewrite Es.
    + intros [] s2 Ha. apply wp_ret. by apply fork_gives_up.
Qed.

(** Before the stack is allocated the child owns its object and its address space. *)
Lemma base_blocks t a : blocks dst (base <| pml4 := t |>) a ↔ a = dst.
Proof.
  split; [|by left]. rewrite Hbase. intros [?|[(_ & ? & _)|(i & Hi & Ha)]]; [done|done|].
  change (files _) with (replicate (Z.to_nat MAX_FILES) 0) in Hi.
  by apply lookup_replicate in Hi as [-> _].
Qed.

Lemma clone_resources_wp s : cloning k dst base s → grown k u dst base s → next_pid s = n + 1 →
  src ≠ dst → wp (clone_resources src dst qs r) fork_post s.
Proof.
  intros Hc Hg Hn Hne. pose proof (inv_heap _ Hk) as Hh. unfold clone_resources.
  apply wp_bind. unfold wp at 1, k_clone_pml4.
  destruct (vmm_clone_pml4 (pml4 qs) (env s)) as [t e] eqn:E.
  destruct (cloning_space k u dst base s t e Hc Hg) as [Hc2 Hg2]; [by rewrite Hbase..|exact E|].
  apply wp_bind. eapply wp_upd; [apply Hc|exact (cg_proc _ _ _ _ Hc)|].
  set (q1 := base <| pml4 := t |>) in *. set (s2 := put _ _ _) in *.
  destruct (nz t) eqn:Hnt; simpl.
  2:{ apply nz_false in Hnt. apply wp_bind. eapply wp_of_eq; [done|]. apply wp_ret, fork_gives_up.
      eapply (cloning_free k u dst q1); [done..|by apply base_blocks|].
      intros x (_ & Hx & _). by apply Hx. }
  apply nz_true in Hnt. apply wp_bind.
  eapply wp_mono; [eapply k_malloc_wp; exact Hc2|].
  intros kstack s3 (e3 & Em & -> & Hc3). destruct (nz kstack) eqn:Hks; simpl.
  - apply nz_true in Hks. destruct (kmalloc_range _ _ _ _ Em Hks) as [H1 H2].
    apply wp_bind. eapply wp_upd; [apply (cg_heap _ _ _ _ Hc3)|exact (cg_proc _ _ _ _ Hc3)|].
    destruct (cloning_stack k u dst q1 (q1 <| kstack_top := u64 (kstack + 32768) |>
      <| context := r <| rax := 0 |> |> <| context_ptr := dst |> <| sse_state := sse_state qs |>)
      s2 kstack e3) as [Hc4 Hg4]; try done; try (unfold q1; by rewrite Hbase).
    eapply fork_files_wp; [exact Hc4|exact Hg4|done..].
  - apply nz_false in Hks as ->. pose proof (grown_malloc_null _ _ _ _ _ _ _ Hg2 Em) as Hg3.
    apply wp_bind, wp_modify, wp_bind. eapply wp_of_eq; [done|]. apply wp_bind.
    eapply wp_of_eq; [done|]. apply wp_ret, fork_gives_up.
    change (abandoned k (freed (dropped (s2 <| env := e3 |>) t) dst)).
    pose proof Hc3 as [Hoff3 Hh3 Hp3 _ _].
    destruct (drop_last dst q1 _ Hh3 Hp3) as (Hh4 & Hoff4 & Hrel); [unfold q1; by rewrite Hbase|done|].
    split; [|done|].
    + assert (off_table dst k (dropped (s2 <| env := e3 |>) t)) as Hd.
      { etrans; [exact Hoff3|]. split; try done. intros p Hp. pose proof (ot_procs _ _ _ Hoff4 p Hp) as E4. simpl in E4 |- *.
        by rewrite lookup_delete_ne in E4 by done. }
      by apply off_table_free.
    + apply (grown_restored k u dst q1 (s2 <| env := e3 |>)); [done..|].
      eapply releases_iff; [exact Hrel| |done]. intros a. symmetry. apply base_blocks.
Qed.
End Fork.

Lemma clone_process_post k src qs r : kinv k → in_table k src →
  procs k !! src = Some qs → next_pid k < 2 ^ 64 - 1 →
  ∃ res k', clone_process src (Some r) k = Done res k' ∧
    ((res = 0 ∧ unforked k k') ∨ forked k qs r res k').
Proof.
  intros Hk Hin Hsrc Hmax. pose proof (inv_heap _ Hk) as Hh.
  pose proof (inv_pid _ Hk _ _ Hin Hsrc) as Hpid.
  assert (abandoned k k) as Hab by (split; [done|done|apply restored_refl]).
  assert (wp (clone_process src (Some r)) (λ res k',
    (res = 0 ∧ unforked k k') ∨ forked k qs r res k') k) as Hwp; [|by apply wp_run in Hwp].
  unfold clone_process. rewrite (proj2 (nz_true _) (proj2 Hin)). simpl.
  apply wp_bind. eapply wp_load; [apply Hh|done|].
  case_bool_decide; [apply wp_ret; left; split; [done|by apply abandoned_unforked]|].
  destruct (find_free_slot_eq k (kinv_table_ok k Hk)) as (i & Ei & Hi).
  apply wp_bind. eapply wp_of_eq; [exact Ei|].
  destruct Hi as [[-> _]|[Hi Hz]]; [apply wp_ret; left; split; [done|by apply abandoned_unforked]|].
  rewrite (proj2 (Z.ltb_ge _ _)) by lia. apply wp_bind.
  eapply wp_mono; [by apply kzalloc_process_wp|].
  intros dst s (e' & Em & [(-> & -> & Hoff & Hs)|(Hnz & -> & Hnew & _ & Hc)]).
  { apply wp_ret. left. split; [done|]. apply abandoned_unforked; [done|].
    split; [done|done|]. by eapply restored_malloc_null. }
  pose proof (grown_start k (pml4 qs) dst e' Em Hnz) as Hg. set (s := k <| env := _ |> <| procs := _ |>) in *.
  rewrite (proj2 (nz_true _) Hnz). simpl. apply wp_bind, wp_gets.
  rewrite (wrap_small 64) by (simpl; lia).
  apply wp_bind, wp_modify. simpl next_pid. set (s1 := s <| next_pid := next_pid k + 1 |>).
  assert (cloning k dst zero_process s1) as Hc1 by (apply clone_next; [done..|lia]).
  assert (src ≠ dst) as Hne by congruence.
  apply wp_bind. eapply wp_load; [apply (cg_heap _ _ _ _ Hc1)|by rewrite (ot_procs _ _ _ (cg_off _ _ _ _ Hc1))|].
  apply wp_bind. eapply wp_upd; [apply (cg_heap _ _ _ _ Hc1)|exact (cg_proc _ _ _ _ Hc1)|].
  eapply wp_mono; [eapply (clone_resources_wp k src qs r dst); try done|].
  - lia.
  - by exists i.
  - apply (cloning_put k dst zero_process); [exact Hc1|reflexivity..|]. intros _.
    pose proof (heap_signals _ Hh _ _ Hsrc) as []. by split.
  - apply (grown_put k _ dst zero_process _ s1); try done.
    + destruct Hg. split; try done. by right.
    + apply Hg.
  - intros res k' [?|[-> ?]]; [by left|by right].
Qed.

End Clone.
