(* ===== verification/Signal.v ===== *)
(** * Signals and the interrupt path

    [kernel/signal.c], [sys_sigreturn] of [arch/x86/syscall.c], and the timer
    and yield branches of [k_exception_handler] in [arch/x86/idt.c], which call
    the scheduler and then deliver signals to the process that is resumed. *)

From S2P Require Import Prelude Proc Sched SchedInv SchedSpec KInv Exit Wait.

Section Signal.
Context {KE : KEnv}.
Implicit Types (k s : kst) (p : Z) (q : process) (r : registers).

(** ** Raising *)

Definition kernel_signal_raise (proc signum : Z) : M kst unit :=
  if negb (nz proc) || (signum <=? 0) || (64 <=? signum) then mret tt else
  upd proc (λ q, q <| pending_signals := Z.lor (pending_signals q) (Z.shiftl 1 signum) |>) ;;
  q ← load proc;
  if bool_decide (state q = TASK_WAITING) || bool_decide (state q = TASK_SLEEPING)
  then upd proc (λ q, q <| state := TASK_READY |>)
  else mret tt.

(** ** Delivery *)

(** [regs] as it is left for the caller, or the frame [do_exit] resumes, in which
    case the caller never continues. *)
Inductive sig_result := SigReturn (r : registers) | SigExit (fr : frame).

(** The loop over [1 .. 63]. *)
Definition first_signal (actionable : Z) : Z :=
  default 0 (first_some 63 1 (λ i, if Z.testbit actionable i then Some i else None)).

Definition signal_check_and_deliver (r : registers) : M kst sig_result :=
  cur ← gets current_process;
  if negb (nz cur) then mret (SigReturn r) else
  q ← load cur;
  if inside_signal_handler q then mret (SigReturn r) else
  let actionable := Z.land (pending_signals q) (Z.lnot (blocked_signals q)) in
  if negb (nz actionable) then mret (SigReturn r) else
  let signum := first_signal actionable in
  upd cur (λ q, q <| pending_signals :=
                      Z.land (pending_signals q) (Z.lnot (Z.shiftl 1 signum)) |>) ;;
  handler ← from_opt (signal_handlers q !! Z.to_nat signum);
  if handler =? 0 then
    if (signum =? SIGINT) || (signum =? SIGKILL) || (signum =? SIGTERM) then
      fr ← do_exit signum; mret (SigExit fr)
    else mret (SigReturn r)
  else
  upd cur (λ q, q <| inside_signal_handler := true |> <| saved_user_context := r |>) ;;
  mret (SigReturn (r <| rip := handler |> <| rdi := signum |> <| rax := 0 |>)).

(** [sys_sigreturn(regs)]: the new registers and the value stored in [rax]. *)
Definition sys_sigreturn (r : registers) : M kst (registers * Z) :=
  cur ← gets current_process;
  if negb (nz cur) then mret (r, u64 (-1)) else
  q ← load cur;
  if negb (inside_signal_handler q) then mret (r, u64 (-1)) else
  upd cur (λ q, q <| inside_signal_handler := false |>) ;;
  mret (saved_user_context q, rax (saved_user_context q)).

(** [syscall_handler], [case 15]. *)
Definition syscall_sigreturn (r : registers) : M kst registers :=
  '(r', v) ← sys_sigreturn r;
  mret (r' <| rax := v |>).

(** ** The interrupt handler

    [regs] points to the interrupted frame or to the context of the process that
    was selected; its contents are read and, after delivery, written back. *)
Definition frame_regs (r : registers) (fr : frame) : M kst registers :=
  match fr with
  | SameFrame => mret r
  | ContextOf p => q ← load p; mret (context q)
  | NullFrame => panic
  end.

Definition set_frame_regs (fr : frame) (r' : registers) : M kst unit :=
  match fr with
  | ContextOf p => upd p (λ q, q <| context := r' |>)
  | _ => mret tt
  end.

(** How the handler ends: it returns to [fr], which holds [r], or [do_exit] has
    left it for [fr] and the rest of the handler is never executed. *)
Inductive irq_result := IrqReturn (fr : frame) (r : registers) | IrqLeft (fr : frame).

Definition resume_with_signals (r : registers) (fr : frame) : M kst irq_result :=
  r0 ← frame_regs r fr;
  if Z.land (cs r0) 3 =? 3 then
    res ← signal_check_and_deliver r0;
    match res with
    | SigReturn r1 => set_frame_regs fr r1 ;; mret (IrqReturn fr r1)
    | SigExit fr' => mret (IrqLeft fr')
    end
  else mret (IrqReturn fr r0).

(** [int_no == LAPIC_TIMER_VECTOR]: the result and whether the last statement of
    the branch, [lapic_eoi()], was reached. *)
Definition timer_interrupt (r : registers) : M kst (irq_result * bool) :=
  modify (λ k, k <| timer_ticks := u64 (timer_ticks k + 1) |>) ;;
  fr ← scheduler (Some r);
  res ← resume_with_signals r fr;
  mret (res, match res with IrqReturn _ _ => true | IrqLeft _ => false end).

(** [int_no == 0x30], [kthread_yield]. *)
Definition yield_interrupt (r : registers) : M kst irq_result :=
  fr ← scheduler (Some r);
  resume_with_signals r fr.

(** The keyboard branch: Ctrl+C raises [SIGINT] in the current process, unless
    it is the first one. *)
Definition keyboard_sigint : M kst unit :=
  cur ← gets current_process;
  if negb (nz cur) then mret tt else
  q ← load cur;
  if 1 <? pid q then kernel_signal_raise cur SIGINT else mret tt.
End Signal.

Section SignalProps.
Context {KE : KEnv} {KO : KEnvOk}.
Implicit Types (k s : kst) (p : Z) (q : process) (r : registers).
#[local] Opaque pick highest.

(** ** Which signal is delivered *)

Definition actionable q : Z := Z.land (pending_signals q) (Z.lnot (blocked_signals q)).

Lemma actionable_bit q i : 0 ≤ i → Z.testbit (actionable q) i =
  Z.testbit (pending_signals q) i && negb (Z.testbit (blocked_signals q) i).
Proof. intros Hi. unfold actionable. by rewrite Z.land_spec, Z.lnot_spec. Qed.

(** The lowest pending signal that is not blocked. *)
Lemma first_signal_spec a i : 1 ≤ i ≤ 63 → Z.testbit a i = true →
  1 ≤ first_signal a ≤ i ∧ Z.testbit a (first_signal a) = true ∧
  ∀ j, 1 ≤ j < first_signal a → Z.testbit a j = false.
Proof.
  intros Hi Ha. unfold first_signal. destruct (first_some _ _ _) as [n|] eqn:E; simpl.
  - apply first_some_Some in E as (m & Hm & Hn & Hlt).
    destruct (Z.testbit a m) eqn:Em; [|done]. injection Hn as <-.
    assert (m ≤ i) as Hmi.
    { destruct (Z.le_gt_cases m i); [done|]. specialize (Hlt i ltac:(lia)). rewrite Ha in Hlt. done. }
    split_and!; [lia|done|done|]. intros j Hj. specialize (Hlt j Hj). by destruct (Z.testbit a j).
  - rewrite first_some_None in E. specialize (E i ltac:(lia)). by rewrite Ha in E.
Qed.

(** ** Raising a signal *)

Definition raised q (signum : Z) : process :=
  (q <| pending_signals := Z.lor (pending_signals q) (Z.shiftl 1 signum) |>)
  <| state := if bool_decide (state q = TASK_WAITING) || bool_decide (state q = TASK_SLEEPING)
              then TASK_READY else state q |>.

Lemma put_put k p q q' : put (put k p q) p q' = put k p q'.
Proof.
  unfold put. transitivity (k <| procs := <[p := q']> (<[p := q]> (procs k)) |>); [done|].
  apply set_procs_eq. intros i. by rewrite insert_insert_eq.
Qed.

Lemma kernel_signal_raise_eq k p q signum : procs k !! 0 = None → procs k !! p = Some q →
  0 < signum < 64 → kernel_signal_raise p signum k = Done tt (put k p (raised q signum)).
Proof.
  intros H0 Hq Hs. pose proof (heap_nonnull _ _ _ H0 Hq) as Hp. unfold kernel_signal_raise.
  rewrite (proj2 (nz_true _) Hp), (proj2 (Z.leb_gt _ _)), (proj2 (Z.leb_gt _ _)) by lia. simpl.
  erewrite bind_done by by eapply upd_eq.
  erewrite bind_done by (apply load_eq; [done|]; simpl; apply lookup_insert_eq).
  unfold raised. simpl. destruct (_ || _).
  - erewrite upd_eq; [|done|simpl; apply lookup_insert_eq]. f_equal. apply put_put.
  - by destruct q.
Qed.

Lemma raised_signals_ok q n : signals_ok q → 0 < n < 64 → signals_ok (raised q n).
Proof.
  intros [Hr Hz Hl] Hn. split; [simpl| |done].
  - split; [apply Z.lor_nonneg; split; [lia|by apply Z.shiftl_nonneg]|].
    apply Z.log2_lt_cancel. rewrite Z.log2_pow2, Z.log2_lor by (try lia; by apply Z.shiftl_nonneg).
    apply Z.max_lub_lt.
    + destruct (decide (pending_signals q = 0)) as [->|]; [done|]. apply Z.log2_lt_pow2; lia.
    + rewrite Z.log2_shiftl by lia. simpl. lia.
  - change (Z.testbit (Z.lor (pending_signals q) (Z.shiftl 1 n)) 0 = false).
    rewrite Z.lor_spec, Z.shiftl_spec, Hz by done. by rewrite Z.testbit_neg_r by lia.
Qed.

Lemma raised_same p q n : signals_ok q → 0 < n < 64 → pid q ≠ 0 → same_proc p q (raised q n).
Proof. intros Hs Hn Hp. split; try done. intros _. by apply raised_signals_ok. Qed.

Lemma kernel_signal_raise_post k p q n : kinv k → in_table k p → procs k !! p = Some q →
  0 < n < 64 →
  ∃ k', kernel_signal_raise p n k = Done tt k' ∧ kinv k' ∧ k' = put k p (raised q n) ∧
    (∀ i, 0 ≤ i → Z.testbit (pending_signals (raised q n)) i =
                  (i =? n) || Z.testbit (pending_signals q) i) ∧
    state (raised q n) ≠ TASK_WAITING ∧ state (raised q n) ≠ TASK_SLEEPING.
Proof.
  intros Hk Hin Hq Hn. pose proof (inv_pid _ Hk _ _ Hin Hq) as Hpid.
  exists (put k p (raised q n)). split_and!.
  - apply kernel_signal_raise_eq; [apply Hk|done..].
  - eapply kinv_put; [done|done| |].
    + apply raised_same; [by eapply (heap_signals _ (inv_heap _ Hk))|done|lia].
    + unfold raised. simpl. by repeat case_bool_decide.
  - done.
  - intros i Hi. simpl. rewrite Z.lor_spec, Z.shiftl_spec by done. rewrite orb_comm. f_equal.
    destruct (Z.eqb_spec i n) as [->|]; [by rewrite Z.sub_diag|].
    destruct (Z.lt_trichotomy i n) as [?|[?|?]]; [by rewrite Z.testbit_neg_r by lia|lia|].
    apply Z.bits_above_log2; simpl; lia.
  - unfold raised. simpl. by repeat case_bool_decide.
  - unfold raised. simpl. by repeat case_bool_decide.
Qed.

(** Raising signal [n] in [1, 63] makes exactly that signal pending, wakes a
    process that waits or sleeps, changes nothing else, and keeps the
    invariant. *)
Theorem kernel_signal_raise_correct k p q n : kinv k → in_table k p → procs k !! p = Some q →
  0 < n < 64 →
  ∃ k', kernel_signal_raise p n k = Done tt k' ∧ kinv k' ∧ k' = put k p (raised q n) ∧
    (∀ i, 0 ≤ i → Z.testbit (pending_signals (raised q n)) i =
                  (i =? n) || Z.testbit (pending_signals q) i) ∧
    state (raised q n) ≠ TASK_WAITING ∧ state (raised q n) ≠ TASK_SLEEPING.
Proof. apply kernel_signal_raise_post. Qed.

(** ** Delivering a signal *)

Definition fatal (n : Z) : bool := (n =? SIGINT) || (n =? SIGKILL) || (n =? SIGTERM).

Definition taken q (n : Z) : process :=
  q <| pending_signals := Z.land (pending_signals q) (Z.lnot (Z.shiftl 1 n)) |>.

(** [n] is the signal to deliver: pending, not blocked, and the lowest such. *)
Record deliverable q (n : Z) : Prop := {
  dl_range : 1 ≤ n ≤ 63;
  dl_pending : Z.testbit (pending_signals q) n = true;
  dl_unblocked : Z.testbit (blocked_signals q) n = false;
  dl_lowest j : 1 ≤ j < n → Z.testbit (pending_signals q) j = true →
    Z.testbit (blocked_signals q) j = true }.

Lemma first_signal_deliverable q : signals_ok q → actionable q ≠ 0 →
  deliverable q (first_signal (actionable q)).
Proof.
  intros [Hr Hz _] Ha.
  assert (∃ i, 1 ≤ i ≤ 63 ∧ Z.testbit (actionable q) i = true) as (i & Hi & Hb).
  { assert (0 < actionable q) as Hpos.
    { assert (0 ≤ actionable q); [|lia]. unfold actionable. apply Z.land_nonneg. lia. }
    pose proof (Z.bit_log2 _ Hpos) as Hbit. exists (Z.log2 (actionable q)).
    pose proof (Z.log2_nonneg (actionable q)) as Hn. split; [|done].
    rewrite actionable_bit in Hbit by done. apply andb_true_iff in Hbit as [Hbit _].
    split.
    - destruct (decide (Z.log2 (actionable q) = 0)) as [E|]; [rewrite E in Hbit; congruence|lia].
    - destruct (Z.le_gt_cases (Z.log2 (actionable q)) 63) as [|Hgt]; [done|].
      rewrite (Z.bits_above_log2 (pending_signals q)) in Hbit; [done|lia|].
      destruct (decide (pending_signals q = 0)) as [E|]; [rewrite E; simpl; lia|].
      enough (Z.log2 (pending_signals q) < 64) by lia. apply Z.log2_lt_pow2; lia. }
  destruct (first_signal_spec _ _ Hi Hb) as (Hn & Hbn & Hlow).
  rewrite actionable_bit, andb_true_iff, negb_true_iff in Hbn by lia. destruct Hbn as [Hp Hbl].
  split; [lia|done|done|]. intros j Hj Hpj. specialize (Hlow j Hj).
  rewrite actionable_bit, Hpj in Hlow by lia. by apply negb_false_iff in Hlow.
Qed.

(** The outcomes of [signal_check_and_deliver]. *)
Inductive deliver_post k q r : sig_result → kst → Prop :=
| DeliverNothing : inside_signal_handler q = true ∨ actionable q = 0 →
    deliver_post k q r (SigReturn r) k
| DeliverIgnored n : deliverable q n → signal_handlers q !! Z.to_nat n = Some 0 →
    fatal n = false →
    deliver_post k q r (SigReturn r) (put k (current_process k) (taken q n))
| DeliverExit n fr k' : deliverable q n → signal_handlers q !! Z.to_nat n = Some 0 →
    fatal n = true →
    exit_post (put k (current_process k) (taken q n)) n (taken q n) fr k' →
    deliver_post k q r (SigExit fr) k'
| DeliverHandler n h : deliverable q n → signal_handlers q !! Z.to_nat n = Some h → h ≠ 0 →
    deliver_post k q r (SigReturn (r <| rip := h |> <| rdi := n |> <| rax := 0 |>))
      (put k (current_process k)
        ((taken q n) <| inside_signal_handler := true |> <| saved_user_context := r |>)).

Lemma land_range a b : 0 ≤ a < 2 ^ 64 → 0 ≤ Z.land a b < 2 ^ 64.
Proof.
  intros Ha. assert (Z.land a b = Z.land a b `mod` 2 ^ 64) as ->; [|by apply Z.mod_pos_bound].
  rewrite <-Z.land_ones by done. rewrite <-Z.land_assoc, (Z.land_comm b), Z.land_assoc.
  by rewrite (Z.land_ones a), Z.mod_small.
Qed.

Lemma taken_same p q n : same_proc p q (taken q n).
Proof.
  split; try done.
  - intros [Hr Hz Hl]. split; [by apply land_range| |done]. unfold taken.
    change (Z.testbit (Z.land (pending_signals q) (Z.lnot (Z.shiftl 1 n))) 0 = false).
    by rewrite Z.land_spec, Hz.
  - intros _ E. unfold taken. simpl. by rewrite E.
Qed.

Lemma kinv_taken k p q n : kinv k → procs k !! p = Some q → kinv (put k p (taken q n)).
Proof. intros Hk Hq. eapply kinv_put; [done|done|apply taken_same|done]. Qed.

Lemma signal_deliver_post k q r : kinv k → let cur := current_process k in
  cur ≠ 0 → cur ≠ idle_process k → procs k !! cur = Some q →
  ∃ res k', signal_check_and_deliver r k = Done res k' ∧ deliver_post k q r res k'.
Proof.
  intros Hk cur Hnz Hni Hq. pose proof (heap_signals _ (inv_heap _ Hk) _ _ Hq) as Hok.
  unfold signal_check_and_deliver.
  erewrite bind_done by done. fold cur. rewrite (proj2 (nz_true _) Hnz). simpl.
  erewrite bind_done by by apply load_eq.
  destruct (inside_signal_handler q) eqn:Ein.
  { do 2 eexists. split; [done|]. apply DeliverNothing. by left. }
  fold (actionable q). destruct (nz (actionable q)) eqn:Ea; simpl.
  2:{ apply nz_false in Ea. do 2 eexists. split; [done|]. apply DeliverNothing. by right. }
  apply nz_true in Ea. pose proof (first_signal_deliverable q Hok Ea) as Hd.
  set (n := first_signal (actionable q)) in *. pose proof (dl_range _ _ Hd) as Hn.
  erewrite bind_done by by eapply upd_eq. fold (taken q n). fold (put k cur (taken q n)).
  destruct (lookup_lt_is_Some_2 (signal_handlers q) (Z.to_nat n)) as [h Hh].
  { rewrite (so_handlers _ _ Hok). lia. }
  erewrite bind_done by (unfold from_opt; by rewrite Hh).
  assert (procs (put k cur (taken q n)) !! cur = Some (taken q n)) as Hq1
    by by rewrite lookup_put, decide_True.
  destruct (Z.eqb_spec h 0) as [->|Hh0].
  - fold (fatal n). destruct (fatal n) eqn:Ef.
    + destruct (do_exit_post (put k cur (taken q n)) n (taken q n)) as (fr & k' & E & HP);
        [by apply kinv_taken|done..|].
      erewrite bind_done by exact E. do 2 eexists. split; [done|]. by eapply DeliverExit.
    + do 2 eexists. split; [done|]. by eapply DeliverIgnored.
  - erewrite bind_done by (eapply upd_eq; [done|exact Hq1]).
    eexists _, (put k cur
      ((taken q n) <| inside_signal_handler := true |> <| saved_user_context := r |>)).
    split; [by rewrite <-(put_put k cur (taken q n))|]. by eapply DeliverHandler.
Qed.

(** C8: [signal_check_and_deliver] takes the lowest pending signal that is not
    blocked, and only when no handler is running.  With a handler the process is
    resumed there with the signal number as argument and its registers saved;
    without one, SIGINT, SIGKILL and SIGTERM end the process and any other
    signal is dropped. *)
Theorem signal_delivery_correct k q r : kinv k → let cur := current_process k in
  cur ≠ 0 → cur ≠ idle_process k → procs k !! cur = Some q →
  ∃ res k', signal_check_and_deliver r k = Done res k' ∧ deliver_post k q r res k'.
Proof. apply signal_deliver_post. Qed.

Lemma sys_sigreturn_eq k q r : procs k !! 0 = None → procs k !! current_process k = Some q →
  inside_signal_handler q = true →
  sys_sigreturn r k = Done (saved_user_context q, rax (saved_user_context q))
    (put k (current_process k) (q <| inside_signal_handler := false |>)).
Proof.
  intros H0 Hq Ein. pose proof (heap_nonnull _ _ _ H0 Hq) as Hp. unfold sys_sigreturn.
  erewrite bind_done by done. rewrite (proj2 (nz_true _) Hp). simpl.
  erewrite bind_done by by apply load_eq. rewrite Ein. simpl.
  by erewrite bind_done by by eapply upd_eq.
Qed.


(** ** The interrupt path *)

Lemma deliver_kinv k q r res k' : kinv k → procs k !! current_process k = Some q →
  deliver_post k q r res k' → kinv k'.
Proof.
  intros Hk Hq HP. destruct HP as [| n |n fr k' _ _ _ HP|n h]; [done|by apply kinv_taken|apply HP|].
  eapply kinv_put; [done|done| |done]. transitivity (taken q n); [apply taken_same|by split].
Qed.

Lemma signal_check_safe k r : kinv k →
  ∃ res k', signal_check_and_deliver r k = Done res k' ∧ kinv k' ∧
    (∀ r', res = SigReturn r' → ∀ p q, procs k !! p = Some q → is_Some (procs k' !! p)).
Proof.
  intros Hk. destruct (decide (current_process k = 0)) as [E0|Hnz].
  { exists (SigReturn r), k. split_and!; [|done|by intros ??? q ->].
    unfold signal_check_and_deliver. erewrite bind_done by done. by rewrite E0. }
  destruct (ok_current _ (kinv_sched_ok k Hk) Hnz) as [q Hq].
  destruct (decide (current_process k = idle_process k)) as [Ei|Hni].
  - exists (SigReturn r), k. split_and!; [|done|by intros ??? q' ->].
    destruct (inv_idle_proc _ Hk) as (qi & Hqi & _ & _ & Hp). rewrite <-Ei in Hqi.
    assert (qi = q) as -> by congruence.
    unfold signal_check_and_deliver. erewrite bind_done by done. rewrite (proj2 (nz_true _) Hnz).
    simpl. erewrite bind_done by by apply load_eq. rewrite Hp. by destruct (inside_signal_handler q).
  - destruct (signal_deliver_post k q r Hk Hnz Hni Hq) as (res & k' & E & HP).
    exists res, k'. split_and!; [done|by eapply deliver_kinv|].
    intros r' -> p q' Hq'. inversion HP; subst; rewrite ?lookup_put; try done.
    + destruct (decide _); [done|by rewrite Hq'].
    + destruct (decide _); [done|by rewrite Hq'].
Qed.

(** The frame [scheduler] returns can be read. *)
Lemma frame_regs_eq k regs fr k' r : kinv k → sched_ends k regs fr k' →
  ∃ r0, frame_regs r fr k' = Done r0 k'.
Proof.
  intros Hk [Hf Hk' Hev _ HP]. pose proof (heap_null _ (inv_heap _ Hk')) as H0.
  assert (∀ p, fr = ContextOf p → is_Some (procs k' !! p)) as Hp.
  { intros p ->. inversion HP as [i q k1 Hsel _ _ _ Hq _ E|k1 _ _ _ _ E|]; subst.
    - unfold resume_frame in E. destruct (_ =? _).
      + unfold frame_of_regs in E. by destruct (is_some regs).
      + injection E as <-. by eexists.
    - rewrite idle_frame_prep in E by done. injection E as <-.
      destruct (inv_idle_proc _ Hk') as (q & Hq & _). rewrite (ev_idle _ _ Hev) in Hq. by eexists. }
  destruct fr as [|p|]; [by eexists| |done].
  destruct (Hp p eq_refl) as [q Hq]. exists (context q). unfold frame_regs.
  by erewrite bind_done by (apply load_eq; [by eapply heap_nonnull|done]).
Qed.

Lemma resume_safe k regs fr k' r : kinv k → sched_ends k regs fr k' →
  ∃ res k2, resume_with_signals r fr k' = Done res k2 ∧ kinv k2.
Proof.
  intros Hk Hend. pose proof (se_inv _ _ _ _ Hend) as Hk'.
  destruct (frame_regs_eq k regs fr k' r Hk Hend) as [r0 Er].
  unfold resume_with_signals. erewrite bind_done by exact Er.
  destruct (_ =? 3); [|by do 2 eexists].
  destruct (signal_check_safe k' r0 Hk') as (res & k1 & E & Hk1 & Hsome).
  erewrite bind_done by exact E. destruct res as [r1|fr1]; [|by do 2 eexists].
  destruct fr as [|p|].
  - erewrite bind_done by done. by do 2 eexists.
  - assert (is_Some (procs k' !! p)) as [q Hq].
    { unfold frame_regs in Er. apply bind_inv in Er as (q & s & Eq & _). unfold load in Eq.
      destruct (p =? 0); [done|]. by destruct (procs k' !! p). }
    destruct (Hsome r1 eq_refl p q Hq) as [q1 Hq1].
    pose proof (heap_null _ (inv_heap _ Hk1)) as H0.
    unfold set_frame_regs. erewrite bind_done by (eapply upd_eq; [by eapply heap_nonnull|done]).
    do 2 eexists. split; [done|]. eapply (kinv_put k1 p q1); [done|done|by split|done].
  - by destruct (se_frame _ _ _ _ Hend).
Qed.

Lemma interrupts_safe k r : kinv k →
  (∃ res k', timer_interrupt r k = Done res k' ∧ kinv k') ∧
  (∃ res k', yield_interrupt r k = Done res k' ∧ kinv k').
Proof.
  intros Hk. split.
  - set (k0 := k <| timer_ticks := u64 (timer_ticks k + 1) |>).
    assert (kinv k0) as Hk0.
    { apply (evolves_kinv k); [by split|done|apply Hk|apply Hk|]. exact (inv_running _ Hk). }
    destruct (kinv_scheduler k0 (Some r) Hk0) as (fr & k1 & E & Hend); [by left|].
    destruct (resume_safe k0 _ fr k1 r Hk0 Hend) as (res & k2 & E2 & Hk2).
    unfold timer_interrupt. erewrite bind_done by done. fold k0.
    erewrite bind_done by exact E. erewrite bind_done by exact E2. by do 2 eexists.
  - destruct (kinv_scheduler k (Some r) Hk) as (fr & k1 & E & Hend); [by left|].
    destruct (resume_safe k _ fr k1 r Hk Hend) as (res & k2 & E2 & Hk2).
    unfold yield_interrupt. erewrite bind_done by exact E. by eauto.
Qed.

(** The timer interrupt and the yield interrupt never fault or panic: a
    process is selected, its signals are handled, and the invariant of the
    process subsystem holds when the handler returns or is left. *)
Theorem interrupt_safe k r : kinv k →
  (∃ res k', timer_interrupt r k = Done res k' ∧ kinv k') ∧
  (∃ res k', yield_interrupt r k = Done res k' ∧ kinv k').
Proof. apply interrupts_safe. Qed.
End SignalProps.
