(* ===== verification/Kthread.v ===== *)
(** * Kernel threads

    [kernel/kthread.c].  [kthread_yield] is the software interrupt 0x30 and is
    [yield_interrupt] of the file Signal; the operations below end just before
    it. *)

From S2P Require Import Prelude Proc Sched SchedInv SchedSpec KInv Exit Wait Clone.

Section Kthread.
Context {KE : KEnv}.
Implicit Types (k s : kst) (p t : Z) (q : process).

(** [strncpy(t->name, name, 31); t->name[31] = 0] for the bytes of a string. *)
Fixpoint c_string (l : list Z) : list Z :=
  match l with
  | [] => []
  | c :: l => if c =? 0 then [] else c :: c_string l
  end.

Definition copy_name (l : list Z) : list Z :=
  let s := take 31 (c_string l) in s ++ replicate (32 - length s) 0.

Definition kthread_context (top : Z) : registers :=
  zero_registers <| rip := kthread_trampoline |> <| rsp := top |> <| cs := 0x08 |>
    <| ss := 0x10 |> <| ds := 0x10 |> <| es := 0x10 |> <| rflags := 0x202 |>.

(** The fields of the new thread [t]. *)
Definition kthread_fields (t kstack n kp fn arg : Z) (nm : list Z) (q : process) : process :=
  let top := Z.land (u64 (kstack + KTHREAD_STACK_SIZE)) (Z.lnot 0xF) in
  q <| kstack_top := top |> <| pid := n |> <| parent_pid := 0 |>
    <| state := TASK_READY |> <| priority := PRIO_NORMAL |> <| pml4 := kp |>
    <| is_kthread := true |> <| name := copy_name nm |> <| entry := fn |>
    <| stack_top := arg |> <| context := kthread_context top |> <| context_ptr := t |>.

Definition kthread_create (fn arg : Z) (nm : list Z) : M kst Z :=
  t ← kzalloc_process;
  if negb (nz t) then mret 0 else
  kstack ← k_malloc KTHREAD_STACK_SIZE;
  if negb (nz kstack) then k_free t ;; mret 0 else
  n ← gets next_pid;
  modify (λ k, k <| next_pid := u64 (n + 1) |>) ;;
  kp ← gets (λ k, vmm_get_kernel_pml4 (env k));
  upd t (kthread_fields t kstack n kp fn arg nm) ;;
  q ← load t;
  modify (λ k, k <| kframes := <[u64 (kstack_top q - sizeof_registers) :=
                                   kthread_context (kstack_top q)]> (kframes k) |>) ;;
  add_process t ;;
  mret t.

(** [kthread_sleep_ms], before the yield; [false] when it returns at once. *)
Definition kthread_sleep_ms (ms : Z) : M kst bool :=
  cur ← gets current_process;
  if negb (nz cur) then mret false else
  q ← load cur;
  if negb (is_kthread q) then mret false else
  now ← gets timer_ticks;
  upd cur (λ q, q <| sleep_deadline := u64 (now + ms) |> <| state := TASK_SLEEPING |>) ;;
  mret true.

Definition kthread_wake (thread : Z) : M kst unit :=
  if negb (nz thread) then mret tt else
  q ← load thread;
  if bool_decide (state q ≠ TASK_SLEEPING) then mret tt else
  upd thread (λ q, q <| sleep_deadline := 0 |> <| state := TASK_READY |>).

(** [kthread_exit], before the yield.  The search for the parent looks at the
    first [process_count] slots. *)
Definition kthread_exit (code : Z) : M kst unit :=
  cur ← gets current_process;
  if negb (nz cur) then mret tt else
  upd cur (λ q, q <| state := TASK_ZOMBIE |> <| exit_code := code |>) ;;
  count ← gets process_count;
  r ← for_up (Z.to_nat count) 0 (λ i,
    p ← slot i;
    if negb (nz p) then mret None else
    q ← load p;
    qc ← load cur;
    if negb (pid q =? parent_pid qc) then mret None else
    (if bool_decide (state q = TASK_WAITING)
     then upd p (λ q, q <| state := TASK_READY |>) else mret tt) ;;
    mret (Some tt));
  mret tt.
End Kthread.

Section KthreadProps.
Context {KE : KEnv} {KO : KEnvOk}.
Implicit Types (k s : kst) (p t : Z) (q : process).
#[local] Opaque pick highest.

Lemma c_string_length l : (length (c_string l) ≤ length l)%nat.
Proof. induction l as [|c l IH]; simpl; [lia|]. destruct (c =? 0); simpl; lia. Qed.

(** The name field keeps its 32 bytes and its terminator. *)
Lemma copy_name_ok l : length (copy_name l) = 32%nat ∧ copy_name l !! 31%nat = Some 0.
Proof.
  unfold copy_name. rewrite length_app, length_replicate, length_take. split; [lia|].
  rewrite lookup_app_r by (rewrite length_take; lia). apply lookup_replicate.
  rewrite length_take. split; [done|lia].
Qed.

(** ** [kthread_create] *)

(** A kernel thread owns no heap object but its own. *)
Lemma cloning_kthread k t q s q' : cloning k t q s → files q' = files q → is_kthread q' = true →
  (signals_ok q → signals_ok q') → cloning k t q' (put s t q').
Proof.
  intros [Hoff Hh Hp Hl Hv] Ef Ekt Es. split; [| | |done|done].
  - etrans; [exact Hoff|apply off_table_put].
  - apply (heap_ok_shrink t s q); try done; [|by rewrite Ef].
    intros o a _. destruct o; simpl; rewrite ?Ef, ?Ekt; try done; by intros [? _].
  - by rewrite lookup_put, decide_True.
Qed.

(** The new thread as the caller sees it. *)
Record kthread_ok k t fn arg nm q : Prop := {
  kt_pid : pid q = next_pid k;
  kt_parent : parent_pid q = 0;
  kt_state : state q = TASK_READY ∧ priority q = PRIO_NORMAL ∧ is_kthread q = true;
  kt_start : rip (context q) = kthread_trampoline ∧ entry q = fn ∧ stack_top q = arg ∧
    context_ptr q = t ∧ rsp (context q) = kstack_top q;
  kt_align : kstack_top q `mod` 16 = 0;
  kt_name : name q = copy_name nm }.

Lemma land_align z : 0 ≤ z → Z.land z (Z.lnot 0xF) `mod` 16 = 0.
Proof.
  intros Hz. change 16 with (2 ^ 4). rewrite <-Z.land_ones by done.
  rewrite <-Z.land_assoc. change (Z.land (Z.lnot 0xF) (Z.ones 4)) with 0. apply Z.land_0_r.
Qed.

Lemma kthread_fields_ok k t kstack kp fn arg nm :
  kthread_ok k t fn arg nm (kthread_fields t kstack (next_pid k) kp fn arg nm zero_process).
Proof.
  split; try done. simpl. apply land_align. by apply wrap_range.
Qed.

(** The outcome of [kthread_create]. *)
Definition kthread_post k fn arg nm t k' : Prop :=
  kinv k' ∧
  ((t = 0 ∧ unforked k k') ∨
   (t ≠ 0 ∧ procs k !! t = None ∧ (∀ p, p ≠ t → procs k' !! p = procs k !! p) ∧
    (∃ q, procs k' !! t = Some q ∧ kthread_ok k t fn arg nm q) ∧
    ((∀ p, in_table k' p ↔ in_table k p ∨ p = t) ∨
     (processes k' = processes k ∧ ∀ j, 0 ≤ j < MAX_PROCESSES → slot_at k j ≠ 0)))).

Lemma kthread_enters k t q s fn arg nm : kinv k → t ≠ 0 → procs k !! t = None →
  0 < next_pid k → cloning k t q s → next_pid s = next_pid k + 1 →
  kthread_ok k t fn arg nm q →
  ∃ r k', add_process t s = Done r k' ∧ kthread_post k fn arg nm t k'.
Proof.
  intros Hk Hnz Hnew Hpos [Hoff Hh Hp _ _] Hn Hok.
  assert (¬ in_table k t) as Hnt.
  { intros Hin. destruct (inv_table _ Hk _ Hin) as [? E]. congruence. }
  assert (t ≠ idle_process k) as Hni.
  { intros ->. destruct (inv_idle_proc _ Hk) as (? & E & _). congruence. }
  pose proof (off_table_kinv _ _ _ Hoff Hk Hh Hnt Hni) as Hks.
  assert (∀ p, in_table s p ↔ in_table k p) as Ht
    by (intros p; unfold in_table; by rewrite (ot_processes _ _ _ Hoff)).
  assert (t ∉ processes s) as Hns by (intros ?; by apply Hnt, Ht).
  destruct (add_process_eq s t Hks Hnz Hns) as (r & k' & E & Hr).
  exists r, k'. split; [done|].
  assert (∀ p, p ≠ t → procs s !! p = procs k !! p) as Hq by apply Hoff.
  destruct Hr as [(_ & -> & Hfull)|(_ & i & Hi & Hsl & ->)].
  - split; [done|]. right. split_and!; [done|done|done|by exists q|]. right.
    split; [apply Hoff|]. intros j Hj. specialize (Hfull j Hj). unfold slot_at in *.
    by rewrite <-(ot_processes _ _ _ Hoff).
  - split.
    + destruct Hok as [Ep Epar (Est & _ & Ekt) _ _ _].
      apply (added_kinv s i t q); try done.
      * by rewrite (ot_idle _ _ _ Hoff).
      * congruence.
      * rewrite Ep, Hn. lia.
      * intros p q' Hin Hq'. rewrite Ep. apply Ht in Hin. rewrite Hq in Hq' by by intros ->.
        pose proof (inv_pid _ Hk _ _ Hin Hq'). lia.
    + right. split_and!; [done|done|done|by exists q|]. left. intros p.
      rewrite added_in_table by (done || by apply kinv_table_ok). by rewrite Ht.
Qed.

Lemma kthread_create_post k fn arg nm : kinv k → 0 < next_pid k < 2 ^ 64 - 1 →
  ∃ t k', kthread_create fn arg nm k = Done t k' ∧ kthread_post k fn arg nm t k'.
Proof.
  intros Hk Hn. pose proof (inv_heap _ Hk) as Hh. pose proof (kzalloc_process_wp k Hh) as Hwp.
  apply wp_run in Hwp as (t & s & Ez & e0 & E0 & Hwp). unfold kthread_create.
  erewrite bind_done by exact Ez.
  destruct Hwp as [(-> & Es & Hoff & Hs)|(Hnz & Es & Hnew & _ & Hc)].
  { assert (unforked k s) as Hu.
    { apply abandoned_unforked; [done|]. split; [done|done|]. rewrite Es. by eapply restored_malloc_null. }
    exists 0, s. split; [done|]. split; [apply Hu|by left]. }
  assert (next_pid s = next_pid k) as En by by rewrite Es.
  pose proof (grown_start k 0 t e0 E0 Hnz) as Hg. rewrite <-Es in Hg.
  rewrite (proj2 (nz_true _) Hnz). simpl.
  pose proof (k_malloc_wp k t zero_process s KTHREAD_STACK_SIZE Hc) as Hm.
  apply wp_run in Hm as (kstack & s1 & Em & e' & E1 & -> & Hc1).
  erewrite bind_done by exact Em. destruct (nz kstack) eqn:Hks; simpl.
  2:{ apply nz_false in Hks as ->.
      assert (unforked k (freed (s <| env := e' |>) t)) as Hu.
      { apply abandoned_unforked; [done|]. apply (cloning_free k 0 t zero_process); try done.
        - by eapply grown_malloc_null.
        - intros a. apply zero_blocks.
        - by intros x (_ & ? & _). }
      eexists 0, _. split; [by erewrite bind_done|]. split; [apply Hu|by left]. }
  erewrite bind_done by done. erewrite bind_done by done. erewrite bind_done by done.
  simpl. rewrite En, wrap_small by lia.
  set (s2 := s <| env := e' |> <| next_pid := next_pid k + 1 |>).
  assert (cloning k t zero_process s2) as Hc2 by (apply clone_next; [done|done|lia]).
  set (q := kthread_fields t kstack (next_pid k) (vmm_get_kernel_pml4 e') fn arg nm zero_process).
  erewrite bind_done by (eapply upd_eq; [done|exact (cg_proc _ _ _ _ Hc2)]).
  erewrite bind_done by (apply load_eq; [done|]; simpl; apply lookup_insert_eq).
  erewrite bind_done by done.
  assert (cloning k t q (put s2 t q)) as Hc3.
  { by apply (cloning_kthread k t zero_process). }
  destruct (kthread_enters k t q ((put s2 t q) <| kframes := <[u64 (kstack_top q - sizeof_registers) :=
    kthread_context (kstack_top q)]> (kframes s2) |>) fn arg nm) as (r & k' & E & HP); try done.
  - lia.
  - destruct Hc3 as [[] [] ???]. split; try done; by split.
  - apply kthread_fields_ok.
  - erewrite bind_done by exact E. by do 2 eexists.
Qed.

(** [kthread_create] never faults and keeps the invariant.  It returns null
    and leaves the processes alone when memory is short.  Otherwise it returns
    a new thread with a fresh pid, ready to start in the trampoline on a
    16-byte aligned stack; the thread is in the table unless every slot was
    taken, in which case the caller still gets it but it can never run. *)
Theorem kthread_create_correct k fn arg nm : kinv k → 0 < next_pid k < 2 ^ 64 - 1 →
  ∃ t k', kthread_create fn arg nm k = Done t k' ∧ kthread_post k fn arg nm t k'.
Proof. apply kthread_create_post. Qed.
End KthreadProps.
