(* ===== verification/System.v ===== *)
(** * The process subsystem as a whole

    Boot ([init_scheduler]), the kernel entries that change processes as one
    transition system, and the theorem that no sequence of them faults or
    panics. *)

From S2P Require Import Prelude Proc Sched SchedInv SchedSpec KInv Exit Wait Clone Signal Kthread.

Section System.
Context {KE : KEnv} {KO : KEnvOk}.
Implicit Types (k s : kst) (p : Z) (q : process) (r : registers).
#[local] Opaque pick highest.

(** ** Boot *)

(** The globals before [init_scheduler]: no process and no open file exists. *)
Definition pristine k : Prop := procs k = ∅ ∧ vfiles k = ∅ ∧ 0 < next_pid k.

Definition idle_context (top : Z) : registers :=
  zero_registers <| es := 0x10 |> <| ds := 0x10 |> <| rip := kernel_idle_loop |>
    <| rsp := top |> <| cs := 0x08 |> <| ss := 0x10 |> <| rflags := 0x202 |>.

(** The empty table with the idle process. *)
Definition booted k idle q e f : kst :=
  k <| processes := replicate (Z.to_nat MAX_PROCESSES) 0 |> <| process_count := 0 |>
    <| current_process_index := -1 |> <| current_process := 0 |> <| init_process := 0 |>
    <| idle_process := idle |> <| rr_cursor := 0 |> <| env := e |> <| fpu := f |>
    <| procs := <[idle := q]> ∅ |>.

Lemma booted_kinv k idle q e f : idle ≠ 0 → vfiles k = ∅ → live e idle →
  is_kthread q = true → context_ptr q = idle → pid q = 0 → pending_signals q = 0 →
  files q = replicate (Z.to_nat MAX_FILES) 0 → signals_ok q → kinv (booted k idle q e f).
Proof.
  intros Hnz Hv Hl Hkt Hc Hp Hs Hf Hsg. set (b := booted k idle q e f).
  assert (processes b = replicate (Z.to_nat MAX_PROCESSES) 0) as Eproc by done.
  assert (∀ p, ¬ in_table b p) as Hnt.
  { intros p [Hin Hne]. rewrite Eproc in Hin. by apply elem_of_replicate in Hin as [-> _]. }
  assert (∀ p q', procs b !! p = Some q' → p = idle ∧ q' = q) as Hlk.
  { intros p q'. simpl. rewrite lookup_insert, lookup_empty. case_decide; naive_solver. }
  assert (∀ o a, owns b o a → o = OProc idle ∧ a = idle) as Hown.
  { intros o a Ho. destruct o as [p|p|p i|p]; simpl in Ho.
    - destruct Ho as [-> [q' Hq']]. by apply Hlk in Hq' as [-> _].
    - destruct Ho as (q' & Hq' & Hk' & _). apply Hlk in Hq' as [_ ->]. congruence.
    - destruct Ho as (q' & Hq' & Ho & Ha). apply Hlk in Hq' as [_ ->].
      rewrite Hf in Ho. by apply lookup_replicate in Ho as [-> _].
    - destruct Ho as (q' & Hq' & Hk' & _). apply Hlk in Hq' as [_ ->]. congruence. }
  split; try done.
  - by intros p Hin%Hnt.
  - intros i j _ _ _ Hne. destruct Hne. unfold slot_at. rewrite Eproc.
    destruct (_ !! _) eqn:E; [|done]. by apply lookup_replicate in E as [-> _].
  - split; [done|]. rewrite Eproc. intros [E _]%elem_of_replicate. by apply Hnz.
  - exists q. simpl. by rewrite lookup_insert_eq.
  - by left.
  - by intros p q' Hin%Hnt.
  - by intros p q' Hin%Hnt.
  - by intros p1 q1 p2 q2 Hin%Hnt.
  - by intros p q' Hin%Hnt.
  - split.
    + simpl. by rewrite lookup_insert_ne.
    + by intros o a [-> ->]%Hown.
    + by intros o o' a [-> _]%Hown [-> _]%Hown.
    + intros p q' [_ ->]%Hlk. by rewrite Hf.
    + by intros p q' [_ ->]%Hlk.
    + by intros p i a [? _]%Hown.
Qed.

Lemma booted_upd k idle q e f g : idle ≠ 0 →
  upd idle g (booted k idle q e f) = Done tt (booted k idle (g q) e f).
Proof.
  intros Hnz. erewrite upd_eq; [|done|simpl; apply lookup_insert_eq].
  apply (f_equal (Done tt)). apply kst_eq; simpl;
    first [apply insert_insert_eq|reflexivity].
Qed.

Lemma booted_malloc k idle q e f n :
  k_malloc n (booted k idle q e f) =
  Done (kmalloc n e).1 (booted k idle q (kmalloc n e).2 f).
Proof. unfold k_malloc. simpl. by destruct (kmalloc n e). Qed.

Lemma booted_fninit k idle q e f :
  modify (λ k, k <| fpu := fninit (fpu k) |>) (booted k idle q e f) =
  Done tt (booted k idle q e (fninit f)).
Proof. apply (f_equal (Done tt)). apply kst_eq; simpl; reflexivity. Qed.

Lemma booted_get_fpu k idle q e f : gets fpu (booted k idle q e f) = Done f (booted k idle q e f).
Proof. done. Qed.

Lemma init_scheduler_post k : pristine k →
  (∃ k', init_scheduler k = Panicked k') ∨
  (∃ k', init_scheduler k = Done tt k' ∧ kinv k' ∧ current_process k' = 0 ∧
     next_pid k' = next_pid k).
Proof.
  intros (Hp & Hv & Hn). unfold init_scheduler. erewrite bind_done by done.
  set (k0 := k <| processes := _ |> <| process_count := _ |> <| current_process_index := _ |>
    <| current_process := _ |> <| init_process := _ |> <| idle_process := _ |> <| rr_cursor := _ |>).
  destruct (kmalloc sizeof_process (env k)) as [idle e] eqn:E1.
  assert (kzalloc_process k0 = if idle =? 0 then Done 0 (k0 <| env := e |>) else
    Done idle (k0 <| env := e |> <| procs := <[idle := zero_process]> (procs k) |>)) as Ek.
  { unfold kzalloc_process. simpl. by rewrite E1. }
  destruct (Z.eqb_spec idle 0) as [->|Hnz]; erewrite bind_done by exact Ek; clear Ek.
  { left. by eexists. }
  destruct (kmalloc_fresh _ _ _ _ E1 Hnz) as [_ Hlv].
  assert (live e idle) as Hli by (apply Hlv; by left).
  erewrite bind_done by done. rewrite (proj2 (nz_true _) Hnz). simpl.
  set (k1 := k0 <| env := _ |> <| procs := _ |> <| idle_process := _ |>).
  assert (k1 = booted k idle zero_process e (fpu k)) as -> by (unfold k1, booted; by rewrite Hp).
  erewrite bind_done by done. erewrite bind_done by by apply booted_upd.
  erewrite bind_done by apply booted_malloc.
  destruct (kmalloc 32768 e) as [kstack e2] eqn:E2. simpl.
  destruct (nz kstack) eqn:Hks; simpl; [|left; by eexists]. apply nz_true in Hks.
  destruct (kmalloc_fresh _ _ _ _ E2 Hks) as [_ Hlv2].
  do 3 erewrite bind_done by by apply booted_upd.
  erewrite bind_done by apply booted_fninit. erewrite bind_done by apply booted_get_fpu. right.
  eexists. split; [by apply booted_upd|]. split; [|by split].
  apply booted_kinv; try done. apply Hlv2. by right.
Qed.

(** [init_scheduler] panics when memory is short and otherwise leaves an
    empty table, no current process and an idle process of its own, in a state
    that satisfies the invariant. *)
Theorem init_scheduler_correct k : pristine k →
  (∃ k', init_scheduler k = Panicked k') ∨
  (∃ k', init_scheduler k = Done tt k' ∧ kinv k' ∧ current_process k' = 0 ∧
     next_pid k' = next_pid k).
Proof. apply init_scheduler_post. Qed.

(** ** Kernel entries *)

Inductive kop :=
| OpTimer (r : registers) | OpYield (r : registers)
| OpFork (r : registers) | OpWait (wpid : Z) | OpExit (code : Z)
| OpKthread (fn arg : Z) (nm : list Z)
| OpSleep (ms : Z) | OpWake (t : Z) | OpKexit (code : Z)
| OpRaise (p n : Z) | OpSigint | OpSigreturn (r : registers).

Definition exec (o : kop) : M kst unit :=
  match o with
  | OpTimer r => timer_interrupt r ;; mret tt
  | OpYield r => yield_interrupt r ;; mret tt
  | OpFork r => cur ← gets current_process; clone_process cur (Some r) ;; mret tt
  | OpWait wpid => do_wait wpid ;; mret tt
  | OpExit code => do_exit code ;; mret tt
  | OpKthread fn arg nm => kthread_create fn arg nm ;; mret tt
  | OpSleep ms => kthread_sleep_ms ms ;; mret tt
  | OpWake t => kthread_wake t
  | OpKexit code => kthread_exit code
  | OpRaise p n => kernel_signal_raise p n
  | OpSigint => keyboard_sigint
  | OpSigreturn r => syscall_sigreturn r ;; mret tt
  end.

(** A process of the table is running. *)
Definition user_runs k : Prop := current_process k ≠ 0 ∧ current_process k ≠ idle_process k.

Definition current_alive k : Prop :=
  ∀ q, procs k !! current_process k = Some q → state q ≠ TASK_ZOMBIE.

(** When an entry can happen: system calls come from a running process, threads
    are woken and signals are raised through valid pointers, and the 64-bit pid
    counter is not exhausted. *)
Definition enabled k (o : kop) : Prop :=
  match o with
  | OpFork _ => user_runs k ∧ next_pid k < 2 ^ 64 - 1
  | OpWait _ => user_runs k ∧ current_alive k
  | OpExit _ => user_runs k
  | OpKthread _ _ _ => 0 < next_pid k < 2 ^ 64 - 1
  | OpWake t => t = 0 ∨ is_Some (procs k !! t)
  | OpRaise p n => p = 0 ∨ in_table k p
  | _ => True
  end.

Lemma user_in_table k : kinv k → user_runs k →
  in_table k (current_process k) ∧ ∃ q, procs k !! current_process k = Some q.
Proof.
  intros Hk [Hnz Hni].
  assert (in_table k (current_process k)) as Hin
    by (destruct (inv_current _ Hk) as [?|[?|?]]; done).
  split; [done|]. by destruct (inv_table _ Hk _ Hin) as [q Hq]; exists q.
Qed.

(** [c] returns in a state that satisfies the invariant. *)
Definition safe k {A} (c : M kst A) : Prop := wp c (λ _ k', kinv k') k.

Lemma safe_seq k {A} (c : M kst A) : safe k c → safe k (c ;; mret tt).
Proof. intros Hc. apply wp_bind. eapply wp_mono; [exact Hc|]. intros. by apply wp_ret. Qed.

Lemma safe_run k {A} (c : M kst A) a k' : c k = Done a k' → kinv k' → safe k c.
Proof. intros E Hk. by eapply wp_of_eq. Qed.

Lemma safe_upd k p q f : kinv k → procs k !! p = Some q → same_proc p q (f q) →
  (state (f q) = TASK_RUNNING → state q = TASK_RUNNING) → safe k (upd p f).
Proof.
  intros Hk Hq Hs Hst. eapply wp_upd; [apply Hk|done|]. by eapply kinv_put.
Qed.

Lemma sleep_safe k ms : kinv k → safe k (kthread_sleep_ms ms).
Proof.
  intros Hk. unfold safe, kthread_sleep_ms. apply wp_bind, wp_gets.
  destruct (nz (current_process k)) eqn:E; simpl; [|by apply wp_ret]. apply nz_true in E.
  destruct (ok_current _ (kinv_sched_ok k Hk) E) as [q Hq].
  apply wp_bind. eapply wp_load; [apply Hk|done|].
  destruct (is_kthread q); simpl; [|by apply wp_ret]. apply wp_bind, wp_gets.
  apply wp_bind. eapply wp_mono; [eapply safe_upd; done|]. intros [] k' Hk'. by apply wp_ret.
Qed.

Lemma wake_safe k t : kinv k → t = 0 ∨ is_Some (procs k !! t) → safe k (kthread_wake t).
Proof.
  intros Hk Ht. unfold safe, kthread_wake.
  destruct (nz t) eqn:E; simpl; [|by apply wp_ret]. apply nz_true in E.
  destruct Ht as [?|[q Hq]]; [done|]. apply wp_bind. eapply wp_load; [apply Hk|done|].
  case_bool_decide; [by apply wp_ret|]. by eapply safe_upd.
Qed.

Lemma raise_safe k p n : kinv k → p = 0 ∨ in_table k p → safe k (kernel_signal_raise p n).
Proof.
  intros Hk Hp. destruct (decide (p ≠ 0 ∧ 0 < n < 64)) as [[Hnz Hn]|Hno].
  - destruct Hp as [?|Hin]; [done|]. destruct (inv_table _ Hk _ Hin) as [q Hq].
    destruct (kernel_signal_raise_post k p q n Hk Hin Hq Hn) as (k' & E & Hk' & _).
    by eapply safe_run.
  - apply (safe_run k _ tt k); [|done]. unfold kernel_signal_raise.
    destruct (negb (nz p) || (n <=? 0) || (64 <=? n)) eqn:E; [done|]. destruct Hno.
    rewrite !orb_false_iff, negb_false_iff, nz_true, !Z.leb_gt in E. lia.
Qed.

Lemma sigint_safe k : kinv k → safe k keyboard_sigint.
Proof.
  intros Hk. unfold safe, keyboard_sigint. apply wp_bind, wp_gets.
  destruct (nz (current_process k)) eqn:E; simpl; [|by apply wp_ret]. apply nz_true in E.
  destruct (ok_current _ (kinv_sched_ok k Hk) E) as [q Hq].
  apply wp_bind. eapply wp_load; [apply Hk|done|].
  destruct (Z.ltb_spec 1 (pid q)); [|by apply wp_ret]. apply raise_safe; [done|]. right.
  apply user_in_table; [done|]. split; [done|]. intros Ei.
  destruct (inv_idle_proc _ Hk) as (qi & Hqi & _ & Hp & _). rewrite <-Ei in Hqi.
  assert (qi = q) as -> by congruence. lia.
Qed.

Lemma sigreturn_safe k r : kinv k → safe k (syscall_sigreturn r).
Proof.
  intros Hk. unfold safe, syscall_sigreturn, sys_sigreturn. apply wp_bind.
  apply (wp_mono _ (λ _ k', kinv k')); [|intros [r' v] k' Hk'; by apply wp_ret]. apply wp_bind, wp_gets.
  destruct (nz (current_process k)) eqn:E; simpl; [|by apply wp_ret]. apply nz_true in E.
  destruct (ok_current _ (kinv_sched_ok k Hk) E) as [q Hq].
  apply wp_bind. eapply wp_load; [apply Hk|done|].
  destruct (inside_signal_handler q); simpl; [|by apply wp_ret]. apply wp_bind.
  eapply wp_mono; [eapply safe_upd; done|]. intros [] k' Hk'. by apply wp_ret.
Qed.

Lemma used_slots_bound k : kinv k → 0 ≤ process_count k ≤ MAX_PROCESSES.
Proof.
  intros Hk. rewrite (inv_count _ Hk). unfold used_slots.
  pose proof (length_filter (λ p, p ≠ 0) (processes k)) as Hl.
  rewrite (inv_length _ Hk) in Hl. unfold MAX_PROCESSES in *. lia.
Qed.

Lemma kexit_safe k code : kinv k → safe k (kthread_exit code).
Proof.
  intros Hk. unfold safe, kthread_exit. apply wp_bind, wp_gets.
  destruct (nz (current_process k)) eqn:E; simpl; [|by apply wp_ret]. apply nz_true in E.
  destruct (ok_current _ (kinv_sched_ok k Hk) E) as [q Hq]. set (cur := current_process k) in *.
  apply wp_bind. eapply wp_upd; [apply Hk|done|]. set (k1 := put k cur _).
  assert (kinv k1) as Hk1 by by eapply kinv_put.
  pose proof (used_slots_bound k1 Hk1) as Hb. apply wp_bind, wp_gets, wp_bind.
  eapply wp_mono; [apply (wp_for_up _ 0 _ (λ _ s, kinv s ∧ is_Some (procs s !! cur)) (λ _ s, kinv s))|].
  - intros i s Hi [Hs [qc Hqc]]. rewrite Z2Nat.id in Hi by lia.
    apply wp_bind, wp_slot; [by apply kinv_table_ok|lia|].
    destruct (nz (slot_at s i)) eqn:En; simpl; [|by apply wp_ret; split; [|exists qc]].
    apply nz_true in En. destruct (slot_proc s (kinv_table_ok s Hs) i ltac:(lia) En) as [p Hp].
    apply wp_bind. eapply wp_load; [apply Hs|done|].
    apply wp_bind. eapply wp_load; [apply Hs|done|].
    destruct (negb _); [by apply wp_ret; split; [|exists qc]|]. apply wp_bind.
    case_bool_decide; [|by repeat apply wp_ret].
    eapply wp_mono; [eapply safe_upd; done|]. intros [] s' Hs'. by apply wp_ret.
  - split; [done|]. unfold k1. by rewrite lookup_put, decide_True.
  - intros [[]|] s Hs; apply wp_ret; [done|apply Hs].
Qed.

Lemma exec_safe k o : kinv k → enabled k o → safe k (exec o).
Proof.
  intros Hk Ho. destruct o as [r|r|r|wpid|code|fn arg nm|ms|t|code|p n| |r]; simpl in Ho |- *.
  - destruct (interrupts_safe k r Hk) as [(res & k' & E & Hk') _].
    eapply safe_seq, safe_run; done.
  - destruct (interrupts_safe k r Hk) as [_ (res & k' & E & Hk')].
    eapply safe_seq, safe_run; done.
  - destruct Ho as [Hu Hn]. destruct (user_in_table k Hk Hu) as (Hin & q & Hq).
    apply wp_bind, wp_gets.
    destruct (clone_process_post k _ q r Hk Hin Hq Hn) as (res & k' & E & HP).
    eapply safe_seq, safe_run; [done|]. destruct HP as [[_ HP]|HP]; apply HP.
  - destruct Ho as [Hu Ha]. destruct (user_in_table k Hk Hu) as (Hin & q & Hq).
    destruct (do_wait_post k q wpid Hk) as (res & k' & E & HP); [apply Hu|apply Hu|done|by apply Ha|].
    eapply safe_seq, safe_run; [done|]. by inversion HP as [i ch k1 ??? []| |]; subst.
  - destruct (user_in_table k Hk Ho) as (Hin & q & Hq).
    destruct (do_exit_post k code q Hk) as (fr & k' & E & HP); [apply Ho|apply Ho|done|].
    eapply safe_seq, safe_run; [done|apply HP].
  - destruct (kthread_create_post k fn arg nm Hk Ho) as (t & k' & E & HP & _).
    eapply safe_seq, safe_run; done.
  - by apply safe_seq, sleep_safe.
  - by apply wake_safe.
  - by apply kexit_safe.
  - by apply raise_safe.
  - by apply sigint_safe.
  - by apply safe_seq, sigreturn_safe.
Qed.

(** ** Every run *)

Definition kstep k k' : Prop := ∃ o, enabled k o ∧ exec o k = Done tt k'.

(** C2: safety of the process subsystem.  Whatever sequence of interrupts, forks,
    waits, exits, thread operations and signals the kernel executes from a state
    that satisfies the invariant, the invariant holds afterwards and the next
    entry does not fault or panic either. *)
Theorem system_safe k k' o : kinv k → rtc kstep k k' → enabled k' o →
  kinv k' ∧ ∃ k2, exec o k' = Done tt k2 ∧ kinv k2.
Proof.
  intros Hk Hr Ho.
  assert (kinv k') as Hk'.
  { clear Ho o. induction Hr as [|k k1 k2 (o & Ho & E) _ IH]; [done|]. apply IH.
    pose proof (exec_safe k o Hk Ho) as Hs. unfold safe, wp in Hs. by rewrite E in Hs. }
  split; [done|]. pose proof (exec_safe k' o Hk' Ho) as Hs.
  apply wp_run in Hs as ([] & k2 & E & Hk2). by exists k2.
Qed.
End System.
