(* ===== verification/Examples.v ===== *)
(** * Runs of the process subsystem

    Concrete states reached from boot with the memory manager of the file Bump,
    and the theorems about processes instantiated at them. *)

From S2P Require Import Prelude Proc Bump Sched SchedInv SchedSpec KInv Exit Wait Clone.
From S2P Require Import Signal Kthread System.

(** ** States *)

Definition user_regs (n : Z) : registers := zero_registers <| rax := n |> <| cs := 0x23 |>.
Definition kernel_regs (n : Z) : registers := zero_registers <| rax := n |> <| cs := 0x08 |>.

(** Boot, then two kernel threads. *)
Definition st0 : kst := run init_scheduler bump_start.
Definition st1 : kst := run (kthread_create 0x2000 7 [97; 98]) st0.
Definition st2 : kst := run (kthread_create 0x3000 8 [99]) st1.
(** The first thread runs, then the second one, then the first again. *)
Definition st3 : kst := run (scheduler (Some (kernel_regs 1))) st2.
Definition st4 : kst := run (scheduler (Some (kernel_regs 2))) st3.
Definition st5 : kst := run (scheduler (Some (kernel_regs 3))) st4.

Lemma run_done {A} (c : M kst A) k k' a : c k = Done a k' → run c k = k'.
Proof. unfold run. by intros ->. Qed.

Lemma st0_kinv : kinv st0.
Proof.
  destruct (init_scheduler_post bump_start) as [[k' E]|(k' & E & Hk & _)].
  - by split.
  - exfalso. revert E. vm_compute. discriminate.
  - unfold st0. by rewrite (run_done _ _ _ _ E).
Qed.

Lemma kthread_run k fn arg nm : kinv k → 0 < next_pid k < 2 ^ 64 - 1 →
  kinv (run (kthread_create fn arg nm) k).
Proof.
  intros Hk Hn. destruct (kthread_create_post k fn arg nm Hk Hn) as (t & k' & E & HP & _).
  by rewrite (run_done _ _ _ _ E).
Qed.

Lemma scheduler_run k r : kinv k → kinv (run (scheduler (Some r)) k).
Proof.
  intros Hk. destruct (kinv_scheduler k (Some r) Hk) as (fr & k' & E & HP); [by left|].
  rewrite (run_done _ _ _ _ E). apply HP.
Qed.

Lemma st1_kinv : kinv st1.
Proof. apply kthread_run; [apply st0_kinv|by vm_compute]. Qed.
Lemma st2_kinv : kinv st2.
Proof. apply kthread_run; [apply st1_kinv|by vm_compute]. Qed.
Lemma st3_kinv : kinv st3.
Proof. apply scheduler_run, st2_kinv. Qed.
Lemma st4_kinv : kinv st4.
Proof. apply scheduler_run, st3_kinv. Qed.
Lemma st5_kinv : kinv st5.
Proof. apply scheduler_run, st4_kinv. Qed.

(** The value a computation returns. *)
Definition result {A} (c : M kst A) (k : kst) : option A :=
  match c k with Done a _ => Some a | _ => None end.

Lemma run_eq {A} (c : M kst A) k a : result c k = Some a → c k = Done a (run c k).
Proof. unfold result, run. destruct (c k); congruence. Qed.

(** The addresses of the idle process and of the two threads. *)
Definition idle_addr : Z := idle_process st0.
Definition thread_a : Z := slot_at st2 0.
Definition thread_b : Z := slot_at st2 1.

Lemma st3_switch : scheduler (Some (kernel_regs 1)) st2 = Done (ContextOf thread_a) st3.
Proof. refine (run_eq _ st2 (ContextOf thread_a) _). by vm_compute. Qed.
Lemma st4_switch : scheduler (Some (kernel_regs 2)) st3 = Done (ContextOf thread_b) st4.
Proof. refine (run_eq _ st3 (ContextOf thread_b) _). by vm_compute. Qed.
Lemma st5_switch : scheduler (Some (kernel_regs 3)) st4 = Done (ContextOf thread_a) st5.
Proof. refine (run_eq _ st4 (ContextOf thread_a) _). by vm_compute. Qed.

(** ** Scheduling *)

Lemma scheduler_correct_witness :
  ∃ fr k', scheduler (Some (kernel_regs 1)) st2 = Done fr k' ∧
    sched_post st2 (Some (kernel_regs 1)) fr k'.
Proof.
  apply scheduler_correct; [apply kinv_sched_ok, st2_kinv|by vm_compute|apply (inv_current _ st2_kinv)].
Defined.

(** The second thread contends at boot and is passed over once. *)
Lemma contends_b : contends st2 (Some (kernel_regs 1)) 1.
Proof.
  apply contends_highest; [apply kinv_sched_ok, st2_kinv|by vm_compute|apply (inv_current _ st2_kinv)
    |done|by vm_compute|by vm_compute].
Qed.

Lemma bounded_waiting_witness : passed_over 1 st2 1 ∧ Z.of_nat 1 < MAX_PROCESSES.
Proof.
  assert (passed_over 1 st2 1) as HP.
  { eapply (PassedOnce 1 st2 (Some (kernel_regs 1)) (ContextOf thread_a) st3 st3 0).
    - exact contends_b.
    - exact st3_switch.
    - by vm_compute.
    - done.
    - apply PassedNone. }
  split; [exact HP|exact (bounded_waiting 1 st2 1 HP)].
Defined.

Lemma switch_roundtrip_witness :
  ContextOf thread_a = ContextOf thread_a ∧ fpu st5 = fpu st3 ∧
  ∃ q, procs st5 !! thread_a = Some q ∧ context q = kernel_regs 2 ∧ state q = TASK_RUNNING.
Proof.
  apply (switch_roundtrip st3 (kernel_regs 2) (ContextOf thread_b) st4 st4 (Some (kernel_regs 3))
           (ContextOf thread_a) st5).
  - apply kinv_sched_ok, st3_kinv.
  - by vm_compute.
  - apply (inv_current _ st3_kinv).
  - by vm_compute.
  - by vm_compute.
  - exact st4_switch.
  - by vm_compute.
  - by vm_compute.
  - apply kinv_sched_ok, st4_kinv.
  - by vm_compute.
  - apply (inv_current _ st4_kinv).
  - apply keeps_saved_refl.
  - by vm_compute.
  - exact st5_switch.
  - by vm_compute.
Defined.

(** A lone thread that goes to sleep with a changed FPU state. *)
Lemma kinv_machine k f n : kinv k → kinv (k <| fpu := f |> <| timer_ticks := n |>).
Proof.
  intros Hk. apply (evolves_kinv k); [by split|done|apply Hk|apply Hk|exact (inv_running _ Hk)].
Qed.

Lemma sleep_run k ms : kinv k → kinv (run (kthread_sleep_ms ms) k).
Proof.
  intros Hk. pose proof (sleep_safe k ms Hk) as Hs. apply wp_run in Hs as (b & k' & E & Hk').
  by rewrite (run_done _ _ _ _ E).
Qed.

Definition lone1 : kst := run (scheduler (Some (kernel_regs 1))) st1.
Definition lone2 : kst := (run (kthread_sleep_ms 5) lone1) <| fpu := [42] |> <| timer_ticks := 0 |>.
Definition lone3 : kst := run (scheduler (Some (kernel_regs 2))) lone2.
Definition lone4 : kst := lone3 <| fpu := [43] |> <| timer_ticks := 5 |>.
Definition lone5 : kst := run (scheduler (Some (kernel_regs 3))) lone4.

Lemma lone2_kinv : kinv lone2.
Proof. apply kinv_machine, sleep_run, scheduler_run, st1_kinv. Qed.
Lemma lone4_kinv : kinv lone4.
Proof. apply kinv_machine, scheduler_run, lone2_kinv. Qed.

Lemma lone3_idle : scheduler (Some (kernel_regs 2)) lone2 = Done (ContextOf idle_addr) lone3.
Proof. refine (run_eq _ lone2 (ContextOf idle_addr) _). by vm_compute. Qed.
Lemma lone5_back : scheduler (Some (kernel_regs 3)) lone4 = Done (ContextOf thread_a) lone5.
Proof. refine (run_eq _ lone4 (ContextOf thread_a) _). by vm_compute. Qed.

Lemma lone_nothing : nothing_runnable (prep lone2 (Some (kernel_regs 2))).
Proof. refine (proj1 (highest_neg (prep lone2 (Some (kernel_regs 2)))) _). by vm_compute. Qed.

Lemma keeps_saved_machine k f n p : keeps_saved k (k <| fpu := f |> <| timer_ticks := n |>) p.
Proof. intros q Hq. by exists q. Qed.

(** The process at [p], for a [p] that is known to be in the heap. *)
Definition proc_at (k : kst) (p : Z) : process := default zero_process (procs k !! p).

Lemma proc_at_eq k p : bool_decide (is_Some (procs k !! p)) = true →
  procs k !! p = Some (proc_at k p).
Proof. intros [q Hq]%bool_decide_eq_true. unfold proc_at. by rewrite Hq. Qed.

Lemma idle_switch_loses_fpu_witness :
  fpu lone2 = [42] ∧ fpu lone5 = sse_state (proc_at lone2 thread_a) ∧
  sse_state (proc_at lone2 thread_a) ≠ [42].
Proof.
  split; [by vm_compute|]. split; [|by vm_compute].
  apply (idle_switch_loses_fpu lone2 (kernel_regs 2) (proc_at lone2 thread_a)
           (ContextOf idle_addr) lone3 lone4 (Some (kernel_regs 3)) (ContextOf thread_a) lone5).
  - apply kinv_sched_ok, lone2_kinv.
  - by vm_compute.
  - apply (inv_current _ lone2_kinv).
  - by vm_compute.
  - by vm_compute.
  - apply (proc_at_eq lone2 (current_process lone2)). by vm_compute.
  - exact lone_nothing.
  - exact lone3_idle.
  - apply kinv_sched_ok, lone4_kinv.
  - by vm_compute.
  - apply (inv_current _ lone4_kinv).
  - apply keeps_saved_machine.
  - by vm_compute.
  - exact lone5_back.
  - by vm_compute.
Defined.

(** ** A process forks, the child exits, the parent reaps it *)

Definition st6 : kst := run (clone_process thread_a (Some (user_regs 57))) st3.
Definition child : Z := slot_at st6 2.
Definition st7 : kst := run (scheduler (Some (kernel_regs 4))) st6.
Definition st8 : kst := run (scheduler (Some (kernel_regs 5))) st7.
Definition st9 : kst := run (do_exit 9) st8.

Lemma clone_run k src q r : kinv k → in_table k src → procs k !! src = Some q →
  next_pid k < 2 ^ 64 - 1 → kinv (run (clone_process src (Some r)) k).
Proof.
  intros Hk Hin Hq Hn. destruct (clone_process_post k src q r Hk Hin Hq Hn) as (res & k' & E & HP).
  rewrite (run_done _ _ _ _ E). destruct HP as [[_ HP]|HP]; apply HP.
Qed.

Lemma exit_run k code q : kinv k → current_process k ≠ 0 → current_process k ≠ idle_process k →
  procs k !! current_process k = Some q → kinv (run (do_exit code) k).
Proof.
  intros Hk Hnz Hni Hq. destruct (do_exit_post k code q Hk Hnz Hni Hq) as (fr & k' & E & HP).
  rewrite (run_done _ _ _ _ E). apply HP.
Qed.

(** Membership in the table, by computation. *)
Lemma in_table_eq k p : bool_decide (p ∈ processes k) && nz p = true → in_table k p.
Proof. rewrite andb_true_iff, bool_decide_eq_true, nz_true. done. Qed.

Lemma st6_kinv : kinv st6.
Proof.
  apply (clone_run st3 thread_a (proc_at st3 thread_a)); [apply st3_kinv| | |by vm_compute].
  - apply in_table_eq. by vm_compute.
  - apply proc_at_eq. by vm_compute.
Qed.
Lemma st8_kinv : kinv st8.
Proof. apply scheduler_run, scheduler_run, st6_kinv. Qed.
Lemma st8_child : procs st8 !! current_process st8 = Some (proc_at st8 child).
Proof. apply (proc_at_eq st8 child). by vm_compute. Qed.
Lemma st9_kinv : kinv st9.
Proof. eapply exit_run; [apply st8_kinv|by vm_compute|by vm_compute|exact st8_child]. Qed.


Lemma do_exit_correct_witness :
  ∃ fr k', do_exit 9 st8 = Done fr k' ∧ exit_post st8 9 (proc_at st8 child) fr k'.
Proof.
  apply (do_exit_correct st8 9 (proc_at st8 child)).
  - apply st8_kinv.
  - by vm_compute.
  - by vm_compute.
  - exact st8_child.
Defined.

Lemma do_wait_correct_witness :
  ∃ r k', do_wait (-1) st9 = Done r k' ∧ wait_post st9 (proc_at st9 thread_a) (-1) r k'.
Proof.
  apply (do_wait_correct st9 (proc_at st9 thread_a) (-1)).
  - apply st9_kinv.
  - by vm_compute.
  - by vm_compute.
  - apply (proc_at_eq st9 thread_a). by vm_compute.
  - by vm_compute.
Defined.

(** The parent gets the child's pid and exit code. *)
Example wait_returns_child : result (do_wait (-1)) st9 = Some (3, Some 9, false).
Proof. by vm_compute. Qed.

(** ** Signals *)

Definition set_handlers (h : list Z) (q : process) : process := q <| signal_handlers := h |>.

(** The child has a handler for SIGINT and the signal is pending. *)
Definition handled : process :=
  set_handlers (<[2%nat := 0x4000]> (replicate 64 0)) (raised (proc_at st8 child) SIGINT).
Definition sig1 : kst := put st8 (current_process st8) handled.
Definition sig2 : kst := run (signal_check_and_deliver (user_regs 1)) sig1.

Lemma child_in_table : in_table st8 (current_process st8).
Proof. apply in_table_eq. by vm_compute. Qed.

Lemma kernel_signal_raise_correct_witness :
  ∃ k', kernel_signal_raise (current_process st8) SIGINT st8 = Done tt k' ∧ kinv k' ∧
    k' = put st8 (current_process st8) (raised (proc_at st8 child) SIGINT) ∧
    (∀ i, 0 ≤ i → Z.testbit (pending_signals (raised (proc_at st8 child) SIGINT)) i =
                  (i =? SIGINT) || Z.testbit (pending_signals (proc_at st8 child)) i) ∧
    state (raised (proc_at st8 child) SIGINT) ≠ TASK_WAITING ∧
    state (raised (proc_at st8 child) SIGINT) ≠ TASK_SLEEPING.
Proof.
  apply (kernel_signal_raise_correct st8 (current_process st8) (proc_at st8 child) SIGINT).
  - apply st8_kinv.
  - apply child_in_table.
  - exact st8_child.
  - done.
Defined.

Lemma sig1_kinv : kinv sig1.
Proof.
  apply (kinv_put st8 _ (proc_at st8 child)); [apply st8_kinv|exact st8_child| |by vm_compute].
  pose proof (heap_signals _ (inv_heap _ st8_kinv) _ _ st8_child) as Hs.
  transitivity (raised (proc_at st8 child) SIGINT).
  - apply raised_same; [done|done|by vm_compute].
  - unfold handled. generalize dependent (proc_at st8 child). intros q [].
    split; try done. intros []. by split.
Qed.

Lemma put_current k q :
  procs (put k (current_process k) q) !! current_process (put k (current_process k) q) = Some q.
Proof. unfold put. simpl. apply lookup_insert_eq. Qed.

Lemma sig1_child : procs sig1 !! current_process sig1 = Some handled.
Proof. apply put_current. Qed.

Lemma sig2_deliver : signal_check_and_deliver (user_regs 1) sig1 =
  Done (SigReturn ((user_regs 0) <| rip := 0x4000 |> <| rdi := 2 |>)) sig2.
Proof. refine (run_eq _ sig1 (SigReturn _) _). by vm_compute. Qed.

Lemma signal_delivery_correct_witness :
  ∃ res k', signal_check_and_deliver (user_regs 1) sig1 = Done res k' ∧
    deliver_post sig1 handled (user_regs 1) res k'.
Proof.
  apply (signal_delivery_correct sig1 handled (user_regs 1)).
  - apply sig1_kinv.
  - by vm_compute.
  - by vm_compute.
  - exact sig1_child.
Defined.


(** ** Interrupts, threads, boot and whole runs *)

Lemma interrupt_safe_witness :
  (∃ res k', timer_interrupt (user_regs 1) sig1 = Done res k' ∧ kinv k') ∧
  (∃ res k', yield_interrupt (user_regs 1) sig1 = Done res k' ∧ kinv k').
Proof. apply (interrupt_safe sig1 (user_regs 1)). apply sig1_kinv. Defined.

Lemma kthread_create_correct_witness :
  ∃ t k', kthread_create 0x2000 7 [97; 98] st0 = Done t k' ∧
    kthread_post st0 0x2000 7 [97; 98] t k'.
Proof. apply (kthread_create_correct st0); [apply st0_kinv|by vm_compute]. Defined.

Lemma init_scheduler_correct_witness :
  (∃ k', init_scheduler bump_start = Panicked k') ∨
  (∃ k', init_scheduler bump_start = Done tt k' ∧ kinv k' ∧ current_process k' = 0 ∧
     next_pid k' = next_pid bump_start).
Proof. apply (init_scheduler_correct bump_start). by split. Defined.

Lemma st8_step : kstep st8 st9.
Proof.
  exists (OpExit 9). split; [split; by vm_compute|]. unfold exec.
  erewrite bind_done; [done|]. refine (run_eq _ st8 (ContextOf thread_a) _). by vm_compute.
Qed.

Lemma current_alive_eq k : state (proc_at k (current_process k)) ≠ TASK_ZOMBIE → current_alive k.
Proof. unfold proc_at. intros Hs q Hq. by rewrite Hq in Hs. Qed.

Lemma system_safe_witness : kinv st9 ∧ ∃ k2, exec (OpWait (-1)) st9 = Done tt k2 ∧ kinv k2.
Proof.
  apply (system_safe st8 st9 (OpWait (-1))).
  - apply st8_kinv.
  - apply rtc_once, st8_step.
  - split; [split; by vm_compute|]. apply current_alive_eq. by vm_compute.
Defined.
