(* ===== verification/Sync.v ===== *)
(** * Spinlocks and the code they protect

    Models [arch/x86/include/sync.h] (the atomic operations) and
    [arch/x86/spinlock.c].  Threads interleave at the granularity of single
    memory accesses.  The code that runs between [spinlock_acquire] and
    [spinlock_release] is a client of the lock ([LockClient]): the lock's
    contract is that a client that runs step by step under the lock refines
    the machine in which each critical section is one indivisible step
    ([lock_refines]).  The semaphore, the reader-writer lock and the mutex are
    the clients, in [Semaphore.v], [Rwlock.v] and [Mutex.v]. *)

From stdpp Require Import relations.
From S2P Require Import Prelude.

(** ** Weighted sums over the threads *)

Section Tally.
Context {P : Type}.
Implicit Types (f g : P → Z) (m : gmap Z P).

Definition tally f m : Z := map_fold (λ _ p acc, f p + acc) 0 m.

Lemma tally_empty f : tally f ∅ = 0.
Proof. apply map_fold_empty. Qed.

Lemma tally_fresh f m i p :
  m !! i = None → tally f (<[i := p]> m) = f p + tally f m.
Proof.
  intros Hi. unfold tally.
  rewrite (map_fold_insert_L (λ _ p acc, f p + acc) 0 i p m); [done| |done].
  intros. lia.
Qed.

Lemma tally_delete f m i p :
  m !! i = Some p → tally f m = f p + tally f (delete i m).
Proof.
  intros Hi. rewrite <-(insert_delete_id m i p Hi) at 1.
  apply tally_fresh, lookup_delete_eq.
Qed.

Lemma tally_insert f m i p p' :
  m !! i = Some p → tally f (<[i := p']> m) = tally f m - f p + f p'.
Proof.
  intros Hi. rewrite (tally_delete f m i p Hi), <-(insert_delete_eq m i).
  rewrite tally_fresh by apply lookup_delete_eq. lia.
Qed.

Lemma tally_nonneg f m : (∀ p, 0 ≤ f p) → 0 ≤ tally f m.
Proof.
  intros Hf. induction m as [|i p m Hi IH] using map_ind.
  - by rewrite tally_empty.
  - rewrite tally_fresh by done. specialize (Hf p). lia.
Qed.

Lemma tally_ge f m i p : (∀ p, 0 ≤ f p) → m !! i = Some p → f p ≤ tally f m.
Proof.
  intros Hf Hi. rewrite (tally_delete f m i p Hi).
  pose proof (tally_nonneg f (delete i m) Hf). lia.
Qed.

Lemma tally_ge2 f m i j p q :
  (∀ p, 0 ≤ f p) → i ≠ j → m !! i = Some p → m !! j = Some q → f p + f q ≤ tally f m.
Proof.
  intros Hf Hij Hi Hj. rewrite (tally_delete f m i p Hi).
  pose proof (tally_ge f (delete i m) j q Hf).
  rewrite lookup_delete_ne in H by done. specialize (H Hj). lia.
Qed.

Lemma tally_zero f m : (∀ i p, m !! i = Some p → f p = 0) → tally f m = 0.
Proof.
  induction m as [|i p m Hi IH] using map_ind; intros Hf.
  - apply tally_empty.
  - rewrite tally_fresh by done. rewrite (Hf i p) by apply lookup_insert_eq.
    rewrite IH; [done|]. intros j q Hj. apply (Hf j).
    rewrite lookup_insert_ne; congruence.
Qed.

Lemma tally_pos f m : 0 < tally f m → ∃ i p, m !! i = Some p ∧ 0 < f p.
Proof.
  induction m as [|i p m Hi IH] using map_ind.
  - rewrite tally_empty. lia.
  - rewrite tally_fresh by done. intros H.
    destruct (decide (0 < f p)) as [Hp|Hp].
    + exists i, p. by rewrite lookup_insert_eq.
    + destruct IH as (j & q & Hj & Hq); [lia|]. exists j, q.
      split; [|done]. rewrite lookup_insert_ne; congruence.
Qed.

Lemma tally_bound f m : (∀ p, f p ≤ 1) → tally f m ≤ Z.of_nat (size m).
Proof.
  intros Hf. induction m as [|i p m Hi IH] using map_ind.
  - by rewrite tally_empty.
  - rewrite tally_fresh, map_size_insert_None by done. specialize (Hf p). lia.
Qed.

Lemma tally_plus f g m : tally (λ p, f p + g p) m = tally f m + tally g m.
Proof.
  induction m as [|i p m Hi IH] using map_ind.
  - by rewrite !tally_empty.
  - rewrite !tally_fresh by done. lia.
Qed.
End Tally.

(** ** Atomic operations on a [uint32_t]

    [atomic_cas v e d] is the value left in memory and the returned flag. *)

Definition atomic_fetch_add (v val : Z) : Z * Z := (u32 (v + val), v).
Definition atomic_add (v val : Z) : Z * Z :=
  let '(v', ret) := atomic_fetch_add v val in (v', u32 (ret + val)).
Definition atomic_fetch_sub (v val : Z) : Z * Z := atomic_fetch_add v (u32 (- val)).
Definition atomic_cas (v expected desired : Z) : Z * bool :=
  if v =? expected then (desired, true) else (v, false).
Definition atomic_store (v val : Z) : Z := val.
Definition atomic_load (v : Z) : Z := v.

Lemma atomic_fetch_sub_val v val : (atomic_fetch_sub v val).1 = u32 (v - val).
Proof.
  unfold atomic_fetch_sub, atomic_fetch_add, wrap. simpl.
  by rewrite Zplus_mod_idemp_r.
Qed.

(** ** [spinlock_t] *)

Record spinlock := mkSpinlock { locked : Z; sl_owner : Z }.
#[global] Instance spinlock_eta : Etable spinlock := λ l,
  mkSpinlock (locked l) (sl_owner l).

Definition spinlock_init : spinlock := mkSpinlock 0 0.
Definition spinlock_try_acquire (pid : Z) (l : spinlock) : spinlock * bool :=
  let '(v, ok) := atomic_cas (locked l) 0 1 in
  if ok then (mkSpinlock v pid, true) else (l <| locked := v |>, false).
Definition spinlock_is_held (l : spinlock) : bool := nz (atomic_load (locked l)).

(** ** Clients of a spinlock

    A client has data [D] that is only touched under the lock and atomic words
    [A] that are touched anywhere.  [C] is the type of program points inside
    the critical section, [O] the type of those outside it.  [lc_body] is one
    memory access of the critical section: it stays inside, or it starts the
    release and continues at a point outside.  [lc_out k] is one step outside:
    it may touch [A] and the interrupt flag, and may start an acquire; [k]
    numbers the choices of the environment (which operation the thread calls
    next, how long it sleeps).
    [lc_irq] says whether the client uses [spinlock_irq_save]/[_restore] or
    plain [spinlock_acquire]/[_release]; [lc_pid] is
    [current_process ? current_process->pid : 0].  In the code [current_process] is
    one global variable; here a thread is one process from its lock to its unlock,
    and its pid does not change. *)

Class LockClient (A D C O : Type) := {
  lc_irq : bool;
  lc_pid : Z → Z;
  lc_body : Z → D → C → D * (C + O);
  lc_out : nat → Z → A * bool → O → option (A * bool * (O + C)) }.

(** Program points of a thread: outside; in [spinlock_irq_save]; in
    [spinlock_acquire] about to try the exchange, spinning on the load, or
    about to record the owner; inside the critical section; in
    [spinlock_release] about to clear the owner or the word; in
    [spinlock_irq_restore]. *)
Inductive lpc (C O : Type) : Type :=
| Outside (o : O)
| IrqSave (c : C)
| AcqCas (c : C)
| AcqSpin (c : C)
| AcqOwner (c : C)
| Inside (c : C)
| RelOwner (o : O)
| RelStore (o : O)
| IrqRestore (o : O).
Arguments Outside {C O} o.
Arguments IrqSave {C O} c.
Arguments AcqCas {C O} c.
Arguments AcqSpin {C O} c.
Arguments AcqOwner {C O} c.
Arguments Inside {C O} c.
Arguments RelOwner {C O} o.
Arguments RelStore {C O} o.
Arguments IrqRestore {C O} o.

(** A thread: where it is, the interrupt flag it runs with, and the [flags]
    that [spinlock_irq_save] returned to it. *)
Record thread (C O : Type) := Thread { t_pc : lpc C O; t_if : bool; t_flags : bool }.
Arguments Thread {C O} t_pc t_if t_flags.
Arguments t_pc {C O} _.
Arguments t_if {C O} _.
Arguments t_flags {C O} _.

Section Lock.
Context {A D C O : Type} {LC : LockClient A D C O}.

Record conf := Conf { lk : spinlock; atoms : A; data : D; threads : gmap Z (thread C O) }.

(** The first program point of [spinlock_irq_save] or [spinlock_acquire]. *)
Definition acquire_entry (c : C) : lpc C O := if lc_irq then IrqSave c else AcqCas c.
(** Where [spinlock_release] continues. *)
Definition release_exit (o : O) : lpc C O := if lc_irq then IrqRestore o else Outside o.

(** One access of [spinlock_irq_save] and [spinlock_acquire]. *)
Definition spinlock_acquire (i : Z) (l : spinlock) (t : thread C O) :
    option (spinlock * thread C O) :=
  match t_pc t with
  | IrqSave c => Some (l, Thread (AcqCas c) false (t_if t))
  | AcqCas c =>
      let '(v, ok) := atomic_cas (locked l) 0 1 in
      Some (l <| locked := v |>,
            Thread (if ok then AcqOwner c else AcqSpin c) (t_if t) (t_flags t))
  | AcqSpin c =>
      Some (l, Thread (if nz (atomic_load (locked l)) then AcqSpin c else AcqCas c)
                 (t_if t) (t_flags t))
  | AcqOwner c =>
      Some (l <| sl_owner := lc_pid i |>, Thread (Inside c) (t_if t) (t_flags t))
  | _ => None
  end.

(** One access of [spinlock_release] and [spinlock_irq_restore]. *)
Definition spinlock_release (l : spinlock) (t : thread C O) :
    option (spinlock * thread C O) :=
  match t_pc t with
  | RelOwner o => Some (l <| sl_owner := 0 |>, Thread (RelStore o) (t_if t) (t_flags t))
  | RelStore o =>
      Some (l <| locked := atomic_store (locked l) 0 |>,
            Thread (release_exit o) (t_if t) (t_flags t))
  | IrqRestore o => Some (l, Thread (Outside o) (t_flags t) (t_flags t))
  | _ => None
  end.

(** One step of the critical section. *)
Definition section_step (i : Z) (d : D) (t : thread C O) : option (D * thread C O) :=
  match t_pc t with
  | Inside c =>
      let '(d', r) := lc_body i d c in
      Some (d', Thread (match r with inl c' => Inside c' | inr o => RelOwner o end)
                  (t_if t) (t_flags t))
  | _ => None
  end.

Inductive step : conf → conf → Prop :=
| StepOut k i l a a' d m o r b b' f :
    m !! i = Some (Thread (Outside o) b f) →
    lc_out k i (a, b) o = Some (a', b', r) →
    step (Conf l a d m)
      (Conf l a' d (<[i := Thread (match r with
                                   | inl o' => Outside o'
                                   | inr c => acquire_entry c
                                   end) b' f]> m))
| StepAcquire i l l' a d m t t' :
    m !! i = Some t → spinlock_acquire i l t = Some (l', t') →
    step (Conf l a d m) (Conf l' a d (<[i := t']> m))
| StepInside i l a d d' m t t' :
    m !! i = Some t → section_step i d t = Some (d', t') →
    step (Conf l a d m) (Conf l a d' (<[i := t']> m))
| StepRelease i l l' a d m t t' :
    m !! i = Some t → spinlock_release l t = Some (l', t') →
    step (Conf l a d m) (Conf l' a d (<[i := t']> m)).

(** The step of thread [i] with choice [k], computed. *)
Definition step_fn (x : conf) (ik : Z * nat) : option conf :=
  let '(i, k) := ik in
  t ← threads x !! i;
  match t_pc t with
  | Outside o =>
      r ← lc_out k i (atoms x, t_if t) o;
      let '(a', b', r) := r in
      Some (Conf (lk x) a' (data x)
        (<[i := Thread (match r with inl o' => Outside o' | inr c => acquire_entry c end)
                  b' (t_flags t)]> (threads x)))
  | Inside _ =>
      r ← section_step i (data x) t;
      Some (Conf (lk x) (atoms x) r.1 (<[i := r.2]> (threads x)))
  | IrqSave _ | AcqCas _ | AcqSpin _ | AcqOwner _ =>
      r ← spinlock_acquire i (lk x) t;
      Some (Conf r.1 (atoms x) (data x) (<[i := r.2]> (threads x)))
  | RelOwner _ | RelStore _ | IrqRestore _ =>
      r ← spinlock_release (lk x) t;
      Some (Conf r.1 (atoms x) (data x) (<[i := r.2]> (threads x)))
  end.

Lemma step_fn_sound x ik y : step_fn x ik = Some y → step x y.
Proof.
  destruct x as [l a d m], ik as [i k]. unfold step_fn.
  intros ([pc b f] & Hi & Hs)%bind_Some. cbn [t_pc lk atoms data threads] in *.
  destruct pc; apply bind_Some in Hs as (r & Hr & Hs); simpl in Hs.
  1: destruct r as [[a' b'] r]; injection Hs as <-; by eapply StepOut.
  all: destruct r as [r1 r2]; injection Hs as <-.
  5: by eapply StepInside.
  1-4: by eapply StepAcquire.
  all: by eapply StepRelease.
Qed.

(** The run of a schedule. *)
Definition run_fn (x : conf) (ks : list (Z * nat)) : option conf :=
  foldl (λ ox ik, x ← ox; step_fn x ik) (Some x) ks.

Lemma run_fn_sound ks x y : run_fn x ks = Some y → rtc step x y.
Proof.
  unfold run_fn. revert x. induction ks as [|ik ks IH]; intros x; simpl.
  - by intros [= ->].
  - destruct (step_fn x ik) as [x1|] eqn:E.
    + intros H. eapply rtc_l; [by eapply step_fn_sound|by apply IH].
    + intros H. exfalso. clear IH E. induction ks; naive_solver.
Qed.

(** *** Mutual exclusion *)

Definition holds (t : thread C O) : bool :=
  match t_pc t with
  | AcqOwner _ | Inside _ | RelOwner _ | RelStore _ => true
  | _ => false
  end.

(** The owner field names the holder while it is in its critical section. *)
Definition owner_ok (l : spinlock) (i : Z) (t : thread C O) : Prop :=
  match t_pc t with
  | Inside _ | RelOwner _ => sl_owner l = lc_pid i
  | RelStore _ => sl_owner l = 0
  | _ => True
  end.

(** Inside the critical section of [spinlock_irq_save] interrupts are off. *)
Definition irq_ok (t : thread C O) : Prop :=
  match t_pc t with
  | Outside _ => True
  | IrqSave _ => lc_irq = true
  | IrqRestore _ => lc_irq = true ∧ t_if t = false
  | _ => lc_irq = true → t_if t = false
  end.

Record lock_inv (x : conf) : Prop := {
  li_locked : locked (lk x) = tally (λ t, if holds t then 1 else 0) (threads x);
  li_range : 0 ≤ locked (lk x) ≤ 1;
  li_owner i t : threads x !! i = Some t → owner_ok (lk x) i t;
  li_irq i t : threads x !! i = Some t → irq_ok t }.

Abbreviation held := (λ t : thread C O, if holds t then 1 else 0).

Lemma held_nonneg t : 0 ≤ held t.
Proof. simpl. destruct (holds t); lia. Qed.

Lemma lock_inv_unique x i j t u :
  lock_inv x → threads x !! i = Some t → threads x !! j = Some u →
  holds t = true → holds u = true → i = j.
Proof.
  intros [E R _ _] Hi Hj Ht Hu. destruct (decide (i = j)) as [|Hij]; [done|].
  pose proof (tally_ge2 held _ i j t u held_nonneg Hij Hi Hj) as H.
  simpl in H. rewrite Ht, Hu in H. lia.
Qed.

Lemma lock_inv_locked x i t :
  lock_inv x → threads x !! i = Some t → holds t = true → locked (lk x) = 1.
Proof.
  intros [E R _ _] Hi Ht. pose proof (tally_ge held _ i t held_nonneg Hi) as H.
  simpl in H. rewrite Ht in H. lia.
Qed.

Lemma owner_ok_free l i t : holds t = false → owner_ok l i t.
Proof. unfold holds, owner_ok. by destruct (t_pc t). Qed.

(** A step of thread [i] that does not change who holds the lock. *)
Lemma lock_inv_local x i t t' l' a' d' :
  lock_inv x → threads x !! i = Some t →
  holds t' = holds t → locked l' = locked (lk x) →
  (sl_owner l' = sl_owner (lk x) ∨ holds t = true) →
  owner_ok l' i t' → irq_ok t' →
  lock_inv (Conf l' a' d' (<[i := t']> (threads x))).
Proof.
  intros HI Hi Hh Hl Ho Hok Hirq. pose proof HI as [E R O' Q]. split; simpl.
  - rewrite (tally_insert held _ i t t' Hi), Hl, E. simpl. rewrite Hh. lia.
  - by rewrite Hl.
  - intros j u. destruct (decide (i = j)) as [<-|Hij].
    + rewrite lookup_insert_eq. by intros [= <-].
    + rewrite lookup_insert_ne by done. intros Hj.
      destruct Ho as [Ho|Ht].
      * specialize (O' j u Hj). unfold owner_ok in *. by rewrite Ho.
      * apply owner_ok_free. destruct (holds u) eqn:Hu; [|done].
        by destruct Hij, (lock_inv_unique x i j t u).
  - intros j u. rewrite lookup_insert. case_decide; [by intros [= <-]|apply Q].
Qed.

Lemma lock_inv_acquire i l l' a d m t t' :
  lock_inv (Conf l a d m) → m !! i = Some t → spinlock_acquire i l t = Some (l', t') →
  lock_inv (Conf l' a d (<[i := t']> m)).
Proof.
  intros HI Hi Hs. pose proof (li_irq _ HI i t Hi) as Hq.
  destruct t as [[] b f]; unfold spinlock_acquire in Hs; simplify_eq/=.
  - apply (lock_inv_local _ i _ _ _ _ _ HI Hi); try done. by left.
  - unfold atomic_cas in Hs. destruct (Z.eqb_spec (locked l) 0) as [E0|]; simplify_eq/=.
    + pose proof HI as [E R O' Q]. simpl in *. split; simpl; [|lia| |].
      * rewrite (tally_insert held _ i _ _ Hi). simpl. lia.
      * intros j u. rewrite lookup_insert. case_decide; [by intros [= <-]|].
        intros Hj. apply owner_ok_free. destruct (holds u) eqn:Hu; [|done].
        pose proof (lock_inv_locked _ j u HI Hj Hu). simpl in *. lia.
      * intros j u. rewrite lookup_insert. case_decide; [by intros [= <-]|apply Q].
    + apply (lock_inv_local _ i _ _ _ _ _ HI Hi); try done. by left.
  - apply (lock_inv_local _ i _ _ _ _ _ HI Hi); [by destruct (nz _)|done|by left| |];
      by destruct (nz _).
  - apply (lock_inv_local _ i _ _ _ _ _ HI Hi); try done. by right.
Qed.

Lemma lock_inv_release i l l' a d m t t' :
  lock_inv (Conf l a d m) → m !! i = Some t → spinlock_release l t = Some (l', t') →
  lock_inv (Conf l' a d (<[i := t']> m)).
Proof.
  intros HI Hi Hs. pose proof (li_irq _ HI i t Hi) as Hq.
  destruct t as [[] b f]; unfold spinlock_release in Hs; simplify_eq/=.
  - apply (lock_inv_local _ i _ _ _ _ _ HI Hi); try done. by right.
  - pose proof (lock_inv_locked _ i _ HI Hi eq_refl) as E1.
    pose proof HI as [E R O' Q]. simpl in *.
    assert (holds (Thread (release_exit o) b f) = false) as Hh
      by (unfold release_exit; by destruct lc_irq).
    split; simpl; [|unfold atomic_store; lia| |].
    + rewrite (tally_insert held _ i _ _ Hi), Hh. unfold atomic_store; simpl. lia.
    + intros j u. rewrite lookup_insert. case_decide as Hij.
      * intros [= <-]. by apply owner_ok_free.
      * intros Hj. apply owner_ok_free. destruct (holds u) eqn:Hu; [|done].
        by destruct Hij, (lock_inv_unique _ i j _ u HI Hi Hj).
    + intros j u. rewrite lookup_insert. case_decide; [intros [= <-]|apply Q].
      unfold release_exit, irq_ok in *. simpl in *. destruct lc_irq; naive_solver.
  - apply (lock_inv_local _ i _ _ _ _ _ HI Hi); try done. by left.
Qed.

Lemma lock_inv_step x y : lock_inv x → step x y → lock_inv y.
Proof.
  intros HI Hs. destruct Hs as [k i l a a' d m o r b b' f Hi Ho| | i l a d d' m t t' Hi Hs|].
  - apply (lock_inv_local _ i _ _ _ _ _ HI Hi); try done; [|by left|..];
      unfold acquire_entry, holds, owner_ok, irq_ok;
      destruct r; simpl; try done; destruct lc_irq eqn:E; simpl; done.
  - by eapply lock_inv_acquire.
  - pose proof (li_owner _ HI i t Hi) as Hw. pose proof (li_irq _ HI i t Hi) as Hq.
    destruct t as [[] b f]; unfold section_step in Hs; simplify_eq/=.
    destruct (lc_body i d c) as [d1 [c'|o]]; simplify_eq/=;
      (apply (lock_inv_local _ i _ _ _ _ _ HI Hi); try done; by left).
  - by eapply lock_inv_release.
Qed.

(** *** Atomicity: the machine whose critical sections are single steps *)

(** A run of the critical section from [c] to a point still inside. *)
Inductive body_run (i : Z) : D → C → D → C → Prop :=
| RunRefl d c : body_run i d c d c
| RunStep d c d1 c1 d2 c2 :
    body_run i d c d1 c1 → lc_body i d1 c1 = (d2, inl c2) → body_run i d c d2 c2.

(** A complete run of the critical section. *)
Definition body_big (i : Z) (d : D) (c : C) (d' : D) (o : O) : Prop :=
  ∃ d1 c1, body_run i d c d1 c1 ∧ lc_body i d1 c1 = (d', inr o).

Inductive athread :=
| AOutside (o : O) (ifl : bool)
| AWaiting (c : C) (ifl : bool).

Record aconf := AConf { a_atoms : A; a_data : D; a_threads : gmap Z athread }.

Inductive astep : aconf → aconf → Prop :=
| AStepOut k i a a' d m o r b b' :
    m !! i = Some (AOutside o b) →
    lc_out k i (a, b) o = Some (a', b', r) →
    astep (AConf a d m)
      (AConf a' d (<[i := match r with
                          | inl o' => AOutside o' b'
                          | inr c => AWaiting c b'
                          end]> m))
| AStepSection i a d d' m c b o :
    m !! i = Some (AWaiting c b) →
    body_big i d c d' o →
    astep (AConf a d m) (AConf a d' (<[i := AOutside o b]> m)).

(** How a thread of the lock-based machine corresponds to one of the atomic
    machine: before the release starts, the critical section has not happened
    yet; once it has started, it has. *)
Definition simt (i : Z) (d0 d : D) (t : thread C O) (at' : athread) : Prop :=
  match t_pc t with
  | Outside o => at' = AOutside o (t_if t)
  | IrqSave c => at' = AWaiting c (t_if t)
  | AcqCas c | AcqSpin c | AcqOwner c =>
      at' = AWaiting c (if lc_irq then t_flags t else t_if t)
  | Inside c =>
      ∃ c0, at' = AWaiting c0 (if lc_irq then t_flags t else t_if t) ∧ body_run i d0 c0 d c
  | RelOwner o | RelStore o =>
      at' = AOutside o (if lc_irq then t_flags t else t_if t)
  | IrqRestore o => at' = AOutside o (t_flags t)
  end.

Definition inside (t : thread C O) : bool :=
  match t_pc t with Inside _ => true | _ => false end.

Record sim (x : conf) (y : aconf) : Prop := {
  sim_atoms : a_atoms y = atoms x;
  sim_data : (∀ i t, threads x !! i = Some t → inside t = false) → a_data y = data x;
  sim_dom i : threads x !! i = None → a_threads y !! i = None;
  sim_threads i t : threads x !! i = Some t →
    ∃ u, a_threads y !! i = Some u ∧ simt i (a_data y) (data x) t u }.

Lemma simt_quiet i d0 d d0' d' t u :
  inside t = false → simt i d0 d t u → simt i d0' d' t u.
Proof. unfold inside, simt. by destruct (t_pc t). Qed.

(** Thread [i] moves from [t] to [t'], its counterpart to [u']. *)
Lemma sim_update x y i t t' u' l' a' d0' d' :
  sim x y → threads x !! i = Some t →
  (∀ j v, j ≠ i → threads x !! j = Some v →
     inside v = false ∨ (d0' = a_data y ∧ d' = data x)) →
  simt i d0' d' t' u' →
  ((∀ j v, j ≠ i → threads x !! j = Some v → inside v = false) →
   inside t' = false → d0' = d') →
  sim (Conf l' a' d' (<[i := t']> (threads x))) (AConf a' d0' (<[i := u']> (a_threads y))).
Proof.
  intros [Ea Ed Hd Ht] Hi Hothers Hsim Hdata. split; simpl; [done| | |].
  - intros Hall. apply Hdata.
    + intros j v Hj Hv. apply (Hall j). by rewrite lookup_insert_ne.
    + apply (Hall i). apply lookup_insert_eq.
  - intros j Hj. apply lookup_insert_None in Hj as [Hj Hij].
    rewrite lookup_insert_ne by done. auto.
  - intros j v. destruct (decide (i = j)) as [<-|Hij].
    + rewrite !lookup_insert_eq. intros [= <-]. eauto.
    + rewrite !lookup_insert_ne by done. intros Hj. destruct (Ht j v Hj) as (w & Hw & Hs).
      exists w. split; [done|]. destruct (Hothers j v) as [Hv|[-> ->]]; [done..| |done].
      by eapply simt_quiet.
Qed.

(** The move has no counterpart. *)
Lemma sim_stutter x y i t t' u l' :
  sim x y → threads x !! i = Some t → a_threads y !! i = Some u →
  simt i (a_data y) (data x) t' u →
  (inside t' = false → inside t = false) →
  sim (Conf l' (atoms x) (data x) (<[i := t']> (threads x))) y.
Proof.
  intros HS Hi Hu Hsim Hin.
  replace y with (AConf (atoms x) (a_data y) (<[i := u]> (a_threads y))).
  - apply (sim_update x y i t); [done..| | |].
    + intros j v _ _. by right.
    + done.
    + intros Hall Hn. apply (sim_data x y HS). intros j v Hv.
      destruct (decide (j = i)) as [->|]; [|by eapply Hall].
      simplify_eq. auto.
  - destruct y as [ya yd ym]. simpl in *.
    rewrite insert_id by done. pose proof (sim_atoms _ _ HS) as E. simpl in E. by subst.
Qed.

Lemma sim_acquire i l l' a d m t t' y :
  sim (Conf l a d m) y → lock_inv (Conf l a d m) → m !! i = Some t →
  spinlock_acquire i l t = Some (l', t') → sim (Conf l' a d (<[i := t']> m)) y.
Proof.
  intros HS HI Hi Hs. destruct (sim_threads _ _ HS i t Hi) as (u & Hu & Hsim).
  pose proof (li_irq _ HI i t Hi) as Hq.
  destruct t as [pc b f]. unfold simt in Hsim.
  destruct pc; unfold spinlock_acquire in Hs; simplify_eq/=.
  - apply (sim_stutter _ _ i _ _ _ _ HS Hi Hu); [|done].
    unfold simt, irq_ok in *; simpl in *. by rewrite Hq.
  - unfold atomic_cas in Hs. destruct (locked l =? 0); simplify_eq/=;
      by apply (sim_stutter _ _ i _ _ _ _ HS Hi Hu).
  - apply (sim_stutter _ _ i _ _ _ _ HS Hi Hu); [|done].
    by destruct (nz (atomic_load (locked l'))).
  - apply (sim_stutter _ _ i _ _ _ _ HS Hi Hu); [|done].
    unfold simt; simpl. exists c. split; [done|].
    rewrite (sim_data _ _ HS); [constructor|]. intros j v Hj.
    destruct (inside v) eqn:Hv; [|done].
    assert (i = j) as <-; [|by simplify_eq/=].
    eapply (lock_inv_unique _ i j _ v HI Hi Hj); [done|].
    unfold inside, holds in *. by destruct (t_pc v).
Qed.

Lemma sim_release i l l' a d m t t' y :
  sim (Conf l a d m) y → lock_inv (Conf l a d m) → m !! i = Some t →
  spinlock_release l t = Some (l', t') → sim (Conf l' a d (<[i := t']> m)) y.
Proof.
  intros HS HI Hi Hs. destruct (sim_threads _ _ HS i t Hi) as (u & Hu & Hsim).
  destruct t as [pc b f]. unfold simt in Hsim.
  destruct pc; unfold spinlock_release in Hs; simplify_eq/=.
  - by apply (sim_stutter _ _ i _ _ _ _ HS Hi Hu).
  - apply (sim_stutter _ _ i _ _ _ _ HS Hi Hu); [|done].
    unfold simt, release_exit; simpl. by destruct lc_irq.
  - by apply (sim_stutter _ _ i _ _ _ _ HS Hi Hu).
Qed.

Lemma sim_out k i l a a' d m o r b b' f y :
  sim (Conf l a d m) y → m !! i = Some (Thread (Outside o) b f) →
  lc_out k i (a, b) o = Some (a', b', r) →
  ∃ y', astep y y' ∧
    sim (Conf l a' d (<[i := Thread (match r with
                                     | inl o' => Outside o'
                                     | inr c => acquire_entry c
                                     end) b' f]> m)) y'.
Proof.
  intros HS Hi Ho. destruct (sim_threads _ _ HS i _ Hi) as (u & Hu & ->).
  pose proof (sim_atoms _ _ HS) as Ea. destruct y as [ya yd ym]. simpl in *. subst ya.
  eexists. split; [by eapply AStepOut|].
  apply (sim_update _ _ i _ _ _ l a' _ _ HS Hi).
  - intros j v _ _. by right.
  - unfold simt, acquire_entry. destruct r; simpl; [done|]. by destruct lc_irq.
  - intros Hall _. apply (sim_data _ _ HS). intros j v Hv.
    destruct (decide (j = i)) as [->|]; [by simplify_eq/=|by eapply Hall].
Qed.

Lemma sim_inside i l a d d' m t t' y :
  sim (Conf l a d m) y → lock_inv (Conf l a d m) → m !! i = Some t →
  section_step i d t = Some (d', t') →
  ∃ y', rtc astep y y' ∧ sim (Conf l a d' (<[i := t']> m)) y'.
Proof.
  intros HS HI Hi Hs. destruct (sim_threads _ _ HS i t Hi) as (u & Hu & Hsim).
  pose proof (sim_atoms _ _ HS) as Ea. destruct y as [ya yd ym]. simpl in *. subst ya.
  assert (∀ j v, j ≠ i → m !! j = Some v → inside t = true → inside v = false) as Hq.
  { intros j v Hij Hj Ht. destruct (inside v) eqn:Hv; [|done]. destruct Hij. symmetry.
    apply (lock_inv_unique _ i j t v HI Hi Hj); unfold inside, holds in *;
      [by destruct (t_pc t)|by destruct (t_pc v)]. }
  destruct t as [pc b f]. unfold simt in Hsim.
  destruct pc; unfold section_step in Hs; simplify_eq/=.
  destruct Hsim as (c0 & -> & Hrun).
  destruct (lc_body i d c) as [d1 [c1|o]] eqn:Hb; simplify_eq/=.
  - exists (AConf a yd (<[i := AWaiting c0 (if lc_irq then f else b)]> ym)).
    split; [rewrite insert_id by done; apply rtc_refl|].
    apply (sim_update _ _ i _ _ _ l a yd d' HS Hi); [|exists c0; split; [done|]|done].
    + intros j v Hj Hv. left. by eapply Hq.
    + by eapply RunStep.
  - eexists. split; [apply rtc_once; eapply AStepSection; [done|]; by exists d, c|].
    apply (sim_update _ _ i _ _ _ l a d' d' HS Hi); [|done|done].
    intros j v Hj Hv. left. by eapply Hq.
Qed.

Lemma sim_step x x' y :
  lock_inv x → sim x y → step x x' → ∃ y', rtc astep y y' ∧ sim x' y'.
Proof.
  intros HI HS Hs. destruct Hs as [? ? ? ? ? ? ? ? ? ? ? ? Hi Ho| | |].
  - destruct (sim_out _ _ _ _ _ _ _ _ _ _ _ _ _ HS Hi Ho) as (y' & ? & ?).
    exists y'. split; [by apply rtc_once|done].
  - exists y. split; [done|]. by eapply sim_acquire.
  - by eapply sim_inside.
  - exists y. split; [done|]. by eapply sim_release.
Qed.

(** *** Start: every thread outside, the lock free *)

Definition start (a : A) (d : D) (os : gmap Z (O * bool)) : conf :=
  Conf spinlock_init a d ((λ ob : O * bool, Thread (Outside ob.1) ob.2 false) <$> os).

Definition astart (a : A) (d : D) (os : gmap Z (O * bool)) : aconf :=
  AConf a d ((λ ob : O * bool, AOutside ob.1 ob.2) <$> os).

Lemma start_inv a d os : lock_inv (start a d os).
Proof.
  unfold start. split; simpl; [|lia| |].
  - rewrite tally_zero; [done|]. intros i t.
    rewrite lookup_fmap, fmap_Some. by intros (? & _ & ->).
  - intros i t. rewrite lookup_fmap, fmap_Some. by intros (? & _ & ->).
  - intros i t. rewrite lookup_fmap, fmap_Some. by intros (? & _ & ->).
Qed.

Lemma start_sim a d os : sim (start a d os) (astart a d os).
Proof.
  split; simpl; [done..| |].
  - intros i. by rewrite !lookup_fmap, !fmap_None.
  - intros i t. rewrite !lookup_fmap, fmap_Some. intros (ob & -> & ->).
    simpl. by eexists.
Qed.

(** Every state the lock-based code can reach is matched by one that the
    atomic machine can reach, and satisfies the lock's own invariant. *)
Lemma reach_sim a d os x :
  rtc step (start a d os) x →
  lock_inv x ∧ ∃ y, rtc astep (astart a d os) y ∧ sim x y.
Proof.
  revert x. apply rtc_ind_r.
  - split; [apply start_inv|]. exists (astart a d os). split; [done|apply start_sim].
  - intros x1 x2 _ Hs (HI & y & Hy & HS). split; [by eapply lock_inv_step|].
    destruct (sim_step x1 x2 y HI HS Hs) as (y' & Hy' & HS').
    exists y'. split; [by etrans|done].
Qed.

(** An invariant of the atomic machine holds of the threads outside. *)
Lemma sim_outside x y i o b f :
  sim x y → threads x !! i = Some (Thread (Outside o) b f) →
  a_threads y !! i = Some (AOutside o b).
Proof. intros HS Hi. by destruct (sim_threads _ _ HS i _ Hi) as (u & ? & ->). Qed.

(** A complete run starts with one step. *)
Lemma body_run_first i d c d1 c1 d2 c2 :
  lc_body i d c = (d1, inl c1) → body_run i d1 c1 d2 c2 → body_run i d c d2 c2.
Proof.
  intros Hb Hr. induction Hr as [|? ? ? ? ? ? _ IH ?].
  - by eapply RunStep; [apply RunRefl|].
  - by eapply RunStep; [apply IH|].
Qed.

Lemma body_run_inv i d c d2 c2 :
  body_run i d c d2 c2 →
  (d2 = d ∧ c2 = c) ∨ ∃ d1 c1, lc_body i d c = (d1, inl c1) ∧ body_run i d1 c1 d2 c2.
Proof.
  induction 1 as [|d c d1 c1 d2 c2 _ IH Hb]; [by left|right].
  destruct IH as [[-> ->]|(d3 & c3 & H3 & Hr)].
  - exists d2, c2. split; [done|apply RunRefl].
  - exists d3, c3. split; [done|]. by eapply RunStep.
Qed.

Lemma body_big_inv i d c d' o :
  body_big i d c d' o →
  match lc_body i d c with
  | (d1, inr o1) => d' = d1 ∧ o = o1
  | (d1, inl c1) => body_big i d1 c1 d' o
  end.
Proof.
  intros (d1 & c1 & Hr & Hb). apply body_run_inv in Hr as [[-> ->]|(d2 & c2 & H2 & Hr)].
  - by rewrite Hb.
  - rewrite H2. by exists d1, c1.
Qed.

(** When the steps that stay inside do not write, the two machines always
    agree on the data. *)
Lemma sim_data_quiet x y :
  (∀ i d c d' c', lc_body i d c = (d', inl c') → d' = d) →
  sim x y → a_data y = data x.
Proof.
  intros Hb HS.
  destruct (decide (map_Forall (λ _ t, inside t = false) (threads x))) as [H|H].
  - apply (sim_data _ _ HS). intros i t Hi. apply (H i t Hi).
  - apply map_not_Forall in H as (i & t & Hi & Ht); [|apply _].
    destruct (sim_threads _ _ HS i t Hi) as (u & _ & Hsim).
    unfold inside, simt in *. destruct (t_pc t); try done.
    destruct Hsim as (c0 & _ & Hr). clear Ht. induction Hr; [done|]. etrans; [done|].
    symmetry. by eapply Hb.
Qed.

(** Matching threads with equal weights have equal sums. *)
Lemma sim_tally x y (f : thread C O → Z) (g : athread → Z) :
  (∀ i d0 d t u, simt i d0 d t u → f t = g u) →
  sim x y → tally f (threads x) = tally g (a_threads y).
Proof.
  intros Hfg [_ _ Hd Ht].
  enough (∀ (m : gmap Z (thread C O)) (m' : gmap Z athread),
    (∀ i, m !! i = None → m' !! i = None) →
    (∀ i t, m !! i = Some t → ∃ u, m' !! i = Some u ∧ f t = g u) →
    tally f m = tally g m') as H.
  { apply H; [done|]. intros i t Hi. destruct (Ht i t Hi) as (u & ? & Hs). eauto. }
  clear Hd Ht. intros m. induction m as [|i t m Hi IH] using map_ind; intros m' Hd Ht.
  - assert (m' = ∅) as -> by (apply map_empty; intros i; by apply Hd).
    by rewrite !tally_empty.
  - destruct (Ht i t) as (u & Hu & E); [apply lookup_insert_eq|].
    rewrite tally_fresh by done. rewrite (tally_delete g m' i u Hu), E. f_equal.
    apply IH.
    + intros j Hj. rewrite lookup_delete. case_decide as Hij; [done|].
      apply Hd. by rewrite lookup_insert_ne.
    + intros j v Hj. assert (i ≠ j) by congruence. rewrite lookup_delete_ne by done.
      apply Ht. by rewrite lookup_insert_ne.
Qed.

(** C10: for any code run under a spinlock, by any number of threads that
    interleave at single memory accesses: at most one thread is between a
    successful exchange and the release; while a thread is inside its critical
    section the lock word is 1, the owner field is its pid, and interrupts are
    off if it used [spinlock_irq_save]; a lock word of 1 always has a holder,
    so the lock is never lost; and the state is matched by one the machine
    with indivisible critical sections reaches. *)
Theorem spinlock_correct a d os x :
  rtc step (start a d os) x →
  (∀ i j t u, threads x !! i = Some t → threads x !! j = Some u →
     holds t = true → holds u = true → i = j) ∧
  (∀ i c b f, threads x !! i = Some (Thread (Inside c) b f) →
     locked (lk x) = 1 ∧ sl_owner (lk x) = lc_pid i ∧ (lc_irq = true → b = false)) ∧
  (spinlock_is_held (lk x) = true → ∃ i t, threads x !! i = Some t ∧ holds t = true) ∧
  ∃ y, rtc astep (astart a d os) y ∧ sim x y.
Proof.
  intros (HI & Hy)%reach_sim. split_and!; [| | |done].
  - intros i j t u. by apply lock_inv_unique.
  - intros i c b f Hi. split_and!.
    + by eapply lock_inv_locked.
    + apply (li_owner _ HI i _ Hi).
    + apply (li_irq _ HI i _ Hi).
  - intros Hl%nz_true. pose proof (li_range _ HI). unfold atomic_load in Hl.
    destruct (tally_pos held (threads x)) as (i & t & Hi & Ht).
    + rewrite <-(li_locked _ HI). lia.
    + exists i, t. split; [done|]. simpl in Ht. by destruct (holds t).
Qed.
End Lock.

Arguments conf A D C O : clear implicits.
Arguments aconf A D C O : clear implicits.
Arguments athread C O : clear implicits.
