(* ===== verification/Semaphore.v ===== *)
(** * Counting semaphores

    Models [arch/x86/semaphore.c] as a client of the spinlock, one memory
    access per step ([count--] is a load and a store).  Each thread carries a
    ledger of the units it has taken ([semaphore_wait], successful
    [semaphore_try_wait]) and given ([semaphore_signal]), which the code does
    not look at.  [semaphore_correct]: the count is always the initial count
    plus the units given minus the units taken. *)

From stdpp Require Import relations.
From S2P Require Import Prelude Proc Sync.

Record semaphore := mkSemaphore {
  sem_count : Z; sem_wait_head : Z; sem_wait_tail : Z;
  sem_tasks : gmap Z task_state }.
#[global] Instance semaphore_eta : Etable semaphore := λ s,
  mkSemaphore (sem_count s) (sem_wait_head s) (sem_wait_tail s) (sem_tasks s).

(** [semaphore_init]; [sem_tasks] stands for the [state] fields of the
    processes. *)
Definition semaphore_init (initial : Z) (tasks : gmap Z task_state) : semaphore :=
  mkSemaphore initial 0 0 tasks.

Definition INT_MAX : Z := 2147483647.

Lemma i32_small z : - INT_MAX - 1 ≤ z ≤ INT_MAX → i32 z = z.
Proof. unfold INT_MAX. intros. apply sint_small; simpl; lia. Qed.

Record ledger := Ledger { taken : Z; given : Z }.

(** Program points inside the critical section. *)
Inductive sem_point :=
| WaitTest | WaitLoad | WaitStore (v : Z) | WaitBlock
| TryTest | TryLoad | TryStore (v : Z)
| SigLoad | SigStore (v : Z).

(** Program points outside: not in a semaphore call ([semaphore_try_wait]
    returned the flag), at the [pause] of the loop without a process, in
    [sleep(1)]. *)
Inductive sem_out := SemIdle | SemTried (ok : bool) | SemPause | SemSleep.

Section Semaphore.
(** [current_process] of each thread: [None] before the first process runs. *)
Context (cur : Z → option Z).

Definition semaphore_wait (i : Z) (s : semaphore) (c : sem_point) (g : ledger) :
    semaphore * (sem_point * ledger + sem_out * ledger) :=
  match c with
  | WaitTest =>
      if 0 <? sem_count s then (s, inl (WaitLoad, g))
      else match cur i with
           | Some _ => (s, inl (WaitBlock, g))
           | None => (s, inr (SemPause, g))
           end
  | WaitLoad => (s, inl (WaitStore (sem_count s), g))
  | WaitStore v =>
      (s <| sem_count := i32 (v - 1) |>, inr (SemIdle, Ledger (taken g + 1) (given g)))
  | _ => (s <| sem_tasks := <[i := TASK_WAITING]> (sem_tasks s) |>, inr (SemSleep, g))
  end.

Definition semaphore_try_wait (s : semaphore) (c : sem_point) (g : ledger) :
    semaphore * (sem_point * ledger + sem_out * ledger) :=
  match c with
  | TryTest =>
      if 0 <? sem_count s then (s, inl (TryLoad, g)) else (s, inr (SemTried false, g))
  | TryStore v =>
      (s <| sem_count := i32 (v - 1) |>, inr (SemTried true, Ledger (taken g + 1) (given g)))
  | _ => (s, inl (TryStore (sem_count s), g))
  end.

Definition semaphore_signal (s : semaphore) (c : sem_point) (g : ledger) :
    semaphore * (sem_point * ledger + sem_out * ledger) :=
  match c with
  | SigStore v =>
      (s <| sem_count := i32 (v + 1) |>, inr (SemIdle, Ledger (taken g) (given g + 1)))
  | _ => (s, inl (SigStore (sem_count s), g))
  end.

Definition sem_body (i : Z) (s : semaphore) (cg : sem_point * ledger) :
    semaphore * (sem_point * ledger + sem_out * ledger) :=
  let '(c, g) := cg in
  match c with
  | WaitTest | WaitLoad | WaitStore _ | WaitBlock => semaphore_wait i s c g
  | TryTest | TryLoad | TryStore _ => semaphore_try_wait s c g
  | SigLoad | SigStore _ => semaphore_signal s c g
  end.

(** Outside: a thread calls any of the operations; the loops of
    [semaphore_wait] go round.  [sleep] returns with interrupts on if it
    slept at all. *)
Definition sem_outside (k : nat) (i : Z) (ab : unit * bool) (og : sem_out * ledger) :
    option (unit * bool * (sem_out * ledger + sem_point * ledger)) :=
  let '(o, g) := og in
  match o with
  | SemIdle | SemTried _ =>
      match k with
      | 0%nat => Some (ab, inr (WaitTest, g))
      | 1%nat => Some (ab, inr (TryTest, g))
      | 2%nat => Some (ab, inr (SigLoad, g))
      | _ => None
      end
  | SemPause => Some (ab, inr (WaitTest, g))
  | SemSleep => Some (tt, bool_decide (k ≠ 0%nat) || ab.2, inr (WaitTest, g))
  end.

#[export] Instance sem_client :
    LockClient unit semaphore (sem_point * ledger) (sem_out * ledger) := {|
  lc_irq := true;
  lc_pid i := default 0 (cur i);
  lc_body := sem_body;
  lc_out := sem_outside |}.

(** ** Conservation *)

Definition th_ledger (t : thread (sem_point * ledger) (sem_out * ledger)) : ledger :=
  match t_pc t with
  | Outside o | RelOwner o | RelStore o | IrqRestore o => o.2
  | IrqSave c | AcqCas c | AcqSpin c | AcqOwner c | Inside c => c.2
  end.

Definition ath_ledger (u : athread (sem_point * ledger) (sem_out * ledger)) : ledger :=
  match u with AOutside o _ => o.2 | AWaiting c _ => c.2 end.

Definition is_entry (c : sem_point) : Prop := c = WaitTest ∨ c = TryTest ∨ c = SigLoad.

Lemma sem_outside_call k i ab o g ab' r :
  sem_outside k i ab (o, g) = Some (ab', r) → ∃ c, is_entry c ∧ r = inr (c, g).
Proof.
  unfold is_entry. intros H. destruct o; simpl in H; repeat case_match; simplify_eq; eauto 6.
Qed.

Lemma sem_body_quiet i s cg s' cg' :
  sem_body i s cg = (s', inl cg') → s' = s ∧ cg'.2 = cg.2.
Proof.
  destruct cg as [[] g]; simpl; unfold semaphore_wait; repeat case_match;
    intros; simplify_eq/=; done.
Qed.

Lemma sem_sim_ledger i d0 d t u :
  simt (LC := sem_client) i d0 d t u → th_ledger t = ath_ledger u.
Proof.
  unfold simt, th_ledger. destruct (t_pc t); try by intros ->.
  intros (c0 & -> & Hr). simpl. induction Hr as [|? ? ? ? ? ? _ IH Hb]; [done|].
  apply sem_body_quiet in Hb as [_ ->]. done.
Qed.

(** What one critical section does, run without interruption. *)
Definition sem_effect (s s' : semaphore) (g g' : ledger) : Prop :=
  (sem_count s' = sem_count s ∧ g' = g) ∨
  (0 < sem_count s ∧ sem_count s' = i32 (sem_count s - 1) ∧
     g' = Ledger (taken g + 1) (given g)) ∨
  (sem_count s' = i32 (sem_count s + 1) ∧ g' = Ledger (taken g) (given g + 1)).

Lemma sem_big i s c g s' o :
  is_entry c → body_big (LC := sem_client) i s (c, g) s' o → sem_effect s s' g o.2.
Proof.
  unfold sem_effect.
  intros [->|[->| ->]] Hb; apply body_big_inv in Hb; simpl in Hb.
  - destruct (Z.ltb_spec 0 (sem_count s)).
    + do 2 (apply body_big_inv in Hb; simpl in Hb). destruct Hb as [-> ->]. naive_solver.
    + destruct (cur i); [apply body_big_inv in Hb; simpl in Hb|];
        destruct Hb as [-> ->]; naive_solver.
  - destruct (Z.ltb_spec 0 (sem_count s)).
    + do 2 (apply body_big_inv in Hb; simpl in Hb). destruct Hb as [-> ->]. naive_solver.
    + destruct Hb as [-> ->]. naive_solver.
  - apply body_big_inv in Hb; simpl in Hb. destruct Hb as [-> ->]. naive_solver.
Qed.

Abbreviation taken_of m := (tally (λ u, taken (ath_ledger u)) m).
Abbreviation given_of m := (tally (λ u, given (ath_ledger u)) m).

Record sem_inv (n : Z) (y : aconf unit semaphore (sem_point * ledger) (sem_out * ledger)) :
    Prop := {
  si_count : n + given_of (a_threads y) ≤ INT_MAX →
    sem_count (a_data y) = n + given_of (a_threads y) - taken_of (a_threads y) ∧
    0 ≤ sem_count (a_data y);
  si_taken : 0 ≤ taken_of (a_threads y);
  si_entry i c g b : a_threads y !! i = Some (AWaiting (c, g) b) → is_entry c }.

Lemma sem_inv_step n y y' :
  sem_inv n y → astep (LC := sem_client) y y' → sem_inv n y'.
Proof.
  intros [Hc Ht He] Hs. destruct Hs as [k i a a' d m [o g] r b b' Hi Ho|i a d d' m [c g] b o Hi Hb];
    simpl in *.
  - apply (sem_outside_call k i (a, b)) in Ho as (c & Hc' & ->).
    assert (∀ f : ledger → Z, tally (λ u, f (ath_ledger u)) (<[i := AWaiting (c, g) b']> m) =
      tally (λ u, f (ath_ledger u)) m) as E.
    { intros f. rewrite (tally_insert _ m i _ _ Hi). simpl. lia. }
    split; simpl; [by rewrite !E..|].
    intros j c' g' b0. rewrite lookup_insert. case_decide; [|apply He]. naive_solver.
  - pose proof (sem_big _ _ _ _ _ _ (He _ _ _ _ Hi) Hb) as Heff.
    split; simpl.
    + rewrite !(tally_insert _ m i _ (AOutside o b) Hi). simpl.
      destruct Heff as [[E ->]|[(Hpos & E & ->)|[E ->]]]; simpl; rewrite E; intros Hb';
        (destruct Hc as [Hc1 Hc2]; [lia|]); [lia|..];
        (rewrite i32_small; unfold INT_MAX in *; lia).
    + rewrite !(tally_insert _ m i _ (AOutside o b) Hi). simpl.
      destruct Heff as [[_ ->]|[(_ & _ & ->)|[_ ->]]]; simpl; lia.
    + intros j c' g' b0. rewrite lookup_insert. case_decide; [done|apply He].
Qed.

Definition idle_ledger : sem_out * ledger := (SemIdle, Ledger 0 0).

(** C11: for any number of threads that call the semaphore operations in any
    order and interleave at single memory accesses, the count is the initial
    count plus the units given minus the units taken, and is never negative,
    as long as the units given do not overflow an [int32_t]; so no more units
    are ever taken than were available. *)
Theorem semaphore_correct n tasks (ts : gmap Z bool) x :
  rtc (step (LC := sem_client))
    (start tt (semaphore_init n tasks) ((λ b, (idle_ledger, b)) <$> ts)) x →
  0 ≤ n →
  n + tally (λ t, given (th_ledger t)) (threads x) ≤ INT_MAX →
  sem_count (data x) = n + tally (λ t, given (th_ledger t)) (threads x)
                         - tally (λ t, taken (th_ledger t)) (threads x) ∧
  tally (λ t, taken (th_ledger t)) (threads x)
    ≤ n + tally (λ t, given (th_ledger t)) (threads x).
Proof.
  intros (_ & y & Hy & HS)%reach_sim Hn Hb.
  assert (sem_inv n y) as [Hc _ _].
  { revert Hy. apply (rtc_ind_r (λ y, sem_inv n y)); [|intros; by eapply sem_inv_step].
    assert (∀ f : ledger → Z, f (Ledger 0 0) = 0 → tally (λ u, f (ath_ledger u))
      (a_threads (astart tt (semaphore_init n tasks) ((λ b, (idle_ledger, b)) <$> ts))) = 0)
      as E.
    { intros f Hf. apply tally_zero. intros i u. simpl.
      rewrite !lookup_fmap. destruct (ts !! i); simpl; naive_solver. }
    split; rewrite ?E by done; simpl; [lia..|].
    intros i c g b. rewrite !lookup_fmap. destruct (ts !! i); simpl; naive_solver. }
  assert (∀ f : ledger → Z, tally (λ t, f (th_ledger t)) (threads x) =
    tally (λ u, f (ath_ledger u)) (a_threads y)) as E.
  { intros f. apply sim_tally; [|done]. intros. f_equal. by eapply sem_sim_ledger. }
  rewrite E in Hb. rewrite !E, <-(sim_data_quiet x y); [lia| |done].
  intros. by eapply sem_body_quiet.
Qed.
End Semaphore.
