(* ===== verification/Rwlock.v ===== *)
(** * Reader-writer locks

    Models [arch/x86/rwlock.c] as a client of the spinlock.  Every thread
    also counts the rounds of [rwlock_write_lock] in which it did not get the
    lock, which the code does not look at: [rwlock_pending] shows what
    [pending_writers] holds in terms of it. *)

From stdpp Require Import relations.
From S2P Require Import Prelude Proc Sync Semaphore.

Record rwlock := mkRwlock {
  readers : Z; pending_writers : Z; writer_wait : Z; reader_wait : Z }.
#[global] Instance rwlock_eta : Etable rwlock := λ r,
  mkRwlock (readers r) (pending_writers r) (writer_wait r) (reader_wait r).

Definition rwlock_init : rwlock := mkRwlock 0 0 0 0.

(** Program points inside the critical sections of the four operations. *)
Inductive rw_point :=
| RdReaders | RdPending | RdLoad | RdStore (v : Z)
| RuLoad | RuStore (v : Z) | RuTest
| WlLoad | WlStore (v : Z) | WlTest | WlSet | WlDecLoad | WlDecStore (v : Z)
| WuStore.

(** Outside: not holding the lock; holding it for reading or for writing; at
    the [sti; hlt; cli] of the two waiting loops. *)
Inductive rw_out := RwIdle | RwReading | RwWriting | RwReadWait | RwWriteWait.

Abbreviation rw_c := (rw_point * Z)%type.
Abbreviation rw_o := (rw_out * Z)%type.

Definition rwlock_read_lock (s : rwlock) (c : rw_point) (f : Z) : rwlock * (rw_c + rw_o) :=
  match c with
  | RdReaders => (s, if 0 <=? readers s then inl (RdPending, f) else inr (RwReadWait, f))
  | RdPending =>
      (s, if pending_writers s =? 0 then inl (RdLoad, f) else inr (RwReadWait, f))
  | RdStore v => (s <| readers := i32 (v + 1) |>, inr (RwReading, f))
  | _ => (s, inl (RdStore (readers s), f))
  end.

(** The test after the decrement has an empty body. *)
Definition rwlock_read_unlock (s : rwlock) (c : rw_point) (f : Z) : rwlock * (rw_c + rw_o) :=
  match c with
  | RuLoad => (s, inl (RuStore (readers s), f))
  | RuStore v => (s <| readers := i32 (v - 1) |>, inl (RuTest, f))
  | _ =>
      (s, if (readers s =? 0) && nz (writer_wait s) then inr (RwIdle, f) else inr (RwIdle, f))
  end.

Definition rwlock_write_lock (s : rwlock) (c : rw_point) (f : Z) : rwlock * (rw_c + rw_o) :=
  match c with
  | WlLoad => (s, inl (WlStore (pending_writers s), f))
  | WlStore v => (s <| pending_writers := u32 (v + 1) |>, inl (WlTest, f))
  | WlTest => (s, if readers s =? 0 then inl (WlSet, f) else inr (RwWriteWait, f + 1))
  | WlSet => (s <| readers := -1 |>, inl (WlDecLoad, f))
  | WlDecStore v => (s <| pending_writers := u32 (v - 1) |>, inr (RwWriting, f))
  | _ => (s, inl (WlDecStore (pending_writers s), f))
  end.

Definition rwlock_write_unlock (s : rwlock) (f : Z) : rwlock * (rw_c + rw_o) :=
  (s <| readers := 0 |>, inr (RwIdle, f)).

Definition rw_body (i : Z) (s : rwlock) (cf : rw_c) : rwlock * (rw_c + rw_o) :=
  let '(c, f) := cf in
  match c with
  | RdReaders | RdPending | RdLoad | RdStore _ => rwlock_read_lock s c f
  | RuLoad | RuStore _ | RuTest => rwlock_read_unlock s c f
  | WuStore => rwlock_write_unlock s f
  | _ => rwlock_write_lock s c f
  end.

(** An idle thread takes the lock for reading or for writing, a holder gives
    it back, a waiting thread goes round its loop: [cli] leaves it with
    interrupts off. *)
Definition rw_outside (k : nat) (i : Z) (ab : unit * bool) (st : rw_o) :
    option (unit * bool * (rw_o + rw_c)) :=
  let '(o, f) := st in
  match o with
  | RwIdle => Some (ab, inr (if bool_decide (k = 0%nat) then RdReaders else WlLoad, f))
  | RwReading => Some (ab, inr (RuLoad, f))
  | RwWriting => Some (ab, inr (WuStore, f))
  | RwReadWait => Some (tt, false, inr (RdReaders, f))
  | RwWriteWait => Some (tt, false, inr (WlLoad, f))
  end.

(** Threads without a process: [current_process] is [NULL] or has a pid. *)
Section Rwlock.
Context (cur : Z → option Z).

#[export] Instance rw_client : LockClient unit rwlock rw_c rw_o := {|
  lc_irq := true;
  lc_pid i := default 0 (cur i);
  lc_body := rw_body;
  lc_out := rw_outside |}.

(** ** What one critical section does, run without interruption *)

Definition rw_effect (c : rw_point) (f : Z) (s s' : rwlock) (o : rw_o) : Prop :=
  match c with
  | RdReaders =>
      if (0 <=? readers s) && (pending_writers s =? 0)
      then s' = s <| readers := i32 (readers s + 1) |> ∧ o = (RwReading, f)
      else s' = s ∧ o = (RwReadWait, f)
  | RuLoad => s' = s <| readers := i32 (readers s - 1) |> ∧ o = (RwIdle, f)
  | WlLoad =>
      if readers s =? 0
      then s' = s <| readers := -1 |>
                  <| pending_writers := u32 (u32 (pending_writers s + 1) - 1) |> ∧
           o = (RwWriting, f)
      else s' = s <| pending_writers := u32 (pending_writers s + 1) |> ∧
           o = (RwWriteWait, f + 1)
  | WuStore => s' = s <| readers := 0 |> ∧ o = (RwIdle, f)
  | _ => False
  end.

Definition rw_entry (c : rw_point) : Prop :=
  match c with RdReaders | RuLoad | WlLoad | WuStore => True | _ => False end.

Ltac unroll_body H := repeat (apply body_big_inv in H; simpl in H).

Lemma rw_big i s c f s' o :
  rw_entry c → body_big (LC := rw_client) i s (c, f) s' o → rw_effect c f s s' o.
Proof.
  intros Hc Hb. destruct c; try done; simpl.
  - apply body_big_inv in Hb; simpl in Hb. destruct (0 <=? readers s); simpl; [|done].
    apply body_big_inv in Hb; simpl in Hb. destruct (pending_writers s =? 0); simpl; [|done].
    by unroll_body Hb.
  - do 3 (apply body_big_inv in Hb; simpl in Hb). by destruct (_ && _).
  - do 3 (apply body_big_inv in Hb; simpl in Hb). destruct (readers s =? 0); [|done].
    by unroll_body Hb.
  - by unroll_body Hb.
Qed.

(** ** Who holds the lock *)

Definition a_reading (u : athread rw_c rw_o) : Z :=
  match u with AOutside (RwReading, _) _ | AWaiting (RuLoad, _) _ => 1 | _ => 0 end.
Definition a_writing (u : athread rw_c rw_o) : Z :=
  match u with AOutside (RwWriting, _) _ | AWaiting (WuStore, _) _ => 1 | _ => 0 end.
Definition a_failed (u : athread rw_c rw_o) : Z :=
  match u with AOutside o _ => o.2 | AWaiting c _ => c.2 end.

Record rw_inv (y : aconf unit rwlock rw_c rw_o) : Prop := {
  ri_readers :
    (readers (a_data y) = tally a_reading (a_threads y) ∧ tally a_writing (a_threads y) = 0) ∨
    (readers (a_data y) = -1 ∧ tally a_reading (a_threads y) = 0 ∧
       tally a_writing (a_threads y) = 1);
  ri_pending : pending_writers (a_data y) = u32 (tally a_failed (a_threads y));
  ri_entry i c f b : a_threads y !! i = Some (AWaiting (c, f) b) → rw_entry c;
  ri_size : Z.of_nat (size (a_threads y)) ≤ INT_MAX }.

Lemma a_reading_range u : 0 ≤ a_reading u ≤ 1.
Proof. destruct u as [[[] ?] ?|[[] ?] ?]; simpl; lia. Qed.
Lemma a_writing_range u : 0 ≤ a_writing u ≤ 1.
Proof. destruct u as [[[] ?] ?|[[] ?] ?]; simpl; lia. Qed.

(** [pending_writers] is incremented and decremented modulo [2^32]. *)
Lemma pending_back z : u32 (u32 (u32 z + 1) - 1) = u32 z.
Proof.
  unfold wrap. rewrite Zminus_mod_idemp_l.
  replace (z `mod` 2 ^ 32 + 1 - 1) with (z `mod` 2 ^ 32) by lia. by apply Z.mod_mod.
Qed.

Lemma rw_entry_insert (m : gmap Z (athread rw_c rw_o)) i u :
  (∀ j c f b, m !! j = Some (AWaiting (c, f) b) → rw_entry c) →
  (∀ c f b, u = AWaiting (c, f) b → rw_entry c) →
  ∀ j c f b, <[i := u]> m !! j = Some (AWaiting (c, f) b) → rw_entry c.
Proof. intros Hm Hu j c f b. rewrite lookup_insert. case_decide; naive_solver. Qed.

Lemma rw_inv_out k i ab ab' (o : rw_o) r b b' m d :
  rw_inv (AConf tt d m) → m !! i = Some (AOutside o b) →
  rw_outside k i ab o = Some (ab', r) →
  rw_inv (AConf tt d (<[i := match r with
                             | inl o' => AOutside o' b'
                             | inr c => AWaiting c b'
                             end]> m)).
Proof.
  intros [Hr Hp He Hz] Hi Ho. destruct o as [o f]. simpl in *.
  assert (∃ c, r = inr (c, f) ∧ rw_entry c ∧
    a_reading (AWaiting (c, f) b') = a_reading (AOutside (o, f) b) ∧
    a_writing (AWaiting (c, f) b') = a_writing (AOutside (o, f) b)) as (c & -> & Hc & E1 & E2).
  { destruct o; simpl in Ho; simplify_eq; [case_bool_decide|..]; by eexists. }
  split; simpl.
  - by rewrite !(tally_insert _ m i _ _ Hi), E1, E2, !Z.sub_add.
  - by rewrite (tally_insert _ m i _ _ Hi), !Z.sub_add.
  - apply rw_entry_insert; [done|naive_solver].
  - by rewrite map_size_insert_Some by eauto.
Qed.

Lemma rw_inv_section i (c : rw_point) (f : Z) (o : rw_o) b m d d' :
  rw_inv (AConf tt d m) → m !! i = Some (AWaiting (c, f) b) →
  rw_effect c f d d' o → rw_inv (AConf tt d' (<[i := AOutside o b]> m)).
Proof.
  intros [Hr Hp He Hz] Hi Heff. simpl in *.
  pose proof (tally_nonneg a_reading m (λ u, proj1 (a_reading_range u))) as Hr0.
  pose proof (tally_nonneg a_writing m (λ u, proj1 (a_writing_range u))) as Hw0.
  pose proof (tally_ge a_reading m i _ (λ u, proj1 (a_reading_range u)) Hi) as Hri.
  pose proof (tally_ge a_writing m i _ (λ u, proj1 (a_writing_range u)) Hi) as Hwi.
  assert (Z.of_nat (size (<[i := AOutside o b]> m)) ≤ INT_MAX) as Hz'
    by (by rewrite map_size_insert_Some by eauto).
  pose proof (tally_bound a_reading (<[i := AOutside o b]> m)
    (λ u, proj2 (a_reading_range u))) as Hrb.
  rewrite (tally_insert _ m i _ _ Hi) in Hrb.
  split; simpl; [| |apply rw_entry_insert; [done|naive_solver]|done];
    rewrite !(tally_insert _ m i _ _ Hi);
    destruct c; try done; simpl in *; repeat case_match; destruct_and?; simplify_eq/=.
  all: rewrite ?Z.sub_0_r, ?Z.add_0_r, ?Z.sub_add, ?andb_true_iff, ?Z.leb_le, ?Z.eqb_eq in *.
  all: try lia.
  - rewrite i32_small; unfold INT_MAX in *; lia.
  - rewrite i32_small; unfold INT_MAX in *; lia.
  - rewrite Hp. apply pending_back.
  - rewrite Hp. unfold wrap. rewrite Zplus_mod_idemp_l. f_equal. lia.
Qed.

Lemma rw_inv_step y y' : rw_inv y → astep (LC := rw_client) y y' → rw_inv y'.
Proof.
  intros HI Hs. destruct Hs as [k i [] [] d m o r b b' Hi Ho|i [] d d' m [c f] b o Hi Hb].
  - by eapply (rw_inv_out k i (tt, b)).
  - eapply rw_inv_section; [done..|]. eapply rw_big; [|done].
    by eapply (ri_entry _ HI).
Qed.

Lemma rw_reach (ts : gmap Z bool) x :
  Z.of_nat (size ts) ≤ INT_MAX →
  rtc (step (LC := rw_client)) (start tt rwlock_init ((λ b, ((RwIdle, 0), b)) <$> ts)) x →
  ∃ y, sim (LC := rw_client) x y ∧ rw_inv y.
Proof.
  intros Hz (_ & y & Hy & HS)%reach_sim. exists y. split; [done|].
  revert Hy. apply (rtc_ind_r rw_inv); [|intros; by eapply rw_inv_step].
  assert (∀ f : athread rw_c rw_o → Z, (∀ b, f (AOutside (RwIdle, 0) b) = 0) →
    tally f (a_threads (astart tt rwlock_init ((λ b, ((RwIdle, 0), b)) <$> ts))) = 0) as E.
  { intros f Hf. apply tally_zero. intros i u. simpl.
    rewrite !lookup_fmap. destruct (ts !! i); simpl; naive_solver. }
  split; rewrite ?E by done; simpl; [by left|done| |by rewrite !map_size_fmap].
  intros i c f b. rewrite !lookup_fmap. destruct (ts !! i); simpl; naive_solver.
Qed.

(** C12: the reader-writer lock excludes: while a thread holds it for
    writing, no other thread holds it for reading or for writing, for any
    number of threads below [2^31] and any interleaving of memory accesses. *)
Theorem rwlock_exclusion (ts : gmap Z bool) x i j oi oj fi fj bi bj gi gj :
  rtc (step (LC := rw_client)) (start tt rwlock_init ((λ b, ((RwIdle, 0), b)) <$> ts)) x →
  Z.of_nat (size ts) ≤ INT_MAX →
  threads x !! i = Some (Thread (Outside (oi, fi)) bi gi) →
  threads x !! j = Some (Thread (Outside (oj, fj)) bj gj) →
  oi = RwWriting → oj = RwReading ∨ oj = RwWriting → i = j.
Proof.
  intros Hx Hz Hi Hj -> Ho. destruct (rw_reach ts x Hz Hx) as (y & HS & [Hr _ _ _]).
  apply (sim_outside x y) in Hi, Hj; [|done..].
  destruct (decide (i = j)) as [|Hij]; [done|exfalso].
  pose proof (tally_ge2 a_writing _ i j _ _ (λ u, proj1 (a_writing_range u)) Hij Hi Hj).
  pose proof (tally_ge a_reading _ j _ (λ u, proj1 (a_reading_range u)) Hj).
  destruct Ho as [-> | ->]; simpl in *; lia.
Qed.

Definition th_failed (t : thread rw_c rw_o) : Z :=
  match t_pc t with
  | Outside o | RelOwner o | RelStore o | IrqRestore o => o.2
  | IrqSave c | AcqCas c | AcqSpin c | AcqOwner c | Inside c => c.2
  end.

Lemma rw_body_failed i s cf s' cf' : rw_body i s cf = (s', inl cf') → cf'.2 = cf.2.
Proof.
  destruct cf as [[] f]; simpl; repeat case_match; intros; by simplify_eq/=.
Qed.

Lemma rw_sim_failed i d0 d t u :
  simt (LC := rw_client) i d0 d t u → th_failed t = a_failed u.
Proof.
  unfold simt, th_failed. destruct (t_pc t); try by intros ->.
  intros (c0 & -> & Hr). simpl. induction Hr as [|? ? ? ? ? ? _ IH Hb]; [done|].
  apply rw_body_failed in Hb as ->. done.
Qed.

(** [pending_writers] counts, modulo [2^32], every round of
    [rwlock_write_lock] that did not get the lock, and is never decremented
    for them: it does not return to zero when the writers are done.  Since
    [rwlock_read_lock] waits for it to be zero, one round of waiting by one
    writer keeps every later reader out. *)
Theorem rwlock_pending (ts : gmap Z bool) x :
  rtc (step (LC := rw_client)) (start tt rwlock_init ((λ b, ((RwIdle, 0), b)) <$> ts)) x →
  Z.of_nat (size ts) ≤ INT_MAX →
  (∀ i t, threads x !! i = Some t → inside t = false) →
  pending_writers (data x) = u32 (tally th_failed (threads x)).
Proof.
  intros Hx Hz Hq. destruct (rw_reach ts x Hz Hx) as (y & HS & [_ Hp _ _]).
  rewrite <-(sim_data x y HS Hq), Hp. f_equal. symmetry.
  apply sim_tally; [|done]. intros. by eapply rw_sim_failed.
Qed.
End Rwlock.
