(* ===== verification/Mutex.v ===== *)
(** * Sleeping mutexes

    Models [arch/x86/mutex.c]: the wait queue (an intrusive linked list of
    [mutex_waiter_t] objects on the stacks of the waiting threads) and the four
    operations, as a client of the spinlock [wait_lock].  The atomic word
    [state] and [owner_pid] are accessed without the lock, one access per
    step; the queue functions only run under it. *)

From stdpp Require Import relations.
From S2P Require Import Prelude Proc Sync Semaphore.

(** ** The wait queue *)

Record waiter := mkWaiter { w_next : Z; w_proc : Z }.
#[global] Instance waiter_eta : Etable waiter := λ w, mkWaiter (w_next w) (w_proc w).

(** The queue fields of [mutex_t], the memory of the waiter objects and the
    [state] fields of the processes (by address). *)
Record wqueue := mkWqueue {
  wait_head : Z; wait_tail : Z; wait_count : Z;
  nodes : gmap Z waiter; tasks : gmap Z task_state }.
#[global] Instance wqueue_eta : Etable wqueue := λ q,
  mkWqueue (wait_head q) (wait_tail q) (wait_count q) (nodes q) (tasks q).

Definition node (q : wqueue) (a : Z) : waiter := default (mkWaiter 0 0) (nodes q !! a).
Definition set_node (a : Z) (w : waiter) (q : wqueue) : wqueue :=
  q <| nodes := <[a := w]> (nodes q) |>.
Definition set_next (a v : Z) (q : wqueue) : wqueue :=
  set_node a ((node q a) <| w_next := v |>) q.

(** [__wait_enqueue(mutex, waiter)] called by the process at [p]. *)
Definition wait_enqueue (p w : Z) (q : wqueue) : wqueue :=
  let q := set_node w ((node q w) <| w_proc := p |>) q in
  let q := set_next w 0 q in
  let q := if nz (wait_tail q) then set_next (wait_tail q) w q
           else q <| wait_head := w |> in
  let q := q <| wait_tail := w |> in
  q <| wait_count := u32 (wait_count q + 1) |>.

(** [__wait_dequeue]: the process of the first waiter, [0] for [NULL]. *)
Definition wait_dequeue (q : wqueue) : wqueue * Z :=
  if negb (nz (wait_head q)) then (q, 0)
  else
    let w := wait_head q in
    let q := q <| wait_head := w_next (node q w) |> in
    let q := if negb (nz (wait_head q)) then q <| wait_tail := 0 |> else q in
    let q := q <| wait_count := u32 (wait_count q - 1) |> in
    (q, w_proc (node q w)).

(** [*pp] and [*pp = v], for [pp] equal to [&mutex->wait_head] ([None]) or to
    [&w->next] ([Some w]). *)
Definition read_pp (q : wqueue) (pp : option Z) : Z :=
  match pp with None => wait_head q | Some w => w_next (node q w) end.
Definition write_pp (pp : option Z) (v : Z) (q : wqueue) : wqueue :=
  match pp with None => q <| wait_head := v |> | Some w => set_next w v q end.

(** One round of the loop of [__wait_remove]: the loop ends ([inr]) or goes on
    with the next [pp]. *)
Definition wait_remove_round (p : Z) (pp : option Z) (q : wqueue) : wqueue * (option Z + unit) :=
  let w := read_pp q pp in
  if negb (nz w) then (q, inr tt)
  else if w_proc (node q w) =? p then
    let q := write_pp pp (w_next (node q w)) q in
    let q := if negb (nz (read_pp q pp)) then q <| wait_tail := 0 |> else q in
    (q <| wait_count := u32 (wait_count q - 1) |>, inr tt)
  else (q, inl (Some w)).

Fixpoint wait_remove_from (n : nat) (p : Z) (pp : option Z) (q : wqueue) : option wqueue :=
  match n with
  | O => None
  | S n' =>
      match wait_remove_round p pp q with
      | (q', inr _) => Some q'
      | (q', inl pp') => wait_remove_from n' p pp' q'
      end
  end.

(** [__wait_remove(mutex, proc)] with a bound on the rounds. *)
Definition wait_remove (n : nat) (p : Z) (q : wqueue) : option wqueue :=
  wait_remove_from n p None q.

(** *** The list a queue stands for *)

(** From pointer [a], following [next], the queue holds the waiters [l]
    (address and process) and ends in [NULL]. *)
Fixpoint chain (q : wqueue) (a : Z) (l : list (Z * Z)) : Prop :=
  match l with
  | [] => a = 0
  | (w, p) :: l' => a = w ∧ w ≠ 0 ∧ w_proc (node q w) = p ∧ chain q (w_next (node q w)) l'
  end.

Record queue_rep (q : wqueue) (l : list (Z * Z)) : Prop := {
  qr_chain : chain q (wait_head q) l;
  qr_nodup : NoDup l.*1;
  qr_tail : wait_tail q = default 0 (list.last l.*1);
  qr_count : wait_count q = u32 (Z.of_nat (length l)) }.

(** Membership in lists of waiters. *)
Ltac in_list :=
  csimpl in *;
  do 2 (rewrite ?fmap_app, ?not_elem_of_cons, ?elem_of_cons, ?not_elem_of_app, ?elem_of_app,
          ?elem_of_nil in *; csimpl in *);
  intuition congruence.

Lemma node_set_eq a w q : node (set_node a w q) a = w.
Proof. unfold node, set_node. csimpl. by rewrite lookup_insert_eq. Qed.
Lemma node_set_ne a b w q : a ≠ b → node (set_node a w q) b = node q b.
Proof. intros. unfold node, set_node. csimpl. by rewrite lookup_insert_ne. Qed.

Lemma node_next_ne a b v q : a ≠ b → node (set_next a v q) b = node q b.
Proof. apply node_set_ne. Qed.

Lemma chain_ext q q' a l :
  (∀ b, b ∈ l.*1 → node q' b = node q b) → chain q a l → chain q' a l.
Proof.
  revert a. induction l as [|[w p] l IH]; intros a Hn; csimpl; [done|].
  intros (-> & Hw & Hp & Hc). rewrite Hn by in_list. split_and!; [done..|].
  apply IH; [|done]. intros b Hb. apply Hn. in_list.
Qed.

Lemma chain_zero q l : chain q 0 l → l = [].
Proof. destruct l as [|[w p] l]; csimpl; [done|]. intros (<- & ? & _). done. Qed.

Lemma chain_nonzero q a l w : chain q a l → w ∈ l.*1 → w ≠ 0.
Proof.
  revert a. induction l as [|[v pv] l IH]; intros a; csimpl; [in_list|].
  intros (_ & ? & _ & Hc) [->|]%elem_of_cons; eauto.
Qed.

Lemma chain_snoc q a l t pt w p :
  chain q a (l ++ [(t, pt)]) → NoDup (l ++ [(t, pt)]).*1 → w ∉ (l ++ [(t, pt)]).*1 → w ≠ 0 →
  node q w = mkWaiter 0 p →
  chain (set_next t w q) a (l ++ [(t, pt); (w, p)]).
Proof.
  revert a. induction l as [|[v pv] l IH]; intros a; csimpl.
  - intros (-> & Ht0 & Hpt & Hz) _ Hw Hw0 Hn. unfold set_next. rewrite !node_set_eq. csimpl.
    rewrite node_set_ne, Hn by in_list. done.
  - intros (-> & Hv0 & Hpv & Hc) [Hv Hd]%list.NoDup_cons Hw Hw0 Hn.
    assert (t ≠ v) by in_list.
    unfold set_next. rewrite node_set_ne by done. split_and!; [done..|].
    apply IH; try done. in_list.
Qed.

(** [__wait_enqueue] of a waiter that is not queued appends it. *)
Lemma wait_enqueue_rep q l w p :
  queue_rep q l → w ∉ l.*1 → w ≠ 0 → queue_rep (wait_enqueue p w q) (l ++ [(w, p)]).
Proof.
  intros [Hc Hd Ht Hn] Hw Hw0. unfold wait_enqueue.
  set (q1 := set_next w 0 (set_node w ((node q w) <| w_proc := p |>) q)).
  assert (∀ b, b ∈ l.*1 → node q1 b = node q b) as Hq1.
  { intros b Hb. assert (w ≠ b) by congruence. unfold q1, set_next. by rewrite !node_set_ne. }
  assert (node q1 w = mkWaiter 0 p) as Hnw.
  { unfold q1, set_next. by rewrite !node_set_eq. }
  change (wait_tail q1) with (wait_tail q).
  assert (NoDup (l ++ [(w, p)]).*1) as Hd'.
  { rewrite fmap_app. apply list.NoDup_app. split_and!; [done| |].
    intros b Hb; csimpl; rewrite list_elem_of_singleton; in_list. apply NoDup_singleton. }
  assert (list.last (l ++ [(w, p)]).*1 = Some w) as Hl'
    by (rewrite fmap_app; apply list.last_snoc).
  assert (u32 (wait_count q + 1) = u32 (Z.of_nat (length (l ++ [(w, p)])))) as Hcnt.
  { rewrite Hn, length_app. unfold wrap. rewrite Zplus_mod_idemp_l. f_equal. csimpl. lia. }
  destruct l as [|[t pt] l] using rev_ind.
  - rewrite Ht. csimpl. split; try done. csimpl. change (node _ w) with (node q1 w).
    by rewrite Hnw.
  - clear IHl. rewrite fmap_app in Ht. csimpl in Ht. rewrite list.last_snoc in Ht. csimpl in Ht.
    rewrite Ht, (proj2 (nz_true t)) by (eapply chain_nonzero; [done|in_list]).
    split; try done; csimpl; [|by rewrite Hl'].
    rewrite <-app_assoc. eapply (chain_ext (set_next t w q1)); [done|].
    apply chain_snoc; try done. by eapply chain_ext.
Qed.

(** [__wait_dequeue] takes the first waiter and returns its process. *)
Lemma wait_dequeue_rep q l :
  queue_rep q l →
  match l with
  | [] => wait_dequeue q = (q, 0)
  | (w, p) :: l' => (wait_dequeue q).2 = p ∧ queue_rep (wait_dequeue q).1 l'
  end.
Proof.
  intros [Hc Hd Ht Hn]. unfold wait_dequeue. destruct l as [|[w p] l]; csimpl in *.
  - by rewrite Hc.
  - destruct Hc as (-> & Hw0 & Hp & Hc). rewrite (proj2 (nz_true w) Hw0). csimpl.
    apply list.NoDup_cons in Hd as [Hw Hd].
    assert (u32 (wait_count q - 1) = u32 (Z.of_nat (length l))) as Hcnt.
    { rewrite Hn. unfold wrap. rewrite Zminus_mod_idemp_l. f_equal. lia. }
    destruct (nz (w_next (node q w))) eqn:E; csimpl; (split; [done|]); split; csimpl; try done.
    + by apply (chain_ext q).
    + rewrite Ht. destruct l as [|[v pv] l]; [|done].
      csimpl in *. rewrite Hc in E. done.
    + by apply (chain_ext q).
    + apply nz_false in E. rewrite E in Hc. apply chain_zero in Hc as ->. done.
Qed.

(** *** [__wait_remove] *)

(** Where [pp] points after the loop has passed the waiters [l]. *)
Definition pp_after (pp : option Z) (l : list (Z * Z)) : option Z :=
  match list.last l.*1 with Some w => Some w | None => pp end.

Lemma pp_after_cons pp w p l : pp_after pp ((w, p) :: l) = pp_after (Some w) l.
Proof.
  unfold pp_after. csimpl. rewrite list.last_cons. by destruct (list.last l.*1).
Qed.

Lemma remove_walk n p pp q l1 rest :
  chain q (read_pp q pp) (l1 ++ rest) → p ∉ l1.*2 →
  wait_remove_from (length l1 + n) p pp q = wait_remove_from n p (pp_after pp l1) q ∧
  chain q (read_pp q (pp_after pp l1)) rest.
Proof.
  revert pp. induction l1 as [|[w pw] l1 IH]; intros pp; csimpl; [done|].
  intros (E & Hw0 & Hpw & Hc) Hp. unfold wait_remove_round.
  rewrite E, (proj2 (nz_true w) Hw0), Hpw, pp_after_cons. csimpl.
  rewrite (proj2 (Z.eqb_neq pw p)) by in_list.
  apply (IH (Some w)); [done|in_list].
Qed.

(** Unlinking the waiter after [l1]. *)
Lemma chain_unlink q a l1 t pt w p l2 :
  chain q a (l1 ++ (t, pt) :: (w, p) :: l2) → NoDup (l1 ++ (t, pt) :: (w, p) :: l2).*1 →
  chain (set_next t (w_next (node q w)) q) a (l1 ++ (t, pt) :: l2).
Proof.
  revert a. induction l1 as [|[v pv] l1 IH]; intros a; csimpl.
  - intros (-> & Ht0 & Hpt & Hw & Hw0 & Hpw & Hc) [Ht Hd]%list.NoDup_cons. split_and!; try done.
    + unfold set_next. by rewrite node_set_eq.
    + unfold set_next at 2. rewrite node_set_eq. simpl.
      eapply chain_ext; [|done]. intros b Hb. unfold set_next.
      apply node_set_ne. in_list.
  - intros (-> & Hv0 & Hpv & Hc) [Hv Hd]%list.NoDup_cons.
    assert (t ≠ v) by in_list.
    rewrite !node_next_ne by done. split_and!; [done..|]. by apply IH.
Qed.

(** What [__wait_remove] leaves: the list without the waiter, but with
    [wait_tail] cleared when the waiter was the last one. *)
Lemma wait_remove_last q l1 w p l2 :
  queue_rep q (l1 ++ (w, p) :: l2) → p ∉ l1.*2 →
  ∃ q', wait_remove (length l1 + 1) p q = Some q' ∧
    chain q' (wait_head q') (l1 ++ l2) ∧
    wait_count q' = u32 (Z.of_nat (length (l1 ++ l2))) ∧
    wait_tail q' = (if decide (l2 = []) then 0 else wait_tail q).
Proof.
  intros [Hc Hd Ht Hn] Hp. unfold wait_remove.
  destruct (remove_walk 1 p None q l1 _ Hc Hp) as [-> Hr]. csimpl in Hr.
  destruct Hr as (E & Hw0 & Hpw & Hr). csimpl. unfold wait_remove_round.
  rewrite E, (proj2 (nz_true w) Hw0), Hpw, Z.eqb_refl. csimpl. eexists. split; [done|].
  set (pp := pp_after None l1) in *. set (q1 := write_pp pp (w_next (node q w)) q).
  assert (read_pp q1 pp = w_next (node q w)) as ->.
  { unfold q1. destruct pp as [t|]; [|done]. simpl. unfold set_next. by rewrite node_set_eq. }
  assert (chain q1 (wait_head q1) (l1 ++ l2)) as Hc1.
  { unfold q1, pp, pp_after. induction l1 as [|[t pt] l1 _] using rev_ind;
      [by apply (chain_ext q)|].
    rewrite fmap_app. csimpl. rewrite list.last_snoc. simpl.
    rewrite <-app_assoc in Hc, Hd |- *. by apply (chain_unlink q _ l1 t pt w p l2). }
  assert (u32 (wait_count q - 1) = u32 (Z.of_nat (length (l1 ++ l2)))) as Hcnt.
  { rewrite Hn, !length_app. unfold wrap. rewrite Zminus_mod_idemp_l. f_equal. csimpl. lia. }
  assert (wait_count q1 = wait_count q ∧ wait_tail q1 = wait_tail q) as [E1 E2]
    by (by unfold q1; destruct pp).
  destruct (nz (w_next (node q w))) eqn:En; simpl; rewrite E1; split_and!; try done;
    try by apply (chain_ext q1).
  - rewrite decide_False; [done|]. intros ->. csimpl in Hr. rewrite Hr in En. done.
  - apply nz_false in En. rewrite En in Hr. apply chain_zero in Hr as ->.
    by rewrite decide_True.
Qed.

Lemma wait_remove_absent q l p :
  queue_rep q l → p ∉ l.*2 → wait_remove (length l + 1) p q = Some q.
Proof.
  intros [Hc _ _ _] Hp. unfold wait_remove.
  destruct (remove_walk 1 p None q l []) as [-> Hr]; [by rewrite app_nil_r|done|].
  csimpl in Hr. simpl. unfold wait_remove_round. by rewrite Hr.
Qed.

(** On a well-formed wait queue whose waiters are [l],
    [__wait_enqueue] of a waiter that is not queued appends it;
    [__wait_dequeue] takes the oldest waiter and returns its process, or
    [NULL] on an empty queue; [__wait_remove] terminates and takes out the
    first waiter of the process if it is not the last of the queue or the
    only one. *)
Theorem wait_queue_correct q l :
  queue_rep q l →
  (∀ w p, w ∉ l.*1 → w ≠ 0 → queue_rep (wait_enqueue p w q) (l ++ [(w, p)])) ∧
  match l with
  | [] => wait_dequeue q = (q, 0)
  | (w, p) :: l' => (wait_dequeue q).2 = p ∧ queue_rep (wait_dequeue q).1 l'
  end ∧
  (∀ p, p ∉ l.*2 → wait_remove (length l + 1) p q = Some q) ∧
  (∀ l1 w p l2, l = l1 ++ (w, p) :: l2 → p ∉ l1.*2 → (l1 = [] ∨ l2 ≠ []) →
     ∃ q', wait_remove (length l1 + 1) p q = Some q' ∧ queue_rep q' (l1 ++ l2)).
Proof.
  intros Hq. split_and!.
  - intros w p. by apply wait_enqueue_rep.
  - by apply wait_dequeue_rep.
  - intros p. by apply wait_remove_absent.
  - intros l1 w p l2 -> Hp Hl. destruct (wait_remove_last q l1 w p l2 Hq Hp)
      as (q' & Hq' & Hc & Hn & Ht). exists q'. split; [done|].
    pose proof Hq as [_ Hd Htq _]. split; [done| | |done].
    + rewrite fmap_app in *. csimpl in Hd. apply list.NoDup_app in Hd as (? & Hd1 & Hd2).
      apply list.NoDup_cons in Hd2 as [_ Hd2]. apply list.NoDup_app. split_and!; try done.
      intros v Hv Hv2. apply (Hd1 v Hv), elem_of_cons. by right.
    + rewrite Ht. case_decide as E2.
      * subst. destruct Hl as [->|]; done.
      * rewrite Htq, !fmap_app. csimpl. clear -E2.
        induction l2 as [|[v pv] l2 _] using rev_ind; [done|].
        rewrite fmap_app, app_comm_cons, !app_assoc. csimpl. by rewrite !list.last_snoc.
Qed.

(** [__wait_remove] of the last of several waiters clears [wait_tail]
    although the queue is not empty, and the next [__wait_enqueue] then
    overwrites [wait_head]: all the waiters that were queued are lost. *)
Theorem wait_remove_loses_waiters q l1 w p w' p' :
  queue_rep q (l1 ++ [(w, p)]) → l1 ≠ [] → p ∉ l1.*2 → w' ∉ l1.*1 → w' ≠ 0 →
  ∃ q', wait_remove (length l1 + 1) p q = Some q' ∧
    chain q' (wait_head q') l1 ∧
    chain (wait_enqueue p' w' q') (wait_head (wait_enqueue p' w' q')) [(w', p')].
Proof.
  intros Hq Hl1 Hp Hw' Hw0. destruct (wait_remove_last q l1 w p [] Hq Hp)
    as (q' & Hq' & Hc & Hn & Ht). exists q'. rewrite app_nil_r in Hc. split_and!; [done..|].
  rewrite decide_True in Ht by done. unfold wait_enqueue.
  assert (wait_tail (set_next w' 0 (set_node w' ((node q' w') <| w_proc := p' |>) q')) = 0)
    as -> by done.
  csimpl. unfold set_next. split_and!; try done.
  - unfold node at 1. csimpl. by rewrite lookup_insert_eq, node_set_eq.
  - unfold node at 1. csimpl. by rewrite lookup_insert_eq.
Qed.

(** ** The mutex operations *)

(** The words accessed without the lock. *)
Record mwords := mkMwords { m_state : Z; m_owner : Z; m_recursion : Z }.
#[global] Instance mwords_eta : Etable mwords := λ a,
  mkMwords (m_state a) (m_owner a) (m_recursion a).

Definition mutex_init (q : wqueue) : mwords * wqueue :=
  (mkMwords 0 0 0, q <| wait_head := 0 |> <| wait_tail := 0 |> <| wait_count := 0 |>).

(** [mutex_lock], or [mutex_lock_timeout] with its [timeout_ms]. *)
Inductive lmode := Forever | Timeout (ms : Z).

(** Program points outside [wait_lock]: not in a mutex call and not holding
    the mutex; spinning without a process, holding it without a process;
    after the failed exchange; about to set the owner; holding the mutex; in
    [sleep(1)]; about to try again; about to withdraw after the timeout; in
    [mutex_unlock] about to clear the owner, to release the word, or to
    decrement it. *)
Inductive mpoint :=
| MIdle | MBoot | MBootHeld
| MAdd (md : lmode) | MSetOwner | MHeld
| MSleep (md : lmode) | MRecheck (md : lmode) | MTimedOut
| MUnOwner | MUnCas | MUnSub.

(** Under [wait_lock]: enqueue and sleep; remove after the timeout; dequeue
    and wake. *)
Inductive mcrit :=
| CEnqueue (md : lmode) | CWaiting (md : lmode)
| CRemove (pp : option Z) | CDequeue | CWake (p : Z).

Section Mutex.
(** Of each thread, [current_process] and its pid; the address of its
    [waiter] object; the calibration constant [lapic_ticks_per_ms]. *)
Context (cur : Z → option (Z * Z)) (waddr : Z → Z) (lapic_ticks_per_ms : Z).

Definition cur_proc (i : Z) : Z := default 0 (fst <$> cur i).
Definition cur_pid (i : Z) : Z := default 0 (snd <$> cur i).

Definition cas_state (expected desired : Z) (a : mwords) : mwords * bool :=
  let '(v, ok) := atomic_cas (m_state a) expected desired in (a <| m_state := v |>, ok).

(** The first accesses of [mutex_lock] and [mutex_lock_timeout]. *)
Definition mutex_lock_enter (i : Z) (md : lmode) (a : mwords) : mwords * mpoint :=
  let '(a', ok) := cas_state 0 1 a in
  match cur i with
  | None => (a', if ok then MBootHeld else MBoot)
  | Some _ => (a', if ok then MSetOwner else MAdd md)
  end.

Definition mutex_trylock (i : Z) (a : mwords) : mwords * mpoint :=
  let '(a', ok) := cas_state 0 1 a in
  match cur i with
  | None => (a', if ok then MBootHeld else MIdle)
  | Some _ => (a', if ok then MSetOwner else MIdle)
  end.

(** The deadline test of [mutex_lock_timeout]: both operands of the addition
    are 32 bits wide. *)
Definition timed_out (md : lmode) : bool :=
  match md with
  | Forever => false
  | Timeout ms => u32 (lapic_ticks_per_ms + ms) <=? lapic_ticks_per_ms
  end.

(** The loop of [mutex_lock] and [mutex_lock_timeout] from [sleep] on. *)
Definition mutex_lock_loop (i : Z) (a : mwords) (o : mpoint) : mwords * (mpoint + mcrit) :=
  match o with
  | MAdd md => (a <| m_state := (atomic_add (m_state a) 1).1 |>, inr (CEnqueue md))
  | MSleep md => (a, if timed_out md then inr (CRemove None) else inl (MRecheck md))
  | MRecheck md =>
      let '(a', ok) := cas_state 1 1 a in (a', if ok then inl MSetOwner else inr (CEnqueue md))
  | MTimedOut => (a <| m_state := (atomic_fetch_sub (m_state a) 1).1 |>, inl MIdle)
  | _ => (a <| m_owner := cur_pid i |>, inl MHeld)
  end.

(** [mutex_unlock] up to the queue; [o] is where the caller is. *)
Definition mutex_unlock (i : Z) (a : mwords) (o : mpoint) : mwords * (mpoint + mcrit) :=
  match o with
  | MUnOwner => (a <| m_owner := 0 |>, inl MUnCas)
  | MUnCas =>
      let '(a', ok) := cas_state 1 0 a in (a', inl (if ok then MIdle else MUnSub))
  | MUnSub => (a <| m_state := (atomic_fetch_sub (m_state a) 1).1 |>, inr CDequeue)
  | _ =>
      match cur i with
      | None => (a <| m_state := atomic_store (m_state a) 0 |>, inl MIdle)
      | Some (_, pid) => if negb (m_owner a =? pid) then (a, inl o) else (a, inl MUnOwner)
      end
  end.

(** Outside: an idle thread calls any operation (also [mutex_unlock], which
    it should not), a holder unlocks, the loops go on. *)
Definition mutex_out (k : nat) (i : Z) (ab : mwords * bool) (o : mpoint) :
    option (mwords * bool * (mpoint + mcrit)) :=
  let '(a, b) := ab in
  match o with
  | MIdle =>
      match k with
      | 0%nat => let '(a', o') := mutex_lock_enter i Forever a in Some (a', b, inl o')
      | 1%nat => let '(a', o') := mutex_trylock i a in Some (a', b, inl o')
      | 2%nat => let '(a', r) := mutex_unlock i a o in Some (a', b, r)
      | S (S (S ms)) =>
          let '(a', o') := mutex_lock_enter i (Timeout (Z.of_nat ms)) a in Some (a', b, inl o')
      end
  | MBoot => let '(a', ok) := cas_state 0 1 a in Some (a', b, inl (if ok then MBootHeld else MBoot))
  | MBootHeld | MHeld | MUnOwner | MUnCas | MUnSub =>
      let '(a', r) := mutex_unlock i a o in Some (a', b, r)
  | MSleep _ => let '(a', r) := mutex_lock_loop i a o in Some (a', true, r)
  | MAdd _ | MRecheck _ | MTimedOut | MSetOwner =>
      let '(a', r) := mutex_lock_loop i a o in Some (a', b, r)
  end.

(** Under [wait_lock]; [w_proc] is an address, [tasks] is indexed by it. *)
Definition mutex_body (i : Z) (q : wqueue) (c : mcrit) : wqueue * (mcrit + mpoint) :=
  match c with
  | CEnqueue md => (wait_enqueue (cur_proc i) (waddr i) q, inl (CWaiting md))
  | CWaiting md =>
      (q <| tasks := <[cur_proc i := TASK_WAITING]> (tasks q) |>, inr (MSleep md))
  | CRemove pp =>
      let '(q', r) := wait_remove_round (cur_proc i) pp q in
      (q', match r with inl pp' => inl (CRemove pp') | inr _ => inr MTimedOut end)
  | CDequeue =>
      let '(q', p) := wait_dequeue q in
      (q', if nz p then inl (CWake p) else inr MIdle)
  | CWake p => (q <| tasks := <[p := TASK_READY]> (tasks q) |>, inr MIdle)
  end.

#[export] Instance mutex_client : LockClient mwords wqueue mcrit mpoint := {|
  lc_irq := false;
  lc_pid := cur_pid;
  lc_body := mutex_body;
  lc_out := mutex_out |}.

(** ** Mutual exclusion *)

(** Points at which a thread owns the mutex. *)
Definition o_holds (o : mpoint) : bool :=
  match o with MSetOwner | MHeld | MUnOwner | MUnCas | MUnSub => true | _ => false end.
(** Points at which it is counted in [state] as a waiter. *)
Definition o_waits (o : mpoint) : bool :=
  match o with MSleep _ | MRecheck _ | MTimedOut => true | _ => false end.
Definition c_waits (c : mcrit) : bool :=
  match c with CEnqueue _ | CWaiting _ | CRemove _ => true | _ => false end.

Definition a_holds (u : athread mcrit mpoint) : Z :=
  match u with AOutside o _ => Z.b2z (o_holds o) | AWaiting _ _ => 0 end.
Definition a_counts (u : athread mcrit mpoint) : Z :=
  match u with
  | AOutside o _ => Z.b2z (o_holds o || o_waits o)
  | AWaiting c _ => Z.b2z (c_waits c)
  end.
Definition is_boot (o : mpoint) : bool :=
  match o with MBoot | MBootHeld => true | _ => false end.

(** The owner field names the thread between taking and giving up the mutex. *)
Definition a_owns (u : athread mcrit mpoint) : bool :=
  match u with AOutside (MHeld | MUnOwner) _ => true | _ => false end.

Record mutex_inv (y : aconf mwords wqueue mcrit mpoint) : Prop := {
  mi_state : m_state (a_atoms y) = tally a_counts (a_threads y);
  mi_one : tally a_holds (a_threads y) ≤ 1;
  mi_owner i u : a_threads y !! i = Some u → a_owns u = true → m_owner (a_atoms y) = cur_pid i;
  mi_free : m_owner (a_atoms y) = 0 ∨
    ∃ i u, a_threads y !! i = Some u ∧ a_owns u = true ∧ m_owner (a_atoms y) = cur_pid i;
  mi_proc i u : a_threads y !! i = Some u → is_Some (cur i);
  mi_boot i o b : a_threads y !! i = Some (AOutside o b) → is_boot o = false;
  mi_size : Z.of_nat (size (a_threads y)) < 2 ^ 32 }.

Lemma a_holds_range u : 0 ≤ a_holds u ≤ 1.
Proof. destruct u as [o|c]; simpl; [destruct (o_holds o)|]; simpl; lia. Qed.
Lemma a_counts_range u : 0 ≤ a_counts u ≤ 1.
Proof.
  destruct u as [o|c]; simpl; [destruct (o_holds o || o_waits o)|destruct (c_waits c)];
    simpl; lia.
Qed.
Lemma a_holds_counts u : a_holds u ≤ a_counts u.
Proof. destruct u as [[]|[]]; simpl; lia. Qed.
Lemma a_owns_holds u : a_owns u = true → a_holds u = 1.
Proof. by destruct u as [[]|[]]. Qed.

Lemma tally_holds_counts m : tally a_holds m ≤ tally a_counts m.
Proof.
  induction m as [|i u m Hi IH] using map_ind; [by rewrite !tally_empty|].
  rewrite !tally_fresh by done. pose proof (a_holds_counts u). lia.
Qed.

(** A critical section turns a counted waiter into one and leaves an
    uncounted thread idle. *)
Lemma mutex_big i q c q' o :
  body_big (LC := mutex_client) i q c q' o →
  o_holds o = false ∧ o_waits o = c_waits c ∧ is_boot o = false.
Proof.
  assert (∀ q c q1 c1, mutex_body i q c = (q1, inl c1) → c_waits c1 = c_waits c) as Hin.
  { intros q0 c0 q1 c1 H. destruct c0; simpl in H; repeat case_match; by simplify_eq/=. }
  intros (q1 & c1 & Hr & Hb).
  assert (c_waits c1 = c_waits c) as <-.
  { clear Hb. induction Hr as [|? ? ? ? ? ? _ IH Hs]; [done|]. rewrite <-IH.
    by eapply Hin. }
  simpl in Hb. destruct c1; simpl in Hb; repeat case_match; by simplify_eq/=.
Qed.

(** Thread [i] moves from [u] to [u'] and the words from [a] to [a']. *)
Lemma mutex_inv_move a a' q q' m i u u' :
  mutex_inv (AConf a q m) → m !! i = Some u →
  m_state a' = m_state a - a_counts u + a_counts u' →
  tally a_holds m - a_holds u + a_holds u' ≤ 1 →
  (m_owner a' = m_owner a ∧ a_owns u' = a_owns u ∨
   a_holds u = 1 ∧ m_owner a' = 0 ∧ a_owns u' = false ∨
   a_holds u = 1 ∧ m_owner a' = cur_pid i ∧ a_owns u' = true) →
  (∀ o b, u' = AOutside o b → is_boot o = false) →
  mutex_inv (AConf a' q' (<[i := u']> m)).
Proof.
  intros [Hs H1 Ho Hf Hp Hb Hz] Hi Es E1 Hown Hboot. simpl in *.
  assert (a_holds u = 1 → ∀ j v, i ≠ j → m !! j = Some v → a_owns v = false) as Hothers.
  { intros Hu j v Hij Hj. destruct (a_owns v) eqn:Hv; [|done]. apply a_owns_holds in Hv.
    pose proof (tally_ge2 a_holds m i j u v (λ u, proj1 (a_holds_range u)) Hij Hi Hj). lia. }
  split; simpl.
  - rewrite (tally_insert _ m i u u' Hi). lia.
  - rewrite (tally_insert _ m i u u' Hi). lia.
  - intros j v. rewrite lookup_insert. case_decide as Hij.
    + intros [= <-] Hv. subst j. destruct Hown as [[-> E]|[(_ & _ & E)|(_ & ? & _)]]; [|congruence|done].
      apply (Ho i u Hi). congruence.
    + intros Hj Hv. destruct Hown as [[-> _]|[(Hu & _)|(Hu & _)]]; [by eapply Ho|..];
        by rewrite (Hothers Hu j v) in Hv.
  - destruct Hown as [[-> E]|[(_ & ? & _)|(_ & ? & ?)]]; [|by left|].
    + destruct Hf as [?|(j & v & Hj & Hv & ?)]; [by left|right].
      destruct (decide (i = j)) as [<-|Hij].
      * simplify_eq. exists i, u'. rewrite lookup_insert_eq. split_and!; congruence.
      * exists j, v. by rewrite lookup_insert_ne.
    + right. exists i, u'. by rewrite lookup_insert_eq.
  - intros j v. rewrite lookup_insert. case_decide; [intros _; subst; by eapply Hp|apply Hp].
  - intros j o b. rewrite lookup_insert. case_decide; [naive_solver|apply Hb].
  - by rewrite map_size_insert_Some by eauto.
Qed.

(** The word [state] does not wrap. *)
Lemma mutex_state_room a q m i u :
  mutex_inv (AConf a q m) → m !! i = Some u →
  0 ≤ m_state a - a_counts u ∧ m_state a - a_counts u + 1 < 2 ^ 32.
Proof.
  intros [Hs _ _ _ _ _ Hz] Hi. simpl in *. rewrite Hs, (tally_delete _ m i u Hi).
  pose proof (tally_nonneg a_counts (delete i m) (λ u, proj1 (a_counts_range u))).
  pose proof (tally_bound a_counts (delete i m) (λ u, proj2 (a_counts_range u))) as Hb.
  rewrite map_size_delete_Some in Hb by eauto.
  assert (size m ≠ 0%nat) by (intros E; apply map_size_empty_inv in E; by subst).
  lia.
Qed.

(** Nobody holds the mutex when nobody else is counted. *)
Lemma mutex_alone a q m i u :
  mutex_inv (AConf a q m) → m !! i = Some u →
  m_state a = a_counts u → tally a_holds m = a_holds u.
Proof.
  intros [Hs _ _ _ _ _ _] Hi E. simpl in *.
  rewrite (tally_delete _ m i u Hi). rewrite (tally_delete _ m i u Hi) in Hs.
  pose proof (tally_holds_counts (delete i m)).
  pose proof (tally_nonneg a_holds (delete i m) (λ u, proj1 (a_holds_range u))). lia.
Qed.

(** The decrement of [atomic_fetch_sub]. *)
Lemma u32_dec v : 1 ≤ v < 2 ^ 32 → u32 (v + u32 (- (1))) = v - 1.
Proof. intros. change (u32 (v + u32 (- (1)))) with (atomic_fetch_sub v 1).1.
  rewrite atomic_fetch_sub_val. apply wrap_small. lia. Qed.

Section Exclusion.
Context (pid_pos : ∀ i pr, cur i = Some pr → pr.2 ≠ 0).
Context (pid_inj : ∀ i j pi pj, cur i = Some pi → cur j = Some pj → pi.2 = pj.2 → i = j).

(** A process that does not own the mutex fails the owner test. *)
Lemma mutex_not_owner a q m i u pr :
  mutex_inv (AConf a q m) → m !! i = Some u → a_owns u = false → cur i = Some pr →
  (m_owner a =? pr.2) = false.
Proof.
  intros HI Hi Hu Hpr. apply Z.eqb_neq. intros E.
  destruct (mi_free _ HI) as [E0|(j & v & Hj & Hv & Ej)]; simpl in *.
  - apply (pid_pos i pr Hpr). congruence.
  - destruct (mi_proc _ HI j v Hj) as [pj Hpj].
    unfold cur_pid in Ej. rewrite Hpj in Ej. simpl in Ej.
    assert (i = j) as <- by (apply (pid_inj i j pr pj); congruence).
    simpl in *. congruence.
Qed.

Ltac step_with HI Hi := refine (mutex_inv_move _ _ _ _ _ _ _ _ HI Hi _ _ _ _); simpl.

Lemma mutex_inv_out k i a a' b b' q m o r :
  mutex_inv (AConf a q m) → m !! i = Some (AOutside o b) →
  mutex_out k i (a, b) o = Some (a', b', r) →
  mutex_inv (AConf a' q (<[i := match r with
                                | inl o' => AOutside o' b'
                                | inr c => AWaiting c b'
                                end]> m)).
Proof.
  intros HI Hi Ho.
  destruct (mi_proc _ HI i _ Hi) as [pr Hpr]. simpl in *.
  pose proof (mi_one _ HI) as H1. simpl in H1.
  pose proof (mi_boot _ HI i o b Hi) as Hb. simpl in Hb.
  pose proof (mutex_state_room _ _ _ _ _ HI Hi) as Hroom. simpl in Hroom.
  pose proof (mutex_alone _ _ _ _ _ HI Hi) as Halone. simpl in Halone.
  assert (a_owns (AOutside o b) = false → (m_owner a =? pr.2) = false) as Hno
    by (intros; by eapply mutex_not_owner).
  assert (cur_pid i = pr.2) as Hpid by (unfold cur_pid; by rewrite Hpr).
  destruct o; try done; simpl in Ho, Hno, Hroom, Halone;
    [destruct k as [|[|[|ms]]]|..];
    unfold mutex_lock_enter, mutex_trylock, mutex_unlock, cas_state, atomic_cas in Ho;
    rewrite ?Hpr in Ho; destruct pr as [pa pp]; simpl in *; rewrite ?Hno in Ho by done;
    repeat case_match; simplify_eq/=; rewrite ?Z.eqb_eq, ?Z.eqb_neq in *;
    step_with HI Hi; rewrite ?u32_dec, ?wrap_small by lia; try lia;
    try (by naive_solver); by intuition.
Qed.

Lemma mutex_inv_step y y' : mutex_inv y → astep (LC := mutex_client) y y' → mutex_inv y'.
Proof.
  intros HI Hs. destruct Hs as [k i a a' q m o r b b' Hi Ho|i a q q' m c b o Hi Hb].
  - by eapply mutex_inv_out.
  - apply mutex_big in Hb as (Hh & Hw & Hb).
    pose proof (mi_one _ HI) as H1. simpl in H1.
    step_with HI Hi; rewrite ?Hh, ?Hw; simpl; [lia|lia| |naive_solver].
    left. split; [done|]. by destruct o.
Qed.

Definition idle_thread (b : bool) : mpoint * bool := (MIdle, b).

Lemma mutex_reach w q (ts : gmap Z bool) y :
  Z.of_nat (size ts) < 2 ^ 32 → (∀ i, is_Some (ts !! i) → is_Some (cur i)) →
  rtc (astep (LC := mutex_client))
    (astart (mutex_init q).1 w (idle_thread <$> ts)) y →
  mutex_inv y.
Proof.
  intros Hz Hcur. revert y. apply rtc_ind_r; [|intros; by eapply mutex_inv_step].
  assert (∀ f : athread mcrit mpoint → Z, (∀ b, f (AOutside MIdle b) = 0) →
    tally f (a_threads (astart (mutex_init q).1 w (idle_thread <$> ts))) = 0) as E.
  { intros f Hf. apply tally_zero. intros i u. simpl.
    rewrite !lookup_fmap. destruct (ts !! i); simpl; naive_solver. }
  split; rewrite ?E by done; simpl; [done|lia| |by left| | |by rewrite !map_size_fmap].
  - intros i u. rewrite !lookup_fmap. destruct (ts !! i); simpl; naive_solver.
  - intros i u. rewrite !lookup_fmap. intros Hu. apply Hcur. by destruct (ts !! i).
  - intros i o b. rewrite !lookup_fmap. destruct (ts !! i); simpl; naive_solver.
Qed.

Definition th_holds (t : thread mcrit mpoint) : bool :=
  match t_pc t with
  | Outside o | RelOwner o | RelStore o | IrqRestore o => o_holds o
  | _ => false
  end.

Lemma th_holds_sim i d0 d t u :
  simt (LC := mutex_client) i d0 d t u → a_holds u = Z.b2z (th_holds t).
Proof.
  unfold simt, th_holds. destruct (t_pc t); try by intros ->. by intros (? & -> & _).
Qed.

(** C13: the mutex excludes: for any number of processes below [2^32] with
    distinct non-zero pids, any sequence of calls and any interleaving, at
    most one holds the mutex; [owner_pid] is the pid of the holder; and
    [mutex_unlock] by a process that does not hold it changes nothing. *)
Theorem mutex_exclusion w q (ts : gmap Z bool) x :
  rtc (step (LC := mutex_client)) (start (mutex_init q).1 w (idle_thread <$> ts)) x →
  Z.of_nat (size ts) < 2 ^ 32 → (∀ i, is_Some (ts !! i) → is_Some (cur i)) →
  (∀ i j t u, threads x !! i = Some t → threads x !! j = Some u →
     th_holds t = true → th_holds u = true → i = j) ∧
  (∀ i b f, threads x !! i = Some (Thread (Outside MHeld) b f) →
     m_owner (atoms x) = cur_pid i) ∧
  (∀ i b f, threads x !! i = Some (Thread (Outside MIdle) b f) →
     mutex_unlock i (atoms x) MIdle = (atoms x, inl MIdle)).
Proof.
  intros (_ & y & Hy & HS)%reach_sim Hz Hcur.
  pose proof (mutex_reach _ _ _ _ Hz Hcur Hy) as HI.
  pose proof (sim_atoms _ _ HS) as Ea. split_and!.
  - intros i j t u Hi Hj Ht Hu. destruct (decide (i = j)) as [|Hij]; [done|exfalso].
    destruct (sim_threads _ _ HS i t Hi) as (t' & Hi' & St).
    destruct (sim_threads _ _ HS j u Hj) as (u' & Hj' & Su).
    pose proof (tally_ge2 a_holds _ i j _ _ (λ u, proj1 (a_holds_range u)) Hij Hi' Hj') as H2.
    rewrite (th_holds_sim _ _ _ _ _ St), (th_holds_sim _ _ _ _ _ Su), Ht, Hu in H2.
    pose proof (mi_one _ HI). simpl in *. lia.
  - intros i b f Hi. apply (sim_outside x y) in Hi; [|done].
    rewrite <-Ea. by apply (mi_owner _ HI i _ Hi).
  - intros i b f Hi. apply (sim_outside x y) in Hi; [|done].
    destruct (mi_proc _ HI i _ Hi) as [[pa pp] Hpr]. unfold mutex_unlock. rewrite Hpr.
    destruct y as [ya yd ym]. simpl in *. subst ya.
    pose proof (mutex_not_owner _ _ _ _ _ (pa, pp) HI Hi eq_refl Hpr) as E. simpl in E.
    by rewrite E.
Qed.

(** ** Two waiters and no holder *)

Definition a_stuck (u : athread mcrit mpoint) : bool :=
  match u with
  | AOutside (MSleep Forever | MRecheck Forever) _
  | AWaiting (CEnqueue Forever | CWaiting Forever) _ => true
  | _ => false
  end.

Record trap (i j : Z) (y : aconf mwords wqueue mcrit mpoint) : Prop := {
  tr_inv : mutex_inv y;
  tr_free : tally a_holds (a_threads y) = 0;
  tr_i : ∃ u, a_threads y !! i = Some u ∧ a_stuck u = true;
  tr_j : ∃ u, a_threads y !! j = Some u ∧ a_stuck u = true }.

Lemma a_stuck_counts u : a_stuck u = true → a_counts u = 1.
Proof. destruct u as [[| | | | | |[]|[]| | | |]|[[]|[]| | |]]; done. Qed.

Lemma trap_state i j y : i ≠ j → trap i j y → 2 ≤ m_state (a_atoms y).
Proof.
  intros Hij [HI _ (u & Hi & Hu) (v & Hj & Hv)].
  pose proof (tally_ge2 a_counts _ i j u v (λ u, proj1 (a_counts_range u)) Hij Hi Hj).
  rewrite (mi_state _ HI). apply a_stuck_counts in Hu, Hv. lia.
Qed.

(** No step with [state] at least two gives the mutex to a thread that does
    not have it, and a waiter keeps waiting. *)
Lemma trap_out k i pr a a' b b' o r :
  2 ≤ m_state a → cur i = Some pr → o_holds o = false → is_boot o = false →
  (a_owns (AOutside o b) = false → (m_owner a =? pr.2) = false) →
  mutex_out k i (a, b) o = Some (a', b', r) →
  let u' := match r with inl o' => AOutside o' b' | inr c => AWaiting c b' end in
  a_holds u' = 0 ∧ (a_stuck (AOutside o b) = true → a_stuck u' = true).
Proof.
  intros Hst Hpr Hh Hb Hun Ho. destruct pr as [pa pp].
  assert ((m_state a =? 0) = false) as E0 by lia.
  assert ((m_state a =? 1) = false) as E1 by lia.
  destruct o; try done; simpl in Ho;
    [destruct k as [|[|[|ms]]]|..];
    unfold mutex_lock_enter, mutex_trylock, cas_state, atomic_cas in Ho;
    rewrite ?Hpr, ?E0, ?E1 in Ho; simpl in Hun; rewrite ?Hun in Ho by done;
    repeat case_match; simplify_eq/=; (split; [done|]); intros; repeat case_match; by simplify_eq/=.
Qed.

Lemma trap_big i q c b q' o :
  body_big (LC := mutex_client) i q c q' o →
  a_holds (AOutside o b) = 0 ∧ (a_stuck (AWaiting c b) = true → a_stuck (AOutside o b) = true).
Proof.
  intros Hb. pose proof (mutex_big _ _ _ _ _ Hb) as (Hh & _ & _). simpl. rewrite Hh.
  split; [done|]. destruct c as [[]|[]| | |]; try done; intros _.
  - do 2 (apply body_big_inv in Hb; simpl in Hb). by destruct Hb as [_ ->].
  - apply body_big_inv in Hb; simpl in Hb. by destruct Hb as [_ ->].
Qed.

(** The trap closes: it survives a move of any thread that keeps [holds] at
    zero and a waiter waiting. *)
Lemma trap_move i j y k u u' a' q' :
  trap i j y → a_threads y !! k = Some u →
  mutex_inv (AConf a' q' (<[k := u']> (a_threads y))) →
  a_holds u' = 0 → (a_stuck u = true → a_stuck u' = true) →
  trap i j (AConf a' q' (<[k := u']> (a_threads y))).
Proof.
  intros [HI Hf Hi Hj] Hk HI' Hh Hs.
  pose proof (tally_ge a_holds _ k u (λ u, proj1 (a_holds_range u)) Hk).
  pose proof (a_holds_range u).
  split; simpl; [done| | |].
  - rewrite (tally_insert _ _ k u u' Hk). lia.
  - destruct Hi as (v & Hv & Sv). rewrite lookup_insert. case_decide; [|eauto].
    subst. simplify_eq. eauto.
  - destruct Hj as (v & Hv & Sv). rewrite lookup_insert. case_decide; [|eauto].
    subst. simplify_eq. eauto.
Qed.

Lemma trap_step i j y y' :
  i ≠ j → trap i j y → astep (LC := mutex_client) y y' → trap i j y'.
Proof.
  intros Hij HT Hs. pose proof (mutex_inv_step _ _ (tr_inv _ _ _ HT) Hs) as HI'.
  pose proof (trap_state _ _ _ Hij HT) as Hst. pose proof (tr_inv _ _ _ HT) as HI.
  destruct Hs as [k c a a' q m o r b b' Hk Ho|k a q q' m c b o Hk Hb]; simpl in *.
  - pose proof (tally_ge a_holds _ c _ (λ u, proj1 (a_holds_range u)) Hk) as Hh.
    rewrite (tr_free _ _ _ HT : tally a_holds m = 0) in Hh.
    destruct (mi_proc _ HI c _ Hk) as [pr Hpr].
    destruct (trap_out k c pr a a' b b' o r) as [H1 H2]; try done.
    + simpl in Hh. by destruct (o_holds o).
    + by apply (mi_boot _ HI c o b).
    + intros Hown. apply (mutex_not_owner _ _ _ _ _ _ HI Hk Hown Hpr).
    + by apply (trap_move i j _ c (AOutside o b) _ _ _ HT).
  - destruct (trap_big k q c b q' o Hb) as [H1 H2]. by apply (trap_move i j _ k (AWaiting c b) _ _ _ HT).
Qed.

(** Once two processes wait in [mutex_lock] and nobody holds the mutex,
    nobody ever gets it again: [state] counts both of them, and each waits for
    it to be one. *)
Theorem mutex_two_waiters_deadlock w q (ts : gmap Z bool) x x' i j bi bj fi fj :
  rtc (step (LC := mutex_client)) (start (mutex_init q).1 w (idle_thread <$> ts)) x →
  Z.of_nat (size ts) < 2 ^ 32 → (∀ i, is_Some (ts !! i) → is_Some (cur i)) →
  i ≠ j →
  threads x !! i = Some (Thread (Outside (MSleep Forever)) bi fi) →
  threads x !! j = Some (Thread (Outside (MSleep Forever)) bj fj) →
  (∀ k t, threads x !! k = Some t → th_holds t = false) →
  rtc (step (LC := mutex_client)) x x' →
  ∀ k t, threads x' !! k = Some t → th_holds t = false.
Proof.
  intros (HL & y & Hy & HS)%reach_sim Hz Hcur Hij Hi Hj Hfree Hx'.
  pose proof (mutex_reach _ _ _ _ Hz Hcur Hy) as HI.
  assert (lock_inv x' ∧ ∃ y', sim x' y' ∧ trap i j y') as (_ & y' & HS' & HT).
  { revert x' Hx'. apply rtc_ind_r.
    - split; [done|]. exists y. split; [done|]. apply (sim_outside x y) in Hi, Hj; [|done..].
      split; [done| |eauto|eauto].
      rewrite <-(sim_tally x y (λ t, Z.b2z (th_holds t)) a_holds); [|intros; symmetry; by eapply th_holds_sim|done].
      apply tally_zero. intros k t Hk. by rewrite (Hfree k t Hk).
    - intros x1 x2 _ Hs (HL1 & y1 & HS1 & HT1). split; [by eapply lock_inv_step|].
      destruct (sim_step _ _ _ HL1 HS1 Hs) as (y2 & Hy2 & HS2). exists y2. split; [done|].
      revert y2 Hy2 HS2. intros y2 Hy2 _. revert y2 Hy2. apply rtc_ind_r; [done|].
      intros. by eapply trap_step. }
  intros k t Hk. destruct (sim_threads _ _ HS' k t Hk) as (u & Hu & Su).
  apply th_holds_sim in Su. pose proof (tr_free _ _ _ HT).
  pose proof (tally_ge a_holds _ k u (λ u, proj1 (a_holds_range u)) Hu).
  destruct (th_holds t); simpl in *; [lia|done].
Qed.
End Exclusion.
End Mutex.
