(* ===== verification/SyncExamples.v ===== *)
(** * Runs of the locks

    Concrete schedules of the spinlock, semaphore, reader-writer lock and
    mutex, at which the hypotheses of their theorems hold. *)

From stdpp Require Import relations.
From S2P Require Import Prelude Proc Sync Semaphore Rwlock Mutex.

(** Decidable facts about concrete states. *)
Ltac decide_vm :=
  match goal with |- ?P => apply (bool_decide_unpack P); by vm_compute end.

(** Processes 1, 2, 3, ... at addresses 100, 200, 300, ... *)
Definition pids (i : Z) : option Z := if 0 <? i then Some i else None.
Definition procs_at (i : Z) : option (Z * Z) := if 0 <? i then Some (100 * i, i) else None.

Lemma procs_at_pos i pr : procs_at i = Some pr → pr.2 ≠ 0.
Proof. unfold procs_at. destruct (Z.ltb_spec 0 i); intros; simplify_eq/=; lia. Qed.
Lemma procs_at_inj i j pi pj :
  procs_at i = Some pi → procs_at j = Some pj → pi.2 = pj.2 → i = j.
Proof.
  unfold procs_at. destruct (Z.ltb_spec 0 i), (Z.ltb_spec 0 j); intros; by simplify_eq/=.
Qed.

Definition two : gmap Z bool := {[1 := true; 2 := true]}.
Definition three : gmap Z bool := {[1 := true; 2 := true; 3 := true]}.

Lemma three_procs i : is_Some (three !! i) → is_Some (procs_at i).
Proof.
  intros [b Hb]. revert i b Hb. change (map_Forall (λ i _, is_Some (procs_at i)) three).
  decide_vm.
Qed.

(** [n] steps of thread [i], the first with choice [k]. *)
Definition go (i : Z) (k n : nat) : list (Z * nat) := (i, k) :: replicate (n - 1) (i, 0%nat).

(** ** Semaphore: thread 2 signals, thread 1 waits *)

Definition sem_start : conf unit semaphore (sem_point * ledger) (sem_out * ledger) :=
  start tt (semaphore_init 0 ∅) ((λ b, (idle_ledger, b)) <$> two).

(** Thread 1 blocks once (9 steps) and sleeps; thread 2 signals (9 steps);
    thread 1 tries again and is about to write the count (6 steps). *)
Definition sem_sched : list (Z * nat) := go 1 0 9 ++ go 2 2 9 ++ go 1 1 6.

Lemma semaphore_correct_witness :
  match run_fn (LC := sem_client pids) sem_start sem_sched with
  | Some x =>
      sem_count (data x) = 0 + tally (λ t, given (th_ledger t)) (threads x)
                             - tally (λ t, taken (th_ledger t)) (threads x) ∧
      sem_count (data x) = 1
  | None => False
  end.
Proof.
  destruct (run_fn sem_start sem_sched) as [x|] eqn:E; [|by vm_compute in E].
  assert (sem_count (data x) = 1 ∧ tally (λ t, given (th_ledger t)) (threads x) = 1) as [E1 E2].
  { vm_compute in E. injection E as <-. vm_compute. repeat split. }
  split; [|done].
  apply (semaphore_correct pids 0 ∅ two x); [|done|by rewrite E2].
  by apply (run_fn_sound (LC := sem_client pids) sem_sched).
Defined.

(** The spinlock under the semaphore, in the middle of thread 1's critical
    section. *)
Lemma spinlock_correct_witness :
  match run_fn (LC := sem_client pids) sem_start sem_sched with
  | Some x => ∃ y, rtc (astep (LC := sem_client pids))
      (astart tt (semaphore_init 0 ∅) ((λ b, (idle_ledger, b)) <$> two)) y ∧ sim (LC := sem_client pids) x y
  | None => False
  end.
Proof.
  destruct (run_fn sem_start sem_sched) as [x|] eqn:E; [|by vm_compute in E].
  destruct (spinlock_correct (LC := sem_client pids) tt (semaphore_init 0 ∅)
    ((λ b, (idle_ledger, b)) <$> two) x) as (_ & _ & _ & H); [|exact H].
  by apply (run_fn_sound (LC := sem_client pids) sem_sched).
Defined.

(** ** Reader-writer lock: thread 1 reads, thread 2 waits to write *)

Definition rw_start : conf unit rwlock rw_c rw_o :=
  start tt rwlock_init ((λ b, ((RwIdle, 0), b)) <$> two).

(** Thread 1 writes and holds the lock. *)
Definition rw_write : list (Z * nat) := go 1 1 13.
(** Thread 1 takes the lock for reading, thread 2 finds it taken once, thread
    1 gives it back. *)
Definition rw_contend : list (Z * nat) := go 1 0 11 ++ go 2 1 10 ++ go 1 0 10.

Lemma rwlock_exclusion_witness :
  match run_fn (LC := rw_client pids) rw_start rw_write with
  | Some x => ∀ j f b g, threads x !! j = Some (Thread (Outside (RwReading, f)) b g) → 1 = j
  | None => False
  end.
Proof.
  destruct (run_fn rw_start rw_write) as [x|] eqn:E; [|by vm_compute in E].
  intros j f b g Hj.
  assert (threads x !! 1 = Some (Thread (Outside (RwWriting, 0)) true true)) as H1.
  { vm_compute in E. injection E as <-. vm_compute. repeat split. }
  apply (rwlock_exclusion pids two x 1 j RwWriting RwReading 0 f true b true g);
    [|by vm_compute|done|done|done|by left].
  by apply (run_fn_sound (LC := rw_client pids) rw_write).
Defined.

(** Everybody is done with the lock, and [pending_writers] is one. *)
Lemma rwlock_pending_witness :
  match run_fn (LC := rw_client pids) rw_start rw_contend with
  | Some x => pending_writers (data x) = u32 (tally th_failed (threads x)) ∧
      pending_writers (data x) = 1 ∧ readers (data x) = 0
  | None => False
  end.
Proof.
  destruct (run_fn rw_start rw_contend) as [x|] eqn:E; [|by vm_compute in E].
  assert ((pending_writers (data x) = 1 ∧ readers (data x) = 0) ∧
    map_Forall (λ _ t, inside t = false) (threads x)) as [H1 H2].
  { vm_compute in E. injection E as <-. split; [vm_compute; repeat split|decide_vm]. }
  split; [|done].
  apply (rwlock_pending pids two x); [|by vm_compute|done].
  by apply (run_fn_sound (LC := rw_client pids) rw_contend).
Defined.

(** ** Mutex *)

Definition q_empty : wqueue := mkWqueue 0 0 0 ∅ ∅.
Definition q_two : wqueue := wait_enqueue 200 20 (wait_enqueue 100 10 q_empty).

Lemma q_two_rep : queue_rep q_two [(10, 100); (20, 200)].
Proof.
  split; [by vm_compute| |done|done].
  decide_vm.
Qed.

Lemma wait_queue_correct_witness :
  queue_rep (wait_enqueue 300 30 q_two) [(10, 100); (20, 200); (30, 300)] ∧
  (wait_dequeue q_two).2 = 100.
Proof.
  pose proof (wait_queue_correct q_two [(10, 100); (20, 200)] q_two_rep) as (H1 & [H2 _] & _).
  split; [|done]. apply (H1 30 300); [|done]. decide_vm.
Defined.

Lemma wait_remove_loses_waiters_witness :
  ∃ q', wait_remove 2 200 q_two = Some q' ∧ chain q' (wait_head q') [(10, 100)] ∧
    chain (wait_enqueue 300 30 q') (wait_head (wait_enqueue 300 30 q')) [(30, 300)].
Proof.
  apply (wait_remove_loses_waiters q_two [(10, 100)] 20 200 30 300 q_two_rep); try done;
    decide_vm.
Defined.

Definition mx_client : LockClient mwords wqueue mcrit mpoint :=
  mutex_client procs_at (λ i, 10 * i) 1000.
Definition mx_start : conf mwords wqueue mcrit mpoint :=
  start (mutex_init q_empty).1 q_empty (idle_thread <$> three).

(** Process 1 locks; 2 and 3 go to sleep in [mutex_lock]. *)
Definition mx_contend : list (Z * nat) := go 1 0 2 ++ go 2 0 8 ++ go 3 0 8.
(** Process 1 unlocks. *)
Definition mx_unlock : list (Z * nat) := go 1 0 10.
(** The woken process 2 looks at the mutex and goes back to sleep. *)
Definition mx_again : list (Z * nat) := go 2 0 2.

Lemma mutex_exclusion_witness :
  match run_fn (LC := mx_client) mx_start mx_contend with
  | Some x => m_owner (atoms x) = 1 ∧ m_state (atoms x) = 3
  | None => False
  end.
Proof.
  destruct (run_fn mx_start mx_contend) as [x|] eqn:E; [|by vm_compute in E].
  assert (threads x !! 1 = Some (Thread (Outside MHeld) true false) ∧
    m_state (atoms x) = 3) as [H1 H2].
  { vm_compute in E. injection E as <-. vm_compute. repeat split. }
  split; [|done].
  destruct (mutex_exclusion procs_at (λ i, 10 * i) 1000 procs_at_pos procs_at_inj
    q_empty q_empty three x) as (_ & H & _);
    [|by vm_compute|apply three_procs|exact (H 1 true false H1)].
  by apply (run_fn_sound (LC := mx_client) mx_contend).
Defined.

Lemma mutex_two_waiters_deadlock_witness :
  match run_fn (LC := mx_client) mx_start (mx_contend ++ mx_unlock),
        run_fn (LC := mx_client) mx_start (mx_contend ++ mx_unlock ++ mx_again) with
  | Some x, Some x' => m_state (atoms x) = 2 ∧
      ∀ k t, threads x' !! k = Some t → th_holds t = false
  | _, _ => False
  end.
Proof.
  destruct (run_fn mx_start (mx_contend ++ mx_unlock)) as [x|] eqn:E; [|by vm_compute in E].
  destruct (run_fn mx_start (mx_contend ++ mx_unlock ++ mx_again)) as [x'|] eqn:E';
    [|by vm_compute in E'].
  assert (run_fn (LC := mx_client) x mx_again = Some x') as Ex.
  { vm_compute in E, E'. injection E as <-. rewrite <-E'. by vm_compute. }
  assert ((threads x !! 2 = Some (Thread (Outside (MSleep Forever)) true false) ∧
    threads x !! 3 = Some (Thread (Outside (MSleep Forever)) true false) ∧
    m_state (atoms x) = 2) ∧
    map_Forall (λ _ t, th_holds t = false) (threads x)) as [(H2 & H3 & Hs) Hh].
  { vm_compute in E. injection E as <-. split; [vm_compute; repeat split|decide_vm]. }
  split; [done|].
  apply (mutex_two_waiters_deadlock procs_at (λ i, 10 * i) 1000 procs_at_pos procs_at_inj
    q_empty q_empty three x x' 2 3 true true false false);
    [|by vm_compute|apply three_procs|done|done|done|done|].
  - by apply (run_fn_sound (LC := mx_client) (mx_contend ++ mx_unlock)).
  - by apply (run_fn_sound (LC := mx_client) mx_again).
Defined.
