(* ===== verification/Mailbox.v ===== *)
(** * Mailboxes of the processors

    Models [kernel/mailbox.c]: one processor leaves a function and its argument
    in the mailbox of another and raises [task_pending]; the other one runs the
    function and lowers the flag.  Senders and receiver interleave at single
    memory accesses, in program order (the flag is stored with release and
    loaded with acquire).  The inter-processor interrupt only ends a [hlt]: the
    receiver may look into its mailbox at any time. *)

From stdpp Require Import relations.
From S2P Require Import Prelude.

(** A function with its argument, addresses both. *)
Notation task := (Z * Z)%type.

Record ap_mailbox := mkMailbox { mb_func : Z; mb_arg : Z; task_pending : bool }.
#[global] Instance mailbox_eta : Etable ap_mailbox := λ m,
  mkMailbox (mb_func m) (mb_arg m) (task_pending m).

Definition mailbox_init : ap_mailbox := mkMailbox 0 0 false.

(** Where a processor is that sends the tasks [ts] one after the other:
    between two calls of [mailbox_send_task], at the loop that waits for the
    flag, and before each of the three stores. *)
Inductive send_pc :=
  | SIdle (ts : list task)
  | SWait (t : task) (ts : list task)
  | SFunc (t : task) (ts : list task)
  | SArg (t : task) (ts : list task)
  | SFlag (t : task) (ts : list task).
#[global] Instance send_pc_dec : EqDecision send_pc.
Proof. solve_decision. Defined.

(** One access of [mailbox_send_task]. *)
Definition mailbox_send_task (m : ap_mailbox) (p : send_pc) : ap_mailbox * send_pc :=
  match p with
  | SIdle [] => (m, p)
  | SIdle (t :: ts) => (m, SWait t ts)
  | SWait t ts => (m, if task_pending m then p else SFunc t ts)
  | SFunc t ts => (m <| mb_func := t.1 |>, SArg t ts)
  | SArg t ts => (m <| mb_arg := t.2 |>, SFlag t ts)
  | SFlag t ts => (m <| task_pending := true |>, SIdle ts)
  end.

(** Where the receiver is: outside [mailbox_handle_task] or at the load of the
    flag, at the test of [func], at the load of [func] for the call, at that of
    [arg], at the store of the flag. *)
Inductive recv_pc := RIdle | RTest | RFunc | RArg (f : Z) | RFlag.

(** One access of [mailbox_handle_task], and the call it makes. *)
Definition mailbox_handle_task (m : ap_mailbox) (r : recv_pc)
    : ap_mailbox * recv_pc * list task :=
  match r with
  | RIdle => (m, if task_pending m then RTest else RIdle, [])
  | RTest => (m, if nz (mb_func m) then RFunc else RFlag, [])
  | RFunc => (m, RArg (mb_func m), [])
  | RArg f => (m, RFlag, [(f, mb_arg m)])
  | RFlag => (m <| task_pending := false |>, RIdle, [])
  end.

(** ** The processors together *)

Record cpus := mkCpus {
  mbox : ap_mailbox; senders : gmap Z send_pc; receiver : recv_pc; ran : list task }.

(** [Some i] is an access of sender [i], [None] one of the receiver. *)
Definition turn (w : option Z) (c : cpus) : option cpus :=
  match w with
  | Some i =>
    p ← senders c !! i;
    let '(m, p) := mailbox_send_task (mbox c) p in
    Some (mkCpus m (<[i := p]> (senders c)) (receiver c) (ran c))
  | None =>
    let '(m, r, l) := mailbox_handle_task (mbox c) (receiver c) in
    Some (mkCpus m (senders c) r (ran c ++ l))
  end.

Inductive step (c : cpus) : cpus → Prop :=
  | step_turn w c' : turn w c = Some c' → step c c'.

Definition start (ss : gmap Z send_pc) : cpus := mkCpus mailbox_init ss RIdle [].

(** ** One sender *)

(** The tasks a sender has not published. *)
Definition unsent (p : send_pc) : list task :=
  match p with
  | SIdle ts => ts
  | SWait t ts | SFunc t ts | SArg t ts | SFlag t ts => t :: ts
  end.

(** What the stores made so far have left in the empty mailbox. *)
Definition stored (m : ap_mailbox) (p : send_pc) : Prop :=
  match p with
  | SArg t _ => mb_func m = t.1
  | SFlag t _ => (mb_func m, mb_arg m) = t
  | _ => True
  end.

(** The sender may not touch the mailbox. *)
Definition away (p : send_pc) : Prop :=
  match p with SIdle _ | SWait _ _ => True | _ => False end.

(** The task in the full mailbox that has not been called yet. *)
Definition posted (m : ap_mailbox) (r : recv_pc) : list task :=
  if task_pending m then match r with RFlag => [] | _ => [(mb_func m, mb_arg m)] end else [].

Record single (ts : list task) (i : Z) (p : send_pc) (c : cpus) : Prop := {
  si_senders : senders c = {[i := p]};
  si_tasks : ts = ran c ++ posted (mbox c) (receiver c) ++ unsent p;
  si_full : task_pending (mbox c) = true → away p;
  si_empty : task_pending (mbox c) = false → receiver c = RIdle ∧ stored (mbox c) p;
  si_called f : receiver c = RArg f → f = mb_func (mbox c) }.

Section Single.
Context (ts : list task) (i : Z).
Hypothesis ts_func : Forall (λ t, t.1 ≠ 0) ts.

Lemma single_send p c c' : single ts i p c → turn (Some i) c = Some c' →
  ∃ p', single ts i p' c'.
Proof.
  destruct c as [[f a b] ss r l]. intros [Es Et Hf He Hc] E. cbn in *. subst ss.
  rewrite lookup_singleton_eq in E. cbn [mbind option_bind] in E.
  destruct p as [[|t q]|t q|[g x] q|[g x] q|[g x] q], b;
    try (destruct (Hf eq_refl)); try (destruct (He eq_refl) as [-> Hst]);
    cbn in *; simplify_eq/=; eexists; split; cbn; rewrite ?insert_singleton_eq; done.
Qed.

Lemma single_recv p c c' : single ts i p c → turn None c = Some c' → single ts i p c'.
Proof using ts_func.
  destruct c as [[f a b] ss r l]. intros [Es Et Hf He Hc] E. cbn in *. subst ss.
  destruct b; [|destruct (He eq_refl) as [-> Hst]; simplify_eq/=; split; cbn; rewrite ?app_nil_r; done].
  assert (r ≠ RFlag → f ≠ 0) as Hn.
  { intros Hr. rewrite Et, !Forall_app in ts_func. destruct ts_func as (_ & Hp & _).
    destruct r; try done; by inversion Hp. }
  destruct r as [| | |g|]; simplify_eq/=.
  - split; cbn; rewrite ?app_nil_r; done.
  - rewrite (proj2 (nz_true f)) by auto. split; cbn; rewrite ?app_nil_r; done.
  - split; cbn; rewrite ?app_nil_r; try done. congruence.
  - rewrite (Hc g eq_refl). split; cbn; try done. by rewrite <-app_assoc.
  - split; cbn; rewrite ?app_nil_r; try done. intros _. split; [done|].
    specialize (Hf eq_refl). by destruct p.
Qed.

Lemma single_step p c c' : single ts i p c → step c c' → ∃ p', single ts i p' c'.
Proof using ts_func.
  intros H [[j|] c1 E]; [|eauto using single_recv].
  destruct (decide (j = i)) as [->|Hne]; [by eapply single_send|].
  pose proof E as E'. cbn in E'. rewrite (si_senders _ _ _ _ H) in E'.
  by rewrite lookup_singleton_ne in E' by done.
Qed.

Lemma single_reach c : rtc step (start {[i := SIdle ts]}) c → ∃ p, single ts i p c.
Proof using ts_func.
  intros Hr. remember (start {[i := SIdle ts]}) as c0 eqn:E0.
  assert (∃ p, single ts i p c0) as H0 by (subst; exists (SIdle ts); by split).
  clear E0. induction Hr as [|c0 c1 c2 Hs _ IH]; [done|].
  destruct H0 as [p Hp]. apply IH. by eapply single_step.
Qed.

(** Some turn of the sender or the receiver brings the work forward: the sum
    of the two measures falls with it. *)
Definition left_send (p : send_pc) : nat :=
  match p with
  | SIdle q => 11 * length q
  | SWait _ q => 10 + 11 * length q
  | SFunc _ q => 9 + 11 * length q
  | SArg _ q => 8 + 11 * length q
  | SFlag _ q => 7 + 11 * length q
  end.
Definition left_recv (m : ap_mailbox) (r : recv_pc) : nat :=
  if task_pending m then
    match r with RIdle => 5 | RTest => 4 | RFunc => 3 | RArg _ => 2 | RFlag => 1 end
  else 0.

Lemma single_finish p c : single ts i p c →
  ∃ c', rtc step c c' ∧ ran c' = ts ∧ senders c' = {[i := SIdle []]} ∧
        task_pending (mbox c') = false.
Proof using ts_func.
  remember (left_send p + left_recv (mbox c) (receiver c))%nat as k eqn:Ek.
  revert p c Ek. induction (lt_wf k) as [k _ IH]. intros p c -> H.
  destruct (task_pending (mbox c)) eqn:Eb.
  - destruct (turn None c) as [c'|] eqn:E; [|cbn in E; by repeat case_match].
    pose proof (single_recv _ _ _ H E) as H'.
    destruct (IH (left_send p + left_recv (mbox c') (receiver c'))%nat) with p c'
      as (c2 & ? & ?); [|done|done|exists c2; split; [|done]; eapply rtc_l; [|done]; by econstructor].
    destruct c as [[f a b] ss r l]. cbn in *. subst b.
    destruct r; simplify_eq/=; repeat case_match; cbn; lia.
  - destruct (decide (p = SIdle [])) as [->|Hp].
    { exists c. split; [done|]. destruct H as [Hs Et _ _ _]. unfold posted in Et.
      rewrite Eb, !app_nil_r in Et. done. }
    destruct (si_empty _ _ _ _ H Eb) as [Er _].
    destruct (turn (Some i) c) as [c'|] eqn:E;
      [|cbn in E; rewrite (si_senders _ _ _ _ H), lookup_singleton_eq in E; cbn in E;
        by repeat case_match].
    destruct (single_send _ _ _ H E) as [p' H'].
    destruct (IH (left_send p' + left_recv (mbox c') (receiver c'))%nat) with p' c'
      as (c2 & ? & ?); [|done|done|exists c2; split; [|done]; eapply rtc_l; [|done]; by econstructor].
    pose proof (si_senders _ _ _ _ H') as Hs'. pose proof (si_senders _ _ _ _ H) as Hs.
    destruct c as [[f a b] ss r l]. cbn in *. subst b r ss.
    rewrite lookup_singleton_eq in E. cbn [mbind option_bind] in E.
    destruct p as [[|t q]|t q|t q|t q|t q]; simplify_eq/=;
      rewrite insert_singleton_eq in Hs'; apply map_singleton_inj in Hs' as [_ <-]; cbn; lia.
Qed.
End Single.

(** C33: with one sending processor, however its accesses interleave with those
    of the receiver, the calls made so far are a prefix of the tasks sent: every
    function is called once, in order, with its own argument.  When the sender
    is through and the flag is down all of them have been called, and this
    state stays within reach: neither side can block the other for good. *)
Theorem mailbox_correct (ts : list task) (i : Z) (c : cpus) :
  Forall (λ t, t.1 ≠ 0) ts → rtc step (start {[i := SIdle ts]}) c →
  ran c `prefix_of` ts ∧
  (senders c = {[i := SIdle []]} → task_pending (mbox c) = false → ran c = ts) ∧
  ∃ c', rtc step c c' ∧ ran c' = ts ∧ senders c' = {[i := SIdle []]} ∧
        task_pending (mbox c') = false.
Proof.
  intros Hf Hr. destruct (single_reach ts i Hf c Hr) as [p H]. split_and!.
  - rewrite (si_tasks _ _ _ _ H). by eexists.
  - intros Hs Hb. pose proof (si_senders _ _ _ _ H) as Hp. rewrite Hs in Hp.
    apply map_singleton_inj in Hp as [_ <-]. pose proof (si_tasks _ _ _ _ H) as Et.
    unfold posted in Et. by rewrite Hb, !app_nil_r in Et.
  - by eapply single_finish.
Qed.

(** ** Runs *)

(** The state after a schedule. *)
Definition run (ws : list (option Z)) (c : cpus) : option cpus :=
  foldl (λ o w, c ← o; turn w c) (Some c) ws.

Lemma run_none ws : foldl (λ o w, c ← o; turn w c) None ws = None.
Proof. by induction ws. Qed.

Lemma run_reach ws c c' : run ws c = Some c' → rtc step c c'.
Proof.
  revert c. induction ws as [|w ws IH]; intros c E; [by injection E as ->|].
  unfold run in E. cbn in E. destruct (turn w c) as [c1|] eqn:E1; [|by rewrite run_none in E].
  eapply rtc_l; [by econstructor|by apply IH].
Qed.

(** One task sent and half received: the function has been loaded, not called. *)
Lemma mailbox_correct_witness :
  Forall (λ t : task, t.1 ≠ 0) [(1, 10); (2, 20)] ∧
  ∃ c, rtc step (start {[0 := SIdle [(1, 10); (2, 20)]]}) c ∧ receiver c = RArg 1 ∧
    ran c `prefix_of` [(1, 10); (2, 20)].
Proof.
  assert (Forall (λ t : task, t.1 ≠ 0) [(1, 10); (2, 20)]) as Hf by (repeat constructor; done).
  split; [done|].
  set (ws := replicate 5 (Some 0) ++ replicate 3 None).
  destruct (run ws (start {[0 := SIdle [(1, 10); (2, 20)]]})) as [c|] eqn:E; [|by vm_compute in E].
  pose proof (run_reach _ _ _ E) as Hr. exists c. split; [done|]. split.
  - vm_compute in E. by injection E as <-.
  - exact (proj1 (mailbox_correct _ 0 c Hf Hr)).
Defined.

(** Two senders that both saw the flag down: the second task overwrites the
    first, which is never called, and both senders are through. *)
Example two_senders_lose :
  ∃ c, rtc step (start {[0 := SIdle [(1, 10)]; 1 := SIdle [(2, 20)]]}) c ∧
    ran c = [(2, 20)] ∧ task_pending (mbox c) = false ∧
    senders c !! 0 = Some (SIdle []) ∧ senders c !! 1 = Some (SIdle []).
Proof.
  set (ws := [Some 0; Some 1; Some 0; Some 1; Some 0; Some 0; Some 0; Some 1; Some 1; Some 1;
              None; None; None; None; None]).
  destruct (run ws (start {[0 := SIdle [(1, 10)]; 1 := SIdle [(2, 20)]]})) as [c|] eqn:E;
    [|by vm_compute in E].
  exists c. split; [by eapply run_reach|]. vm_compute in E. by injection E as <-.
Qed.

(** The stores of two senders can also mix: the function of one is called with
    the argument of the other. *)
Example two_senders_mix :
  ∃ c, rtc step (start {[0 := SIdle [(1, 10)]; 1 := SIdle [(2, 20)]]}) c ∧ ran c = [(2, 10)].
Proof.
  set (ws := [Some 0; Some 1; Some 0; Some 1; Some 0; Some 1; Some 1; Some 0; Some 0; Some 1;
              None; None; None; None; None]).
  destruct (run ws (start {[0 := SIdle [(1, 10)]; 1 := SIdle [(2, 20)]]})) as [c|] eqn:E;
    [|by vm_compute in E].
  exists c. split; [by eapply run_reach|]. vm_compute in E. by injection E as <-.
Qed.
