(* ===== verification/BuddyBits.v ===== *)
(** * Bit arithmetic of the buddy allocator

    The "Bits" and "Math" sections of [include/buddy.h], and their meaning:
    bit length, powers of two, trailing zeroes, population count, square root. *)

From S2P Require Import Prelude.

(** ** The code *)

Definition popcount_lookup : list Z :=
  [0;1;1;2;1;2;2;3;1;2;2;3;2;3;3;4;1;2;2;3;2;3;3;4;2;3;3;4;3;4;4;5;
   1;2;2;3;2;3;3;4;2;3;3;4;3;4;4;5;2;3;3;4;3;4;4;5;3;4;4;5;4;5;5;6;
   1;2;2;3;2;3;3;4;2;3;3;4;3;4;4;5;2;3;3;4;3;4;4;5;3;4;4;5;4;5;5;6;
   2;3;3;4;3;4;4;5;3;4;4;5;4;5;5;6;3;4;4;5;4;5;5;6;4;5;5;6;5;6;6;7;
   1;2;2;3;2;3;3;4;2;3;3;4;3;4;4;5;2;3;3;4;3;4;4;5;3;4;4;5;4;5;5;6;
   2;3;3;4;3;4;4;5;3;4;4;5;4;5;5;6;3;4;4;5;4;5;5;6;4;5;5;6;5;6;6;7;
   2;3;3;4;3;4;4;5;3;4;4;5;4;5;5;6;3;4;4;5;4;5;5;6;4;5;5;6;5;6;6;7;
   3;4;4;5;4;5;5;6;4;5;5;6;5;6;6;7;4;5;5;6;5;6;6;7;5;6;6;7;6;7;7;8].

Definition popcount_byte (b : Z) : Z := default 0 (popcount_lookup !! Z.to_nat b).

Definition lookup67 : list Z :=
  [64; 0; 1; 39; 2; 15; 40; 23;
   3; 12; 16; 59; 41; 19; 24; 54;
   4; -1; 13; 10; 17; 62; 60; 28;
   42; 30; 20; 51; 25; 44; 55; 47;
   5; 32; -1; 38; 14; 22; 11; 58;
   18; 53; 63; 9; 61; 27; 29; 50;
   43; 46; 31; 37; 21; 57; 52; 8;
   26; 49; 45; 36; 56; 7; 48; 35;
   6; 34; 33; -1].

Definition count_trailing_zeroes (val : Z) : Z :=
  u8 (default 0 (lookup67 !! Z.to_nat (Z.land val (u64 (- val)) `mod` 67))).

(** The rounds of [highest_bit_position]: a threshold and a shift. *)
Definition hbp_table : list (Z * Z) :=
  [(4294967295, 32); (65535, 16); (255, 8); (15, 4); (7, 2); (3, 1); (1, 1)].
Definition hbp_round (acc : Z * Z) (ac : Z * Z) : Z * Z :=
  let '(value, result) := acc in
  if ac.1 <=? value then (Z.shiftr value ac.2, result + ac.2) else acc.
Definition highest_bit_position (value : Z) : Z :=
  let '(value, result) := foldl hbp_round (value, 0) hbp_table in result + value.

Definition two_to_the_power_of (order : Z) : Z := u64 (Z.shiftl 1 order).

Definition ceiling_power_of_two (value : Z) : Z :=
  let value := if value =? 0 then 1 else value in
  two_to_the_power_of (u64 (highest_bit_position (u64 (value + value - 1)) - 1)).

(** [integer_square_root]: the two loops; the cursor loses two bits a round. *)
Fixpoint isqrt_cursor (fuel : nat) (cursor op : Z) : Z :=
  match fuel with
  | O => cursor
  | S fuel => if op <? cursor then isqrt_cursor fuel (Z.shiftr cursor 2) op else cursor
  end.
Fixpoint isqrt_loop (fuel : nat) (cursor op result : Z) : Z :=
  match fuel with
  | O => result
  | S fuel =>
      if cursor =? 0 then result else
      if u64 (result + cursor) <=? op
      then isqrt_loop fuel (Z.shiftr cursor 2) (op - (result + cursor))
             (Z.shiftr (u64 (result + 2 * cursor)) 1)
      else isqrt_loop fuel (Z.shiftr cursor 2) op (Z.shiftr result 1)
  end.
Definition integer_square_root (op : Z) : Z :=
  isqrt_loop 32 (isqrt_cursor 32 (2 ^ 62) op) op 0.

(** ** Meaning *)

(** The number of binary digits. *)
Definition bitlen (v : Z) : Z := if decide (v = 0) then 0 else Z.log2 v + 1.

Lemma bitlen_shift v c : 0 ≤ c → 2 ^ c - 1 ≤ v → bitlen (Z.shiftr v c) + c = bitlen v.
Proof.
  intros Hc Hv. rewrite Z.shiftr_div_pow2 by done. pose proof (Z.pow_pos_nonneg 2 c).
  unfold bitlen. destruct (decide (v = 2 ^ c - 1)) as [->|].
  - rewrite Z.div_small by lia. rewrite decide_True by done. case_decide.
    + assert (c = 0 ∨ 0 < c) as [->|] by lia; [done|].
      assert (2 ^ 1 ≤ 2 ^ c) by (apply Z.pow_le_mono_r; lia). lia.
    + replace (2 ^ c - 1) with (Z.pred (2 ^ c)) by lia. rewrite Z.log2_pred_pow2; [lia|].
      assert (c ≠ 0) by (intros ->; done). lia.
  - assert (2 ^ c ≤ v) by lia. rewrite decide_False, decide_False by
      (try lia; pose proof (Z.div_le_mono (2 ^ c) v (2 ^ c)); rewrite Z.div_same in *; lia).
    rewrite <-Z.shiftr_div_pow2, Z.log2_shiftr by lia.
    assert (c ≤ Z.log2 v) by (by apply Z.log2_le_pow2; lia). lia.
Qed.

Lemma hbp_round_ok v r a c v' r' :
  0 ≤ v → 0 ≤ c → a = 2 ^ c - 1 → hbp_round (v, r) (a, c) = (v', r') →
  r' + bitlen v' = r + bitlen v ∧ 0 ≤ v' ∧ (v' < a ∨ v' = Z.shiftr v c).
Proof.
  intros Hv Hc -> E. unfold hbp_round in E. simpl in E.
  destruct (Z.leb_spec (2 ^ c - 1) v); injection E as <- <-; [|split_and!; lia].
  pose proof (bitlen_shift v c Hc). split_and!; [lia| |by right]. by apply Z.shiftr_nonneg.
Qed.

Lemma shiftr_bound v c k : 0 ≤ c → 0 ≤ v < 2 ^ (k + c) → 0 ≤ k → Z.shiftr v c < 2 ^ k.
Proof.
  intros Hc Hv Hk. rewrite Z.shiftr_div_pow2 by done. apply Z.div_lt_upper_bound;
    [by apply Z.pow_pos_nonneg|]. rewrite <-Z.pow_add_r by done. rewrite Z.add_comm. lia.
Qed.

Lemma hbp_result l v r :
  foldl hbp_round (v, r) l =
  ((foldl hbp_round (v, 0) l).1, r + (foldl hbp_round (v, 0) l).2).
Proof.
  revert v r. induction l as [|ac l IH]; intros v r; cbn [foldl]; [simpl; f_equal; lia|].
  unfold hbp_round at 2 4 6. destruct (ac.1 <=? v); [|apply IH].
  rewrite IH, (IH _ (0 + ac.2)). simpl. f_equal. lia.
Qed.

(** The last three rounds, on a value of four bits. *)
Lemma hbp_tail v r : 0 ≤ v < 16 →
  (let '(v', r') := foldl hbp_round (v, r) [(7, 2); (3, 1); (1, 1)] in r' + v') = r + bitlen v.
Proof.
  intros Hv. rewrite hbp_result.
  assert (Forall (λ v, let vr := foldl hbp_round (v, 0) [(7, 2); (3, 1); (1, 1)] in
    vr.2 + vr.1 = bitlen v) (seqZ 0 16)) as Hall by (apply (bool_decide_unpack _); by vm_compute).
  rewrite list.Forall_forall in Hall. specialize (Hall v). rewrite <-Hall; [lia|].
  apply elem_of_seqZ. lia.
Qed.

Lemma highest_bit_position_eq v : 0 ≤ v < 2 ^ 64 → highest_bit_position v = bitlen v.
Proof.
  intros Hv. unfold highest_bit_position, hbp_table.
  change (foldl hbp_round (v, 0) ?l) with
    (foldl hbp_round (foldl hbp_round (v, 0)
       [(4294967295, 32); (65535, 16); (255, 8); (15, 4)]) [(7, 2); (3, 1); (1, 1)]).
  cbn [foldl].
  destruct (hbp_round (v, 0) _) as [v1 r1] eqn:E1.
  destruct (hbp_round (v1, r1) _) as [v2 r2] eqn:E2.
  destruct (hbp_round (v2, r2) _) as [v3 r3] eqn:E3.
  destruct (hbp_round (v3, r3) _) as [v4 r4] eqn:E4.
  apply hbp_round_ok in E1 as (B1 & P1 & L1); [|lia..|done].
  assert (v1 < 2 ^ 32) by (destruct L1 as [?| ->]; [lia|apply shiftr_bound; lia]).
  apply hbp_round_ok in E2 as (B2 & P2 & L2); [|lia..|done].
  assert (v2 < 2 ^ 16) by (destruct L2 as [?| ->]; [lia|apply shiftr_bound; lia]).
  apply hbp_round_ok in E3 as (B3 & P3 & L3); [|lia..|done].
  assert (v3 < 2 ^ 8) by (destruct L3 as [?| ->]; [lia|apply shiftr_bound; lia]).
  apply hbp_round_ok in E4 as (B4 & P4 & L4); [|lia..|done].
  assert (v4 < 2 ^ 4) by (destruct L4 as [?| ->]; [lia|apply shiftr_bound; lia]).
  pose proof (hbp_tail v4 r4 ltac:(lia)) as Ht. cbn [foldl] in Ht.
  destruct (hbp_round _ _) as [v7 r7]. lia.
Qed.

Lemma two_to_the_power_of_eq k : 0 ≤ k < 64 → two_to_the_power_of k = 2 ^ k.
Proof.
  intros Hk. unfold two_to_the_power_of. rewrite Z.shiftl_1_l. apply wrap_small.
  split; [lia|]. apply Z.pow_lt_mono_r; lia.
Qed.

Lemma ceiling_power_of_two_eq v :
  1 ≤ v ≤ 2 ^ 63 → ceiling_power_of_two v = 2 ^ Z.log2_up v.
Proof.
  intros Hv. unfold ceiling_power_of_two. rewrite (proj2 (Z.eqb_neq v 0)) by lia.
  rewrite (wrap_small 64 (v + v - 1)) by lia. rewrite highest_bit_position_eq by lia.
  unfold bitlen. rewrite decide_False by lia.
  assert (Z.log2 (v + v - 1) = Z.log2_up v) as ->.
  { destruct (decide (v = 1)) as [->|]; [done|].
    rewrite Z.log2_up_eqn by lia. replace (v + v - 1) with (2 * Z.pred v + 1) by lia.
    rewrite Z.log2_succ_double by lia. done. }
  pose proof (Z.log2_up_nonneg v).
  assert (Z.log2_up v ≤ 63) by (apply Z.log2_up_le_pow2; lia).
  rewrite wrap_small by lia. rewrite two_to_the_power_of_eq by lia. f_equal. lia.
Qed.

Lemma count_trailing_zeroes_pow2 k : 0 ≤ k < 64 → count_trailing_zeroes (2 ^ k) = k.
Proof.
  intros Hk.
  assert (Forall (λ k, count_trailing_zeroes (2 ^ k) = k) (seqZ 0 64)) as Hall
    by (apply (bool_decide_unpack _); by vm_compute).
  rewrite list.Forall_forall in Hall. apply Hall, elem_of_seqZ. lia.
Qed.

(** ** Population count *)

Definition bit (b i : Z) : Z := Z.b2z (Z.testbit b i).

(** The number of set bits among [i, ..., i + n - 1]. *)
Fixpoint ones_from (n : nat) (f : Z → bool) (i : Z) : Z :=
  match n with O => 0 | S n => Z.b2z (f i) + ones_from n f (i + 1) end.

Lemma ones_from_ext n f g i :
  (∀ j, i ≤ j < i + Z.of_nat n → f j = g j) → ones_from n f i = ones_from n g i.
Proof.
  revert i. induction n as [|n IH]; intros i Hf; [done|]. cbn [ones_from].
  rewrite Hf by lia. f_equal. apply IH. intros j Hj. apply Hf. lia.
Qed.

Lemma ones_from_app n m f i :
  ones_from (n + m) f i = ones_from n f i + ones_from m f (i + Z.of_nat n).
Proof.
  revert i. induction n as [|n IH]; intros i; cbn [ones_from Nat.add].
  - rewrite Z.add_0_r. lia.
  - rewrite IH. replace (i + 1 + Z.of_nat n) with (i + Z.of_nat (S n)) by lia. lia.
Qed.

Lemma ones_from_shift n g d i : ones_from n (λ k, g (d + k)) i = ones_from n g (d + i).
Proof.
  revert i. induction n as [|n IH]; intros i; cbn [ones_from]; [done|].
  rewrite IH. by rewrite Z.add_assoc.
Qed.

(** A run of ones followed by zeroes. *)
Lemma ones_from_prefix n f i v :
  0 ≤ v ≤ Z.of_nat n → (∀ j, 0 ≤ j < Z.of_nat n → f (i + j) = bool_decide (j < v)) →
  ones_from n f i = v.
Proof.
  revert i v. induction n as [|n IH]; intros i v Hv Hf; cbn [ones_from]; [lia|].
  assert (f i = bool_decide (0 < v)) as -> by (rewrite <-(Hf 0) by lia; f_equal; lia).
  destruct (decide (0 < v)).
  - rewrite bool_decide_eq_true_2 by done. rewrite (IH (i + 1) (v - 1)); [simpl; lia|lia|].
    intros j Hj. replace (i + 1 + j) with (i + (j + 1)) by lia. rewrite Hf by lia.
    apply bool_decide_ext. lia.
  - rewrite bool_decide_eq_false_2 by done. rewrite (IH (i + 1) 0); [simpl; lia|lia|].
    intros j Hj. replace (i + 1 + j) with (i + (j + 1)) by lia. rewrite Hf by lia.
    apply bool_decide_ext. lia.
Qed.

Lemma popcount_byte_eq b : 0 ≤ b < 256 → popcount_byte b = ones_from 8 (Z.testbit b) 0.
Proof.
  intros Hb.
  assert (Forall (λ b, popcount_byte b = ones_from 8 (Z.testbit b) 0) (seqZ 0 256)) as Hall
    by (apply (bool_decide_unpack _); by vm_compute).
  rewrite list.Forall_forall in Hall. apply Hall, elem_of_seqZ. lia.
Qed.

(** ** Square root *)

(** One round, with cursor [b * b]: the root is [r] plus less than [2 * b]
    before and [r'] plus less than [b] after. *)
Lemma isqrt_round fuel r x b :
  0 < b ≤ 2 ^ 31 → 0 ≤ r → r + 2 * b ≤ 2 ^ 32 → r * r ≤ x < (r + 2 * b) * (r + 2 * b) →
  ∃ r', 0 ≤ r' ∧ r' + b ≤ 2 ^ 32 ∧ r' * r' ≤ x < (r' + b) * (r' + b) ∧
    isqrt_loop (S fuel) (b * b) (x - r * r) (r * (2 * b)) =
    isqrt_loop fuel (Z.shiftr (b * b) 2) (x - r' * r') (r' * b).
Proof.
  intros Hb Hr Hr2 Hx. cbn [isqrt_loop]. rewrite (proj2 (Z.eqb_neq (b * b) 0)) by nia.
  assert (r * (2 * b) + 2 * (b * b) ≤ 2 ^ 64 - 1) as Hov.
  { assert (2 * b * (r + b) ≤ 2 ^ 32 * (2 ^ 32 - 1)) by nia. lia. }
  rewrite (wrap_small 64 (r * (2 * b) + b * b)) by nia. rewrite wrap_small by nia.
  destruct (Z.leb_spec (r * (2 * b) + b * b) (x - r * r)).
  - exists (r + b). split_and!; [lia|lia|nia|nia|]. f_equal; [nia|].
    rewrite Z.shiftr_div_pow2 by done. change (2 ^ 1) with 2.
    replace (r * (2 * b) + 2 * (b * b)) with ((r + b) * b * 2) by nia. by rewrite Z.div_mul.
  - exists r. split_and!; [lia|lia|lia|nia|]. f_equal.
    rewrite Z.shiftr_div_pow2 by done. change (2 ^ 1) with 2.
    replace (r * (2 * b)) with (r * b * 2) by nia. by rewrite Z.div_mul.
Qed.

Lemma isqrt_loop_eq k : ∀ fuel r x,
  (k < fuel)%nat → (k ≤ 31)%nat →
  let b := 2 ^ Z.of_nat k in
  0 ≤ r → r + 2 * b ≤ 2 ^ 32 → r * r ≤ x < (r + 2 * b) * (r + 2 * b) →
  isqrt_loop fuel (b * b) (x - r * r) (r * (2 * b)) = Z.sqrt x.
Proof.
  induction k as [|k IH]; intros fuel r x Hf Hk b Hr Hr2 Hx; (destruct fuel as [|fuel]; [lia|]);
    (assert (b ≤ 2 ^ 31) by (apply Z.pow_le_mono_r; lia));
    (assert (0 < b) by (apply Z.pow_pos_nonneg; lia));
    destruct (isqrt_round fuel r x b) as (r' & Hr' & Hb' & Hx' & ->); try done.
  - change b with 1 in *. change (Z.shiftr (1 * 1) 2) with 0.
    assert (Z.sqrt x = r') as -> by (apply Z.sqrt_unique; lia).
    destruct fuel; cbn [isqrt_loop Z.eqb]; lia.
  - assert (b = 2 * 2 ^ Z.of_nat k) as Eb
      by (unfold b; rewrite Nat2Z.inj_succ, Z.pow_succ_r by lia; done).
    rewrite Eb in Hx', Hb' |- *.
    assert (Z.shiftr (2 * 2 ^ Z.of_nat k * (2 * 2 ^ Z.of_nat k)) 2 =
      2 ^ Z.of_nat k * 2 ^ Z.of_nat k) as ->.
    { rewrite Z.shiftr_div_pow2 by done. change (2 ^ 2) with 4.
      replace (2 * 2 ^ Z.of_nat k * (2 * 2 ^ Z.of_nat k)) with
        (2 ^ Z.of_nat k * 2 ^ Z.of_nat k * 4) by lia. by rewrite Z.div_mul. }
    apply IH; [lia|lia|done|lia|lia].
Qed.

(** The first loop finds the highest power of four that is not above [op]. *)
Lemma isqrt_cursor_eq k : ∀ fuel op, (k < fuel)%nat →
  0 < op < 2 ^ (2 * Z.of_nat k + 2) →
  ∃ j : nat, (j ≤ k)%nat ∧ isqrt_cursor fuel (2 ^ (2 * Z.of_nat k)) op = 2 ^ Z.of_nat j * 2 ^ Z.of_nat j ∧
    2 ^ Z.of_nat j * 2 ^ Z.of_nat j ≤ op < 2 * 2 ^ Z.of_nat j * (2 * 2 ^ Z.of_nat j).
Proof.
  induction k as [|k IH]; intros fuel op Hf Hop; (destruct fuel as [|fuel]; [lia|]);
    cbn [isqrt_cursor].
  - change (2 ^ (2 * Z.of_nat 0)) with 1 in *. change (2 ^ (2 * Z.of_nat 0 + 2)) with 4 in *.
    rewrite (proj2 (Z.ltb_ge _ _)) by lia. exists 0%nat. split_and!; [lia|done|simpl; lia|simpl; lia].
  - assert (∀ j, 2 ^ (2 * Z.of_nat j) = 2 ^ Z.of_nat j * 2 ^ Z.of_nat j) as Esq
      by (intros j; rewrite <-Z.pow_add_r by lia; f_equal; lia).
    destruct (Z.ltb_spec op (2 ^ (2 * Z.of_nat (S k)))) as [Hlt|Hge].
    + rewrite Z.shiftr_div_pow2, <-Z.pow_sub_r by lia.
      replace (2 * Z.of_nat (S k) - 2) with (2 * Z.of_nat k) by lia.
      destruct (IH fuel op) as (j & Hj & E & Hx);
        [lia| |exists j; split; [lia|split; [exact E|exact Hx]]].
      replace (2 * Z.of_nat k + 2) with (2 * Z.of_nat (S k)) by lia. lia.
    + exists (S k). rewrite Z.pow_add_r in Hop by lia. rewrite Esq in *.
      split_and!; [lia|done|lia|]. change (2 ^ 2) with 4 in Hop. lia.
Qed.

Lemma integer_square_root_eq op : 0 ≤ op < 2 ^ 64 → integer_square_root op = Z.sqrt op.
Proof.
  intros Hop. unfold integer_square_root. destruct (decide (op = 0)) as [->|]; [by vm_compute|].
  destruct (isqrt_cursor_eq 31 32 op ltac:(lia)) as (j & Hj & E & Hx); [simpl Z.of_nat; lia|].
  change (2 ^ (2 * Z.of_nat 31)) with (2 ^ 62) in E. rewrite E.
  pose proof (isqrt_loop_eq j 32 0 op ltac:(lia) Hj) as Hl. cbn zeta in Hl.
  assert (2 ^ Z.of_nat j ≤ 2 ^ 31) by (apply Z.pow_le_mono_r; lia).
  rewrite Z.mul_0_l, Z.sub_0_r in Hl. apply Hl; lia.
Qed.

(** The bit-twiddling helpers of the buddy allocator compute what their
    comments say: the bit length, the next power of two, the index of the bit
    of a power of two, the number of ones of a byte, and the integer square
    root, on the whole range of [size_t] (up to [2^63] for the next power). *)
Theorem bit_helpers_correct :
  (∀ v, 0 ≤ v < 2 ^ 64 → highest_bit_position v = bitlen v) ∧
  (∀ v, 1 ≤ v ≤ 2 ^ 63 → ceiling_power_of_two v = 2 ^ Z.log2_up v) ∧
  (∀ k, 0 ≤ k < 64 → count_trailing_zeroes (2 ^ k) = k) ∧
  (∀ b, 0 ≤ b < 256 → popcount_byte b = ones_from 8 (Z.testbit b) 0) ∧
  (∀ v, 0 ≤ v < 2 ^ 64 → integer_square_root v = Z.sqrt v).
Proof.
  split_and!; [exact highest_bit_position_eq|exact ceiling_power_of_two_eq|
    exact count_trailing_zeroes_pow2|exact popcount_byte_eq|exact integer_square_root_eq].
Qed.
