(* ===== verification/Bitset.v ===== *)
(** * The bit set of the buddy allocator

    The bytes behind a buddy tree, and the "char-backed bitset" section of
    [include/buddy.h].  An access outside the bytes the allocator owns is a
    fault. *)

From S2P Require Import Prelude BuddyBits.

(** ** State

    [struct buddy] and the [struct buddy_tree] that follows it; [tbytes] are the
    bytes behind the tree: the bits, then the memoized row offsets. *)

Record bud := mkBud {
  memory_size : Z; alignment : Z; arena_main : Z; buddy_flags : Z;
  upper_pos_bound : Z; size_for_order_offset : Z; order : Z; tree_flags : Z;
  tbytes : gmap Z Z }.

#[global] Instance bud_eta : Etable bud := λ s,
  mkBud (memory_size s) (alignment s) (arena_main s) (buddy_flags s)
    (upper_pos_bound s) (size_for_order_offset s) (order s) (tree_flags s) (tbytes s).

Definition ldb (a : Z) : M bud Z := λ s,
  match tbytes s !! a with Some v => Done v s | None => Fault end.
Definition stb (a v : Z) : M bud unit := λ s,
  match tbytes s !! a with
  | Some _ => Done tt (s <| tbytes := <[a := v]> (tbytes s) |>)
  | None => Fault
  end.

(** ** The code *)

Definition bitset_sizeof (elements : Z) : Z := (elements + 8 - 1) `div` 8.

Definition bitset_index_mask (i : Z) : Z :=
  default 0 ([1; 2; 4; 8; 16; 32; 64; 128] !! Z.to_nat i).

Definition bitset_set (pos : Z) : M bud unit :=
  v ← ldb (pos `div` 8); stb (pos `div` 8) (Z.lor v (bitset_index_mask (pos `mod` 8))).
Definition bitset_clear (pos : Z) : M bud unit :=
  v ← ldb (pos `div` 8);
  stb (pos `div` 8) (Z.land v (u8 (Z.lnot (bitset_index_mask (pos `mod` 8))))).
Definition bitset_test (pos : Z) : M bud bool :=
  v ← ldb (pos `div` 8); mret (nz (Z.land v (bitset_index_mask (pos `mod` 8)))).

Definition bitset_char_mask_table : list (list Z) :=
  [[1; 3; 7; 15; 31; 63; 127; 255];
   [0; 2; 6; 14; 30; 62; 126; 254];
   [0; 0; 4; 12; 28; 60; 124; 252];
   [0; 0; 0; 8; 24; 56; 120; 248];
   [0; 0; 0; 0; 16; 48; 112; 240];
   [0; 0; 0; 0; 0; 32; 96; 224];
   [0; 0; 0; 0; 0; 0; 64; 192];
   [0; 0; 0; 0; 0; 0; 0; 128]].
Definition bitset_char_mask (i j : Z) : Z :=
  default 0 (bitset_char_mask_table !! Z.to_nat i ≫= (.!! Z.to_nat j)).

Record bitset_range := mkRange { from_bucket : Z; to_bucket : Z; from_index : Z; to_index : Z }.

Definition to_bitset_range (from_pos to_pos : Z) : bitset_range :=
  mkRange (from_pos `div` 8) (to_pos `div` 8) (from_pos `mod` 8) (to_pos `mod` 8).

(** [bitset\[b\] |= mask], [bitset\[b\] &= ~mask] *)
Definition or_byte (b mask : Z) : M bud unit := v ← ldb b; stb b (Z.lor v mask).
Definition clear_byte (b mask : Z) : M bud unit := v ← ldb b; stb b (Z.land v (u8 (Z.lnot mask))).
(** [memset(bitset + b, v, n)] *)
Definition memset_bytes (b v n : Z) : M bud unit := for_all (Z.to_nat n) b (λ k, stb k v).

Definition bitset_set_range (r : bitset_range) : M bud unit :=
  if from_bucket r =? to_bucket r then
    or_byte (from_bucket r) (bitset_char_mask (from_index r) (to_index r))
  else
    or_byte (from_bucket r) (bitset_char_mask (from_index r) 7) ;;
    or_byte (to_bucket r) (bitset_char_mask 0 (to_index r)) ;;
    whenM (nz (to_bucket r - (from_bucket r + 1)))
      (memset_bytes (from_bucket r + 1) 255 (to_bucket r - (from_bucket r + 1))).

Definition bitset_clear_range (r : bitset_range) : M bud unit :=
  if from_bucket r =? to_bucket r then
    clear_byte (from_bucket r) (bitset_char_mask (from_index r) (to_index r))
  else
    clear_byte (from_bucket r) (bitset_char_mask (from_index r) 7) ;;
    clear_byte (to_bucket r) (bitset_char_mask 0 (to_index r)) ;;
    whenM (nz (to_bucket r - (from_bucket r + 1)))
      (memset_bytes (from_bucket r + 1) 0 (to_bucket r - (from_bucket r + 1))).

(** [while (++from_bucket != to_bucket) result += popcount_byte(...)] *)
Fixpoint count_buckets (fuel : nat) (b to result : Z) : M bud Z :=
  if b + 1 =? to then mret result else
  match fuel with
  | O => fault
  | S fuel => v ← ldb (b + 1); count_buckets fuel (b + 1) to (result + popcount_byte v)
  end.

Definition bitset_count_range (r : bitset_range) : M bud Z :=
  if from_bucket r =? to_bucket r then
    v ← ldb (from_bucket r);
    mret (popcount_byte (Z.land v (bitset_char_mask (from_index r) (to_index r))))
  else
    v1 ← ldb (from_bucket r);
    v2 ← ldb (to_bucket r);
    count_buckets (Z.to_nat (to_bucket r - from_bucket r)) (from_bucket r) (to_bucket r)
      (popcount_byte (Z.land v1 (bitset_char_mask (from_index r) 7)) +
       popcount_byte (Z.land v2 (bitset_char_mask 0 (to_index r)))).

(** ** Bits as a function of the bytes *)

Definition bitv (m : gmap Z Z) (k : Z) : bool :=
  Z.testbit (default 0 (m !! (k `div` 8))) (k `mod` 8).

(** The bytes [0, ..., n - 1] are there. *)
Definition bytes_ok (n : Z) (m : gmap Z Z) : Prop :=
  ∀ a, 0 ≤ a < n → ∃ v, m !! a = Some v ∧ 0 ≤ v < 256.

(** [m'] is [m] with the bits [P] set to [v]; nothing outside the first [n]
    bytes changes. *)
Definition bits_set (n : Z) (m m' : gmap Z Z) (P : Z → bool) (v : bool) : Prop :=
  bytes_ok n m' ∧
  (∀ k, 0 ≤ k < 8 * n → bitv m' k = if P k then v else bitv m k) ∧
  (∀ a, ¬ 0 ≤ a < n → m' !! a = m !! a).

Definition within (lo hi k : Z) : bool := bool_decide (lo ≤ k ≤ hi).

Lemma bits_set_refl n m P v : bytes_ok n m → (∀ k, P k = false) → bits_set n m m P v.
Proof. intros Hm HP. split_and!; [done| |done]. intros k _. by rewrite HP. Qed.

Lemma bits_set_trans n m1 m2 m3 P Q v :
  bits_set n m1 m2 P v → bits_set n m2 m3 Q v → bits_set n m1 m3 (λ k, Q k || P k) v.
Proof.
  intros (A1 & A2 & A3) (B1 & B2 & B3). split_and!; [done| |].
  - intros k Hk. rewrite B2, A2 by done. by destruct (Q k), (P k).
  - intros a Ha. by rewrite B3, A3.
Qed.

Lemma bits_set_ext n m m' P Q v :
  bits_set n m m' P v → (∀ k, 0 ≤ k < 8 * n → P k = Q k) → bits_set n m m' Q v.
Proof. intros (A1 & A2 & A3) E. split_and!; [done| |done]. intros k Hk. by rewrite A2, E. Qed.

Lemma mask_range i j : 0 ≤ i < 8 → 0 ≤ j < 8 →
  0 ≤ bitset_char_mask i j < 256 ∧
  ∀ k, 0 ≤ k < 8 → Z.testbit (bitset_char_mask i j) k = bool_decide (i ≤ k ≤ j).
Proof.
  intros Hi Hj.
  assert (Forall (λ i, Forall (λ j, (0 ≤ bitset_char_mask i j < 256) ∧
    Forall (λ k, Z.testbit (bitset_char_mask i j) k = bool_decide (i ≤ k ≤ j)) (seqZ 0 8))
    (seqZ 0 8)) (seqZ 0 8)) as Hall by (apply (bool_decide_unpack _); by vm_compute).
  rewrite list.Forall_forall in Hall. specialize (Hall i ltac:(apply elem_of_seqZ; lia)).
  rewrite list.Forall_forall in Hall. specialize (Hall j ltac:(apply elem_of_seqZ; lia)).
  destruct Hall as [? Hk]. split; [done|]. intros k Hk'. rewrite list.Forall_forall in Hk.
  apply Hk, elem_of_seqZ. lia.
Qed.

(** A new byte. *)
Lemma bits_set_byte n m b w w' i j v :
  bytes_ok n m → 0 ≤ b < n → m !! b = Some w → 0 ≤ w' < 256 → 0 ≤ i → j < 8 →
  (∀ k, 0 ≤ k < 8 → Z.testbit w' k = if bool_decide (i ≤ k ≤ j) then v else Z.testbit w k) →
  bits_set n m (<[b := w']> m) (within (8 * b + i) (8 * b + j)) v.
Proof.
  intros Hm Hb Hw Hw' Hi Hj Ht. split_and!.
  - intros a Ha. rewrite lookup_insert. case_decide; [naive_solver|auto].
  - intros k Hk. unfold bitv. rewrite lookup_insert. pose proof (Z.div_mod k 8 ltac:(done)) as E.
    pose proof (Z.mod_pos_bound k 8 ltac:(done)) as Hr. case_decide as Eb.
    + rewrite Eb at 2. rewrite <-Eb, Hw. cbn [default from_option]. rewrite Ht by done.
      unfold within. rewrite (bool_decide_ext (i ≤ k `mod` 8 ≤ j) (8 * b + i ≤ k ≤ 8 * b + j)); [done|lia].
    + unfold within. rewrite bool_decide_eq_false_2; [done|]. lia.
  - intros a Ha. rewrite lookup_insert_ne; [done|]. lia.
Qed.

(** Bitwise operations on a byte. *)
Lemma byte_lor w mask : 0 ≤ w < 256 → 0 ≤ mask < 256 → 0 ≤ Z.lor w mask < 256.
Proof.
  intros Hw Hm. rewrite <-(Z.mod_small w 256), <-(Z.mod_small mask 256) by done.
  change 256 with (2 ^ 8). rewrite <-!Z.land_ones, <-Z.land_lor_distr_l, Z.land_ones by done.
  by apply Z.mod_pos_bound.
Qed.

Lemma byte_land w mask : 0 ≤ mask < 256 → 0 ≤ Z.land w mask < 256.
Proof.
  intros Hm. rewrite <-(Z.mod_small mask 256) by done. change 256 with (2 ^ 8).
  rewrite <-Z.land_ones, Z.land_assoc, Z.land_ones by done. by apply Z.mod_pos_bound.
Qed.

Lemma testbit_u8_lnot mask k : 0 ≤ k < 8 → Z.testbit (u8 (Z.lnot mask)) k = negb (Z.testbit mask k).
Proof.
  intros Hk. unfold wrap. rewrite Z.mod_pow2_bits_low by lia. by rewrite Z.lnot_spec by lia.
Qed.

Section Ops.
Context (n : Z).
Implicit Types s : bud.

Lemma wp_ldb a Q s :
  bytes_ok n (tbytes s) → 0 ≤ a < n →
  (∀ v, tbytes s !! a = Some v → 0 ≤ v < 256 → Q v s) → wp (ldb a) Q s.
Proof.
  intros Hb Ha HQ. destruct (Hb a Ha) as (v & Hv & Hr). unfold wp, ldb. rewrite Hv. auto.
Qed.

Lemma wp_stb a v Q s :
  bytes_ok n (tbytes s) → 0 ≤ a < n →
  Q tt (s <| tbytes := <[a := v]> (tbytes s) |>) → wp (stb a v) Q s.
Proof.
  intros Hb Ha HQ. destruct (Hb a Ha) as (w & Hw & Hr). unfold wp, stb. by rewrite Hw.
Qed.

Lemma or_byte_spec b i j s :
  bytes_ok n (tbytes s) → 0 ≤ b < n → 0 ≤ i < 8 → 0 ≤ j < 8 →
  wp (or_byte b (bitset_char_mask i j))
    (λ _ s', ∃ m, s' = s <| tbytes := m |> ∧
       bits_set n (tbytes s) m (within (8 * b + i) (8 * b + j)) true) s.
Proof.
  intros Hb Hbn Hi Hj. destruct (mask_range i j Hi Hj) as [Hm Ht].
  apply wp_bind. apply wp_ldb; [done|done|]. intros v Hv Hr. apply wp_stb; [done|done|].
  eexists. split; [done|]. eapply bits_set_byte; try done; [by apply byte_lor|lia|lia|].
  intros k Hk. rewrite Z.lor_spec, Ht by done. by case_bool_decide; rewrite ?orb_true_r, ?orb_false_r.
Qed.

Lemma clear_byte_spec b i j s :
  bytes_ok n (tbytes s) → 0 ≤ b < n → 0 ≤ i < 8 → 0 ≤ j < 8 →
  wp (clear_byte b (bitset_char_mask i j))
    (λ _ s', ∃ m, s' = s <| tbytes := m |> ∧
       bits_set n (tbytes s) m (within (8 * b + i) (8 * b + j)) false) s.
Proof.
  intros Hb Hbn Hi Hj. destruct (mask_range i j Hi Hj) as [Hm Ht].
  apply wp_bind. apply wp_ldb; [done|done|]. intros v Hv Hr. apply wp_stb; [done|done|].
  eexists. split; [done|]. eapply bits_set_byte; try done; [|lia|lia|].
  - apply byte_land. apply (wrap_range 8). lia.
  - intros k Hk. rewrite Z.land_spec, testbit_u8_lnot, Ht by done.
    by case_bool_decide; rewrite ?andb_true_r, ?andb_false_r.
Qed.

(** [memset] with all ones or all zeroes. *)
Lemma memset_bytes_spec b cnt v s :
  bytes_ok n (tbytes s) → 0 ≤ b → 0 ≤ cnt → b + cnt ≤ n →
  wp (memset_bytes b (if v : bool then 255 else 0) cnt)
    (λ _ s', ∃ m, s' = s <| tbytes := m |> ∧
       bits_set n (tbytes s) m (within (8 * b) (8 * (b + cnt) - 1)) v) s.
Proof.
  intros Hb Hb0 Hc Hbn. unfold memset_bytes.
  eapply wp_mono; [eapply (wp_for_all (Z.to_nat cnt) b _ (λ k s', ∃ m, s' = s <| tbytes := m |> ∧
     bits_set n (tbytes s) m (within (8 * b) (8 * k - 1)) v))|].
  - intros k s' Hk (m & -> & Hm). apply wp_stb; [apply Hm|lia|].
    destruct (proj1 Hm k ltac:(lia)) as (w & Hw & Hr).
    eexists. split; [done|]. eapply bits_set_ext;
      [eapply bits_set_trans; [exact Hm|]; simpl; apply (bits_set_byte n m k w _ 0 7 v)|].
    + apply Hm.
    + lia.
    + done.
    + by destruct v.
    + done.
    + done.
    + intros j Hj. rewrite bool_decide_eq_true_2 by lia. destruct v; [|by rewrite Z.testbit_0_l].
      change 255 with (Z.ones 8). rewrite Z.ones_spec_low by lia. done.
    + intros j Hj. unfold within. rewrite <-bool_decide_or. apply bool_decide_ext. lia.
  - exists (tbytes s). split; [by destruct s|]. apply bits_set_refl; [done|].
    intros k. unfold within. apply bool_decide_eq_false_2. lia.
  - intros [] s' (m & -> & Hm). exists m. split; [done|].
    replace (b + cnt) with (b + Z.of_nat (Z.to_nat cnt)) by lia. done.
Qed.

(** The common shape of [bitset_set_range] and [bitset_clear_range]. *)
Lemma range_spec (op : Z → Z → M bud unit) (v : bool) lo hi s :
  (∀ b i j s, bytes_ok n (tbytes s) → 0 ≤ b < n → 0 ≤ i < 8 → 0 ≤ j < 8 →
     wp (op b (bitset_char_mask i j))
       (λ _ s', ∃ m, s' = s <| tbytes := m |> ∧
          bits_set n (tbytes s) m (within (8 * b + i) (8 * b + j)) v) s) →
  bytes_ok n (tbytes s) → 0 ≤ lo ≤ hi → hi < 8 * n →
  let r := to_bitset_range lo hi in
  wp (if from_bucket r =? to_bucket r then op (from_bucket r) (bitset_char_mask (from_index r) (to_index r))
      else
        op (from_bucket r) (bitset_char_mask (from_index r) 7) ;;
        op (to_bucket r) (bitset_char_mask 0 (to_index r)) ;;
        whenM (nz (to_bucket r - (from_bucket r + 1)))
          (memset_bytes (from_bucket r + 1) (if v then 255 else 0)
             (to_bucket r - (from_bucket r + 1))))
    (λ _ s', ∃ m, s' = s <| tbytes := m |> ∧ bits_set n (tbytes s) m (within lo hi) v) s.
Proof.
  intros Hop Hb Hlo Hhi r. unfold r. cbn [from_bucket to_bucket from_index to_index to_bitset_range].
  pose proof (Z.div_mod lo 8 ltac:(done)) as El. pose proof (Z.mod_pos_bound lo 8 ltac:(done)) as Hl.
  pose proof (Z.div_mod hi 8 ltac:(done)) as Eh. pose proof (Z.mod_pos_bound hi 8 ltac:(done)) as Hh.
  set (fb := lo `div` 8) in *. set (tb := hi `div` 8) in *.
  set (fi := lo `mod` 8) in *. set (ti := hi `mod` 8) in *. clearbody fb tb fi ti.
  destruct (Z.eqb_spec fb tb) as [Efb|Hne].
  - eapply wp_mono; [apply Hop; try done; lia|]. intros [] s' (m & -> & Hm).
    exists m. split; [done|]. by replace lo with (8 * fb + fi); replace hi with (8 * fb + ti) by lia.
  - assert (fb < tb) by lia.
    apply wp_bind. eapply wp_mono; [apply Hop; try done; lia|]. intros [] s1 (m1 & -> & H1).
    apply wp_bind. eapply wp_mono; [apply Hop; [apply H1|lia..]|].
    intros [] s2 (m2 & -> & H2). cbn in H2.
    pose proof (bits_set_trans _ _ _ _ _ _ _ H1 H2) as H12.
    apply wp_when.
    + intros Hnz. apply nz_true in Hnz.
      eapply wp_mono; [apply memset_bytes_spec; [apply H2|lia..]|].
      intros [] s3 (m3 & -> & H3). exists m3. split; [done|]. cbn in H3.
      eapply bits_set_ext; [exact (bits_set_trans _ _ _ _ _ _ _ H12 H3)|].
      intros k Hk. unfold within. rewrite <-!bool_decide_or. apply bool_decide_ext. lia.
    + intros Hz. apply nz_false in Hz. exists m2. split; [done|].
      eapply bits_set_ext; [exact H12|]. intros k Hk. unfold within.
      rewrite <-!bool_decide_or. apply bool_decide_ext. lia.
Qed.

Lemma bitset_set_range_spec lo hi s :
  bytes_ok n (tbytes s) → 0 ≤ lo ≤ hi → hi < 8 * n →
  wp (bitset_set_range (to_bitset_range lo hi))
    (λ _ s', ∃ m, s' = s <| tbytes := m |> ∧ bits_set n (tbytes s) m (within lo hi) true) s.
Proof. intros. apply (range_spec or_byte true); try done. intros. by apply or_byte_spec. Qed.

Lemma bitset_clear_range_spec lo hi s :
  bytes_ok n (tbytes s) → 0 ≤ lo ≤ hi → hi < 8 * n →
  wp (bitset_clear_range (to_bitset_range lo hi))
    (λ _ s', ∃ m, s' = s <| tbytes := m |> ∧ bits_set n (tbytes s) m (within lo hi) false) s.
Proof. intros. apply (range_spec clear_byte false); try done. intros. by apply clear_byte_spec. Qed.

(** ** Reading *)

Lemma bitset_test_spec k Q s :
  bytes_ok n (tbytes s) → 0 ≤ k < 8 * n → Q (bitv (tbytes s) k) s → wp (bitset_test k) Q s.
Proof.
  intros Hb Hk HQ. pose proof (Z.div_mod k 8 ltac:(done)) as E.
  pose proof (Z.mod_pos_bound k 8 ltac:(done)) as Hr.
  apply wp_bind, wp_ldb; [done|lia|]. intros v Hv Hvr. apply wp_ret.
  unfold bitv in HQ. rewrite Hv in HQ. cbn [default from_option] in HQ.
  assert (bitset_index_mask (k `mod` 8) = 2 ^ (k `mod` 8)) as ->.
  { assert (Forall (λ i, bitset_index_mask i = 2 ^ i) (seqZ 0 8)) as Hall
      by (apply (bool_decide_unpack _); by vm_compute).
    rewrite list.Forall_forall in Hall. apply Hall, elem_of_seqZ. lia. }
  assert (nz (Z.land v (2 ^ (k `mod` 8))) = Z.testbit v (k `mod` 8)) as ->; [|done].
  destruct (Z.testbit v (k `mod` 8)) eqn:Et.
  - apply nz_true. intros E0. apply Z.bits_inj_iff in E0. specialize (E0 (k `mod` 8)).
    rewrite Z.land_spec, Et, Z.pow2_bits_true, Z.bits_0 in E0 by lia. done.
  - apply nz_false. apply Z.bits_inj. intros j. rewrite Z.land_spec, Z.pow2_bits_eqb, Z.bits_0 by lia.
    destruct (Z.eqb_spec (k `mod` 8) j) as [<-|]; [by rewrite Et|by rewrite andb_false_r].
Qed.

(** The ones of a masked byte. *)
Lemma popcount_mask m b v i j :
  m !! b = Some v → 0 ≤ i ≤ j → j < 8 →
  popcount_byte (Z.land v (bitset_char_mask i j)) =
  ones_from (Z.to_nat (j - i + 1)) (bitv m) (8 * b + i).
Proof.
  intros Hv Hi Hj. destruct (mask_range i j ltac:(lia) ltac:(lia)) as [Hm Ht].
  rewrite popcount_byte_eq by (by apply byte_land).
  rewrite (ones_from_ext 8 _ (λ k, bool_decide (i ≤ k ≤ j) && bitv m (8 * b + k))).
  2: { intros k Hk. rewrite Z.land_spec, Ht by lia. unfold bitv. rewrite andb_comm. do 2 f_equal.
       - replace ((8 * b + k) `div` 8) with b by (Z.div_mod_to_equations; lia). by rewrite Hv.
       - Z.div_mod_to_equations; lia. }
  replace 8%nat with (Z.to_nat i + (Z.to_nat (j - i + 1) + Z.to_nat (7 - j)))%nat by lia.
  rewrite !ones_from_app, (ones_from_prefix _ _ 0 0), (ones_from_prefix (Z.to_nat (7 - j)) _ _ 0).
  - rewrite Z.add_0_r, !Z.add_0_l, Z2Nat.id by lia. rewrite <-ones_from_shift.
    apply ones_from_ext. intros k Hk. by rewrite bool_decide_eq_true_2 by lia.
  - lia.
  - intros k Hk. rewrite !bool_decide_eq_false_2 by lia. done.
  - lia.
  - intros k Hk. rewrite !bool_decide_eq_false_2 by lia. done.
Qed.

Lemma count_buckets_spec fuel : ∀ b to result s,
  bytes_ok n (tbytes s) → 0 ≤ b < to → to ≤ n → to - b ≤ Z.of_nat fuel →
  wp (count_buckets fuel b to result)
    (λ v s', s' = s ∧
       v = result + ones_from (Z.to_nat (8 * (to - b - 1))) (bitv (tbytes s)) (8 * (b + 1))) s.
Proof.
  induction fuel as [|fuel IH]; intros b to result s Hb Hbt Hto Hf; cbn [count_buckets]; [lia|].
  destruct (Z.eqb_spec (b + 1) to) as [<-|].
  { apply wp_ret. split; [done|]. replace (b + 1 - b - 1) with 0 by lia. simpl. lia. }
  apply wp_bind, wp_ldb; [done|lia|]. intros v Hv Hr.
  eapply wp_mono; [apply IH; [done|lia..]|]. intros w s' [-> ->]. split; [done|].
  replace (Z.to_nat (8 * (to - b - 1))) with (8 + Z.to_nat (8 * (to - (b + 1) - 1)))%nat by lia.
  rewrite ones_from_app. rewrite popcount_byte_eq by done.
  rewrite (ones_from_ext 8 (Z.testbit v) (λ k, bitv (tbytes s) (8 * (b + 1) + k))).
  - rewrite ones_from_shift, Z.add_0_r. replace (8 * (b + 1) + Z.of_nat 8) with (8 * (b + 1 + 1)) by lia.
    lia.
  - intros k Hk. unfold bitv.
    replace ((8 * (b + 1) + k) `div` 8) with (b + 1) by (Z.div_mod_to_equations; lia).
    rewrite Hv. cbn [default from_option]. f_equal. Z.div_mod_to_equations; lia.
Qed.

Lemma bitset_count_range_spec lo hi s :
  bytes_ok n (tbytes s) → 0 ≤ lo ≤ hi → hi < 8 * n →
  wp (bitset_count_range (to_bitset_range lo hi))
    (λ v s', s' = s ∧ v = ones_from (Z.to_nat (hi - lo + 1)) (bitv (tbytes s)) lo) s.
Proof.
  intros Hb Hlo Hhi. unfold bitset_count_range.
  cbn [from_bucket to_bucket from_index to_index to_bitset_range].
  pose proof (Z.div_mod lo 8 ltac:(done)) as El. pose proof (Z.mod_pos_bound lo 8 ltac:(done)) as Hl.
  pose proof (Z.div_mod hi 8 ltac:(done)) as Eh. pose proof (Z.mod_pos_bound hi 8 ltac:(done)) as Hh.
  set (fb := lo `div` 8) in *. set (tb := hi `div` 8) in *.
  set (fi := lo `mod` 8) in *. set (ti := hi `mod` 8) in *. clearbody fb tb fi ti.
  destruct (Z.eqb_spec fb tb) as [<-|Hne].
  - apply wp_bind, wp_ldb; [done|lia|]. intros v Hv _. apply wp_ret. split; [done|].
    rewrite (popcount_mask (tbytes s) fb) by (done || lia). f_equal; lia.
  - apply wp_bind, wp_ldb; [done|lia|]. intros v1 Hv1 _.
    apply wp_bind, wp_ldb; [done|lia|]. intros v2 Hv2 _.
    eapply wp_mono; [apply count_buckets_spec; [done|lia..]|]. intros v s' [-> ->]. split; [done|].
    rewrite (popcount_mask (tbytes s) fb v1), (popcount_mask (tbytes s) tb v2) by (done || lia).
    replace (Z.to_nat (hi - lo + 1)) with
      (Z.to_nat (7 - fi + 1) + (Z.to_nat (8 * (tb - fb - 1)) + Z.to_nat (ti - 0 + 1)))%nat by lia.
    rewrite !ones_from_app, El.
    replace (8 * fb + fi + Z.of_nat (Z.to_nat (7 - fi + 1))) with (8 * (fb + 1)) by lia.
    replace (8 * (fb + 1) + Z.of_nat (Z.to_nat (8 * (tb - fb - 1)))) with (8 * tb + 0) by lia. lia.
Qed.
End Ops.
