(* ===== verification/BuddyTree.v ===== *)
(** * The buddy allocation tree

    The tree section of [include/buddy.h].  Node [i] of a tree of [order]
    levels has children [2 i] and [2 i + 1]; its status, the distance to the
    nearest free node at or below it, is kept in unary in a field of the bit
    set.  The fields are shown to be disjoint, the operations to compute on
    statuses, and the statuses to describe a set of allocated nodes. *)

From S2P Require Import Prelude BuddyBits Bitset.

(** ** The code *)

Record buddy_tree_pos := mkPos { index : Z; depth : Z }.
Record internal_position := mkInternal { local_offset : Z; bitset_location : Z }.

Definition INVALID_POS : buddy_tree_pos := mkPos 0 0.

(** [while (order != to)], with the 8-bit [order]. *)
Fixpoint size_for_order_from (n : nat) (order result multi : Z) : Z :=
  match n with
  | O => result
  | S n => size_for_order_from n (u8 (order - 1)) (u64 (result + order * multi)) (u64 (multi * 2))
  end.
Definition size_for_order (order to : Z) : Z :=
  size_for_order_from (Z.to_nat (u8 (order - to))) order 0 1.

(** The bytes of the bit set, padded the way the code does. *)
Definition bitset_bytes (order : Z) : Z :=
  let b := bitset_sizeof (size_for_order order 0) in
  if nz (b `mod` 8) then b + b `mod` 8 else b.

(** [sizeof(struct buddy_tree)] is 24. *)
Definition buddy_tree_sizeof (order : Z) : Z :=
  24 + bitset_bytes order + (order + 2) * 8.

Definition buddy_tree_root : buddy_tree_pos := mkPos 1 1.
Definition buddy_tree_depth (p : buddy_tree_pos) : Z := depth p.
Definition buddy_tree_left_child (p : buddy_tree_pos) : buddy_tree_pos :=
  mkPos (u64 (index p * 2)) (u64 (depth p + 1)).
Definition buddy_tree_right_child (p : buddy_tree_pos) : buddy_tree_pos :=
  mkPos (u64 (u64 (index p * 2) + 1)) (u64 (depth p + 1)).
Definition buddy_tree_sibling (p : buddy_tree_pos) : buddy_tree_pos :=
  mkPos (Z.lxor (index p) 1) (depth p).
Definition buddy_tree_parent (p : buddy_tree_pos) : buddy_tree_pos :=
  mkPos (index p `div` 2) (u64 (depth p - 1)).
Definition buddy_tree_index (p : buddy_tree_pos) : Z :=
  Z.land (index p) (u64 (Z.lnot (two_to_the_power_of (u64 (depth p - 1))))).
Definition buddy_tree_leftmost_child_internal (tree_order : Z) : buddy_tree_pos :=
  mkPos (two_to_the_power_of (u64 (tree_order - 1))) tree_order.
Definition buddy_tree_leftmost_child : M bud buddy_tree_pos :=
  o ← gets order; mret (buddy_tree_leftmost_child_internal o).
Definition buddy_tree_valid (p : buddy_tree_pos) : M bud bool :=
  u ← gets upper_pos_bound; mret (nz (index p) && (index p <? u)).

(** 8-byte words behind the tree. *)
Fixpoint ldw (n : nat) (a : Z) : M bud Z :=
  match n with
  | O => mret 0
  | S n => b ← ldb a; w ← ldw n (a + 1); mret (b + 256 * w)
  end.
Fixpoint stw (n : nat) (a v : Z) : M bud unit :=
  match n with
  | O => mret tt
  | S n => stb a (v `mod` 256) ;; stw n (a + 1) (v `div` 256)
  end.

Definition buddy_tree_populate_size_for_order : M bud unit :=
  o ← gets order;
  modify (λ s, s <| size_for_order_offset := bitset_bytes o `div` 8 + 1 |>) ;;
  for_all (Z.to_nat (o + 1)) 0 (λ i,
    off ← gets size_for_order_offset;
    stw 8 (8 * (off + i)) (size_for_order o (u8 i))).

Definition buddy_tree_size_for_order (to : Z) : M bud Z :=
  off ← gets size_for_order_offset; ldw 8 (8 * (off + to)).

Definition buddy_tree_internal_position_tree (p : buddy_tree_pos) : M bud internal_position :=
  o ← gets order;
  let lo := u64 (o - buddy_tree_depth p + 1) in
  total ← buddy_tree_size_for_order (u8 lo);
  mret (mkInternal lo (u64 (total + lo * buddy_tree_index p))).

Definition zero_bytes (n : Z) : gmap Z Z := list_to_map ((λ a, (a, 0)) <$> seqZ 0 n).

Definition buddy_tree_init (o : Z) : M bud unit :=
  modify (λ s, s <| tbytes := zero_bytes (buddy_tree_sizeof o - 24) |>
                 <| size_for_order_offset := 0 |> <| tree_flags := 0 |>
                 <| order := o |> <| upper_pos_bound := two_to_the_power_of o |>) ;;
  buddy_tree_populate_size_for_order.

Definition write_to_internal_position (p : internal_position) (value : Z) : M bud unit :=
  bitset_clear_range (to_bitset_range (bitset_location p) (bitset_location p + local_offset p - 1)) ;;
  whenM (nz value)
    (bitset_set_range (to_bitset_range (bitset_location p) (bitset_location p + value - 1))).

Definition read_from_internal_position (p : internal_position) : M bud Z :=
  t ← bitset_test (bitset_location p);
  if negb t then mret 0 else
  bitset_count_range (to_bitset_range (bitset_location p) (bitset_location p + local_offset p - 1)).

Definition compare_with_internal_position (p : internal_position) (value : Z) : M bud bool :=
  bitset_test (bitset_location p + value - 1).

Definition buddy_tree_status (p : buddy_tree_pos) : M bud Z :=
  i ← buddy_tree_internal_position_tree p; read_from_internal_position i.

(** The loop of [update_parent_chain]; a round goes up one level. *)
Fixpoint update_parent_chain (fuel : nat) (pos : buddy_tree_pos) (pi : internal_position)
    (size_current : Z) : M bud unit :=
  if index pos =? 1 then mret tt else
  match fuel with
  | O => fault
  | S fuel =>
      let sib := mkInternal (local_offset pi)
        (u64 (bitset_location pi + local_offset pi - 2 * local_offset pi * Z.land (index pos) 1)) in
      size_sibling ← read_from_internal_position sib;
      let pos := buddy_tree_parent pos in
      pi ← buddy_tree_internal_position_tree pos;
      size_parent ← read_from_internal_position pi;
      let target_parent :=
        (if nz size_current || nz size_sibling then 1 else 0) *
        ((if size_current <=? size_sibling then size_current else size_sibling) + 1) in
      if target_parent =? size_parent then mret tt else
      write_to_internal_position pi target_parent ;;
      update_parent_chain fuel pos pi target_parent
  end.

(** An index has at most 64 bits, so 64 rounds reach the root. *)
Definition chain_fuel : nat := 64.

Definition buddy_tree_mark (pos : buddy_tree_pos) : M bud unit :=
  i ← buddy_tree_internal_position_tree pos;
  write_to_internal_position i (local_offset i) ;;
  update_parent_chain chain_fuel pos i (local_offset i).

Inductive buddy_tree_release_status :=
  | BUDDY_TREE_RELEASE_SUCCESS | BUDDY_TREE_RELEASE_FAIL_PARTIALLY_USED.

Definition buddy_tree_release (pos : buddy_tree_pos) : M bud buddy_tree_release_status :=
  i ← buddy_tree_internal_position_tree pos;
  v ← read_from_internal_position i;
  if negb (v =? local_offset i) then mret BUDDY_TREE_RELEASE_FAIL_PARTIALLY_USED else
  write_to_internal_position i 0 ;;
  update_parent_chain chain_fuel pos i 0 ;;
  mret BUDDY_TREE_RELEASE_SUCCESS.

(** One round of [buddy_tree_find_free]: the child to go on with. *)
Definition pick_child (left_pos right_pos : buddy_tree_pos) (target_status : Z) : M bud buddy_tree_pos :=
  li ← buddy_tree_internal_position_tree left_pos;
  let ri := mkInternal (local_offset li) (u64 (bitset_location li + local_offset li)) in
  busy_left ← compare_with_internal_position li (target_status + 1);
  if busy_left : bool then mret right_pos else
  busy_right ← compare_with_internal_position ri (target_status + 1);
  if busy_right : bool then mret left_pos else
  right_status ← read_from_internal_position ri;
  if nz right_status then
    b ← compare_with_internal_position li right_status;
    mret (if b : bool then left_pos else right_pos)
  else mret left_pos.

(** The descent; [target_status] has 8 bits. *)
Fixpoint find_free_from (fuel : nat) (current_pos : buddy_tree_pos)
    (current_depth target_depth target_status : Z) : M bud buddy_tree_pos :=
  if current_depth =? target_depth then mret current_pos else
  match fuel with
  | O => fault
  | S fuel =>
      let target_status := u8 (target_status - 1) in
      let left_pos := buddy_tree_left_child current_pos in
      let right_pos := buddy_tree_sibling left_pos in
      next ← pick_child left_pos right_pos target_status;
      find_free_from fuel next (current_depth + 1) target_depth target_status
  end.

Definition buddy_tree_find_free (target_depth : Z) : M bud buddy_tree_pos :=
  let target_status := u8 (target_depth - 1) in
  st ← buddy_tree_status buddy_tree_root;
  if target_status <? st then mret INVALID_POS else
  find_free_from chain_fuel buddy_tree_root (buddy_tree_depth buddy_tree_root) target_depth
    target_status.

(** [buddy_tree_is_free] *)
Fixpoint is_free_up (fuel : nat) (pos : buddy_tree_pos) : M bud bool :=
  v ← buddy_tree_valid pos;
  if negb v then mret true else
  match fuel with
  | O => fault
  | S fuel =>
      i ← buddy_tree_internal_position_tree pos;
      value ← read_from_internal_position i;
      if nz value then mret (negb (value =? local_offset i))
      else is_free_up fuel (buddy_tree_parent pos)
  end.
Definition buddy_tree_is_free (pos : buddy_tree_pos) : M bud bool :=
  st ← buddy_tree_status pos;
  if nz st then mret false else is_free_up chain_fuel (buddy_tree_parent pos).

(** ** Geometry

    Node [i] has level [log2 i]; its field has [lo i] bits and starts at
    [loc i].  [rows m] is the size of the first [m] levels. *)

Definition lo (o i : Z) : Z := o - Z.log2 i.
Definition rows (o m : Z) : Z := (o - m + 2) * 2 ^ m - o - 2.
Definition loc (o i : Z) : Z := rows o (Z.log2 i) + lo o i * (i - 2 ^ Z.log2 i).
Definition node (o i : Z) : Prop := 1 ≤ i < 2 ^ o.
Definition at_node (i : Z) : buddy_tree_pos := mkPos i (Z.log2 i + 1).

Lemma rows_0 o : rows o 0 = 0.
Proof. unfold rows. simpl. lia. Qed.

Lemma rows_succ o m : 0 ≤ m → rows o (m + 1) = rows o m + (o - m) * 2 ^ m.
Proof. intros Hm. unfold rows. rewrite Z.pow_add_r by done. change (2 ^ 1) with 2. lia. Qed.

Lemma rows_mono o m m' : 0 ≤ m ≤ m' → m' ≤ o → rows o m ≤ rows o m'.
Proof.
  intros Hm Hm'. replace m' with (m + Z.of_nat (Z.to_nat (m' - m))) by lia.
  assert (Z.of_nat (Z.to_nat (m' - m)) ≤ o - m) as Hk by lia. revert Hk.
  generalize (Z.to_nat (m' - m)) as k. induction k as [|k IH]; intros Hk.
  - by rewrite Z.add_0_r.
  - replace (m + Z.of_nat (S k)) with (m + Z.of_nat k + 1) by lia. rewrite rows_succ by lia.
    pose proof (Z.pow_pos_nonneg 2 (m + Z.of_nat k)). specialize (IH ltac:(lia)). nia.
Qed.

Lemma pow2_58 m : 0 ≤ m ≤ 58 → 1 ≤ 2 ^ m ≤ 288230376151711744.
Proof.
  intros Hm. change 288230376151711744 with (2 ^ 58). split.
  - change 1 with (2 ^ 0). by apply Z.pow_le_mono_r; lia.
  - by apply Z.pow_le_mono_r; lia.
Qed.

Lemma rows_range o m : 0 ≤ m ≤ o → o ≤ 58 → 0 ≤ rows o m < 2 ^ 64 - 1024.
Proof.
  intros Hm Ho. pose proof (rows_mono o 0 m). rewrite rows_0 in *. split; [lia|].
  unfold rows. pose proof (pow2_58 m ltac:(lia)). change (2 ^ 64) with 18446744073709551616. nia.
Qed.

(** [size_for_order] computes the size of the rows above a level. *)
Lemma size_for_order_eq o m : 0 ≤ m ≤ o → o ≤ 58 → size_for_order o (o - m) = rows o m.
Proof.
  intros Hm Ho. unfold size_for_order. replace (o - (o - m)) with m by lia.
  rewrite wrap_small by (change (2 ^ 8) with 256; lia).
  assert (∀ n j, 0 ≤ j → j + Z.of_nat n ≤ o →
    size_for_order_from n (o - j) (rows o j) (2 ^ j) = rows o (j + Z.of_nat n)) as H.
  { induction n as [|n IH]; intros j Hj Hn; cbn [size_for_order_from].
    - f_equal. lia.
    - rewrite <-rows_succ by done. rewrite (wrap_small 8 (o - j - 1)) by (change (2 ^ 8) with 256; lia).
      pose proof (rows_range o (j + 1) ltac:(lia) Ho). rewrite (wrap_small 64 (rows _ _)) by lia.
      pose proof (pow2_58 j ltac:(lia)).
      rewrite (wrap_small 64 (2 ^ j * 2)) by (change (2 ^ 64) with 18446744073709551616; lia).
      replace (2 ^ j * 2) with (2 ^ (j + 1)) by (rewrite Z.pow_add_r by lia; done).
      replace (o - j - 1) with (o - (j + 1)) by lia. rewrite IH by lia. f_equal. lia. }
  specialize (H (Z.to_nat m) 0 ltac:(lia) ltac:(lia)). rewrite rows_0, Z.sub_0_r in H.
  change (2 ^ 0) with 1 in H. rewrite H. f_equal. lia.
Qed.

Lemma log2_node o i : node o i → 0 ≤ Z.log2 i < o ∧ 2 ^ Z.log2 i ≤ i < 2 * 2 ^ Z.log2 i.
Proof.
  intros Hi. unfold node in Hi. pose proof (Z.log2_nonneg i).
  pose proof (Z.log2_spec i ltac:(lia)) as Hs. rewrite Z.pow_succ_r in Hs by done.
  split; [|lia]. split; [done|]. apply Z.log2_lt_pow2; lia.
Qed.

Lemma node_child o i b : 1 ≤ i → 0 ≤ b < 2 →
  Z.log2 (2 * i + b) = Z.log2 i + 1 ∧ (node (o - 1) i → 0 < o → node o (2 * i + b)).
Proof.
  intros Hi Hb. split.
  - assert (b = 0 ∨ b = 1) as [->| ->] by lia; rewrite ?Z.add_0_r, ?Z.log2_double, ?Z.log2_succ_double by lia; lia.
  - intros [Hn1 Hn2] Ho. unfold node. replace o with (o - 1 + 1) by lia. rewrite Z.pow_add_r by lia.
    change (2 ^ 1) with 2. lia.
Qed.

Lemma node_up o i : node o i → i ≠ 1 → node o (i `div` 2) ∧ Z.log2 (i `div` 2) = Z.log2 i - 1.
Proof.
  intros [Hi1 Hi2] Hne. split.
  - unfold node. Z.div_mod_to_equations. lia.
  - change 2 with (2 ^ 1). rewrite <-Z.shiftr_div_pow2, Z.log2_shiftr by lia.
    assert (1 ≤ Z.log2 i) by (apply Z.log2_le_pow2; lia). lia.
Qed.

(** The fields lie one after the other, in the order of the nodes. *)
Lemma loc_order o i j : node o i → node o j → i < j → loc o i + lo o i ≤ loc o j.
Proof.
  intros Hi Hj Hij. destruct (log2_node o i Hi) as [Li Bi], (log2_node o j Hj) as [Lj Bj].
  unfold loc, lo. assert (Z.log2 i ≤ Z.log2 j) by (apply Z.log2_le_mono; lia).
  destruct (decide (Z.log2 i = Z.log2 j)) as [E|Hne].
  - rewrite E in *. nia.
  - pose proof (rows_mono o (Z.log2 i + 1) (Z.log2 j) ltac:(lia) ltac:(lia)) as Hr.
    rewrite rows_succ in Hr by lia. nia.
Qed.

Lemma loc_range o i : node o i → 0 ≤ loc o i ∧ 1 ≤ lo o i ∧ loc o i + lo o i ≤ rows o o.
Proof.
  intros Hi. destruct (log2_node o i Hi) as [Li Bi].
  pose proof (rows_mono o 0 (Z.log2 i) ltac:(lia) ltac:(lia)) as H0. rewrite rows_0 in H0.
  pose proof (rows_mono o (Z.log2 i + 1) o ltac:(lia) ltac:(lia)) as Hr.
  rewrite rows_succ in Hr by lia. unfold loc, lo in *. split_and!; nia.
Qed.

Lemma loc_apart o i j a b : node o i → node o j → i ≠ j →
  0 ≤ a < lo o i → 0 ≤ b < lo o j → loc o i + a ≠ loc o j + b.
Proof.
  intros Hi Hj Hne Ha Hb. destruct (decide (i < j)).
  - pose proof (loc_order o i j Hi Hj ltac:(lia)). lia.
  - pose proof (loc_order o j i Hj Hi ltac:(lia)). lia.
Qed.

(** The index within a row. *)
Lemma buddy_tree_index_eq o i : node o i → o ≤ 58 →
  buddy_tree_index (at_node i) = i - 2 ^ Z.log2 i.
Proof.
  intros Hi Ho. destruct (log2_node o i Hi) as [Li Bi]. unfold buddy_tree_index, at_node.
  cbn [index depth]. replace (Z.log2 i + 1 - 1) with (Z.log2 i) by lia.
  rewrite (wrap_small 64 (Z.log2 i)) by lia. rewrite two_to_the_power_of_eq by lia.
  unfold wrap. rewrite <-Z.land_ones by done. rewrite (Z.land_comm (Z.lnot _)), Z.land_assoc.
  rewrite Z.land_ones, Z.mod_small by
    (done || (pose proof (pow2_58 o); destruct Hi; change (2 ^ 64) with 18446744073709551616; lia)).
  rewrite <-Z.ldiff_land. symmetry. apply Z.sub_nocarry_ldiff.
  apply Z.bits_inj. intros k. rewrite Z.ldiff_spec, Z.bits_0.
  destruct (decide (k = Z.log2 i)) as [->|].
  - rewrite Z.bit_log2 by lia. by rewrite andb_false_r.
  - rewrite Z.pow2_bits_false by lia. done.
Qed.

(** ** Layout

    The bit set occupies the first [set_bytes] bytes, the table of row offsets
    the words from [table_word] on. *)

Definition set_bytes (o : Z) : Z := bitset_sizeof (rows o o).
Definition table_word (o : Z) : Z := bitset_bytes o `div` 8 + 1.

Lemma bitset_bytes_eq o : 0 ≤ o ≤ 58 →
  bitset_bytes o = if nz (set_bytes o `mod` 8) then set_bytes o + set_bytes o `mod` 8 else set_bytes o.
Proof.
  intros Ho. pose proof (size_for_order_eq o o ltac:(lia) ltac:(lia)) as E.
  rewrite Z.sub_diag in E. unfold bitset_bytes, set_bytes. by rewrite E.
Qed.

(** Whatever the padding, the bit set ends before the table and the table ends
    with the allocation. *)
Lemma layout o : 0 ≤ o ≤ 58 →
  0 ≤ set_bytes o ∧ rows o o ≤ 8 * set_bytes o ∧ set_bytes o ≤ 8 * table_word o ∧
  8 * (table_word o + o + 1) ≤ buddy_tree_sizeof o - 24.
Proof.
  intros Ho. pose proof (rows_range o o ltac:(lia) ltac:(lia)).
  unfold table_word, buddy_tree_sizeof. rewrite bitset_bytes_eq by done.
  assert (0 ≤ set_bytes o ∧ rows o o ≤ 8 * set_bytes o) as [Hs Hr]
    by (unfold set_bytes, bitset_sizeof; Z.div_mod_to_equations; lia).
  split_and!; [done|done|..]; unfold nz; destruct (Z.eqb_spec (set_bytes o `mod` 8) 0);
    cbn [negb]; Z.div_mod_to_equations; lia.
Qed.

(** ** Words in the table *)

Definition word_at (m : gmap Z Z) (n : nat) (a v : Z) : Prop :=
  ∀ j, 0 ≤ j < Z.of_nat n → m !! (a + j) = Some ((v `div` 256 ^ j) `mod` 256).

Lemma word_at_tail m n a v : word_at m (S n) a v → word_at m n (a + 1) (v `div` 256).
Proof.
  intros H j Hj. replace (a + 1 + j) with (a + (j + 1)) by lia. rewrite H by lia. do 2 f_equal.
  rewrite Z.div_div by (try lia; apply Z.pow_pos_nonneg; lia).
  by rewrite Z.pow_add_r, Z.mul_comm by lia.
Qed.

Lemma ldw_spec n : ∀ a v s, word_at (tbytes s) n a v → 0 ≤ v < 256 ^ Z.of_nat n →
  ldw n a s = Done v s.
Proof.
  induction n as [|n IH]; intros a v s Hw Hv; cbn [ldw].
  - change (256 ^ Z.of_nat 0) with 1 in Hv. by replace v with 0 by lia.
  - rewrite Nat2Z.inj_succ, Z.pow_succ_r in Hv by lia.
    assert (ldb a s = Done (v `mod` 256) s) as E0.
    { pose proof (Hw 0 ltac:(lia)) as E. rewrite Z.add_0_r, Z.pow_0_r, Z.div_1_r in E.
      unfold ldb. by rewrite E. }
    rewrite (bind_done _ _ _ _ _ E0).
    rewrite (bind_done _ _ _ _ _ (IH (a + 1) (v `div` 256) s (word_at_tail _ _ _ _ Hw)
      ltac:(Z.div_mod_to_equations; lia))).
    cbv [mret M_ret]. f_equal. Z.div_mod_to_equations. lia.
Qed.

Lemma stw_spec n : ∀ a v s, (∀ j, 0 ≤ j < Z.of_nat n → is_Some (tbytes s !! (a + j))) →
  wp (stw n a v) (λ _ s', ∃ m, s' = s <| tbytes := m |> ∧ word_at m n a v ∧
    ∀ b, ¬ (a ≤ b < a + Z.of_nat n) → m !! b = tbytes s !! b) s.
Proof.
  induction n as [|n IH]; intros a v s Hs; cbn [stw].
  - apply wp_ret. exists (tbytes s). split_and!; [by destruct s| |done]. intros j Hj. lia.
  - apply wp_bind. destruct (Hs 0 ltac:(lia)) as [w Hw]. rewrite Z.add_0_r in Hw.
    unfold wp at 1, stb. rewrite Hw.
    eapply wp_mono; [apply IH|].
    + intros j Hj. simpl. rewrite lookup_insert. case_decide; [by eexists|].
      replace (a + 1 + j) with (a + (j + 1)) by lia. apply Hs. lia.
    + intros [] s' (m & -> & Hm & Ho). simpl in Ho. exists m. split_and!; [done| |].
      * intros j Hj. destruct (decide (j = 0)) as [->|].
        -- rewrite Z.add_0_r, Ho, lookup_insert_eq by lia. by rewrite Z.pow_0_r, Z.div_1_r.
        -- replace (a + j) with (a + 1 + (j - 1)) by lia. rewrite Hm by lia. do 2 f_equal.
           rewrite Z.div_div by (try lia; apply Z.pow_pos_nonneg; lia). f_equal.
           rewrite <-Z.pow_succ_r by lia. f_equal. lia.
      * intros b Hb. rewrite Ho by lia. apply lookup_insert_ne. lia.
Qed.

(** ** Representation

    [st] gives the status of every node. *)

Record tree_ok (s : bud) (st : Z → Z) : Prop := {
  to_order : 1 ≤ order s ≤ 58;
  to_bound : upper_pos_bound s = 2 ^ order s;
  to_off : size_for_order_offset s = table_word (order s);
  to_bytes : bytes_ok (set_bytes (order s)) (tbytes s);
  to_table k : 0 ≤ k ≤ order s →
    word_at (tbytes s) 8 (8 * (table_word (order s) + k)) (rows (order s) (order s - k));
  to_st i : node (order s) i → 0 ≤ st i ≤ lo (order s) i;
  to_field i j : node (order s) i → 0 ≤ j < lo (order s) i →
    bitv (tbytes s) (loc (order s) i + j) = bool_decide (j < st i) }.

(** The field of node [i]. *)
Definition field (s : bud) (i : Z) : internal_position := mkInternal (lo (order s) i) (loc (order s) i).

Lemma internal_position_eq s st i : tree_ok s st → node (order s) i →
  buddy_tree_internal_position_tree (at_node i) s = Done (field s i) s.
Proof.
  intros [Ho _ Hoff _ Htab _ _] Hi. destruct (log2_node _ i Hi) as [Li Bi].
  destruct (loc_range _ i Hi) as (Hl0 & Hlo & Hl1).
  pose proof (rows_range (order s) (order s) ltac:(lia) ltac:(lia)) as Hrr.
  unfold buddy_tree_internal_position_tree.
  rewrite (bind_done (gets order) _ s _ s eq_refl).
  change (buddy_tree_depth (at_node i)) with (Z.log2 i + 1). replace (order s - (Z.log2 i + 1) + 1) with (lo (order s) i) by (unfold lo; lia).
  rewrite (wrap_small 64 (lo _ _)) by (unfold lo; lia).
  rewrite (wrap_small 8 (lo _ _)) by (change (2 ^ 8) with 256; unfold lo; lia).
  assert (buddy_tree_size_for_order (lo (order s) i) s = Done (rows (order s) (Z.log2 i)) s) as E.
  { unfold buddy_tree_size_for_order.
    rewrite (bind_done (gets size_for_order_offset) _ s _ s eq_refl), Hoff.
    pose proof (Htab (lo (order s) i) ltac:(unfold lo; lia)) as Hw.
    replace (order s - lo (order s) i) with (Z.log2 i) in Hw by (unfold lo; lia).
    apply ldw_spec; [done|]. pose proof (rows_range (order s) (Z.log2 i) ltac:(lia) ltac:(lia)).
    change (256 ^ Z.of_nat 8) with (2 ^ 64). lia. }
  rewrite (bind_done _ _ _ _ _ E), (buddy_tree_index_eq (order s)) by (done || lia).
  unfold field, loc in *. rewrite wrap_small by lia. done.
Qed.

Lemma field_range s st i : tree_ok s st → node (order s) i →
  0 ≤ loc (order s) i ∧ 1 ≤ lo (order s) i ≤ 58 ∧
  loc (order s) i + lo (order s) i ≤ 8 * set_bytes (order s).
Proof.
  intros [Ho _ _ _ _ _ _] Hi. destruct (loc_range _ i Hi) as (? & ? & ?).
  destruct (layout (order s) ltac:(lia)) as (? & ? & _). destruct (log2_node _ i Hi).
  split_and!; try lia. unfold lo. lia.
Qed.

Lemma read_eq s st i : tree_ok s st → node (order s) i →
  wp (read_from_internal_position (field s i)) (λ v s', s' = s ∧ v = st i) s.
Proof.
  intros HT Hi. pose proof HT as [Ho _ _ Hb _ Hst Hf].
  destruct (field_range s st i HT Hi) as (H0 & H1 & H2). pose proof (Hst i Hi).
  unfold read_from_internal_position. apply wp_bind.
  apply (bitset_test_spec (set_bytes (order s))); [done|cbn [field bitset_location]; lia|].
  cbn [field bitset_location local_offset].
  pose proof (Hf i 0 Hi ltac:(lia)) as Hf0. rewrite Z.add_0_r in Hf0. rewrite Hf0.
  case_bool_decide as Hs; cbn [negb].
  - eapply wp_mono; [apply (bitset_count_range_spec (set_bytes (order s))); [done|lia..]|].
    intros v s' [-> ->]. split; [done|]. apply ones_from_prefix; [lia|].
    intros j Hj. apply Hf; [done|lia].
  - apply wp_ret. split; [done|lia].
Qed.

Lemma status_eq s st i : tree_ok s st → node (order s) i →
  wp (buddy_tree_status (at_node i)) (λ v s', s' = s ∧ v = st i) s.
Proof.
  intros HT Hi. unfold buddy_tree_status. apply wp_bind.
  eapply wp_of_eq; [by eapply internal_position_eq|]. by apply read_eq.
Qed.

Lemma compare_eq s st i v Q : tree_ok s st → node (order s) i → 1 ≤ v ≤ lo (order s) i →
  Q (bool_decide (v ≤ st i)) s → wp (compare_with_internal_position (field s i) v) Q s.
Proof.
  intros HT Hi Hv HQ. pose proof HT as [Ho _ _ Hb _ Hst Hf].
  destruct (field_range s st i HT Hi) as (H0 & H1 & H2).
  unfold compare_with_internal_position. cbn [field bitset_location].
  apply (bitset_test_spec (set_bytes (order s))); [done|lia|].
  replace (loc (order s) i + v - 1) with (loc (order s) i + (v - 1)) by lia. rewrite Hf by (done || lia).
  rewrite (bool_decide_ext (v - 1 < st i) (v ≤ st i)); [done|lia].
Qed.

(** Writing a status. *)
Definition upd (st : Z → Z) (i v : Z) : Z → Z := λ k, if decide (k = i) then v else st k.

Lemma write_eq s st i v : tree_ok s st → node (order s) i → 0 ≤ v ≤ lo (order s) i →
  wp (write_to_internal_position (field s i) v)
    (λ _ s', (∃ m, s' = s <| tbytes := m |>) ∧ tree_ok s' (upd st i v)) s.
Proof.
  intros HT Hi Hv. pose proof HT as [Ho Hub Hoff Hb Htab Hst Hf].
  destruct (field_range s st i HT Hi) as (H0 & H1 & H2). set (n := set_bytes (order s)) in *.
  unfold write_to_internal_position. cbn [field bitset_location local_offset].
  apply wp_bind. eapply wp_mono; [apply (bitset_clear_range_spec n); [done|lia..]|].
  intros [] s1 (m1 & -> & Hm1).
  assert (∀ m, bytes_ok n m → (∀ a, ¬ 0 ≤ a < n → m !! a = tbytes s !! a) →
    (∀ k, 0 ≤ k < 8 * n → bitv m k =
       if within (loc (order s) i) (loc (order s) i + lo (order s) i - 1) k
       then bool_decide (k < loc (order s) i + v) else bitv (tbytes s) k) →
    tree_ok (s <| tbytes := m |>) (upd st i v)) as Hfin.
  { intros m Hbm Hout Hbit. destruct (layout (order s) ltac:(lia)) as (L0 & L1 & L2 & L3).
    split; try done.
    - intros k Hk j Hj. simpl. rewrite Hout by (fold n in L2; lia). by apply Htab.
    - intros k Hk. unfold upd. case_decide as E; [subst k; done|by apply Hst].
    - intros k j Hk Hj. simpl in *. destruct (field_range s st k HT Hk) as (K0 & K1 & K2).
      rewrite Hbit by (fold n in K2; lia). unfold upd, within. case_decide as E.
      + subst k. rewrite bool_decide_eq_true_2 by lia. apply bool_decide_ext. lia.
      + rewrite bool_decide_eq_false_2; [by apply Hf|].
        intros Hin. apply (loc_apart (order s) k i j (loc (order s) k + j - loc (order s) i)); try done; lia. }
  apply wp_when.
  - intros Hnz%nz_true. eapply wp_mono; [apply (bitset_set_range_spec n); [apply Hm1|lia..]|].
    intros [] s2 (m2 & -> & Hm2). destruct Hm1 as (_ & A2 & A3), Hm2 as (B1 & B2 & B3). cbn in B2, B3.
    split; [by exists m2|]. apply Hfin; [done| |].
    + intros a Ha. by rewrite B3, A3.
    + intros k Hk. rewrite B2, A2 by done. unfold within. repeat case_bool_decide; done || lia.
  - intros Hz%nz_false. destruct Hm1 as (A1 & A2 & A3). split; [by exists m1|]. apply Hfin; [done|done|].
    intros k Hk. rewrite A2 by done. unfold within. repeat case_bool_decide; done || lia.
Qed.

(** ** Ancestors *)

(** [p] is [i] or a node above it. *)
Definition anc (p i : Z) : Prop := 1 ≤ p ∧ ∃ k, 0 ≤ k ∧ i `div` 2 ^ k = p.
Definition sanc (p i : Z) : Prop := 2 ≤ i ∧ anc p (i `div` 2).

Lemma anc_refl i : 1 ≤ i → anc i i.
Proof. intros Hi. split; [done|]. exists 0. by rewrite Z.pow_0_r, Z.div_1_r. Qed.

Lemma anc_cases p i : 1 ≤ i → anc p i ↔ p = i ∨ sanc p i.
Proof.
  intros Hi. split.
  - intros (Hp & k & Hk & E). destruct (decide (k = 0)) as [->|].
    { left. by rewrite Z.pow_0_r, Z.div_1_r in E. }
    right. assert ((i `div` 2) `div` 2 ^ (k - 1) = p) as E'.
    { rewrite Z.div_div by (try lia; apply Z.pow_pos_nonneg; lia).
      rewrite <-Z.pow_succ_r by lia. by replace (Z.succ (k - 1)) with k by lia. }
    split; [|split; [done|exists (k - 1); split; [lia|done]]].
    destruct (decide (i = 1)) as [->|]; [|lia].
    change (1 `div` 2) with 0 in E'. rewrite Z.div_0_l in E'; [lia|].
    pose proof (Z.pow_pos_nonneg 2 (k - 1)). lia.
  - intros [->|(Hi2 & Hp & k & Hk & E)]; [by apply anc_refl|]. split; [done|].
    exists (k + 1). split; [lia|]. rewrite Z.pow_add_r by lia. change (2 ^ 1) with 2.
    rewrite Z.mul_comm, <-Z.div_div by (try lia; apply Z.pow_pos_nonneg; lia). done.
Qed.

Lemma anc_le p i : 1 ≤ i → anc p i → p ≤ i.
Proof.
  intros Hi (Hp & k & Hk & <-). apply Z.div_le_upper_bound; [by apply Z.pow_pos_nonneg|].
  pose proof (Z.pow_pos_nonneg 2 k). nia.
Qed.

Lemma sanc_lt p i : sanc p i → p < i ∧ 2 * p ≤ i ∧ 1 ≤ p.
Proof.
  intros [Hi Ha]. pose proof (anc_le p (i `div` 2) ltac:(Z.div_mod_to_equations; lia) Ha).
  destruct Ha as [? _]. Z.div_mod_to_equations. lia.
Qed.

(** The distance between a node and its ancestor. *)
Lemma anc_eq p i : 1 ≤ i →
  anc p i ↔ 1 ≤ p ∧ Z.log2 p ≤ Z.log2 i ∧ i `div` 2 ^ (Z.log2 i - Z.log2 p) = p.
Proof.
  intros Hi. split; [|intros (? & ? & ?); split; [done|]; eexists; split; [|done]; lia].
  intros (Hp & k & Hk & E). assert (k ≤ Z.log2 i) as Hki.
  { apply Z.log2_le_pow2; [lia|]. destruct (decide (2 ^ k ≤ i)); [done|].
    rewrite Z.div_small in E by lia. lia. }
  assert (Z.log2 p = Z.log2 i - k) as ->.
  { rewrite <-E, <-Z.shiftr_div_pow2, Z.log2_shiftr by lia. lia. }
  split_and!; [done|lia|]. by replace (Z.log2 i - (Z.log2 i - k)) with k by lia.
Qed.

#[global] Instance anc_dec p i : Decision (anc p i).
Proof.
  destruct (decide (1 ≤ i)) as [Hi|Hi].
  - refine (cast_if (decide (1 ≤ p ∧ Z.log2 p ≤ Z.log2 i ∧ i `div` 2 ^ (Z.log2 i - Z.log2 p) = p)));
      by rewrite anc_eq.
  - right. intros (Hp & k & Hk & E). pose proof (Z.pow_pos_nonneg 2 k).
    assert (i `div` 2 ^ k ≤ 0); [|lia]. apply Z.div_le_upper_bound; lia.
Defined.
#[global] Instance sanc_dec p i : Decision (sanc p i).
Proof. apply and_dec; apply _. Defined.

(** The strict ancestors of [i]: its parent and the parent's. *)
Lemma sanc_cases p i : 2 ≤ i → sanc p i ↔ p = i `div` 2 ∨ sanc p (i `div` 2).
Proof.
  intros Hi. unfold sanc at 1. rewrite anc_cases by (Z.div_mod_to_equations; lia). naive_solver.
Qed.

(** Towards [i], below a strict ancestor. *)
Lemma sanc_child p i : sanc p i → ∃ c, c `div` 2 = p ∧ 2 ≤ c ∧ anc c i.
Proof.
  intros [Hi (Hp & k & Hk & E)]. exists (i `div` 2 ^ k).
  assert ((i `div` 2 ^ k) `div` 2 = p) as E2.
  { rewrite Z.div_div, Z.mul_comm by (try lia; apply Z.pow_pos_nonneg; lia).
    rewrite <-Z.div_div by (try lia; apply Z.pow_pos_nonneg; lia). done. }
  assert (2 ≤ i `div` 2 ^ k) by (Z.div_mod_to_equations; lia).
  split_and!; [done|done|]. split; [lia|by exists k].
Qed.

Lemma anc_half c i : 2 ≤ c → anc c i → 1 ≤ i → sanc (c `div` 2) i.
Proof.
  intros Hc Ha Hi. pose proof (anc_le _ _ Hi Ha). split; [lia|].
  destruct Ha as (_ & k & Hk & <-). split; [Z.div_mod_to_equations; lia|]. exists k. split; [done|].
  rewrite Z.div_div, Z.mul_comm, <-Z.div_div by (try lia; apply Z.pow_pos_nonneg; lia). done.
Qed.

Lemma anc_node o p i : node o i → anc p i → node o p.
Proof. intros [Hi1 Hi2] Ha. pose proof (anc_le p i Hi1 Ha). destruct Ha. unfold node. lia. Qed.

Lemma anc_trans p q i : 1 ≤ i → anc p q → anc q i → anc p i.
Proof.
  intros Hi (Hp & k & Hk & E) (Hq & k' & Hk' & E'). split; [done|]. exists (k' + k). split; [lia|].
  rewrite Z.pow_add_r, <-Z.div_div by (try lia; apply Z.pow_pos_nonneg; lia). by rewrite E'.
Qed.

(** ** What statuses mean *)

Section Status.
Context (o : Z).

(** [p] has children. *)
Definition inner (p : Z) : Prop := 1 ≤ p ∧ 2 * p < 2 ^ o.

(** The status of a node that is not allocated as a whole. *)
Definition part (st : Z → Z) (p : Z) : Z :=
  if decide (st (2 * p) = 0 ∧ st (2 * p + 1) = 0) then 0
  else Z.min (st (2 * p)) (st (2 * p + 1)) + 1.

Definition node_ok (st : Z → Z) (p : Z) : Prop :=
  st p = part st p ∨ (st (2 * p) = 0 ∧ st (2 * p + 1) = 0 ∧ st p = lo o p).

Record consistent (st : Z → Z) : Prop := {
  co_range i : node o i → 0 ≤ st i ≤ lo o i;
  co_node p : inner p → node_ok st p }.

(** [p] is allocated, as one block. *)
Definition alloc (st : Z → Z) (p : Z) : Prop :=
  node o p ∧ st p = lo o p ∧ (inner p → st (2 * p) = 0 ∧ st (2 * p + 1) = 0).

(** Nothing at, above or below [p] is allocated. *)
Definition free (st : Z → Z) (p : Z) : Prop :=
  node o p ∧ st p = 0 ∧ ∀ q, sanc q p → ¬ alloc st q.

Lemma part_not_alloc st p : inner p → st p = part st p → ¬ alloc st p.
Proof.
  intros Hp E (Hn & El & Hc). destruct (Hc Hp) as [H1 H2]. unfold part in E.
  rewrite decide_True in E by done. pose proof (loc_range o p Hn). lia.
Qed.

Lemma not_alloc_part st p : consistent st → inner p → ¬ alloc st p → st p = part st p.
Proof.
  intros Hc Hp Hna. destruct (co_node _ Hc p Hp) as [|(H1 & H2 & H3)]; [done|].
  destruct Hna. split_and!; [|done|done]. destruct Hp. unfold node. lia.
Qed.

Lemma inner_node p : inner p → node o p ∧ node o (2 * p) ∧ node o (2 * p + 1).
Proof.
  intros [Hp1 Hp2]. unfold node. assert (0 < o).
  { destruct (decide (0 < o)); [done|]. assert (2 ^ o ≤ 2 ^ 0); [|change (2 ^ 0) with 1 in *; lia].
    destruct (decide (o = 0)) as [->|]; [lia|]. rewrite Z.pow_neg_r by lia. done. }
  assert (2 ^ o = 2 * 2 ^ (o - 1)) by (rewrite <-Z.pow_succ_r by lia; f_equal; lia). lia.
Qed.

Lemma sanc_inner p i : node o i → sanc p i → inner p.
Proof. intros [_ Hi] Hs. destruct (sanc_lt p i Hs) as (? & ? & ?). split; lia. Qed.

(** Below a node of status 0 every status is 0. *)
Lemma zero_below st : consistent st → ∀ c i, node o i → anc c i → st c = 0 → st i = 0.
Proof.
  intros Hc c i Hi. assert (0 ≤ i) as Hi0 by (destruct Hi; lia). revert i Hi0 Hi.
  refine (Zlt_0_ind _ _). intros i IH _ Hi Ha H0.
  apply anc_cases in Ha as [->|Hs]; [done| |destruct Hi; lia].
  pose proof (sanc_inner (i `div` 2) i Hi) as Hin. destruct Hs as [Hi2 Ha].
  assert (sanc (i `div` 2) i) as Hs2 by (apply sanc_cases; [done|by left]).
  destruct (sanc_lt _ _ Hs2) as (? & ? & ?). specialize (Hin Hs2).
  assert (st (i `div` 2) = 0) as Hp by (apply IH; [lia|by apply inner_node|done|done]).
  assert (i = 2 * (i `div` 2) ∨ i = 2 * (i `div` 2) + 1) as Hi' by (Z.div_mod_to_equations; lia).
  destruct (inner_node _ Hin) as (_ & Hl & Hr).
  pose proof (co_range _ Hc _ Hl). pose proof (co_range _ Hc _ Hr).
  assert (st (2 * (i `div` 2)) = 0 ∧ st (2 * (i `div` 2) + 1) = 0) as [E1 E2].
  { destruct (co_node _ Hc _ Hin) as [E|(E1 & E2 & _)]; [|done].
    rewrite Hp in E. unfold part in E. case_decide; [done|lia]. }
  destruct Hi' as [Ei|Ei]; by rewrite Ei.
Qed.

(** Allocated blocks do not contain one another. *)
Lemma alloc_apart st p q : consistent st → alloc st p → alloc st q → ¬ sanc p q.
Proof.
  intros Hc (Hp & _ & Hpc) (Hq & Eq & _) Hs. destruct (Hpc (sanc_inner p q Hq Hs)) as [H1 H2].
  destruct (sanc_child p q Hs) as (c & Ec & Hc2 & Hcq).
  assert (st c = 0).
  { assert (c = 2 * p ∨ c = 2 * p + 1) as [-> | ->] by (Z.div_mod_to_equations; lia); done. }
  assert (st q = 0) by (by apply (zero_below st Hc c)). pose proof (loc_range o q Hq). lia.
Qed.

(** A node whose status is not 0 has an allocated block at or below it, unless
    it is inside one. *)
Lemma alloc_below st : consistent st → ∀ p, node o p → st p ≠ 0 → ∃ q, alloc st q ∧ anc p q.
Proof.
  intros Hc p Hp. assert (0 ≤ o - 1 - Z.log2 p) as Hd by (destruct (log2_node o p Hp); lia).
  remember (o - 1 - Z.log2 p) as d eqn:Ed. revert d Hd p Hp Ed. refine (Zlt_0_ind _ _).
  intros d IH Hd p Hp Ed Hne. destruct (decide (2 * p < 2 ^ o)) as [Hi|Hi].
  - assert (inner p) as Hin by (split; [by destruct Hp|done]).
    destruct (inner_node p Hin) as (_ & Hl & Hr).
    destruct (co_node _ Hc p Hin) as [E|(E1 & E2 & E3)].
    2: { exists p. split; [by split_and!|apply anc_refl; by destruct Hp]. }
    assert (∃ b, 0 ≤ b < 2 ∧ st (2 * p + b) ≠ 0) as (b & Hb & Hb0).
    { unfold part in E. case_decide as D; [lia|]. apply not_and_r in D as [D|D].
      - exists 0. by rewrite Z.add_0_r.
      - by exists 1. }
    assert (node o (2 * p + b)) as Hn by (unfold node in *; lia).
    destruct (node_child o p b ltac:(by destruct Hp) Hb) as [El _].
    destruct (IH (d - 1) ltac:(destruct (log2_node _ _ Hn); lia) (2 * p + b) Hn ltac:(lia) Hb0)
      as (q & Hq & Ha).
    exists q. split; [done|]. apply anc_trans with (2 * p + b); [by destruct Hq as [[? _] _]| |done].
    apply anc_cases; [destruct Hp; lia|]. right. apply sanc_cases; [destruct Hp; lia|].
    left. Z.div_mod_to_equations. lia.
  - exists p. split; [|apply anc_refl; by destruct Hp]. split_and!; [done| |intros [_ ?]; lia].
    pose proof (co_range _ Hc p Hp). destruct (log2_node o p Hp) as [Hl Hb].
    assert (lo o p = 1) as E1; [|rewrite E1 in *; lia]. unfold lo.
    assert (o ≤ Z.log2 (2 * p)) as H2 by (apply Z.log2_le_pow2; lia).
    rewrite Z.log2_double in H2 by lia. lia.
Qed.

(** [free] in terms of the allocated blocks alone. *)
Lemma free_iff st p : consistent st → node o p →
  free st p ↔ ∀ q, alloc st q → ¬ anc q p ∧ ¬ anc p q.
Proof.
  intros Hc Hp. assert (1 ≤ p) as Hp1 by (by destruct Hp). split.
  - intros (_ & H0 & Hna) q Hq. pose proof Hq as (Hqn & Eq & _). pose proof (loc_range o q Hqn). split.
    + intros [->|Hs]%anc_cases; [lia| |done]. by eapply Hna.
    + intros Ha. assert (st q = 0) by (by eapply zero_below). lia.
  - intros H. split_and!; [done| |].
    + destruct (decide (st p = 0)); [done|].
      destruct (alloc_below st Hc p Hp) as (q & Hq & Ha); [done|]. by destruct (H q Hq).
    + intros q Hs Hq. destruct (H q Hq) as [Hn _]. apply Hn, anc_cases; [done|by right].
Qed.

(** The status bounds the distance to every free node below. *)
Lemma free_status st p q : consistent st → free st q → anc p q → st p ≤ Z.log2 q - Z.log2 p.
Proof.
  intros Hc (Hq & H0 & Hna) Ha.
  assert (0 ≤ q - p) as Hd by (pose proof (anc_le p q ltac:(by destruct Hq) Ha); lia).
  remember (q - p) as d eqn:Ed. revert d Hd p Ha Ed. refine (Zlt_0_ind _ _).
  intros d IH Hd p Ha Ed. apply anc_cases in Ha as [->|Hs]; [lia| |by destruct Hq].
  pose proof (sanc_inner p q Hq Hs) as Hin. destruct (sanc_lt p q Hs) as (? & ? & ?).
  destruct (sanc_child p q Hs) as (c & Ec & Hc2 & Hcq).
  pose proof (anc_le c q ltac:(by destruct Hq) Hcq).
  assert (st c ≤ Z.log2 q - Z.log2 c) as IHc.
  { apply (IH (q - c)); [Z.div_mod_to_equations; lia|done|done]. }
  assert (c = 2 * p + c `mod` 2) as Ec' by (Z.div_mod_to_equations; lia).
  destruct (node_child o p (c `mod` 2) ltac:(lia) ltac:(apply Z.mod_pos_bound; lia)) as [El _].
  rewrite <-Ec' in El. assert (Z.log2 c ≤ Z.log2 q) by (by apply Z.log2_le_mono).
  rewrite (not_alloc_part st p Hc Hin (Hna p Hs)). unfold part. case_decide; [lia|].
  assert (c = 2 * p ∨ c = 2 * p + 1) as [-> | ->] by (Z.div_mod_to_equations; lia); lia.
Qed.

(** ** Setting the status of one node *)

(** After [st] has been set to [v] at [i], and the statuses above [i] have been
    recomputed. *)
Lemma set_consistent st st' i v :
  consistent st → node o i → (v = 0 ∨ v = lo o i) →
  (inner i → st (2 * i) = 0 ∧ st (2 * i + 1) = 0) →
  (∀ p, sanc p i → ¬ alloc st p) →
  (∀ k, ¬ sanc k i → st' k = upd st i v k) →
  (∀ p, sanc p i → st' p = part st' p) →
  (∀ k, node o k → 0 ≤ st' k ≤ lo o k) →
  consistent st' ∧ ∀ p, alloc st' p ↔ (p ≠ i ∧ alloc st p) ∨ (p = i ∧ v = lo o i).
Proof.
  intros Hc Hi Hv Hz Hna Hoff Hanc Hr. assert (1 ≤ i) as Hi1 by (by destruct Hi).
  (* off the path, a node and its children are as before *)
  assert (∀ p, 1 ≤ p → ¬ sanc p i → p ≠ i → st' p = st p ∧ st' (2 * p) = st (2 * p) ∧
    st' (2 * p + 1) = st (2 * p + 1)) as Hold.
  { intros p Hp Hs Hne.
    assert (∀ c, c `div` 2 = p → 2 ≤ c → st' c = st c) as Hch.
    { intros c Ec Hc2. rewrite Hoff.
      - unfold upd. rewrite decide_False; [done|]. intros ->. apply Hs, sanc_cases; [done|by left].
      - intros Hsc. apply Hs. rewrite <-Ec. apply anc_half; [done| |done]. apply anc_cases; [done|by right]. }
    split_and!; [|apply Hch; [Z.div_mod_to_equations|]; lia..].
    rewrite Hoff by done. unfold upd. by rewrite decide_False. }
  assert (¬ sanc i i) as Hii by (intros Hs; destruct (sanc_lt i i Hs); lia).
  assert (st' i = v) as Ei by (rewrite Hoff by done; unfold upd; by rewrite decide_True).
  assert (st' (2 * i) = st (2 * i) ∧ st' (2 * i + 1) = st (2 * i + 1)) as [Ec1 Ec2].
  { split; (rewrite Hoff; [unfold upd; rewrite decide_False by lia; done|]);
      intros Hs; destruct (sanc_lt _ _ Hs); lia. }
  split; [split; [done|]|].
  - intros p Hp. destruct (decide (p = i)) as [->|Hne].
    + unfold node_ok, part. rewrite Ei, Ec1, Ec2. destruct (Hz Hp) as [-> ->].
      rewrite decide_True by done. naive_solver.
    + destruct (decide (sanc p i)) as [Hs|Hs]; [left; by apply Hanc|].
      destruct (Hold p ltac:(by destruct Hp) Hs Hne) as (E & E1 & E2).
      unfold node_ok, part. rewrite E, E1, E2. by apply Hc.
  - intros p. destruct (decide (p = i)) as [->|Hne].
    + unfold alloc. rewrite Ei, Ec1, Ec2. naive_solver.
    + destruct (decide (sanc p i)) as [Hs|Hs].
      * pose proof (part_not_alloc st' p (sanc_inner p i Hi Hs) (Hanc p Hs)).
        pose proof (Hna p Hs). naive_solver.
      * destruct (decide (1 ≤ p)) as [Hp1|]; [|unfold alloc, node; naive_solver lia].
        destruct (Hold p Hp1 Hs Hne) as (E & E1 & E2). unfold alloc. rewrite E, E1, E2. naive_solver.
Qed.
End Status.

(** ** The operations *)

Lemma parent_at o i : node o i → o ≤ 58 → i ≠ 1 →
  buddy_tree_parent (at_node i) = at_node (i `div` 2).
Proof.
  intros Hi Ho Hne. destruct (node_up o i Hi Hne) as [_ El]. destruct (log2_node o i Hi) as [Hl _].
  unfold buddy_tree_parent, at_node. cbn [index depth]. rewrite El.
  rewrite wrap_small by lia. f_equal. lia.
Qed.

Lemma children_at o i : inner o i → o ≤ 58 →
  buddy_tree_left_child (at_node i) = at_node (2 * i) ∧
  buddy_tree_right_child (at_node i) = at_node (2 * i + 1) ∧
  buddy_tree_sibling (at_node (2 * i)) = at_node (2 * i + 1).
Proof.
  intros Hi Ho. destruct (inner_node o i Hi) as (Hn & Hl & Hr).
  destruct (log2_node o i Hn) as [Hlg _]. destruct Hi as [Hi1 Hi2]. pose proof (pow2_58 o) as Hp.
  assert (0 ≤ o) by (destruct (decide (0 ≤ o)); [done|rewrite Z.pow_neg_r in Hi2; lia]).
  unfold buddy_tree_left_child, buddy_tree_right_child, buddy_tree_sibling, at_node. cbn [index depth].
  rewrite !(wrap_small 64 (i * 2)), !(wrap_small 64 (Z.log2 i + 1 + 1)), (wrap_small 64 (i * 2 + 1)) by
    (change (2 ^ 64) with 18446744073709551616; lia).
  destruct (node_child o i 0 Hi1 ltac:(lia)) as [E0 _], (node_child o i 1 Hi1 ltac:(lia)) as [E1 _].
  rewrite Z.add_0_r in E0. rewrite E0, E1. split_and!; f_equal; try lia.
  replace (2 * i) with (Z.shiftl i 1) by (rewrite Z.shiftl_mul_pow2 by lia; lia).
  rewrite Z.add_nocarry_lxor; [done|]. apply Z.bits_inj. intros k. rewrite Z.land_spec, Z.bits_0.
  destruct (decide (k = 0)) as [->|]; [by rewrite Z.shiftl_spec|].
  change 1 with (2 ^ 0) at 2. rewrite Z.pow2_bits_false by lia. by rewrite andb_false_r.
Qed.

(** The sibling's field. *)
Lemma sibling_field o i : node o i → i ≠ 1 → o ≤ 58 →
  let sib := i + 1 - 2 * (i `mod` 2) in
  node o sib ∧ sib `div` 2 = i `div` 2 ∧ sib ≠ i ∧ lo o sib = lo o i ∧
  u64 (loc o i + lo o i - 2 * lo o i * Z.land i 1) = loc o sib.
Proof.
  intros Hi Hne Ho sib. destruct (node_up o i Hi Hne) as [Hp El]. pose proof Hi as [Hi1 Hi2].
  assert (inner o (i `div` 2)) as Hin by (split; [by destruct Hp|Z.div_mod_to_equations; lia]).
  destruct (inner_node _ _ Hin) as (_ & H0 & H1).
  assert (sib `div` 2 = i `div` 2) as Eh by (unfold sib; Z.div_mod_to_equations; lia).
  assert (node o sib) as Hs.
  { assert (sib = 2 * (i `div` 2) ∨ sib = 2 * (i `div` 2) + 1) as [-> | ->]; [|done..].
    unfold sib. Z.div_mod_to_equations. lia. }
  assert (Z.log2 sib = Z.log2 i) as Elog.
  { destruct (node_up o sib Hs) as [_ E]; [unfold sib; Z.div_mod_to_equations; lia|].
    rewrite Eh in E. lia. }
  split_and!; [done|done|unfold sib; Z.div_mod_to_equations; lia|unfold lo; by rewrite Elog|].
  change 1 with (Z.ones 1). rewrite Z.land_ones by lia. change (2 ^ 1) with 2.
  destruct (loc_range o sib Hs) as (L0 & L1 & L2). pose proof (rows_range o o) as Hr.
  assert (loc o sib = loc o i + lo o i - 2 * lo o i * (i `mod` 2)) as E.
  { unfold loc, lo. rewrite Elog. unfold sib. lia. }
  rewrite <-E. apply wrap_small. destruct (log2_node o i Hi). lia.
Qed.

Lemma target_part st p i sib sc :
  (i = 2 * p ∧ sib = 2 * p + 1) ∨ (i = 2 * p + 1 ∧ sib = 2 * p) → st i = sc → 0 ≤ sc → 0 ≤ st sib →
  (if nz sc || nz (st sib) then 1 else 0) * ((if sc <=? st sib then sc else st sib) + 1) = part st p.
Proof.
  intros Hi <- H0 H1. unfold part, nz.
  destruct (Z.eqb_spec (st i) 0), (Z.eqb_spec (st sib) 0), (Z.leb_spec (st i) (st sib));
    destruct Hi as [[-> ->]|[-> ->]]; case_decide; cbn [negb orb]; lia.
Qed.

Lemma chain_spec fuel : ∀ s st i, tree_ok s st → node (order s) i → Z.log2 i ≤ Z.of_nat fuel →
  (∀ p, sanc p i → p ≠ i `div` 2 → st p = part st p) →
  wp (update_parent_chain fuel (at_node i) (field s i) (st i))
    (λ _ s', (∃ m, s' = s <| tbytes := m |>) ∧ ∃ st', tree_ok s' st' ∧
       (∀ k, ¬ sanc k i → st' k = st k) ∧ (∀ p, sanc p i → st' p = part st' p)) s.
Proof.
  induction fuel as [|fuel IH]; intros s st i HT Hi Hf Hpart; pose proof Hi as [Hi1 Hi2];
    cbn [update_parent_chain]; change (index (at_node i)) with i; destruct (Z.eqb_spec i 1) as [->|Hne].
  1, 3: (apply wp_ret; split; [exists (tbytes s); by destruct s|]; exists st; split_and!; [done|done|];
      intros p Hs; destruct (sanc_lt _ _ Hs); lia).
  { assert (1 ≤ Z.log2 i) by (apply Z.log2_le_pow2; lia). lia. }
  destruct (to_order _ _ HT) as [Ho1 Ho2].
  destruct (sibling_field (order s) i Hi Hne Ho2) as (Hs & Eh & Hsi & Elo & Eloc).
  set (sib := i + 1 - 2 * (i `mod` 2)) in *.
  destruct (node_up _ i Hi Hne) as [Hp Elog]. set (p := i `div` 2) in *.
  cbn [field local_offset bitset_location]. rewrite Eloc, <-Elo. fold (field s sib).
  apply wp_bind. eapply wp_mono; [by apply (read_eq s st sib)|]. intros ? ? [-> ->].
  rewrite (parent_at (order s)) by (done || lia). fold p.
  apply wp_bind. eapply wp_of_eq; [by eapply (internal_position_eq s st p)|].
  apply wp_bind. eapply wp_mono; [by apply (read_eq s st p)|]. intros ? ? [-> ->].
  pose proof (to_st _ _ HT i Hi) as Ri. pose proof (to_st _ _ HT sib Hs) as Rs.
  assert ((i = 2 * p ∧ sib = 2 * p + 1) ∨ (i = 2 * p + 1 ∧ sib = 2 * p)) as Hcase
    by (unfold sib, p; Z.div_mod_to_equations; lia).
  rewrite (target_part st p i sib (st i)) by (done || lia).
  assert (sanc p i) as Hpi by (apply sanc_cases; [lia|by left]).
  destruct (Z.eqb_spec (part st p) (st p)) as [E|Hneq].
  { apply wp_ret. split; [exists (tbytes s); by destruct s|]. exists st. split_and!; [done|done|].
    intros q Hq. destruct (decide (q = p)) as [->|]; [done|by apply Hpart]. }
  assert (0 ≤ part st p ≤ lo (order s) p) as Rp.
  { destruct (loc_range _ p Hp) as (_ & ? & _). unfold part. case_decide; [lia|].
    assert (lo (order s) i = lo (order s) p - 1) by (unfold lo; lia).
    destruct Hcase as [[<- <-]|[<- <-]]; lia. }
  apply wp_bind. eapply wp_mono; [by apply (write_eq s st p)|].
  intros [] s1 ((m1 & ->) & HT1). set (st1 := upd st p (part st p)) in *.
  assert (∀ k, k ≠ p → st1 k = st k) as E1 by (intros k Hk; unfold st1, upd; by rewrite decide_False).
  assert (st1 p = part st p) as E1p by (unfold st1, upd; by rewrite decide_True).
  rewrite <-E1p. change (field s p) with (field (s <| tbytes := m1 |>) p).
  eapply wp_mono; [apply (IH (s <| tbytes := m1 |>) st1 p HT1)|].
  - done.
  - lia.
  - intros q Hq Hqp. destruct (sanc_lt _ _ Hq) as (? & ? & ?). unfold part.
    assert (st1 (2 * q) = st (2 * q) ∧ st1 (2 * q + 1) = st (2 * q + 1)) as [-> ->]
      by (split; apply E1; intros Ep; apply Hqp; rewrite <-Ep; Z.div_mod_to_equations; lia).
    rewrite E1 by lia. apply Hpart; [apply sanc_cases; [lia|by right]|]. fold p. lia.
  - intros [] s2 ((m2 & ->) & st2 & HT2 & Hoff & Hanc). split; [by exists m2|]. exists st2.
    assert (∀ q, sanc q i ↔ q = p ∨ sanc q p) as Hsi' by (intros q; apply sanc_cases; lia).
    split_and!; [done| |].
    + intros k Hk. rewrite Hsi' in Hk. rewrite Hoff, E1 by naive_solver. done.
    + intros q [->|Hq]%Hsi'; [|by apply Hanc].
      assert (∀ c, p < c → st2 c = st c) as Ec.
      { intros c Hc. rewrite Hoff, E1; [done|lia|]. intros Hsc. destruct (sanc_lt _ _ Hsc). lia. }
      rewrite Hoff, E1p by (intros Hsc; destruct (sanc_lt _ _ Hsc); lia).
      unfold part. rewrite !Ec by (destruct Hp; lia). done.
Qed.

(** The tree as a whole: statuses that describe a set [A] of allocated nodes. *)
Definition holds (s : bud) (A : Z → Prop) : Prop :=
  ∃ st, tree_ok s st ∧ consistent (order s) st ∧ ∀ p, alloc (order s) st p ↔ A p.

Lemma holds_ext s (A A' : Z → Prop) : (∀ p, A p ↔ A' p) → holds s A → holds s A'.
Proof.
  intros E (st & HT & Hc & HA). exists st. split_and!; [done|done|]. intros p. by rewrite HA, E.
Qed.

(** No node of [A] lies at, above or below [p]. *)
Definition free_in (o : Z) (A : Z → Prop) (p : Z) : Prop :=
  node o p ∧ ∀ q, A q → ¬ anc q p ∧ ¬ anc p q.

Lemma free_free_in o st (A : Z → Prop) p :
  consistent o st → (∀ q, alloc o st q ↔ A q) → free_in o A p ↔ free o st p.
Proof.
  intros Hc HA. unfold free_in. split.
  - intros [Hp H]. apply free_iff; [done|done|]. intros q Hq. by apply H, HA.
  - intros Hf. pose proof Hf as [Hp _]. split; [done|]. intros q Hq. apply (proj1 (free_iff o st p Hc Hp) Hf q). by apply HA.
Qed.

Lemma update_node s st i v :
  tree_ok s st → consistent (order s) st → node (order s) i →
  (v = 0 ∨ v = lo (order s) i) →
  (inner (order s) i → st (2 * i) = 0 ∧ st (2 * i + 1) = 0) →
  (∀ p, sanc p i → ¬ alloc (order s) st p) →
  wp (write_to_internal_position (field s i) v ;;
      update_parent_chain chain_fuel (at_node i) (field s i) v)
    (λ _ s', (∃ m, s' = s <| tbytes := m |>) ∧
       holds s' (λ p, (p ≠ i ∧ alloc (order s) st p) ∨ (p = i ∧ v = lo (order s) i))) s.
Proof.
  intros HT Hc Hi Hv Hz Hna. destruct (to_order _ _ HT) as [Ho1 Ho2].
  destruct (log2_node _ i Hi) as [Hl _]. destruct (loc_range _ i Hi) as (_ & Hlo & _).
  apply wp_bind. eapply wp_mono; [apply (write_eq s st i v); [done|done|lia]|].
  intros [] s1 ((m1 & ->) & HT1). set (st1 := upd st i v) in *.
  assert (st1 i = v) as E1 by (unfold st1, upd; by rewrite decide_True).
  rewrite <-E1 at 1. change (field s i) with (field (s <| tbytes := m1 |>) i).
  eapply wp_mono; [apply (chain_spec chain_fuel (s <| tbytes := m1 |>) st1 i HT1 Hi)|].
  - unfold chain_fuel. lia.
  - intros p Hp Hpi. destruct (sanc_lt _ _ Hp) as (? & ? & ?).
    assert (∀ k, k ≠ i → st1 k = st k) as Ek by (intros k Hk; unfold st1, upd; by rewrite decide_False).
    unfold part. rewrite !Ek by (try lia; intros Ei; apply Hpi; rewrite <-Ei; Z.div_mod_to_equations; lia).
    apply (not_alloc_part (order s)); [done|by eapply sanc_inner|by apply Hna].
  - intros [] s2 ((m2 & ->) & st2 & HT2 & Hoff & Hanc). split; [by exists m2|].
    destruct (set_consistent (order s) st st2 i v Hc Hi Hv Hz Hna Hoff Hanc (to_st _ _ HT2)).
    by exists st2.
Qed.

(** [buddy_tree_mark] on a free node. *)
Lemma mark_spec s A i :
  holds s A → free_in (order s) A i →
  wp (buddy_tree_mark (at_node i))
    (λ _ s', (∃ m, s' = s <| tbytes := m |>) ∧ holds s' (λ p, A p ∨ p = i)) s.
Proof.
  intros (st & HT & Hc & HA) Hf%(free_free_in _ st); [|done..]. destruct Hf as (Hi & H0 & Hna).
  unfold buddy_tree_mark. apply wp_bind. eapply wp_of_eq; [by eapply internal_position_eq|].
  assert (¬ alloc (order s) st i) as Hni.
  { intros (_ & E & _). destruct (loc_range _ i Hi) as (_ & ? & _). lia. }
  eapply wp_mono; [apply (update_node s st i (lo (order s) i)); try done; [by right|]|].
  - intros Hin. destruct (inner_node _ _ Hin) as (_ & Hl & Hr).
    split; (apply (zero_below (order s) st Hc i); [done| |done]);
      (apply anc_cases; [destruct Hi; lia|]; right; apply sanc_cases; [destruct Hi; lia|];
       left; Z.div_mod_to_equations; lia).
  - intros [] s' (Hm & st' & HT' & Hc' & HA'). split; [done|]. exists st'. split_and!; [done|done|].
    intros p. rewrite HA', <-HA. destruct (decide (p = i)) as [->|]; naive_solver.
Qed.

(** [buddy_tree_release] on an allocated node. *)
Lemma release_spec s A i :
  holds s A → A i →
  wp (buddy_tree_release (at_node i))
    (λ r s', r = BUDDY_TREE_RELEASE_SUCCESS ∧ (∃ m, s' = s <| tbytes := m |>) ∧
       holds s' (λ p, A p ∧ p ≠ i)) s.
Proof.
  intros (st & HT & Hc & HA) Hi%HA. pose proof Hi as (Hn & E & Hz).
  unfold buddy_tree_release. apply wp_bind. eapply wp_of_eq; [by eapply internal_position_eq|].
  apply wp_bind. eapply wp_mono; [by apply (read_eq s st)|]. intros ? ? [-> ->].
  cbn [field local_offset]. rewrite E, Z.eqb_refl. cbn [negb]. fold (field s i).
  apply wp_assoc. eapply wp_mono; [apply (update_node s st i 0); try done; [by left|]|].
  - intros p Hp Hpa. by apply (alloc_apart (order s) st p i).
  - intros [] s' (Hm & st' & HT' & Hc' & HA'). apply wp_ret. split_and!; [done|done|].
    exists st'. split_and!; [done|done|]. destruct (loc_range _ i Hn) as (_ & ? & _).
    intros p. rewrite HA', <-HA. destruct (decide (p = i)) as [->|]; [naive_solver lia|naive_solver].
Qed.

Lemma right_field s p : inner (order s) p → order s ≤ 58 →
  mkInternal (local_offset (field s (2 * p)))
    (u64 (bitset_location (field s (2 * p)) + local_offset (field s (2 * p)))) = field s (2 * p + 1) ∧
  lo (order s) (2 * p) = lo (order s) p - 1 ∧ lo (order s) (2 * p + 1) = lo (order s) p - 1.
Proof.
  intros Hin Ho. destruct (inner_node _ p Hin) as (Hp & Hl & Hr). destruct (log2_node _ p Hp) as [? _].
  destruct (node_child (order s) p 0 ltac:(by destruct Hp) ltac:(lia)) as [E0 _].
  destruct (node_child (order s) p 1 ltac:(by destruct Hp) ltac:(lia)) as [E1 _].
  rewrite Z.add_0_r in E0. destruct (loc_range _ _ Hr) as (R0 & R1 & R2).
  pose proof (rows_range (order s) (order s) ltac:(lia) Ho).
  assert (loc (order s) (2 * p) + lo (order s) (2 * p) = loc (order s) (2 * p + 1)) as E
    by (unfold loc, lo; rewrite E0, E1; lia).
  unfold field. cbn [local_offset bitset_location]. rewrite E, wrap_small by lia.
  split_and!; [f_equal|..]; unfold lo; lia.
Qed.

(** The child it picks is the less busy one, if only one will do. *)
Lemma pick_child_spec s st p k :
  tree_ok s st → inner (order s) p → 1 ≤ k ≤ lo (order s) p - 1 →
  Z.min (st (2 * p)) (st (2 * p + 1)) ≤ k - 1 →
  wp (pick_child (at_node (2 * p)) (at_node (2 * p + 1)) (k - 1))
    (λ r s', s' = s ∧ ∃ c, r = at_node c ∧ (c = 2 * p ∨ c = 2 * p + 1) ∧ st c ≤ k - 1) s.
Proof.
  intros HT Hin Hk Hmin. destruct (to_order _ _ HT) as [_ Ho].
  destruct (inner_node _ p Hin) as (_ & Hl & Hr). destruct (right_field s p Hin Ho) as (Er & L1 & L2).
  pose proof (to_st _ _ HT _ Hr) as Rr. unfold pick_child. replace (k - 1 + 1) with k by lia.
  apply wp_bind. eapply wp_of_eq; [by eapply internal_position_eq|]. rewrite Er.
  apply wp_bind, (compare_eq s st); [done|done|lia|]. case_bool_decide.
  { apply wp_ret. split; [done|]. exists (2 * p + 1). split_and!; [done|by right|lia]. }
  apply wp_bind, (compare_eq s st); [done|done|lia|]. case_bool_decide.
  { apply wp_ret. split; [done|]. exists (2 * p). split_and!; [done|by left|lia]. }
  apply wp_bind. eapply wp_mono; [by apply (read_eq s st)|]. intros ? ? [-> ->].
  unfold nz. destruct (Z.eqb_spec (st (2 * p + 1)) 0); cbn [negb].
  { apply wp_ret. split; [done|]. exists (2 * p). split_and!; [done|by left|lia]. }
  apply wp_bind, (compare_eq s st); [done|done|lia|]. apply wp_ret. split; [done|].
  case_bool_decide; eexists; (split; [done|]); [split; [by left|lia]|split; [by right|lia]].
Qed.

(** The descent reaches a free node at the target depth. *)
Lemma find_free_from_spec fuel : ∀ s st p T,
  tree_ok s st → consistent (order s) st → node (order s) p →
  T ≤ order s → Z.log2 p + 1 ≤ T → T - Z.log2 p - 1 ≤ Z.of_nat fuel →
  st p ≤ T - Z.log2 p - 1 → (∀ q, sanc q p → ¬ alloc (order s) st q) →
  wp (find_free_from fuel (at_node p) (Z.log2 p + 1) T (T - Z.log2 p - 1))
    (λ r s', s' = s ∧ ∃ q, r = at_node q ∧ Z.log2 q + 1 = T ∧ free (order s) st q) s.
Proof.
  induction fuel as [|fuel IH]; intros s st p T HT Hc Hp HTo HpT Hf Hst Hna; cbn [find_free_from];
    pose proof (to_st _ _ HT p Hp) as Rp;
    (destruct (Z.eqb_spec (Z.log2 p + 1) T) as [ET|Hne];
      [apply wp_ret; split; [done|]; exists p; split_and!; [done|done|split_and!; [done|lia|done]]|]);
    [lia|].
  destruct (to_order _ _ HT) as [Ho1 Ho2]. destruct (log2_node _ p Hp) as [Lp Bp].
  assert (inner (order s) p) as Hin.
  { split; [by destruct Hp|]. assert (2 ^ (Z.log2 p + 2) ≤ 2 ^ order s) as Hle
      by (apply Z.pow_le_mono_r; lia). rewrite Z.pow_add_r in Hle by lia. change (2 ^ 2) with 4 in Hle. lia. }
  destruct (children_at (order s) p Hin Ho2) as (-> & _ & ->).
  rewrite (wrap_small 8) by (change (2 ^ 8) with 256; lia).
  apply wp_bind. eapply wp_mono; [apply (pick_child_spec s st p (T - Z.log2 p - 1)); [done|done|unfold lo; lia|]|].
  - assert (¬ alloc (order s) st p) as Hnp by (intros (_ & E & _); unfold lo in *; lia).
    rewrite (not_alloc_part (order s) st p Hc Hin Hnp) in Hst. unfold part in Hst. case_decide; lia.
  - intros r s' (-> & c & -> & Hcp & Hcst).
    destruct (inner_node _ p Hin) as (_ & Hl & Hr).
    assert (Z.log2 c = Z.log2 p + 1) as Elog.
    { destruct Hcp as [-> | ->]; [rewrite <-(Z.add_0_r (2 * p))|]; apply (node_child (order s)); lia. }
    rewrite <-Elog. replace (T - Z.log2 p - 1 - 1) with (T - Z.log2 c - 1) by lia.
    apply IH; try done; try lia; [by destruct Hcp as [-> | ->]|].
    intros q Hq. assert (c `div` 2 = p) as Ec by (destruct Hcp as [-> | ->]; Z.div_mod_to_equations; lia).
    rewrite sanc_cases, Ec in Hq by lia. destruct Hq as [->|Hq]; [|by apply Hna].
    intros (_ & E & _). unfold lo in E. lia.
Qed.

(** [buddy_tree_find_free] finds a free node at the target depth, or there is
    none. *)
Lemma find_free_spec s A T :
  holds s A → 1 ≤ T ≤ order s →
  wp (buddy_tree_find_free T)
    (λ r s', s' = s ∧
       ((r = INVALID_POS ∧ ∀ q, Z.log2 q + 1 = T → ¬ free_in (order s) A q) ∨
        ∃ q, r = at_node q ∧ Z.log2 q + 1 = T ∧ free_in (order s) A q)) s.
Proof.
  intros (st & HT & Hc & HA) HT1. destruct (to_order _ _ HT) as [Ho1 Ho2].
  assert (node (order s) 1) as H1.
  { split; [lia|]. apply Z.pow_gt_1; lia. }
  unfold buddy_tree_find_free. rewrite wrap_small by (change (2 ^ 8) with 256; lia).
  apply wp_bind. eapply wp_mono; [by apply (status_eq s st 1)|]. intros ? ? [-> ->].
  destruct (Z.ltb_spec (T - 1) (st 1)).
  - apply wp_ret. split; [done|]. left. split; [done|]. intros q Hq Hf.
    apply (free_free_in _ st) in Hf; [|done..].
    pose proof (free_status (order s) st 1 q Hc Hf) as Hle. change (Z.log2 1) with 0 in Hle.
    assert (st 1 ≤ Z.log2 q - 0); [|lia]. apply Hle. destruct Hf as [[Hq1 _] _].
    apply anc_eq; [done|]. change (Z.log2 1) with 0. pose proof (Z.log2_nonneg q).
    split_and!; [done|done|]. rewrite Z.sub_0_r.
    pose proof (Z.log2_spec q ltac:(lia)) as Hs. rewrite Z.pow_succ_r in Hs by lia.
    symmetry. apply (Z.div_unique _ _ _ (q - 2 ^ Z.log2 q)); lia.
  - pose proof (find_free_from_spec chain_fuel s st 1 T HT Hc H1) as Hfind.
    change (Z.log2 1) with 0 in Hfind. replace (T - 0 - 1) with (T - 1) in Hfind by lia.
    eapply wp_mono; [apply Hfind; try lia|].
    + unfold chain_fuel. lia.
    + intros q Hq. destruct (sanc_lt _ _ Hq). lia.
    + intros r s' (-> & q & -> & Hq & Hf). split; [done|]. right. exists q.
      split_and!; [done|done|]. by apply (free_free_in _ st).
Qed.

(** ** Initialisation *)

Lemma zero_bytes_lookup n a : zero_bytes n !! a = if decide (0 ≤ a < n) then Some 0 else None.
Proof.
  unfold zero_bytes. case_decide as H.
  - apply elem_of_list_to_map_1; [|apply list_elem_of_fmap; exists a; split; [done|apply elem_of_seqZ; lia]].
    rewrite <-list_fmap_compose. rewrite (list_fmap_ext _ id); [|done]. rewrite list_fmap_id. apply NoDup_seqZ.
  - apply not_elem_of_list_to_map_1. rewrite <-list_fmap_compose.
    intros (b & E & Hb%elem_of_seqZ)%list_elem_of_fmap. simpl in E. lia.
Qed.

Lemma populate_spec s o :
  order s = o → 1 ≤ o ≤ 58 → tbytes s = zero_bytes (buddy_tree_sizeof o - 24) →
  wp buddy_tree_populate_size_for_order
    (λ _ s', ∃ m, s' = s <| size_for_order_offset := table_word o |> <| tbytes := m |> ∧
       (∀ k, 0 ≤ k ≤ o → word_at m 8 (8 * (table_word o + k)) (rows o (o - k))) ∧
       ∀ a, 0 ≤ a < 8 * table_word o → m !! a = Some 0) s.
Proof.
  intros Eo Ho Em. destruct (layout o ltac:(lia)) as (L0 & L1 & L2 & L3).
  unfold buddy_tree_populate_size_for_order. apply wp_bind, wp_gets, wp_bind, wp_modify. rewrite Eo.
  fold (table_word o). set (s1 := s <| size_for_order_offset := table_word o |>).
  eapply wp_mono; [eapply (wp_for_all (Z.to_nat (o + 1)) 0 _ (λ i s', ∃ m, s' = s1 <| tbytes := m |> ∧
    (∀ k, 0 ≤ k < i → word_at m 8 (8 * (table_word o + k)) (rows o (o - k))) ∧
    (∀ a, 0 ≤ a < 8 * table_word o → m !! a = Some 0) ∧
    (∀ a, 0 ≤ a < buddy_tree_sizeof o - 24 → is_Some (m !! a))))|].
  - intros i s' Hi (m & -> & Hw & Hz & Hs). apply wp_bind, wp_gets.
    change (size_for_order_offset (s1 <| tbytes := m |>)) with (table_word o).
    rewrite (wrap_small 8) by (change (2 ^ 8) with 256; lia).
    replace (size_for_order o i) with (rows o (o - i))
      by (rewrite <-size_for_order_eq by lia; f_equal; lia).
    eapply wp_mono; [apply stw_spec|].
    + intros j Hj. apply Hs. lia.
    + intros [] s' (m' & -> & Hw' & Ho'). exists m'. cbn in Ho'. split_and!; [done| | |].
      * intros k Hk. destruct (decide (k = i)) as [->|]; [done|].
        intros j Hj. rewrite Ho' by lia. apply Hw; lia.
      * intros a Ha. rewrite Ho' by lia. by apply Hz.
      * intros a Ha. destruct (decide (8 * (table_word o + i) ≤ a < 8 * (table_word o + i) + 8)).
        -- replace a with (8 * (table_word o + i) + (a - 8 * (table_word o + i))) by lia.
           rewrite Hw' by lia. by eexists.
        -- rewrite Ho' by lia. by apply Hs.
  - exists (tbytes s). rewrite Em. split_and!.
    + unfold s1. rewrite <-Em. by destruct s.
    + lia.
    + intros a Ha. rewrite zero_bytes_lookup, decide_True by lia. done.
    + intros a Ha. rewrite zero_bytes_lookup, decide_True by lia. by eexists.
  - intros [] s' (m & -> & Hw & Hz & _). exists m. split_and!; [done| |done].
    intros k Hk. apply Hw. lia.
Qed.

Lemma empty_holds s o :
  order s = o → 1 ≤ o ≤ 58 → upper_pos_bound s = 2 ^ o → size_for_order_offset s = table_word o →
  (∀ k, 0 ≤ k ≤ o → word_at (tbytes s) 8 (8 * (table_word o + k)) (rows o (o - k))) →
  (∀ a, 0 ≤ a < 8 * table_word o → tbytes s !! a = Some 0) →
  holds s (λ _, False).
Proof.
  intros Eo Ho Eu Et Hw Hz. destruct (layout o ltac:(lia)) as (L0 & L1 & L2 & L3).
  assert (∀ k, 0 ≤ k < 8 * set_bytes o → bitv (tbytes s) k = false) as Hb.
  { intros k Hk. unfold bitv. rewrite Hz by (Z.div_mod_to_equations; lia).
    cbn [default from_option]. apply Z.testbit_0_l. }
  exists (λ _, 0). split_and!.
  - split; rewrite ?Eo; try done.
    + intros a Ha. exists 0. split; [|lia]. apply Hz. lia.
    + intros i Hi. destruct (loc_range o i Hi). lia.
    + intros i j Hi Hj. destruct (loc_range o i Hi). rewrite bool_decide_eq_false_2 by lia. apply Hb. lia.
  - rewrite Eo. split; [|by left]. intros i Hi. destruct (loc_range o i Hi). lia.
  - intros p. split; [|done]. intros (Hp & E & _). destruct (loc_range _ p Hp) as (_ & ? & _). lia.
Qed.

Lemma tree_init_spec s o : 1 ≤ o ≤ 58 →
  wp (buddy_tree_init o)
    (λ _ s', (∃ m off u, s' = s <| tbytes := m |> <| size_for_order_offset := off |>
        <| tree_flags := 0 |> <| order := o |> <| upper_pos_bound := u |>) ∧
       holds s' (λ _, False)) s.
Proof.
  intros Ho. unfold buddy_tree_init. apply wp_bind, wp_modify.
  eapply wp_mono; [by apply (populate_spec _ o)|]. intros [] s' (m & -> & Hw & Hz).
  split; [exists m, (table_word o), (two_to_the_power_of o); destruct s; cbn; reflexivity|].
  apply (empty_holds _ o); try done. apply two_to_the_power_of_eq. lia.
Qed.

(** The metadata of a tree of any order up to 58 stays within
    [buddy_tree_sizeof]: the fields of the nodes are disjoint and lie in the bit
    set, the bit set ends before the table of row offsets, and the table ends
    with the allocation, although the padding of the bit set is not a rounding
    up. *)
Theorem buddy_tree_layout o :
  0 ≤ o ≤ 58 →
  (∀ i, node o i → 0 ≤ loc o i ∧ 1 ≤ lo o i ∧ loc o i + lo o i ≤ 8 * set_bytes o) ∧
  (∀ i j a b, node o i → node o j → i ≠ j → 0 ≤ a < lo o i → 0 ≤ b < lo o j →
     loc o i + a ≠ loc o j + b) ∧
  set_bytes o ≤ 8 * table_word o ∧ 8 * (table_word o + o + 1) ≤ buddy_tree_sizeof o - 24.
Proof.
  intros Ho. destruct (layout o Ho) as (L0 & L1 & L2 & L3). split_and!; [|apply loc_apart|done|done].
  intros i Hi. destruct (loc_range o i Hi) as (? & ? & ?). lia.
Qed.
