(* ===== verification/Buddy.v ===== *)
(** * The buddy allocator

    The allocator of [include/buddy.h] on top of its tree: initialisation,
    allocation, release.  The allocated blocks are described by a set of tree
    nodes; an allocation adds a free node to it and fails only when there is no
    free block of the size, a release removes one. *)

From S2P Require Import Prelude BuddyBits Bitset BuddyTree.

(** ** The code *)

Definition BUDDY_ALLOC_ALIGN : Z := 64.

Definition is_valid_alignment (a : Z) : bool := ceiling_power_of_two a =? a.

Definition buddy_tree_order_for_memory (memory_size alignment : Z) : Z :=
  highest_bit_position (ceiling_power_of_two (memory_size `div` alignment)).

(** [sizeof(struct buddy)] is 32. *)
Definition buddy_sizeof_alignment (memory_size alignment : Z) : Z :=
  if negb (is_valid_alignment alignment) then 0 else
  if memory_size <? alignment then 0 else
  32 + buddy_tree_sizeof (u8 (buddy_tree_order_for_memory memory_size alignment)).
Definition buddy_sizeof (memory_size : Z) : Z := buddy_sizeof_alignment memory_size BUDDY_ALLOC_ALIGN.

Definition buddy_effective_memory_size : M bud Z :=
  m ← gets memory_size; mret (ceiling_power_of_two m).

Definition size_for_depth (d : Z) : M bud Z :=
  m ← gets memory_size; mret (Z.shiftr (ceiling_power_of_two m) (u64 (d - 1))).

Definition depth_for_size (requested_size : Z) : M bud Z :=
  a ← gets alignment;
  let requested_size := if requested_size <? a then a else requested_size in
  e ← buddy_effective_memory_size;
  mret (u64 (count_trailing_zeroes e + 1 - count_trailing_zeroes (ceiling_power_of_two requested_size))).

(** The relative mode is that of [buddy_embed], which nothing in the kernel
    calls. *)
Definition buddy_main : M bud Z :=
  f ← gets buddy_flags;
  if nz (Z.land f 1) then fault else gets arena_main.

Definition address_for_position (pos : buddy_tree_pos) : M bud Z :=
  block_size ← size_for_depth (buddy_tree_depth pos);
  main ← buddy_main;
  mret (u64 (main + u64 (block_size * buddy_tree_index pos))).

Definition deepest_position_for_offset (offset : Z) : M bud buddy_tree_pos :=
  a ← gets alignment;
  pos ← buddy_tree_leftmost_child;
  mret (mkPos (u64 (index pos + offset `div` a)) (depth pos)).

(** [while (!buddy_tree_status(tree, pos))]; [None] stands for [INVALID_POS]. *)
Fixpoint tracking_position (fuel : nat) (pos : buddy_tree_pos) : M bud (option buddy_tree_pos) :=
  st ← buddy_tree_status pos;
  if nz st then mret (Some pos) else
  match fuel with
  | O => fault
  | S fuel =>
      let pos := buddy_tree_parent pos in
      v ← buddy_tree_valid pos;
      if negb v then mret None else tracking_position fuel pos
  end.

Definition position_for_address (addr : Z) : M bud buddy_tree_pos :=
  main ← buddy_main;
  let offset := u64 (addr - main) in
  a ← gets alignment;
  if nz (offset `mod` a) then mret INVALID_POS else
  pos ← deepest_position_for_offset offset;
  r ← tracking_position chain_fuel pos;
  match r with
  | None => mret INVALID_POS
  | Some pos =>
      addr' ← address_for_position pos;
      mret (if negb (addr' =? addr) then INVALID_POS else pos)
  end.

Definition toggle (state : bool) (pos : buddy_tree_pos) : M bud unit :=
  if state then buddy_tree_mark pos else _ ← buddy_tree_release pos; mret tt.

(** The loop of [buddy_toggle_virtual_slots]; a round goes down one level. *)
Fixpoint toggle_virtual_from (fuel : nat) (state : bool) (pos : buddy_tree_pos) (delta : Z) : M bud unit :=
  if delta =? 0 then mret tt else
  match fuel with
  | O => fault
  | S fuel =>
      size ← size_for_depth (buddy_tree_depth pos);
      if delta =? size then toggle state pos else
      if delta <=? size `div` 2
      then toggle_virtual_from fuel state (buddy_tree_right_child pos) delta
      else
        toggle state (buddy_tree_right_child pos) ;;
        toggle_virtual_from fuel state (buddy_tree_left_child pos) (delta - size `div` 2)
  end.

Definition buddy_toggle_virtual_slots (state : bool) : M bud unit :=
  m ← gets memory_size;
  e ← buddy_effective_memory_size;
  if e =? m then mret tt else
  toggle_virtual_from chain_fuel state (buddy_tree_right_child buddy_tree_root) (e - m).

(** [buddy_init_alignment]; the state is the memory at [at], the result is [at]
    or [NULL]. *)
Definition buddy_init_alignment (at_ main size alignment_ : Z) : M bud Z :=
  if at_ =? 0 then mret 0 else
  if main =? 0 then mret 0 else
  if at_ =? main then mret 0 else
  if negb (is_valid_alignment alignment_) then mret 0 else
  if nz (at_ `mod` 8) then mret 0 else
  if nz (main `mod` 8) then mret 0 else
  let size := if nz (size `mod` alignment_) then size - size `mod` alignment_ else size in
  if buddy_sizeof_alignment size alignment_ =? 0 then mret 0 else
  let o := buddy_tree_order_for_memory size alignment_ in
  modify (λ s, s <| arena_main := main |> <| memory_size := size |>
                 <| buddy_flags := 0 |> <| alignment := alignment_ |>) ;;
  buddy_tree_init (u8 o) ;;
  buddy_toggle_virtual_slots true ;;
  mret at_.
Definition buddy_init (at_ main size : Z) : M bud Z :=
  buddy_init_alignment at_ main size BUDDY_ALLOC_ALIGN.

Definition buddy_malloc (requested_size : Z) : M bud Z :=
  let requested_size := if requested_size =? 0 then 1 else requested_size in
  m ← gets memory_size;
  if m <? requested_size then mret 0 else
  target_depth ← depth_for_size requested_size;
  pos ← buddy_tree_find_free (u8 target_depth);
  v ← buddy_tree_valid pos;
  if negb v then mret 0 else
  buddy_tree_mark pos ;;
  address_for_position pos.

(** The address lies in the arena. *)
Definition in_arena (dst : Z) : M bud bool :=
  main ← buddy_main;
  m ← gets memory_size;
  mret (negb ((dst <? main) || (u64 (main + m) <=? dst))).

Definition buddy_free (ptr : Z) : M bud unit :=
  if ptr =? 0 then mret tt else
  inside ← in_arena ptr;
  if negb inside then mret tt else
  pos ← position_for_address ptr;
  v ← buddy_tree_valid pos;
  if negb v then mret tt else
  _ ← buddy_tree_release pos;
  mret tt.

Inductive buddy_safe_free_status :=
  | BUDDY_SAFE_FREE_SUCCESS | BUDDY_SAFE_FREE_BUDDY_IS_NULL | BUDDY_SAFE_FREE_INVALID_ADDRESS
  | BUDDY_SAFE_FREE_SIZE_MISMATCH | BUDDY_SAFE_FREE_ALREADY_FREE.

Definition buddy_safe_free (ptr requested_size : Z) : M bud buddy_safe_free_status :=
  if ptr =? 0 then mret BUDDY_SAFE_FREE_INVALID_ADDRESS else
  inside ← in_arena ptr;
  if negb inside then mret BUDDY_SAFE_FREE_INVALID_ADDRESS else
  pos ← position_for_address ptr;
  v ← buddy_tree_valid pos;
  if negb v then mret BUDDY_SAFE_FREE_INVALID_ADDRESS else
  size ← size_for_depth (depth pos);
  a ← gets alignment;
  let requested_size := if requested_size <? a then a else requested_size in
  if size <? requested_size then mret BUDDY_SAFE_FREE_SIZE_MISMATCH else
  if requested_size <=? size `div` 2 then mret BUDDY_SAFE_FREE_SIZE_MISMATCH else
  status ← buddy_tree_release pos;
  match status with
  | BUDDY_TREE_RELEASE_FAIL_PARTIALLY_USED => mret BUDDY_SAFE_FREE_INVALID_ADDRESS
  | BUDDY_TREE_RELEASE_SUCCESS => mret BUDDY_SAFE_FREE_SUCCESS
  end.

Definition buddy_alloc_size (ptr : Z) : M bud Z :=
  if ptr =? 0 then mret 0 else
  inside ← in_arena ptr;
  if negb inside then mret 0 else
  pos ← position_for_address ptr;
  v ← buddy_tree_valid pos;
  if negb v then mret 0 else size_for_depth (depth pos).

Definition buddy_is_full : M bud bool :=
  st ← buddy_tree_status buddy_tree_root; o ← gets order; mret (st =? o).

Definition buddy_arena_size : M bud Z := gets memory_size.

(** ** Blocks

    Node [i] stands for the block of [bsz i] bytes at offset [boff i]. *)

Definition bsz (o i : Z) : Z := 2 ^ (o + 5 - Z.log2 i).
Definition boff (o i : Z) : Z := bsz o i * (i - 2 ^ Z.log2 i).

(** The allocator [s], whose allocated nodes are [A]: those in use, and those
    that mask the addresses beyond [memory_size]. *)
Record buddy_ok (s : bud) (A : Z → Prop) : Prop := {
  bo_tree : holds s A;
  bo_align : alignment s = 64;
  bo_flags : buddy_flags s = 0;
  bo_order : 1 ≤ order s ≤ 58;
  bo_size : 64 ≤ memory_size s ∧ memory_size s `mod` 64 = 0;
  bo_effective : Z.log2_up (memory_size s) = order s + 5;
  bo_main : 0 < arena_main s ∧ arena_main s + memory_size s < 2 ^ 64;
  bo_virtual l : node (order s) l → Z.log2 l = order s - 1 →
    memory_size s < 64 * (l - 2 ^ (order s - 1) + 1) → ∃ q, A q ∧ anc q l }.

(** The block lies in the arena. *)
Definition in_range (s : bud) (i : Z) : Prop := boff (order s) i + bsz (order s) i ≤ memory_size s.

Definition addr_of (s : bud) (i : Z) : Z := arena_main s + boff (order s) i.

Lemma effective_range s A : buddy_ok s A →
  memory_size s ≤ 2 ^ (order s + 5) ≤ 2 ^ 63 ∧ 2 ^ (order s + 5) < 2 * memory_size s ∧
  ceiling_power_of_two (memory_size s) = 2 ^ (order s + 5).
Proof.
  intros [_ _ _ Ho [Hm _] He _ _]. rewrite <-He.
  assert (2 ^ Z.log2_up (memory_size s) ≤ 2 ^ 63) as H63 by (apply Z.pow_le_mono_r; lia).
  pose proof (Z.log2_up_spec (memory_size s) ltac:(lia)) as [H1 H2].
  assert (2 ^ Z.log2_up (memory_size s) < 2 * memory_size s) as H3.
  { assert (2 ^ Z.log2_up (memory_size s) = 2 * 2 ^ Z.pred (Z.log2_up (memory_size s))) as ->; [|lia].
    rewrite <-Z.pow_succ_r by (rewrite He; lia). f_equal. lia. }
  split_and!; try done. apply ceiling_power_of_two_eq. lia.
Qed.

Lemma bsz_range o i : node o i → 1 ≤ o ≤ 58 →
  64 ≤ bsz o i ∧ 0 ≤ boff o i ∧ boff o i + bsz o i ≤ 2 ^ (o + 5) ∧
  bsz o i = 64 * 2 ^ (o - 1 - Z.log2 i) ∧ boff o i = 64 * (i * 2 ^ (o - 1 - Z.log2 i) - 2 ^ (o - 1)).
Proof.
  intros Hi Ho. destruct (log2_node o i Hi) as [Hl Hb].
  assert (bsz o i = 64 * 2 ^ (o - 1 - Z.log2 i)) as E.
  { unfold bsz. change 64 with (2 ^ 6). rewrite <-Z.pow_add_r by lia. f_equal. lia. }
  assert (2 ^ (o - 1) = 2 ^ (o - 1 - Z.log2 i) * 2 ^ Z.log2 i) as E2
    by (rewrite <-Z.pow_add_r by lia; f_equal; lia).
  assert (2 ^ (o + 5) = 64 * 2 ^ (o - 1)) as E3.
  { change 64 with (2 ^ 6). rewrite <-Z.pow_add_r by lia. f_equal. lia. }
  pose proof (Z.pow_pos_nonneg 2 (o - 1 - Z.log2 i) ltac:(lia) ltac:(lia)).
  unfold boff. rewrite E, E3, E2. split_and!; try nia.
Qed.

Lemma size_for_depth_eq s A i : buddy_ok s A → node (order s) i →
  size_for_depth (Z.log2 i + 1) s = Done (bsz (order s) i) s.
Proof.
  intros Hok Hi. destruct (effective_range s A Hok) as (_ & _ & E).
  destruct (log2_node _ i Hi) as [Hl _]. destruct (bo_order _ _ Hok) as [Ho1 Ho2].
  unfold size_for_depth. rewrite (bind_done (gets memory_size) _ s _ s eq_refl), E.
  rewrite wrap_small by lia. replace (Z.log2 i + 1 - 1) with (Z.log2 i) by lia.
  rewrite Z.shiftr_div_pow2, <-Z.pow_sub_r by lia. done.
Qed.

Lemma buddy_main_eq s A : buddy_ok s A → buddy_main s = Done (arena_main s) s.
Proof. intros Hok. unfold buddy_main. cbv [mbind M_bind gets]. by rewrite (bo_flags _ _ Hok). Qed.

Lemma address_eq s A i : buddy_ok s A → node (order s) i → in_range s i →
  address_for_position (at_node i) s = Done (addr_of s i) s.
Proof.
  intros Hok Hi Hr. destruct (effective_range s A Hok) as (E1 & _ & _).
  pose proof (bo_order _ _ Hok). pose proof (bo_main _ _ Hok).
  destruct (bsz_range _ i Hi ltac:(lia)) as (? & ? & ? & _).
  unfold address_for_position. change (buddy_tree_depth (at_node i)) with (Z.log2 i + 1).
  rewrite (bind_done _ _ _ _ _ (size_for_depth_eq s A i Hok Hi)).
  rewrite (bind_done _ _ _ _ _ (buddy_main_eq s A Hok)).
  rewrite (buddy_tree_index_eq (order s)) by (done || lia). fold (boff (order s) i).
  unfold in_range in Hr. rewrite (wrap_small 64 (boff _ _)) by lia. rewrite wrap_small by lia. done.
Qed.

(** ** A free block lies in the arena *)

Lemma anc_total p q i : 1 ≤ i → anc p i → anc q i → anc p q ∨ anc q p.
Proof.
  intros Hi Hp Hq. destruct Hp as (Hp & k & Hk & E), Hq as (Hq & j & Hj & E').
  assert (∀ a b, 0 ≤ a ≤ b → (i `div` 2 ^ a) `div` 2 ^ (b - a) = i `div` 2 ^ b) as H.
  { intros a b Hab. rewrite Z.div_div by (try lia; apply Z.pow_pos_nonneg; lia).
    rewrite <-Z.pow_add_r by lia. do 2 f_equal. lia. }
  destruct (decide (j ≤ k)).
  - left. split; [done|]. exists (k - j). split; [lia|]. rewrite <-E', H by lia. done.
  - right. split; [done|]. exists (j - k). split; [lia|]. rewrite <-E, H by lia. done.
Qed.

(** The last leaf below a node. *)
Lemma last_leaf o i : node o i → 1 ≤ o ≤ 58 →
  let l := (i + 1) * 2 ^ (o - 1 - Z.log2 i) - 1 in
  node o l ∧ Z.log2 l = o - 1 ∧ anc i l ∧ 64 * (l - 2 ^ (o - 1) + 1) = boff o i + bsz o i.
Proof.
  intros Hi Ho l. destruct (log2_node o i Hi) as [Hl Hb].
  destruct (bsz_range o i Hi Ho) as (_ & _ & _ & Es & Eo).
  set (k := o - 1 - Z.log2 i) in *. pose proof (Z.pow_pos_nonneg 2 k ltac:(lia) ltac:(lia)) as Hk.
  assert (2 ^ (o - 1) = 2 ^ k * 2 ^ Z.log2 i) as E2 by (rewrite <-Z.pow_add_r by lia; f_equal; lia).
  assert (2 ^ o = 2 * 2 ^ (o - 1)) as E3 by (rewrite <-Z.pow_succ_r by lia; f_equal; lia).
  assert (2 ^ (o - 1) ≤ l < 2 ^ o) as Hlr by (unfold l; rewrite E3, E2; nia).
  pose proof (Z.pow_pos_nonneg 2 (o - 1) ltac:(lia) ltac:(lia)).
  split_and!.
  - unfold node. lia.
  - apply Z.log2_unique; [lia|]. by replace (Z.succ (o - 1)) with o by lia.
  - split; [by destruct Hi|]. exists k. split; [lia|]. symmetry.
    apply (Z.div_unique _ _ _ (2 ^ k - 1)); unfold l; lia.
  - rewrite Eo, Es. unfold l. lia.
Qed.

Lemma free_in_range s A i : buddy_ok s A → free_in (order s) A i → in_range s i.
Proof.
  intros Hok [Hi Hf]. pose proof (bo_order _ _ Hok) as Ho.
  destruct (last_leaf _ i Hi Ho) as (Hl & El & Ha & Es). unfold in_range. rewrite <-Es.
  set (l := _ - 1) in *. destruct (decide (memory_size s < 64 * (l - 2 ^ (order s - 1) + 1))); [|lia].
  destruct (bo_virtual _ _ Hok l Hl El) as (q & Hq & Hql); [done|].
  destruct (Hf q Hq). destruct (anc_total q i l); [by destruct Hl|done..].
Qed.

(** Changing the bits keeps everything but the tree. *)
Lemma buddy_ok_mono s m A A' :
  buddy_ok s A → holds (s <| tbytes := m |>) A' →
  (∀ l, node (order s) l → Z.log2 l = order s - 1 →
     memory_size s < 64 * (l - 2 ^ (order s - 1) + 1) → (∃ q, A q ∧ anc q l) → ∃ q, A' q ∧ anc q l) →
  buddy_ok (s <| tbytes := m |>) A'.
Proof. intros [H1 H2 H3 H4 H5 H6 H7 H8] Hh Hv. split; try done. intros l Hl El Hm. apply Hv; try done. by apply H8. Qed.

(** ** Allocation *)

(** The exponent of the block size for a request. *)
Definition fit (size : Z) : Z := Z.log2_up (Z.max size 64).

Lemma fit_range s A size : buddy_ok s A → size ≤ memory_size s → 6 ≤ fit size ≤ order s + 5.
Proof.
  intros Hok Hs. unfold fit. rewrite <-(bo_effective _ _ Hok). destruct (bo_size _ _ Hok). split.
  - change 6 with (Z.log2_up 64). apply Z.log2_up_le_mono. lia.
  - apply Z.log2_up_le_mono. lia.
Qed.

Lemma depth_for_size_eq s A size : buddy_ok s A → size ≤ memory_size s →
  depth_for_size size s = Done (order s + 6 - fit size) s.
Proof.
  intros Hok Hs. destruct (effective_range s A Hok) as ([E0 E1] & _ & E2).
  pose proof (fit_range s A size Hok Hs) as Hf. pose proof (bo_order _ _ Hok).
  unfold depth_for_size. rewrite (bind_done (gets alignment) _ s _ s eq_refl), (bo_align _ _ Hok).
  assert ((if size <? 64 then 64 else size) = Z.max size 64) as -> by (destruct (Z.ltb_spec size 64); lia).
  rewrite (bind_done buddy_effective_memory_size _ s (2 ^ (order s + 5)) s);
    [|cbv [buddy_effective_memory_size mbind M_bind gets mret M_ret]; by rewrite E2].
  rewrite ceiling_power_of_two_eq by lia. fold (fit size).
  rewrite !count_trailing_zeroes_pow2 by lia. rewrite wrap_small by lia.
  cbv [mret M_ret]. f_equal. lia.
Qed.

Lemma valid_eq s A i : buddy_ok s A → node (order s) i → buddy_tree_valid (at_node i) s = Done true s.
Proof.
  intros [(st & HT & _) _ _ _ _ _ _ _] [Hi1 Hi2]. unfold buddy_tree_valid.
  cbv [mbind M_bind gets mret M_ret]. rewrite (to_bound _ _ HT). cbn [index at_node].
  rewrite (proj2 (nz_true i)) by lia. by rewrite (proj2 (Z.ltb_lt _ _)).
Qed.

Lemma buddy_malloc_post s A size :
  buddy_ok s A → 1 ≤ size →
  wp (buddy_malloc size)
    (λ p s', (p = 0 ∧ s' = s ∧
        (memory_size s < size ∨ ∀ q, bsz (order s) q = 2 ^ fit size → ¬ free_in (order s) A q)) ∨
      (∃ q m, p = addr_of s q ∧ free_in (order s) A q ∧ bsz (order s) q = 2 ^ fit size ∧ in_range s q ∧
        s' = s <| tbytes := m |> ∧ buddy_ok s' (λ r, A r ∨ r = q))) s.
Proof.
  intros Hok Hs. unfold buddy_malloc. rewrite (proj2 (Z.eqb_neq size 0)) by lia.
  apply wp_bind, wp_gets. destruct (Z.ltb_spec (memory_size s) size) as [Hlt|Hle].
  { apply wp_ret. left. split_and!; [done|done|by left]. }
  pose proof (fit_range s A size Hok Hle) as Hf. pose proof (bo_order _ _ Hok) as Ho.
  apply wp_bind. eapply wp_of_eq; [by eapply depth_for_size_eq|].
  rewrite wrap_small by (change (2 ^ 8) with 256; lia).
  apply wp_bind. eapply wp_mono; [apply (find_free_spec s A); [apply Hok|lia]|].
  intros r s' (-> & [[-> Hnone]|(q & -> & Hq & Hfree)]).
  - apply wp_bind, wp_bind, wp_gets, wp_ret. cbn [index INVALID_POS nz Z.eqb negb andb]. apply wp_ret.
    left. split_and!; [done|done|]. right. intros q Eq Hfree. apply (Hnone q); [|done].
    destruct Hfree as [Hn _]. destruct (log2_node _ q Hn). unfold bsz in Eq.
    apply Z.pow_inj_r in Eq; lia.
  - pose proof Hfree as [Hn _]. apply wp_bind. eapply wp_of_eq; [by eapply valid_eq|]. cbn [negb].
    pose proof (free_in_range s A q Hok Hfree) as Hr.
    apply wp_bind. eapply wp_mono; [apply (mark_spec s A); [apply Hok|done]|].
    intros [] s' ((m & ->) & Hh).
    assert (buddy_ok (s <| tbytes := m |>) (λ r, A r ∨ r = q)) as Hok'.
    { apply (buddy_ok_mono s m A); [done|done|]. intros l _ _ _ (r & ? & ?). exists r. naive_solver. }
    eapply wp_of_eq; [by eapply (address_eq (s <| tbytes := m |>))|].
    right. exists q, m. split_and!; try done. unfold bsz. f_equal. lia.
Qed.

(** ** Release *)

(** The leaf at the start of a block. *)
Lemma first_leaf s A i : buddy_ok s A → node (order s) i → in_range s i →
  deepest_position_for_offset (boff (order s) i) s =
    Done (at_node (i * 2 ^ (order s - 1 - Z.log2 i))) s ∧
  boff (order s) i `mod` 64 = 0.
Proof.
  intros Hok Hi Hr. pose proof (bo_order _ _ Hok) as Ho. destruct (log2_node _ i Hi) as [Hl Hb].
  destruct (bsz_range _ i Hi Ho) as (B1 & B2 & B3 & B4 & B5).
  set (k := order s - 1 - Z.log2 i) in *.
  assert (boff (order s) i `div` 64 = i * 2 ^ k - 2 ^ (order s - 1)) as Ed.
  { rewrite B5, Z.mul_comm. by apply Z.div_mul. }
  split; [|rewrite B5, Z.mul_comm; by apply Z.mod_mul].
  unfold deepest_position_for_offset, buddy_tree_leftmost_child, buddy_tree_leftmost_child_internal.
  cbv [mbind M_bind gets mret M_ret]. rewrite (bo_align _ _ Hok). cbn [index depth].
  rewrite (wrap_small 64 (order s - 1)) by lia. rewrite two_to_the_power_of_eq by lia. rewrite Ed.
  assert (Z.log2 (i * 2 ^ k) = order s - 1) as El
    by (destruct Hi; rewrite Z.log2_mul_pow2 by lia; lia).
  unfold at_node. rewrite El. f_equal. f_equal; [|lia].
  replace (2 ^ (order s - 1) + (i * 2 ^ k - 2 ^ (order s - 1))) with (i * 2 ^ k) by lia.
  apply wrap_small. destruct (effective_range s A Hok) as ([? ?] & _).
  pose proof (pow2_58 (order s - 1) ltac:(lia)). pose proof (Z.pow_pos_nonneg 2 k ltac:(lia) ltac:(lia)).
  change (2 ^ 64) with 18446744073709551616. change (2 ^ 63) with 9223372036854775808 in *.
  destruct Hi. split; [nia|lia].
Qed.

(** From a leaf of an allocated block the search goes up to the block. *)
Lemma tracking_spec s st i : tree_ok s st → consistent (order s) st → alloc (order s) st i →
  ∀ fuel k, 0 ≤ k ≤ Z.of_nat fuel → node (order s) (i * 2 ^ k) →
  tracking_position fuel (at_node (i * 2 ^ k)) s = Done (Some (at_node i)) s.
Proof.
  intros HT Hc Hi fuel. pose proof Hi as (Hn & E & Hz). destruct (to_order _ _ HT) as [Ho1 Ho2].
  induction fuel as [|fuel IH]; intros k Hk Hnk.
  all: pose proof (status_eq s st (i * 2 ^ k) HT Hnk) as Hs; apply wp_run in Hs as (v & s' & Es & -> & ->);
    cbn [tracking_position]; rewrite (bind_done _ _ _ _ _ Es).
  all: destruct (loc_range _ i Hn) as (_ & Hlo & _).
  all: destruct (decide (k = 0)) as [->|Hk0];
    [rewrite Z.pow_0_r, Z.mul_1_r, (proj2 (nz_true _)) by lia; done|].
  { lia. }
  assert (anc i (i * 2 ^ k)) as Ha.
  { split; [by destruct Hn|]. exists k. split; [lia|]. apply Z.div_mul.
    pose proof (Z.pow_pos_nonneg 2 k). lia. }
  assert (i ≠ i * 2 ^ k) as Hne.
  { pose proof (Z.pow_gt_1 2 k ltac:(lia)). destruct Hn. nia. }
  assert (sanc i (i * 2 ^ k)) as Hs by (apply anc_cases in Ha as [|]; [done|done|by destruct Hnk]).
  assert (st (i * 2 ^ k) = 0) as E0.
  { destruct (sanc_child _ _ Hs) as (c & Ec & Hc2 & Hca).
    destruct (Hz (sanc_inner _ _ _ Hnk Hs)) as [Z1 Z2].
    apply (zero_below (order s) st Hc c); [done|done|].
    assert (c = 2 * i ∨ c = 2 * i + 1) as [-> | ->] by (Z.div_mod_to_equations; lia); done. }
  rewrite E0. cbn [nz Z.eqb negb].
  assert (i * 2 ^ k = i * 2 ^ (k - 1) * 2) as Ek.
  { rewrite <-Z.mul_assoc. f_equal. replace k with (k - 1 + 1) at 1 by lia. by rewrite Z.pow_add_r by lia. }
  pose proof (Z.pow_pos_nonneg 2 (k - 1) ltac:(lia) ltac:(lia)).
  rewrite (parent_at (order s)) by (try done; destruct Hn; nia).
  assert ((i * 2 ^ k) `div` 2 = i * 2 ^ (k - 1)) as -> by (rewrite Ek; by apply Z.div_mul).
  assert (node (order s) (i * 2 ^ (k - 1))) as Hn1 by (destruct Hn, Hnk; split; nia).
  assert (buddy_tree_valid (at_node (i * 2 ^ (k - 1))) s = Done true s) as Ev.
  { unfold buddy_tree_valid. cbv [mbind M_bind gets mret M_ret]. rewrite (to_bound _ _ HT).
    cbn [index at_node]. destruct Hn1. rewrite (proj2 (nz_true _)) by lia.
    by rewrite (proj2 (Z.ltb_lt _ _)). }
  rewrite (bind_done _ _ _ _ _ Ev). cbn [negb]. apply IH; [lia|done].
Qed.

Lemma position_eq s A i : buddy_ok s A → A i → in_range s i →
  position_for_address (addr_of s i) s = Done (at_node i) s.
Proof.
  intros Hok Hi Hr. pose proof (bo_tree _ _ Hok) as (st & HT & Hc & HA).
  pose proof (proj2 (HA i) Hi) as Hal. pose proof Hal as (Hn & _ & _).
  pose proof (bo_order _ _ Hok) as Ho. destruct (log2_node _ i Hn) as [Hl Hb].
  destruct (first_leaf s A i Hok Hn Hr) as [Ef Em].
  destruct (bsz_range _ i Hn Ho) as (B1 & B2 & B3 & _). pose proof (effective_range s A Hok) as ([? ?] & _).
  unfold position_for_address. rewrite (bind_done _ _ _ _ _ (buddy_main_eq s A Hok)).
  assert (u64 (addr_of s i - arena_main s) = boff (order s) i) as ->.
  { unfold addr_of. rewrite wrap_small by lia. lia. }
  rewrite (bind_done (gets alignment) _ s _ s eq_refl), (bo_align _ _ Hok), Em.
  cbn [nz Z.eqb negb]. rewrite (bind_done _ _ _ _ _ Ef).
  rewrite (bind_done _ _ s (Some (at_node i)) s).
  - rewrite (bind_done _ _ _ _ _ (address_eq s A i Hok Hn Hr)). by rewrite Z.eqb_refl.
  - apply (tracking_spec s st i HT Hc Hal); [unfold chain_fuel; lia|].
    assert (2 ^ order s = 2 ^ (Z.log2 i + 1) * 2 ^ (order s - 1 - Z.log2 i)) as E.
    { rewrite <-Z.pow_add_r by lia. f_equal. lia. }
    pose proof (Z.pow_pos_nonneg 2 (order s - 1 - Z.log2 i) ltac:(lia) ltac:(lia)).
    rewrite Z.pow_add_r in E by lia. change (2 ^ 1) with 2 in E. split; nia.
Qed.

(** Removing a block of the arena does not unmask anything. *)
Lemma buddy_ok_release s m A i :
  buddy_ok s A → node (order s) i → in_range s i → holds (s <| tbytes := m |>) (λ r, A r ∧ r ≠ i) →
  buddy_ok (s <| tbytes := m |>) (λ r, A r ∧ r ≠ i).
Proof.
  intros Hok Hi Hr Hh. apply (buddy_ok_mono s m A); [done|done|].
  intros l Hl El Hm (q & Hq & Ha). exists q. split; [|done]. split; [done|]. intros ->.
  pose proof (bo_order _ _ Hok) as Ho. destruct (bsz_range _ i Hi Ho) as (_ & _ & _ & E1 & E2).
  unfold in_range in Hr. apply anc_eq in Ha as (_ & Hle & Ed); [|by destruct Hl]. rewrite El in Ed, Hle.
  set (k := order s - 1 - Z.log2 i) in *. pose proof (Z.pow_pos_nonneg 2 k ltac:(lia) ltac:(lia)).
  assert (l < (i + 1) * 2 ^ k).
  { pose proof (Z.mod_pos_bound l (2 ^ k) ltac:(lia)).
    pose proof (Z.div_mod l (2 ^ k) ltac:(lia)) as Edm. rewrite Ed in Edm. nia. }
  nia.
Qed.

Lemma in_arena_eq s A i : buddy_ok s A → node (order s) i → in_range s i →
  in_arena (addr_of s i) s = Done true s ∧ addr_of s i ≠ 0.
Proof.
  intros Hok Hi Hr. pose proof (bo_main _ _ Hok). pose proof (bo_order _ _ Hok).
  destruct (bsz_range _ i Hi ltac:(lia)) as (? & ? & _). destruct (bo_size _ _ Hok).
  unfold in_range, addr_of in *. split; [|lia]. unfold in_arena.
  rewrite (bind_done _ _ _ _ _ (buddy_main_eq s A Hok)).
  rewrite (bind_done (gets memory_size) _ s _ s eq_refl). rewrite wrap_small by lia.
  rewrite (proj2 (Z.ltb_ge _ _)), (proj2 (Z.leb_gt _ _)) by lia. done.
Qed.

Lemma buddy_free_post s A i :
  buddy_ok s A → A i → in_range s i →
  wp (buddy_free (addr_of s i))
    (λ _ s', (∃ m, s' = s <| tbytes := m |>) ∧ buddy_ok s' (λ r, A r ∧ r ≠ i)) s.
Proof.
  intros Hok Hi Hr. pose proof (bo_tree _ _ Hok) as (st & HT & Hc & HA).
  pose proof (proj2 (HA i) Hi) as (Hn & _ & _).
  destruct (in_arena_eq s A i Hok Hn Hr) as [Ea Hne].
  unfold buddy_free. rewrite (proj2 (Z.eqb_neq _ _)) by done.
  apply wp_bind. eapply wp_of_eq; [exact Ea|]. cbn [negb].
  apply wp_bind. eapply wp_of_eq; [by eapply position_eq|].
  apply wp_bind. eapply wp_of_eq; [by eapply valid_eq|]. cbn [negb].
  apply wp_bind. eapply wp_mono; [apply (release_spec s A i); [apply Hok|done]|].
  intros r s' (_ & (m & ->) & Hh). apply wp_ret. split; [by exists m|]. by apply buddy_ok_release.
Qed.

(** [buddy_safe_free] releases only when the size fits the block. *)
Lemma buddy_safe_free_post s A i size :
  buddy_ok s A → A i → in_range s i →
  wp (buddy_safe_free (addr_of s i) size)
    (λ r s', if decide (bsz (order s) i `div` 2 < Z.max size 64 ≤ bsz (order s) i)
       then r = BUDDY_SAFE_FREE_SUCCESS ∧ buddy_ok s' (λ r, A r ∧ r ≠ i)
       else r = BUDDY_SAFE_FREE_SIZE_MISMATCH ∧ s' = s) s.
Proof.
  intros Hok Hi Hr. pose proof (bo_tree _ _ Hok) as (st & HT & Hc & HA).
  pose proof (proj2 (HA i) Hi) as (Hn & _ & _).
  destruct (in_arena_eq s A i Hok Hn Hr) as [Ea Hne].
  unfold buddy_safe_free. rewrite (proj2 (Z.eqb_neq _ _)) by done.
  apply wp_bind. eapply wp_of_eq; [exact Ea|]. cbn [negb].
  apply wp_bind. eapply wp_of_eq; [by eapply position_eq|].
  apply wp_bind. eapply wp_of_eq; [by eapply valid_eq|]. cbn [negb].
  apply wp_bind. eapply wp_of_eq; [by eapply (size_for_depth_eq s A i)|].
  apply wp_bind, wp_gets. rewrite (bo_align _ _ Hok).
  assert ((if size <? 64 then 64 else size) = Z.max size 64) as -> by (destruct (Z.ltb_spec size 64); lia).
  destruct (Z.ltb_spec (bsz (order s) i) (Z.max size 64)).
  { apply wp_ret. by rewrite decide_False by lia. }
  destruct (Z.leb_spec (Z.max size 64) (bsz (order s) i `div` 2)).
  { apply wp_ret. by rewrite decide_False by lia. }
  apply wp_bind. eapply wp_mono; [apply (release_spec s A i); [apply Hok|done]|].
  intros r s' (-> & (m & ->) & Hh). apply wp_ret. rewrite decide_True by lia. split; [done|].
  by apply buddy_ok_release.
Qed.

(** ** Masking the addresses beyond the arena *)

(** The end of the block of a leaf. *)
Definition leaf_end (o l : Z) : Z := 64 * (l - 2 ^ (o - 1) + 1).
Definition leaf (o l : Z) : Prop := node o l ∧ Z.log2 l = o - 1.

Lemma leaf_block o p l : 1 ≤ o ≤ 58 → node o p → leaf o l →
  anc p l ↔ boff o p < leaf_end o l ≤ boff o p + bsz o p.
Proof.
  intros Ho Hp [Hl El]. destruct (bsz_range o p Hp Ho) as (_ & _ & _ & E1 & E2).
  destruct (log2_node o p Hp) as [Lp _]. rewrite anc_eq, El by (by destruct Hl).
  set (k := o - 1 - Z.log2 p) in *. pose proof (Z.pow_pos_nonneg 2 k ltac:(lia) ltac:(lia)) as Hk.
  unfold leaf_end. rewrite E1, E2. pose proof (Z.div_mod l (2 ^ k) ltac:(lia)) as Ed.
  pose proof (Z.mod_pos_bound l (2 ^ k) ltac:(lia)) as Hm. split.
  - intros (_ & _ & Eq). rewrite Eq in Ed. lia.
  - intros Hr. split_and!; [by destruct Hp|lia|]. symmetry.
    apply (Z.div_unique _ _ _ (l - p * 2 ^ k)); lia.
Qed.

Lemma child_block o p : 1 ≤ o ≤ 58 → inner o p →
  bsz o (2 * p) = bsz o p `div` 2 ∧ bsz o (2 * p + 1) = bsz o p `div` 2 ∧
  2 * (bsz o p `div` 2) = bsz o p ∧
  boff o (2 * p) = boff o p ∧ boff o (2 * p + 1) = boff o p + bsz o p `div` 2.
Proof.
  intros Ho Hin. destruct (inner_node o p Hin) as (Hp & Hl & Hr).
  destruct (node_child o p 0 ltac:(by destruct Hp) ltac:(lia)) as [E0 _].
  destruct (node_child o p 1 ltac:(by destruct Hp) ltac:(lia)) as [E1 _]. rewrite Z.add_0_r in E0.
  destruct (log2_node o p Hp) as [Lp _].
  assert (bsz o p = 2 * 2 ^ (o + 4 - Z.log2 p)) as Es.
  { unfold bsz. rewrite <-Z.pow_succ_r by lia. f_equal. lia. }
  assert (bsz o p `div` 2 = 2 ^ (o + 4 - Z.log2 p)) as ->.
  { rewrite Es, Z.mul_comm. by apply Z.div_mul. }
  assert (2 ^ (Z.log2 p + 1) = 2 * 2 ^ Z.log2 p) as E2 by (rewrite <-Z.pow_succ_r by lia; f_equal; lia).
  unfold boff. rewrite Es. unfold bsz. rewrite E0, E1, E2.
  replace (o + 5 - (Z.log2 p + 1)) with (o + 4 - Z.log2 p) by lia. split_and!; lia.
Qed.

(** The children of a free node are free, and stay so when the sibling is
    marked. *)
Lemma free_child o A p b b' : inner o p → free_in o A p → 0 ≤ b < 2 → 0 ≤ b' < 2 → b ≠ b' →
  free_in o A (2 * p + b) ∧ free_in o (λ r, A r ∨ r = 2 * p + b) (2 * p + b').
Proof.
  intros Hin [Hp Hf] Hb Hb' Hne. destruct (inner_node o p Hin) as (_ & Hl & Hr).
  assert (∀ c, 0 ≤ c < 2 → free_in o A (2 * p + c)) as H.
  { intros c Hc. assert (node o (2 * p + c)) as Hn by (unfold node in *; lia). split; [done|].
    assert (sanc p (2 * p + c)) as Hs.
    { apply sanc_cases; [destruct Hp; lia|]. left. Z.div_mod_to_equations; lia. }
    intros q Hq. destruct (Hf q Hq) as [H1 H2]. split.
    - intros Ha. apply anc_cases in Ha as [->|Ha]; [| |destruct Hp; lia].
      + apply H2. apply anc_cases; [destruct Hp; lia|by right].
      + apply sanc_cases in Ha; [|destruct Hp; lia].
        replace ((2 * p + c) `div` 2) with p in Ha by (Z.div_mod_to_equations; lia).
        apply H1, anc_cases; [by destruct Hp|done].
    - intros Ha. apply H2. destruct (decide (1 ≤ q)) as [Hq1|]; [|destruct Ha as (? & k & Hk & E)].
      + apply anc_trans with (2 * p + c); [done| |done]. apply anc_cases; [destruct Hp; lia|by right].
      + exfalso. pose proof (Z.pow_pos_nonneg 2 k).
        assert (q `div` 2 ^ k ≤ 0) by (apply Z.div_le_upper_bound; lia). destruct Hp; lia. }
  split; [by apply H|]. destruct (H b' Hb') as [Hn Hf']. split; [done|].
  intros q [Hq| ->]; [by apply Hf'|].
  assert (∀ x y, 0 ≤ x < 2 → 0 ≤ y < 2 → x ≠ y → ¬ anc (2 * p + x) (2 * p + y)) as Hno.
  { intros x y Hx Hy Hxy Ha. apply anc_cases in Ha as [|Ha]; [lia| |destruct Hp; lia].
    destruct (sanc_lt _ _ Ha). destruct Hp. lia. }
  auto.
Qed.

(** Masking [\[from, end)] of the block of [p] with the blocks [B]. *)
Definition masks (o p from : Z) (B : Z → Prop) : Prop :=
  (∀ q, B q → from ≤ boff o q) ∧
  (∀ l, leaf o l → anc p l → from < leaf_end o l → ∃ q, B q ∧ anc q l).

Lemma leaf_child o p l : 1 ≤ o ≤ 58 → inner o p → leaf o l → anc p l →
  (leaf_end o l ≤ boff o p + bsz o p `div` 2 ∧ anc (2 * p) l) ∨
  (boff o p + bsz o p `div` 2 < leaf_end o l ∧ anc (2 * p + 1) l).
Proof.
  intros Ho Hin Hl Ha. destruct (inner_node o p Hin) as (Hp & H0 & H1).
  destruct (child_block o p Ho Hin) as (E1 & E2 & E3 & E4 & E5).
  apply (leaf_block o p l Ho Hp Hl) in Ha. rewrite !leaf_block, E1, E2, E4, E5 by done. lia.
Qed.

Lemma masks_right o p from B : 1 ≤ o ≤ 58 → inner o p →
  boff o p + bsz o p `div` 2 ≤ from → masks o (2 * p + 1) from B → masks o p from B.
Proof.
  intros Ho Hin Hfr [H1 H2]. split; [done|]. intros l Hl Ha Hlt.
  destruct (leaf_child o p l Ho Hin Hl Ha) as [[? _]|[_ ?]]; [lia|by apply H2].
Qed.

Lemma masks_left o p from B : 1 ≤ o ≤ 58 → inner o p →
  from ≤ boff o p + bsz o p `div` 2 → masks o (2 * p) from B →
  masks o p from (λ r, r = 2 * p + 1 ∨ B r).
Proof.
  intros Ho Hin Hfr [H1 H2]. destruct (child_block o p Ho Hin) as (_ & _ & _ & _ & E5). split.
  - intros q [->|Hq]; [lia|by apply H1].
  - intros l Hl Ha Hlt. destruct (leaf_child o p l Ho Hin Hl Ha) as [[_ Hal]|[_ Har]].
    + destruct (H2 l Hl Hal Hlt) as (q & ? & ?). exists q. naive_solver.
    + exists (2 * p + 1). naive_solver.
Qed.

Lemma toggle_virtual_spec fuel : ∀ s A p delta,
  1 ≤ memory_size s ≤ 2 ^ 63 → Z.log2_up (memory_size s) = order s + 5 →
  1 ≤ order s ≤ 58 → holds s A → free_in (order s) A p → order s - Z.log2 p ≤ Z.of_nat fuel →
  0 < delta ≤ bsz (order s) p → delta `mod` 64 = 0 →
  wp (toggle_virtual_from fuel true (at_node p) delta)
    (λ _ s', (∃ m, s' = s <| tbytes := m |>) ∧ ∃ B, holds s' (λ r, A r ∨ B r) ∧
       masks (order s) p (boff (order s) p + bsz (order s) p - delta) B) s.
Proof.
  induction fuel as [|fuel IH]; intros s A p delta Hm1 Hm Ho Hh Hf Hfuel Hd Hd64;
    pose proof Hf as [Hp _]; destruct (log2_node _ p Hp) as [Lp Bp]; cbn [toggle_virtual_from];
    rewrite (proj2 (Z.eqb_neq delta 0)) by lia; [lia|].
  change (buddy_tree_depth (at_node p)) with (Z.log2 p + 1).
  assert (size_for_depth (Z.log2 p + 1) s = Done (bsz (order s) p) s) as Es.
  { unfold size_for_depth. rewrite (bind_done (gets memory_size) _ s _ s eq_refl).
    rewrite ceiling_power_of_two_eq, Hm, (wrap_small 64) by lia.
    replace (Z.log2 p + 1 - 1) with (Z.log2 p) by lia.
    rewrite Z.shiftr_div_pow2, <-Z.pow_sub_r by lia. done. }
  apply wp_bind. eapply wp_of_eq; [exact Es|].
  destruct (bsz_range _ p Hp Ho) as (B1 & B2 & B3 & B4 & B5).
  destruct (Z.eqb_spec delta (bsz (order s) p)) as [->|Hne].
  { eapply wp_mono; [by apply (mark_spec s A p)|]. intros [] s' (Hmm & Hh').
    split; [done|]. exists (λ r, r = p). split; [done|]. split; [intros q ->; lia|].
    intros l Hl Ha _. by exists p. }
  assert (inner (order s) p) as Hin.
  { split; [lia|]. assert (Z.log2 p ≠ order s - 1) as Hlp.
    { intros E. rewrite E, Z.sub_diag, Z.pow_0_r in B4. Z.div_mod_to_equations. lia. }
    assert (2 ^ (Z.log2 p + 2) ≤ 2 ^ order s) as H2 by (apply Z.pow_le_mono_r; lia).
    rewrite Z.pow_add_r in H2 by lia. change (2 ^ 2) with 4 in H2. lia. }
  destruct (children_at (order s) p Hin ltac:(lia)) as (-> & -> & _).
  destruct (child_block _ p Ho Hin) as (E1 & E2 & E3 & E4 & E5).
  destruct (node_child (order s) p 0 ltac:(lia) ltac:(lia)) as [L0 _].
  destruct (node_child (order s) p 1 ltac:(lia) ltac:(lia)) as [L1 _].
  destruct (free_child _ A p 1 0 Hin Hf ltac:(lia) ltac:(lia) ltac:(lia)) as [Hf1 Hf0].
  rewrite Z.add_0_r in L0, Hf0. destruct (Z.leb_spec delta (bsz (order s) p `div` 2)).
  - eapply wp_mono; [apply (IH s A (2 * p + 1)); try done; lia|].
    intros [] s' (Hmm & B & Hh' & HB). split; [done|]. exists B. split; [done|].
    apply masks_right; [done|done|lia|].
    replace (boff (order s) p + bsz (order s) p - delta) with
      (boff (order s) (2 * p + 1) + bsz (order s) (2 * p + 1) - delta) by lia. done.
  - apply wp_bind. eapply wp_mono; [by apply (mark_spec s A (2 * p + 1))|].
    intros [] s1 ((m1 & Es1) & Hh1).
    assert (order s1 = order s ∧ memory_size s1 = memory_size s) as [Eo Em] by (by subst).
    destruct (inner_node _ p Hin) as (_ & Hl & _).
    destruct (bsz_range _ (2 * p) Hl Ho) as (_ & _ & _ & C4 & _).
    eapply wp_mono; [apply (IH s1 (λ r, A r ∨ r = 2 * p + 1) (2 * p)); rewrite ?Eo, ?Em; try done;
      try lia; Z.div_mod_to_equations; lia|].
    intros [] s' ((m2 & ->) & B & Hh' & HB). rewrite Eo in HB. split; [exists m2; by subst|].
    exists (λ r, r = 2 * p + 1 ∨ B r). split; [eapply holds_ext; [|done]; naive_solver|].
    apply masks_left; [done|done|lia|].
    replace (boff (order s) p + bsz (order s) p - delta) with
      (boff (order s) (2 * p) + bsz (order s) (2 * p) - (delta - bsz (order s) p `div` 2)) by lia. done.
Qed.

(** ** Initialisation *)

Lemma order_for_memory size : 64 ≤ size ≤ 2 ^ 63 → size `mod` 64 = 0 →
  let o := buddy_tree_order_for_memory size 64 in
  Z.log2_up size = o + 5 ∧ 1 ≤ o ≤ 58.
Proof.
  intros Hs Hm o. assert (size = size `div` 64 * 2 ^ 6) as E by (Z.div_mod_to_equations; lia).
  assert (1 ≤ size `div` 64 ≤ 2 ^ 57) as Hb by (Z.div_mod_to_equations; lia).
  assert (Z.log2_up (size `div` 64) ≤ 57) as Hu by (apply Z.log2_up_le_pow2; lia).
  pose proof (Z.log2_up_nonneg (size `div` 64)) as Hn.
  assert (o = Z.log2_up (size `div` 64) + 1) as Eo.
  { unfold o, buddy_tree_order_for_memory. rewrite ceiling_power_of_two_eq by lia.
    rewrite highest_bit_position_eq.
    - unfold bitlen. rewrite decide_False, Z.log2_pow2 by (pose proof (Z.pow_pos_nonneg 2 (Z.log2_up (size `div` 64))); lia).
      done.
    - split; [apply Z.pow_nonneg; lia|]. apply Z.pow_lt_mono_r; lia. }
  rewrite E at 1. rewrite Z.log2_up_mul_pow2 by lia. lia.
Qed.

Lemma toggle_all s :
  1 ≤ memory_size s ≤ 2 ^ 63 → memory_size s `mod` 64 = 0 →
  Z.log2_up (memory_size s) = order s + 5 → 1 ≤ order s ≤ 58 → holds s (λ _, False) →
  wp (buddy_toggle_virtual_slots true)
    (λ _ s', (∃ m, s' = s <| tbytes := m |>) ∧ ∃ A, holds s' A ∧ masks (order s) 1 (memory_size s) A) s.
Proof.
  intros Hm1 Hm64 Hm Ho Hh. set (o := order s) in *.
  pose proof (Z.log2_up_spec (memory_size s)) as Hup. rewrite Hm in Hup.
  assert (2 ^ (o + 5) = 64 * 2 ^ (o - 1)) as E64.
  { change 64 with (2 ^ 6). rewrite <-Z.pow_add_r by lia. f_equal. lia. }
  unfold buddy_toggle_virtual_slots. apply wp_bind, wp_gets, wp_bind.
  eapply wp_of_eq; [by cbv [buddy_effective_memory_size mbind M_bind gets mret M_ret]|].
  rewrite ceiling_power_of_two_eq, Hm by lia. destruct (Z.eqb_spec (2 ^ (o + 5)) (memory_size s)) as [E|Hne].
  { apply wp_ret. split; [exists (tbytes s); by destruct s|]. exists (λ _, False). split; [done|].
    split; [done|]. intros l [[_ Hl] _] _ Hlt. unfold leaf_end in Hlt.
    assert (2 ^ o = 2 * 2 ^ (o - 1)) by (rewrite <-Z.pow_succ_r by lia; f_equal; lia). lia. }
  assert (1 < memory_size s).
  { destruct (decide (memory_size s = 1)) as [E|]; [rewrite E in Hm64; done|lia]. }
  specialize (Hup ltac:(lia)).
  assert (2 ^ (o + 5) = 2 * 2 ^ (o + 4)) as E4 by (rewrite <-Z.pow_succ_r by lia; f_equal; lia).
  replace (Z.pred (o + 5)) with (o + 4) in Hup by lia.
  assert (2 ≤ o) as Ho2.
  { destruct (decide (o = 1)) as [E|]; [|lia]. rewrite E in *.
    change (2 ^ (1 + 5)) with 64 in *. change (2 ^ (1 + 4)) with 32 in *. Z.div_mod_to_equations. lia. }
  assert (inner o 1) as Hin.
  { split; [lia|]. assert (2 ^ 2 ≤ 2 ^ o) by (apply Z.pow_le_mono_r; lia). lia. }
  destruct (inner_node o 1 Hin) as (H1 & _ & H3).
  destruct (children_at o 1 Hin ltac:(lia)) as (_ & Er & _). change (at_node 1) with buddy_tree_root in Er.
  rewrite Er. change (2 * 1 + 1) with 3 in *.
  destruct (child_block o 1 Ho Hin) as (_ & C2 & C3 & _ & C5).
  assert (bsz o 1 = 2 ^ (o + 5) ∧ boff o 1 = 0) as [S1 S0].
  { unfold boff, bsz. change (Z.log2 1) with 0. rewrite Z.sub_0_r. change (2 ^ 0) with 1. lia. }
  change (2 * 1 + 1) with 3 in *.
  eapply wp_mono; [apply (toggle_virtual_spec chain_fuel s (λ _, False) 3); try done; fold o; try lia|].
  - unfold chain_fuel. change (Z.log2 3) with 1. lia.
  - rewrite E64. rewrite Zminus_mod, Hm64, Z.mul_comm, Z.mod_mul by done. done.
  - intros [] s' (Hmm & B & Hh' & HB). split; [done|]. exists B.
    split; [eapply holds_ext; [|done]; naive_solver|].
    fold o in HB. replace (boff o 3 + bsz o 3 - (2 ^ (o + 5) - memory_size s)) with (memory_size s) in HB by lia.
    apply masks_right; [done|done|lia|done].
Qed.

(** The allocator of an arena of [size] bytes at [main]. *)
Lemma buddy_init_post s at_ main size :
  at_ ≠ 0 → at_ ≠ main → at_ `mod` 8 = 0 → main `mod` 8 = 0 →
  0 < main → 64 ≤ size ≤ 2 ^ 63 → main + size < 2 ^ 64 →
  wp (buddy_init at_ main size)
    (λ p s', p = at_ ∧ arena_main s' = main ∧ memory_size s' = size - size `mod` 64 ∧
       ∃ A, buddy_ok s' A ∧ ∀ q, A q → memory_size s' ≤ boff (order s') q) s.
Proof.
  intros Hat Hne Hat8 Hm8 Hmain Hs Hend. unfold buddy_init, buddy_init_alignment, BUDDY_ALLOC_ALIGN.
  rewrite (proj2 (Z.eqb_neq at_ 0)), (proj2 (Z.eqb_neq main 0)), (proj2 (Z.eqb_neq at_ main)) by lia.
  change (is_valid_alignment 64) with true. rewrite Hat8, Hm8. cbn [negb nz Z.eqb].
  assert ((if nz (size `mod` 64) then size - size `mod` 64 else size) = size - size `mod` 64) as ->.
  { unfold nz. destruct (Z.eqb_spec (size `mod` 64) 0) as [E|]; cbn [negb]; [rewrite E; lia|done]. }
  set (sz := size - size `mod` 64).
  assert (64 ≤ sz ≤ 2 ^ 63 ∧ sz `mod` 64 = 0 ∧ sz ≤ size) as (Hsz & Hsz64 & Hle)
    by (unfold sz; Z.div_mod_to_equations; lia).
  destruct (order_for_memory sz Hsz Hsz64) as [El Ho].
  set (o := buddy_tree_order_for_memory sz 64) in *.
  assert (buddy_sizeof_alignment sz 64 ≠ 0) as Hso.
  { unfold buddy_sizeof_alignment. change (is_valid_alignment 64) with true. cbn [negb].
    rewrite (proj2 (Z.ltb_ge _ _)) by lia. fold o. rewrite wrap_small by (change (2 ^ 8) with 256; lia).
    destruct (layout o ltac:(lia)) as (? & _ & ? & ?). lia. }
  rewrite (proj2 (Z.eqb_neq _ _)) by done. rewrite wrap_small by (change (2 ^ 8) with 256; lia).
  apply wp_bind, wp_modify. apply wp_bind. eapply wp_mono; [by apply tree_init_spec|].
  intros [] s1 ((m & off & u & Es1) & Hh).
  assert (order s1 = o ∧ memory_size s1 = sz ∧ arena_main s1 = main ∧ alignment s1 = 64 ∧ buddy_flags s1 = 0)
    as (Eo & Esz & Ema & Eal & Efl) by (by subst s1).
  clear Es1. apply wp_bind. eapply wp_mono; [apply toggle_all; rewrite ?Eo, ?Esz; done || lia|].
  intros [] s2 ((m2 & ->) & A & Hh2 & [HA1 HA2]). apply wp_ret. rewrite Eo, Esz in *.
  split_and!; [done|done|done|]. exists A. split; [|intros q Hq; cbn; rewrite Eo, Esz; by apply HA1].
  split; cbn; rewrite ?Eo, ?Esz, ?Ema; try done; try lia.
  intros l Hl El' Hlt. apply HA2; [done| |done].
  destruct (log2_node o l Hl) as [Hlog Hb].
  apply anc_eq; [by destruct Hl|]. change (Z.log2 1) with 0. split_and!; [done|lia|].
  symmetry. rewrite Z.sub_0_r. apply (Z.div_unique _ _ _ (l - 2 ^ Z.log2 l)); lia.
Qed.

(** ** The allocator as a set of blocks *)

(** C16: [buddy_malloc] returns the start of a free block of the smallest power
    of two that holds the request, inside the arena, and from then on that
    block is allocated; it returns [NULL], changing nothing, only when the
    request is larger than the arena or no block of that size is free. *)
Theorem buddy_malloc_correct s A size :
  buddy_ok s A → 1 ≤ size →
  wp (buddy_malloc size)
    (λ p s', (p = 0 ∧ s' = s ∧
        (memory_size s < size ∨ ∀ q, bsz (order s) q = 2 ^ fit size → ¬ free_in (order s) A q)) ∨
      (∃ q m, p = addr_of s q ∧ free_in (order s) A q ∧ bsz (order s) q = 2 ^ fit size ∧ in_range s q ∧
        s' = s <| tbytes := m |> ∧ buddy_ok s' (λ r, A r ∨ r = q))) s.
Proof. apply buddy_malloc_post. Qed.

(** C17: [buddy_free] on the start of an allocated block releases exactly that
    block, whatever its size; [buddy_safe_free] does the same when the given
    size belongs to the block and otherwise changes nothing. *)
Theorem buddy_free_correct s A i size :
  buddy_ok s A → A i → in_range s i →
  wp (buddy_free (addr_of s i))
    (λ _ s', (∃ m, s' = s <| tbytes := m |>) ∧ buddy_ok s' (λ r, A r ∧ r ≠ i)) s ∧
  wp (buddy_safe_free (addr_of s i) size)
    (λ r s', if decide (bsz (order s) i `div` 2 < Z.max size 64 ≤ bsz (order s) i)
       then r = BUDDY_SAFE_FREE_SUCCESS ∧ buddy_ok s' (λ r, A r ∧ r ≠ i)
       else r = BUDDY_SAFE_FREE_SIZE_MISMATCH ∧ s' = s) s.
Proof. intros. split; [by apply buddy_free_post|by apply buddy_safe_free_post]. Qed.

(** [buddy_init] makes an allocator of an arena of any size: every address
    beyond the arena is masked by an allocated block, and no other block is
    allocated. *)
Theorem buddy_init_correct s at_ main size :
  at_ ≠ 0 → at_ ≠ main → at_ `mod` 8 = 0 → main `mod` 8 = 0 →
  0 < main → 64 ≤ size ≤ 2 ^ 63 → main + size < 2 ^ 64 →
  wp (buddy_init at_ main size)
    (λ p s', p = at_ ∧ arena_main s' = main ∧ memory_size s' = size - size `mod` 64 ∧
       ∃ A, buddy_ok s' A ∧ ∀ q, A q → memory_size s' ≤ boff (order s') q) s.
Proof. apply buddy_init_post. Qed.
