(* ===== verification/Bytes.v ===== *)
(** * Bytes

    Sequences of bytes as numbers, least significant byte first ([le]) and most
    significant byte first ([be]), shared by the hash functions, the random
    number generator, the network code and the archive reader. *)

From S2P Require Import Prelude.

Definition byte (b : Z) : Prop := 0 ≤ b < 256.
Abbreviation bytes := (Forall byte).

Fixpoint le_bytes (n : nat) (z : Z) : list Z :=
  match n with O => [] | S n => z `mod` 256 :: le_bytes n (z / 256) end.
Fixpoint le_val (l : list Z) : Z :=
  match l with [] => 0 | b :: l => b + 256 * le_val l end.
Definition be_bytes (n : nat) (z : Z) : list Z := reverse (le_bytes n z).
Definition be_val (l : list Z) : Z := le_val (reverse l).

Lemma byte_u8 z : byte (u8 z).
Proof. apply (wrap_range 8). lia. Qed.

Lemma u8_byte b : byte b → u8 b = b.
Proof. apply (wrap_small 8). Qed.

Lemma length_le_bytes n z : length (le_bytes n z) = n.
Proof. revert z. induction n; naive_solver. Qed.

Lemma length_be_bytes n z : length (be_bytes n z) = n.
Proof. unfold be_bytes. by rewrite length_reverse, length_le_bytes. Qed.

Lemma bytes_le_bytes n z : bytes (le_bytes n z).
Proof.
  revert z. induction n as [|n IH]; intros z; constructor; [|done].
  apply Z.mod_pos_bound. lia.
Qed.

Lemma bytes_be_bytes n z : bytes (be_bytes n z).
Proof. apply Forall_reverse, bytes_le_bytes. Qed.

Lemma pow256_S n : 256 ^ Z.of_nat (S n) = 256 * 256 ^ Z.of_nat n.
Proof. rewrite Nat2Z.inj_succ, Z.pow_succ_r; lia. Qed.

Lemma pow256_pos n : 0 < 256 ^ Z.of_nat n.
Proof. apply Z.pow_pos_nonneg; lia. Qed.

Lemma le_val_range l : bytes l → 0 ≤ le_val l < 256 ^ Z.of_nat (length l).
Proof.
  induction 1 as [|b l [? ?] _ IH]; [by simpl|].
  cbn [le_val length]. rewrite pow256_S. lia.
Qed.

Lemma le_val_bytes n z : le_val (le_bytes n z) = z `mod` 256 ^ Z.of_nat n.
Proof.
  revert z. induction n as [|n IH]; intros z; [by rewrite Z.mod_1_r|].
  cbn [le_bytes le_val]. rewrite IH, pow256_S. pose proof (pow256_pos n).
  rewrite Z.rem_mul_r by lia. done.
Qed.

Lemma le_bytes_val l : bytes l → le_bytes (length l) (le_val l) = l.
Proof.
  induction 1 as [|b l [? ?] _ IH]; [done|]. cbn [le_bytes le_val length].
  rewrite Z.mul_comm, Z_mod_plus_full, Z.mod_small by lia.
  rewrite Z.div_add, Z.div_small by lia. by rewrite Z.add_0_l, IH.
Qed.

Lemma le_bytes_mod n z : le_bytes n (z `mod` 256 ^ Z.of_nat n) = le_bytes n z.
Proof.
  rewrite <-le_val_bytes. rewrite <-(length_le_bytes n z) at 1.
  apply le_bytes_val, bytes_le_bytes.
Qed.

Lemma le_val_app l l' : le_val (l ++ l') = le_val l + 256 ^ Z.of_nat (length l) * le_val l'.
Proof.
  induction l as [|b l IH]; [by rewrite Z.pow_0_r, Z.mul_1_l|].
  cbn [app le_val length]. rewrite IH, pow256_S. lia.
Qed.

Lemma le_val_inj l l' : bytes l → bytes l' → length l = length l' →
  le_val l = le_val l' → l = l'.
Proof. intros Hl Hl' Hlen E. by rewrite <-(le_bytes_val l), <-(le_bytes_val l'), Hlen, E. Qed.

Lemma be_val_app l l' : be_val (l ++ l') = be_val l * 256 ^ Z.of_nat (length l') + be_val l'.
Proof. unfold be_val. rewrite reverse_app, le_val_app, length_reverse. lia. Qed.

Lemma be_val_cons b l : be_val (b :: l) = b * 256 ^ Z.of_nat (length l) + be_val l.
Proof. change (b :: l) with ([b] ++ l). rewrite be_val_app. f_equal. f_equal. unfold be_val. simpl. lia. Qed.

Lemma be_val_snoc l b : be_val (l ++ [b]) = 256 * be_val l + b.
Proof. rewrite be_val_app. unfold be_val at 2. simpl. lia. Qed.

Lemma be_val_range l : bytes l → 0 ≤ be_val l < 256 ^ Z.of_nat (length l).
Proof.
  intros Hl. unfold be_val. rewrite <-length_reverse.
  by apply le_val_range, Forall_reverse.
Qed.

Lemma be_val_bytes n z : be_val (be_bytes n z) = z `mod` 256 ^ Z.of_nat n.
Proof. unfold be_val, be_bytes. by rewrite reverse_involutive, le_val_bytes. Qed.

Lemma be_bytes_val l : bytes l → be_bytes (length l) (be_val l) = l.
Proof.
  intros Hl. unfold be_val, be_bytes. rewrite <-(length_reverse l).
  by rewrite le_bytes_val, reverse_involutive by by apply Forall_reverse.
Qed.

Lemma be_val_inj l l' : bytes l → bytes l' → length l = length l' →
  be_val l = be_val l' → l = l'.
Proof. intros Hl Hl' Hlen E. by rewrite <-(be_bytes_val l), <-(be_bytes_val l'), Hlen, E. Qed.

(** Byte [i] of a number, as the code extracts it with a shift and a cast. *)
Lemma le_bytes_lookup n z i : (i < n)%nat →
  le_bytes n z !! i = Some (u8 (Z.shiftr z (8 * Z.of_nat i))).
Proof.
  revert z i. induction n as [|n IH]; intros z [|i] Hi; [lia|lia| |].
  - simpl. by rewrite Z.shiftr_0_r.
  - cbn [le_bytes lookup list_lookup]. rewrite IH by lia. do 2 f_equal.
    change (z / 256) with (z / 2 ^ 8).
    rewrite <-(Z.shiftr_div_pow2 z 8), Z.shiftr_shiftr by lia. f_equal. lia.
Qed.

(** Bytes put side by side with shifts. *)
Lemma lor_shift a b n : 0 ≤ n → 0 ≤ a < 2 ^ n → Z.lor a (Z.shiftl b n) = a + b * 2 ^ n.
Proof.
  intros Hn Ha. rewrite <-Z.shiftl_mul_pow2 by done. symmetry. apply Z.add_nocarry_lor.
  apply Z.bits_inj'. intros i Hi. rewrite Z.land_spec, Z.bits_0, Z.shiftl_spec by done.
  destruct (decide (i < n)).
  - by rewrite (Z.testbit_neg_r b), andb_false_r by lia.
  - rewrite <-(Z.mod_small a (2 ^ n)) by done. by rewrite Z.mod_pow2_bits_high by lia.
Qed.

(** ** Overwriting a range of an array *)

Definition splice (l : list Z) (i : nat) (s : list Z) : list Z :=
  take i l ++ s ++ drop (i + length s) l.

Lemma length_splice l i s : (i + length s ≤ length l)%nat → length (splice l i s) = length l.
Proof. intros. unfold splice. rewrite !length_app, length_take, length_drop. lia. Qed.

Lemma bytes_splice l i s : bytes l → bytes s → bytes (splice l i s).
Proof.
  intros Hl Hs. unfold splice. repeat apply Forall_app_2; [by apply Forall_take|done|by apply Forall_drop].
Qed.

Lemma splice_nil l i : splice l i [] = l.
Proof. unfold splice. simpl. by rewrite Nat.add_0_r, take_drop. Qed.

Lemma splice_insert l i s b : (i + length s < length l)%nat →
  <[(i + length s)%nat := b]> (splice l i s) = splice l i (s ++ [b]).
Proof.
  intros Hi. unfold splice.
  assert (length (take i l) = i) as Ht by (rewrite length_take; lia).
  rewrite insert_app_r_alt by (rewrite Ht; lia). rewrite Ht.
  rewrite insert_app_r_alt by lia. rewrite <-app_assoc. f_equal. f_equal.
  replace (i + length s - i - length s)%nat with O by lia.
  destruct (lookup_lt_is_Some_2 l (i + length s) Hi) as [x Hx].
  rewrite (drop_S _ _ _ Hx), length_app. cbn [length app]. simpl. do 2 f_equal. lia.
Qed.

Lemma splice_full l s : length s = length l → splice l 0 s = s.
Proof. intros E. unfold splice. simpl. by rewrite E, drop_all, app_nil_r. Qed.

(** ** Words of 32 bits *)

Definition word (x : Z) : Prop := 0 ≤ x < 2 ^ 32.

(** The word with the bits [f]. *)
Definition bits32 (f : Z → bool) : Z := foldr (λ i a, Z.b2z (f i) + 2 * a) 0 (seqZ 0 32).

Lemma bits32_bit f i : 0 ≤ i → Z.testbit (bits32 f) i = (i <? 32) && f i.
Proof.
  intros Hi. unfold bits32.
  assert (∀ n k i, 0 ≤ i →
    Z.testbit (foldr (λ i a, Z.b2z (f i) + 2 * a) 0 (seqZ k (Z.of_nat n))) i
    = (i <? Z.of_nat n) && f (k + i)) as H.
  { clear i Hi. induction n as [|n IH]; intros k i Hi.
    - rewrite Z.bits_0. by destruct (Z.ltb_spec i (Z.of_nat 0)); [lia|].
    - rewrite seqZ_cons by lia. cbn [foldr]. replace (Z.pred (Z.of_nat (S n))) with (Z.of_nat n) by lia.
      destruct (decide (i = 0)) as [->|].
      + rewrite Z.add_0_r. rewrite Z.add_comm, Z.testbit_0_r. by destruct (f k).
      + rewrite Z.add_comm. replace i with (Z.succ (i - 1)) at 1 by lia.
        rewrite Z.testbit_succ_r, IH by lia. f_equal; [|f_equal; lia].
        apply eq_true_iff_eq. rewrite !Z.ltb_lt. lia. }
  rewrite (H 32%nat 0) by done. done.
Qed.


Lemma word_u32 x : word (u32 x).
Proof. apply (wrap_range 32). lia. Qed.

Lemma word_high x i : word x → 32 ≤ i → Z.testbit x i = false.
Proof.
  intros Hx Hi. rewrite <-(Z.mod_small x (2 ^ 32)) by done. apply Z.mod_pow2_bits_high. lia.
Qed.

Lemma word_low x : (∀ i, 32 ≤ i → Z.testbit x i = false) → word x.
Proof.
  intros H. replace x with (x `mod` 2 ^ 32); [apply word_u32|].
  apply Z.bits_inj'. intros i Hi. rewrite Z.testbit_mod_pow2 by lia.
  destruct (Z.ltb_spec i 32); [done|]. by rewrite H.
Qed.

Lemma word_eq x y : word x → word y → (∀ i, 0 ≤ i < 32 → Z.testbit x i = Z.testbit y i) → x = y.
Proof.
  intros Hx Hy H. apply Z.bits_inj'. intros i Hi. destruct (decide (i < 32)); [by apply H|].
  by rewrite !word_high by (done || lia).
Qed.

Lemma word_bits32 f : word (bits32 f).
Proof. apply word_low. intros i Hi. rewrite bits32_bit by lia. by destruct (Z.ltb_spec i 32); [lia|]. Qed.

Lemma word_land x y : word x → word (Z.land x y).
Proof. intros Hx. apply word_low. intros i Hi. by rewrite Z.land_spec, word_high. Qed.
Lemma word_lor x y : word x → word y → word (Z.lor x y).
Proof. intros Hx Hy. apply word_low. intros i Hi. by rewrite Z.lor_spec, !word_high. Qed.
Lemma word_lxor x y : word x → word y → word (Z.lxor x y).
Proof. intros Hx Hy. apply word_low. intros i Hi. by rewrite Z.lxor_spec, !word_high. Qed.
Lemma word_shiftr x n : 0 ≤ n → word x → word (Z.shiftr x n).
Proof.
  intros Hn Hx. apply word_low. intros i Hi. rewrite Z.shiftr_spec by lia. apply word_high; [done|lia].
Qed.

Lemma u32_lnot_bit x i : 0 ≤ i < 32 → Z.testbit (u32 (Z.lnot x)) i = negb (Z.testbit x i).
Proof. intros Hi. unfold wrap. by rewrite Z.mod_pow2_bits_low, Z.lnot_spec by lia. Qed.

Create HintDb word.
#[export] Hint Resolve word_u32 word_bits32 word_land word_lor word_lxor : word.

(** A rotation as the code writes it. *)
Lemma rotate_right x n : word x → 0 < n < 32 →
  Z.lor (Z.shiftr x n) (u32 (Z.shiftl x (32 - n))) = x / 2 ^ n + x `mod` 2 ^ n * 2 ^ (32 - n).
Proof.
  intros Hx Hn. unfold wrap. rewrite <-Z.add_nocarry_lor.
  - rewrite Z.shiftr_div_pow2, Z.shiftl_mul_pow2 by lia. f_equal.
    replace (2 ^ 32) with (2 ^ n * 2 ^ (32 - n)) by (rewrite <-Z.pow_add_r by lia; f_equal; lia).
    rewrite Z.mul_mod_distr_r; [done|apply Z.pow_nonzero; lia..].
  - apply Z.bits_inj'. intros i Hi. rewrite Z.land_spec, Z.bits_0.
    rewrite Z.shiftr_spec, Z.testbit_mod_pow2, Z.shiftl_spec by lia.
    destruct (decide (32 ≤ i + n)); [by rewrite word_high by (done || lia)|].
    rewrite (Z.testbit_neg_r x (i - (32 - n))) by lia. by rewrite !andb_false_r.
Qed.
