(* ===== verification/Mem.v ===== *)
(** * Physical memory

    Models [include/page.h] and [mm/pmm.c].  Memory is a map from the
    addresses of 8-byte words to their values, by the virtual address at which
    the kernel reaches them: physical memory through the higher-half direct
    map (physical address plus [hhdm]), kernel heap pages at their heap
    address.  The buddy allocator is used through the interface [Buddy], which
    the allocator of [Buddy.v] implements. *)

From S2P Require Import Prelude.

(** ** [page.h] *)

Definition PAGE_SIZE : Z := 4096.
Definition PTE_PRESENT : Z := 1.
Definition PTE_WRITABLE : Z := 2.
Definition PTE_USER : Z := 4.
Definition PTE_CACHE_DISABLE : Z := 16.
Definition PTE_HUGE : Z := 128.
Definition PTE_NX : Z := 2 ^ 63.
(** [x & ~0xFFF], [x & 0xFFF], [x & bit]. *)
Definition page_of (x : Z) : Z := Z.land x (Z.lnot 4095).
Definition low12 (x : Z) : Z := Z.land x 4095.
Definition has (x bit : Z) : bool := nz (Z.land x bit).
Definition PAGE_ALIGN_DOWN (x : Z) : Z := page_of x.
Definition PAGE_ALIGN_UP (x : Z) : Z := page_of (u64 (x + 4095)).
Definition PML4_IDX (v : Z) : Z := Z.land (Z.shiftr v 39) 511.
Definition PDP_IDX (v : Z) : Z := Z.land (Z.shiftr v 30) 511.
Definition PD_IDX (v : Z) : Z := Z.land (Z.shiftr v 21) 511.
Definition PT_IDX (v : Z) : Z := Z.land (Z.shiftr v 12) 511.

(** *** Arithmetic of addresses and flags *)

Lemma low12_mod x : low12 x = x `mod` 4096.
Proof. unfold low12. change 4095 with (Z.ones 12). by rewrite Z.land_ones. Qed.

Lemma page_of_sub x : page_of x = x - x `mod` 4096.
Proof. unfold page_of. by rewrite <-Z.sub_land_same_l, <-low12_mod. Qed.

Lemma page_of_aligned x : page_of x `mod` 4096 = 0.
Proof.
  rewrite page_of_sub. rewrite Zminus_mod, Zmod_mod, Z.sub_diag. done.
Qed.

Lemma page_of_le x : page_of x ≤ x < page_of x + 4096.
Proof. rewrite page_of_sub. pose proof (Z.mod_pos_bound x 4096). lia. Qed.

Lemma page_of_id x : x `mod` 4096 = 0 → page_of x = x.
Proof. intros E. rewrite page_of_sub, E. lia. Qed.

Lemma land_aligned p f : p `mod` 4096 = 0 → 0 ≤ f < 4096 → Z.land p f = 0.
Proof.
  intros Hp Hf. apply Z.bits_inj'. intros n Hn. rewrite Z.land_spec, Z.bits_0.
  destruct (decide (n < 12)).
  - replace (Z.testbit p n) with (Z.testbit (p `mod` 2 ^ 12) n)
      by (rewrite Z.mod_pow2_bits_low by lia; done).
    change (2 ^ 12) with 4096. rewrite Hp, Z.bits_0. done.
  - rewrite (Z.bits_above_log2 f n), andb_false_r; [done|lia|].
    destruct (decide (f = 0)) as [->|]; [simpl; lia|].
    apply (Z.lt_le_trans _ 12); [|lia]. apply Z.log2_lt_pow2; lia.
Qed.

(** An entry made of an aligned address and flags. *)
Lemma entry_add p f : p `mod` 4096 = 0 → 0 ≤ f < 4096 → Z.lor p f = p + f.
Proof. intros. symmetry. apply Z.add_nocarry_lor, land_aligned; done. Qed.

Lemma page_of_entry p f : p `mod` 4096 = 0 → 0 ≤ f < 4096 → page_of (Z.lor p f) = p.
Proof.
  intros Hp Hf. rewrite entry_add, page_of_sub by done.
  rewrite Zplus_mod, Hp, Z.add_0_l, Zmod_mod, Z.mod_small by done. lia.
Qed.

Lemma low12_entry p f : p `mod` 4096 = 0 → 0 ≤ f < 4096 → low12 (Z.lor p f) = f.
Proof.
  intros Hp Hf. rewrite entry_add, low12_mod by done.
  rewrite Zplus_mod, Hp, Z.add_0_l, Zmod_mod, Z.mod_small by done. done.
Qed.

Lemma has_low12 e b : 0 ≤ b < 4096 → has (low12 e) b = has e b.
Proof.
  intros Hb. unfold has, low12. f_equal. rewrite <-Z.land_assoc. f_equal.
  rewrite Z.land_comm. change 4095 with (Z.ones 12). rewrite Z.land_ones by done.
  apply Z.mod_small. lia.
Qed.

Lemma has_lor x y b : has (Z.lor x y) b = has x b || has y b.
Proof.
  unfold has, nz. rewrite Z.land_lor_distr_l.
  destruct (Z.eqb_spec (Z.land x b) 0) as [->|Hx]; [by rewrite Z.lor_0_l|].
  simpl. destruct (Z.eqb_spec (Z.lor (Z.land x b) (Z.land y b)) 0) as [E|]; [|done].
  apply Z.lor_eq_0_iff in E. naive_solver.
Qed.

Lemma has_entry p f b :
  p `mod` 4096 = 0 → 0 ≤ f < 4096 → 0 ≤ b < 4096 → has (Z.lor p f) b = has f b.
Proof. intros. rewrite has_lor. unfold has at 1. by rewrite land_aligned. Qed.

Lemma lor_lt12 a b : 0 ≤ a < 4096 → 0 ≤ b < 4096 → 0 ≤ Z.lor a b < 4096.
Proof.
  intros Ha Hb.
  assert (low12 (Z.lor a b) = Z.lor a b) as <-.
  { unfold low12. rewrite Z.land_lor_distr_l. change 4095 with (Z.ones 12).
    rewrite !Z.land_ones, !Z.mod_small by lia. done. }
  rewrite low12_mod. apply Z.mod_pos_bound. lia.
Qed.

Lemma low12_range x : 0 ≤ low12 x < 4096.
Proof. rewrite low12_mod. apply Z.mod_pos_bound. lia. Qed.

Lemma land_lt12 a b : 0 ≤ b < 4096 → 0 ≤ Z.land a b < 4096.
Proof.
  intros Hb. rewrite <-(Z.mod_small b 4096), <-low12_mod by done. unfold low12.
  rewrite Z.land_assoc. apply low12_range.
Qed.

(** Setting more flags keeps the address. *)
Lemma page_of_lor e f : 0 ≤ f < 4096 → page_of (Z.lor e f) = page_of e.
Proof.
  intros Hf. unfold page_of. rewrite Z.land_lor_distr_l.
  assert (Z.land f (Z.lnot 4095) = 0) as ->; [|by rewrite Z.lor_0_r].
  change (page_of f = 0). rewrite page_of_sub, Z.mod_small by done. lia.
Qed.

Lemma idx_range x : 0 ≤ Z.land x 511 < 512.
Proof.
  change 511 with (Z.ones 9). rewrite Z.land_ones by done. apply Z.mod_pos_bound. lia.
Qed.

(** ** The interface of the buddy allocator

    What [pmm.c] uses of [buddy.h]: operations on the state of the allocator,
    which return [0] for [NULL]. *)

Class Buddy := {
  buddy : Type;
  hhdm : Z;
  b_sizeof : Z → Z;
  b_init : Z → Z → Z → M buddy Z;
  b_malloc : Z → M buddy Z;
  b_free : Z → M buddy unit }.

(** Its contract for blocks of one page.  [bd_ok] is the allocator's invariant.
    A page that is handed out was free and is in use until it is given back;
    an allocation fails only when no page is free; a new allocator has exactly
    the whole pages of its arena free; all pages lie in the direct map. *)
Class BuddyOk `{!Buddy} := {
  bd_ok : buddy → Prop;
  bd_free : buddy → Z → Prop;
  bd_used : buddy → Z → Prop;
  hhdm_ok : 0 < hhdm < 2 ^ 64 ∧ hhdm `mod` 4096 = 0;
  bd_init b at_ main size :
    at_ ≠ 0 → at_ ≠ main → at_ `mod` 8 = 0 → main `mod` 4096 = 0 → hhdm < main →
    4096 ≤ size ≤ 2 ^ 63 → main + size < 2 ^ 64 →
    wp (b_init at_ main size) (λ p b', p = at_ ∧ bd_ok b' ∧
      (∀ q, bd_free b' q ↔ q `mod` 4096 = 0 ∧ main ≤ q ∧ q + 4096 ≤ main + size) ∧
      ∀ q, ¬ bd_used b' q) b;
  bd_malloc b : bd_ok b →
    wp (b_malloc 4096) (λ p b', bd_ok b' ∧
      if decide (p = 0) then b' = b ∧ ∀ q, ¬ bd_free b q
      else bd_free b p ∧ (∀ q, bd_free b' q ↔ bd_free b q ∧ q ≠ p) ∧
           (∀ q, bd_used b' q ↔ bd_used b q ∨ q = p)) b;
  bd_release b p : bd_ok b → bd_used b p →
    wp (b_free p) (λ _ b', bd_ok b' ∧
      (∀ q, bd_free b' q ↔ bd_free b q ∨ q = p) ∧
      (∀ q, bd_used b' q ↔ bd_used b q ∧ q ≠ p)) b;
  bd_range b p : bd_free b p ∨ bd_used b p → p `mod` 4096 = 0 ∧ hhdm < p ∧ p + 4096 ≤ 2 ^ 64 }.

(** ** State of memory management

    The globals of [pmm.c], [vmm.c], [slab.c] and [nx.c]. *)

Section Mem.
Context `{!Buddy}.

Record mst := mkMst {
  mem : gmap Z Z;
  pmm_buddy : option buddy; total_system_pages : Z;
  arena_phys_base : Z; arena_total_len : Z;
  kernel_pml4 : Z; nx_supported : bool;
  heap_virtual_top : Z; buckets : list Z }.

#[global] Instance mst_eta : Etable mst := λ s,
  mkMst (mem s) (pmm_buddy s) (total_system_pages s) (arena_phys_base s)
    (arena_total_len s) (kernel_pml4 s) (nx_supported s) (heap_virtual_top s) (buckets s).

(** Loads and stores of 8-byte words. *)
Definition rd (a : Z) : M mst Z := λ s,
  match mem s !! a with Some v => Done v s | None => Fault end.
Definition wr (a v : Z) : M mst unit := λ s,
  match mem s !! a with
  | Some _ => Done tt (s <| mem := <[a := v]> (mem s) |>)
  | None => Fault
  end.

(** [PHYS_TO_VIRT], [VIRT_TO_PHYS] *)
Definition PHYS_TO_VIRT (p : Z) : Z := u64 (p + hhdm).
Definition VIRT_TO_PHYS (v : Z) : Z := u64 (v - hhdm).

(** ** [pmm.c] *)

(** A [limine_memmap_entry]; type 0 is [LIMINE_MEMMAP_USABLE]. *)
Record memmap_entry := mkEntry { e_base : Z; e_length : Z; e_type : Z }.

(** One round of the scan of [init_pmm]: top address, base and length of the
    biggest usable chunk. *)
Definition scan_entry (acc : Z * Z * Z) (e : memmap_entry) : Z * Z * Z :=
  let '(top, base, len) := acc in
  if e_type e =? 0 then
    let top := if top <? u64 (e_base e + e_length e) then u64 (e_base e + e_length e) else top in
    if len <? e_length e then (top, e_base e, e_length e) else (top, base, len)
  else acc.

(** A call into the allocator. *)
Definition on_buddy {A} (c : M buddy A) : M mst A := λ s,
  match pmm_buddy s with
  | None => Fault
  | Some b =>
      match c b with
      | Done a b' => Done a (s <| pmm_buddy := Some b' |>)
      | Panicked b' => Panicked (s <| pmm_buddy := Some b' |>)
      | Fault => Fault
      end
  end.

(** [raw] is what the memory reserved for the allocator contains. *)
Definition init_pmm (raw : buddy) (memmap : list memmap_entry) : M mst unit :=
  let '(top, base, len) := foldl scan_entry (0, 0, 0) memmap in
  modify (λ s, s <| total_system_pages := top `div` 4096 |>) ;;
  if len =? 0 then panic else
  let meta := page_of (u64 (b_sizeof len + 4095)) in
  let metadata_virt := u64 (base + hhdm) in
  let arena := u64 (base + meta) in
  let arena_len := u64 (len - meta) in
  modify (λ s, s <| arena_phys_base := arena |> <| arena_total_len := arena_len |>
                 <| pmm_buddy := Some raw |>) ;;
  p ← on_buddy (b_init metadata_virt (u64 (arena + hhdm)) arena_len);
  if p =? 0 then modify (λ s, s <| pmm_buddy := None |>) ;; panic else mret tt.

Definition palloc : M mst Z :=
  b ← gets pmm_buddy;
  match b with
  | None => mret 0
  | Some _ =>
      v ← on_buddy (b_malloc 4096);
      if v =? 0 then panic else mret (VIRT_TO_PHYS v)
  end.

Definition palloc_contig (size : Z) : M mst Z :=
  b ← gets pmm_buddy;
  match b with
  | None => mret 0
  | Some _ =>
      v ← on_buddy (b_malloc size);
      if v =? 0 then mret 0 else mret (VIRT_TO_PHYS v)
  end.

Definition palloc_zero : M mst Z :=
  phys ← palloc;
  if phys =? 0 then mret 0 else
  let ptr := PHYS_TO_VIRT phys in
  for_all 512 0 (λ i, wr (ptr + 8 * i) 0) ;;
  mret phys.

Definition pfree (phys : Z) : M mst unit :=
  b ← gets pmm_buddy;
  match b with
  | None => mret tt
  | Some _ => if phys =? 0 then mret tt else on_buddy (b_free (PHYS_TO_VIRT phys))
  end.

Definition pmm_get_total_pages (s : mst) : Z := total_system_pages s.
Definition pmm_get_free_pages (s : mst) : Z :=
  match pmm_buddy s with None => 0 | Some _ => arena_total_len s `div` 4096 end.

(** ** Pages of words *)

(** All 512 words of the page at [t] are there. *)
Definition resident (m : gmap Z Z) (t : Z) : Prop :=
  ∀ i, 0 ≤ i < 512 → is_Some (m !! (t + 8 * i)).
(** Word [i] of the page at [t]. *)
Definition word (m : gmap Z Z) (t i : Z) : Z := default 0 (m !! (t + 8 * i)).
Definition same_page (m m' : gmap Z Z) (t : Z) : Prop :=
  ∀ i, 0 ≤ i < 512 → m' !! (t + 8 * i) = m !! (t + 8 * i).

Lemma word_neq t u i j :
  t `mod` 4096 = 0 → u `mod` 4096 = 0 → t ≠ u → 0 ≤ i < 512 → 0 ≤ j < 512 →
  t + 8 * i ≠ u + 8 * j.
Proof.
  intros Ht Hu Hne Hi Hj E. apply Hne.
  apply Z.div_exact in Ht, Hu; [|done..]. lia.
Qed.

Lemma same_page_refl m t : same_page m m t.
Proof. by intros i. Qed.
Lemma same_page_trans m1 m2 m3 t : same_page m1 m2 t → same_page m2 m3 t → same_page m1 m3 t.
Proof. intros H1 H2 i Hi. by rewrite H2, H1. Qed.

Lemma same_page_word m m' t i : same_page m m' t → 0 ≤ i < 512 → word m' t i = word m t i.
Proof. intros Hs Hi. unfold word. by rewrite Hs. Qed.

Lemma same_page_resident m m' t : same_page m m' t → resident m t → resident m' t.
Proof. intros Hs Hr i Hi. rewrite Hs by done. auto. Qed.

Lemma same_page_insert m t u i v :
  t `mod` 4096 = 0 → u `mod` 4096 = 0 → t ≠ u → 0 ≤ i < 512 →
  same_page m (<[u + 8 * i := v]> m) t.
Proof.
  intros ?? Hne Hi j Hj. apply lookup_insert_ne.
  apply not_eq_sym. by apply word_neq.
Qed.

Lemma resident_insert m t a v : resident m t → resident (<[a := v]> m) t.
Proof.
  intros Hr i Hi. rewrite lookup_insert. case_decide; [by eexists|auto].
Qed.

Lemma word_insert m t i j v :
  0 ≤ i < 512 → 0 ≤ j < 512 →
  word (<[t + 8 * i := v]> m) t j = if decide (i = j) then v else word m t j.
Proof.
  intros Hi Hj. unfold word. rewrite lookup_insert.
  case_decide; case_decide; try lia; done.
Qed.

Lemma wp_rd (t i : Z) Q s :
  resident (mem s) t → 0 ≤ i < 512 → Q (word (mem s) t i) s → wp (rd (t + 8 * i)) Q s.
Proof.
  intros Hr Hi HQ. unfold wp, rd. destruct (Hr i Hi) as [v Hv]. unfold word in HQ.
  rewrite Hv in *. done.
Qed.

Lemma wp_wr (t i v : Z) Q s :
  resident (mem s) t → 0 ≤ i < 512 →
  Q tt (s <| mem := <[t + 8 * i := v]> (mem s) |>) → wp (wr (t + 8 * i) v) Q s.
Proof.
  intros Hr Hi HQ. unfold wp, wr. destruct (Hr i Hi) as [w Hw]. by rewrite Hw.
Qed.

(** ** Correctness of the page allocator *)

Section PmmOk.
Context `{!BuddyOk}.

(** The free pages of the arena can be accessed. *)
Definition mem_ok (s : mst) : Prop :=
  ∃ b, pmm_buddy s = Some b ∧ bd_ok b ∧ ∀ p, bd_free b p → resident (mem s) p.

Definition page_free (s : mst) (p : Z) : Prop :=
  ∃ b, pmm_buddy s = Some b ∧ bd_free b p.
Definition page_used (s : mst) (p : Z) : Prop :=
  ∃ b, pmm_buddy s = Some b ∧ bd_used b p.

(** The machine stops only when no page is free. *)
Definition out_of_memory (s : mst) : Prop := ∀ p, ¬ page_free s p.

(** What [palloc_zero] does to the state: [p] is the new page, as the direct
    map reaches it. *)
Record got_page (s : mst) (p : Z) (s' : mst) : Prop := {
  gp_free : page_free s p;
  gp_align : p `mod` 4096 = 0;
  gp_range : hhdm < p ∧ p + 4096 ≤ 2 ^ 64;
  gp_zero i : 0 ≤ i < 512 → word (mem s') p i = 0;
  gp_resident t : resident (mem s) t → resident (mem s') t;
  gp_same t : t `mod` 4096 = 0 → t ≠ p → same_page (mem s) (mem s') t;
  gp_page : resident (mem s') p;
  gp_left q : page_free s' q ↔ page_free s q ∧ q ≠ p;
  gp_used q : page_used s' q ↔ page_used s q ∨ q = p;
  gp_rest : ∃ b m, s' = s <| pmm_buddy := Some b |> <| mem := m |> }.

Lemma phys_virt p : hhdm < p → p + 4096 ≤ 2 ^ 64 → PHYS_TO_VIRT (VIRT_TO_PHYS p) = p.
Proof.
  intros H1 H2. unfold PHYS_TO_VIRT, VIRT_TO_PHYS. destruct hhdm_ok as [? _].
  rewrite (wrap_small 64 (p - hhdm)) by lia. rewrite wrap_small by lia. lia.
Qed.

Lemma virt_phys_aligned p :
  hhdm < p → p + 4096 ≤ 2 ^ 64 → p `mod` 4096 = 0 →
  VIRT_TO_PHYS p `mod` 4096 = 0 ∧ 0 < VIRT_TO_PHYS p < 2 ^ 64 ∧ VIRT_TO_PHYS p = p - hhdm.
Proof.
  intros H1 H2 Ha. destruct hhdm_ok as [? Hh]. unfold VIRT_TO_PHYS.
  rewrite wrap_small by lia. split_and!; try lia.
  rewrite Zminus_mod, Ha, Hh. done.
Qed.

(** The loop of [palloc_zero]. *)
Lemma zero_page_wp (v : Z) s :
  resident (mem s) v →
  wp (for_all 512 0 (λ i, wr (v + 8 * i) 0))
    (λ _ s', ∃ m, s' = s <| mem := m |> ∧
       (∀ a, (∀ i, 0 ≤ i < 512 → a ≠ v + 8 * i) → m !! a = mem s !! a) ∧
       (∀ i, 0 ≤ i < 512 → m !! (v + 8 * i) = Some 0)) s.
Proof.
  intros Hr. eapply wp_mono; [eapply (wp_for_all 512 0 _ (λ k s', ∃ m, s' = s <| mem := m |> ∧
    (∀ a, (∀ i, 0 ≤ i < k → a ≠ v + 8 * i) → m !! a = mem s !! a) ∧
    (∀ i, 0 ≤ i < k → m !! (v + 8 * i) = Some 0)))| ].
  - intros k s' Hk (m & -> & Hm & Hz). apply wp_wr; simpl; [|lia|].
    + intros i Hi. destruct (decide (i < k)); [rewrite Hz by lia; by eexists|].
      rewrite Hm by lia. auto.
    + exists (<[v + 8 * k := 0]> m). split_and!; [done| |].
      * intros a Ha. rewrite lookup_insert_ne by (apply not_eq_sym, Ha; lia).
        apply Hm. intros i Hi. apply Ha. lia.
      * intros i Hi. rewrite lookup_insert. case_decide; [done|]. apply Hz. lia.
  - exists (mem s). split_and!; [by destruct s|done|lia].
  - done.
Qed.

Lemma wp_on_buddy {A} (c : M buddy A) Q s b :
  pmm_buddy s = Some b → wp c (λ a b', Q a (s <| pmm_buddy := Some b' |>)) b → wp (on_buddy c) Q s.
Proof. unfold wp, on_buddy. intros ->. by destruct (c b). Qed.

Lemma palloc_zero_spec s :
  mem_ok s →
  wph out_of_memory palloc_zero
    (λ phys s', ∃ p, phys = VIRT_TO_PHYS p ∧ phys ≠ 0 ∧ got_page s p s' ∧ mem_ok s') s.
Proof.
  intros (b & Hb & Hok & Hres). unfold palloc_zero. apply wph_bind. unfold palloc. apply wph_bind.
  apply wph_gets. rewrite Hb. apply wph_bind, wph_wp, (wp_on_buddy _ _ _ _ Hb).
  eapply wp_mono; [by apply bd_malloc|]. intros v b' [Hok' Hcase].
  destruct (Z.eqb_spec v 0) as [->|Hv].
  { apply wph_panic. rewrite decide_True in Hcase by done. destruct Hcase as [-> Hno].
    intros p (b0 & E & Hp). cbn in E. injection E as <-. by apply (Hno p). }
  rewrite decide_False in Hcase by done. destruct Hcase as (Hf & Hleft & Hused).
  apply wph_ret.
  destruct (bd_range b v (or_introl Hf)) as (Ha & Hlo & Hhi).
  destruct (virt_phys_aligned v Hlo Hhi Ha) as (_ & Hpos & _).
  rewrite (proj2 (Z.eqb_neq _ _)) by lia. rewrite phys_virt by done. apply wph_bind, wph_wp.
  eapply wp_mono; [by apply zero_page_wp, Hres|].
  intros [] s' (m & -> & Hm & Hz). apply wp_ret || apply wph_ret.
  assert (∀ t, t `mod` 4096 = 0 → t ≠ v → same_page (mem s) m t) as Hsame.
  { intros t Ht Hne i Hi. apply Hm. intros j Hj. by apply word_neq. }
  assert (∀ a, is_Some (mem s !! a) → is_Some (m !! a)) as Hdom.
  { intros a Ha'. destruct (decide (Exists (λ i, a = v + 8 * i) (seqZ 0 512))) as [He|He].
    - apply list.Exists_exists in He as (i & Hi%elem_of_seqZ & ->). rewrite Hz by lia. by eexists.
    - rewrite Hm; [done|]. intros i Hi ->. apply He, list.Exists_exists. exists i.
      split; [apply elem_of_seqZ; lia|done]. }
  exists v. split_and!; [done|lia| |].
  - split; simpl; try done.
    + by exists b.
    + intros i Hi. unfold word. by rewrite Hz.
    + intros t Ht i Hi. by apply Hdom, Ht.
    + intros i Hi. rewrite Hz by done. by eexists.
    + intros q. unfold page_free. simpl. rewrite Hb. naive_solver.
    + intros q. unfold page_used. simpl. rewrite Hb. naive_solver.
    + by exists b', m.
  - exists b'. split_and!; [done|done|]. simpl. intros q [Hq _]%Hleft i Hi. by apply Hdom, Hres.
Qed.

(** A change of memory that keeps every page. *)
Lemma mem_ok_mem s m : mem_ok s → (∀ p, resident (mem s) p → resident m p) → mem_ok (s <| mem := m |>).
Proof. intros (b & Hb & Hok & Hres) Hm. exists b. split_and!; [done|done|]. intros p Hp. by apply Hm, Hres. Qed.

(** Giving a page back. *)
Lemma pfree_spec s phys :
  let p := PHYS_TO_VIRT phys in
  mem_ok s → page_used s p → resident (mem s) p →
  wp (pfree phys)
    (λ _ s', mem_ok s' ∧ (∀ q, page_free s' q ↔ page_free s q ∨ q = p) ∧
       (∀ q, page_used s' q ↔ page_used s q ∧ q ≠ p) ∧
       ∃ b, s' = s <| pmm_buddy := b |>) s.
Proof.
  intros p (b & Hb & Hok & Hres) (b0 & Hb0 & Hu) Hr. simplify_eq.
  destruct (bd_range b p (or_intror Hu)) as (Ha & Hlo & Hhi). destruct hhdm_ok as [Hh _].
  assert (phys ≠ 0).
  { intros ->. unfold p, PHYS_TO_VIRT in Hlo. rewrite wrap_small in Hlo by lia. lia. }
  unfold pfree. apply wp_bind, wp_gets. rewrite Hb, (proj2 (Z.eqb_neq _ _)) by lia.
  fold p. apply (wp_on_buddy _ _ _ _ Hb). eapply wp_mono; [by apply bd_release|].
  intros [] b' (Hok' & Hf & Hu'). split_and!.
  - exists b'. split_and!; [done|done|]. intros q [Hq| ->]%Hf; [by apply Hres|done].
  - intros q. unfold page_free. simpl. rewrite Hb. naive_solver.
  - intros q. unfold page_used. simpl. rewrite Hb. naive_solver.
  - by eexists.
Qed.
End PmmOk.
End Mem.
