(* ===== verification/PageBuddy.v ===== *)
(** * Pages from the buddy allocator

    The allocator of [include/buddy.h] keeps the contract that [mm/pmm.c] and
    everything above it is verified against. *)

From S2P Require Import Prelude BuddyBits Bitset BuddyTree Buddy Mem.

(** ** The allocated nodes are determined by the bits *)

Lemma holds_unique s A A' : holds s A → holds s A' → ∀ p, A p ↔ A' p.
Proof.
  intros (st & HT & _ & HA) (st' & HT' & _ & HA') p.
  assert (∀ i, node (order s) i → st i = st' i) as E.
  { intros i Hi. pose proof (to_st _ _ HT i Hi). pose proof (to_st _ _ HT' i Hi).
    destruct (Z.lt_trichotomy (st i) (st' i)) as [Hlt|[?|Hlt]]; [|done|].
    - pose proof (to_field _ _ HT i (st i) Hi ltac:(lia)) as H1.
      pose proof (to_field _ _ HT' i (st i) Hi ltac:(lia)) as H2. rewrite H1 in H2.
      repeat case_bool_decide; done || lia.
    - pose proof (to_field _ _ HT i (st' i) Hi ltac:(lia)) as H1.
      pose proof (to_field _ _ HT' i (st' i) Hi ltac:(lia)) as H2. rewrite H1 in H2.
      repeat case_bool_decide; done || lia. }
  rewrite <-HA, <-HA'. unfold alloc. split; intros (Hn & E1 & E2); (split; [done|]).
  - rewrite <-(E p Hn). split; [done|]. intros Hin. destruct (inner_node _ p Hin) as (_ & ? & ?).
    rewrite <-!E by done. auto.
  - rewrite (E p Hn). split; [done|]. intros Hin. destruct (inner_node _ p Hin) as (_ & ? & ?).
    rewrite !E by done. auto.
Qed.

(** Allocated blocks do not overlap. *)
Lemma holds_apart s A p q : holds s A → A p → A q → p ≠ q → ¬ anc p q.
Proof.
  intros (st & _ & Hc & HA) Hp%HA Hq%HA Hne [|Hs]%anc_cases; [done| |].
  - by apply (alloc_apart (order s) st p q).
  - by destruct Hq as ([? _] & _).
Qed.

Lemma anc_level p q : 1 ≤ q → Z.log2 p = Z.log2 q → anc p q → p = q.
Proof.
  intros Hq El Ha. apply anc_eq in Ha as (_ & _ & E); [|done].
  by rewrite El, Z.sub_diag, Z.pow_0_r, Z.div_1_r in E.
Qed.

(** A block contains the blocks below it. *)
Lemma anc_block o p q : 1 ≤ o ≤ 58 → node o q → anc p q →
  boff o p ≤ boff o q ∧ boff o q + bsz o q ≤ boff o p + bsz o p.
Proof.
  intros Ho Hq Ha. pose proof (anc_node o p q Hq Ha) as Hp.
  destruct (bsz_range o p Hp Ho) as (_ & _ & _ & P1 & P2).
  destruct (bsz_range o q Hq Ho) as (_ & _ & _ & Q1 & Q2).
  destruct (log2_node o q Hq) as [Lq _]. destruct (log2_node o p Hp) as [Lp _].
  apply anc_eq in Ha as (_ & Hle & E); [|by destruct Hq].
  set (d := Z.log2 q - Z.log2 p) in *. set (k := o - 1 - Z.log2 q) in *.
  assert (2 ^ (o - 1 - Z.log2 p) = 2 ^ d * 2 ^ k) as Ek by (rewrite <-Z.pow_add_r by lia; f_equal; lia).
  rewrite P1, P2, Q1, Q2, Ek.
  pose proof (Z.pow_pos_nonneg 2 d ltac:(lia) ltac:(lia)). pose proof (Z.pow_pos_nonneg 2 k ltac:(lia) ltac:(lia)).
  pose proof (Z.div_mod q (2 ^ d) ltac:(lia)) as Ed. rewrite E in Ed.
  pose proof (Z.mod_pos_bound q (2 ^ d) ltac:(lia)). nia.
Qed.

(** ** Pages *)

(** A node of page size. *)
Definition page_node (b : bud) (q : Z) : Prop := node (order b) q ∧ bsz (order b) q = 4096.

Lemma page_level b q : 1 ≤ order b → page_node b q → Z.log2 q = order b - 7.
Proof.
  intros Ho [Hn Eb]. destruct (log2_node _ q Hn). unfold bsz in Eb. change 4096 with (2 ^ 12) in Eb.
  apply Z.pow_inj_r in Eb; lia.
Qed.

Lemma page_inj b q r : 1 ≤ order b → page_node b q → page_node b r → addr_of b q = addr_of b r → q = r.
Proof.
  intros Ho Hq Hr E. pose proof (page_level b q Ho Hq) as Eq. pose proof (page_level b r Ho Hr) as Er.
  unfold addr_of, boff in E. destruct Hq as [_ Hq], Hr as [_ Hr]. rewrite Hq, Hr, Eq, Er in E. lia.
Qed.

Section Instance_.
Context (h : Z).

Definition znu_buddy : Buddy := {|
  buddy := bud; hhdm := h;
  b_sizeof := buddy_sizeof; b_init := buddy_init;
  b_malloc := buddy_malloc; b_free := buddy_free |}.

Definition arena_ok (b : bud) (A : Z → Prop) : Prop :=
  buddy_ok b A ∧ h < arena_main b ∧ arena_main b `mod` 4096 = 0.

Definition pages_ok (b : bud) : Prop := ∃ A, arena_ok b A.
Definition free_page (b : bud) (p : Z) : Prop :=
  ∃ A q, arena_ok b A ∧ page_node b q ∧ free_in (order b) A q ∧ p = addr_of b q.
Definition used_page (b : bud) (p : Z) : Prop :=
  ∃ A q, arena_ok b A ∧ page_node b q ∧ A q ∧ in_range b q ∧ p = addr_of b q.

Lemma free_page_eq b A p : arena_ok b A →
  free_page b p ↔ ∃ q, page_node b q ∧ free_in (order b) A q ∧ p = addr_of b q.
Proof.
  intros HA. split; [|intros (q & ? & ? & ?); by exists A, q].
  intros (A' & q & HA' & Hq & [Hn Hf] & ->). exists q. split_and!; [done| |done]. split; [done|].
  intros r Hr. by apply Hf, (holds_unique b A A' (bo_tree _ _ (proj1 HA)) (bo_tree _ _ (proj1 HA'))).
Qed.

Lemma used_page_eq b A p : arena_ok b A →
  used_page b p ↔ ∃ q, page_node b q ∧ A q ∧ in_range b q ∧ p = addr_of b q.
Proof.
  intros HA. split; [|intros (q & ? & ? & ? & ?); by exists A, q].
  intros (A' & q & HA' & Hq & Hu & Hr & ->). exists q. split_and!; [done| |done|done].
  by apply (holds_unique b A A' (bo_tree _ _ (proj1 HA)) (bo_tree _ _ (proj1 HA'))).
Qed.

Lemma page_range b p : free_page b p ∨ used_page b p →
  p `mod` 4096 = 0 ∧ h < p ∧ p + 4096 ≤ 2 ^ 64.
Proof.
  intros Hp. assert (∃ A q, arena_ok b A ∧ page_node b q ∧ in_range b q ∧ p = addr_of b q) as
    (A & q & (Hok & Hh & Ha) & [Hn Eb] & Hr & ->).
  { destruct Hp as [(A & q & HA & Hq & Hf & ->)|(A & q & HA & Hq & Hu & Hr & ->)];
      exists A, q; split_and!; try done. by eapply free_in_range; [apply HA|]. }
  pose proof (bo_main _ _ Hok). destruct (bsz_range _ q Hn (bo_order _ _ Hok)) as (_ & ? & _).
  unfold in_range, addr_of in *. rewrite Eb in Hr. split_and!; [|lia|lia].
  unfold boff. rewrite Eb. rewrite Zplus_mod, Ha, Z.mul_comm, Z.mod_mul by done. done.
Qed.

(** *** Allocation *)

Lemma malloc_page b : pages_ok b →
  wp (buddy_malloc 4096) (λ p b', pages_ok b' ∧
    if decide (p = 0) then b' = b ∧ ∀ q, ¬ free_page b q
    else free_page b p ∧ (∀ q, free_page b' q ↔ free_page b q ∧ q ≠ p) ∧
         (∀ q, used_page b' q ↔ used_page b q ∨ q = p)) b.
Proof.
  intros (A & HA). pose proof HA as (Hok & Hh & Ha). pose proof (bo_order _ _ Hok) as Ho.
  eapply wp_mono; [by apply (buddy_malloc_post b A 4096)|]. change (fit 4096) with 12.
  intros p b' [(-> & -> & Hno)|(n & m & -> & Hf & Eb & Hr & -> & Hok')].
  - split; [by exists A|]. rewrite decide_True by done. split; [done|]. intros p Hp.
    apply (free_page_eq b A p HA) in Hp as (q & [Hn Eb] & Hf & _).
    pose proof (free_in_range b A q Hok Hf) as Hr. unfold in_range in Hr. rewrite Eb in Hr.
    destruct (bsz_range _ q Hn Ho) as (_ & ? & _). destruct Hno as [|Hno]; [lia|by eapply Hno].
  - set (b' := b <| tbytes := m |>) in *. assert (arena_ok b' (λ r, A r ∨ r = n)) as HA' by done.
    assert (page_node b n) as Hn by (split; [by destruct Hf|done]).
    assert (addr_of b n ≠ 0) as Hne by (by apply (in_arena_eq b A); [|apply Hf|]).
    split; [by eexists|]. rewrite decide_False by done. split_and!.
    + apply (free_page_eq b A _ HA). by exists n.
    + intros q. rewrite (free_page_eq b A q HA), (free_page_eq b' _ q HA'). split.
      * intros (r & Hr' & [Hrn Hrf] & ->).
        assert (r ≠ n) as Hrn'.
        { intros ->. destruct (Hrf n (or_intror eq_refl)) as [Hx _]. apply Hx, anc_refl. by destruct Hrn. }
        split; [|intros E; by apply Hrn', (page_inj b); [lia|..]].
        exists r. split_and!; [done| |done]. split; [done|]. intros x Hx. apply Hrf. by left.
      * intros [(r & Hr' & [Hrn Hrf] & ->) Hrne]. exists r. split_and!; [done| |done].
        split; [done|]. intros x [Hx| ->]; [by apply Hrf|].
        pose proof (page_level b r ltac:(lia) Hr') as Lr. pose proof (page_level b n ltac:(lia) Hn) as Ln.
        assert (n ≠ r) by congruence.
        split; intros Hanc; apply anc_level in Hanc; try congruence; [by destruct Hrn|].
        by destruct Hn as [[? _] _].
    + intros q. rewrite (used_page_eq b A q HA), (used_page_eq b' _ q HA'). split.
      * intros (r & Hr' & [Hu| ->] & Hrr & ->); [left|by right]. by exists r.
      * intros [(r & Hr' & Hu & Hrr & ->)| ->]; [exists r|exists n]; naive_solver.
Qed.

(** *** Release *)

Lemma free_page_spec b p : pages_ok b → used_page b p →
  wp (buddy_free p) (λ _ b', pages_ok b' ∧
    (∀ q, free_page b' q ↔ free_page b q ∨ q = p) ∧
    (∀ q, used_page b' q ↔ used_page b q ∧ q ≠ p)) b.
Proof.
  intros (A & HA) Hp. apply (used_page_eq b A p HA) in Hp as (n & Hn & Hu & Hr & ->).
  pose proof HA as (Hok & Hh & Ha). pose proof (bo_order _ _ Hok) as Ho.
  eapply wp_mono; [by apply (buddy_free_post b A n)|]. intros [] b' ((m & ->) & Hok').
  set (b' := b <| tbytes := m |>) in *. assert (arena_ok b' (λ r, A r ∧ r ≠ n)) as HA' by done.
  split_and!; [by eexists|..].
  - intros q. rewrite (free_page_eq b A q HA), (free_page_eq b' _ q HA'). split.
    + intros (r & Hr' & [Hrn Hrf] & ->). destruct (decide (r = n)) as [->|Hne]; [by right|left].
      exists r. split_and!; [done| |done]. split; [done|]. intros x Hx.
      destruct (decide (x = n)) as [->|]; [|by apply Hrf].
      pose proof (page_level b r ltac:(lia) Hr') as Lr. pose proof (page_level b n ltac:(lia) Hn) as Ln.
      split; intros Hanc; apply anc_level in Hanc; try congruence; [by destruct Hrn|].
      by destruct Hn as [[? _] _].
    + intros [(r & Hr' & [Hrn Hrf] & ->)| ->].
      * exists r. split_and!; [done| |done]. split; [done|]. intros x [Hx _]. by apply Hrf.
      * exists n. split_and!; [done| |done]. split; [apply Hn|]. intros x [Hx Hne].
        pose proof (bo_tree _ _ Hok) as Hh'. split; by apply (holds_apart b A).
  - intros q. rewrite (used_page_eq b A q HA), (used_page_eq b' _ q HA'). split.
    + intros (r & Hr' & [Hru Hne] & Hrr & ->). split; [by exists r|].
      intros E. by apply Hne, (page_inj b); [lia|..].
    + intros [(r & Hr' & Hru & Hrr & ->) Hne]. exists r. split_and!; [done|done|congruence|done|done].
Qed.

(** *** Initialisation *)

(** The node of a page of the arena. *)
Lemma page_node_at b A p : buddy_ok b A → p `mod` 4096 = 0 → arena_main b `mod` 4096 = 0 →
  arena_main b ≤ p → p + 4096 ≤ arena_main b + memory_size b →
  ∃ q, page_node b q ∧ in_range b q ∧ p = addr_of b q.
Proof.
  intros Hok Hp Ha Hlo Hhi. pose proof (bo_order _ _ Hok) as Ho.
  destruct (effective_range b A Hok) as ([He _] & He2 & _).
  assert (7 ≤ order b) as H7.
  { assert (12 ≤ order b + 5); [|lia]. apply (Z.pow_le_mono_r_iff 2); [lia|lia|].
    change (2 ^ 12) with 4096. lia. }
  assert (2 ^ (order b + 5) = 2 ^ (order b - 7) * 4096) as E5.
  { change 4096 with (2 ^ 12). rewrite <-Z.pow_add_r by lia. f_equal. lia. }
  assert (2 ^ order b = 2 * 2 ^ (order b - 1)) as Eo by (rewrite <-Z.pow_succ_r by lia; f_equal; lia).
  assert (2 ^ (order b - 1) = 2 ^ 6 * 2 ^ (order b - 7)) as Eo'
    by (rewrite <-Z.pow_add_r by lia; f_equal; lia).
  set (k := (p - arena_main b) `div` 4096).
  assert (p = arena_main b + 4096 * k) as Ep by (unfold k; Z.div_mod_to_equations; lia).
  assert (0 ≤ k < 2 ^ (order b - 7)) as Hk by lia.
  assert (Z.log2 (2 ^ (order b - 7) + k) = order b - 7) as El.
  { apply Z.log2_unique; [lia|]. rewrite Z.pow_succ_r by lia. lia. }
  exists (2 ^ (order b - 7) + k).
  assert (page_node b (2 ^ (order b - 7) + k)) as Hn.
  { split; [split; lia|]. unfold bsz. rewrite El. replace (order b + 5 - (order b - 7)) with 12 by lia. done. }
  split_and!; [done|..].
  - unfold in_range, boff. destruct Hn as [_ ->]. rewrite El. lia.
  - unfold addr_of, boff. destruct Hn as [_ ->]. rewrite El. lia.
Qed.

Lemma init_page b at_ main size :
  at_ ≠ 0 → at_ ≠ main → at_ `mod` 8 = 0 → main `mod` 4096 = 0 → 0 < h < main →
  4096 ≤ size ≤ 2 ^ 63 → main + size < 2 ^ 64 →
  wp (buddy_init at_ main size) (λ p b', p = at_ ∧ pages_ok b' ∧
    (∀ q, free_page b' q ↔ q `mod` 4096 = 0 ∧ main ≤ q ∧ q + 4096 ≤ main + size) ∧
    ∀ q, ¬ used_page b' q) b.
Proof.
  intros H1 H2 H3 H4 H5 H6 H7.
  eapply wp_mono; [apply buddy_init_post; try done; try lia; Z.div_mod_to_equations; lia|].
  intros p b' (-> & Em & Es & A & Hok & Hv). subst main.
  assert (arena_ok b' A) as HA by (split_and!; [done|lia|done]). pose proof (bo_order _ _ Hok) as Ho.
  split_and!; [done|by exists A|..].
  - intros q. rewrite (free_page_eq b' A q HA). split.
    + intros (r & Hr & Hf & ->). pose proof (page_range b' (addr_of b' r)) as Hp.
      destruct Hp as (? & _); [left; by exists A, r|]. destruct Hr as [Hn Eb].
      pose proof (free_in_range b' A r Hok Hf) as Hrr. unfold in_range in Hrr. rewrite Eb in Hrr.
      destruct (bsz_range _ r Hn Ho) as (_ & ? & _). unfold addr_of in *.
      pose proof (Z.mod_pos_bound size 64). split_and!; [done|lia|lia].
    + intros (Hq & Hlo & Hhi). destruct (page_node_at b' A q Hok Hq H4 Hlo) as (r & Hr & Hrr & ->).
      { rewrite Es. Z.div_mod_to_equations. lia. }
      exists r. split_and!; [done| |done]. pose proof Hr as [Hn Eb]. split; [done|].
      intros x Hx. pose proof (Hv x Hx). unfold in_range in Hrr. split; intros Hanc.
      * destruct (anc_block (order b') x r Ho Hn Hanc). lia.
      * pose proof (bo_tree _ _ Hok) as (st & _ & _ & HA'). apply HA' in Hx as (Hxn & _).
        destruct (anc_block (order b') r x Ho Hxn Hanc). destruct (bsz_range _ x Hxn Ho) as (? & _). lia.
  - intros q Hq. apply (used_page_eq b' A q HA) in Hq as (r & [Hn _] & Hu & Hr & _).
    pose proof (Hv r Hu). unfold in_range in Hr. destruct (bsz_range _ r Hn Ho) as (? & _). lia.
Qed.

Context (h_ok : 0 < h < 2 ^ 64 ∧ h `mod` 4096 = 0).

(** The contract holds. *)
Definition znu_buddy_ok : @BuddyOk znu_buddy.
Proof.
  refine (@Build_BuddyOk znu_buddy pages_ok free_page used_page h_ok _ _ _ _).
  - intros b at_ main size ???? Hh ??. apply init_page; try done. split; [apply h_ok|exact Hh].
  - apply malloc_page.
  - apply free_page_spec.
  - apply page_range.
Defined.
End Instance_.

(** ** The metadata *)

Lemma tree_sizeof_mono o o' : 1 ≤ o ≤ o' → o' ≤ 58 → buddy_tree_sizeof o ≤ buddy_tree_sizeof o'.
Proof.
  intros Ho Ho'. assert (Forall (λ k, buddy_tree_sizeof k ≤ buddy_tree_sizeof (k + 1)) (seqZ 1 57)) as Hall
    by (apply (bool_decide_unpack _); by vm_compute).
  rewrite list.Forall_forall in Hall. replace o' with (o + Z.of_nat (Z.to_nat (o' - o))) by lia.
  assert (o + Z.of_nat (Z.to_nat (o' - o)) ≤ 58) as Hb by lia. revert Hb.
  generalize (Z.to_nat (o' - o)) as n. induction n as [|n IH]; intros Hb; [by rewrite Z.add_0_r|].
  transitivity (buddy_tree_sizeof (o + Z.of_nat n)); [apply IH; lia|].
  replace (o + Z.of_nat (S n)) with (o + Z.of_nat n + 1) by lia. apply Hall, elem_of_seqZ. lia.
Qed.

Lemma buddy_sizeof_eq len : 64 ≤ len ≤ 2 ^ 63 → len `mod` 64 = 0 →
  let o := buddy_tree_order_for_memory len 64 in
  buddy_sizeof len = 32 + buddy_tree_sizeof o ∧ 1 ≤ o ≤ 58 ∧ Z.log2_up len = o + 5.
Proof.
  intros Hl Hm o. destruct (order_for_memory len Hl Hm) as [El Ho]. fold o in El, Ho.
  split_and!; try lia. unfold buddy_sizeof, buddy_sizeof_alignment, BUDDY_ALLOC_ALIGN.
  change (is_valid_alignment 64) with true. cbn [negb]. rewrite (proj2 (Z.ltb_ge _ _)) by lia.
  fold o. by rewrite wrap_small by (change (2 ^ 8) with 256; lia).
Qed.

(** The tree of an arena of [2^(o+5)] bytes or less. *)
Lemma tree_sizeof_small o len : 1 ≤ o ≤ 58 → 16 * 2 ^ (o + 1) < 2 * len →
  buddy_tree_sizeof o ≤ len `div` 64 + 560.
Proof.
  intros Ho Hlt. unfold buddy_tree_sizeof. rewrite bitset_bytes_eq by lia.
  assert (set_bytes o ≤ len `div` 64 + 1) as Hs.
  { unfold set_bytes, bitset_sizeof, rows. replace (o - o + 2) with 2 by lia.
    rewrite Z.pow_add_r in Hlt by lia. change (2 ^ 1) with 2 in Hlt. Z.div_mod_to_equations. lia. }
  pose proof (Z.mod_pos_bound (set_bytes o) 8 ltac:(lia)). case_match; lia.
Qed.

(** The space the allocator asks for is enough for a smaller arena, and small
    compared with it. *)
Lemma buddy_sizeof_fits len len' :
  64 ≤ len' ≤ len → len ≤ 2 ^ 63 → len `mod` 64 = 0 → len' `mod` 64 = 0 →
  0 < buddy_sizeof len' ≤ buddy_sizeof len ∧ buddy_sizeof len ≤ len `div` 64 + 600.
Proof.
  intros H1 H2 H3 H4. destruct (buddy_sizeof_eq len) as (E & Ho & El); [lia|done|].
  destruct (buddy_sizeof_eq len') as (E' & Ho' & El'); [lia|done|]. rewrite E, E'. clear E E'.
  generalize dependent (buddy_tree_order_for_memory len 64).
  generalize dependent (buddy_tree_order_for_memory len' 64). intros o' Ho' El' o Ho El.
  assert (o' ≤ o) by (pose proof (Z.log2_up_le_mono len' len ltac:(lia)); lia).
  pose proof (tree_sizeof_mono o' o ltac:(lia) ltac:(lia)).
  destruct (layout o' ltac:(lia)) as (? & _ & ? & ?).
  assert (buddy_tree_sizeof o ≤ len `div` 64 + 560); [|lia]. apply tree_sizeof_small; [done|].
  pose proof (Z.log2_up_spec len ltac:(lia)) as Hs. rewrite El in Hs.
  replace (Z.pred (o + 5)) with (3 + (o + 1)) in Hs by lia. rewrite Z.pow_add_r in Hs by lia.
  change (2 ^ 3) with 8 in Hs. lia.
Qed.

(** ** [init_pmm] *)

Definition usable (memmap : list memmap_entry) (e : memmap_entry) : Prop :=
  e ∈ memmap ∧ e_type e = 0.

(** The scan finds the longest usable entry. *)
Lemma scan_spec memmap top base len :
  foldl scan_entry (0, 0, 0) memmap = (top, base, len) →
  (∀ e, usable memmap e → e_length e ≤ len) ∧
  (len = 0 ∨ ∃ e, usable memmap e ∧ base = e_base e ∧ len = e_length e).
Proof.
  revert top base len. induction memmap as [|e memmap IH] using rev_ind; intros top base len.
  - intros [= <- <- <-]. split; [|by left]. intros e [He _]. by apply not_elem_of_nil in He.
  - rewrite foldl_app. cbn [foldl]. destruct (foldl _ _ memmap) as [[t b] l] eqn:E.
    destruct (IH _ _ _ eq_refl) as [H1 H2]. unfold scan_entry, usable.
    setoid_rewrite elem_of_app. setoid_rewrite list_elem_of_singleton.
    destruct (Z.eqb_spec (e_type e) 0) as [Et|Et].
    + destruct (Z.ltb_spec l (e_length e)); intros [= <- <- <-]; split.
      * intros e' [[He| ->] He']; [|lia]. pose proof (H1 e' (conj He He')). lia.
      * right. exists e. naive_solver.
      * intros e' [[He| ->] He']; [by apply H1|lia].
      * destruct H2 as [|(e' & [? ?] & ?)]; [by left|right; exists e'; naive_solver].
    + intros [= <- <- <-]. split.
      * intros e' [[He| ->] He']; [by apply H1|done].
      * destruct H2 as [|(e' & [? ?] & ?)]; [by left|right; exists e'; naive_solver].
Qed.

Section InitPmm.
Context (h : Z) (h_ok : 0 < h < 2 ^ 64 ∧ h `mod` 4096 = 0).
#[local] Instance init_buddy : Buddy := znu_buddy h.
#[local] Instance init_ok : BuddyOk := znu_buddy_ok h h_ok.

(** What the boot loader promises of a usable entry: it is made of pages, which
    the direct map reaches. *)
Definition memmap_ok (s : mst) (e : memmap_entry) : Prop :=
  e_base e `mod` 4096 = 0 ∧ e_length e `mod` 4096 = 0 ∧ 0 ≤ e_base e ∧ 0 ≤ e_length e ∧
  e_base e + e_length e + h < 2 ^ 64 ∧ e_length e ≤ 2 ^ 63 ∧
  ∀ p, p `mod` 4096 = 0 → e_base e + h ≤ p → p + 4096 ≤ e_base e + e_length e + h → resident (mem s) p.

(** The arena in the entry [e]. *)
Record initialised (s : mst) (e : memmap_entry) : Prop := {
  in_mem : mem_ok s;
  in_arena_base : e_base e + buddy_sizeof (arena_total_len s) ≤ arena_phys_base s;
  in_arena_end : arena_phys_base s + arena_total_len s = e_base e + e_length e;
  in_free p : page_free s p ↔ p `mod` 4096 = 0 ∧
    arena_phys_base s + h ≤ p ∧ p + 4096 ≤ e_base e + e_length e + h }.

Lemma init_pmm_post s raw memmap :
  (∀ e, usable memmap e → memmap_ok s e) → (∃ e, usable memmap e ∧ 16384 ≤ e_length e) →
  wp (init_pmm raw memmap)
    (λ _ s', ∃ e, usable memmap e ∧ (∀ e', usable memmap e' → e_length e' ≤ e_length e) ∧
       initialised s' e) s.
Proof.
  intros Hall (e0 & He0 & Hlen). unfold init_pmm.
  destruct (foldl scan_entry (0, 0, 0) memmap) as [[top base] len] eqn:Escan.
  destruct (scan_spec _ _ _ _ Escan) as [Hmax Hin]. pose proof (Hmax e0 He0).
  destruct Hin as [|(e & He & -> & ->)]; [lia|].
  destruct (Hall e He) as (A1 & A2 & A3 & A4 & A5 & A6 & A7).
  set (len := e_length e) in *. set (base := e_base e) in *.
  apply wp_bind, wp_modify. rewrite (proj2 (Z.eqb_neq len 0)) by lia.
  cbn [b_sizeof hhdm b_init init_buddy znu_buddy].
  assert (len `mod` 64 = 0) as L64 by (Z.div_mod_to_equations; lia).
  destruct (buddy_sizeof_fits len len ltac:(lia) A6 L64 L64) as [[Hs0 _] Hs1].
  rewrite (wrap_small 64 (buddy_sizeof len + 4095)) by (Z.div_mod_to_equations; lia).
  set (meta := page_of (buddy_sizeof len + 4095)).
  assert (meta `mod` 4096 = 0 ∧ buddy_sizeof len ≤ meta ∧ meta + 4096 ≤ len) as (M1 & M2 & M3)
    by (unfold meta; rewrite page_of_sub; Z.div_mod_to_equations; lia).
  clearbody meta. rewrite !wrap_small by (rewrite ?wrap_small; lia).
  assert ((len - meta) `mod` 64 = 0) as L64' by (Z.div_mod_to_equations; lia).
  destruct (buddy_sizeof_fits len (len - meta) ltac:(lia) A6 L64 L64') as [[_ Hfit] _].
  apply wp_bind, wp_modify, wp_bind. eapply wp_on_buddy; [done|].
  eapply wp_mono; [apply (bd_init raw (base + h) (base + meta + h) (len - meta)); cbn; try lia|].
  - Z.div_mod_to_equations; lia.
  - Z.div_mod_to_equations; lia.
  - intros p b' (-> & Hok & Hfree & _). rewrite (proj2 (Z.eqb_neq _ _)) by lia. apply wp_ret.
    exists e. split_and!; [done|done|]. fold base len in A7.
    assert (∀ q, q `mod` 4096 = 0 ∧ base + meta + h ≤ q ∧ q + 4096 ≤ base + meta + h + (len - meta) →
      resident (mem s) q) as Hres by (intros q (? & ? & ?); apply A7; done || lia).
    split; cbn.
    + exists b'. split_and!; [done|done|]. intros q Hq%Hfree. by apply Hres.
    + fold base. lia.
    + fold base len. lia.
    + intros q. fold base len.
      replace (base + len + h) with (base + meta + h + (len - meta)) by lia. rewrite <-Hfree.
      split; [intros (b0 & Eb & Hq); by injection Eb as <-|intros Hq; by exists b'].
Qed.

(** [init_pmm] puts the allocator's metadata at the start of the longest
    usable entry of the memory map, where it fits, and leaves exactly the whole
    pages behind it free. *)
Theorem init_pmm_correct s raw memmap :
  (∀ e, usable memmap e → memmap_ok s e) → (∃ e, usable memmap e ∧ 16384 ≤ e_length e) →
  wp (init_pmm raw memmap)
    (λ _ s', ∃ e, usable memmap e ∧ (∀ e', usable memmap e' → e_length e' ≤ e_length e) ∧
       initialised s' e) s.
Proof. apply init_pmm_post. Qed.
End InitPmm.
