(* ===== verification/Paging.v ===== *)
(** * Page tables

    Models [mm/mappage.c], [mm/unmappage.c] and the walk and region mapping of
    [mm/vmm.c].  A table is a page of 512 words; the tables of all address
    spaces form a forest ([ptree]) in which the kernel halves are shared. *)

From S2P Require Import Prelude Mem.

Section Paging.
Context `{!Buddy}.

(** ** The code *)

(** One level of [map_page] and [map_page_huge]: the entry of [tbl] at [idx],
    created if it is not present, and the table it points to. *)
Definition next_table (tbl idx flags : Z) : M mst Z :=
  e ← rd (tbl + 8 * idx);
  (if negb (has e PTE_PRESENT) then
     phys ← palloc_zero;
     wr (tbl + 8 * idx)
       (Z.lor (Z.lor (Z.lor phys PTE_PRESENT) PTE_WRITABLE) (Z.land flags PTE_USER))
   else wr (tbl + 8 * idx) (Z.lor e (Z.land flags PTE_USER))) ;;
  e' ← rd (tbl + 8 * idx);
  mret (u64 (page_of e' + hhdm)).

Definition final_flags (nx : bool) (flags : Z) : Z :=
  if nx then Z.land flags (Z.lnot PTE_NX) else flags.

Definition map_page (pml4 virt phys flags : Z) : M mst unit :=
  pdp ← next_table pml4 (PML4_IDX virt) flags;
  pd ← next_table pdp (PDP_IDX virt) flags;
  pt ← next_table pd (PD_IDX virt) flags;
  nx ← gets nx_supported;
  wr (pt + 8 * PT_IDX virt)
    (Z.lor (Z.lor (page_of phys) (final_flags nx flags)) PTE_PRESENT).

Definition map_page_huge (pml4 virt phys flags : Z) : M mst unit :=
  pdp ← next_table pml4 (PML4_IDX virt) flags;
  pd ← next_table pdp (PDP_IDX virt) flags;
  nx ← gets nx_supported;
  wr (pd + 8 * PD_IDX virt)
    (Z.lor (Z.lor (Z.lor (Z.land phys (Z.lnot 0x1FFFFF)) (final_flags nx flags)) PTE_PRESENT)
       PTE_HUGE).

Definition unmap_page (pml4 virt : Z) : M mst unit :=
  e4 ← rd (pml4 + 8 * PML4_IDX virt);
  if negb (has e4 PTE_PRESENT) then mret tt else
  let pdp := u64 (page_of e4 + hhdm) in
  e3 ← rd (pdp + 8 * PDP_IDX virt);
  if negb (has e3 PTE_PRESENT) then mret tt else
  let pd := u64 (page_of e3 + hhdm) in
  e2 ← rd (pd + 8 * PD_IDX virt);
  if negb (has e2 PTE_PRESENT) then mret tt else
  let pt := u64 (page_of e2 + hhdm) in
  wr (pt + 8 * PT_IDX virt) 0.

Definition vmm_virt_to_phys (pml4 virt : Z) : M mst Z :=
  e4 ← rd (pml4 + 8 * PML4_IDX virt);
  if negb (has e4 PTE_PRESENT) then mret 0 else
  let pdpt := PHYS_TO_VIRT (page_of e4) in
  e3 ← rd (pdpt + 8 * PDP_IDX virt);
  if negb (has e3 PTE_PRESENT) then mret 0 else
  if has e3 PTE_HUGE then
    mret (u64 (Z.land e3 (Z.lnot 0x3FFFFFFF) + Z.land virt 0x3FFFFFFF)) else
  let pd := PHYS_TO_VIRT (page_of e3) in
  e2 ← rd (pd + 8 * PD_IDX virt);
  if negb (has e2 PTE_PRESENT) then mret 0 else
  if has e2 PTE_HUGE then
    mret (u64 (Z.land e2 (Z.lnot 0x1FFFFF) + Z.land virt 0x1FFFFF)) else
  let pt := PHYS_TO_VIRT (page_of e2) in
  e1 ← rd (pt + 8 * PT_IDX virt);
  if negb (has e1 PTE_PRESENT) then mret 0 else
  mret (u64 (page_of e1 + low12 virt)).

(** The loop of [vmm_map_region]; every round advances by at least a page, so
    [size / 4096 + 1] rounds are enough. *)
Fixpoint map_region_from (fuel : nat) (pml4 virt phys size flags offset : Z) : M mst unit :=
  if size <=? offset then mret tt else
  match fuel with
  | O => fault
  | S fuel' =>
      let curr_virt := u64 (virt + offset) in
      let curr_phys := u64 (phys + offset) in
      let remaining := size - offset in
      if (curr_virt `mod` 0x200000 =? 0) && (curr_phys `mod` 0x200000 =? 0) &&
         (0x200000 <=? remaining)
      then map_page_huge pml4 curr_virt curr_phys flags ;;
           map_region_from fuel' pml4 virt phys size flags (u64 (offset + 0x200000))
      else map_page pml4 curr_virt curr_phys flags ;;
           map_region_from fuel' pml4 virt phys size flags (u64 (offset + PAGE_SIZE))
  end.

Definition vmm_map_region (pml4 virt phys size flags : Z) : M mst unit :=
  map_region_from (Z.to_nat (size `div` 4096 + 1)) pml4 virt phys size flags 0.

(** ** Translation, as a function of memory *)

Definition idx (n : nat) (virt : Z) : Z :=
  match n with
  | 1%nat => PT_IDX virt | 2%nat => PD_IDX virt | 3%nat => PDP_IDX virt | _ => PML4_IDX virt
  end.

(** The table an entry points to. *)
Definition table_of (e : Z) : Z := PHYS_TO_VIRT (page_of e).

(** A leaf above the last level: a 1 GiB or 2 MiB page. *)
Definition leaf_mask (n : nat) : Z := match n with 3%nat => 0x3FFFFFFF | _ => 0x1FFFFF end.
Definition is_leaf (n : nat) (e : Z) : bool :=
  match n with 3%nat | 2%nat => has e PTE_HUGE | _ => false end.

(** The walk from table [t] of level [n] (4 is the top). *)
Fixpoint trans (n : nat) (m : gmap Z Z) (t virt : Z) : Z :=
  match n with
  | O => 0
  | S n' =>
      let e := word m t (idx n virt) in
      if negb (has e PTE_PRESENT) then 0
      else if is_leaf n e
      then u64 (Z.land e (Z.lnot (leaf_mask n)) + Z.land virt (leaf_mask n))
      else match n' with
           | O => u64 (page_of e + low12 virt)
           | _ => trans n' m (table_of e) virt
           end
  end.

Definition translate (s : mst) (root virt : Z) : Z := trans 4 (mem s) root virt.

Lemma idx_ok n virt : 0 ≤ idx n virt < 512.
Proof. destruct n as [|[|[|[]]]]; apply idx_range. Qed.

(** ** The forest of tables

    [T] gives every table in use its place: the root of its address space ([0]
    for the shared kernel half) and the indices that lead to it. *)

Abbreviation places := (gmap Z (Z * list Z)).

Definition level (l : list Z) : nat := 4 - length l.

(** The place of the table behind entry [i] of a table at [(r, l)]. *)
Definition below (rl : Z * list Z) (i : Z) : Z * list Z :=
  (if bool_decide (rl.2 = [] ∧ 256 ≤ i) then 0 else rl.1, rl.2 ++ [i]).

Context `{!BuddyOk}.

Record ptree (s : mst) (T : places) : Prop := {
  pt_mem : mem_ok s;
  pt_depth t r l : T !! t = Some (r, l) → (length l ≤ 3)%nat;
  pt_page t rl : T !! t = Some rl →
    t `mod` 4096 = 0 ∧ hhdm ≤ t ∧ t + 4096 ≤ 2 ^ 64 ∧ resident (mem s) t ∧ ¬ page_free s t;
  pt_child t r l i : T !! t = Some (r, l) → (length l < 3)%nat → 0 ≤ i < 512 →
    let e := word (mem s) t i in
    has e PTE_PRESENT = true → is_leaf (level l) e = false →
    T !! table_of e = Some (below (r, l) i) }.

(** [root] is the top table of an address space. *)
Definition is_root (T : places) (root : Z) : Prop := T !! root = Some (root, []).

(** ** Changes of memory that no translation sees *)

(** An entry gets more permission bits, or an absent entry gets an empty
    table. *)
Definition ent_sim (m' : gmap Z Z) (n : nat) (e e' : Z) : Prop :=
  (∃ u, (0 ≤ u < 4096 ∧ has u PTE_PRESENT = false ∧ has u PTE_HUGE = false) ∧ e' = Z.lor e u) ∨
  ((1 < n)%nat ∧ has e PTE_PRESENT = false ∧ is_leaf n e' = false ∧
   ∀ i, 0 ≤ i < 512 → word m' (table_of e') i = 0).

Lemma ent_sim_refl m' n e : ent_sim m' n e e.
Proof. left. exists 0. by rewrite Z.lor_0_r. Qed.

Lemma is_leaf_lor n e u : has u PTE_HUGE = false → is_leaf n (Z.lor e u) = is_leaf n e.
Proof. intros Hu. destruct n as [|[|[|[]]]]; simpl; rewrite ?has_lor, ?Hu, ?orb_false_r; done. Qed.

Lemma land_high e u k : 0 ≤ u < 4096 → 12 ≤ k →
  Z.land (Z.lor e u) (Z.lnot (Z.ones k)) = Z.land e (Z.lnot (Z.ones k)).
Proof.
  intros Hu Hk. rewrite Z.land_lor_distr_l.
  assert (Z.land u (Z.lnot (Z.ones k)) = 0) as ->; [|by rewrite Z.lor_0_r].
  rewrite <-Z.ldiff_land, Z.ldiff_ones_r, Z.shiftr_div_pow2 by lia.
  rewrite Z.div_small; [by rewrite Z.shiftl_0_l|].
  assert (2 ^ 12 ≤ 2 ^ k) by (apply Z.pow_le_mono_r; lia). lia.
Qed.

Lemma leaf_mask_ones n :
  leaf_mask n = Z.ones (match n with 3%nat => 30 | _ => 21 end).
Proof. by destruct n as [|[|[|[]]]]. Qed.

Lemma leaf_base n e u : 0 ≤ u < 4096 →
  Z.land (Z.lor e u) (Z.lnot (leaf_mask n)) = Z.land e (Z.lnot (leaf_mask n)).
Proof.
  intros Hu. rewrite leaf_mask_ones. apply land_high; [done|]. repeat case_match; lia.
Qed.

Lemma trans_empty n m t virt : (∀ i, 0 ≤ i < 512 → word m t i = 0) → trans n m t virt = 0.
Proof. intros Hz. destruct n; [done|]. cbn [trans]. by rewrite Hz by apply idx_ok. Qed.

Lemma trans_sim s m' T :
  ptree s T →
  (∀ t r l i, T !! t = Some (r, l) → 0 ≤ i < 512 →
     ent_sim m' (level l) (word (mem s) t i) (word m' t i)) →
  ∀ n t r l virt, T !! t = Some (r, l) → n = level l →
  trans n m' t virt = trans n (mem s) t virt.
Proof.
  intros HT Hsim n. induction n as [|n IH]; intros t r l virt Ht Hn; [done|].
  pose proof (idx_ok (S n) virt) as Hi.
  pose proof (Hsim t r l _ Ht Hi) as Hs. rewrite <-Hn in Hs.
  cbn [trans]. set (e := word (mem s) t (idx (S n) virt)) in *.
  set (e' := word m' t (idx (S n) virt)) in *. clearbody e'.
  destruct Hs as [(u & (Hu & Hp & Hh) & ->)|(Hn1 & Habs & Hleaf & Hz)].
  - rewrite has_lor, Hp, orb_false_r, is_leaf_lor, leaf_base, page_of_lor by done.
    destruct (has e PTE_PRESENT) eqn:Hpres; [cbn [negb]|done].
    destruct (is_leaf (S n) e) eqn:Hl; [done|]. destruct n as [|n']; [done|].
    unfold table_of. rewrite page_of_lor by done.
    pose proof (pt_depth _ _ HT t r l Ht) as Hd. unfold level in Hn.
    eapply IH; [eapply (pt_child _ _ HT t r l); [done|lia|done|done|]|].
    + unfold level. by rewrite <-Hn.
    + unfold level, below. simpl. rewrite length_app. simpl. lia.
  - rewrite Habs. cbn [negb]. destruct (has e' PTE_PRESENT); [cbn [negb]|done].
    rewrite Hleaf. destruct n as [|n']; [lia|]. by apply trans_empty.
Qed.

(** The walk meets no 1 GiB or 2 MiB page. *)
Fixpoint plain (n : nat) (m : gmap Z Z) (t virt : Z) : Prop :=
  match n with
  | O => True
  | S n' =>
      let e := word m t (idx n virt) in
      has e PTE_PRESENT = true →
      is_leaf n e = false ∧ match n' with O => True | _ => plain n' m (table_of e) virt end
  end.

Lemma plain_empty n m t virt : (∀ i, 0 ≤ i < 512 → word m t i = 0) → plain n m t virt.
Proof. intros Hz. destruct n; [done|]. cbn [plain]. by rewrite Hz by apply idx_ok. Qed.

Lemma plain_sim s m' T :
  ptree s T →
  (∀ t r l i, T !! t = Some (r, l) → 0 ≤ i < 512 →
     ent_sim m' (level l) (word (mem s) t i) (word m' t i)) →
  ∀ n t r l virt, T !! t = Some (r, l) → n = level l →
  plain n (mem s) t virt → plain n m' t virt.
Proof.
  intros HT Hsim n. induction n as [|n IH]; intros t r l virt Ht Hn; [done|].
  pose proof (idx_ok (S n) virt) as Hi.
  pose proof (Hsim t r l _ Ht Hi) as Hs. rewrite <-Hn in Hs.
  cbn [plain]. set (e := word (mem s) t (idx (S n) virt)) in *.
  set (e' := word m' t (idx (S n) virt)) in *. clearbody e'.
  destruct Hs as [(u & (Hu & Hp & Hh) & ->)|(Hn1 & Habs & Hleaf & Hz)].
  - rewrite has_lor, Hp, orb_false_r, is_leaf_lor by done. intros Hpl Hpr.
    destruct (Hpl Hpr) as [Hl Hrest]. split; [done|]. destruct n as [|n']; [done|].
    unfold table_of. rewrite page_of_lor by done.
    pose proof (pt_depth _ _ HT t r l Ht) as Hd. unfold level in Hn.
    eapply IH; [eapply (pt_child _ _ HT t r l); [done|lia|done|done|]| |done].
    + unfold level. by rewrite <-Hn.
    + unfold level, below. simpl. rewrite length_app. simpl. lia.
  - intros _ _. split; [done|]. destruct n as [|n']; [lia|]. by apply plain_empty.
Qed.

(** ** Creating tables *)

(** What creating tables leaves alone: every translation, the pages that are
    neither free nor tables, and the other globals. *)
Record extends (s s' : mst) (T T' : places) : Prop := {
  ex_sub : T ⊆ T';
  ex_tree : ptree s' T';
  ex_trans t r l n virt : T !! t = Some (r, l) → n = level l →
    trans n (mem s') t virt = trans n (mem s) t virt;
  ex_plain t r l n virt : T !! t = Some (r, l) → n = level l →
    plain n (mem s) t virt → plain n (mem s') t virt;
  ex_entry t r l i : T !! t = Some (r, l) → 0 ≤ i < 512 →
    let e := word (mem s) t i in let e' := word (mem s') t i in
    has e PTE_PRESENT = true →
    has e' PTE_PRESENT = true ∧ is_leaf (level l) e' = is_leaf (level l) e ∧
    table_of e' = table_of e;
  ex_free p : page_free s' p → page_free s p;
  ex_new p : T !! p = None → is_Some (T' !! p) → page_free s p;
  ex_data p : p `mod` 4096 = 0 → T !! p = None → ¬ page_free s p →
    same_page (mem s) (mem s') p;
  ex_rest : ∃ b m, s' = s <| pmm_buddy := b |> <| mem := m |> }.

Lemma extends_refl s T : ptree s T → extends s s T T.
Proof.
  intros HT. split; try done.
  - intros p Hp [? ?]. congruence.
  - destruct s. by eexists _, _.
Qed.

Lemma extends_trans s1 s2 s3 T1 T2 T3 :
  extends s1 s2 T1 T2 → extends s2 s3 T2 T3 → extends s1 s3 T1 T3.
Proof.
  intros [A1 A2 A3 A3p A3e A4 A5 A6 (b1 & m1 & E1)] [B1 B2 B3 B3p B3e B4 B5 B6 (b2 & m2 & E2)].
  split.
  - by etrans.
  - done.
  - intros t r l n virt Ht Hn. etrans; [eapply B3; [by eapply lookup_weaken|done]|by eapply A3].
  - intros t r l n virt Ht Hn Hp. eapply B3p; [by eapply lookup_weaken|done|by eapply A3p].
  - intros t r l i Ht Hi e e' He. destruct (A3e t r l i Ht Hi He) as (H1 & H2 & H3).
    destruct (B3e t r l i (lookup_weaken _ _ _ _ Ht A1) Hi H1) as (H4 & H5 & H6).
    unfold e'. rewrite H5, H6, H2, H3. done.
  - auto.
  - intros p Hp HS. destruct (T2 !! p) as [rl|] eqn:E; [by apply A5; [|eexists]|].
    by apply A4, B5.
  - intros p Ha Hp Hf. destruct (T2 !! p) as [rl|] eqn:E.
    + destruct Hf. by apply A5; [|eexists].
    + eapply same_page_trans; [by apply A6|]. apply B6; auto.
  - subst. by exists b2, m2.
Qed.

(** A store into a table. *)
Lemma ptree_wr s T t r l i e' :
  ptree s T → T !! t = Some (r, l) → 0 ≤ i < 512 →
  ((length l < 3)%nat → has e' PTE_PRESENT = true → is_leaf (level l) e' = false →
     T !! table_of e' = Some (below (r, l) i)) →
  ptree (s <| mem := <[t + 8 * i := e']> (mem s) |>) T.
Proof.
  intros HT Ht Hi Hc. pose proof HT as [Hm Hd Hp Hch]. split; simpl.
  - apply mem_ok_mem; [done|]. intros p. apply resident_insert.
  - done.
  - intros u rl Hu. destruct (Hp u rl Hu) as (? & ? & ? & ? & ?). split_and!; try done.
    by apply resident_insert.
  - intros u r' l' j Hu Hl Hj. destruct (decide (u = t)) as [->|Hne].
    + rewrite Ht in Hu. injection Hu as <- <-. rewrite word_insert by done.
      case_decide; [subst; auto|]. by apply Hch.
    + rewrite (same_page_word (mem s)); [by apply Hch| |done].
      apply same_page_insert; [| |done|done]; [by apply (Hp u _ Hu)|by apply (Hp t _ Ht)].
Qed.

(** Its effect on the entries of the tables. *)
Lemma wr_entries s T t r l i e' u r' l' j :
  ptree s T → T !! t = Some (r, l) → 0 ≤ i < 512 → T !! u = Some (r', l') → 0 ≤ j < 512 →
  word (<[t + 8 * i := e']> (mem s)) u j =
  if decide (u = t ∧ i = j) then e' else word (mem s) u j.
Proof.
  intros HT Ht Hi Hu Hj. destruct (decide (u = t)) as [->|Hne].
  - rewrite word_insert by done. repeat case_decide; naive_solver.
  - rewrite decide_False by naive_solver. apply same_page_word; [|done].
    apply same_page_insert; [| |done|done];
      [by apply (pt_page _ _ HT u _ Hu)|by apply (pt_page _ _ HT t _ Ht)].
Qed.

Lemma user_bit flags : let u := Z.land flags PTE_USER in
  0 ≤ u < 4096 ∧ has u PTE_PRESENT = false ∧ has u PTE_HUGE = false.
Proof.
  simpl. split; [by apply land_lt12|]. unfold has.
  rewrite <-!Z.land_assoc. change (Z.land PTE_USER PTE_PRESENT) with 0.
  change (Z.land PTE_USER PTE_HUGE) with 0. by rewrite Z.land_0_r.
Qed.

Lemma ent_sim_entry m' n e e' :
  ent_sim m' n e e' → has e PTE_PRESENT = true →
  has e' PTE_PRESENT = true ∧ is_leaf n e' = is_leaf n e ∧ table_of e' = table_of e.
Proof.
  intros [(u & (Hu & Hp & Hh) & ->)|(_ & ? & _)] He; [|congruence].
  unfold table_of. by rewrite has_lor, He, is_leaf_lor, page_of_lor.
Qed.

(** A present entry only gets the user bit. *)
Lemma upgrade_extends s T t r l i u :
  ptree s T → T !! t = Some (r, l) → 0 ≤ i < 512 →
  0 ≤ u < 4096 ∧ has u PTE_PRESENT = false ∧ has u PTE_HUGE = false →
  extends s (s <| mem := <[t + 8 * i := Z.lor (word (mem s) t i) u]> (mem s) |>) T T.
Proof.
  intros HT Ht Hi Hu. destruct (pt_page _ _ HT t _ Ht) as (Ha & _ & _ & Hr & Hnf).
  assert (ptree (s <| mem := <[t + 8 * i := Z.lor (word (mem s) t i) u]> (mem s) |>) T) as HT'.
  { eapply ptree_wr; [done..|]. destruct Hu as (Hu & Hup & Huh).
    rewrite has_lor, Hup, orb_false_r, is_leaf_lor by done.
    intros Hl Hpr Hle. unfold table_of. rewrite page_of_lor by done.
    by apply (pt_child _ _ HT t r l). }
  assert (∀ v rv lv j, T !! v = Some (rv, lv) → 0 ≤ j < 512 →
    ent_sim (<[t + 8 * i := Z.lor (word (mem s) t i) u]> (mem s)) (level lv) (word (mem s) v j)
      (word (<[t + 8 * i := Z.lor (word (mem s) t i) u]> (mem s)) v j)) as Hsim.
  { intros v rv lv j Hv Hj. rewrite (wr_entries s T t r l i _ v rv lv j HT Ht Hi Hv Hj).
    case_decide as E; [destruct E as [-> ->]|apply ent_sim_refl]. left. by exists u. }
  split; try done; simpl.
  - intros. by eapply (trans_sim s _ T HT).
  - intros. by eapply (plain_sim s _ T HT).
  - intros v rv lv j Hv Hj. eapply ent_sim_entry, Hsim; done.
  - intros p Hp [? ?]. congruence.
  - intros p Hpa Hp _. apply same_page_insert; try done. congruence.
  - exists (pmm_buddy s). eexists. by destruct s.
Qed.

(** An absent entry gets a new, empty table. *)
Lemma create_extends s s1 T t r l i p f :
  ptree s T → T !! t = Some (r, l) → (length l < 3)%nat → 0 ≤ i < 512 →
  has (word (mem s) t i) PTE_PRESENT = false →
  got_page s p s1 → mem_ok s1 → 0 ≤ f < 4096 → has f PTE_HUGE = false →
  let s2 := s1 <| mem := <[t + 8 * i := Z.lor (VIRT_TO_PHYS p) f]> (mem s1) |> in
  let T' := <[p := below (r, l) i]> T in
  extends s s2 T T' ∧ table_of (Z.lor (VIRT_TO_PHYS p) f) = p.
Proof.
  intros HT Ht Hl Hi Habs [Gf Ga [Gr1 Gr2] Gz Gres Gsame Gp Gleft Gused Grest] Hok Hf Hfh s2 T'.
  destruct (virt_phys_aligned p Gr1 Gr2 Ga) as (Hva & _ & _).
  assert (table_of (Z.lor (VIRT_TO_PHYS p) f) = p) as Htab
    by (unfold table_of; by rewrite page_of_entry, phys_virt).
  assert (T !! p = None) as HpT.
  { destruct (T !! p) as [rl|] eqn:E; [|done]. by destruct (pt_page _ _ HT p _ E) as (_ & _ & _ & _ & ?). }
  assert (∀ v rv, T !! v = Some rv → v ≠ p) as Hne by (intros; congruence).
  assert (∀ v rv, T !! v = Some rv → same_page (mem s) (mem s1) v) as Hsame1.
  { intros v rv Hv. apply Gsame; [by apply (pt_page _ _ HT v _ Hv)|by eapply Hne]. }
  assert (ptree s1 T) as HT1.
  { split; [done|apply (pt_depth _ _ HT)| |].
    - intros v rv Hv. destruct (pt_page _ _ HT v rv Hv) as (? & ? & ? & ? & Hnf).
      split_and!; try done; [by apply Gres|]. intros Hx. by apply Hnf, Gleft.
    - intros v rv lv j Hv Hlv Hj. rewrite (same_page_word (mem s)); [|by eapply Hsame1|done].
      by apply (pt_child _ _ HT). }
  assert (T' !! t = Some (r, l)) as Ht' by (unfold T'; rewrite lookup_insert_ne; congruence).
  assert (ptree s1 T') as HT1'.
  { split; [done| | |].
    - intros v rv lv. unfold T'. rewrite lookup_insert. case_decide; [|apply (pt_depth _ _ HT)].
      intros [= <- <-]. rewrite length_app. simpl. lia.
    - intros v rv. unfold T'. rewrite lookup_insert. case_decide; [|apply (pt_page _ _ HT1)].
      intros _. subst v. split_and!; try done; [lia|]. intros [_ ?]%Gleft. done.
    - intros v rv lv j. unfold T'. rewrite lookup_insert. case_decide.
      + intros _ _ Hj. subst v. rewrite Gz by done. done.
      + intros Hv Hlv Hj. simpl. intros Hpr Hle. rewrite lookup_insert_ne.
        * by apply (pt_child _ _ HT1).
        * intros E. pose proof (pt_child _ _ HT1 v rv lv j Hv Hlv Hj Hpr Hle) as Hx. congruence. }
  assert (∀ w rw lw j, T !! w = Some (rw, lw) → 0 ≤ j < 512 →
    ent_sim (mem s2) (level lw) (word (mem s) w j) (word (mem s2) w j)) as Hsim.
  { intros w rw lw j Hw Hj. unfold s2. simpl.
    rewrite (wr_entries s1 T t r l i _ w rw lw j HT1 Ht Hi Hw Hj).
    case_decide as E.
    - destruct E as [-> ->]. rewrite Ht in Hw. injection Hw as <- <-.
      right. unfold level. split_and!; [lia|done| |].
      + destruct (4 - length l)%nat as [|[|[|[]]]]; simpl; rewrite ?has_entry by done; done.
      + intros k Hk. rewrite Htab. rewrite (same_page_word (mem s1)); [by apply Gz| |done].
        apply same_page_insert; try done; [by apply (pt_page _ _ HT t _ Ht)|]. by apply not_eq_sym, (Hne t _ Ht).
    - rewrite (same_page_word (mem s) (mem s1) w j); [apply ent_sim_refl|by eapply Hsame1|done]. }
  split; [|done]. split.
  - by apply insert_subseteq.
  - eapply ptree_wr; [done..|]. intros _ _ _. rewrite Htab. apply lookup_insert_eq.
  - intros. by eapply (trans_sim s _ T HT).
  - intros. by eapply (plain_sim s _ T HT).
  - intros v rv lv j Hv Hj. eapply ent_sim_entry, Hsim; done.
  - intros q Hq. by apply Gleft in Hq as [? _].
  - intros q Hq. unfold T'. rewrite lookup_insert. case_decide; [by subst|].
    intros [? ?]. congruence.
  - intros q Hqa Hq Hqf. assert (q ≠ p) by congruence.
    apply (same_page_trans _ (mem s1)); [by apply Gsame|].
    apply same_page_insert; try done; [by apply (pt_page _ _ HT t _ Ht)|congruence].
  - destruct Grest as (b & m & ->). exists (Some b). eexists. done.
Qed.

Lemma next_table_spec s T t r l i flags :
  ptree s T → T !! t = Some (r, l) → (length l < 3)%nat → 0 ≤ i < 512 →
  (has (word (mem s) t i) PTE_PRESENT = true → is_leaf (level l) (word (mem s) t i) = false) →
  wph out_of_memory (next_table t i flags)
    (λ c s', ∃ T', extends s s' T T' ∧ T' !! c = Some (below (r, l) i) ∧
       has (word (mem s') t i) PTE_PRESENT = true ∧
       is_leaf (level l) (word (mem s') t i) = false ∧ c = table_of (word (mem s') t i)) s.
Proof.
  intros HT Ht Hl Hi Hleaf. destruct (pt_page _ _ HT t _ Ht) as (Ha & _ & _ & Hr & Hnf).
  pose proof (user_bit flags) as Hu. unfold next_table.
  apply wph_bind, wph_wp, wp_rd; [done..|]. apply wph_bind.
  destruct (has (word (mem s) t i) PTE_PRESENT) eqn:Hpr; cbn [negb].
  - apply wph_wp, wp_wr; [done..|]. apply wph_bind, wph_wp, wp_rd; [by apply resident_insert|done|].
    apply wph_ret. simpl. rewrite word_insert, decide_True by done.
    exists T. split; [by apply (upgrade_extends s T t r l)|].
    simpl in Hu. destruct Hu as (Hu & Hup & Huh). unfold table_of.
    rewrite has_lor, Hpr, is_leaf_lor, !page_of_lor by done. split_and!; auto.
    by apply (pt_child _ _ HT t r l); auto.
  - apply wph_bind. eapply wph_mono; [by apply palloc_zero_spec, (pt_mem _ _ HT)|].
    intros phys s1 (p & -> & Hp0 & Hgot & Hok).
    assert (Z.lor (Z.lor (Z.lor (VIRT_TO_PHYS p) PTE_PRESENT) PTE_WRITABLE)
      (Z.land flags PTE_USER) =
      Z.lor (VIRT_TO_PHYS p) (Z.lor 3 (Z.land flags PTE_USER))) as ->
      by (change 3 with (Z.lor PTE_PRESENT PTE_WRITABLE); by rewrite !Z.lor_assoc).
    destruct (create_extends s s1 T t r l i p (Z.lor 3 (Z.land flags PTE_USER))) as [Hex Htab];
      try done.
    { apply lor_lt12; [lia|apply Hu]. }
    { rewrite has_lor. destruct Hu as (_ & _ & ->). done. }
    apply wph_wp, wp_wr; [by apply (gp_resident _ _ _ Hgot)|done|].
    apply wph_bind, wph_wp, wp_rd; [by apply resident_insert, (gp_resident _ _ _ Hgot)|done|].
    apply wph_ret. simpl. rewrite word_insert, decide_True by done.
    set (e' := Z.lor (VIRT_TO_PHYS p) (Z.lor 3 (Z.land flags PTE_USER))) in *.
    change (u64 (page_of e' + hhdm)) with (table_of e').
    eexists. split; [exact Hex|]. rewrite Htab. split_and!; [apply lookup_insert_eq| | |done].
    + unfold e'. rewrite !has_lor. destruct (has (VIRT_TO_PHYS p) PTE_PRESENT); done.
    + destruct (virt_phys_aligned p) as (Hva & _); [by apply Hgot..|].
      assert (has e' PTE_HUGE = false) as Hh.
      { unfold e'. rewrite has_entry, has_lor; [by destruct Hu as (_ & _ & ->)|done| |done].
        apply lor_lt12; [lia|apply Hu]. }
      destruct (level l) as [|[|[|[]]]]; done.
Qed.

(** ** Mapping a page *)

(** The place of the table of level [k] of the walk from a table of level
    [n]. *)
Fixpoint dest (k n : nat) (rl : Z * list Z) (virt : Z) : Z * list Z :=
  if decide (n = k) then rl else
  match n with
  | O => rl
  | S n' => dest k n' (below rl (idx n virt)) virt
  end.

Lemma dest_below k n rl virt :
  (n < k)%nat → length (dest k n rl virt).2 = (length rl.2 + n)%nat.
Proof.
  revert rl. induction n as [|n IH]; intros rl Hk; cbn [dest]; rewrite decide_False by lia; [lia|].
  rewrite IH by lia. unfold below. cbn [snd]. rewrite length_app. simpl. lia.
Qed.

(** A store into a table changes only the walks that read the entry. *)
Lemma walk_wr s T u ru lu i e' :
  ptree s T → T !! u = Some (ru, lu) → 0 ≤ i < 512 →
  ∀ n t r l virt, T !! t = Some (r, l) → n = level l →
  (dest (level lu) n (r, l) virt ≠ (ru, lu) ∨ idx (level lu) virt ≠ i) →
  trans n (<[u + 8 * i := e']> (mem s)) t virt = trans n (mem s) t virt ∧
  (plain n (mem s) t virt → plain n (<[u + 8 * i := e']> (mem s)) t virt).
Proof.
  intros HT Hu Hi n. induction n as [|n IH]; intros t r l virt Ht Hn Hd; [done|].
  pose proof (idx_ok (S n) virt) as Hj. pose proof (pt_depth _ _ HT t r l Ht) as Hlen.
  cbn [trans plain].
  rewrite (wr_entries s T u ru lu i e' t r l _ HT Hu Hi Ht Hj). case_decide as E.
  - destruct E as [-> E]. rewrite Hu in Ht. injection Ht as <- <-. exfalso.
    rewrite <-Hn in Hd. cbn [dest] in Hd. rewrite decide_True in Hd by done. naive_solver.
  - set (e := word (mem s) t (idx (S n) virt)).
    destruct (has e PTE_PRESENT) eqn:Hp; [cbn [negb]|done].
    destruct (is_leaf (S n) e) eqn:Hl; [split; [done|naive_solver]|].
    destruct n as [|n']; [done|]. unfold level in Hn.
    destruct (IH (table_of e) _ _ virt
      (pt_child _ _ HT t r l (idx (S (S n')) virt) Ht ltac:(lia) Hj Hp
         ltac:(unfold level; by rewrite <-Hn))) as [IH1 IH2].
    + unfold level. rewrite length_app. simpl. lia.
    + cbn [dest] in Hd. destruct (decide (S (S n') = level lu)) as [El|]; [|done].
      left. intros Ed. apply (f_equal (λ rl, length rl.2)) in Ed. rewrite dest_below in Ed by lia.
      pose proof (pt_depth _ _ HT u ru lu Hu). unfold below in Ed. cbn [snd] in Ed.
      rewrite length_app in Ed. simpl in Ed. lia.
    + split; [done|]. naive_solver.
Qed.

(** Entry [i] of table [t] points to table [c]. *)
Definition link (m : gmap Z Z) (n : nat) (t i c : Z) : Prop :=
  has (word m t i) PTE_PRESENT = true ∧ is_leaf n (word m t i) = false ∧
  table_of (word m t i) = c.

Lemma trans_link n m t virt c :
  link m (S (S n)) t (idx (S (S n)) virt) c →
  trans (S (S n)) m t virt = trans (S n) m c virt.
Proof. intros (Hp & Hl & <-). cbn [trans]. by rewrite Hp, Hl. Qed.

Lemma plain_link n m t virt c :
  link m (S (S n)) t (idx (S (S n)) virt) c →
  plain (S (S n)) m t virt → plain (S n) m c virt.
Proof. intros (Hp & Hl & <-) Hpl. cbn [plain] in Hpl. by destruct (Hpl Hp). Qed.
Lemma link_plain n m t virt c :
  link m (S (S n)) t (idx (S (S n)) virt) c → plain (S n) m c virt → plain (S (S n)) m t virt.
Proof. intros (_ & Hl & Ht) Hp. cbn [plain]. intros _. by rewrite Ht. Qed.


Lemma link_extends s s' T T' t r l i c :
  extends s s' T T' → T !! t = Some (r, l) → 0 ≤ i < 512 →
  link (mem s) (level l) t i c → link (mem s') (level l) t i c.
Proof.
  intros Hex Ht Hi (Hp & Hl & Hc).
  destruct (ex_entry _ _ _ _ Hex t r l i Ht Hi Hp) as (? & ? & ?).
  split_and!; congruence.
Qed.

(** A store into another table. *)
Lemma link_wr s T u r' l' j e' t r l n i c :
  ptree s T → T !! u = Some (r', l') → 0 ≤ j < 512 → T !! t = Some (r, l) → 0 ≤ i < 512 →
  length l ≠ length l' →
  link (mem s) n t i c → link (<[u + 8 * j := e']> (mem s)) n t i c.
Proof.
  intros HT Hu Hj Ht Hi Hne Hl. unfold link.
  rewrite (wr_entries s T u r' l' j e' t r l i HT Hu Hj Ht Hi), decide_False; [done|].
  intros [-> _]. congruence.
Qed.

Definition place1 (root virt : Z) : Z * list Z := below (root, []) (PML4_IDX virt).
Definition place2 (root virt : Z) : Z * list Z := below (place1 root virt) (PDP_IDX virt).

(** The page directory that [map_page] and [map_page_huge] reach. *)
Lemma two_tables s T root virt flags :
  ptree s T → is_root T root → plain 4 (mem s) root virt →
  wph out_of_memory (pdp ← next_table root (PML4_IDX virt) flags;
                     next_table pdp (PDP_IDX virt) flags)
    (λ pd s', ∃ T' pdp, extends s s' T T' ∧
       T' !! pdp = Some (place1 root virt) ∧ T' !! pd = Some (place2 root virt) ∧
       link (mem s') 4 root (PML4_IDX virt) pdp ∧ link (mem s') 3 pdp (PDP_IDX virt) pd ∧
       plain 2 (mem s') pd virt) s.
Proof.
  intros HT Hroot Hplain. apply wph_bind.
  eapply wph_mono; [eapply (next_table_spec s T root root []); [done|done|simpl; lia|apply idx_range|]|].
  { intros Hp. by destruct (Hplain Hp). }
  intros pdp s1 (T1 & Hex1 & Hpdp & Hp1 & Hl1 & Epdp).
  assert (link (mem s1) 4 root (PML4_IDX virt) pdp) as Hk1 by done.
  pose proof (ex_plain _ _ _ _ Hex1 root root [] 4 virt Hroot eq_refl Hplain) as Hplain1.
  apply (plain_link 2 _ _ _ pdp) in Hplain1; [|done].
  eapply wph_mono; [eapply (next_table_spec s1 T1 pdp);
    [apply Hex1|exact Hpdp|simpl; lia|apply idx_range|]|].
  { intros Hp. by destruct (Hplain1 Hp). }
  intros pd s2 (T2 & Hex2 & Hpd & Hp2 & Hl2 & Epd).
  assert (link (mem s2) 3 pdp (PDP_IDX virt) pd) as Hk2 by done.
  assert (is_root T1 root) as Hroot1 by (by eapply lookup_weaken, Hex1).
  exists T2, pdp. split_and!; [by eapply extends_trans| |done| |done|].
  - by eapply lookup_weaken, Hex2.
  - by apply (link_extends s1 s2 T1 T2 root root []); [| |apply idx_range|].
  - pose proof (ex_plain _ _ _ _ Hex2 pdp _ _ 3 virt Hpdp eq_refl Hplain1) as Hplain2.
    by apply (plain_link 1 _ pdp).
Qed.

(** ** Different pages have different indices *)

Lemma idx_div v : let q := v `div` 4096 in
  PT_IDX v = q `mod` 512 ∧ PD_IDX v = (q `div` 512) `mod` 512 ∧
  PDP_IDX v = ((q `div` 512) `div` 512) `mod` 512 ∧
  PML4_IDX v = (((q `div` 512) `div` 512) `div` 512) `mod` 512.
Proof.
  unfold PT_IDX, PD_IDX, PDP_IDX, PML4_IDX. change 511 with (Z.ones 9).
  rewrite !Z.land_ones, !Z.shiftr_div_pow2, !Z.div_div by lia. done.
Qed.

Lemma digits_eq q q' :
  q `mod` 512 = q' `mod` 512 → (q `div` 512) `mod` 512 = (q' `div` 512) `mod` 512 →
  ((q `div` 512) `div` 512) `mod` 512 = ((q' `div` 512) `div` 512) `mod` 512 →
  (((q `div` 512) `div` 512) `div` 512) `mod` 512 =
    (((q' `div` 512) `div` 512) `div` 512) `mod` 512 →
  Z.abs (q - q') < 2 ^ 36 → q = q'.
Proof. change (2 ^ 36) with 68719476736. intros. Z.div_mod_to_equations. lia. Qed.

Lemma page_idx v v' k : page_of v' = page_of v → idx k v' = idx k v.
Proof.
  intros E. rewrite !page_of_sub, !Zmod_eq_full in E by done.
  assert (v' `div` 4096 = v `div` 4096) as E' by lia.
  destruct (idx_div v) as (D1 & D2 & D3 & D4), (idx_div v') as (D1' & D2' & D3' & D4').
  cbn in *. destruct k as [|[|[|[|k]]]]; cbn [idx]; congruence.
Qed.

(** What mapping the page of [virt] in the space [root] leaves: the tables
    still form a forest, and every other translation is as before.  A
    translation is another one if it differs in an index, or belongs to
    another space and the page is in the user half. *)
Definition other_page (n : nat) (root virt root' virt' : Z) : Prop :=
  (∃ k, (n ≤ k ≤ 4)%nat ∧ idx k virt' ≠ idx k virt) ∨ (root' ≠ root ∧ PML4_IDX virt < 256).

Record remapped (n : nat) (s s' : mst) (T T' : places) (root virt : Z) : Prop := {
  rm_sub : T ⊆ T';
  rm_tree : ptree s' T';
  rm_other root' virt' : is_root T root' → other_page n root virt root' virt' →
    translate s' root' virt' = translate s root' virt' ∧
    (plain 4 (mem s) root' virt' → plain 4 (mem s') root' virt');
  rm_data p : p `mod` 4096 = 0 → T !! p = None → ¬ page_free s p →
    same_page (mem s) (mem s') p;
  rm_new p : T !! p = None → is_Some (T' !! p) → page_free s p;
  rm_free p : page_free s' p → page_free s p;
  rm_rest : ∃ b m, s' = s <| pmm_buddy := b |> <| mem := m |> }.

Lemma below_inj rl rl' i i' :
  below rl i = below rl' i' →
  i = i' ∧ rl.2 = rl'.2 ∧ (rl.2 ≠ [] ∨ i < 256 → rl = rl').
Proof.
  destruct rl as [r l], rl' as [r' l']. unfold below. cbn [fst snd]. intros [= E1 E2].
  apply app_inj_tail in E2 as [-> ->]. split_and!; [done..|].
  intros Hc. f_equal. case_bool_decide as Hb; [|done]. exfalso. destruct Hb, Hc; [done|lia].
Qed.

Lemma below_cons rl i : (below rl i).2 ≠ [].
Proof. unfold below. cbn [snd]. by destruct rl.2. Qed.

Lemma dest_other n root virt root' virt' :
  (1 ≤ n ≤ 2)%nat → other_page n root virt root' virt' →
  dest n 4 (root', []) virt' ≠ dest n 4 (root, []) virt ∨ idx n virt' ≠ idx n virt.
Proof.
  intros Hn Ho. destruct (decide (idx n virt' = idx n virt)) as [E1|]; [left|by right].
  assert (∀ r v, dest 2 4 (r, []) v = below (below (r, []) (PML4_IDX v)) (PDP_IDX v)) as D2
    by done.
  assert (∀ r v, dest 1 4 (r, []) v =
    below (below (below (r, []) (PML4_IDX v)) (PDP_IDX v)) (PD_IDX v)) as D1 by done.
  assert (dest 2 4 (root', []) virt' = dest 2 4 (root, []) virt →
    other_page 3 root virt root' virt' → False) as Htop.
  { rewrite !D2. intros (E3 & _ & R3)%below_inj Ho3.
    apply below_inj in R3 as (E4 & _ & R4); [|left; apply below_cons].
    destruct Ho3 as [(k & Hk & Hne)|[Hr Hu]].
    - destruct k as [|[|[|[|[|k]]]]]; try lia; by destruct Hne.
    - assert ((root', @nil Z) = (root, [])) by (apply R4; right; cbn; lia). congruence. }
  destruct n as [|[|[|n]]]; try lia.
  - rewrite !D1. intros (E2 & _ & R2)%below_inj. apply Htop; [apply R2; left; apply below_cons|].
    destruct Ho as [(k & Hk & Hne)|?]; [left|by right].
    exists k. split; [|done]. destruct k as [|[|[|k]]]; try lia; by destruct Hne.
  - intros Hd. apply Htop; [done|].
    destruct Ho as [(k & Hk & Hne)|?]; [left|by right].
    exists k. split; [|done]. destruct k as [|[|[|k]]]; try lia; by destruct Hne.
Qed.

(** The forest and the untouched translations after the last store of
    [map_page] ([n = 1]) or [map_page_huge] ([n = 2]), into table [u] of level
    [n] reached by creating tables. *)
Lemma leaf_store n s s3 T T3 root virt u e :
  (1 ≤ n ≤ 2)%nat →
  ptree s T → is_root T root → extends s s3 T T3 →
  T3 !! u = Some (dest n 4 (root, []) virt) →
  (n = 2%nat → has e PTE_HUGE = true) →
  remapped n s (s3 <| mem := <[u + 8 * idx n virt := e]> (mem s3) |>) T T3 root virt.
Proof.
  intros Hn HT Hroot Hex Hu He. pose proof (ex_tree _ _ _ _ Hex) as HT3.
  assert (length (dest n 4 (root, []) virt).2 = 4 - n)%nat as Hlen
    by (destruct n as [|[|[|]]]; [lia|done|done|lia]).
  destruct (dest n 4 (root, []) virt) as [ru lu] eqn:Edest. cbn [snd] in Hlen.
  assert (level lu = n) as Hlv by (unfold level; lia).
  pose proof (idx_ok n virt) as Hi. destruct (pt_page _ _ HT3 u _ Hu) as (Hua & _).
  split.
  - apply Hex.
  - eapply ptree_wr; [done..|]. intros Hl3 Hp Hl. assert (n = 2%nat) as -> by lia.
    rewrite Hlv in Hl. cbn in Hl. by rewrite He in Hl.
  - intros root' virt' Hr' Ho. unfold translate. change (mem (s3 <| mem := ?m |>)) with m.
    destruct (walk_wr s3 T3 u ru lu _ e HT3 Hu Hi 4 root' root' [] virt') as [W1 W2].
    + by eapply lookup_weaken, Hex.
    + done.
    + rewrite Hlv, <-Edest. by apply dest_other.
    + split; [rewrite W1; by apply (ex_trans _ _ _ _ Hex root' root' [])|].
      intros Hpl. by apply W2, (ex_plain _ _ _ _ Hex root' root' []).
  - intros p Ha Hp Hf. apply (same_page_trans _ (mem s3)); [by apply Hex|].
    apply same_page_insert; try done. intros ->.
    apply Hf, (ex_new _ _ _ _ Hex); [done|]. by eexists.
  - apply (ex_new _ _ _ _ Hex).
  - intros p Hp. by apply (ex_free _ _ _ _ Hex).
  - destruct (ex_rest _ _ _ _ Hex) as (b & m & ->). by eexists _, _.
Qed.

Lemma final_flags_low nx flags : 0 ≤ flags < 4096 → final_flags nx flags = flags.
Proof.
  intros Hf. unfold final_flags. destruct nx; [|done]. rewrite <-Z.sub_land_same_l.
  change PTE_NX with (2 ^ 63). replace (Z.land flags (2 ^ 63)) with 0; [lia|].
  symmetry. rewrite <-(Z.mod_small flags (2 ^ 12)), <-Z.land_ones by lia.
  by rewrite <-Z.land_assoc, Z.land_0_r.
Qed.

(** The no-execute bit may be among the flags where [map_page] drops it. *)
Lemma map_page_flags s T root virt phys flags :
  ptree s T → is_root T root → plain 4 (mem s) root virt →
  0 ≤ final_flags (nx_supported s) flags < 4096 →
  wph out_of_memory (map_page root virt phys flags)
    (λ _ s', (∃ T', remapped 1 s s' T T' root virt) ∧
       ∀ virt', page_of virt' = page_of virt →
       translate s' root virt' = u64 (page_of phys + low12 virt') ∧ plain 4 (mem s') root virt') s.
Proof.
  intros HT Hroot Hplain Hfl. unfold map_page. apply wph_assoc.
  eapply wph_mono; [by apply two_tables|].
  intros pd s2 (T2 & pdp & Hex & Hpdp & Hpd & Hk4 & Hk3 & Hpl). apply wph_bind.
  eapply wph_mono; [eapply (next_table_spec s2 T2 pd);
    [apply Hex|exact Hpd|simpl; lia|apply idx_range|]|].
  { intros Hp. by destruct (Hpl Hp). }
  intros pt s3 (T3 & Hex3 & Hpt & Hp3 & Hl3 & Ept).
  assert (link (mem s3) 2 pd (PD_IDX virt) pt) as Hk2 by done.
  assert (is_root T2 root) as Hroot2 by (by eapply lookup_weaken, Hex).
  apply (link_extends s2 s3 T2 T3 root root []) in Hk4; [|done..|apply idx_range].
  apply (link_extends s2 s3 T2 T3 pdp _ _ _ _ Hex3 Hpdp) in Hk3; [|apply idx_range].
  pose proof (ex_tree _ _ _ _ Hex3) as HT3. pose proof (idx_ok 1 virt) as Hi. cbn in Hi.
  apply wph_bind, wph_gets, wph_wp, wp_wr; [by apply (pt_page _ _ HT3 pt _ Hpt)|done|].
  assert (extends s s3 T T3) as Hex' by (by eapply extends_trans).
  assert (nx_supported s3 = nx_supported s) as -> by (by destruct (ex_rest _ _ _ _ Hex') as (? & ? & ->)).
  set (e := Z.lor (Z.lor (page_of phys) (final_flags (nx_supported s) flags)) PTE_PRESENT).
  split; [exists T3; by apply (leaf_store 1); [lia|..]|].
  intros virt' Hv. unfold translate. change (mem (s3 <| mem := ?m |>)) with m.
  assert (∀ k, idx k virt' = idx k virt) as Hidx by (intros k; by apply page_idx).
  assert (∀ t r l n i c, T3 !! t = Some (r, l) → (length l < 3)%nat → 0 ≤ i < 512 →
    link (mem s3) n t i c → link (<[pt + 8 * PT_IDX virt := e]> (mem s3)) n t i c) as Hkeep.
  { intros. eapply (link_wr s3 T3 pt); try done. simpl. lia. }
  assert (link (<[pt + 8 * PT_IDX virt := e]> (mem s3)) 4 root (idx 4 virt') pdp) as L4.
  { rewrite Hidx.
    eapply (Hkeep root); [by eapply lookup_weaken, Hex3|simpl; lia|apply idx_range|done]. }
  assert (link (<[pt + 8 * PT_IDX virt := e]> (mem s3)) 3 pdp (idx 3 virt') pd) as L3.
  { rewrite Hidx.
    eapply (Hkeep pdp); [by eapply lookup_weaken, Hex3|simpl; lia|apply idx_range|done]. }
  assert (link (<[pt + 8 * PT_IDX virt := e]> (mem s3)) 2 pd (idx 2 virt') pt) as L2.
  { rewrite Hidx.
    eapply (Hkeep pd); [by eapply lookup_weaken, Hex3|simpl; lia|apply idx_range|done]. }
  rewrite (trans_link 2 _ _ _ pdp), (trans_link 1 _ _ _ pd), (trans_link 0 _ _ _ pt) by done. split.
  - cbn [trans]. rewrite Hidx. change (idx 1 virt) with (PT_IDX virt).
    rewrite word_insert, decide_True by done. unfold e.
    rewrite <-Z.lor_assoc.
    rewrite has_entry, page_of_entry; try done;
      [|apply page_of_aligned|by apply lor_lt12|apply page_of_aligned|by apply lor_lt12].
    rewrite has_lor. by rewrite orb_true_r.
  - by repeat (eapply link_plain; [done|]).
Qed.

Lemma map_page_post s T root virt phys flags :
  ptree s T → is_root T root → plain 4 (mem s) root virt →
  0 ≤ flags < 4096 →
  wph out_of_memory (map_page root virt phys flags)
    (λ _ s', (∃ T', remapped 1 s s' T T' root virt) ∧
       ∀ virt', page_of virt' = page_of virt →
       translate s' root virt' = u64 (page_of phys + low12 virt')) s.
Proof.
  intros. eapply wph_mono; [apply (map_page_flags s T); try done; by rewrite final_flags_low|].
  intros [] s' [HR Htr]. split; [done|]. intros virt' Hv. by apply Htr.
Qed.

(** Addresses of the same 2 MiB page. *)
Definition same_huge (virt virt' : Z) : Prop :=
  PML4_IDX virt' = PML4_IDX virt ∧ PDP_IDX virt' = PDP_IDX virt ∧ PD_IDX virt' = PD_IDX virt.

Lemma huge_entry phys flags :
  0 ≤ flags < 4096 →
  let e := Z.lor (Z.lor (Z.lor (Z.land phys (Z.lnot 0x1FFFFF)) flags) PTE_PRESENT) PTE_HUGE in
  has e PTE_PRESENT = true ∧ has e PTE_HUGE = true ∧
  Z.land e (Z.lnot 0x1FFFFF) = Z.land phys (Z.lnot 0x1FFFFF).
Proof.
  intros Hf e. unfold e. split_and!; [by rewrite !has_lor, !orb_true_r|by rewrite has_lor, orb_true_r|].
  rewrite <-!Z.lor_assoc. rewrite (land_high _ _ 21); [|by repeat apply lor_lt12|done].
  by rewrite <-Z.land_assoc.
Qed.

Lemma map_page_huge_post s T root virt phys flags :
  ptree s T → is_root T root → plain 4 (mem s) root virt →
  0 ≤ flags < 4096 →
  wph out_of_memory (map_page_huge root virt phys flags)
    (λ _ s', (∃ T', remapped 2 s s' T T' root virt) ∧
       ∀ virt', same_huge virt virt' →
       translate s' root virt' = u64 (Z.land phys (Z.lnot 0x1FFFFF) + Z.land virt' 0x1FFFFF)) s.
Proof.
  intros HT Hroot Hplain Hfl. unfold map_page_huge. apply wph_assoc.
  eapply wph_mono; [by apply two_tables|].
  intros pd s2 (T2 & pdp & Hex & Hpdp & Hpd & Hk4 & Hk3 & Hpl).
  pose proof (ex_tree _ _ _ _ Hex) as HT2. pose proof (idx_ok 2 virt) as Hi. cbn in Hi.
  apply wph_bind, wph_gets, wph_wp, wp_wr; [by apply (pt_page _ _ HT2 pd _ Hpd)|done|].
  rewrite final_flags_low by done.
  destruct (huge_entry phys flags Hfl) as (He1 & He2 & He3).
  set (e := Z.lor (Z.lor (Z.lor _ flags) PTE_PRESENT) PTE_HUGE) in *.
  split; [exists T2; by apply (leaf_store 2); [lia|..]|].
  intros virt' (E4 & E3 & E2). unfold translate. change (mem (s2 <| mem := ?m |>)) with m.
  rewrite (trans_link 2 _ _ _ pdp), (trans_link 1 _ _ _ pd).
  - cbn [trans]. change (idx 2 virt') with (PD_IDX virt'). rewrite E2.
    rewrite word_insert, decide_True by done. rewrite He1. cbn [negb is_leaf]. rewrite He2.
    cbn [leaf_mask]. by rewrite He3.
  - change (idx 3 virt') with (PDP_IDX virt'). rewrite E3.
    eapply (link_wr s2 T2 pd); [done|exact Hpd|done|exact Hpdp|apply idx_range|simpl; lia|done].
  - change (idx 4 virt') with (PML4_IDX virt'). rewrite E4.
    assert (is_root T2 root) as Hroot2 by (by eapply lookup_weaken, Hex).
    eapply (link_wr s2 T2 pd); [done|exact Hpd|done|exact Hroot2|apply idx_range|simpl; lia|done].
Qed.

Lemma ptree_child s T t rl i :
  ptree s T → T !! t = Some rl → (length rl.2 < 3)%nat → 0 ≤ i < 512 →
  has (word (mem s) t i) PTE_PRESENT = true →
  is_leaf (level rl.2) (word (mem s) t i) = false →
  T !! table_of (word (mem s) t i) = Some (below rl i).
Proof. intros HT. destruct rl as [r l]. apply (pt_child _ _ HT t r l i). Qed.

(** The walk of [vmm_virt_to_phys] computes [translate]. *)
Lemma vmm_virt_to_phys_eq s T root virt :
  ptree s T → is_root T root → vmm_virt_to_phys root virt s = Done (translate s root virt) s.
Proof.
  intros HT Hroot.
  assert (∀ t rl i, T !! t = Some rl → 0 ≤ i < 512 →
    rd (t + 8 * i) s = Done (word (mem s) t i) s) as Hrd.
  { intros t rl i Ht Hi. destruct (pt_page _ _ HT t rl Ht) as (_ & _ & _ & Hr & _).
    pose proof (wp_rd t i (λ v s', v = word (mem s) t i ∧ s' = s) s Hr Hi) as Hw.
    apply wp_run in Hw as (v & s' & E & -> & ->); done. }
  unfold vmm_virt_to_phys, translate. cbn [trans].
  rewrite (bind_done _ _ _ _ _ (Hrd root _ (PML4_IDX virt) Hroot (idx_range _))).
  change (idx 4 virt) with (PML4_IDX virt).
  set (e4 := word (mem s) root (PML4_IDX virt)).
  destruct (has e4 PTE_PRESENT) eqn:H4; [cbn [negb is_leaf]|done].
  assert (T !! table_of e4 = Some (below (root, []) (PML4_IDX virt))) as C4
    by (apply (ptree_child s T root (root, [])); [done|done|simpl; lia|apply idx_range|done|done]).
  rewrite (bind_done _ _ _ _ _ (Hrd _ _ (PDP_IDX virt) C4 (idx_range _))).
  change (idx 3 virt) with (PDP_IDX virt).
  set (e3 := word (mem s) (table_of e4) (PDP_IDX virt)).
  destruct (has e3 PTE_PRESENT) eqn:H3; [cbn [negb is_leaf]|done].
  destruct (has e3 PTE_HUGE) eqn:L3; [done|].
  assert (T !! table_of e3 = Some (below (below (root, []) (PML4_IDX virt)) (PDP_IDX virt))) as C3
    by (apply (ptree_child s T _ _ _ HT C4); [simpl; lia|apply idx_range|done|done]).
  rewrite (bind_done _ _ _ _ _ (Hrd _ _ (PD_IDX virt) C3 (idx_range _))).
  change (idx 2 virt) with (PD_IDX virt).
  set (e2 := word (mem s) (table_of e3) (PD_IDX virt)).
  destruct (has e2 PTE_PRESENT) eqn:H2; [cbn [negb is_leaf]|done].
  destruct (has e2 PTE_HUGE) eqn:L2; [done|].
  assert (is_Some (T !! table_of e2)) as [rl C2].
  { eexists. apply (ptree_child s T _ _ _ HT C3); [simpl; lia|apply idx_range|done|done]. }
  rewrite (bind_done _ _ _ _ _ (Hrd _ _ (PT_IDX virt) C2 (idx_range _))).
  change (idx 1 virt) with (PT_IDX virt).
  destruct (has (word (mem s) (table_of e2) (PT_IDX virt)) PTE_PRESENT);
    done.
Qed.

(** Two pages less than [2^47] bytes apart are told apart by an index. *)
Lemma pages_apart root v v' :
  page_of v ≠ page_of v' → Z.abs (v - v') < 2 ^ 47 → other_page 1 root v root v'.
Proof.
  intros Hne Hd. change (2 ^ 47) with 140737488355328 in Hd. left.
  destruct (decide (idx 1 v' = idx 1 v)) as [E1|]; [|exists 1%nat; split; [lia|done]].
  destruct (decide (idx 2 v' = idx 2 v)) as [E2|]; [|exists 2%nat; split; [lia|done]].
  destruct (decide (idx 3 v' = idx 3 v)) as [E3|]; [|exists 3%nat; split; [lia|done]].
  destruct (decide (idx 4 v' = idx 4 v)) as [E4|]; [|exists 4%nat; split; [lia|done]].
  cbn [idx] in *. destruct (idx_div v) as (D1 & D2 & D3 & D4).
  destruct (idx_div v') as (D1' & D2' & D3' & D4').
  exfalso. apply Hne. rewrite !page_of_sub.
  assert (v `div` 4096 = v' `div` 4096) as E.
  { apply digits_eq; [cbn in *; congruence..|]. change (2 ^ 36) with 68719476736.
    Z.div_mod_to_equations. lia. }
  rewrite !Zmod_eq_full by done. lia.
Qed.

(** ** Unmapping *)

Lemma remapped_refl n s T root virt : ptree s T → remapped n s s T T root virt.
Proof.
  intros HT. split; try done.
  - intros p E [? ?]. congruence.
  - destruct s. by eexists _, _.
Qed.

Lemma trans_absent n m t virt :
  has (word m t (idx (S n) virt)) PTE_PRESENT = false → trans (S n) m t virt = 0.
Proof. intros E. cbn [trans]. by rewrite E. Qed.

(** One step of a walk that meets no large page: the entry is absent, or it
    leads to the next table. *)
Lemma walk_step s T t rl n virt :
  ptree s T → T !! t = Some rl → level rl.2 = S (S n) → (length rl.2 < 3)%nat →
  plain (S (S n)) (mem s) t virt →
  resident (mem s) t ∧
  (has (word (mem s) t (idx (S (S n)) virt)) PTE_PRESENT = false ∨
   ∃ c, link (mem s) (S (S n)) t (idx (S (S n)) virt) c ∧
     T !! c = Some (below rl (idx (S (S n)) virt)) ∧ plain (S n) (mem s) c virt).
Proof.
  intros HT Ht Hlv Hlen Hpl. split; [by apply (pt_page _ _ HT t _ Ht)|].
  destruct (has _ PTE_PRESENT) eqn:Hp; [right|by left].
  assert (link (mem s) (S (S n)) t (idx (S (S n)) virt)
    (table_of (word (mem s) t (idx (S (S n)) virt)))) as Hk.
  { cbn [plain] in Hpl. by destruct (Hpl Hp). }
  eexists. split_and!; [done| |by eapply plain_link].
  apply (ptree_child s T t rl); [done..|apply idx_ok|done|]. rewrite Hlv. apply Hk.
Qed.

Lemma unmap_page_post s T root virt :
  ptree s T → is_root T root → plain 4 (mem s) root virt →
  wp (unmap_page root virt)
    (λ _ s', remapped 1 s s' T T root virt ∧ translate s' root virt = 0) s.
Proof.
  intros HT Hroot Hpl. unfold unmap_page.
  destruct (walk_step s T root (root, []) 2 virt HT Hroot eq_refl ltac:(simpl; lia) Hpl)
    as [R4 H4]. apply wp_bind, wp_rd; [done|apply idx_range|].
  change (idx 4 virt) with (PML4_IDX virt) in H4.
  destruct H4 as [E4|(pdp & K4 & C4 & Hpl3)].
  { rewrite E4. apply wp_ret. split; [by apply remapped_refl|]. by apply trans_absent. }
  pose proof K4 as (-> & _ & Et4). cbn [negb].
  change (u64 (page_of ?e + hhdm)) with (table_of e). rewrite Et4.
  destruct (walk_step s T pdp _ 1 virt HT C4 eq_refl ltac:(simpl; lia) Hpl3) as [R3 H3].
  apply wp_bind, wp_rd; [done|apply idx_range|].
  change (idx 3 virt) with (PDP_IDX virt) in H3.
  destruct H3 as [E3|(pd & K3 & C3 & Hpl2)].
  { rewrite E3. apply wp_ret. split; [by apply remapped_refl|].
    unfold translate. rewrite (trans_link 2 _ _ _ pdp) by done. by apply trans_absent. }
  pose proof K3 as (-> & _ & Et3). cbn [negb].
  change (u64 (page_of ?e + hhdm)) with (table_of e). rewrite Et3.
  destruct (walk_step s T pd _ 0 virt HT C3 eq_refl ltac:(simpl; lia) Hpl2) as [R2 H2].
  apply wp_bind, wp_rd; [done|apply idx_range|].
  change (idx 2 virt) with (PD_IDX virt) in H2.
  destruct H2 as [E2|(pt & K2 & C2 & _)].
  { rewrite E2. apply wp_ret. split; [by apply remapped_refl|]. unfold translate.
    rewrite (trans_link 2 _ _ _ pdp), (trans_link 1 _ _ _ pd) by done. by apply trans_absent. }
  pose proof K2 as (-> & _ & Et2). cbn [negb].
  change (u64 (page_of ?e + hhdm)) with (table_of e). rewrite Et2.
  pose proof (idx_range (Z.shiftr virt 12)) as Hi. fold (PT_IDX virt) in Hi.
  apply wp_wr; [by apply (pt_page _ _ HT pt _ C2)|done|].
  split; [apply (leaf_store 1); [lia|done|done|by apply extends_refl|done|done]|].
  unfold translate. change (mem (s <| mem := ?m |>)) with m.
  assert (∀ t rl n i c, T !! t = Some rl → (length rl.2 < 3)%nat → 0 ≤ i < 512 →
    link (mem s) n t i c → link (<[pt + 8 * PT_IDX virt := 0]> (mem s)) n t i c) as Hkeep.
  { intros t [r l] n i c Ht Hl Hi' Hk. eapply (link_wr s T pt); try done. simpl in *. lia. }
  rewrite (trans_link 2 _ _ _ pdp), (trans_link 1 _ _ _ pd), (trans_link 0 _ _ _ pt).
  - apply trans_absent. change (idx 1 virt) with (PT_IDX virt).
    by rewrite word_insert, decide_True.
  - eapply (Hkeep pd _ _ _ _ C3); [simpl; lia|apply idx_range|done].
  - eapply (Hkeep pdp _ _ _ _ C4); [simpl; lia|apply idx_range|done].
  - eapply (Hkeep root _ _ _ _ Hroot); [simpl; lia|apply idx_range|done].
Qed.

(** C14: [map_page] returns (or the machine stops because physical memory is
    exhausted), keeps the tables a forest, makes the page of [virt] translate
    to the frame of [phys], and changes no other translation of this address
    space, no user translation of any other one, and no page that is not a
    table. *)
Theorem map_page_correct s T root virt phys flags :
  ptree s T → is_root T root → plain 4 (mem s) root virt →
  0 ≤ flags < 4096 →
  wph out_of_memory (map_page root virt phys flags)
    (λ _ s', (∃ T', remapped 1 s s' T T' root virt) ∧
       ∀ virt', page_of virt' = page_of virt →
       translate s' root virt' = u64 (page_of phys + low12 virt')) s.
Proof. apply map_page_post. Qed.

(** [unmap_page] returns, the page of [virt] no longer translates, and
    nothing else changes. *)
Theorem unmap_page_correct s T root virt :
  ptree s T → is_root T root → plain 4 (mem s) root virt →
  wp (unmap_page root virt)
    (λ _ s', remapped 1 s s' T T root virt ∧ translate s' root virt = 0) s.
Proof. apply unmap_page_post. Qed.

(** [vmm_virt_to_phys] computes the translation of the tables, whatever
    mixture of 4 KiB, 2 MiB and 1 GiB pages they hold. *)
Theorem vmm_virt_to_phys_correct s T root virt :
  ptree s T → is_root T root → vmm_virt_to_phys root virt s = Done (translate s root virt) s.
Proof. apply vmm_virt_to_phys_eq. Qed.
End Paging.
