(* ===== verification/Region.v ===== *)
(** * Mapping regions

    [vmm_map_region] of [mm/vmm.c]: it terminates and maps every address of
    the region, with 2 MiB pages where the alignment allows it. *)

From S2P Require Import Prelude Mem Paging.

Section Region.
Context `{!Buddy} `{!BuddyOk}.
Context (root virt phys size flags : Z).

(** The region is page-aligned and does not wrap around. *)
Context (virt_ok : virt `mod` 4096 = 0 ∧ 0 ≤ virt ∧ virt + size + 4096 ≤ 2 ^ 64).
Context (phys_ok : phys `mod` 4096 = 0 ∧ 0 ≤ phys ∧ phys + size + 4096 ≤ 2 ^ 64).
Context (size_ok : 0 ≤ size ≤ 2 ^ 46) (flags_ok : 0 ≤ flags < 4096).

Lemma huge_div v :
  (v `div` 0x200000 = ((v `div` 4096) `div` 512)) ∧ Z.land v 0x1FFFFF = v `mod` 0x200000.
Proof.
  split; [by rewrite Z.div_div|]. change 0x1FFFFF with (Z.ones 21). by rewrite Z.land_ones.
Qed.

Lemma huge_idx v v' : v' `div` 0x200000 = v `div` 0x200000 → same_huge v v'.
Proof.
  rewrite (proj1 (huge_div v)), (proj1 (huge_div v')). intros E.
  destruct (idx_div v) as (_ & D2 & D3 & D4), (idx_div v') as (_ & D2' & D3' & D4').
  cbn in *. unfold same_huge. rewrite D2, D3, D4, D2', D3', D4', E. done.
Qed.

Lemma huge_apart v v' :
  v `div` 0x200000 ≠ v' `div` 0x200000 → Z.abs (v - v') < 2 ^ 47 → other_page 2 root v root v'.
Proof.
  intros Hne Hd. change (2 ^ 47) with 140737488355328 in Hd. left.
  destruct (decide (idx 2 v' = idx 2 v)) as [E2|]; [|exists 2%nat; split; [lia|done]].
  destruct (decide (idx 3 v' = idx 3 v)) as [E3|]; [|exists 3%nat; split; [lia|done]].
  destruct (decide (idx 4 v' = idx 4 v)) as [E4|]; [|exists 4%nat; split; [lia|done]].
  cbn [idx] in *. destruct (idx_div v) as (_ & D2 & D3 & D4).
  destruct (idx_div v') as (_ & D2' & D3' & D4'). cbn in *.
  exfalso. apply Hne. rewrite (proj1 (huge_div v)), (proj1 (huge_div v')).
  assert ((v `div` 4096) `div` 512 * 512 = (v' `div` 4096) `div` 512 * 512) as E; [|lia].
  apply digits_eq; rewrite ?Z.div_mul by done; rewrite ?Z.mod_mul by done; [done|congruence..|].
  change (2 ^ 36) with 68719476736. Z.div_mod_to_equations. lia.
Qed.

(** What the rounds from [offset] on leave. *)
Definition mapped_from (s s' : mst) (T T' : gmap Z (Z * list Z)) (offset : Z) : Prop :=
  T ⊆ T' ∧ ptree s' T' ∧
  (∀ off, offset ≤ off < size → translate s' root (virt + off) = phys + off) ∧
  (∀ v, Z.abs (v - virt) < 2 ^ 46 →
     (∀ off, offset ≤ off < size → page_of v ≠ page_of (virt + off)) →
     translate s' root v = translate s root v).

Lemma page_round v off : v `mod` 4096 = 0 → off `mod` 4096 = 0 → page_of (v + off) = v + off.
Proof. intros Hv Ho. apply page_of_id. rewrite Zplus_mod, Hv, Ho. done. Qed.

(** One round: [\[virt + offset, virt + offset + step)] gets mapped. *)
Definition round_ok (s s1 : mst) (T T1 : gmap Z (Z * list Z)) (offset step : Z) : Prop :=
  T ⊆ T1 ∧ ptree s1 T1 ∧
  (∀ off, offset ≤ off < offset + step → translate s1 root (virt + off) = phys + off) ∧
  (∀ v, Z.abs (v - virt) < 2 ^ 46 →
     (∀ off, offset ≤ off < offset + step → page_of v ≠ page_of (virt + off)) →
     translate s1 root v = translate s root v ∧
     (plain 4 (mem s) root v → plain 4 (mem s1) root v)).

Lemma page_round_ok s T offset :
  ptree s T → is_root T root → 0 ≤ offset < size → offset `mod` 4096 = 0 →
  plain 4 (mem s) root (virt + offset) →
  wph out_of_memory (map_page root (virt + offset) (phys + offset) flags)
    (λ _ s1, ∃ T1, round_ok s s1 T T1 offset 4096) s.
Proof.
  intros HT Hroot Ho Hal Hpl. destruct virt_ok as (Hva & ? & ?), phys_ok as (Hpa & ? & ?).
  change (2 ^ 64) with 18446744073709551616 in *. change (2 ^ 46) with 70368744177664 in *.
  eapply wph_mono; [by apply (map_page_post s T)|].
  intros [] s1 [(T1 & Hrm) Htr]. exists T1.
  split_and!; [apply Hrm|apply Hrm| |].
  - intros off Hoff. rewrite Htr.
    + rewrite wrap_small, !page_of_sub, low12_mod; change (2 ^ 64) with 18446744073709551616;
        rewrite ?page_of_sub, ?low12_mod; Z.div_mod_to_equations; lia.
    + rewrite !page_of_sub. Z.div_mod_to_equations. lia.
  - intros v Hv Hne. apply (rm_other _ _ _ _ _ _ _ Hrm); [done|].
    apply pages_apart; [apply not_eq_sym, Hne; lia|].
    change (2 ^ 47) with 140737488355328. change (2 ^ 46) with 70368744177664 in Hv. lia.
Qed.

Lemma huge_round_ok s T offset :
  ptree s T → is_root T root → 0 ≤ offset → offset + 0x200000 ≤ size →
  (virt + offset) `mod` 0x200000 = 0 → (phys + offset) `mod` 0x200000 = 0 →
  plain 4 (mem s) root (virt + offset) →
  wph out_of_memory (map_page_huge root (virt + offset) (phys + offset) flags)
    (λ _ s1, ∃ T1, round_ok s s1 T T1 offset 0x200000) s.
Proof.
  intros HT Hroot Ho Hle Ev Ep Hpl. destruct virt_ok as (Hva & ? & ?), phys_ok as (Hpa & ? & ?).
  change (2 ^ 64) with 18446744073709551616 in *. change (2 ^ 46) with 70368744177664 in *.
  eapply wph_mono; [by apply (map_page_huge_post s T)|].
  intros [] s1 [(T1 & Hrm) Htr]. exists T1.
  split_and!; [apply Hrm|apply Hrm| |].
  - intros off Hoff.
    assert ((virt + off) `div` 0x200000 = (virt + offset) `div` 0x200000) as E
      by (Z.div_mod_to_equations; lia).
    rewrite Htr by (by apply huge_idx). rewrite <-Z.sub_land_same_l.
    rewrite !(proj2 (huge_div _)), Ep.
    rewrite wrap_small; change (2 ^ 64) with 18446744073709551616; Z.div_mod_to_equations; lia.
  - intros v Hv Hne. apply (rm_other _ _ _ _ _ _ _ Hrm); [done|].
    apply huge_apart.
    + intros E. apply (Hne (v - virt)); [Z.div_mod_to_equations; lia|]. f_equal. lia.
    + change (2 ^ 47) with 140737488355328. change (2 ^ 46) with 70368744177664 in Hv. lia.
Qed.

(** A round followed by the rounds from [offset + step] on. *)
Lemma mapped_step s s1 s2 T T1 T2 offset step :
  0 ≤ offset → offset < size → 0 < step →
  round_ok s s1 T T1 offset step → mapped_from s1 s2 T1 T2 (offset + step) →
  offset `mod` 4096 = 0 → step `mod` 4096 = 0 → (size < offset + step → step = 4096) →
  mapped_from s s2 T T2 offset.
Proof.
  intros Ho Hlt Hst (Hsub & _ & Hm1 & Ho1) (Hsub2 & HT2 & Hmap & Hoth) Hal Hals Hlast.
  destruct virt_ok as (Hva & _). change (2 ^ 46) with 70368744177664 in *.
  split_and!; [by etrans|done| |].
  - intros off Hoff. destruct (decide (offset + step ≤ off)); [apply Hmap; lia|].
    rewrite Hoth, Hm1; [done|lia|change (2 ^ 46) with 70368744177664; lia|].
    intros off' Hoff' E. rewrite !page_of_sub in E. Z.div_mod_to_equations. lia.
  - intros v Hv Hne. rewrite Hoth; [apply Ho1; [done|]|done|].
    + intros off Hoff E.
      assert (virt + offset ≤ v < virt + offset + step)
        by (rewrite !page_of_sub in E; Z.div_mod_to_equations; lia).
      destruct (decide (v - virt < size)).
      * apply (Hne (v - virt)); [lia|]. f_equal. lia.
      * apply (Hne offset); [lia|].
        rewrite !page_of_sub. Z.div_mod_to_equations. lia.
    + intros off Hoff. apply Hne. lia.
Qed.

Lemma map_region_from_post fuel : ∀ s T offset,
  ptree s T → is_root T root → 0 ≤ offset → offset `mod` 4096 = 0 →
  size ≤ offset + 4096 * Z.of_nat fuel →
  (∀ off, offset ≤ off < size → plain 4 (mem s) root (virt + off)) →
  wph out_of_memory (map_region_from fuel root virt phys size flags offset)
    (λ _ s', ∃ T', mapped_from s s' T T' offset) s.
Proof.
  induction fuel as [|fuel IH]; intros s T offset HT Hroot Ho Hal Hfuel Hpl; cbn [map_region_from];
    (destruct (Z.leb_spec size offset);
      [apply wph_ret; exists T; split_and!; [done|done|intros; lia|done]|]); [lia|].
  pose proof virt_ok as (Hva & ? & ?). pose proof phys_ok as (Hpa & ? & ?).
  change (2 ^ 64) with 18446744073709551616 in *. change (2 ^ 46) with 70368744177664 in *.
  rewrite !wrap_small
    by (unfold PAGE_SIZE; change (2 ^ 64) with 18446744073709551616; lia).
  assert (∀ step s1 T1, 0 < step → step `mod` 4096 = 0 → (size < offset + step → step = 4096) →
    4096 ≤ step → round_ok s s1 T T1 offset step →
    wph out_of_memory (map_region_from fuel root virt phys size flags (offset + step))
      (λ _ s', ∃ T', mapped_from s s' T T' offset) s1) as Hnext.
  { intros step s1 T1 Hst Hsm Hlast Hge Hr.
    eapply wph_mono; [apply (IH s1 T1)|].
    - apply Hr.
    - eapply lookup_weaken; [done|apply Hr].
    - lia.
    - rewrite Zplus_mod, Hal, Hsm. done.
    - lia.
    - intros off Hoff. apply Hr; [change (2 ^ 46) with 70368744177664; lia| |apply Hpl; lia].
      intros off' Hoff' E. rewrite !page_of_sub in E. Z.div_mod_to_equations. lia.
    - intros [] s2 (T2 & Hm2). exists T2. by eapply mapped_step. }
  case_match eqn:Eh; apply wph_bind.
  - rewrite !andb_true_iff, !Z.eqb_eq, Z.leb_le in Eh. destruct Eh as [[Ev Ep] Hrem].
    eapply wph_mono; [apply (huge_round_ok s T); try done; [lia|apply Hpl; lia]|].
    intros [] s1 (T1 & Hr). by eapply Hnext; [lia|done|lia|lia|].
  - eapply wph_mono; [apply (page_round_ok s T); try done; apply Hpl; lia|].
    intros [] s1 (T1 & Hr). by eapply (Hnext PAGE_SIZE); [done..|].
Qed.

(** [vmm_map_region] terminates and maps every address of a page-aligned
    region to its physical address, with any mixture of 2 MiB and 4 KiB pages,
    and changes no translation of the space outside the region's pages. *)
Theorem vmm_map_region_correct s T :
  ptree s T → is_root T root →
  (∀ off, 0 ≤ off < size → plain 4 (mem s) root (virt + off)) →
  wph out_of_memory (vmm_map_region root virt phys size flags)
    (λ _ s', ∃ T', mapped_from s s' T T' 0) s.
Proof.
  intros HT Hroot Hpl. unfold vmm_map_region. apply map_region_from_post; try done.
  rewrite Z2Nat.id by (Z.div_mod_to_equations; lia). Z.div_mod_to_equations. lia.
Qed.
End Region.
