(* ===== verification/Vmm.v ===== *)
(** * Address spaces

    [vmm_clone_pml4] and [vmm_free_user_pages] of [mm/vmm.c]: the deep copy of
    the user half of an address space that [fork] makes, and its teardown. *)

From S2P Require Import Prelude Mem Paging.

Section Vmm.
Context `{!Buddy}.

(** ** The code *)

(** [memcpy(dst, src, PAGE_SIZE)] on page-aligned addresses. *)
Definition copy_page (dst src : Z) : M mst unit :=
  for_all 512 0 (λ i, v ← rd (src + 8 * i); wr (dst + 8 * i) v).

(** The innermost loop body of [vmm_clone_pml4]: entry [l] of a page table. *)
Definition clone_leaf (src_pt dst_pt l : Z) : M mst unit :=
  e ← rd (src_pt + 8 * l);
  if negb (has e PTE_PRESENT) then mret tt else
  phys ← palloc_zero;
  copy_page (PHYS_TO_VIRT phys) (PHYS_TO_VIRT (page_of e)) ;;
  wr (dst_pt + 8 * l) (Z.lor (VIRT_TO_PHYS (PHYS_TO_VIRT phys)) (low12 e)).

(** The bodies of the three outer loops: entry [i] of [src] gets a new table in
    [dst], which [sub] fills.  Large pages are skipped below the top level. *)
Definition clone_table (skip_huge : bool) (sub : Z → Z → M mst unit) (src dst i : Z) :
    M mst unit :=
  e ← rd (src + 8 * i);
  if negb (has e PTE_PRESENT) then mret tt else
  if skip_huge && has e PTE_HUGE then mret tt else
  phys ← palloc_zero;
  wr (dst + 8 * i) (Z.lor (VIRT_TO_PHYS (PHYS_TO_VIRT phys)) (low12 e)) ;;
  sub (PHYS_TO_VIRT (page_of e)) (PHYS_TO_VIRT phys).

Definition clone_pt (src dst : Z) : M mst unit := for_all 512 0 (clone_leaf src dst).
Definition clone_pd (src dst : Z) : M mst unit :=
  for_all 512 0 (clone_table true clone_pt src dst).
Definition clone_pdpt (src dst : Z) : M mst unit :=
  for_all 512 0 (clone_table true clone_pd src dst).

Definition vmm_clone_pml4 (src : Z) : M mst Z :=
  phys ← palloc_zero;
  let dst := PHYS_TO_VIRT phys in
  if dst =? 0 then mret 0 else
  for_all 256 256 (λ i, e ← rd (src + 8 * i); wr (dst + 8 * i) e) ;;
  for_all 256 0 (clone_table false clone_pdpt src dst) ;;
  mret dst.

(** [vmm_free_user_pages], inside out: the loop over a page table, ... *)
Definition free_leaf (pt l : Z) : M mst unit :=
  e ← rd (pt + 8 * l);
  if negb (has e PTE_PRESENT) then mret tt else
  pfree (page_of e) ;; wr (pt + 8 * l) 0.

(** ... and over the tables above it. *)
Definition free_table (skip_huge : bool) (sub : Z → M mst unit) (t i : Z) : M mst unit :=
  e ← rd (t + 8 * i);
  if negb (has e PTE_PRESENT) then mret tt else
  if skip_huge && has e PTE_HUGE then mret tt else
  sub (PHYS_TO_VIRT (page_of e)) ;; pfree (page_of e) ;; wr (t + 8 * i) 0.

Definition free_pt (t : Z) : M mst unit := for_all 512 0 (free_leaf t).
Definition free_pd (t : Z) : M mst unit := for_all 512 0 (free_table true free_pt t).
Definition free_pdpt (t : Z) : M mst unit := for_all 512 0 (free_table true free_pd t).

Definition vmm_free_user_pages (pml4 : Z) : M mst unit :=
  if pml4 =? 0 then mret tt else
  for_all 256 0 (free_table false free_pdpt pml4).

(** ** What a clone is *)

(** The entries the code descends through at level [n]. *)
Definition goes (n : nat) (e : Z) : bool := has e PTE_PRESENT && negb (is_leaf n e).

(** The number of entries the code looks at: the user half of a top table. *)
Definition width (n : nat) : Z := match n with 4%nat => 256 | _ => 512 end.

(** In memory [m], [dst] is a copy of what [src] was in memory [m0]: at level
    0 a page with the same words, above it a table whose entries have the same
    flags and lead to copies; [N] gives each page of the copy its own path. *)
Fixpoint copied (n : nat) (m0 m : gmap Z Z) (N : gmap Z (list Z)) (path : list Z)
    (src dst : Z) : Prop :=
  match n with
  | O => ∀ i, 0 ≤ i < 512 → word m dst i = word m0 src i
  | S n' => ∀ j, 0 ≤ j < width n →
      let e := word m0 src j in
      if goes n e then
        ∃ t, N !! t = Some (path ++ [j]) ∧
          word m dst j = Z.lor (VIRT_TO_PHYS t) (low12 e) ∧ table_of (word m dst j) = t ∧
          copied n' m0 m N (path ++ [j]) (table_of e) t
      else word m dst j = 0
  end.

Lemma copied_stable n m0 m m' N N' path src dst :
  copied n m0 m N path src dst → N ⊆ N' → N !! dst = Some path →
  (∀ p q, N !! p = Some q → path `prefix_of` q → same_page m m' p) →
  copied n m0 m' N' path src dst.
Proof.
  revert path src dst. induction n as [|n IH]; intros path src dst Hc Hsub Hdst Hsame;
    cbn [copied] in *.
  - intros i Hi. rewrite (same_page_word m); [auto|by eapply Hsame|done].
  - intros j Hj. specialize (Hc j Hj). simpl in Hc.
    assert (0 ≤ j < 512) as Hj' by (unfold width in Hj; repeat case_match; lia).
    rewrite (same_page_word m m' dst j); [|by eapply Hsame|done].
    destruct (goes (S n) _); [|done]. destruct Hc as (t & Ht & Hw & Htab & Hc).
    exists t. split_and!; [by eapply lookup_weaken|done|done|].
    apply IH; [done..|]. intros p q Hp Hq. apply (Hsame p q Hp).
    etrans; [|exact Hq]. by apply prefix_app_r.
Qed.

Section Correct.
Context `{!BuddyOk}.

(** The source is made of pages in use. *)
Fixpoint in_use (n : nat) (s : mst) (src : Z) : Prop :=
  src `mod` 4096 = 0 ∧ resident (mem s) src ∧ ¬ page_free s src ∧
  match n with
  | O => True
  | S n' => ∀ j, 0 ≤ j < width n → goes n (word (mem s) src j) = true →
      in_use n' s (table_of (word (mem s) src j))
  end.

(** The state of the copy in progress: nothing that was in use at the start
    has changed, and the pages of the copy are distinct new pages. *)
Record copying (s0 s : mst) (N : gmap Z (list Z)) : Prop := {
  cp_mem : mem_ok s;
  cp_old p : p `mod` 4096 = 0 → ¬ page_free s0 p → same_page (mem s0) (mem s) p;
  cp_free p : page_free s p → page_free s0 p;
  cp_new p q : N !! p = Some q →
    p `mod` 4096 = 0 ∧ resident (mem s) p ∧ ¬ page_free s p ∧ page_free s0 p;
  cp_rest : ∃ b m, s = s0 <| pmm_buddy := b |> <| mem := m |> }.

(** What filling the page [dst] with path [path] does. *)
Record filled (s0 s s' : mst) (N N' : gmap Z (list Z)) (path : list Z) (dst : Z) : Prop := {
  fl_copying : copying s0 s' N';
  fl_sub : N ⊆ N';
  fl_paths p q : N !! p = None → N' !! p = Some q →
    page_free s p ∧ ∃ j r, q = path ++ j :: r;
  fl_frame p : p `mod` 4096 = 0 → ¬ page_free s p → p ≠ dst → same_page (mem s) (mem s') p;
  fl_free p : page_free s' p → page_free s p }.

(** The contract of the loop over a table of level [n]. *)
Definition fills (n : nat) (c : Z → Z → M mst unit) : Prop :=
  ∀ s0 s N path src dst,
    in_use n s0 src → copying s0 s N → N !! dst = Some path →
    (∀ i, 0 ≤ i < width n → word (mem s) dst i = 0) →
    wph out_of_memory (c src dst)
      (λ _ s', ∃ N', filled s0 s s' N N' path dst ∧
         copied n (mem s0) (mem s') N' path src dst) s.

Lemma width_range n : width n ≤ 512.
Proof. unfold width. repeat case_match; lia. Qed.

Lemma in_use_page n s src : in_use n s src →
  src `mod` 4096 = 0 ∧ resident (mem s) src ∧ ¬ page_free s src.
Proof. destruct n; cbn [in_use]; naive_solver. Qed.

(** ** The loop over the entries of a table *)

(** Entry [j] of [dst] is done. *)
Definition entry_ok (n : nat) (m0 m : gmap Z Z) (N : gmap Z (list Z)) (path : list Z)
    (src dst j : Z) : Prop :=
  let e := word m0 src j in
  if goes n e then
    ∃ t, N !! t = Some (path ++ [j]) ∧
      word m dst j = Z.lor (VIRT_TO_PHYS t) (low12 e) ∧ table_of (word m dst j) = t ∧
      copied (pred n) m0 m N (path ++ [j]) (table_of e) t
  else word m dst j = 0.

Record loop_inv (n : nat) (s0 s : mst) (N : gmap Z (list Z)) (path : list Z) (src dst k : Z)
    (s' : mst) (N' : gmap Z (list Z)) : Prop := {
  lo_filled : filled s0 s s' N N' path dst;
  lo_done j : 0 ≤ j < k → entry_ok n (mem s0) (mem s') N' path src dst j;
  lo_todo j : k ≤ j < width n → word (mem s') dst j = 0;
  lo_rest j : width n ≤ j < 512 → word (mem s') dst j = word (mem s) dst j }.

Lemma filled_refl s0 s N path dst : copying s0 s N → filled s0 s s N N path dst.
Proof. intros Hc. split; try done. intros p q H1 H2. congruence. Qed.

(** Entry [k] has been given the new page [t], which holds a copy. *)
Lemma loop_entry n s0 s N path src dst k s' N' s3 N3 t :
  loop_inv n s0 s N path src dst k s' N' → 0 ≤ k < width n →
  N !! dst = Some path → copying s0 s N →
  goes n (word (mem s0) src k) = true →
  copying s0 s3 N3 → N' ⊆ N3 → N3 !! t = Some (path ++ [k]) →
  (∀ p q, N' !! p = None → N3 !! p = Some q → page_free s' p ∧ ∃ r, q = path ++ k :: r) →
  (∀ p, p `mod` 4096 = 0 → ¬ page_free s' p → p ≠ dst → same_page (mem s') (mem s3) p) →
  (∀ p, page_free s3 p → page_free s' p) →
  (∀ j, 0 ≤ j < 512 → word (mem s3) dst j =
     if decide (k = j) then Z.lor (VIRT_TO_PHYS t) (low12 (word (mem s0) src k))
     else word (mem s') dst j) →
  copied (pred n) (mem s0) (mem s3) N3 (path ++ [k]) (table_of (word (mem s0) src k)) t →
  loop_inv n s0 s N path src dst (k + 1) s3 N3.
Proof.
  intros [[Fc Fs Fp Ff Ffr] Hd Ht Hr] Hk Hdst Hcp Hg Hc3 Hs3 Ht3 Hnew Hfr Hfree Hw Hcopy.
  pose proof (width_range n) as Hwn.
  assert (N' !! dst = Some path) as Hdst' by (by eapply lookup_weaken).
  split; [split| | |].
  - done.
  - by etrans.
  - intros p q HpN Hp3. destruct (N' !! p) as [q'|] eqn:E.
    + assert (N3 !! p = Some q') by (by eapply lookup_weaken). simplify_eq. eauto.
    + destruct (Hnew p q E Hp3) as [Hpf [r ->]]. split; [auto|eauto].
  - intros p Ha Hpf Hne. eapply same_page_trans; [by apply Ff|]. apply Hfr; auto.
  - auto.
  - intros j Hj. destruct (decide (k = j)) as [<-|Hkj].
    + unfold entry_ok. rewrite Hg. exists t.
      assert (word (mem s3) dst k = Z.lor (VIRT_TO_PHYS t) (low12 (word (mem s0) src k))) as E
        by (rewrite Hw, decide_True by lia; done).
      rewrite E. split_and!; [done|done| |done].
      destruct (cp_new _ _ _ Hc3 t _ Ht3) as (Hta & _ & _ & (b & _ & Hbf)).
      destruct (bd_range b t (or_introl Hbf)) as (_ & Hlo & Hhi).
      destruct (virt_phys_aligned t Hlo Hhi Hta) as (Hva & _).
      unfold table_of. rewrite page_of_entry, phys_virt by (done || apply low12_range). done.
    + specialize (Hd j ltac:(lia)). unfold entry_ok in *.
      rewrite Hw, decide_False by lia. destruct (goes n (word (mem s0) src j)); [|done].
      destruct Hd as (t' & Ht' & H1 & H2 & H3). exists t'.
      split_and!; [by eapply lookup_weaken|done|done|].
      eapply copied_stable; [done|done|done|]. intros p q Hp Hpre.
      destruct (cp_new _ _ _ Fc p q Hp) as (Hpa & _ & Hpf & _). apply Hfr; [done|done|].
      intros ->. simplify_eq. apply prefix_length in Hpre. rewrite length_app in Hpre.
      simpl in Hpre. lia.
  - intros j Hj. rewrite Hw, decide_False by lia. apply Ht. lia.
  - intros j Hj. rewrite Hw, decide_False by lia. by apply Hr.
Qed.

(** An entry that is not copied. *)
Lemma loop_skip n s0 s N path src dst k s' N' :
  loop_inv n s0 s N path src dst k s' N' → 0 ≤ k < width n →
  goes n (word (mem s0) src k) = false →
  loop_inv n s0 s N path src dst (k + 1) s' N'.
Proof.
  intros [Hf Hd Ht Hr] Hk Hg. split; [done| |intros j Hj; apply Ht; lia|done].
  intros j Hj. destruct (decide (j = k)) as [->|]; [|apply Hd; lia].
  unfold entry_ok. rewrite Hg. apply Ht. lia.
Qed.

(** A new page for the copy. *)
Lemma copying_got s0 s N p s1 q :
  copying s0 s N → got_page s p s1 → mem_ok s1 →
  copying s0 s1 (<[p := q]> N) ∧ N !! p = None.
Proof.
  intros [Cm Co Cf Cn (b & m & Cr)] [Gf Ga Gr Gz Gres Gsame Gp Gleft Gused (b' & m' & Gb)] Hok.
  assert (N !! p = None) as HpN.
  { destruct (N !! p) eqn:E; [|done]. by destruct (Cn p _ E) as (_ & _ & ? & _). }
  split; [|done]. split.
  - done.
  - intros p' Ha Hpf. eapply same_page_trans; [by apply Co|]. apply Gsame; [done|].
    intros ->. by apply Hpf, Cf.
  - intros p' [Hp' _]%Gleft. by apply Cf.
  - intros p' q'. rewrite lookup_insert. case_decide as E.
    + intros _. subst p'. split_and!; [done|done| |by apply Cf]. intros [_ ?]%Gleft. done.
    + intros Hp'. destruct (Cn p' q' Hp') as (? & ? & ? & ?). split_and!; [done|auto| |done].
      intros [? _]%Gleft. done.
  - subst. by eexists _, _.
Qed.

(** A store into a page of the copy. *)
Lemma copying_wr s0 s N t q i v :
  copying s0 s N → N !! t = Some q → 0 ≤ i < 512 →
  copying s0 (s <| mem := <[t + 8 * i := v]> (mem s) |>) N.
Proof.
  intros [Cm Co Cf Cn (b & m & Cr)] Ht Hi. destruct (Cn t q Ht) as (Hta & Htr & Htf & Ht0).
  split.
  - apply mem_ok_mem; [done|]. intros p. apply resident_insert.
  - intros p Ha Hpf. eapply same_page_trans; [by apply Co|]. apply same_page_insert; try done.
    intros ->. done.
  - done.
  - intros p q' Hp. destruct (Cn p q' Hp) as (? & ? & ? & ?). split_and!; [done| |done|done].
    by apply resident_insert.
  - subst. by eexists _, _.
Qed.

(** ** The loop bodies *)

Definition skips (n : nat) : bool := match n with 2%nat | 3%nat => true | _ => false end.

Lemma goes_eq n e :
  goes n e = negb (negb (has e PTE_PRESENT)) && negb (skips n && has e PTE_HUGE).
Proof.
  unfold goes. rewrite negb_involutive. f_equal. by destruct n as [|[|[|[|]]]].
Qed.

Lemma clone_table_step n sub s0 s N path src dst k s' N' :
  fills n sub →
  in_use (S n) s0 src → copying s0 s N → N !! dst = Some path →
  loop_inv (S n) s0 s N path src dst k s' N' → 0 ≤ k < width (S n) →
  wph out_of_memory (clone_table (skips (S n)) sub src dst k)
    (λ _ s'', ∃ N'', loop_inv (S n) s0 s N path src dst (k + 1) s'' N'') s'.
Proof.
  intros Hsub Huse Hcp Hdst HL Hk. pose proof (width_range (S n)) as Hwn.
  pose proof HL as [[Fc Fs Fp Ff Ffr] _ _ _].
  destruct Huse as (Hsa & Hsr & Hsf & Hkids).
  pose proof (cp_old _ _ _ Fc src Hsa Hsf) as Hsrc.
  unfold clone_table. apply wph_bind, wph_wp, wp_rd; [by eapply same_page_resident|lia|].
  rewrite (same_page_word (mem s0)) by (done || lia).
  set (e := word (mem s0) src k) in *. pose proof (goes_eq (S n) e) as Hg.
  destruct (negb (has e PTE_PRESENT)); cbn [negb andb] in Hg.
  { apply wph_ret. exists N'. by apply loop_skip. }
  destruct (skips (S n) && has e PTE_HUGE); cbn [negb andb] in Hg.
  { apply wph_ret. exists N'. by apply loop_skip. }
  apply wph_bind. eapply wph_mono; [apply palloc_zero_spec, Fc|].
  intros phys s1 (p & -> & Hp0 & Hgot & Hok).
  destruct (copying_got s0 s' N' p s1 (path ++ [k]) Fc Hgot Hok) as [Hc1 HpN].
  pose proof Hgot as [Gf Ga [Gr1 Gr2] Gz Gres Gsame Gp Gleft Gused Grest].
  rewrite !phys_virt by done.
  assert (N' !! dst = Some path) as Hdst' by (by eapply lookup_weaken).
  assert (p ≠ dst) as Hpd by congruence.
  destruct (cp_new _ _ _ Fc dst _ Hdst') as (Hda & Hdr & Hdf & _).
  assert ((<[p := path ++ [k]]> N') !! dst = Some path) as Hdst1 by (by rewrite lookup_insert_ne).
  apply wph_bind, wph_wp, wp_wr; [by apply Gres|lia|].
  set (s2 := s1 <| mem := _ |>).
  assert (copying s0 s2 (<[p := path ++ [k]]> N')) as Hc2
    by (eapply copying_wr; [done|exact Hdst1|lia]).
  assert (∀ q, q `mod` 4096 = 0 → q ≠ p → q ≠ dst → same_page (mem s') (mem s2) q) as Hs2.
  { intros q Hqa Hq Hqd. eapply same_page_trans; [by apply Gsame|].
    apply same_page_insert; try done. lia. }
  eapply wph_mono; [apply (Hsub s0 s2 (<[p := path ++ [k]]> N') (path ++ [k]))|].
  - apply Hkids; [lia|]. fold e. by rewrite Hg.
  - done.
  - apply lookup_insert_eq.
  - intros i Hi. pose proof (width_range n). rewrite (same_page_word (mem s1)); [apply Gz; lia| |lia].
    apply same_page_insert; try done. lia.
  - intros [] s3 (N3 & [F3c F3s F3p F3f F3fr] & Hcopy). exists N3.
    assert (∀ q, page_free s2 q → page_free s' q ∧ q ≠ p) as Hf2 by (intros q Hq; by apply Gleft).
    eapply loop_entry; try done.
    + etrans; [by apply (insert_subseteq N' p (path ++ [k]))|done].
    + eapply lookup_weaken; [apply lookup_insert_eq|done].
    + intros q r Hq Hq3. destruct (decide (q = p)) as [->|Hqp].
      * assert (N3 !! p = Some (path ++ [k])) by (eapply lookup_weaken; [apply lookup_insert_eq|done]).
        simplify_eq. split; [done|]. by exists [].
      * destruct (F3p q r) as [Hqf (j & r' & ->)]; [by rewrite lookup_insert_ne|done|].
        split; [by apply Hf2|]. exists (j :: r'). by rewrite <-app_assoc.
    + intros q Hqa Hqf Hqd. assert (q ≠ p) by congruence.
      eapply same_page_trans; [by apply Hs2|]. apply F3f; [done| |done].
      intros ?%Hf2. naive_solver.
    + intros q Hq. by apply Hf2, F3fr.
    + intros j Hj. rewrite (same_page_word (mem s2)); [| |done].
      * unfold s2. simpl. rewrite word_insert by lia. case_decide; [done|].
        rewrite (same_page_word (mem s')); [done|by apply Gsame|done].
      * apply F3f; [done| |done]. intros ?%Hf2. naive_solver.
Qed.

Lemma copy_page_spec src dst s :
  src `mod` 4096 = 0 → dst `mod` 4096 = 0 → src ≠ dst →
  resident (mem s) src → resident (mem s) dst →
  wp (copy_page dst src)
    (λ _ s', ∃ m, s' = s <| mem := m |> ∧
       (∀ q, q `mod` 4096 = 0 → q ≠ dst → same_page (mem s) m q) ∧
       (∀ q, resident (mem s) q → resident m q) ∧
       (∀ i, 0 ≤ i < 512 → word m dst i = word (mem s) src i)) s.
Proof.
  intros Hsa Hda Hne Hsr Hdr.
  eapply wp_mono; [eapply (wp_for_all 512 0 _ (λ k s', ∃ m, s' = s <| mem := m |> ∧
    (∀ q, q `mod` 4096 = 0 → q ≠ dst → same_page (mem s) m q) ∧
    (∀ q, resident (mem s) q → resident m q) ∧
    (∀ i, 0 ≤ i < k → word m dst i = word (mem s) src i)))|].
  - intros k s' Hk (m & -> & Hs & Hr & Hw). apply wp_bind, wp_rd; [by apply Hr|lia|].
    apply wp_wr; [by apply Hr|lia|]. simpl.
    exists (<[dst + 8 * k := word m src k]> m). split_and!; [done| | |].
    + intros q Hqa Hq. eapply same_page_trans; [by apply Hs|]. apply same_page_insert; done || lia.
    + intros q Hq. by apply resident_insert, Hr.
    + intros i Hi. rewrite word_insert by lia. case_decide; [|apply Hw; lia]. subst.
      apply same_page_word; [by apply Hs|lia].
  - exists (mem s). split_and!; [by destruct s|done|done|lia].
  - done.
Qed.

(** The innermost body. *)
Lemma clone_leaf_step s0 s N path src dst k s' N' :
  in_use 1 s0 src → copying s0 s N → N !! dst = Some path →
  loop_inv 1 s0 s N path src dst k s' N' → 0 ≤ k < 512 →
  wph out_of_memory (clone_leaf src dst k)
    (λ _ s'', ∃ N'', loop_inv 1 s0 s N path src dst (k + 1) s'' N'') s'.
Proof.
  intros Huse Hcp Hdst HL Hk.
  pose proof HL as [[Fc Fs Fp Ff Ffr] _ _ _].
  destruct Huse as (Hsa & Hsr & Hsf & Hkids).
  pose proof (cp_old _ _ _ Fc src Hsa Hsf) as Hsrc.
  unfold clone_leaf. apply wph_bind, wph_wp, wp_rd; [by eapply same_page_resident|lia|].
  rewrite (same_page_word (mem s0)) by (done || lia).
  set (e := word (mem s0) src k) in *.
  destruct (has e PTE_PRESENT) eqn:Hpr; cbn [negb].
  2: { apply wph_ret. exists N'. apply loop_skip; [done|done|]. fold e. unfold goes. by rewrite Hpr. }
  assert (goes 1 e = true) as Hg by (unfold goes; by rewrite Hpr).
  destruct (Hkids k Hk Hg) as (Hfa & Hfres & Hff & _). fold e in Hfa, Hfres, Hff.
  apply wph_bind. eapply wph_mono; [apply palloc_zero_spec, Fc|].
  intros phys s1 (p & -> & Hp0 & Hgot & Hok).
  destruct (copying_got s0 s' N' p s1 (path ++ [k]) Fc Hgot Hok) as [Hc1 HpN].
  pose proof Hgot as [Gf Ga [Gr1 Gr2] Gz Gres Gsame Gp Gleft Gused Grest].
  rewrite !phys_virt by done. fold (table_of e).
  assert (N' !! dst = Some path) as Hdst' by (by eapply lookup_weaken).
  assert (p ≠ dst) as Hpd by congruence.
  destruct (cp_new _ _ _ Fc dst _ Hdst') as (Hda & Hdr & Hdf & _).
  assert ((<[p := path ++ [k]]> N') !! dst = Some path) as Hdst1 by (by rewrite lookup_insert_ne).
  assert (table_of e ≠ p) as Hep by (intros E; rewrite E in Hff; by apply Hff, (cp_free _ _ _ Fc)).
  pose proof (cp_old _ _ _ Hc1 _ Hfa Hff) as Hframe.
  apply wph_bind, wph_wp. eapply wp_mono; [apply copy_page_spec; try done|].
  { by eapply same_page_resident. }
  intros [] s2 (m & -> & Hm1 & Hm2 & Hm3).
  apply wph_wp, wp_wr; [by apply Hm2, Gres|lia|].
  set (s3 := (s1 <| mem := m |>) <| mem := _ |>).
  assert (copying s0 s3 (<[p := path ++ [k]]> N')) as Hc3.
  { apply (copying_wr s0 (s1 <| mem := m |>) _ dst path); [|done|lia].
    destruct Hc1 as [Cm Co Cf Cn (b' & m' & Cr)]. split.
    - by apply mem_ok_mem.
    - intros q Hqa Hqf. eapply same_page_trans; [by apply Co|]. apply Hm1; [done|].
      intros ->. apply Hqf. by apply (cp_free _ _ _ Fc).
    - done.
    - intros q r Hq. destruct (Cn q r Hq) as (? & ? & ? & ?). split_and!; [done|by apply Hm2|done|done].
    - subst. by eexists _, _. }
  assert (∀ q, q `mod` 4096 = 0 → q ≠ dst → same_page m (mem s3) q) as Hs3
    by (intros q Hqa Hqd; apply same_page_insert; done || lia).
  exists (<[p := path ++ [k]]> N'). eapply loop_entry; try done.
  - by apply insert_subseteq.
  - apply lookup_insert_eq.
  - intros q r Hq. rewrite lookup_insert. case_decide; [|congruence].
    intros [= <-]. subst q. split; [done|]. by exists [].
  - intros q Hqa Hqf Hqd. assert (q ≠ p) by congruence.
    eapply same_page_trans; [by apply Gsame|]. eapply same_page_trans; [by apply Hm1|]. by apply Hs3.
  - intros q Hq. by apply Gleft in Hq as [? _].
  - intros j Hj. unfold s3. simpl. rewrite word_insert by lia. case_decide; [done|].
    rewrite (same_page_word (mem s1)); [|by apply Hm1|done].
    apply same_page_word; [by apply Gsame|done].
  - intros i Hi. rewrite (same_page_word m); [|by apply Hs3|done]. rewrite Hm3 by done.
    by apply same_page_word.
Qed.

(** ** The loops *)

Lemma loop_start n s0 s N path src dst :
  copying s0 s N → (∀ i, 0 ≤ i < width n → word (mem s) dst i = 0) →
  loop_inv n s0 s N path src dst 0 s N.
Proof. intros Hc Hz. split; [by apply filled_refl|lia|done|done]. Qed.

Lemma loop_end n s0 s N path src dst s' N' :
  loop_inv (S n) s0 s N path src dst (width (S n)) s' N' →
  filled s0 s s' N N' path dst ∧ copied (S n) (mem s0) (mem s') N' path src dst.
Proof. intros [Hf Hd _ _]. done. Qed.

Lemma fills_pt : fills 1 clone_pt.
Proof.
  intros s0 s N path src dst Huse Hcp Hdst Hz. unfold clone_pt.
  eapply wph_mono; [apply (wph_for_all _ 512 0 _
    (λ k s', ∃ N', loop_inv 1 s0 s N path src dst k s' N'))|].
  - intros k s' Hk (N' & HL). by eapply clone_leaf_step.
  - exists N. by apply loop_start.
  - intros [] s' (N' & HL). exists N'. by apply loop_end.
Qed.

Lemma fills_up n sub :
  fills n sub → n ≠ 0%nat → (n < 3)%nat →
  fills (S n) (λ src dst, for_all 512 0 (clone_table true sub src dst)).
Proof.
  intros Hsub Hn0 Hn s0 s N path src dst Huse Hcp Hdst Hz.
  assert (width (S n) = 512 ∧ skips (S n) = true) as [Ew Es]
    by (destruct n as [|[|[|]]]; done || lia).
  eapply wph_mono; [apply (wph_for_all _ 512 0 _
    (λ k s', ∃ N', loop_inv (S n) s0 s N path src dst k s' N'))|].
  - intros k s' Hk (N' & HL). rewrite <-Es. eapply clone_table_step; done || lia.
  - exists N. by apply loop_start.
  - intros [] s' (N' & HL). exists N'. apply loop_end. by rewrite Ew.
Qed.

(** ** The clone *)

(** The frame behind [virt], when no large page is on the way. *)
Fixpoint frame (n : nat) (m : gmap Z Z) (t virt : Z) : option Z :=
  match n with
  | O => Some t
  | S n' =>
      let e := word m t (idx n virt) in
      if goes n e then frame n' m (table_of e) virt else None
  end.

Lemma goes_entry n t e :
  t `mod` 4096 = 0 → goes n (Z.lor t (low12 e)) = goes n e.
Proof.
  intros Ht. unfold goes, is_leaf.
  assert (∀ b, 0 ≤ b < 4096 → has (Z.lor t (low12 e)) b = has e b) as E
    by (intros b Hb; rewrite has_entry, has_low12; auto using low12_range).
  rewrite E by done. repeat case_match; rewrite ?E by done; done.
Qed.

(** A copy translates what the original translates, to new pages with the same
    contents. *)
Lemma copied_frame n s0 s N path src dst virt :
  copying s0 s N → copied n (mem s0) (mem s) N path src dst → N !! dst = Some path →
  (n ≤ 4)%nat → idx n virt < width n →
  match frame n (mem s0) src virt with
  | None => frame n (mem s) dst virt = None
  | Some f => ∃ f', frame n (mem s) dst virt = Some f' ∧ is_Some (N !! f') ∧
      ∀ i, 0 ≤ i < 512 → word (mem s) f' i = word (mem s0) f i
  end.
Proof.
  intros Hcp. revert path src dst. induction n as [|n IH]; intros path src dst Hc Hdst Hn Hw;
    cbn [frame copied] in *.
  - exists dst. by rewrite Hdst.
  - pose proof (idx_ok (S n) virt) as Hi. specialize (Hc (idx (S n) virt) ltac:(lia)).
    cbn zeta in Hc. set (e := word (mem s0) src _) in *.
    destruct (goes (S n) e) eqn:Hg.
    + destruct Hc as (t & Ht & Ew & Et & Hc). rewrite Et.
      destruct (cp_new _ _ _ Hcp t _ Ht) as (Hta & _ & _ & (b & _ & Hbf)).
      destruct (bd_range b t (or_introl Hbf)) as (_ & Hlo & Hhi).
      destruct (virt_phys_aligned t Hlo Hhi Hta) as (Hva & _).
      rewrite Ew, goes_entry, Hg by done. eapply IH; [done|done|lia|].
      pose proof (idx_ok n virt). destruct n as [|[|[|[|]]]]; cbn [width]; lia.
    + by rewrite Hc.
Qed.

(** The loop over the kernel half. *)
Lemma share_kernel src dst s0 s N :
  in_use 4 s0 src → copying s0 s N → N !! dst = Some [] →
  wp (for_all 256 256 (λ i, e ← rd (src + 8 * i); wr (dst + 8 * i) e))
    (λ _ s', copying s0 s' N ∧
       (∀ i, 0 ≤ i < 256 → word (mem s') dst i = word (mem s) dst i) ∧
       (∀ i, 256 ≤ i < 512 → word (mem s') dst i = word (mem s0) src i)) s.
Proof.
  intros (Hsa & Hsr & Hsf & _) Hcp Hdst.
  eapply wp_mono; [eapply (wp_for_all 256 256 _ (λ k s', copying s0 s' N ∧
    (∀ i, 0 ≤ i < 256 → word (mem s') dst i = word (mem s) dst i) ∧
    (∀ i, 256 ≤ i < k → word (mem s') dst i = word (mem s0) src i)))|].
  - intros k s' Hk (Hc & H1 & H2). pose proof (cp_old _ _ _ Hc src Hsa Hsf) as Hs.
    destruct (cp_new _ _ _ Hc dst _ Hdst) as (_ & Hdr & _).
    apply wp_bind, wp_rd; [by eapply same_page_resident|lia|].
    apply wp_wr; [done|lia|]. split_and!.
    + eapply copying_wr; [done|done|lia].
    + intros i Hi. simpl. rewrite word_insert, decide_False by lia. auto.
    + intros i Hi. simpl. rewrite word_insert by lia. case_decide; [|apply H2; lia].
      subst. apply same_page_word; [done|lia].
  - split_and!; [done|done|lia].
  - done.
Qed.

(** What [vmm_clone_pml4] promises. *)
Record cloned (s0 s : mst) (src dst : Z) (N : gmap Z (list Z)) : Prop := {
  cl_copying : copying s0 s N;
  cl_root : N !! dst = Some [];
  cl_kernel i : 256 ≤ i < 512 → word (mem s) dst i = word (mem s0) src i;
  cl_user : copied 4 (mem s0) (mem s) N [] src dst;
  cl_frames virt : PML4_IDX virt < 256 →
    match frame 4 (mem s0) src virt with
    | None => frame 4 (mem s) dst virt = None
    | Some f => ∃ f', frame 4 (mem s) dst virt = Some f' ∧ page_free s0 f' ∧
        ∀ i, 0 ≤ i < 512 → word (mem s) f' i = word (mem s0) f i
    end }.

Lemma vmm_clone_pml4_post s src :
  mem_ok s → in_use 4 s src →
  wph out_of_memory (vmm_clone_pml4 src)
    (λ dst s', dst ≠ 0 ∧ ∃ N, cloned s s' src dst N) s.
Proof.
  intros Hok Huse. unfold vmm_clone_pml4. apply wph_bind.
  eapply wph_mono; [by apply palloc_zero_spec|]. intros phys s1 (p & -> & Hp0 & Hgot & Hok1).
  assert (copying s s ∅) as Hc0.
  { split; try done. destruct s. by eexists _, _. }
  destruct (copying_got s s ∅ p s1 [] Hc0 Hgot Hok1) as [Hc1 _].
  pose proof Hgot as [Gf Ga [Gr1 Gr2] Gz Gres Gsame Gp Gleft Gused Grest].
  rewrite phys_virt by done. destruct hhdm_ok as [Hh _].
  rewrite (proj2 (Z.eqb_neq p 0)) by lia.
  apply wph_bind, wph_wp. eapply wp_mono; [apply (share_kernel src p s s1 _ Huse Hc1)|].
  { apply lookup_insert_eq. }
  intros [] s2 (Hc2 & Hu2 & Hk2). apply wph_bind.
  eapply wph_mono; [apply (wph_for_all _ 256 0 _ (λ k s', ∃ N',
    loop_inv 4 s s2 (<[p := []]> ∅) [] src p k s' N'))|].
  - intros k s' Hk (N' & HL).
    apply (clone_table_step 3 clone_pdpt s s2 (<[p := []]> ∅) [] src p k s' N'); try done.
    + apply (fills_up 2 clone_pd); [|lia|lia]. apply (fills_up 1 clone_pt); [|lia|lia].
      apply fills_pt.
    + apply lookup_insert_eq.
  - exists (<[p := []]> ∅). apply loop_start; [done|].
    intros i Hi. cbn [width] in Hi. rewrite Hu2 by done. apply Gz. lia.
  - intros [] s3 (N' & HL). apply wph_ret. split; [lia|]. exists N'.
    destruct (loop_end 3 _ _ _ _ _ _ _ _ HL) as [[Fc Fs Fp Ff Ffr] Hcopy].
    assert (N' !! p = Some []) as Hp by (eapply lookup_weaken; [apply lookup_insert_eq|done]).
    split; try done.
    { intros i Hi. rewrite (lo_rest _ _ _ _ _ _ _ _ _ _ HL) by done. by apply Hk2. }
    intros virt Hv.
    pose proof (copied_frame 4 s s3 N' [] src p virt Fc Hcopy Hp ltac:(lia) Hv) as Hfr.
    destruct (frame 4 (mem s) src virt); [|done]. destruct Hfr as (f' & ? & [q Hq] & ?).
    exists f'. split_and!; [done| |done]. by apply (cp_new _ _ _ Fc f' q).
Qed.

(** ** Teardown *)

(** The pages behind the first [k] entries of a table, in the order the code
    meets them: each entry's own page follows what lies behind it. *)
Fixpoint pages (n : nat) (m : gmap Z Z) (t : Z) (k : Z) : list Z :=
  match n with
  | O => []
  | S n' => j ← seqZ 0 k;
      let e := word m t j in
      if goes n e then pages n' m (table_of e) (width n') ++ [table_of e] else []
  end.

Definition behind (n : nat) (m : gmap Z Z) (t j : Z) : list Z :=
  let e := word m t j in
  if goes (S n) e then pages n m (table_of e) (width n) ++ [table_of e] else [].

Lemma pages_step n m t k : 0 ≤ k →
  pages (S n) m t (k + 1) = pages (S n) m t k ++ behind n m t k.
Proof.
  intros Hk. cbn [pages]. rewrite seqZ_app by lia. rewrite bind_app. f_equal.
  rewrite Z.add_0_l, seqZ_cons by lia. csimpl. apply app_nil_r.
Qed.

Lemma pages_stable n m m' t k :
  (∀ q, q ∈ t :: pages n m t k → same_page m m' q) → k ≤ 512 →
  pages n m' t k = pages n m t k.
Proof.
  revert t k. induction n as [|n IH]; intros t k Hs Hk; [done|]. cbn [pages] in *.
  assert (∀ l, (∀ j, j ∈ l → 0 ≤ j < 512) → (∀ j, j ∈ l → j ∈ seqZ 0 k) →
    (l ≫= λ j, if goes (S n) (word m' t j)
       then pages n m' (table_of (word m' t j)) (width n) ++ [table_of (word m' t j)] else []) =
    (l ≫= λ j, if goes (S n) (word m t j)
       then pages n m (table_of (word m t j)) (width n) ++ [table_of (word m t j)] else [])) as Hmap.
  { induction l as [|j l IHl]; intros Hr Hin; [done|]. csimpl. f_equal.
    2: { apply IHl; intros ??; [apply Hr|apply Hin]; by right. }
    rewrite (same_page_word m m' t j); [|apply Hs; by left|apply Hr; by left].
    destruct (goes (S n) (word m t j)) eqn:Hg; [|done]. f_equal.
    apply IH; [|apply width_range]. intros q Hq. apply Hs. right.
    apply list_elem_of_bind. exists j. split; [|apply Hin; by left]. rewrite Hg.
    set_unfold. naive_solver. }
  apply Hmap; [|done]. intros j Hj%elem_of_seqZ. lia.
Qed.

(** What releasing the pages [l] does; only [l] and [t] are written. *)
Record released (s s' : mst) (t : Z) (l : list Z) : Prop := {
  rl_mem : mem_ok s';
  rl_free q : page_free s' q ↔ page_free s q ∨ q ∈ l;
  rl_used q : page_used s' q ↔ page_used s q ∧ q ∉ l;
  rl_same q : q `mod` 4096 = 0 → q ∉ t :: l → same_page (mem s) (mem s') q;
  rl_resident q : resident (mem s) q → resident (mem s') q;
  rl_rest : ∃ b m, s' = s <| pmm_buddy := b |> <| mem := m |> }.

(** The pages behind the entries of [t] are all different, allocated and
    accessible. *)
Record owned (s : mst) (t : Z) (l : list Z) : Prop := {
  ow_mem : mem_ok s;
  ow_root : t `mod` 4096 = 0 ∧ resident (mem s) t;
  ow_nodup : NoDup (t :: l);
  ow_page q : q ∈ l → page_used s q ∧ resident (mem s) q }.

Definition frees (n : nat) (c : Z → M mst unit) : Prop :=
  ∀ s t, owned s t (pages n (mem s) t (width n)) →
    wp (c t) (λ _ s', released s s' t (pages n (mem s) t (width n))) s.

Lemma released_trans s s1 s2 t u l1 l2 :
  released s s1 t l1 → released s1 s2 u l2 → u ∈ t :: l1 ++ l2 →
  released s s2 t (l1 ++ l2).
Proof.
  intros [A1 A2 A3 A4 A5 (b1 & m1 & A6)] [B1 B2 B3 B4 B5 (b2 & m2 & B6)] Hu. split.
  - done.
  - intros q. rewrite B2, A2, elem_of_app. tauto.
  - intros q. rewrite B3, A3, elem_of_app. tauto.
  - intros q Hqa Hq. rewrite elem_of_cons, elem_of_app in Hq.
    eapply same_page_trans; [apply A4|apply B4]; try done; rewrite elem_of_cons; [tauto|].
    intros [-> |]; [|tauto]. rewrite elem_of_cons, elem_of_app in Hu. tauto.
  - auto.
  - subst. by eexists _, _.
Qed.

(** A store into the table. *)
Lemma released_wr s s' t l i v :
  released s s' t l → t `mod` 4096 = 0 → 0 ≤ i < 512 →
  released s (s' <| mem := <[t + 8 * i := v]> (mem s') |>) t l.
Proof.
  intros [A1 A2 A3 A4 A5 (b1 & m1 & A6)] Ht Hi. split; simpl.
  - apply mem_ok_mem; [done|]. intros q. apply resident_insert.
  - done.
  - done.
  - intros q Hqa Hq. eapply same_page_trans; [by apply A4|]. apply same_page_insert; try done.
    intros ->. apply Hq. by left.
  - intros q Hq. by apply resident_insert, A5.
  - subst. by eexists _, _.
Qed.

Lemma released_pfree s phys :
  let p := PHYS_TO_VIRT phys in
  mem_ok s → page_used s p → resident (mem s) p →
  wp (pfree phys) (λ _ s', released s s' p [p] ∧ mem s' = mem s) s.
Proof.
  intros p Hok Hu Hr. eapply wp_mono; [by apply pfree_spec|].
  intros [] s' (Hok' & Hf & Hus & b & ->). split; [|done]. split; simpl; try done.
  - intros q. rewrite Hf. set_unfold. naive_solver.
  - intros q. rewrite Hus. set_unfold. naive_solver.
  - exists b, (mem s). by destruct s.
Qed.

Lemma released_refl s t : mem_ok s → released s s t [].
Proof.
  intros Hok. split; try done; try (intros q; set_unfold; tauto).
  destruct s. by eexists _, _.
Qed.

Lemma pages_split n m t k w :
  0 ≤ k ≤ w → ∃ rest, pages (S n) m t w = pages (S n) m t k ++ rest.
Proof.
  intros Hk. cbn [pages]. replace w with (k + (w - k)) by lia.
  rewrite seqZ_app, bind_app by lia. by eexists.
Qed.

Lemma NoDup_middle (t u : Z) (d l rest : list Z) :
  NoDup (t :: (d ++ l ++ [u]) ++ rest) →
  (∀ q, q ∈ l ++ [u] → q ∉ t :: d) ∧ NoDup (u :: l) ∧ t ≠ u.
Proof.
  intros [Ht Hnd]%list.NoDup_cons. apply list.NoDup_app in Hnd as (Hnd & _ & _).
  apply list.NoDup_app in Hnd as (_ & Hsep & Hnd). split_and!.
  - intros q Hq [-> |Hd]%elem_of_cons; [|by eapply Hsep]. apply Ht. set_solver +Hq.
  - apply list.NoDup_app in Hnd as (? & Hu & _). apply list.NoDup_cons. split; [|done].
    intros Hin. apply (Hu u Hin). set_solver +.
  - intros ->. apply Ht. set_solver +.
Qed.

(** The state before round [k] of a loop over the table [t]. *)
Definition free_inv (n : nat) (s : mst) (t k : Z) (s' : mst) : Prop :=
  released s s' t (pages n (mem s) t k) ∧
  ∀ j, 0 ≤ j < 512 → word (mem s') t j =
    if decide (j < k) then if goes n (word (mem s) t j) then 0 else word (mem s) t j
    else word (mem s) t j.

Lemma free_table_step n sub s t k s' :
  frees n sub → owned s t (pages (S n) (mem s) t (width (S n))) →
  free_inv (S n) s t k s' → 0 ≤ k < width (S n) →
  wp (free_table (skips (S n)) sub t k) (λ _, free_inv (S n) s t (k + 1)) s'.
Proof.
  intros Hsub Hown [Hrel Hw] Hk. pose proof (width_range (S n)) as Hwn.
  pose proof Hown as [Om [Ota Otr] Ond Opg].
  unfold free_table. apply wp_bind, wp_rd; [by apply Hrel|lia|].
  rewrite Hw, decide_False by lia. set (e := word (mem s) t k) in *.
  pose proof (goes_eq (S n) e) as Hg.
  assert (goes (S n) e = false → free_inv (S n) s t (k + 1) s') as Hskip.
  { intros Hng. split.
    - rewrite pages_step by lia. unfold behind. fold e. by rewrite Hng, app_nil_r.
    - intros j Hj. rewrite Hw by done. destruct (decide (j = k)) as [->|].
      + rewrite decide_False, decide_True by lia. fold e. by rewrite Hng.
      + repeat case_decide; done || lia. }
  destruct (negb (has e PTE_PRESENT)); cbn [negb andb] in Hg; [apply wp_ret; auto|].
  destruct (skips (S n) && has e PTE_HUGE); cbn [negb andb] in Hg; [apply wp_ret; auto|].
  clear Hskip. fold (table_of e). set (u := table_of e) in *.
  destruct (pages_split n (mem s) t (k + 1) (width (S n)) ltac:(lia)) as [rest Hrest].
  assert (behind n (mem s) t k = pages n (mem s) u (width n) ++ [u]) as Hb
    by (unfold behind; fold e u; by rewrite Hg).
  rewrite pages_step, Hb in Hrest by lia.
  set (done_ := pages (S n) (mem s) t k) in *. set (l := pages n (mem s) u (width n)) in *.
  rewrite Hrest in Ond, Opg. destruct (NoDup_middle _ _ _ _ _ Ond) as (Hsep & Hnd & Htu).
  assert (∀ q, q ∈ l ++ [u] → page_used s q ∧ resident (mem s) q) as Hlu
    by (intros q Hq; apply Opg; set_solver +Hq).
  assert (∀ q, q ∈ l ++ [u] → same_page (mem s) (mem s') q) as Hsame.
  { intros q Hq. apply Hrel; [|by apply Hsep]. 
    destruct (Hlu q Hq) as [(b & _ & Hbu) _]. apply (bd_range b q). by right. }
  assert (pages n (mem s') u (width n) = l) as El.
  { apply pages_stable; [|apply width_range]. intros q Hq. apply Hsame. set_solver +Hq. }
  assert (u `mod` 4096 = 0) as Hua.
  { destruct (Hlu u ltac:(set_solver +)) as [(b & _ & Hbu) _]. apply (bd_range b u). by right. }
  assert (∀ q, q ∈ l ++ [u] → page_used s' q ∧ resident (mem s') q) as Hlu'.
  { intros q Hq. destruct (Hlu q Hq) as [Hu Hr]. split; [|by apply Hrel].
    apply Hrel. split; [done|]. intros Hin. apply (Hsep q Hq). by right. }
  apply wp_bind. eapply wp_mono; [apply Hsub|].
  { rewrite El. split; [apply Hrel|split; [done|apply Hlu'; set_solver +]| |].
    - done.
    - intros q Hq. apply Hlu'. set_solver +Hq. }
  rewrite El. intros [] s1 Hrel1.
  assert (u ∉ l) as Hul by (by apply list.NoDup_cons in Hnd as [? _]).
  destruct (Hlu' u ltac:(set_solver +)) as [Hu' Hr'].
  apply wp_bind. eapply wp_mono; [apply released_pfree|].
  { apply Hrel1. }
  { by apply Hrel1. }
  { by apply Hrel1. }
  intros [] s2 [Hrel2 Em2].
  apply wp_wr; [|lia|].
  { rewrite Em2. by apply Hrel1, Hrel. }
  assert (released s s2 t (done_ ++ l ++ [u])) as Hall.
  { eapply (released_trans _ s' _ _ u); [done| |set_solver +].
    eapply (released_trans _ s1 _ _ u); [done|done|set_solver +]. }
  split.
  - rewrite pages_step, Hb by lia. apply released_wr; done || lia.
  - intros j Hj. simpl. rewrite word_insert by lia. case_decide as E.
    + subst j. rewrite decide_True by lia. fold e. by rewrite Hg.
    + rewrite Em2, (same_page_word (mem s')), Hw.
      * repeat case_decide; done || lia.
      * done.
      * apply Hrel1; [done|]. intros [|Hin]%elem_of_cons; [done|].
        apply (Hsep t); [set_solver +Hin|by left].
      * done.
Qed.

Lemma frees_up n sub :
  frees n sub → (n < 4)%nat → ∀ s t,
  owned s t (pages (S n) (mem s) t (width (S n))) →
  wp (for_all (Z.to_nat (width (S n))) 0 (free_table (skips (S n)) sub t))
    (λ _, free_inv (S n) s t (width (S n))) s.
Proof.
  intros Hsub Hn s t Hown.
  assert (Z.of_nat (Z.to_nat (width (S n))) = width (S n)) as Ew
    by (rewrite Z2Nat.id; [done|unfold width; repeat case_match; lia]).
  eapply wp_mono; [apply (wp_for_all (Z.to_nat (width (S n))) 0 _ (free_inv (S n) s t))|].
  - intros k s' Hk Hinv. apply free_table_step; done || lia.
  - split.
    + change (pages (S n) (mem s) t 0) with (@nil Z). apply released_refl, Hown.
    + intros j Hj. by rewrite decide_False by lia.
  - intros [] s'. by rewrite Z.add_0_l, Ew.
Qed.

Lemma frees_leaf : frees 0 (λ _, mret tt).
Proof. intros s t Hown. apply wp_ret, released_refl, Hown. Qed.

Lemma frees_table n sub : frees n sub → (n < 3)%nat →
  frees (S n) (λ t, for_all 512 0 (free_table (skips (S n)) sub t)).
Proof.
  intros Hsub Hn s t Hown. assert (Z.to_nat (width (S n)) = 512%nat) as E
    by (by destruct n as [|[|[|]]]; [..|lia]).
  eapply wp_mono; [rewrite <-E; apply (frees_up n sub Hsub); [lia|done]|]. by intros [] s' [? _].
Qed.

Lemma vmm_free_user_pages_post s pml4 :
  pml4 ≠ 0 → owned s pml4 (pages 4 (mem s) pml4 256) →
  wp (vmm_free_user_pages pml4)
    (λ _ s', released s s' pml4 (pages 4 (mem s) pml4 256) ∧
       (∀ j, 256 ≤ j < 512 → word (mem s') pml4 j = word (mem s) pml4 j) ∧
       (∀ virt, PML4_IDX virt < 256 → frame 4 (mem s') pml4 virt = None)) s.
Proof.
  intros Hne Hown. unfold vmm_free_user_pages. rewrite (proj2 (Z.eqb_neq _ _)) by done.
  eapply wp_mono; [apply (frees_up 3 free_pdpt); [|lia|done]|].
  - apply (frees_table 2 free_pd); [|lia]. apply (frees_table 1 free_pt); [|lia].
    apply (frees_table 0 _ frees_leaf). lia.
  - intros [] s' [Hrel Hw]. split_and!; [done| |].
    + intros j Hj. by rewrite Hw, decide_False by (cbn [width]; lia).
    + intros virt Hv. cbn [frame]. pose proof (idx_ok 4 virt).
      change (PML4_IDX virt) with (idx 4 virt) in Hv. rewrite Hw by done.
      rewrite decide_True by done. by destruct (goes 4 (word (mem s) pml4 (idx 4 virt))) eqn:E;
        rewrite ?E.
Qed.

(** C15: [vmm_clone_pml4] returns a new address space (or the machine stops
    because physical memory is exhausted).  It shares the kernel half, its user
    half maps exactly the 4 KiB pages the source maps, with the same flags and
    contents, on distinct pages that were free before; no page that was in use
    has changed. *)
Theorem vmm_clone_pml4_correct s src :
  mem_ok s → in_use 4 s src →
  wph out_of_memory (vmm_clone_pml4 src)
    (λ dst s', dst ≠ 0 ∧ ∃ N, cloned s s' src dst N) s.
Proof. apply vmm_clone_pml4_post. Qed.

(** [vmm_free_user_pages] gives back exactly the tables and 4 KiB frames
    of the user half; afterwards no user address has a frame, the kernel half
    is as before, and no page outside the address space has changed. *)
Theorem vmm_free_user_pages_correct s pml4 :
  pml4 ≠ 0 → owned s pml4 (pages 4 (mem s) pml4 256) →
  wp (vmm_free_user_pages pml4)
    (λ _ s', released s s' pml4 (pages 4 (mem s) pml4 256) ∧
       (∀ j, 256 ≤ j < 512 → word (mem s') pml4 j = word (mem s) pml4 j) ∧
       (∀ virt, PML4_IDX virt < 256 → frame 4 (mem s') pml4 virt = None)) s.
Proof. apply vmm_free_user_pages_post. Qed.
End Correct.
End Vmm.
