(* ===== verification/Heap.v ===== *)
(** * The kernel heap's address range

    Models [heap_extend] of [mm/slab.c] and the memory behind the heap: loads
    and stores go through the page tables.  [heap_rep s h]: the range from
    [HEAP_BASE] to [heap_virtual_top] is mapped to frames of its own, and its
    words are those of the function [h].  Theorems about the slab allocator are
    proved against [h] and never see the tables. *)

From S2P Require Import Prelude Mem Paging.

(** A function changed at one point. *)
Definition upd (h : Z → Z) (a x : Z) : Z → Z := λ b, if decide (b = a) then x else h b.

Lemma word_upd_eq h a x : upd h a x a = x.
Proof. unfold upd. by rewrite decide_True. Qed.
Lemma word_upd_ne h a x b : b ≠ a → upd h a x b = h b.
Proof. intros. unfold upd. by rewrite decide_False. Qed.

Section Heap.
Context `{!Buddy}.

(** ** The code *)

(** Access to the word at a virtual address, by the kernel's tables. *)
Definition vrd (a : Z) : M mst Z := λ s,
  let p := translate s (kernel_pml4 s) a in
  if p =? 0 then Fault else rd (PHYS_TO_VIRT p) s.
Definition vwr (a x : Z) : M mst unit := λ s,
  let p := translate s (kernel_pml4 s) a in
  if p =? 0 then Fault else wr (PHYS_TO_VIRT p) x s.

Definition HEAP_BASE : Z := 0xffff900000000000.

(** The rounds of the loop of [heap_extend]; [false] when it returns early. *)
Fixpoint extend_pages (n : nat) : M mst bool :=
  match n with
  | O => mret true
  | S n =>
      phys ← palloc_zero;
      if phys =? 0 then mret false else
      root ← gets kernel_pml4; top ← gets heap_virtual_top;
      map_page root top phys PTE_WRITABLE ;;
      modify (λ s, s <| heap_virtual_top := u64 (top + PAGE_SIZE) |>) ;;
      extend_pages n
  end.

Definition heap_extend (pages : Z) : M mst Z :=
  virt_addr ← gets heap_virtual_top;
  ok ← extend_pages (Z.to_nat pages);
  if (ok : bool) then mret virt_addr else mret 0.

(** ** The representation *)

(** The range ends where the kernel's image begins. *)
Definition HEAP_LIMIT : Z := 0xffffffff80000000.

Context `{!BuddyOk}.

(** [fr] gives each page of the heap its frame, by its direct-map address. *)
Record heap_ok (s : mst) (T : gmap Z (Z * list Z)) (fr : gmap Z Z) : Prop := {
  ho_tree : ptree s T;
  ho_root : is_root T (kernel_pml4 s);
  ho_top : HEAP_BASE ≤ heap_virtual_top s ≤ HEAP_LIMIT ∧ heap_virtual_top s `mod` 4096 = 0;
  ho_dom v : is_Some (fr !! v) ↔ v `mod` 4096 = 0 ∧ HEAP_BASE ≤ v < heap_virtual_top s;
  ho_frame v p : fr !! v = Some p →
    p `mod` 4096 = 0 ∧ hhdm < p ∧ p + 4096 ≤ 2 ^ 64 ∧ resident (mem s) p ∧
    ¬ page_free s p ∧ T !! p = None;
  ho_inj v v' p : fr !! v = Some p → fr !! v' = Some p → v = v';
  ho_trans v p o : fr !! v = Some p → 0 ≤ o < 4096 →
    translate s (kernel_pml4 s) (v + o) = VIRT_TO_PHYS p + o;
  ho_room v : heap_virtual_top s ≤ v < HEAP_LIMIT → plain 4 (mem s) (kernel_pml4 s) v }.

(** The word at [a]. *)
Definition hword (s : mst) (fr : gmap Z Z) (a : Z) : Z :=
  match fr !! page_of a with Some p => word (mem s) p (low12 a `div` 8) | None => 0 end.

(** The word addresses of the heap. *)
Definition in_heap (s : mst) (a : Z) : Prop :=
  a `mod` 8 = 0 ∧ HEAP_BASE ≤ a < heap_virtual_top s.

Definition heap_rep (s : mst) (h : Z → Z) : Prop :=
  ∃ T fr, heap_ok s T fr ∧ ∀ a, in_heap s a → hword s fr a = h a.

(** ** Loads and stores *)

Lemma word_split a : a `mod` 8 = 0 → a = page_of a + 8 * (low12 a `div` 8) ∧ 0 ≤ low12 a `div` 8 < 512.
Proof. intros Ha. rewrite page_of_sub, low12_mod. Z.div_mod_to_equations. lia. Qed.

Lemma in_heap_frame s T fr a : heap_ok s T fr → in_heap s a → ∃ p, fr !! page_of a = Some p.
Proof.
  intros Hok [Ha Hr]. apply (ho_dom _ _ _ Hok). pose proof (page_of_le a).
  destruct (ho_top _ _ _ Hok) as [Ht Hm]. split; [apply page_of_aligned|].
  pose proof (page_of_aligned a). change HEAP_BASE with (0xffff900000000 * 4096) in *.
  Z.div_mod_to_equations. lia.
Qed.

Lemma heap_translate s T fr a p : heap_ok s T fr → in_heap s a → fr !! page_of a = Some p →
  translate s (kernel_pml4 s) a ≠ 0 ∧
  PHYS_TO_VIRT (translate s (kernel_pml4 s) a) = p + 8 * (low12 a `div` 8).
Proof.
  intros Hok [Ha Hr] Hp. destruct (word_split a Ha) as [E Hi].
  destruct (ho_frame _ _ _ Hok _ _ Hp) as (Hpa & Hlo & Hhi & _).
  destruct (virt_phys_aligned p Hlo Hhi Hpa) as (_ & Hpos & Ev).
  rewrite E at 1 2. rewrite (ho_trans _ _ _ Hok _ _ (8 * (low12 a `div` 8)) Hp) by lia.
  split; [lia|]. unfold PHYS_TO_VIRT. rewrite Ev, wrap_small by (destruct hhdm_ok; lia). lia.
Qed.

Lemma vrd_eq s h a : heap_rep s h → in_heap s a → vrd a s = Done (h a) s.
Proof.
  intros (T & fr & Hok & Hh) Ha. destruct (in_heap_frame _ _ _ _ Hok Ha) as [p Hp].
  destruct (heap_translate _ _ _ _ _ Hok Ha Hp) as [Hne E]. unfold vrd.
  rewrite (proj2 (Z.eqb_neq _ _) Hne), E. rewrite <-(Hh a Ha). unfold hword. rewrite Hp.
  destruct (ho_frame _ _ _ Hok _ _ Hp) as (_ & _ & _ & Hres & _).
  destruct (word_split a (proj1 Ha)) as [_ Hi]. unfold rd, word.
  by destruct (Hres _ Hi) as [x ->].
Qed.

(** A change of memory outside the tables. *)
Lemma tables_frame s s' T : ptree s T → mem_ok s' →
  (∀ t, resident (mem s) t → resident (mem s') t) → (∀ q, page_free s' q → page_free s q) →
  (∀ t rl, T !! t = Some rl → same_page (mem s) (mem s') t) →
  ptree s' T ∧ ∀ root v, is_root T root →
    translate s' root v = translate s root v ∧
    (plain 4 (mem s) root v → plain 4 (mem s') root v).
Proof.
  intros HT Hm Hres Hfree Hsame. split.
  - split; [done|apply (pt_depth _ _ HT)| |].
    + intros t rl Ht. destruct (pt_page _ _ HT t rl Ht) as (? & ? & ? & ? & Hnf).
      split_and!; try done; [by apply Hres|]. intros Hx. by apply Hnf, Hfree.
    + intros t r l i Ht Hl Hi. rewrite (same_page_word (mem s)); [|by eapply Hsame|done].
      by apply (pt_child _ _ HT).
  - assert (∀ t r l i, T !! t = Some (r, l) → 0 ≤ i < 512 →
      ent_sim (mem s') (level l) (word (mem s) t i) (word (mem s') t i)) as Hsim.
    { intros t r l i Ht Hi. rewrite (same_page_word (mem s) (mem s') t i); [|by eapply Hsame|done].
      apply ent_sim_refl. }
    intros root v Hr. split; [by apply (trans_sim s _ T HT Hsim 4 root root [])|].
    by apply (plain_sim s _ T HT Hsim 4 root root []).
Qed.

Lemma vwr_eq s h a x : heap_rep s h → in_heap s a →
  ∃ m, vwr a x s = Done tt (s <| mem := m |>) ∧ heap_rep (s <| mem := m |>) (upd h a x).
Proof.
  intros (T & fr & Hok & Hh) Ha. destruct (in_heap_frame _ _ _ _ Hok Ha) as [p Hp].
  destruct (heap_translate _ _ _ _ _ Hok Ha Hp) as [Hne E]. unfold vwr.
  rewrite (proj2 (Z.eqb_neq _ _) Hne), E. set (i := low12 a `div` 8) in *.
  destruct (ho_frame _ _ _ Hok _ _ Hp) as (Hpa & _ & _ & Hres & _ & HpT).
  destruct (word_split a (proj1 Ha)) as [Ea Hi]. fold i in Ea, Hi. unfold wr.
  destruct (Hres _ Hi) as [y ->]. exists (<[p + 8 * i := x]> (mem s)). split; [done|].
  pose proof (ho_tree _ _ _ Hok) as HT. pose proof (ho_root _ _ _ Hok) as Hroot.
  set (s' := s <| mem := <[p + 8 * i := x]> (mem s) |>).
  assert (∀ t, resident (mem s) t → resident (mem s') t) as Hr' by (intros; by apply resident_insert).
  destruct (tables_frame s s' T HT) as [HT' Htr]; [|done|done| |].
  { apply mem_ok_mem; [apply (pt_mem _ _ HT)|]. intros t. apply resident_insert. }
  { intros t rl Ht. apply same_page_insert; [by apply (pt_page _ _ HT t _ Ht)|done|congruence|done]. }
  exists T, fr. split.
  - split; [done|exact Hroot|apply Hok|apply (ho_dom _ _ _ Hok)| |apply Hok| |].
    + intros v q Hq. destruct (ho_frame _ _ _ Hok _ _ Hq) as (? & ? & ? & ? & ? & ?).
      split_and!; try done. by apply Hr'.
    + intros v q o Hq Ho. rewrite (proj1 (Htr _ _ Hroot)). by apply (ho_trans _ _ _ Hok).
    + intros v Hv. by apply (proj2 (Htr _ _ Hroot)), (ho_room _ _ _ Hok).
  - intros b Hb. destruct (in_heap_frame _ _ _ _ Hok Hb) as [q Hq].
    destruct (word_split b (proj1 Hb)) as [Eb Hj]. specialize (Hh b Hb). unfold hword in *.
    rewrite Hq in *. unfold upd. destruct (decide (b = a)) as [->|Hba].
    + rewrite Hp in Hq. injection Hq as <-. unfold s'. cbn [mem]. fold i.
      change (word (<[p + 8 * i := x]> (mem s)) p i = x). by rewrite word_insert, decide_True.
    + rewrite <-Hh. change (word (<[p + 8 * i := x]> (mem s)) q (low12 b `div` 8) = word (mem s) q (low12 b `div` 8)).
      destruct (decide (q = p)) as [->|Hqp].
      * rewrite word_insert by done. rewrite decide_False; [done|]. intros Hij. apply Hba.
        rewrite Eb, Ea. rewrite (ho_inj _ _ _ Hok _ _ _ Hp Hq). by rewrite Hij.
      * apply same_page_word; [|done].
        apply same_page_insert; try done. by apply (ho_frame _ _ _ Hok _ _ Hq).
Qed.

(** ** Growing *)

Lemma heap_base_pages v : HEAP_BASE ≤ v < HEAP_LIMIT → ∀ w, HEAP_BASE ≤ w < HEAP_LIMIT →
  Z.abs (v - w) < 2 ^ 47.
Proof. unfold HEAP_BASE, HEAP_LIMIT. change (2 ^ 47) with 140737488355328. lia. Qed.

(** The page [p] becomes the page at the top of the heap. *)
Section Growth.
Context (s s1 s2 : mst) (T T' : gmap Z (Z * list Z)) (fr : gmap Z Z) (p : Z).
Let top : Z := heap_virtual_top s.
Let root : Z := kernel_pml4 s.
Context (Hok : heap_ok s T fr) (Hlim : top < HEAP_LIMIT).
Context (HG : got_page s p s1) (HR : remapped 1 s1 s2 T T' root top).
Context (Htr1 : ∀ v, translate s1 root v = translate s root v ∧
  (plain 4 (mem s) root v → plain 4 (mem s1) root v)).
Context (Hnew : ∀ v, page_of v = page_of top →
  translate s2 root v = u64 (page_of (VIRT_TO_PHYS p) + low12 v)).

Lemma grown_frame v q : fr !! v = Some q →
  q `mod` 4096 = 0 ∧ q ≠ p ∧ ¬ page_free s1 q ∧ T !! q = None ∧
  v `mod` 4096 = 0 ∧ HEAP_BASE ≤ v ∧ v + 4096 ≤ top.
Proof.
  intros Hq. destruct (ho_frame _ _ _ Hok _ _ Hq) as (Ha & _ & _ & _ & Hnf & HqT).
  assert (is_Some (fr !! v)) as [Hv Hr]%(ho_dom _ _ _ Hok) by (by eexists).
  destruct (ho_top _ _ _ Hok) as [_ Ht]. split_and!; try done; [| |lia|].
  - intros ->. by apply Hnf, (gp_free _ _ _ HG).
  - intros Hf. apply Hnf. by apply (gp_left _ _ _ HG) in Hf as [? _].
  - unfold top. Z.div_mod_to_equations. lia.
Qed.

Lemma grown_page : ¬ page_free s1 p ∧ T !! p = None.
Proof.
  split; [intros [_ ?]%(gp_left _ _ _ HG); done|].
  destruct (T !! p) as [rl|] eqn:E; [|done]. exfalso.
  by apply (pt_page _ _ (ho_tree _ _ _ Hok) p _ E), (gp_free _ _ _ HG).
Qed.

(** Neither the new page nor an old one becomes a table. *)
Lemma grown_data q : q `mod` 4096 = 0 → T !! q = None → ¬ page_free s1 q →
  T' !! q = None ∧ ¬ page_free s2 q ∧ same_page (mem s1) (mem s2) q.
Proof.
  intros Ha Hq Hf. split_and!; [|by intros ?%(rm_free _ _ _ _ _ _ _ HR)|by apply (rm_data _ _ _ _ _ _ _ HR)].
  destruct (T' !! q) eqn:E; [|done]. exfalso.
  by apply Hf, (rm_new _ _ _ _ _ _ _ HR q Hq); eexists.
Qed.

Lemma grown_other v : page_of v ≠ top → HEAP_BASE ≤ v < HEAP_LIMIT →
  translate s2 root v = translate s root v ∧ (plain 4 (mem s) root v → plain 4 (mem s2) root v).
Proof.
  destruct (ho_top _ _ _ Hok) as [Ht Hta]. fold top in Ht, Hta. intros Hv Hr.
  destruct (rm_other _ _ _ _ _ _ _ HR root v (ho_root _ _ _ Hok)) as [E1 E2].
  - apply pages_apart; [rewrite (page_of_id top) by done; by apply not_eq_sym|]. apply heap_base_pages; lia.
  - destruct (Htr1 v) as [F1 F2]. split; [congruence|auto].
Qed.

(** Every page of the grown heap translates to its frame. *)
Lemma grown_trans v q o : <[top := p]> fr !! v = Some q → 0 ≤ o < 4096 →
  translate s2 root (v + o) = VIRT_TO_PHYS q + o.
Proof.
  destruct (ho_top _ _ _ Hok) as [Ht Hta]. fold top in Ht, Hta.
  rewrite lookup_insert. case_decide as E; intros Hq Ho.
  - injection Hq as <-. subst v. rewrite Hnew by (rewrite !page_of_sub; Z.div_mod_to_equations; lia).
    destruct (virt_phys_aligned p) as (Hva & Hpos & Ev); [apply (gp_range _ _ _ HG)..|apply (gp_align _ _ _ HG)|].
    rewrite page_of_id by done. rewrite low12_mod. replace ((top + o) `mod` 4096) with o.
    + apply wrap_small. pose proof (gp_range _ _ _ HG). destruct hhdm_ok. lia.
    + Z.div_mod_to_equations. lia.
  - destruct (grown_frame v q Hq) as (_ & _ & _ & _ & Hva & Hvb & Hvt).
    assert (page_of (v + o) = v) as Hpg by (rewrite page_of_sub; Z.div_mod_to_equations; lia).
    rewrite (proj1 (grown_other (v + o) ltac:(lia) ltac:(lia))). by apply (ho_trans _ _ _ Hok).
Qed.

Lemma heap_grown : heap_ok (s2 <| heap_virtual_top := top + 4096 |>) T' (<[top := p]> fr).
Proof.
  set (s3 := s2 <| heap_virtual_top := top + 4096 |>).
  destruct (ho_top _ _ _ Hok) as [Ht Hta]. fold top in Ht, Hta.
  assert (kernel_pml4 s3 = root) as Ek.
  { destruct (gp_rest _ _ _ HG) as (b & m & Es1), (rm_rest _ _ _ _ _ _ _ HR) as (b' & m' & Es2).
    unfold s3. rewrite Es2, Es1. done. }
  split; rewrite ?Ek.
  - pose proof (rm_tree _ _ _ _ _ _ _ HR) as HT2.
    by apply (tables_frame s2 s3); [|exact (pt_mem _ _ HT2)|..].
  - eapply lookup_weaken; [apply (ho_root _ _ _ Hok)|apply (rm_sub _ _ _ _ _ _ _ HR)].
  - change (heap_virtual_top s3) with (top + 4096).
    unfold HEAP_LIMIT, HEAP_BASE in *. Z.div_mod_to_equations. lia.
  - intros v. change (heap_virtual_top s3) with (top + 4096). rewrite lookup_insert. case_decide as E.
    + subst v. split; [|by eexists]. intros _. lia.
    + rewrite (ho_dom _ _ _ Hok). fold top. split; [intros [? ?]; lia|].
      intros [Hv ?]. split; [done|]. Z.div_mod_to_equations. lia.
  - intros v q. rewrite lookup_insert. case_decide as E.
    + intros [= <-]. destruct grown_page as [Hf HT]. pose proof (gp_align _ _ _ HG) as Ha.
      destruct (grown_data p Ha HT Hf) as (? & ? & Hs).
      split_and!; try done; [apply (gp_range _ _ _ HG)..|]. by eapply same_page_resident, (gp_page _ _ _ HG).
    + intros Hq. destruct (grown_frame v q Hq) as (Ha & _ & Hf & HT & _).
      destruct (grown_data q Ha HT Hf) as (? & ? & Hs).
      destruct (ho_frame _ _ _ Hok _ _ Hq) as (? & ? & ? & Hres & ? & ?).
      split_and!; try done. by eapply same_page_resident, (gp_resident _ _ _ HG).
  - intros v v' q. rewrite !lookup_insert.
    destruct (decide (top = v)) as [<-|], (decide (top = v')) as [<-|]; intros Hq Hq'; [done|..].
    + destruct (grown_frame _ _ Hq') as (_ & ? & _). congruence.
    + destruct (grown_frame _ _ Hq) as (_ & ? & _). congruence.
    + by eapply (ho_inj _ _ _ Hok).
  - apply grown_trans.
  - intros v. change (heap_virtual_top s3) with (top + 4096). intros Hv.
    apply grown_other; [|lia|apply (ho_room _ _ _ Hok); fold top; lia]. pose proof (page_of_le v). lia.
Qed.

(** The new page is zero, the old ones are as they were. *)
Lemma grown_words a : a `mod` 8 = 0 → HEAP_BASE ≤ a < top + 4096 →
  hword s2 (<[top := p]> fr) a = if decide (top ≤ a) then 0 else hword s fr a.
Proof.
  intros Ha Hr. destruct (word_split a Ha) as [_ Hi]. destruct (ho_top _ _ _ Hok) as [Ht Hta].
  fold top in Ht, Hta. unfold hword. case_decide as Ea.
  - replace (page_of a) with top by (rewrite page_of_sub; Z.div_mod_to_equations; lia).
    rewrite lookup_insert_eq. rewrite <-(gp_zero _ _ _ HG _ Hi). apply same_page_word; [|done].
    destruct grown_page. apply grown_data; [apply (gp_align _ _ _ HG)|done..].
  - rewrite lookup_insert_ne by (pose proof (page_of_le a); lia).
    assert (in_heap s a) as Hin by (split; [done|fold top; lia]).
    destruct (in_heap_frame _ _ _ _ Hok Hin) as [q Hq]. rewrite Hq.
    destruct (grown_frame _ _ Hq) as (Hqa & Hqp & Hf & HT & _).
    apply same_page_word; [|done]. apply (same_page_trans _ (mem s1)); [by apply (gp_same _ _ _ HG)|].
    by apply grown_data.
Qed.
End Growth.

(** What growing leaves: the old words, zeros above them, the other globals. *)
Record grown (n : nat) (s : mst) (h : Z → Z) (s' : mst) : Prop := {
  gr_top : heap_virtual_top s' = heap_virtual_top s + 4096 * Z.of_nat n;
  gr_heap : ∃ h', heap_rep s' h' ∧ (∀ a, a < heap_virtual_top s → h' a = h a) ∧
    ∀ a, heap_virtual_top s ≤ a < heap_virtual_top s' → h' a = 0;
  gr_buckets : buckets s' = buckets s }.

Lemma extend_one s h : heap_rep s h → heap_virtual_top s + 4096 ≤ HEAP_LIMIT →
  wph out_of_memory (extend_pages 1) (λ ok s', ok = true ∧ grown 1 s h s') s.
Proof.
  intros (T & fr & Hok & Hh) Hlim. cbn [extend_pages]. pose proof (ho_tree _ _ _ Hok) as HT.
  apply wph_bind. eapply wph_mono; [apply palloc_zero_spec, (pt_mem _ _ HT)|].
  intros phys s1 (p & -> & Hnz & HG & Hm1). rewrite (proj2 (Z.eqb_neq _ _) Hnz).
  apply wph_bind, wph_gets, wph_bind, wph_gets.
  destruct (tables_frame s s1 T HT Hm1) as [HT1 Htr]; [apply (gp_resident _ _ _ HG)| | |].
  { intros q Hq. by apply (gp_left _ _ _ HG) in Hq as [? _]. }
  { intros t rl Ht. destruct (pt_page _ _ HT t rl Ht) as (? & _ & _ & _ & Hnf).
    apply (gp_same _ _ _ HG); [done|]. intros ->. by apply Hnf, (gp_free _ _ _ HG). }
  destruct (gp_rest _ _ _ HG) as (b1 & m1 & Es1).
  assert (kernel_pml4 s1 = kernel_pml4 s ∧ heap_virtual_top s1 = heap_virtual_top s ∧ buckets s1 = buckets s)
    as (-> & -> & Eb1) by (by rewrite Es1).
  set (top := heap_virtual_top s) in *. destruct (ho_top _ _ _ Hok) as [Ht Hta]. fold top in Ht, Hta.
  apply wph_bind. eapply wph_mono; [apply (map_page_post s1 T)|].
  { done. } { apply Hok. } { apply Htr; [apply Hok|]. apply (ho_room _ _ _ Hok). fold top. lia. } { by split. }
  intros [] s2 [(T' & HR) Hnew]. apply wph_bind, wph_modify, wph_ret. split; [done|].
  assert (u64 (top + PAGE_SIZE) = top + 4096) as -> by (apply wrap_small; unfold HEAP_LIMIT, HEAP_BASE, PAGE_SIZE in *; lia).
  assert (heap_ok (s2 <| heap_virtual_top := top + 4096 |>) T' (<[top := p]> fr)) as Hok'
    by (eapply (heap_grown s s1); try done; [fold top; lia|intros v; apply Htr, Hok]).
  split; [simpl; lia| |destruct (rm_rest _ _ _ _ _ _ _ HR) as (b2 & m2 & ->); exact Eb1].
  exists (λ a, if decide (top ≤ a) then 0 else h a). split_and!.
  - exists T', (<[top := p]> fr). split; [done|]. intros a [Ha Hr]. cbn in Hr.
    etransitivity; [by eapply (grown_words s s1 s2)|]. fold top.
    case_decide; [done|]. apply Hh. split; [done|fold top; lia].
  - intros a Ha. rewrite decide_False by lia. done.
  - intros a Ha. cbn in Ha. by rewrite decide_True by lia.
Qed.

Lemma extend_S n s :
  extend_pages (S n) s = (ok ← extend_pages 1; if ok : bool then extend_pages n else mret false) s.
Proof.
  cbn [extend_pages]. unfold mbind, M_bind. destruct (palloc_zero s) as [phys s1| |]; [|done..].
  destruct (phys =? 0); [done|]. unfold gets. destruct (map_page _ _ _ _ s1); done.
Qed.

Lemma grown_trans_n n m s h s1 h1 s' : grown n s h s1 → heap_rep s1 h1 →
  (∀ a, a < heap_virtual_top s → h1 a = h a) →
  (∀ a, heap_virtual_top s ≤ a < heap_virtual_top s1 → h1 a = 0) →
  grown m s1 h1 s' → grown (n + m) s h s'.
Proof.
  intros [Ht _ Hb] _ Ho Hz [Ht' (h' & Hr' & Ho' & Hz') Hb']. split; [lia| |congruence].
  exists h'. split_and!; [done| |]; intros a Ha.
  - rewrite Ho' by lia. auto.
  - destruct (decide (a < heap_virtual_top s1)); [rewrite Ho' by lia; apply Hz; lia|apply Hz'; lia].
Qed.

Lemma extend_pages_spec n s h : heap_rep s h → heap_virtual_top s + 4096 * Z.of_nat n ≤ HEAP_LIMIT →
  wph out_of_memory (extend_pages n) (λ ok s', ok = true ∧ grown n s h s') s.
Proof.
  revert s h. induction n as [|n IH]; intros s h Hr Hlim.
  - apply wph_ret. split; [done|]. split; [lia| |done]. exists h. split_and!; [done..|lia].
  - unfold wph. rewrite extend_S. apply wph_bind.
    eapply wph_mono; [apply (extend_one s h); [done|lia]|].
    intros ok s1 [-> HG]. pose proof HG as [Ht (h1 & Hr1 & Ho & Hz) Hb].
    eapply wph_mono; [apply (IH s1 h1); [done|lia]|]. intros ok s' [-> HG']. split; [done|].
    by eapply (grown_trans_n 1 n).
Qed.

(** [heap_extend] returns the old top of the heap and maps fresh zero pages
    from there. *)
Lemma heap_extend_spec n s h : heap_rep s h → 0 ≤ n → heap_virtual_top s + 4096 * n ≤ HEAP_LIMIT →
  wph out_of_memory (heap_extend n)
    (λ v s', v = heap_virtual_top s ∧ grown (Z.to_nat n) s h s') s.
Proof.
  intros Hr Hn Hlim. unfold heap_extend. apply wph_bind, wph_gets, wph_bind.
  eapply wph_mono; [apply (extend_pages_spec _ s h); [done|lia]|].
  intros ok s' [-> HG]. apply wph_ret. done.
Qed.
End Heap.
