(* ===== verification/Slab.v ===== *)
(** * The slab allocator

    Models [mm/slab.c]: eight buckets of slabs, a slab being a page with a
    header and a free list threaded through its free slots; larger requests get
    whole pages.  The invariant [slab_inv] describes the heap by its slabs and
    its large blocks; [object G p l] says that [l] bytes at [p] are handed out.
    [kmalloc_correct] and [kfree_correct] are the laws that the process code
    assumes of its heap. *)

From S2P Require Import Prelude Bytes Mem Paging Heap.

Section Slab.
Context `{!Buddy}.

(** ** The code *)

(** 4-byte fields and bytes of a word. *)
Definition vrd32 (a : Z) : M mst Z :=
  w ← vrd (a - a `mod` 8); mret (u32 (Z.shiftr w (8 * (a `mod` 8)))).
Definition set_field (n off w x : Z) : Z :=
  Z.lor (Z.ldiff w (Z.shiftl (Z.ones (8 * n)) (8 * off))) (Z.shiftl (x `mod` 2 ^ (8 * n)) (8 * off)).
Definition vwr32 (a x : Z) : M mst unit :=
  w ← vrd (a - a `mod` 8); vwr (a - a `mod` 8) (set_field 4 (a `mod` 8) w x).
Definition vrd8 (a : Z) : M mst Z :=
  w ← vrd (a - a `mod` 8); mret (u8 (Z.shiftr w (8 * (a `mod` 8)))).
Definition vwr8 (a x : Z) : M mst unit :=
  w ← vrd (a - a `mod` 8); vwr (a - a `mod` 8) (set_field 1 (a `mod` 8) w x).

(** The fields of [struct slab_header], by their offsets. *)
Definition next_slab (slab : Z) : Z := slab.
Definition free_list (slab : Z) : Z := slab + 8.
Definition slot_size (slab : Z) : Z := slab + 16.
Definition slots_free (slab : Z) : Z := slab + 20.
Definition sizeof_slab_header : Z := 32.

Definition bucket_sizes : list Z := [16; 32; 64; 128; 256; 512; 1024; 2048].

Definition init_slab : M mst unit :=
  modify (λ s, s <| heap_virtual_top := HEAP_BASE |>) ;;
  for_all 8 0 (λ i, modify (λ s, s <| buckets := <[Z.to_nat i := 0]> (buckets s) |>)).

Fixpoint bucket_from (i size : Z) (l : list Z) : Z :=
  match l with [] => -1 | b :: l => if size <=? b then i else bucket_from (i + 1) size l end.
Definition get_bucket_idx (size : Z) : Z := bucket_from 0 size bucket_sizes.

(** A round of the loop that builds the free list of the new slab [v]. *)
Definition link_slot (v first_slot i : Z) : M mst unit :=
  sz ← vrd32 (slot_size v);
  vwr (u64 (first_slot + u32 (i * sz))) (u64 (first_slot + u32 (u32 (i + 1) * sz))).

(** The part of [kmalloc] that makes a new slab: its header, its free list. *)
Definition slab_header (idx v : Z) : M mst unit :=
  vwr32 (slot_size v) (bucket_sizes !!! Z.to_nat idx) ;;
  sz ← vrd32 (slot_size v);
  vwr32 (slots_free v) ((PAGE_SIZE - sizeof_slab_header) `div` sz) ;;
  old ← gets (λ s, buckets s !!! Z.to_nat idx);
  vwr (next_slab v) old ;;
  vwr (free_list v) (u64 (v + sizeof_slab_header)).

Definition slab_slots (v : Z) : M mst unit :=
  let first_slot := u64 (v + sizeof_slab_header) in
  n ← vrd32 (slots_free v);
  for_all (Z.to_nat (u32 (n - 1))) 0 (link_slot v first_slot) ;;
  n ← vrd32 (slots_free v);
  sz ← vrd32 (slot_size v);
  vwr (u64 (first_slot + u32 (u32 (n - 1) * sz))) 0.

Definition fill_slab (idx v : Z) : M mst Z :=
  slab_header idx v ;; slab_slots v ;;
  modify (λ s, s <| buckets := <[Z.to_nat idx := v]> (buckets s) |>) ;;
  mret v.

Definition new_slab (idx : Z) : M mst Z :=
  v ← heap_extend 1;
  if v =? 0 then mret 0 else fill_slab idx v.

(** The head of a slab's free list is taken off. *)
Definition take_slot (slab : Z) : M mst Z :=
  addr ← vrd (free_list slab);
  next ← vrd addr;
  vwr (free_list slab) next ;;
  n ← vrd32 (slots_free slab);
  vwr32 (slots_free slab) (u32 (n - 1)) ;;
  mret addr.

Definition kmalloc (size : Z) : M mst Z :=
  if size =? 0 then mret 0 else
  let idx := get_bucket_idx size in
  if idx =? -1 then heap_extend (u64 (size + PAGE_SIZE - 1) `div` PAGE_SIZE) else
  slab ← gets (λ s, buckets s !!! Z.to_nat idx);
  full ← (if slab =? 0 then mret true else n ← vrd32 (slots_free slab); mret (n =? 0));
  slab ← (if full : bool then new_slab idx else mret slab);
  if slab =? 0 then mret 0 else take_slot slab.

(** [(uint64_t)ptr & ~0xFFF] *)
Definition slab_of (ptr : Z) : Z := page_of ptr.

Definition kfree (ptr : Z) : M mst unit :=
  if ptr =? 0 then mret tt else
  let slab := slab_of ptr in
  sz ← vrd32 (slot_size slab);
  if sz =? 0 then mret tt else
  old ← vrd (free_list slab);
  vwr ptr old ;;
  vwr (free_list slab) ptr ;;
  n ← vrd32 (slots_free slab);
  vwr32 (slots_free slab) (u32 (n + 1)).

Definition get_allocation_size (ptr : Z) : M mst Z :=
  if ptr =? 0 then mret 0 else
  let slab := slab_of ptr in
  sz ← vrd32 (slot_size slab);
  if (0 <? sz) && (sz <=? 2048) then mret sz else mret PAGE_SIZE.

(** [memcpy] and [memset], byte by byte. *)
Definition copy_bytes (dst src n : Z) : M mst unit :=
  for_all (Z.to_nat n) 0 (λ i, b ← vrd8 (src + i); vwr8 (dst + i) b).
Definition fill_bytes (dst x n : Z) : M mst unit :=
  for_all (Z.to_nat n) 0 (λ i, vwr8 (dst + i) x).

Definition krealloc (ptr new_size : Z) : M mst Z :=
  if ptr =? 0 then kmalloc new_size else
  if new_size =? 0 then kfree ptr ;; mret 0 else
  new_ptr ← kmalloc new_size;
  if new_ptr =? 0 then mret 0 else
  old_size ← get_allocation_size ptr;
  copy_bytes new_ptr ptr (if old_size <? new_size then old_size else new_size) ;;
  kfree ptr ;;
  mret new_ptr.

Definition kzalloc (size : Z) : M mst Z :=
  p ← kmalloc size;
  if p =? 0 then mret p else fill_bytes p 0 size ;; mret p.

(** ** Sizes and slots *)

Lemma bucket_size_ok sz : sz ∈ bucket_sizes →
  16 ≤ sz ≤ 2048 ∧ sz `mod` 16 = 0 ∧ 1 ≤ 4064 `div` sz < 255 ∧ 4064 `div` sz * sz ≤ 4064.
Proof.
  intros Hs. repeat (apply elem_of_cons in Hs as [->|Hs]; [vm_compute; intuition done|]).
  by apply elem_of_nil in Hs.
Qed.

Lemma bucket_elem k : (k < 8)%nat → bucket_sizes !!! k ∈ bucket_sizes.
Proof. intros Hk. apply list_elem_of_lookup_total_2. done. Qed.

(** The smallest size that fits, or none. *)
Lemma get_bucket_idx_eq size :
  (2048 < size ∧ get_bucket_idx size = -1) ∨
  (∃ k, (k < 8)%nat ∧ get_bucket_idx size = Z.of_nat k ∧ size ≤ bucket_sizes !!! k ∧
     ∀ i, (i < k)%nat → bucket_sizes !!! i < size).
Proof.
  unfold get_bucket_idx, bucket_sizes. cbn [bucket_from].
  repeat match goal with |- context [if size <=? ?b then _ else _] => destruct (Z.leb_spec size b) end;
    try (left; split; [lia|done]).
  all: right; match goal with |- ∃ k, _ ∧ ?i = _ ∧ _ => exists (Z.to_nat i) end.
  all: split_and!; [lia|done|done|]; intros i Hi; simpl in Hi.
  all: do 7 (destruct i as [|i]; [simpl; lia|]); lia.
Qed.

Definition nslots (sz : Z) : Z := 4064 `div` sz.
Definition slot (v sz i : Z) : Z := v + 32 + i * sz.
Definition is_slot (v sz a : Z) : Prop := ∃ i, 0 ≤ i < nslots sz ∧ a = slot v sz i.

Lemma is_slot_range v sz a : sz ∈ bucket_sizes → v `mod` 4096 = 0 → is_slot v sz a →
  v + 32 ≤ a ∧ a + sz ≤ v + 4096 ∧ a `mod` 16 = 0 ∧ page_of a = v.
Proof.
  intros (H1 & H2 & H3 & H4)%bucket_size_ok Hv (i & Hi & ->). unfold slot, nslots in *.
  assert ((i + 1) * sz ≤ 4064 `div` sz * sz) by (apply Z.mul_le_mono_nonneg_r; lia).
  split_and!; [nia|nia| |].
  - rewrite Zplus_mod, (Zmult_mod i), H2, Z.mul_0_r. rewrite Zplus_mod_idemp_r.
    Z.div_mod_to_equations. lia.
  - rewrite page_of_sub. replace (v + 32 + i * sz) with (32 + i * sz + v) by lia.
    rewrite Zplus_mod, Hv, Z.add_0_r, Zmod_mod, Z.mod_small by nia. lia.
Qed.

Lemma is_slot_apart v sz a b : sz ∈ bucket_sizes → is_slot v sz a → is_slot v sz b → a ≠ b →
  a + sz ≤ b ∨ b + sz ≤ a.
Proof.
  intros (H1 & _)%bucket_size_ok (i & _ & ->) (j & _ & ->) Hne. unfold slot in *.
  destruct (decide (i < j)); [left; nia|]. destruct (decide (j < i)); [right; nia|].
  destruct Hne. do 2 f_equal. lia.
Qed.

(** ** Headers *)

Definition header (sz n : Z) : Z := sz + n * 2 ^ 32.

Lemma header_size sz n : 0 ≤ sz < 2 ^ 32 → u32 (Z.shiftr (header sz n) 0) = sz.
Proof. intros Hs. unfold header, wrap. by rewrite Z.shiftr_0_r, Z_mod_plus_full, Z.mod_small. Qed.

Lemma header_free sz n : 0 ≤ sz < 2 ^ 32 → 0 ≤ n < 2 ^ 32 → u32 (Z.shiftr (header sz n) 32) = n.
Proof.
  intros Hs Hn. unfold header, wrap. rewrite Z.shiftr_div_pow2, Z.div_add, Z.div_small by lia.
  by apply Z.mod_small.
Qed.

Lemma set_size x : 0 ≤ x < 2 ^ 32 → set_field 4 0 0 x = header x 0.
Proof. intros Hx. unfold set_field, header. rewrite Z.ldiff_0_l, Z.lor_0_l, Z.shiftl_0_r, Z.mod_small; lia. Qed.

Lemma set_free sz n x : 0 ≤ sz < 2 ^ 32 → 0 ≤ n < 2 ^ 32 → 0 ≤ x < 2 ^ 32 →
  set_field 4 4 (header sz n) x = header sz x.
Proof.
  intros Hs Hn Hx. unfold set_field. change (8 * 4) with 32. rewrite (Z.mod_small x) by lia.
  assert (Z.ldiff (header sz n) (Z.shiftl (Z.ones 32) 32) = sz) as ->.
  { apply Z.bits_inj'. intros i Hi. rewrite Z.ldiff_spec, Z.shiftl_spec by done.
    unfold header. rewrite <-lor_shift, Z.lor_spec, Z.shiftl_spec by lia.
    destruct (Z_lt_le_dec i 32).
    - rewrite !(Z.testbit_neg_r _ (i - 32)), orb_false_r, andb_true_r by lia. done.
    - rewrite (word_high sz i) by done. rewrite Z.testbit_ones by lia.
      destruct (Z_lt_le_dec (i - 32) 32).
      + rewrite (proj2 (Z.leb_le _ _)), (proj2 (Z.ltb_lt _ _)) by lia. by rewrite andb_false_r.
      + rewrite (word_high n (i - 32)) by done. done. }
  rewrite lor_shift by lia. done.
Qed.

Context `{!BuddyOk}.

Section Fields.
Context (s : mst) (h : Z → Z) (v : Z) (Hh : heap_rep s h) (Hv : v `mod` 4096 = 0)
  (Hin : HEAP_BASE ≤ v ∧ v + 4096 ≤ heap_virtual_top s).

Lemma page_word o : 0 ≤ o < 4096 → o `mod` 8 = 0 → in_heap s (v + o).
Proof. intros Ho Ha. split; [Z.div_mod_to_equations; lia|lia]. Qed.

Lemma field_base : slot_size v - slot_size v `mod` 8 = v + 16 ∧ slot_size v `mod` 8 = 0 ∧
  slots_free v - slots_free v `mod` 8 = v + 16 ∧ slots_free v `mod` 8 = 4.
Proof. unfold slot_size, slots_free. Z.div_mod_to_equations. lia. Qed.

Lemma rd_size : vrd32 (slot_size v) s = Done (u32 (Z.shiftr (h (v + 16)) 0)) s.
Proof.
  destruct field_base as (E1 & E2 & _). unfold vrd32. rewrite E1, E2.
  rewrite (bind_done _ _ _ _ _ (vrd_eq s h _ Hh (page_word 16 ltac:(lia) eq_refl))). done.
Qed.

Lemma rd_free : vrd32 (slots_free v) s = Done (u32 (Z.shiftr (h (v + 16)) 32)) s.
Proof.
  destruct field_base as (_ & _ & E1 & E2). unfold vrd32. rewrite E1, E2.
  rewrite (bind_done _ _ _ _ _ (vrd_eq s h _ Hh (page_word 16 ltac:(lia) eq_refl))). done.
Qed.

Lemma wr_size x : ∃ m, vwr32 (slot_size v) x s = Done tt (s <| mem := m |>) ∧
  heap_rep (s <| mem := m |>) (upd h (v + 16) (set_field 4 0 (h (v + 16)) x)).
Proof.
  destruct field_base as (E1 & E2 & _). unfold vwr32. rewrite E1, E2.
  rewrite (bind_done _ _ _ _ _ (vrd_eq s h _ Hh (page_word 16 ltac:(lia) eq_refl))).
  apply vwr_eq; [done|]. by apply page_word.
Qed.

Lemma wr_free x : ∃ m, vwr32 (slots_free v) x s = Done tt (s <| mem := m |>) ∧
  heap_rep (s <| mem := m |>) (upd h (v + 16) (set_field 4 4 (h (v + 16)) x)).
Proof.
  destruct field_base as (_ & _ & E1 & E2). unfold vwr32. rewrite E1, E2.
  rewrite (bind_done _ _ _ _ _ (vrd_eq s h _ Hh (page_word 16 ltac:(lia) eq_refl))).
  apply vwr_eq; [done|]. by apply page_word.
Qed.
End Fields.

(** ** The invariant *)

(** A free list: each word points to the next, the last one is null. *)
Definition linked (h : Z → Z) (l : list Z) : Prop :=
  ∀ i a, l !! i = Some a → h a = default 0 (l !! S i).

Lemma linked_cons h a l : linked h (a :: l) ↔ h a = default 0 (l !! 0%nat) ∧ linked h l.
Proof.
  split.
  - intros Hl. split; [by apply (Hl 0%nat)|]. intros i b Hb. by apply (Hl (S i)).
  - intros [Ha Hl] [|i] b Hb; [by injection Hb as <-|by apply Hl].
Qed.

Lemma linked_ext h h' l : (∀ a, a ∈ l → h' a = h a) → linked h l → linked h' l.
Proof. intros He Hl i a Ha. rewrite He; [by apply Hl|by eapply list_elem_of_lookup_2]. Qed.

Record slab_ok (h : Z → Z) (v sz : Z) (free : list Z) : Prop := {
  so_size : sz ∈ bucket_sizes;
  so_header : h (v + 16) = header sz (Z.of_nat (length free));
  so_head : h (v + 8) = default 0 (free !! 0%nat);
  so_linked : linked h free;
  so_nodup : NoDup free;
  so_slots a : a ∈ free → is_slot v sz a }.

Lemma slab_length h v sz free : slab_ok h v sz free → Z.of_nat (length free) ≤ nslots sz.
Proof.
  intros Hok. destruct (bucket_size_ok sz (so_size _ _ _ _ Hok)) as (_ & _ & Hn & _). fold (nslots sz) in Hn.
  assert (free ⊆+ (slot v sz <$> seqZ 0 (nslots sz))) as Hsub%submseteq_length.
  { apply NoDup_submseteq; [apply (so_nodup _ _ _ _ Hok)|]. intros a Ha.
    destruct (so_slots _ _ _ _ Hok a Ha) as (i & Hi & ->). apply list_elem_of_fmap_2, elem_of_seqZ. lia. }
  rewrite length_fmap, length_seqZ in Hsub. lia.
Qed.

(** The slabs, by their pages, with slot size and free list; the large blocks
    that are handed out, with their number of pages. *)
Record layout := mkLayout { slabs : gmap Z (Z * list Z); bigs : gmap Z Z }.

(** [l] bytes at [p] are handed out. *)
Definition object (G : layout) (p l : Z) : Prop :=
  (∃ v free, slabs G !! v = Some (l, free) ∧ is_slot v l p ∧ p ∉ free) ∨
  (∃ n, bigs G !! p = Some n ∧ l = 4096 * n).

Definition apart (p l q m : Z) : Prop := p + l ≤ q ∨ q + m ≤ p.

Record slab_inv (s : mst) (h : Z → Z) (G : layout) : Prop := {
  si_heap : heap_rep s h;
  si_buckets : length (buckets s) = 8%nat;
  si_page v x : slabs G !! v = Some x →
    v `mod` 4096 = 0 ∧ HEAP_BASE ≤ v ∧ v + 4096 ≤ heap_virtual_top s;
  si_slab v sz free : slabs G !! v = Some (sz, free) → slab_ok h v sz free;
  si_bucket k b : buckets s !! k = Some b →
    b = 0 ∨ ∃ free, slabs G !! b = Some (bucket_sizes !!! k, free);
  si_big p n : bigs G !! p = Some n →
    p `mod` 4096 = 0 ∧ 0 < n ∧ HEAP_BASE ≤ p ∧ p + 4096 * n ≤ heap_virtual_top s;
  si_big_slab p n v x : bigs G !! p = Some n → slabs G !! v = Some x → apart p (4096 * n) v 4096;
  si_bigs p n q m : bigs G !! p = Some n → bigs G !! q = Some m → p ≠ q →
    apart p (4096 * n) q (4096 * m) }.

Lemma pages_disjoint v w : v `mod` 4096 = 0 → w `mod` 4096 = 0 → v ≠ w → apart v 4096 w 4096.
Proof. unfold apart. intros. Z.div_mod_to_equations. lia. Qed.

(** Where an object lies. *)
Lemma object_place s h G p l : slab_inv s h G → object G p l →
  HEAP_BASE ≤ p ∧ 0 < l ∧ p + l ≤ heap_virtual_top s ∧ p `mod` 16 = 0.
Proof.
  intros HI [(v & free & Hv & Hs & _)|(n & Hn & ->)].
  - destruct (si_page _ _ _ HI _ _ Hv) as (Ha & Hb & Ht). pose proof (si_slab _ _ _ HI _ _ _ Hv) as Hok.
    destruct (is_slot_range _ _ _ (so_size _ _ _ _ Hok) Ha Hs) as (? & ? & ? & _).
    destruct (bucket_size_ok l (so_size _ _ _ _ Hok)). lia.
  - destruct (si_big _ _ _ HI _ _ Hn) as (Ha & ? & ? & ?). split_and!; try lia.
    Z.div_mod_to_equations. lia.
Qed.

(** Objects do not overlap. *)
Lemma object_apart s h G p l q m : slab_inv s h G → object G p l → object G q m → p ≠ q → apart p l q m.
Proof.
  intros HI [(v & f & Hv & Hs & _)|(n & Hn & ->)] [(w & g & Hw & Ht & _)|(n' & Hn' & ->)] Hne.
  - pose proof (so_size _ _ _ _ (si_slab _ _ _ HI _ _ _ Hv)) as Hl.
    pose proof (so_size _ _ _ _ (si_slab _ _ _ HI _ _ _ Hw)) as Hm.
    destruct (si_page _ _ _ HI _ _ Hv) as (Hva & _), (si_page _ _ _ HI _ _ Hw) as (Hwa & _).
    destruct (is_slot_range _ _ _ Hl Hva Hs) as (? & ? & _), (is_slot_range _ _ _ Hm Hwa Ht) as (? & ? & _).
    destruct (decide (v = w)) as [->|Hvw].
    + rewrite Hv in Hw. injection Hw as -> ->. by eapply is_slot_apart.
    + destruct (pages_disjoint v w Hva Hwa Hvw); [left|right]; lia.
  - pose proof (so_size _ _ _ _ (si_slab _ _ _ HI _ _ _ Hv)) as Hl.
    destruct (si_page _ _ _ HI _ _ Hv) as (Hva & _). destruct (is_slot_range _ _ _ Hl Hva Hs) as (? & ? & _).
    destruct (si_big_slab _ _ _ HI _ _ _ _ Hn' Hv); [right|left]; lia.
  - pose proof (so_size _ _ _ _ (si_slab _ _ _ HI _ _ _ Hw)) as Hm.
    destruct (si_page _ _ _ HI _ _ Hw) as (Hwa & _). destruct (is_slot_range _ _ _ Hm Hwa Ht) as (? & ? & _).
    destruct (si_big_slab _ _ _ HI _ _ _ _ Hn Hw); [left|right]; lia.
  - by apply (si_bigs _ _ _ HI).
Qed.

(** ** Changing one slab *)

Lemma slab_ok_ext h h' v sz free : v `mod` 4096 = 0 → (∀ a, v ≤ a < v + 4096 → h' a = h a) →
  slab_ok h v sz free → slab_ok h' v sz free.
Proof.
  intros Hv He [Hs Hh Hd Hl Hn Hf]. split; [done|by rewrite He by lia|by rewrite He by lia| |done|done].
  eapply linked_ext; [|done]. intros a Ha. apply He.
  destruct (bucket_size_ok sz Hs). destruct (is_slot_range v sz a Hs Hv (Hf a Ha)). lia.
Qed.

Definition set_slab (G : layout) (v sz : Z) (free : list Z) : layout :=
  mkLayout (<[v := (sz, free)]> (slabs G)) (bigs G).

Lemma inv_set_slab s h G v sz free free' m h' : slab_inv s h G →
  slabs G !! v = Some (sz, free) → heap_rep (s <| mem := m |>) h' →
  (∀ a, ¬ (v ≤ a < v + 4096) → h' a = h a) → slab_ok h' v sz free' →
  slab_inv (s <| mem := m |>) h' (set_slab G v sz free').
Proof.
  intros HI Hv Hh He Hok. pose proof HI as [_ Ib Ip Is Ik Ig Igs Igg].
  split; try done; cbn [slabs bigs set_slab].
  - intros w x. rewrite lookup_insert. case_decide; [|apply Ip]. subst. intros _. by eapply Ip.
  - intros w sz' g. rewrite lookup_insert. case_decide; [by intros [= <- <-]; subst|].
    intros Hw. destruct (Ip _ _ Hw) as (Hwa & _), (Ip _ _ Hv) as (Hva & _).
    eapply slab_ok_ext; [done| |by apply Is]. intros a Ha. apply He.
    destruct (pages_disjoint v w); [done..|lia|lia].
  - intros k b Hk. destruct (Ik k b Hk) as [->|[g Hg]]; [by left|right].
    destruct (decide (v = b)) as [<-|].
    + rewrite Hv in Hg. injection Hg as <- <-. exists free'. apply lookup_insert_eq.
    + exists g. by rewrite lookup_insert_ne.
  - intros p n w x Hp. rewrite lookup_insert. case_decide; [|by apply Igs].
    subst. intros _. by eapply Igs.
Qed.

Section Change.
Context (s : mst) (h : Z → Z) (G : layout) (HI : slab_inv s h G).

(** A slot lies in one slab and in no large block. *)
Lemma slot_alone v sz free a : slabs G !! v = Some (sz, free) → is_slot v sz a →
  (∀ w l g, slabs G !! w = Some (l, g) → is_slot w l a → w = v) ∧ bigs G !! a = None.
Proof.
  intros Hv Ha. destruct (si_page _ _ _ HI _ _ Hv) as (Hva & _).
  destruct (is_slot_range v sz a (so_size _ _ _ _ (si_slab _ _ _ HI _ _ _ Hv)) Hva Ha) as (H1 & H2 & _ & <-).
  split.
  - intros w l g Hw Hq. destruct (si_page _ _ _ HI _ _ Hw) as (Hwa & _).
    by destruct (is_slot_range w l a (so_size _ _ _ _ (si_slab _ _ _ HI _ _ _ Hw)) Hwa Hq) as (_ & _ & _ & <-).
  - destruct (bigs G !! a) as [n|] eqn:E; [|done]. destruct (si_big _ _ _ HI _ _ E) as (? & ? & _).
    destruct (bucket_size_ok sz (so_size _ _ _ _ (si_slab _ _ _ HI _ _ _ Hv))).
    destruct (si_big_slab _ _ _ HI _ _ _ _ E Hv); lia.
Qed.

Lemma object_take v sz a rest q l : slabs G !! v = Some (sz, a :: rest) →
  object (set_slab G v sz rest) q l ↔ (q = a ∧ l = sz) ∨ object G q l.
Proof.
  intros Hv. pose proof (si_slab _ _ _ HI _ _ _ Hv) as [_ _ _ _ [Hna Hnd]%list.NoDup_cons Hsl].
  unfold object. cbn [slabs bigs set_slab]. split.
  - intros [(w & f & Hw & Hs & Hf)|?]; [|by right; right]. rewrite lookup_insert in Hw.
    case_decide; [|right; left; by exists w, f]. simplify_eq.
    destruct (decide (q = a)) as [->|]; [by left|right; left].
    exists w, (a :: f). split_and!; [done|done|]. by rewrite not_elem_of_cons.
  - intros [[-> ->]|[(w & f & Hw & Hs & Hf)|?]]; [|left|by right].
    + left. exists v, rest. rewrite lookup_insert_eq. split_and!; [done| |done]. apply Hsl. by left.
    + destruct (decide (v = w)) as [<-|]; [|exists w, f; by rewrite lookup_insert_ne].
      simplify_eq. exists v, rest. rewrite lookup_insert_eq. by apply not_elem_of_cons in Hf as [_ ?].
Qed.

Lemma object_put v sz a free q l : slabs G !! v = Some (sz, free) → is_slot v sz a →
  object (set_slab G v sz (a :: free)) q l ↔ object G q l ∧ q ≠ a.
Proof.
  intros Hv Ha. destruct (slot_alone v sz free a Hv Ha) as [Hw1 Hb1].
  unfold object. cbn [slabs bigs set_slab]. split.
  - intros [(w & f & Hw & Hs & Hf)|(n & Hn & ->)].
    + rewrite lookup_insert in Hw. case_decide.
      * simplify_eq. apply not_elem_of_cons in Hf as [? ?]. split; [left; by exists w, free|done].
      * split; [left; by exists w, f|]. intros ->. by destruct (Hw1 w l f Hw Hs).
    + split; [right; by exists n|]. intros ->. congruence.
  - intros [[(w & f & Hw & Hs & Hf)|?] Hq]; [left|by right].
    destruct (decide (v = w)) as [<-|]; [|exists w, f; by rewrite lookup_insert_ne].
    rewrite Hv in Hw. injection Hw as -> ->. exists v, (a :: f). rewrite lookup_insert_eq, not_elem_of_cons. done.
Qed.

(** No word of an object is in a header or in a free slot. *)
Lemma object_words v sz free q l b : slabs G !! v = Some (sz, free) → object G q l → q ≤ b < q + l →
  ¬ (v ≤ b < v + 32) ∧ ∀ a, a ∈ free → b ≠ a.
Proof.
  intros Hv Hq Hb. pose proof (si_slab _ _ _ HI _ _ _ Hv) as Hok.
  destruct (si_page _ _ _ HI _ _ Hv) as (Hva & _). pose proof (so_size _ _ _ _ Hok) as Hsz.
  destruct (bucket_size_ok sz Hsz) as (Hz & _).
  assert (∀ a, a ∈ free → v + 32 ≤ a < v + 4096) as Hfr.
  { intros a Ha. destruct (is_slot_range v sz a Hsz Hva (so_slots _ _ _ _ Hok a Ha)). lia. }
  destruct Hq as [(w & g & Hw & Hs & Hg)|(n & Hn & ->)].
  - destruct (si_page _ _ _ HI _ _ Hw) as (Hwa & _).
    pose proof (so_size _ _ _ _ (si_slab _ _ _ HI _ _ _ Hw)) as Hl.
    destruct (is_slot_range w l q Hl Hwa Hs) as (? & ? & _).
    destruct (decide (v = w)) as [<-|Hvw].
    + rewrite Hv in Hw. injection Hw as -> ->. split; [lia|]. intros a Ha ->.
      destruct (is_slot_apart v l q a Hl Hs (so_slots _ _ _ _ Hok a Ha)); [by intros ->|lia|lia].
    + destruct (pages_disjoint v w Hva Hwa Hvw); (split; [lia|]; intros a Ha ->; specialize (Hfr a Ha); lia).
  - destruct (si_big_slab _ _ _ HI _ _ _ _ Hn Hv); (split; [lia|]; intros a Ha ->; specialize (Hfr a Ha); lia).
Qed.
End Change.

(** The objects of [G], except the one at [p], have their contents. *)
Definition kept (G : layout) (p : Z) (h h' : Z → Z) : Prop :=
  ∀ q l b, object G q l → q ≠ p → q ≤ b < q + l → h' b = h b.

Lemma u32_small x : 0 ≤ x < 2 ^ 32 → u32 x = x.
Proof. apply wrap_small. Qed.

(** ** Taking a slot *)

Lemma take_slot_eq s h G v sz a rest : slab_inv s h G → slabs G !! v = Some (sz, a :: rest) →
  ∃ m h', take_slot v s = Done a (s <| mem := m |>) ∧
    slab_inv (s <| mem := m |>) h' (set_slab G v sz rest) ∧ kept G 0 h h'.
Proof.
  intros HI Hv. pose proof (si_heap _ _ _ HI) as Hh. pose proof (si_slab _ _ _ HI _ _ _ Hv) as Hok.
  destruct (si_page _ _ _ HI _ _ Hv) as (Hva & Hin). pose proof Hok as [Hsz Hhd Hfl Hl Hnd Hsl].
  destruct (is_slot_range v sz a Hsz Hva) as (Ha1 & Ha2 & Ha3 & _); [by apply Hsl; left|].
  destruct (bucket_size_ok sz Hsz) as (Hz & _ & Hn & _).
  apply linked_cons in Hl as [Hnext Hl]. apply list.NoDup_cons in Hnd as [Hna Hnd].
  assert (in_heap s a) as Hina by (split; [Z.div_mod_to_equations; lia|lia]).
  pose proof (slab_length _ _ _ _ Hok) as Hlen. fold (nslots sz) in Hn.
  unfold take_slot, free_list. cbn [lookup list_lookup default length] in *.
  rewrite (bind_done _ _ _ _ _ (vrd_eq s h _ Hh (page_word s v Hva Hin 8 ltac:(lia) eq_refl))), Hfl.
  rewrite (bind_done _ _ _ _ _ (vrd_eq s h _ Hh Hina)), Hnext.
  destruct (vwr_eq s h (v + 8) (default 0 (rest !! 0%nat)) Hh) as (m1 & E1 & Hh1); [by apply page_word|].
  rewrite (bind_done _ _ _ _ _ E1). set (s1 := s <| mem := m1 |>) in *. set (h1 := upd h _ _) in Hh1.
  assert (h1 (v + 16) = header sz (Z.of_nat (S (length rest)))) as Hhd1 by (unfold h1; by rewrite word_upd_ne by lia).
  rewrite (bind_done _ _ _ _ _ (rd_free s1 h1 v Hh1 Hva Hin)), Hhd1, header_free by lia.
  rewrite u32_small by lia.
  destruct (wr_free s1 h1 v Hh1 Hva Hin (Z.of_nat (S (length rest)) - 1)) as (m2 & E2 & Hh2).
  rewrite (bind_done _ _ _ _ _ E2). rewrite Hhd1, set_free in Hh2 by lia.
  set (h2 := upd h1 _ _) in Hh2.
  assert (∀ b, b ≠ v + 8 → b ≠ v + 16 → h2 b = h b) as He by (intros; unfold h2, h1; by rewrite !word_upd_ne).
  exists m2, h2. split_and!; [done| |].
  - eapply (inv_set_slab s h); [done|done|exact Hh2| |].
    + intros b Hb. apply He; lia.
    + split; [done| |..].
      * unfold h2. rewrite word_upd_eq. f_equal. lia.
      * unfold h2, h1. rewrite word_upd_ne by lia. apply word_upd_eq.
      * eapply linked_ext; [|exact Hl]. intros b Hb.
        destruct (is_slot_range v sz b Hsz Hva) as (? & _); [apply Hsl; by right|]. apply He; lia.
      * done.
      * intros b Hb. apply Hsl. by right.
  - intros q l b Hq _ Hb. destruct (object_words s h G HI v sz _ q l b Hv Hq Hb) as [Hb' _]. apply He; lia.
Qed.

(** ** Freeing *)

(** Putting a slot back at the head of its free list. *)
Definition put_slot (slab ptr : Z) : M mst unit :=
  old ← vrd (free_list slab);
  vwr ptr old ;;
  vwr (free_list slab) ptr ;;
  n ← vrd32 (slots_free slab);
  vwr32 (slots_free slab) (u32 (n + 1)).

(** Its effect on the words of the heap. *)
Definition put_words (h : Z → Z) (v p : Z) : Z → Z :=
  let h2 := upd (upd h p (h (v + 8))) (v + 8) p in
  upd h2 (v + 16) (set_field 4 4 (h2 (v + 16)) (u32 (u32 (Z.shiftr (h2 (v + 16)) 32) + 1))).

Lemma put_slot_eq s h v p : heap_rep s h → v `mod` 4096 = 0 → HEAP_BASE ≤ v ∧ v + 4096 ≤ heap_virtual_top s →
  in_heap s p → ∃ m, put_slot v p s = Done tt (s <| mem := m |>) ∧ heap_rep (s <| mem := m |>) (put_words h v p).
Proof.
  intros Hh Hva Hin Hp. unfold put_slot, free_list.
  rewrite (bind_done _ _ _ _ _ (vrd_eq s h _ Hh (page_word s v Hva Hin 8 ltac:(lia) eq_refl))).
  destruct (vwr_eq s h p (h (v + 8)) Hh Hp) as (m1 & E1 & Hh1). rewrite (bind_done _ _ _ _ _ E1).
  set (s1 := s <| mem := m1 |>) in *. set (h1 := upd h _ _) in Hh1.
  destruct (vwr_eq s1 h1 (v + 8) p Hh1) as (m2 & E2 & Hh2); [by apply page_word|].
  rewrite (bind_done _ _ _ _ _ E2). set (s2 := s1 <| mem := m2 |>) in *. set (h2 := upd h1 _ _) in Hh2.
  rewrite (bind_done _ _ _ _ _ (rd_free s2 h2 v Hh2 Hva Hin)).
  apply (wr_free s2 h2 v Hh2 Hva Hin).
Qed.

Lemma kfree_slot s h G v sz free p : slab_inv s h G → slabs G !! v = Some (sz, free) → is_slot v sz p →
  p ∉ free → ∃ m h', kfree p s = Done tt (s <| mem := m |>) ∧
    slab_inv (s <| mem := m |>) h' (set_slab G v sz (p :: free)) ∧ kept G p h h'.
Proof.
  intros HI Hv Hp Hpf. pose proof (si_heap _ _ _ HI) as Hh. pose proof (si_slab _ _ _ HI _ _ _ Hv) as Hok.
  destruct (si_page _ _ _ HI _ _ Hv) as (Hva & Hin). pose proof Hok as [Hsz Hhd Hfl Hl Hnd Hsl].
  destruct (is_slot_range v sz p Hsz Hva Hp) as (Ha1 & Ha2 & Ha3 & Ha4).
  destruct (bucket_size_ok sz Hsz) as (Hz & _ & Hn & _). fold (nslots sz) in Hn.
  pose proof (slab_length _ _ _ _ Hok) as Hlen.
  assert (in_heap s p) as Hina by (split; [Z.div_mod_to_equations; lia|lia]).
  unfold kfree, slab_of. rewrite Ha4, (proj2 (Z.eqb_neq p 0)) by (unfold HEAP_BASE in *; lia).
  rewrite (bind_done _ _ _ _ _ (rd_size s h v Hh Hva Hin)), Hhd, header_size by lia.
  rewrite (proj2 (Z.eqb_neq sz 0)) by lia. fold (put_slot v p).
  destruct (put_slot_eq s h v p Hh Hva Hin Hina) as (m & E & Hh'). exists m, (put_words h v p).
  assert (put_words h v p (v + 16) = header sz (Z.of_nat (length (p :: free)))) as E16.
  { unfold put_words. cbv zeta. rewrite word_upd_eq, !word_upd_ne, Hhd by lia. rewrite header_free by lia.
    rewrite !u32_small by lia. rewrite set_free by lia. f_equal. simpl. lia. }
  assert (put_words h v p (v + 8) = p) as E8 by (unfold put_words; cbv zeta; rewrite word_upd_ne by lia; apply word_upd_eq).
  assert (put_words h v p p = h (v + 8)) as Ep by (unfold put_words; cbv zeta; rewrite !(word_upd_ne _ (v + _)) by lia; apply word_upd_eq).
  assert (∀ b, b ≠ p → b ≠ v + 8 → b ≠ v + 16 → put_words h v p b = h b) as He
    by (intros; unfold put_words; cbv zeta; by rewrite !word_upd_ne).
  split_and!; [done| |].
  - eapply (inv_set_slab s h); [done|done|exact Hh'| |].
    + intros b Hb. apply He; lia.
    + split; [done|done|done| |by apply list.NoDup_cons|].
      * apply linked_cons. split; [congruence|]. eapply linked_ext; [|exact Hl]. intros b Hb.
        destruct (is_slot_range v sz b Hsz Hva (Hsl b Hb)) as (? & _). apply He; [congruence|lia|lia].
      * intros b [->|Hb]%elem_of_cons; auto.
  - intros q l b Hq Hqp Hb. destruct (object_words s h G HI v sz _ q l b Hv Hq Hb) as [Hb' _].
    apply He; [|lia|lia]. intros ->.
    assert (object G p sz) as Hop by (left; by exists v, free).
    destruct (object_apart s h G q l p sz HI Hq Hop Hqp); lia.
Qed.

Definition drop_big (G : layout) (p : Z) : layout := mkLayout (slabs G) (delete p (bigs G)).

Lemma inv_drop_big s h G p n m h' : slab_inv s h G → bigs G !! p = Some n →
  heap_rep (s <| mem := m |>) h' → (∀ a, ¬ (p ≤ a < p + 4096 * n) → h' a = h a) →
  slab_inv (s <| mem := m |>) h' (drop_big G p) ∧ kept G p h h'.
Proof.
  intros HI Hp Hh He. pose proof HI as [_ Ib Ip Is Ik Ig Igs Igg]. split.
  - split; try done; cbn [slabs bigs drop_big].
    + intros v sz free Hv. destruct (Ip _ _ Hv) as (Hva & _). eapply slab_ok_ext; [done| |by apply Is].
      intros a Ha. apply He. destruct (Igs _ _ _ _ Hp Hv); lia.
    + intros q k [_ Hq]%lookup_delete_Some. by apply Ig.
    + intros q k v x [_ Hq]%lookup_delete_Some. by apply Igs.
    + intros q k r k' [_ Hq]%lookup_delete_Some [_ Hr]%lookup_delete_Some. by apply Igg.
  - intros q l b Hq Hqp Hb. apply He.
    assert (object G p (4096 * n)) as Hop by (right; by exists n).
    destruct (object_apart s h G q l p (4096 * n) HI Hq Hop Hqp); lia.
Qed.

Lemma kfree_big s h G p n : slab_inv s h G → bigs G !! p = Some n →
  ∃ m h', kfree p s = Done tt (s <| mem := m |>) ∧
    slab_inv (s <| mem := m |>) h' (drop_big G p) ∧ kept G p h h'.
Proof.
  intros HI Hp. pose proof (si_heap _ _ _ HI) as Hh. destruct (si_big _ _ _ HI _ _ Hp) as (Hpa & Hn & Hin1 & Hin2).
  assert (HEAP_BASE ≤ p ∧ p + 4096 ≤ heap_virtual_top s) as Hin by lia.
  unfold kfree, slab_of. rewrite page_of_id, (proj2 (Z.eqb_neq p 0)) by (unfold HEAP_BASE in *; lia).
  rewrite (bind_done _ _ _ _ _ (rd_size s h p Hh Hpa Hin)).
  destruct (_ =? 0).
  - exists (mem s), h. split; [by destruct s|]. eapply inv_drop_big; [done|done|by destruct s|done].
  - fold (put_slot p p). destruct (put_slot_eq s h p p Hh Hpa Hin) as (m & E & Hh').
    { replace p with (p + 0) by lia. by apply page_word. }
    exists m, (put_words h p p). split; [done|]. eapply inv_drop_big; [done|done|done|].
    intros a Ha. unfold put_words. cbv zeta. by rewrite !word_upd_ne by lia.
Qed.

Lemma kfree_ok s h G p l : slab_inv s h G → object G p l →
  ∃ m h' G', kfree p s = Done tt (s <| mem := m |>) ∧ slab_inv (s <| mem := m |>) h' G' ∧
    (∀ q k, object G' q k ↔ object G q k ∧ q ≠ p) ∧ kept G p h h'.
Proof.
  intros HI [(v & free & Hv & Hs & Hf)|(n & Hn & ->)].
  - destruct (kfree_slot s h G v l free p HI Hv Hs Hf) as (m & h' & E & HI' & Hk).
    exists m, h', (set_slab G v l (p :: free)). split_and!; [done..| |done].
    intros q k. by eapply object_put.
  - destruct (kfree_big s h G p n HI Hn) as (m & h' & E & HI' & Hk).
    exists m, h', (drop_big G p). split_and!; [done..| |done].
    intros q k. unfold object. cbn [slabs bigs drop_big]. setoid_rewrite lookup_delete_Some.
    split; [|intros [[?|(n' & ? & ?)] ?]; [by left|right; naive_solver]].
    intros [(v & free & Hv & Hs & Hf)|(n' & [? Hn'] & ->)]; [|split; [right; by exists n'|done]].
    split; [left; by exists v, free|]. intros ->.
    by rewrite (proj2 (slot_alone s h G HI v k free p Hv Hs)) in Hn.
Qed.

(** ** Use by clients *)

(** A store into an object. *)
Lemma object_write s h G p l a x : slab_inv s h G → object G p l → a `mod` 8 = 0 → p ≤ a < p + l →
  ∃ m, vwr a x s = Done tt (s <| mem := m |>) ∧ slab_inv (s <| mem := m |>) (upd h a x) G.
Proof.
  intros HI Hp Ha Hr. destruct (object_place _ _ _ _ _ HI Hp) as (? & ? & ? & _).
  destruct (vwr_eq s h a x (si_heap _ _ _ HI)) as (m & E & Hh); [split; [done|lia]|].
  exists m. split; [done|]. pose proof HI as [_ Ib Ip Is Ik Ig Igs Igg]. split; try done.
  intros v sz free Hv. pose proof (Is _ _ _ Hv) as [Hsz Hhd Hfl Hl Hnd Hsl].
  destruct (object_words s h G HI v sz free p l a Hv Hp Hr) as [Hh1 Hf1].
  split; [done|by rewrite word_upd_ne by lia|by rewrite word_upd_ne by lia| |done|done].
  eapply linked_ext; [|done]. intros b Hb. apply word_upd_ne. by apply not_eq_sym, Hf1.
Qed.

(** ** A new slab *)

Lemma inv_grown n s h G s' h' : slab_inv s h G → heap_rep s' h' →
  heap_virtual_top s' = heap_virtual_top s + 4096 * Z.of_nat n → buckets s' = buckets s →
  (∀ a, a < heap_virtual_top s → h' a = h a) → slab_inv s' h' G.
Proof.
  intros [_ Ib Ip Is Ik Ig Igs Igg] Hh Ht Hb He. split; rewrite ?Hb, ?Ht; try done.
  - intros v x Hv. destruct (Ip v x Hv) as (? & ? & ?). split_and!; [done|done|lia].
  - intros v sz free Hv. destruct (Ip _ _ Hv) as (Hva & ? & ?). eapply slab_ok_ext; [done| |by apply Is].
    intros a Ha. apply He. lia.
  - intros p k Hp. destruct (Ig p k Hp) as (? & ? & ? & ?). split_and!; [done..|lia].
Qed.

Lemma heap_top_limit s h : heap_rep s h → heap_virtual_top s ≤ HEAP_LIMIT.
Proof. intros (T & fr & Hok & _). apply (ho_top _ _ _ Hok). Qed.

Section NewSlab.
Context (v sz : Z) (Hva : v `mod` 4096 = 0) (Hsz : sz ∈ bucket_sizes).
Let n : Z := nslots sz.

Lemma slot_in s h i : heap_rep s h → HEAP_BASE ≤ v ∧ v + 4096 ≤ heap_virtual_top s → 0 ≤ i < n →
  in_heap s (slot v sz i) ∧ 0 ≤ i * sz < 4096 ∧ v + 32 ≤ slot v sz i ∧ slot v sz i + sz ≤ v + 4096 ∧
  slot v sz i + sz < 2 ^ 64.
Proof.
  intros Hh Hin Hi. pose proof (heap_top_limit s h Hh) as Ht. unfold HEAP_LIMIT in Ht.
  destruct (is_slot_range v sz (slot v sz i) Hsz Hva) as (H1 & H2 & H3 & _); [by exists i|].
  destruct (bucket_size_ok sz Hsz) as [Hz _]. unfold slot in *.
  split_and!; try lia. split; [|lia]. revert H3. generalize (v + 32 + i * sz).
  intros a Ha. Z.div_mod_to_equations. lia.
Qed.

Lemma link_slot_eq s h i : heap_rep s h → HEAP_BASE ≤ v ∧ v + 4096 ≤ heap_virtual_top s → 0 ≤ i < n →
  h (v + 16) = header sz n →
  ∃ m, link_slot v (v + 32) i s = Done tt (s <| mem := m |>) ∧
    heap_rep (s <| mem := m |>) (upd h (slot v sz i) (slot v sz (i + 1))).
Proof.
  intros Hh Hin Hi Hhd. destruct (slot_in s h i Hh Hin Hi) as (Hs & Hsm & Hs1 & Hs2 & Hs3).
  destruct (bucket_size_ok sz Hsz) as (Hz & _ & Hn & _). fold (nslots sz) in Hn. fold n in Hn.
  unfold link_slot. rewrite (bind_done _ _ _ _ _ (rd_size s h v Hh Hva Hin)), Hhd, header_size by lia.
  assert ((i + 1) * sz = i * sz + sz) as Ei by lia.
  rewrite (u32_small (i + 1)), !u32_small, Ei by lia.
  unfold HEAP_BASE in Hin. unfold slot in *.
  rewrite !(wrap_small 64) by lia.
  replace (v + 32 + (i * sz + sz)) with (v + 32 + (i + 1) * sz) by lia. by apply vwr_eq.
Qed.

Lemma link_slots s h : heap_rep s h → HEAP_BASE ≤ v ∧ v + 4096 ≤ heap_virtual_top s →
  h (v + 16) = header sz n →
  ∃ m h', for_all (Z.to_nat (n - 1)) 0 (link_slot v (v + 32)) s = Done tt (s <| mem := m |>) ∧
    heap_rep (s <| mem := m |>) h' ∧ (∀ a, a < v + 32 ∨ v + 4096 ≤ a → h' a = h a) ∧
    ∀ i, 0 ≤ i < n - 1 → h' (slot v sz i) = slot v sz (i + 1).
Proof.
  intros Hh Hin Hhd. destruct (bucket_size_ok sz Hsz) as (Hz & _ & Hn & _).
  fold (nslots sz) in Hn. fold n in Hn.
  pose proof (wp_for_all (Z.to_nat (n - 1)) 0 (link_slot v (v + 32)) (λ k s', ∃ m h', s' = s <| mem := m |> ∧
    heap_rep s' h' ∧ (∀ a, a < v + 32 ∨ v + 4096 ≤ a → h' a = h a) ∧
    ∀ i, 0 ≤ i < k → h' (slot v sz i) = slot v sz (i + 1)) s) as Hw.
  apply wp_run in Hw as ([] & s' & E & m & h' & -> & Hh' & Hold & Hnew).
  - exists m, h'. split_and!; try done. intros i Hi. apply Hnew. lia.
  - intros k s' Hk (m & h' & -> & Hh' & Hold & Hnew). set (s' := s <| mem := m |>) in *.
    assert (0 ≤ k < n) as Hk' by lia.
    destruct (link_slot_eq s' h' k Hh' Hin Hk') as (m' & E & Hh2); [rewrite Hold by lia; done|].
    eapply wp_of_eq; [exact E|]. exists m', (upd h' (slot v sz k) (slot v sz (k + 1))).
    destruct (slot_in s h k Hh Hin Hk') as (_ & _ & Hs1 & Hs2 & _).
    split_and!; [done|done| |].
    + intros a Ha. rewrite word_upd_ne by lia. by apply Hold.
    + intros i Hi. unfold upd. case_decide as Es; [|apply Hnew; unfold slot in *; nia].
      unfold slot in *. nia.
  - exists (mem s), h. split_and!; [by destruct s|done..|lia].
Qed.

Definition all_slots : list Z := slot v sz <$> seqZ 0 n.

Lemma all_slots_lookup i : all_slots !! i = if decide (Z.of_nat i < n) then Some (slot v sz (Z.of_nat i)) else None.
Proof.
  unfold all_slots. rewrite list_lookup_fmap. case_decide.
  - by rewrite lookup_seqZ_lt by lia.
  - by rewrite lookup_seqZ_ge by lia.
Qed.

(** The words of a slab all of whose slots are free. *)
Lemma slab_ok_new h : h (v + 16) = header sz n → h (v + 8) = v + 32 →
  (∀ i, 0 ≤ i < n - 1 → h (slot v sz i) = slot v sz (i + 1)) → h (slot v sz (n - 1)) = 0 →
  slab_ok h v sz all_slots.
Proof.
  intros H1 H2 H3 H4. destruct (bucket_size_ok sz Hsz) as (Hz & _ & Hn & _). fold (nslots sz) in Hn. fold n in Hn.
  split; [done| | | | |].
  - rewrite H1. unfold all_slots. rewrite length_fmap, length_seqZ. f_equal. lia.
  - rewrite H2, all_slots_lookup, decide_True by lia. unfold slot. simpl. lia.
  - intros i a. rewrite !all_slots_lookup. case_decide; [intros [= <-]|done]. case_decide; simpl.
    + rewrite H3 by lia. f_equal. lia.
    + replace (Z.of_nat i) with (n - 1) by lia. done.
  - apply NoDup_fmap_2_strong; [|apply NoDup_seqZ]. unfold slot. intros x y _ _ E.
    apply (Z.mul_reg_r _ _ sz); lia.
  - intros a (i & -> & Hi%elem_of_seqZ)%list_elem_of_fmap. exists i. split; [lia|done].
Qed.

Lemma slab_header_eq s h k : sz = bucket_sizes !!! k → heap_rep s h →
  HEAP_BASE ≤ v ∧ v + 4096 ≤ heap_virtual_top s → h (v + 16) = 0 →
  ∃ m h', slab_header (Z.of_nat k) v s = Done tt (s <| mem := m |>) ∧
    heap_rep (s <| mem := m |>) h' ∧ h' (v + 16) = header sz n ∧ h' (v + 8) = v + 32 ∧
    ∀ a, a < v ∨ v + 4096 ≤ a → h' a = h a.
Proof.
  intros Esz Hh Hin H16. destruct (bucket_size_ok sz Hsz) as (Hz & _ & Hn & _).
  unfold slab_header. rewrite Nat2Z.id, <-Esz.
  destruct (wr_size s h v Hh Hva Hin sz) as (m1 & E1 & Hh1). rewrite (bind_done _ _ _ _ _ E1).
  rewrite H16, set_size in Hh1 by lia. set (h1 := upd h _ _) in Hh1. set (s1 := s <| mem := m1 |>) in *.
  assert (h1 (v + 16) = header sz 0) as Hd1 by apply word_upd_eq.
  rewrite (bind_done _ _ _ _ _ (rd_size s1 h1 v Hh1 Hva Hin)), Hd1, header_size by lia.
  change ((PAGE_SIZE - sizeof_slab_header) `div` sz) with (nslots sz). fold (nslots sz) in Hn. fold n in Hn |- *.
  destruct (wr_free s1 h1 v Hh1 Hva Hin n) as (m2 & E2 & Hh2). rewrite (bind_done _ _ _ _ _ E2).
  rewrite Hd1, set_free in Hh2 by lia. set (h2 := upd h1 _ _) in Hh2. set (s2 := s1 <| mem := m2 |>) in *.
  rewrite (bind_done (gets _) _ _ _ _ eq_refl).
  destruct (vwr_eq s2 h2 v (buckets s2 !!! k) Hh2) as (m3 & E3 & Hh3).
  { replace v with (v + 0) by lia. by apply page_word. }
  unfold next_slab. rewrite (bind_done _ _ _ _ _ E3).
  set (h3 := upd h2 _ _) in Hh3. set (s3 := s2 <| mem := m3 |>) in *.
  destruct (vwr_eq s3 h3 (v + 8) (v + 32) Hh3) as (m4 & E4 & Hh4); [by apply page_word|].
  pose proof (heap_top_limit s h Hh) as Ht. unfold HEAP_LIMIT, HEAP_BASE in *.
  unfold sizeof_slab_header, free_list. rewrite wrap_small by lia. rewrite E4.
  exists m4, (upd h3 (v + 8) (v + 32)). split_and!; [done|done| |apply word_upd_eq|].
  - rewrite word_upd_ne by lia. unfold h3. rewrite word_upd_ne by lia. apply word_upd_eq.
  - intros a Ha. unfold h3, h2, h1. by rewrite !word_upd_ne by lia.
Qed.

Lemma slab_slots_eq s h : heap_rep s h → HEAP_BASE ≤ v ∧ v + 4096 ≤ heap_virtual_top s →
  h (v + 16) = header sz n → h (v + 8) = v + 32 →
  ∃ m h', slab_slots v s = Done tt (s <| mem := m |>) ∧
    heap_rep (s <| mem := m |>) h' ∧ slab_ok h' v sz all_slots ∧
    ∀ a, a < v ∨ v + 4096 ≤ a → h' a = h a.
Proof.
  intros Hh Hin H16 H8. destruct (bucket_size_ok sz Hsz) as (Hz & _ & Hn & _). fold (nslots sz) in Hn. fold n in Hn.
  assert (0 ≤ n - 1 < n) as Hlast by lia.
  destruct (slot_in s h (n - 1) Hh Hin Hlast) as (Hsl & Hsm & Hs1 & Hs2 & Hs3).
  pose proof (heap_top_limit s h Hh) as Ht. unfold HEAP_LIMIT, HEAP_BASE in *.
  unfold slab_slots. unfold sizeof_slab_header. rewrite (wrap_small 64 (v + 32)) by lia.
  rewrite (bind_done _ _ _ _ _ (rd_free s h v Hh Hva Hin)), H16, header_free by lia. rewrite u32_small by lia.
  destruct (link_slots s h Hh Hin H16) as (m1 & h1 & E1 & Hh1 & Hold & Hlink).
  rewrite (bind_done _ _ _ _ _ E1). set (s1 := s <| mem := m1 |>) in *.
  rewrite (bind_done _ _ _ _ _ (rd_free s1 h1 v Hh1 Hva Hin)), Hold, H16, header_free by lia.
  rewrite (bind_done _ _ _ _ _ (rd_size s1 h1 v Hh1 Hva Hin)), Hold, H16, header_size by lia.
  rewrite (u32_small (n - 1)), u32_small by lia. unfold slot in Hs3. rewrite wrap_small by lia.
  change (v + 32 + (n - 1) * sz) with (slot v sz (n - 1)).
  destruct (vwr_eq s1 h1 (slot v sz (n - 1)) 0 Hh1 Hsl) as (m2 & E2 & Hh2).
  exists m2, (upd h1 (slot v sz (n - 1)) 0). split_and!; [done|done| |].
  - apply slab_ok_new; [by rewrite word_upd_ne, Hold by lia..| |apply word_upd_eq].
    intros i Hi. rewrite word_upd_ne; [by apply Hlink|]. unfold slot. nia.
  - intros a Ha. rewrite word_upd_ne by lia. apply Hold. lia.
Qed.

Lemma fill_slab_eq s h k : sz = bucket_sizes !!! k → heap_rep s h →
  HEAP_BASE ≤ v ∧ v + 4096 ≤ heap_virtual_top s → h (v + 16) = 0 →
  ∃ m h', fill_slab (Z.of_nat k) v s =
      Done v (s <| mem := m |> <| buckets := <[k := v]> (buckets s) |>) ∧
    heap_rep (s <| mem := m |>) h' ∧ slab_ok h' v sz all_slots ∧
    ∀ a, a < v ∨ v + 4096 ≤ a → h' a = h a.
Proof.
  intros Esz Hh Hin H16. destruct (slab_header_eq s h k Esz Hh Hin H16) as (m1 & h1 & E1 & Hh1 & Ha & Hb & Hc).
  set (s1 := s <| mem := m1 |>) in *.
  destruct (slab_slots_eq s1 h1 Hh1 Hin Ha Hb) as (m2 & h2 & E2 & Hh2 & Hok & Hd).
  exists m2, h2. unfold fill_slab. rewrite Nat2Z.id.
  rewrite (bind_done _ _ _ _ _ E1), (bind_done _ _ _ _ _ E2). split_and!; [done..|].
  intros a Ho. by rewrite Hd, Hc.
Qed.
End NewSlab.


Lemma heap_rep_buckets s h b : heap_rep s h → heap_rep (s <| buckets := b |>) h.
Proof.
  intros (T & fr & Hok & Hw). exists T, fr. split; [|done].
  pose proof (ho_tree _ _ _ Hok) as HT.
  split; try apply Hok. by apply (tables_frame s); [|exact (pt_mem _ _ HT)|..].
Qed.

Section AddSlab.
Context (s : mst) (h : Z → Z) (G : layout) (v sz : Z) (HI : slab_inv s h G).
Context (Hva : v `mod` 4096 = 0) (Hin : HEAP_BASE ≤ v ∧ v + 4096 ≤ heap_virtual_top s).
Context (Hslabs : ∀ w x, slabs G !! w = Some x → w + 4096 ≤ v).
Context (Hbigs : ∀ p n, bigs G !! p = Some n → p + 4096 * n ≤ v).

Lemma inv_add_slab k m h' : sz = bucket_sizes !!! k →
  heap_rep (s <| mem := m |>) h' → slab_ok h' v sz (all_slots v sz) →
  (∀ a, a < v ∨ v + 4096 ≤ a → h' a = h a) →
  slab_inv (s <| mem := m |> <| buckets := <[k := v]> (buckets s) |>) h' (set_slab G v sz (all_slots v sz)).
Proof.
  intros Esz Hh Hok He. pose proof HI as [_ Ib Ip Is Ik Ig Igs Igg].
  assert (slabs G !! v = None) as Hv.
  { destruct (slabs G !! v) eqn:E; [|done]. specialize (Hslabs _ _ E). lia. }
  split; try done; cbn [slabs bigs set_slab].
  - by apply heap_rep_buckets.
  - cbn. by rewrite length_insert.
  - intros w x. rewrite lookup_insert. case_decide; [|apply Ip]. by intros _; subst.
  - intros w sz' g. rewrite lookup_insert. case_decide; [by intros [= <- <-]; subst|].
    intros Hw. destruct (Ip _ _ Hw) as (Hwa & _). specialize (Hslabs _ _ Hw).
    eapply slab_ok_ext; [done| |by apply Is]. intros a Ha. apply He. lia.
  - intros i b Hb. cbn in Hb. destruct (decide (i = k)) as [->|Hik].
    + rewrite list_lookup_insert_eq in Hb; [|apply lookup_lt_Some in Hb; by rewrite length_insert in Hb].
      injection Hb as <-. right. exists (all_slots v sz). rewrite lookup_insert_eq. by subst sz.
    + rewrite list_lookup_insert_ne in Hb by done. destruct (Ik i b Hb) as [->|[g Hg]]; [by left|right].
      exists g. rewrite lookup_insert_ne; [done|congruence].
  - intros p n w x Hp. rewrite lookup_insert. case_decide; [|by apply Igs].
    subst. intros _. left. by apply Hbigs.
Qed.

Lemma object_add_slab q l : object (set_slab G v sz (all_slots v sz)) q l ↔ object G q l.
Proof.
  assert (slabs G !! v = None) as Hv.
  { destruct (slabs G !! v) eqn:E; [|done]. specialize (Hslabs _ _ E). lia. }
  unfold object. cbn [slabs bigs set_slab]. split; (intros [(w & f & Hw & Hs & Hf)|?]; [|by right]); left.
  - rewrite lookup_insert in Hw. case_decide; [|by exists w, f]. simplify_eq. destruct Hf.
    destruct Hs as (i & Hi & ->). apply list_elem_of_fmap_2, elem_of_seqZ. lia.
  - exists w, f. rewrite lookup_insert_ne; [done|congruence].
Qed.
End AddSlab.

(** ** Allocating *)

(** What an allocation of [n] bytes gives: a fresh object at [p], the others as
    they were. *)
Record allocated (h : Z → Z) (G : layout) (n p : Z) (s' : mst) (h' : Z → Z) (G' : layout) : Prop := {
  al_inv : slab_inv s' h' G';
  al_pos : p ≠ 0;
  al_fresh l : ¬ object G p l;
  al_objects : ∃ len, (n ≤ len ∧ (n ≤ 2048 → len ≤ 2048)) ∧ ∀ q l, object G' q l ↔ (q = p ∧ l = len) ∨ object G q l;
  al_kept : kept G 0 h h' }.

Lemma new_slab_spec s h G k : slab_inv s h G → (k < 8)%nat → heap_virtual_top s + 4096 ≤ HEAP_LIMIT →
  wph out_of_memory (new_slab (Z.of_nat k)) (λ v s', ∃ h' G' a rest,
    v ≠ 0 ∧ slab_inv s' h' G' ∧ slabs G' !! v = Some (bucket_sizes !!! k, a :: rest) ∧
    (∀ q l, object G' q l ↔ object G q l) ∧ kept G 0 h h') s.
Proof.
  intros HI Hk Hlim. unfold new_slab. apply wph_bind.
  eapply wph_mono; [apply (heap_extend_spec 1 s h (si_heap _ _ _ HI)); lia|].
  intros v s1 [-> [Ht (h1 & Hh1 & Hold & Hzero) Hb]]. change (Z.to_nat 1) with 1%nat in Ht.
  set (v := heap_virtual_top s) in *. set (sz := bucket_sizes !!! k).
  assert (sz ∈ bucket_sizes) as Hsz by by apply bucket_elem.
  destruct (si_heap _ _ _ HI) as (T & fr & Hok & _). destruct (ho_top _ _ _ Hok) as [Hv Hva]. fold v in Hv, Hva.
  rewrite (proj2 (Z.eqb_neq v 0)) by (unfold HEAP_BASE in *; lia).
  assert (slab_inv s1 h1 G) as HI1 by (by eapply (inv_grown 1)).
  assert (HEAP_BASE ≤ v ∧ v + 4096 ≤ heap_virtual_top s1) as Hin by lia.
  destruct (fill_slab_eq v sz Hva Hsz s1 h1 k eq_refl Hh1 Hin) as (m & h2 & E & Hh2 & Hsl & He); [apply Hzero; lia|].
  apply wph_wp. eapply wp_of_eq; [exact E|].
  assert (∀ w x, slabs G !! w = Some x → w + 4096 ≤ v) as Hs1 by (intros w x Hw; by apply (si_page _ _ _ HI _ _ Hw)).
  assert (∀ p n, bigs G !! p = Some n → p + 4096 * n ≤ v) as Hb1 by (intros p n Hp; by apply (si_big _ _ _ HI _ _ Hp)).
  destruct (all_slots v sz) as [|a rest] eqn:Ea.
  { pose proof (slab_length _ _ _ _ Hsl). destruct (bucket_size_ok sz Hsz) as (_ & _ & Hn & _).
    pose proof (all_slots_lookup v sz 0) as E0. rewrite Ea, decide_True in E0 by (unfold nslots; lia). done. }
  exists h2, (set_slab G v sz (a :: rest)), a, rest. rewrite <-Ea in *. split_and!.
  - unfold HEAP_BASE in *. lia.
  - by eapply (inv_add_slab s1 h1).
  - cbn [slabs set_slab]. by rewrite lookup_insert_eq, Ea.
  - intros q l. by eapply (object_add_slab s1).
  - intros q l b Hq _ Hr. destruct (object_place _ _ _ _ _ HI Hq) as (_ & _ & ? & _).
    rewrite He, Hold by lia. done.
Qed.

Lemma kmalloc_big s h G n : slab_inv s h G → 2048 < n ≤ 2 ^ 64 - 4096 →
  let pages := (n + 4095) `div` 4096 in heap_virtual_top s + 4096 * pages ≤ HEAP_LIMIT →
  wph out_of_memory (heap_extend pages) (λ p s', ∃ h' G', allocated h G n p s' h' G') s.
Proof.
  intros HI Hn pages Hlim. assert (0 < pages ∧ n ≤ 4096 * pages) as [Hp1 Hp2]
    by (unfold pages; Z.div_mod_to_equations; lia).
  eapply wph_mono; [apply (heap_extend_spec pages s h (si_heap _ _ _ HI)); lia|].
  intros p s1 [-> [Ht (h1 & Hh1 & Hold & Hzero) Hb]]. rewrite Z2Nat.id in Ht by lia.
  set (p := heap_virtual_top s) in *.
  destruct (si_heap _ _ _ HI) as (T & fr & Hok & _). destruct (ho_top _ _ _ Hok) as [Hv Hva]. fold p in Hv, Hva.
  assert (slab_inv s1 h1 G) as HI1 by (eapply (inv_grown (Z.to_nat pages)); [done..|lia|done|done]).
  assert (∀ q l, object G q l → q + l ≤ p ∧ 0 < l) as Hobj
    by (intros q l Hq; destruct (object_place _ _ _ _ _ HI Hq) as (? & ? & ? & _); by split).
  assert (bigs G !! p = None) as Hpn.
  { destruct (bigs G !! p) as [k|] eqn:E; [|done]. destruct (Hobj p (4096 * k)); [right; by exists k|lia]. }
  exists h1, (mkLayout (slabs G) (<[p := pages]> (bigs G))). split.
  - pose proof HI1 as [_ Ib Ip Is Ik Ig Igs Igg]. split; try done; cbn [slabs bigs].
    + intros q k. rewrite lookup_insert. case_decide; [|apply Ig]. intros [= <-]. subst q. lia.
    + intros q k w x. rewrite lookup_insert. case_decide; [|apply Igs]. intros [= <-] Hw. subst q.
      right. by apply (si_page _ _ _ HI _ _ Hw).
    + intros q k r k'. rewrite !lookup_insert. repeat case_decide; intros; simplify_eq; [| |by eapply Igg].
      * right. by apply (si_big _ _ _ HI).
      * left. by apply (si_big _ _ _ HI).
  - unfold HEAP_BASE in *. lia.
  - intros l Hq%Hobj. lia.
  - exists (4096 * pages). split; [split; [done|lia]|]. intros q l. unfold object. cbn [slabs bigs].
    setoid_rewrite lookup_insert_Some. split; [|naive_solver].
    intros [?|(k & [[-> ->]|[? ?]] & ->)]; [naive_solver..|right; right; by exists k].
  - intros q l b Hq%Hobj _ Hr. apply Hold. fold p. lia.
Qed.

(** The pages that an allocation of [n] bytes may need. *)
Definition pages_for (n : Z) : Z := (n + 4095) `div` 4096.
Definition room (s : mst) (n : Z) : Prop := heap_virtual_top s + 4096 * pages_for n ≤ HEAP_LIMIT.

Lemma allocated_slot h G n s' h' v sz a rest G1 h1 s1 : n ≤ sz →
  slab_inv s1 h1 G1 → slabs G1 !! v = Some (sz, a :: rest) →
  (∀ q l, object G1 q l ↔ object G q l) → kept G 0 h h1 →
  slab_inv s' h' (set_slab G1 v sz rest) → kept G1 0 h1 h' →
  allocated h G n a s' h' (set_slab G1 v sz rest).
Proof.
  intros Hn HI Hv Hobj Hk HI' Hk'. pose proof (si_slab _ _ _ HI _ _ _ Hv) as Hok.
  destruct (si_page _ _ _ HI _ _ Hv) as (Hva & Hb & _).
  assert (is_slot v sz a) as Ha by (apply (so_slots _ _ _ _ Hok); by left).
  destruct (is_slot_range v sz a (so_size _ _ _ _ Hok) Hva Ha) as (H1 & _ & _ & Hpg). split.
  - done.
  - unfold HEAP_BASE in Hb. lia.
  - intros l Hl. apply Hobj in Hl as [(w & f & Hw & Hs & Hf)|(k & Hb' & _)].
    + destruct (slot_alone s1 h1 G1 HI v sz _ a Hv Ha) as [Hone _].
      rewrite (Hone w l f Hw Hs) in Hw. rewrite Hv in Hw. injection Hw as <- <-. apply Hf. by left.
    + destruct (slot_alone s1 h1 G1 HI v sz _ a Hv Ha) as [_ Hone]. congruence.
  - exists sz. split; [split; [done|intros _; by apply bucket_size_ok, (so_size _ _ _ _ Hok)]|]. intros q l. rewrite (object_take s1 h1 G1 HI v sz a rest q l Hv). by rewrite Hobj.
  - intros q l b Hq Hq0 Hr. rewrite (Hk' q l b) by (try apply Hobj; done). by apply (Hk q l).
Qed.

(** The end of [kmalloc], for a slab with a free slot and for a new one. *)
Definition from_slab (v : Z) : M mst Z := if v =? 0 then mret 0 else take_slot v.

Lemma slab_take s h G s1 h1 G1 n v sz a rest : n ≤ sz → slab_inv s1 h1 G1 → slabs G1 !! v = Some (sz, a :: rest) →
  (∀ q l, object G1 q l ↔ object G q l) → kept G 0 h h1 →
  wph s (from_slab v) (λ p s', ∃ h' G', allocated h G n p s' h' G') s1.
Proof.
  intros Hn HI Hv Hobj Hk. destruct (si_page _ _ _ HI _ _ Hv) as (_ & Hb & _). unfold from_slab.
  rewrite (proj2 (Z.eqb_neq v 0)) by (unfold HEAP_BASE in *; lia).
  destruct (take_slot_eq s1 h1 G1 v _ a rest HI Hv) as (m & h2 & E & HI2 & Hk2).
  apply wph_wp. eapply wp_of_eq; [exact E|]. eexists h2, _. by eapply (allocated_slot h G n _ h2 v _ a rest G1 h1 s1).
Qed.

Lemma new_slab_take s h G k n : slab_inv s h G → (k < 8)%nat → heap_virtual_top s + 4096 ≤ HEAP_LIMIT →
  n ≤ bucket_sizes !!! k →
  wph out_of_memory (new_slab (Z.of_nat k) ≫= from_slab) (λ p s', ∃ h' G', allocated h G n p s' h' G') s.
Proof.
  intros HI Hk Hlim Hn. apply wph_bind. eapply wph_mono; [by apply (new_slab_spec s h G)|].
  intros v s1 (h1 & G1 & a & rest & _ & HI1 & Hv & Hobj & Hk1). by eapply slab_take.
Qed.

Lemma kmalloc_ok s h G n : slab_inv s h G → 0 < n ≤ 2 ^ 64 - 4096 → room s n →
  wph out_of_memory (kmalloc n) (λ p s', ∃ h' G', allocated h G n p s' h' G') s.
Proof.
  intros HI Hn Hroom. unfold kmalloc. rewrite (proj2 (Z.eqb_neq n 0)) by lia. cbv zeta.
  destruct (get_bucket_idx_eq n) as [[Hbig ->]|(k & Hk & -> & Hfit & _)].
  { change (-1 =? -1) with true. cbv iota. unfold PAGE_SIZE. rewrite wrap_small by lia.
    replace (n + 4096 - 1) with (n + 4095) by lia. apply kmalloc_big; [done|lia|done]. }
  rewrite (proj2 (Z.eqb_neq _ (-1))) by lia. rewrite Nat2Z.id. apply wph_bind, wph_gets.
  destruct (lookup_lt_is_Some_2 (buckets s) k) as [b Hb]; [rewrite (si_buckets _ _ _ HI); lia|].
  rewrite (list_lookup_total_correct _ _ _ Hb).
  assert (heap_virtual_top s + 4096 ≤ HEAP_LIMIT) as Hlim.
  { unfold room, pages_for in Hroom. revert Hroom. Z.div_mod_to_equations. lia. }
  destruct (si_bucket _ _ _ HI k b Hb) as [->|[free Hf]].
  - change (0 =? 0) with true. cbv iota. apply wph_bind, wph_ret. by apply (new_slab_take s h G).
  - destruct (si_page _ _ _ HI _ _ Hf) as (Hba & Hin). pose proof (si_slab _ _ _ HI _ _ _ Hf) as Hok.
    pose proof (slab_length _ _ _ _ Hok) as Hlen.
    destruct (bucket_size_ok _ (so_size _ _ _ _ Hok)) as (Hz & _ & Hc & _). fold (nslots (bucket_sizes !!! k)) in Hc.
    rewrite (proj2 (Z.eqb_neq b 0)) by (unfold HEAP_BASE in *; lia). apply wph_bind, wph_bind, wph_wp.
    eapply wp_of_eq; [apply (rd_free s h b (si_heap _ _ _ HI) Hba Hin)|].
    rewrite (so_header _ _ _ _ Hok), header_free by lia. apply wph_ret.
    destruct free as [|a rest]; [by apply (new_slab_take s h G)|]. cbn [length].
    rewrite (proj2 (Z.eqb_neq _ 0)) by lia. apply wph_bind, wph_ret. by eapply slab_take.
Qed.

(** ** The start *)

Definition empty_layout : layout := mkLayout ∅ ∅.

(** [init_slab] needs the range of the heap to be free of large pages. *)
Lemma init_slab_ok s T : ptree s T → is_root T (kernel_pml4 s) → length (buckets s) = 8%nat →
  (∀ v, HEAP_BASE ≤ v < HEAP_LIMIT → plain 4 (mem s) (kernel_pml4 s) v) →
  ∃ s', init_slab s = Done tt s' ∧ slab_inv s' (λ _, 0) empty_layout.
Proof.
  intros HT Hroot Hb Hplain. unfold init_slab. rewrite (bind_done (modify _) _ _ tt _ eq_refl).
  destruct (buckets s) as [|b0 [|b1 [|b2 [|b3 [|b4 [|b5 [|b6 [|b7 [|]]]]]]]]] eqn:E; try done.
  exists (s <| heap_virtual_top := HEAP_BASE |> <| buckets := replicate 8 0 |>).
  split; [destruct s; cbn in E; subst; reflexivity|]. set (s' := s <| heap_virtual_top := _ |> <| buckets := _ |>).
  split; try done; [|intros k b Hk; apply lookup_replicate in Hk as [-> _]; by left].
  exists T, ∅. split; [|intros a [_ Ha]; cbn in Ha; lia]. split; try done.
  - by apply (tables_frame s); [|exact (pt_mem _ _ HT)|..].
  - intros v. rewrite lookup_empty. cbn [heap_virtual_top]. split; [by intros [? ?]|].
    change (heap_virtual_top s') with HEAP_BASE. lia.
Qed.

(** ** The laws of the heap *)

(** C23: [kmalloc] returns (or the machine stops because physical memory is
    exhausted).  A request of 0 bytes gives null and changes nothing.  Any other
    gives a 16-byte aligned address of [n] mapped bytes that overlap no object
    handed out before; the objects are then the old ones and the new one, the
    contents of the old ones are unchanged, and the heap is well-formed again. *)
Theorem kmalloc_correct s h G n : slab_inv s h G → 0 ≤ n ≤ 2 ^ 64 - 4096 → room s n →
  wph out_of_memory (kmalloc n) (λ p s',
    if decide (n = 0) then p = 0 ∧ s' = s else
    ∃ h' G', allocated h G n p s' h' G' ∧ p `mod` 16 = 0 ∧
      HEAP_BASE ≤ p ∧ p + n ≤ heap_virtual_top s' ∧ ∀ q l, object G q l → apart p n q l) s.
Proof.
  intros HI Hn Hr. destruct (decide (n = 0)) as [->|Hn0]; [by apply wph_ret|].
  eapply wph_mono; [apply (kmalloc_ok s h G n); [done|lia|done]|].
  intros p s' (h' & G' & HA). exists h', G'. destruct (al_objects _ _ _ _ _ _ _ HA) as (len & Hlen & Hobj).
  pose proof (al_inv _ _ _ _ _ _ _ HA) as HI'.
  assert (object G' p len) as Hp by (apply Hobj; by left).
  destruct (object_place _ _ _ _ _ HI' Hp) as (? & ? & ? & ?). split_and!; try done; [lia|].
  intros q l Hq. assert (object G' q l) as Hq' by (apply Hobj; by right).
  destruct (object_apart _ _ _ p len q l HI' Hp Hq'); [|left; lia|right; lia].
  intros <-. by apply (al_fresh _ _ _ _ _ _ _ HA l).
Qed.

(** C24: [kfree] of an object returns, whatever the object contains; exactly
    that object is gone, the others keep their contents, and the heap is
    well-formed again.  Freeing null does nothing. *)
Theorem kfree_correct s h G p l : slab_inv s h G → object G p l →
  kfree 0 s = Done tt s ∧
  ∃ m h' G', kfree p s = Done tt (s <| mem := m |>) ∧ slab_inv (s <| mem := m |>) h' G' ∧
    (∀ q k, object G' q k ↔ object G q k ∧ q ≠ p) ∧ kept G p h h'.
Proof. intros HI Hp. split; [done|]. by eapply kfree_ok. Qed.
End Slab.
