(* ===== verification/Realloc.v ===== *)
(** * Objects as bytes: [krealloc] and [kzalloc]

    The bytes of the heap and the two functions of [mm/slab.c] that copy and
    clear them.  [krealloc_correct]: an object of a slab moves with its
    contents. *)

From S2P Require Import Prelude Bytes Mem Paging Heap Slab.

(** The byte at [a] of the words [h]. *)
Definition hbyte (h : Z → Z) (a : Z) : Z := u8 (Z.shiftr (h (a - a `mod` 8)) (8 * (a `mod` 8))).

Lemma set_field_byte w o x o' : 0 ≤ o < 8 → 0 ≤ o' < 8 →
  u8 (Z.shiftr (set_field 1 o w x) (8 * o')) = if decide (o' = o) then u8 x else u8 (Z.shiftr w (8 * o')).
Proof.
  intros Ho Ho'. unfold set_field, wrap. change (8 * 1) with 8.
  apply Z.bits_inj'. intros i Hi. destruct (Z_lt_le_dec i 8).
  2: { case_decide; rewrite !Z.mod_pow2_bits_high by lia; done. }
  rewrite Z.mod_pow2_bits_low, Z.shiftr_spec, Z.lor_spec, Z.ldiff_spec, !Z.shiftl_spec by lia.
  case_decide as E.
  - subst o'. replace (i + 8 * o - 8 * o) with i by lia. rewrite Z.ones_spec_low by lia.
    by rewrite andb_false_r.
  - rewrite (Z.mod_pow2_bits_low (Z.shiftr w _)), Z.shiftr_spec by lia. destruct (Z_lt_le_dec (i + 8 * o') (8 * o)).
    + rewrite !(Z.testbit_neg_r _ (i + 8 * o' - 8 * o)) by lia. by rewrite andb_true_r, orb_false_r.
    + rewrite Z.ones_spec_high, Z.mod_pow2_bits_high by lia. by rewrite andb_true_r, orb_false_r.
Qed.

Definition wbase (a : Z) : Z := a - a `mod` 8.

Lemma hbyte_upd h a x b :
  hbyte (upd h (wbase a) (set_field 1 (a `mod` 8) (h (wbase a)) x)) b = if decide (b = a) then u8 x else hbyte h b.
Proof.
  unfold hbyte, wbase. pose proof (Z.mod_pos_bound a 8 ltac:(lia)). pose proof (Z.mod_pos_bound b 8 ltac:(lia)).
  destruct (decide (b - b `mod` 8 = a - a `mod` 8)) as [E|E].
  - rewrite E, word_upd_eq, set_field_byte by done. destruct (decide (b = a)) as [->|Hne]; [by rewrite decide_True|].
    rewrite decide_False by lia. done.
  - rewrite word_upd_ne by done. rewrite decide_False; [done|congruence].
Qed.

Section Realloc.
Context `{HB : Buddy} `{HO : !BuddyOk}.

Lemma object_base s h G p l a : slab_inv s h G → object G p l → p ≤ a < p + l →
  wbase a `mod` 8 = 0 ∧ p ≤ wbase a < p + l ∧ in_heap s (wbase a).
Proof.
  intros HI Hp Ha. destruct (object_place _ _ _ _ _ HI Hp) as (H1 & H2 & H3 & H4). unfold wbase.
  assert ((a - a `mod` 8) `mod` 8 = 0 ∧ p ≤ a - a `mod` 8) as [? ?] by (Z.div_mod_to_equations; lia).
  pose proof (Z.mod_pos_bound a 8). split_and!; try lia. split; [done|lia].
Qed.

Lemma vrd8_eq s h G p l a : slab_inv s h G → object G p l → p ≤ a < p + l → vrd8 a s = Done (hbyte h a) s.
Proof.
  intros HI Hp Ha. destruct (object_base s h G p l a HI Hp Ha) as (_ & _ & Hin). unfold vrd8.
  by rewrite (bind_done _ _ _ _ _ (vrd_eq s h _ (si_heap _ _ _ HI) Hin)).
Qed.

Lemma vwr8_eq s h G p l a x : slab_inv s h G → object G p l → p ≤ a < p + l →
  ∃ m h', vwr8 a x s = Done tt (s <| mem := m |>) ∧ slab_inv (s <| mem := m |>) h' G ∧
    ∀ b, hbyte h' b = if decide (b = a) then u8 x else hbyte h b.
Proof.
  intros HI Hp Ha. destruct (object_base s h G p l a HI Hp Ha) as (Hm & Hr & Hin). unfold vwr8.
  rewrite (bind_done _ _ _ _ _ (vrd_eq s h _ (si_heap _ _ _ HI) Hin)).
  destruct (object_write s h G p l (wbase a) (set_field 1 (a `mod` 8) (h (wbase a)) x) HI Hp Hm Hr) as (m & E & HI').
  eexists m, _. split_and!; [exact E|exact HI'|]. intros b. apply hbyte_upd.
Qed.

(** [memset] on the first [n] bytes of an object. *)
Lemma fill_bytes_eq s h G p l n x : slab_inv s h G → object G p l → 0 ≤ n ≤ l →
  ∃ m h', fill_bytes p x n s = Done tt (s <| mem := m |>) ∧ slab_inv (s <| mem := m |>) h' G ∧
    ∀ b, hbyte h' b = if decide (p ≤ b < p + n) then u8 x else hbyte h b.
Proof.
  intros HI Hp Hn. unfold fill_bytes.
  pose proof (wp_for_all (Z.to_nat n) 0 (λ i, vwr8 (p + i) x) (λ k s', ∃ m h', s' = s <| mem := m |> ∧
    slab_inv s' h' G ∧ ∀ b, hbyte h' b = if decide (p ≤ b < p + k) then u8 x else hbyte h b) s) as Hw.
  apply wp_run in Hw as ([] & s' & E & m & h' & -> & HI' & Hb).
  - exists m, h'. split_and!; try done. intros b. rewrite Hb. by rewrite Z.add_0_l, Z2Nat.id by lia.
  - intros k s' Hk (m & h' & -> & HI' & Hb).
    destruct (vwr8_eq _ h' G p l (p + k) x HI' Hp) as (m' & h2 & E & HI2 & Hb2); [lia|].
    eapply wp_of_eq; [exact E|]. exists m', h2. split_and!; [done|done|]. intros b. rewrite Hb2, Hb.
    repeat case_decide; try done; lia.
  - exists (mem s), h. split_and!; [by destruct s|done|]. intros b. rewrite decide_False by lia. done.
Qed.

(** [memcpy] between two objects. *)
Lemma copy_bytes_eq s h G p l q k n : slab_inv s h G → object G p l → object G q k → p ≠ q →
  0 ≤ n ≤ l → n ≤ k →
  ∃ m h', copy_bytes p q n s = Done tt (s <| mem := m |>) ∧ slab_inv (s <| mem := m |>) h' G ∧
    ∀ b, hbyte h' b = if decide (p ≤ b < p + n) then hbyte h (q + (b - p)) else hbyte h b.
Proof.
  intros HI Hp Hq Hne Hn Hnk. pose proof (object_apart s h G p l q k HI Hp Hq Hne) as Hap. unfold copy_bytes.
  pose proof (wp_for_all (Z.to_nat n) 0 (λ i, b ← vrd8 (q + i); vwr8 (p + i) b) (λ j s', ∃ m h', s' = s <| mem := m |> ∧
    slab_inv s' h' G ∧
    ∀ b, hbyte h' b = if decide (p ≤ b < p + j) then hbyte h (q + (b - p)) else hbyte h b) s) as Hw.
  apply wp_run in Hw as ([] & s' & E & m & h' & -> & HI' & Hb).
  - exists m, h'. split_and!; try done. intros b. rewrite Hb. by rewrite Z.add_0_l, Z2Nat.id by lia.
  - intros j s' Hj (m & h' & -> & HI' & Hb). unfold wp.
    rewrite (bind_done _ _ _ _ _ (vrd8_eq _ h' G q k (q + j) HI' Hq ltac:(lia))).
    destruct (vwr8_eq _ h' G p l (p + j) (hbyte h' (q + j)) HI' Hp) as (m' & h2 & E & HI2 & Hb2); [lia|].
    rewrite E. exists m', h2. split_and!; [done|done|]. intros b. rewrite Hb2.
    rewrite (u8_byte (hbyte h' (q + j))) by apply byte_u8. rewrite !Hb.
    rewrite (decide_False (P := p ≤ q + j < p + j)) by (unfold apart in Hap; lia).
    repeat case_decide; try done; try lia. subst. f_equal. lia.
  - exists (mem s), h. split_and!; [by destruct s|done|]. intros b. rewrite decide_False by lia. done.
Qed.

(** ** The two functions *)

Lemma kept_bytes s h G p h' r k b : slab_inv s h G → kept G p h h' → object G r k → r ≠ p →
  r ≤ b < r + k → hbyte h' b = hbyte h b.
Proof.
  intros HI Hk Hr Hne Hb. destruct (object_base s h G r k b HI Hr Hb) as (_ & Hr' & _).
  unfold hbyte. fold (wbase b). by rewrite (Hk r k (wbase b)).
Qed.

Lemma object_nonzero s h G p l : slab_inv s h G → object G p l → p ≠ 0.
Proof. intros HI Hp. destruct (object_place _ _ _ _ _ HI Hp). unfold HEAP_BASE in *. lia. Qed.

Lemma get_allocation_size_slab s h G p l : slab_inv s h G → object G p l → l ≤ 2048 →
  get_allocation_size p s = Done l s.
Proof.
  intros HI Hp Hl. pose proof (object_nonzero s h G p l HI Hp) as Hp0.
  destruct Hp as [(v & free & Hv & Hs & _)|(n & Hn & ->)].
  - destruct (si_page _ _ _ HI _ _ Hv) as (Hva & Hin). pose proof (si_slab _ _ _ HI _ _ _ Hv) as Hok.
    destruct (is_slot_range v l p (so_size _ _ _ _ Hok) Hva Hs) as (_ & _ & _ & Hpg).
    destruct (bucket_size_ok l (so_size _ _ _ _ Hok)) as (Hz & _).
    unfold get_allocation_size, slab_of. rewrite Hpg, (proj2 (Z.eqb_neq p 0)) by done.
    rewrite (bind_done _ _ _ _ _ (rd_size s h v (si_heap _ _ _ HI) Hva Hin)).
    rewrite (so_header _ _ _ _ Hok), header_size by lia.
    by rewrite (proj2 (Z.ltb_lt 0 l)), (proj2 (Z.leb_le l 2048)) by lia.
  - destruct (si_big _ _ _ HI _ _ Hn). lia.
Qed.

(** For a large block the answer depends on what its owner stored in it, and is
    never more than a page. *)
Lemma get_allocation_size_big s h G p n : slab_inv s h G → bigs G !! p = Some n →
  let w := u32 (h (p + 16)) in
  get_allocation_size p s = Done (if (0 <? w) && (w <=? 2048) then w else 4096) s.
Proof.
  intros HI Hp w. destruct (si_big _ _ _ HI _ _ Hp) as (Hpa & Hn & Hin1 & Hin2).
  unfold get_allocation_size, slab_of. rewrite page_of_id, (proj2 (Z.eqb_neq p 0)) by (unfold HEAP_BASE in *; lia).
  rewrite (bind_done _ _ _ _ _ (rd_size s h p (si_heap _ _ _ HI) Hpa ltac:(lia))).
  rewrite Z.shiftr_0_r. fold w. by destruct ((0 <? w) && (w <=? 2048)).
Qed.

(** [krealloc] of an object of a slab returns a new object of at least the
    requested size that starts with the bytes of the old one, as many as both
    have; the old object is gone, every other object keeps its bytes. *)
Theorem krealloc_correct s h G p l n : slab_inv s h G → object G p l → l ≤ 2048 →
  0 < n ≤ 2 ^ 64 - 4096 → room s n →
  wph out_of_memory (krealloc p n) (λ q s', ∃ h' G' len, slab_inv s' h' G' ∧ q ≠ 0 ∧ (∀ k, ¬ object G q k) ∧ n ≤ len ∧ (n ≤ 2048 → len ≤ 2048) ∧
    (∀ r k, object G' r k ↔ (r = q ∧ k = len) ∨ (object G r k ∧ r ≠ p)) ∧
    (∀ i, 0 ≤ i < Z.min l n → hbyte h' (q + i) = hbyte h (p + i)) ∧
    (∀ r k b, object G r k → r ≠ p → r ≤ b < r + k → hbyte h' b = hbyte h b)) s.
Proof.
  intros HI Hp Hl Hn Hroom. pose proof (object_nonzero s h G p l HI Hp) as Hp0. unfold krealloc.
  rewrite (proj2 (Z.eqb_neq p 0)), (proj2 (Z.eqb_neq n 0)) by lia. apply wph_bind.
  eapply wph_mono; [by apply (kmalloc_ok s h G n)|].
  intros q s1 (h1 & G1 & [HI1 Hq0 Hfresh (len & [Hlen Hsmall] & Hobj) Hk1]). rewrite (proj2 (Z.eqb_neq q 0)) by done.
  assert (object G1 p l) as Hp1 by (apply Hobj; by right).
  assert (object G1 q len) as Hq1 by (apply Hobj; by left).
  assert (q ≠ p) as Hqp by (intros ->; by apply (Hfresh l)).
  apply wph_wp, wp_bind. eapply wp_of_eq; [by eapply get_allocation_size_slab|].
  set (c := if l <? n then l else n). assert (c = Z.min l n) as Hc by (unfold c; destruct (Z.ltb_spec l n); lia).
  destruct (object_place _ _ _ _ _ HI1 Hp1) as (_ & Hl0 & _).
  destruct (copy_bytes_eq s1 h1 G1 q len p l c HI1 Hq1 Hp1 Hqp) as (m2 & h2 & E2 & HI2 & Hb2); [lia|lia|].
  apply wp_bind. eapply wp_of_eq; [exact E2|].
  destruct (kfree_ok _ h2 G1 p l HI2 Hp1) as (m3 & h3 & G3 & E3 & HI3 & Hobj3 & Hk3).
  apply wp_bind. eapply wp_of_eq; [exact E3|]. apply wp_ret. exists h3, G3, len.
  assert (∀ r k b, object G r k → r ≤ b < r + k → hbyte h1 b = hbyte h b) as Hold.
  { intros r k b Hr Hb. apply (kept_bytes s h G 0 h1 r k b); [done..|by eapply (object_nonzero s h G r k)|done]. }
  split_and!; [done|done|done|done|done| | |].
  - intros r k. rewrite Hobj3, Hobj. naive_solver.
  - intros i Hi. rewrite (kept_bytes _ h2 G1 p h3 q len) by (done || lia).
    rewrite Hb2, decide_True by lia. replace (q + i - q) with i by lia. apply (Hold p l); [done|lia].
  - intros r k b Hr Hne Hb. assert (object G1 r k) as Hr1 by (apply Hobj; by right).
    rewrite (kept_bytes _ h2 G1 p h3 r k) by done. rewrite Hb2, decide_False; [by apply (Hold r k)|].
    assert (r ≠ q) as Hrq by (intros ->; by apply (Hfresh k)).
    destruct (object_apart _ _ _ r k q len HI1 Hr1 Hq1 Hrq); lia.
Qed.

(** [kzalloc]: the new object begins with [n] zero bytes. *)
Lemma kzalloc_ok s h G n : slab_inv s h G → 0 < n ≤ 2 ^ 64 - 4096 → room s n →
  wph out_of_memory (kzalloc n) (λ q s', ∃ h' G' len, slab_inv s' h' G' ∧ q ≠ 0 ∧ n ≤ len ∧
    (∀ r k, object G' r k ↔ (r = q ∧ k = len) ∨ object G r k) ∧
    (∀ i, 0 ≤ i < n → hbyte h' (q + i) = 0) ∧
    (∀ r k b, object G r k → r ≤ b < r + k → hbyte h' b = hbyte h b)) s.
Proof.
  intros HI Hn Hroom. unfold kzalloc. apply wph_bind. eapply wph_mono; [by apply (kmalloc_ok s h G n)|].
  intros q s1 (h1 & G1 & [HI1 Hq0 Hfresh (len & [Hlen Hsmall] & Hobj) Hk1]). rewrite (proj2 (Z.eqb_neq q 0)) by done.
  assert (object G1 q len) as Hq1 by (apply Hobj; by left).
  destruct (fill_bytes_eq s1 h1 G1 q len n 0 HI1 Hq1) as (m2 & h2 & E2 & HI2 & Hb2); [lia|].
  apply wph_wp, wp_bind. eapply wp_of_eq; [exact E2|]. apply wp_ret. exists h2, G1, len.
  split_and!; try done.
  - intros i Hi. by rewrite Hb2, decide_True by lia.
  - intros r k b Hr Hb. assert (object G1 r k) as Hr1 by (apply Hobj; by right).
    rewrite Hb2, decide_False; [apply (kept_bytes s h G 0 h1 r k b); [done..|by eapply (object_nonzero s h G r k)|done]|].
    assert (r ≠ q) as Hrq by (intros ->; by apply (Hfresh k)).
    destruct (object_apart _ _ _ r k q len HI1 Hr1 Hq1 Hrq); lia.
Qed.
End Realloc.
