(* ===== verification/MemFile.v ===== *)
(** * Files in memory

    Models the reads and writes of [lib/libc/fs/vfs.c] on files in memory, on top
    of the kernel heap: a file is the pair of the fields [data] and [size] of its
    node, and its bytes are those of the heap object at [data].  The caller's
    buffer is a list of bytes.  The theorem: such a file is an array of bytes that
    grows when it is written beyond its end. *)

From S2P Require Import Prelude Bytes Mem Paging Heap Slab Realloc.

(** ** The code *)

Definition ENOMEM : Z := 12.

Record mfile := mkMfile { f_data : Z; f_size : Z }.

Section Code.
Context `{!Buddy}.

(** [memcpy] from and to the caller's buffer. *)
Fixpoint get_bytes (a : Z) (n : nat) : M mst (list Z) :=
  match n with
  | O => mret []
  | S n => b ← vrd8 a; l ← get_bytes (a + 1) n; mret (b :: l)
  end.
Fixpoint put_bytes (a : Z) (l : list Z) : M mst unit :=
  match l with
  | [] => mret tt
  | b :: l => vwr8 a b ;; put_bytes (a + 1) l
  end.

Definition mem_vfs_read (f : mfile) (size offset : Z) : M mst (Z * list Z) :=
  if (f_data f =? 0) || (f_size f <=? offset) then mret (0, []) else
  let to_read := if f_size f <? u64 (offset + size) then f_size f - offset else size in
  l ← get_bytes (f_data f + offset) (Z.to_nat to_read);
  mret (i32 to_read, l).

(** The result and the file. *)
Definition mem_vfs_write (f : mfile) (buf : list Z) (offset : Z) : M mst (Z * mfile) :=
  let size := Z.of_nat (length buf) in
  let required_size := u64 (offset + size) in
  f' ← (if f_size f <? required_size then
          new_data ← krealloc (f_data f) required_size;
          if (new_data =? 0) && (0 <? required_size) then mret None
          else mret (Some (mkMfile new_data required_size))
        else mret (Some f));
  match f' with
  | None => mret (- ENOMEM, f)
  | Some f' => put_bytes (f_data f' + offset) buf ;; mret (i32 size, f')
  end.
End Code.

(** ** Files as arrays of bytes *)

(** The file holds the bytes [l]: it is empty and has no object, or they are the
    first ones of an object of a slab. *)
Definition file_rep (h : Z → Z) (G : layout) (f : mfile) (l : list Z) : Prop :=
  f_size f = Z.of_nat (length l) ∧
  (f_data f = 0 ∧ l = [] ∨
   ∃ k, object G (f_data f) k ∧ f_size f ≤ k ≤ 2048 ∧
     ∀ i b, l !! i = Some b → hbyte h (f_data f + Z.of_nat i) = b).

(** The bytes after writing [buf] at [offset]: a gap in between is not specified. *)
Definition overwritten (l buf : list Z) (offset : nat) (l' : list Z) : Prop :=
  length l' = Nat.max (length l) (offset + length buf) ∧
  (∀ i, (offset ≤ i < offset + length buf)%nat → l' !! i = buf !! (i - offset)%nat) ∧
  (∀ i, (i < length l)%nat → ¬ (offset ≤ i < offset + length buf)%nat → l' !! i = l !! i).

Section Files.
Context `{HB : Buddy} `{HO : !BuddyOk}.

Lemma get_bytes_eq s h G p k n : slab_inv s h G → object G p k → ∀ a, p ≤ a → a + Z.of_nat n ≤ p + k →
  get_bytes a n s = Done ((λ i, hbyte h (a + Z.of_nat i)) <$> seq 0 n) s.
Proof.
  intros HI Hp. induction n as [|n IH]; intros a Ha Hn; [done|]. cbn [get_bytes].
  rewrite (bind_done _ _ _ _ _ (vrd8_eq s h G p k a HI Hp ltac:(lia))).
  rewrite (bind_done _ _ _ _ _ (IH (a + 1) ltac:(lia) ltac:(lia))).
  cbn [seq]. rewrite fmap_cons. unfold mret, M_ret. do 2 f_equal; [f_equal; lia|].
  rewrite <-seq_shift, <-list_fmap_compose. apply list_fmap_ext. intros i x _. cbn. f_equal. lia.
Qed.

Lemma put_bytes_eq G p k l : ∀ s h a, slab_inv s h G → object G p k → Forall byte l → p ≤ a →
  a + Z.of_nat (length l) ≤ p + k →
  ∃ m h', put_bytes a l s = Done tt (s <| mem := m |>) ∧ slab_inv (s <| mem := m |>) h' G ∧
    (∀ i b, l !! i = Some b → hbyte h' (a + Z.of_nat i) = b) ∧
    (∀ b, ¬ (a ≤ b < a + Z.of_nat (length l)) → hbyte h' b = hbyte h b).
Proof.
  induction l as [|x l IH]; intros s h a HI Hp Hl Ha Hn.
  { exists (mem s), h. split_and!; [by destruct s|by destruct s|done|done]. }
  apply Forall_cons_1 in Hl as [Hx Hl]. cbn [length put_bytes] in *.
  destruct (vwr8_eq s h G p k a x HI Hp ltac:(lia)) as (m1 & h1 & E1 & HI1 & Hb1).
  destruct (IH _ h1 (a + 1) HI1 Hp Hl ltac:(lia) ltac:(lia)) as (m2 & h2 & E2 & HI2 & Hin & Hout).
  exists m2, h2. rewrite (bind_done _ _ _ _ _ E1). split_and!; [by rewrite E2|by destruct s|..].
  - intros [|i] b Hi; cbn in Hi.
    + injection Hi as ->. rewrite Z.add_0_r, Hout, Hb1, decide_True by lia. by apply u8_byte.
    + replace (a + Z.of_nat (S i)) with (a + 1 + Z.of_nat i) by lia. by apply Hin.
  - intros b Hb. rewrite Hout by lia. rewrite Hb1, decide_False by lia. done.
Qed.

Lemma mem_read_eq s h G f l size offset : slab_inv s h G → file_rep h G f l → 0 ≤ offset → 0 ≤ size → offset + size < 2 ^ 63 →
  let out := take (Z.to_nat size) (drop (Z.to_nat offset) l) in
  mem_vfs_read f size offset s = Done (i32 (Z.of_nat (length out)), out) s.
Proof.
  intros HI [Hsz Hrep] Ho Hn Hov out. unfold mem_vfs_read. destruct Hrep as [[-> ->]|(k & Hobj & Hk & Hb)].
  { rewrite Z.eqb_refl. cbn [orb]. unfold out. by rewrite drop_nil, take_nil. }
  rewrite (proj2 (Z.eqb_neq (f_data f) 0)) by (by eapply object_nonzero). cbn [orb].
  destruct (Z.leb_spec (f_size f) offset) as [Hle|Hgt].
  { unfold out. rewrite drop_ge, take_nil by lia. done. }
  rewrite wrap_small by lia. set (to_read := if f_size f <? offset + size then _ else _).
  assert (length out = Z.to_nat to_read ∧ 0 ≤ to_read ∧ offset + to_read ≤ f_size f) as (Hout & Hr0 & Hr1).
  { unfold out, to_read. rewrite length_take, length_drop. destruct (Z.ltb_spec (f_size f) (offset + size)); lia. }
  rewrite (bind_done _ _ _ _ _ (get_bytes_eq s h G (f_data f) k (Z.to_nat to_read) HI Hobj (f_data f + offset) ltac:(lia) ltac:(lia))).
  unfold mret, M_ret. do 2 f_equal; [by rewrite Hout, Z2Nat.id|]. apply list_eq. intros i. rewrite list_lookup_fmap.
  destruct (decide (i < length out)%nat) as [Hi|Hi].
  - rewrite lookup_seq_lt by lia. cbn [fmap option_fmap option_map]. destruct (lookup_lt_is_Some_2 out i Hi) as [b Eb]. rewrite Eb. f_equal.
    unfold out in Eb, Hi. rewrite length_take in Hi. rewrite lookup_take_lt, lookup_drop in Eb by lia. apply Hb in Eb. rewrite <-Eb. f_equal. lia.
  - rewrite lookup_seq_ge, lookup_ge_None_2 by lia. done.
Qed.

(** Every object but [p] is still there, with its bytes. *)
Definition others (h : Z → Z) (G : layout) (p : Z) (h' : Z → Z) (G' : layout) : Prop :=
  ∀ r k, object G r k → r ≠ p → object G' r k ∧ ∀ b, r ≤ b < r + k → hbyte h' b = hbyte h b.

Lemma grow_file s h G f l n : slab_inv s h G → file_rep h G f l → f_size f < n ≤ 2048 → room s n →
  wph out_of_memory (krealloc (f_data f) n) (λ q s', ∃ h' G' len, slab_inv s' h' G' ∧ q ≠ 0 ∧ n ≤ len ≤ 2048 ∧
    object G' q len ∧ (∀ r k, object G r k → r ≠ f_data f → r ≠ q) ∧
    (∀ i b, l !! i = Some b → hbyte h' (q + Z.of_nat i) = b) ∧ others h G (f_data f) h' G') s.
Proof.
  intros HI [Hsz Hrep] Hn Hroom. destruct Hrep as [[E0 ->]|(k & Hobj & Hk & Hb)].
  - unfold krealloc. rewrite E0, Z.eqb_refl. eapply wph_mono; [apply (kmalloc_ok s h G n HI); [cbn in Hsz; lia|done]|].
    intros q s1 (h1 & G1 & [HI1 Hq0 Hfresh (len & [Hlen Hsmall] & Hobj) Hk1]). exists h1, G1, len.
    split_and!; [done|done|done|lia|apply Hobj; by left|intros r k Hr _ ->; by apply (Hfresh k)|done|].
    intros r k Hr Hne. split; [apply Hobj; by right|]. intros b Hb. by apply (kept_bytes s h G 0 h1 r k b).
  - eapply wph_mono; [apply (krealloc_correct s h G (f_data f) k n HI Hobj ltac:(lia) ltac:(lia) Hroom)|].
    intros q s1 (h1 & G1 & len & HI1 & Hq0 & Hfresh & Hlen & Hsmall & Hobj1 & Hold & Hoth). exists h1, G1, len.
    split_and!; [done|done|done|lia|apply Hobj1; by left|intros r k' Hr _ ->; by apply (Hfresh k')| |].
    + intros i b Hi. rewrite Hold; [by apply Hb|]. apply lookup_lt_Some in Hi. lia.
    + intros r k' Hr Hne. split; [apply Hobj1; by right|]. intros b. by apply Hoth.
Qed.

(** The copy into the file, whose object is [q]. *)
Lemma fill_file s h G q k l buf offset n : slab_inv s h G → object G q k → n ≤ k ≤ 2048 → Forall byte buf → 0 ≤ offset →
  (∀ i b, l !! i = Some b → hbyte h (q + Z.of_nat i) = b) →
  n = Z.max (Z.of_nat (length l)) (offset + Z.of_nat (length buf)) →
  ∃ m h' l', put_bytes (q + offset) buf s = Done tt (s <| mem := m |>) ∧ slab_inv (s <| mem := m |>) h' G ∧
    file_rep h' G (mkMfile q n) l' ∧ overwritten l buf (Z.to_nat offset) l' ∧ others h G q h' G.
Proof.
  intros HI Hq Hk Hbuf Ho Hl Hn.
  destruct (put_bytes_eq G q k buf s h (q + offset) HI Hq Hbuf ltac:(lia) ltac:(lia)) as (m & h' & E & HI' & Hin & Hout).
  set (l' := (λ i, hbyte h' (q + Z.of_nat i)) <$> seq 0 (Z.to_nat n)).
  assert (length l' = Z.to_nat n) as Hlen by (unfold l'; by rewrite length_fmap, length_seq).
  assert (∀ i, (i < Z.to_nat n)%nat → l' !! i = Some (hbyte h' (q + Z.of_nat i))) as Hlk
    by (intros i Hi; unfold l'; by rewrite list_lookup_fmap, lookup_seq_lt).
  exists m, h', l'. split_and!; [done|done|..].
  - split; [cbn; lia|]. right. exists k. cbn. split_and!; [done|lia|lia|]. intros i b Hi.
    pose proof (lookup_lt_Some _ _ _ Hi). rewrite Hlk in Hi by lia. by injection Hi.
  - split_and!; [lia|..].
    + intros i Hi. rewrite Hlk by lia. destruct (lookup_lt_is_Some_2 buf (i - Z.to_nat offset)) as [b Eb]; [lia|]. rewrite Eb. f_equal.
      rewrite <-(Hin _ _ Eb). f_equal. lia.
    + intros i Hi Hni. rewrite Hlk by lia. rewrite Hout by lia. destruct (lookup_lt_is_Some_2 l i Hi) as [b Eb].
      rewrite Eb. f_equal. by apply Hl.
  - intros r k' Hr Hne. split; [done|]. intros b Hb. apply Hout. pose proof (object_apart s h G r k' q k HI Hr Hq Hne) as Hap.
    unfold apart in Hap. lia.
Qed.

(** C34: A file in memory is an array of bytes, if it is empty or its data are an
    object of a slab ([file_rep]: at most 2048 bytes).  A read gives the bytes at
    the offset, as many as are asked for and there.  A write that ends at or before
    byte 2048, with room in the heap, puts the new bytes at the offset and keeps
    the old ones elsewhere (bytes between an old end and the offset can be
    anything); a write beyond the end moves the file to a larger object.  No other
    heap object changes.  Larger files are not covered, since [krealloc] loses the
    bytes of a large block after the first page, nor are files whose data are
    still in the archive, which [krealloc] takes for heap objects. *)
Theorem mem_file_correct s h G f l : slab_inv s h G → file_rep h G f l →
  (∀ size offset, 0 ≤ offset → 0 ≤ size → offset + size < 2 ^ 63 →
    let out := take (Z.to_nat size) (drop (Z.to_nat offset) l) in
    mem_vfs_read f size offset s = Done (i32 (Z.of_nat (length out)), out) s) ∧
  (∀ buf offset, Forall byte buf → 0 ≤ offset → offset + Z.of_nat (length buf) ≤ 2048 →
    room s (offset + Z.of_nat (length buf)) →
    wph out_of_memory (mem_vfs_write f buf offset) (λ r s', ∃ h' G' l', slab_inv s' h' G' ∧
      r.1 = Z.of_nat (length buf) ∧ file_rep h' G' r.2 l' ∧ overwritten l buf (Z.to_nat offset) l' ∧
      others h G (f_data f) h' G') s).
Proof.
  intros HI Hf. split; [intros; by eapply mem_read_eq|]. intros buf offset Hbuf Ho Hlen Hroom. unfold mem_vfs_write.
  rewrite wrap_small by lia. rewrite (sint_small 32) by lia. set (n := offset + Z.of_nat (length buf)) in *.
  destruct (Z.ltb_spec (f_size f) n) as [Hlt|Hge].
  - apply wph_bind, wph_bind. eapply wph_mono; [by apply (grow_file s h G f l n)|].
    intros q s1 (h1 & G1 & len & HI1 & Hq0 & Hlen1 & Hq & Hfresh & Hl & Hoth). rewrite (proj2 (Z.eqb_neq q 0)) by done. cbn [andb].
    apply wph_ret, wph_bind. destruct Hf as [Hsz _].
    destruct (fill_file s1 h1 G1 q len l buf offset n HI1 Hq ltac:(lia) Hbuf Ho Hl ltac:(lia)) as (m & h2 & l' & E & HI2 & Hrep & Hov & Hoth2).
    apply wph_wp. eapply wp_of_eq; [exact E|]. apply wp_ret. exists h2, G1, l'. split_and!; try done.
    intros r k Hr Hne. destruct (Hoth r k Hr Hne) as [Hr1 Hb1]. destruct (Hoth2 r k Hr1 (Hfresh r k Hr Hne)) as [_ Hb2].
    split; [done|]. intros b Hb. by rewrite Hb2, Hb1.
  - apply wph_bind, wph_ret, wph_bind. destruct Hf as [Hsz Hrep]. destruct Hrep as [[E0 ->]|(k & Hobj & Hk & Hb)].
    + cbn in Hsz. assert (buf = []) as -> by (destruct buf; [done|cbn in *; lia]). cbn [put_bytes].
      apply wph_ret, wph_ret. exists h, G, []. split_and!; try done; [split; [done|by left]|]. unfold overwritten. cbn. split_and!; lia.
    + destruct (fill_file s h G (f_data f) k l buf offset (f_size f) HI Hobj Hk Hbuf Ho Hb ltac:(lia)) as (m & h2 & l' & E & HI2 & Hrep & Hov & Hoth2).
      apply wph_wp. eapply wp_of_eq; [exact E|]. apply wp_ret. exists h2, G, l'. by split_and!.
Qed.
End Files.
