(* ===== verification/Uspace.v ===== *)
(** * User address spaces as arrays of bytes

    The memory primitives of [lib/libc/elf/load.c]: mapping and remapping
    ranges of user pages, and copying bytes and words into a space that is not
    the current one, through the direct map.  [space_ok s T root fr]: the user
    half of the space [root] consists of the pages of [fr], each with a frame of
    its own; [ubyte] is the byte a user program finds at an address.  Theorems
    about the loader are proved against [ubyte]. *)

From S2P Require Import Prelude Bytes Mem Paging Heap Slab Realloc.

(** Byte [o] of the page at [p]. *)
Definition pbyte (m : gmap Z Z) (p o : Z) : Z :=
  u8 (Z.shiftr (word m p (o `div` 8)) (8 * (o `mod` 8))).

Section Code.
Context `{!Buddy}.

(** ** The code *)

(** A store of one byte, and of the bytes [l], at an address of the direct map. *)
Definition wr8 (a x : Z) : M mst unit :=
  w ← rd (a - a `mod` 8); wr (a - a `mod` 8) (set_field 1 (a `mod` 8) w x).
Fixpoint store_bytes (a : Z) (l : list Z) : M mst unit :=
  match l with
  | [] => mret tt
  | b :: l => wr8 a b ;; store_bytes (a + 1) l
  end.

Definition hhdm_write64 (pml4 uva val : Z) : M mst unit :=
  phys ← vmm_virt_to_phys pml4 uva;
  store_bytes (u64 (phys + hhdm)) (le_bytes 8 val).

(** The loop of [hhdm_copy_to_user]; [s] is what is left to copy. *)
Fixpoint copy_chunks (fuel : nat) (pml4 uva : Z) (s : list Z) : M mst unit :=
  let len := Z.of_nat (length s) in
  if len <=? 0 then mret tt else
  match fuel with
  | O => fault
  | S fuel =>
      phys ← vmm_virt_to_phys pml4 uva;
      let page_off := Z.land uva 0xFFF in
      let chunk := 0x1000 - page_off in
      let chunk := if len <? chunk then len else chunk in
      store_bytes (u64 (u64 (phys + hhdm) + page_off)) (take (Z.to_nat chunk) s) ;;
      copy_chunks fuel pml4 (u64 (uva + chunk)) (drop (Z.to_nat chunk) s)
  end.

Definition hhdm_copy_to_user (pml4 uva : Z) (src : list Z) : M mst unit :=
  copy_chunks (length src) pml4 uva src.

(** The loops of [map_user_range] and [remap_user_range]. *)
Fixpoint map_pages (fuel : nat) (pml4 page stop pte_flags : Z) : M mst unit :=
  if stop <=? page then mret tt else
  match fuel with
  | O => fault
  | S fuel =>
      p ← vmm_virt_to_phys pml4 page;
      (if p =? 0 then phys ← palloc_zero; map_page pml4 page phys pte_flags else mret tt) ;;
      map_pages fuel pml4 (u64 (page + 0x1000)) stop pte_flags
  end.

Definition map_user_range (pml4 start end_ pte_flags : Z) : M mst unit :=
  let page := page_of start in
  let stop := page_of (u64 (end_ + 0xFFF)) in
  map_pages (Z.to_nat ((stop - page) `div` 4096)) pml4 page stop pte_flags.

Fixpoint remap_pages (fuel : nat) (pml4 page stop pte_flags : Z) : M mst unit :=
  if stop <=? page then mret tt else
  match fuel with
  | O => fault
  | S fuel =>
      phys ← vmm_virt_to_phys pml4 page;
      (if nz phys then map_page pml4 page phys pte_flags else mret tt) ;;
      remap_pages fuel pml4 (u64 (page + 0x1000)) stop pte_flags
  end.

Definition remap_user_range (pml4 start end_ pte_flags : Z) : M mst unit :=
  let page := page_of start in
  let stop := page_of (u64 (end_ + 0xFFF)) in
  remap_pages (Z.to_nat ((stop - page) `div` 4096)) pml4 page stop pte_flags.
End Code.

(** ** Bytes of a page *)

Lemma pbyte_insert m p o o' x : p `mod` 8 = 0 → 0 ≤ o < 4096 → 0 ≤ o' < 4096 →
  pbyte (<[p + 8 * (o `div` 8) := set_field 1 (o `mod` 8) (word m p (o `div` 8)) x]> m) p o' =
  if decide (o' = o) then u8 x else pbyte m p o'.
Proof.
  intros Hp Ho Ho'. unfold pbyte. rewrite word_insert by (Z.div_mod_to_equations; lia).
  pose proof (Z.mod_pos_bound o 8 ltac:(lia)). pose proof (Z.mod_pos_bound o' 8 ltac:(lia)).
  case_decide as E.
  - rewrite <-E, set_field_byte by done. destruct (decide (o' = o)) as [->|Hne]; [by rewrite decide_True|].
    rewrite decide_False; [done|]. Z.div_mod_to_equations. lia.
  - rewrite decide_False; [done|]. congruence.
Qed.

Section Page.
Context `{!Buddy}.

(** What a store of [l] at offset [o] of the page [p] leaves. *)
Record stored (m m' : gmap Z Z) (p o : Z) (l : list Z) : Prop := {
  st_resident t : resident m t → resident m' t;
  st_same t : t `mod` 4096 = 0 → t ≠ p → same_page m m' t;
  st_byte o' : 0 ≤ o' < 4096 →
    pbyte m' p o' = match l !! Z.to_nat (o' - o) with
                    | Some b => if decide (o ≤ o') then u8 b else pbyte m p o'
                    | None => pbyte m p o'
                    end }.

Lemma wr8_eq s p o x : resident (mem s) p → p `mod` 4096 = 0 → 0 ≤ o < 4096 →
  wr8 (p + o) x s =
  Done tt (s <| mem := <[p + 8 * (o `div` 8) := set_field 1 (o `mod` 8) (word (mem s) p (o `div` 8)) x]> (mem s) |>).
Proof.
  intros Hr Hp Ho. unfold wr8.
  assert ((p + o) `mod` 8 = o `mod` 8 ∧ p + o - (p + o) `mod` 8 = p + 8 * (o `div` 8)) as [-> ->]
    by (Z.div_mod_to_equations; lia).
  destruct (Hr (o `div` 8)) as [w Hw]; [Z.div_mod_to_equations; lia|].
  unfold mbind, M_bind, rd, wr, word. rewrite Hw. cbn. by rewrite Hw.
Qed.

Lemma store_bytes_eq l : ∀ s p o, resident (mem s) p → p `mod` 4096 = 0 → 0 ≤ o →
  o + Z.of_nat (length l) ≤ 4096 →
  ∃ m, store_bytes (p + o) l s = Done tt (s <| mem := m |>) ∧ stored (mem s) m p o l.
Proof.
  induction l as [|b l IH]; intros s p o Hr Hp Ho Hl; cbn [store_bytes length] in *.
  - exists (mem s). split; [by destruct s|]. by split.
  - set (m1 := <[p + 8 * (o `div` 8) := set_field 1 (o `mod` 8) (word (mem s) p (o `div` 8)) b]> (mem s)).
    rewrite (bind_done _ _ _ _ _ (wr8_eq s p o b Hr Hp ltac:(lia))). fold m1.
    assert (∀ t, resident (mem s) t → resident m1 t) as Hr1 by (intros t; apply resident_insert).
    destruct (IH (s <| mem := m1 |>) p (o + 1)) as (m & E & [A1 A2 A3]); [by apply Hr1|done|lia|lia|].
    exists m. rewrite <-Z.add_assoc. rewrite E. split; [done|]. cbn in A1, A2, A3. split.
    + intros t Ht. by apply A1, Hr1.
    + intros t Ht Hne. eapply same_page_trans; [|by apply A2]. unfold m1.
      apply same_page_insert; [done|done|done|]. Z.div_mod_to_equations. lia.
    + intros o' Ho'. rewrite A3 by done. unfold m1. rewrite !pbyte_insert by (Z.div_mod_to_equations; lia).
      destruct (Z.lt_trichotomy o' o) as [Hlt|[->|Hgt]].
      * destruct (l !! _), ((b :: l) !! _); repeat case_decide; done || lia.
      * rewrite Z.sub_diag. cbn [lookup list_lookup Z.to_nat].
        destruct (l !! _); repeat case_decide; done || lia.
      * replace (Z.to_nat (o' - o)) with (S (Z.to_nat (o' - (o + 1)))) by lia. cbn [lookup list_lookup].
        destruct (l !! _); repeat case_decide; done || lia.
Qed.
End Page.

(** ** The user half of a space *)

Definition USER_END : Z := 2 ^ 47.

Section Space.
Context `{!Buddy} `{!BuddyOk}.
Implicit Types (s : mst) (T : gmap Z (Z * list Z)) (fr : gmap Z Z).

(** [fr] gives each user page its frame, by its direct-map address. *)
Record space_ok s T (root : Z) fr : Prop := {
  so_tree : ptree s T;
  so_root : is_root T root;
  so_dom v p : fr !! v = Some p → v `mod` 4096 = 0 ∧ 0 ≤ v < USER_END;
  so_frame v p : fr !! v = Some p →
    p `mod` 4096 = 0 ∧ hhdm < p ∧ p + 4096 ≤ 2 ^ 64 ∧ resident (mem s) p ∧
    ¬ page_free s p ∧ T !! p = None;
  so_inj v v' p : fr !! v = Some p → fr !! v' = Some p → v = v';
  so_trans v p o : fr !! v = Some p → 0 ≤ o < 4096 → translate s root (v + o) = VIRT_TO_PHYS p + o;
  so_none v : 0 ≤ v < USER_END → fr !! page_of v = None → translate s root v = 0;
  so_plain v : 0 ≤ v < USER_END → plain 4 (mem s) root v }.

(** The byte at user address [a]. *)
Definition ubyte s fr (a : Z) : option Z :=
  p ← fr !! page_of a; Some (pbyte (mem s) p (low12 a)).

(** What working on the space [root] leaves alone: the other spaces, the kernel
    half, and the pages that are neither free, nor tables, nor its own. *)
Record evolves (root : Z) s s' T T' fr fr' : Prop := {
  ev_sub : T ⊆ T';
  ev_fr : fr ⊆ fr';
  ev_new v p : fr !! v = None → fr' !! v = Some p → page_free s p;
  ev_table p : T !! p = None → is_Some (T' !! p) → page_free s p;
  ev_free p : page_free s' p → page_free s p;
  ev_other root' v : is_root T root' → root' ≠ root ∨ 256 ≤ PML4_IDX v →
    translate s' root' v = translate s root' v;
  ev_data p : p `mod` 4096 = 0 → T !! p = None → ¬ page_free s p → (∀ v, fr !! v ≠ Some p) →
    same_page (mem s) (mem s') p;
  ev_rest : ∃ b m, s' = s <| pmm_buddy := b |> <| mem := m |> }.

Lemma evolves_refl root s T fr : evolves root s s T T fr fr.
Proof.
  split; try done.
  - congruence.
  - intros p Hp [? ?]. congruence.
  - destruct s. by eexists _, _.
Qed.

Lemma evolves_trans root s1 s2 s3 T1 T2 T3 fr1 fr2 fr3 :
  evolves root s1 s2 T1 T2 fr1 fr2 → evolves root s2 s3 T2 T3 fr2 fr3 →
  evolves root s1 s3 T1 T3 fr1 fr3.
Proof.
  intros [A1 A2 A3 A4 A5 A6 A7 (b1 & m1 & E1)] [B1 B2 B3 B4 B5 B6 B7 (b2 & m2 & E2)]. split.
  - by etrans.
  - by etrans.
  - intros v p H1 H3. destruct (fr2 !! v) as [q|] eqn:H2; [|by eapply A5, B3].
    assert (q = p) as -> by (pose proof (lookup_weaken _ _ _ _ H2 B2); congruence). by eapply A3.
  - intros p H1 H3. destruct (T2 !! p) eqn:H2; [by apply A4; [|eexists]|]. by apply A5, B4.
  - auto.
  - intros root' v Hr Hv. rewrite B6, A6; try done. by eapply lookup_weaken.
  - intros p Ha HT Hf Hfr. eapply same_page_trans; [by apply A7|]. apply B7; [done| |auto|].
    + destruct (T2 !! p) eqn:H2; [|done]. destruct Hf. by apply A4; [|eexists].
    + intros v H2. destruct (fr1 !! v) as [q|] eqn:H1.
      * pose proof (lookup_weaken _ _ _ _ H1 A2). apply (Hfr v). congruence.
      * by apply Hf, (A3 v).
  - subst. by exists b2, m2.
Qed.

Lemma user_idx v : 0 ≤ v < USER_END → PML4_IDX v < 256.
Proof.
  intros Hv. change USER_END with 140737488355328 in Hv. unfold PML4_IDX.
  change 511 with (Z.ones 9). rewrite Z.land_ones, Z.shiftr_div_pow2 by done.
  change (2 ^ 39) with 549755813888. change (2 ^ 9) with 512. Z.div_mod_to_equations. lia.
Qed.

Lemma page_split a : a = page_of a + low12 a ∧ 0 ≤ low12 a < 4096.
Proof. rewrite low12_mod, page_of_sub. pose proof (Z.mod_pos_bound a 4096). lia. Qed.

Lemma page_of_add v o : v `mod` 4096 = 0 → 0 ≤ o < 4096 → page_of (v + o) = v ∧ low12 (v + o) = o.
Proof. intros Hv Ho. rewrite low12_mod, page_of_sub. Z.div_mod_to_equations. lia. Qed.

Lemma space_translate s T root fr a p : space_ok s T root fr → fr !! page_of a = Some p →
  translate s root a = VIRT_TO_PHYS p + low12 a ∧ 0 < VIRT_TO_PHYS p ∧
  PHYS_TO_VIRT (translate s root a) = p + low12 a.
Proof.
  intros HS Hp. destruct (page_split a) as [E Ho]. destruct (so_frame _ _ _ _ HS _ _ Hp) as (Ha & Hlo & Hhi & _).
  destruct (virt_phys_aligned p Hlo Hhi Ha) as (_ & Hpos & Ev).
  assert (translate s root a = VIRT_TO_PHYS p + low12 a) as Et by (rewrite E at 1; by apply (so_trans _ _ _ _ HS)).
  split_and!; [done|lia|]. rewrite Et, Ev. unfold PHYS_TO_VIRT. destruct hhdm_ok. rewrite wrap_small by lia. lia.
Qed.

(** *** Stores into a frame of the space *)

Lemma space_store s T root fr v p o l : space_ok s T root fr → fr !! v = Some p →
  0 ≤ o → o + Z.of_nat (length l) ≤ 4096 →
  ∃ m, store_bytes (p + o) l s = Done tt (s <| mem := m |>) ∧
    space_ok (s <| mem := m |>) T root fr ∧ evolves root s (s <| mem := m |>) T T fr fr ∧
    ∀ a, ubyte (s <| mem := m |>) fr a =
      if decide (v + o ≤ a < v + o + Z.of_nat (length l)) then u8 <$> l !! Z.to_nat (a - (v + o))
      else ubyte s fr a.
Proof.
  intros HS Hv Ho Hl. destruct (so_frame _ _ _ _ HS _ _ Hv) as (Ha & Hlo & Hhi & Hr & Hnf & HT).
  destruct (store_bytes_eq l s p o Hr Ha Ho Hl) as (m & E & [A1 A2 A3]). exists m. split; [done|].
  set (s' := s <| mem := m |>).
  assert (∀ t rl, T !! t = Some rl → same_page (mem s) m t) as Htab.
  { intros t rl Ht. apply A2; [apply (pt_page _ _ (so_tree _ _ _ _ HS) _ _ Ht)|congruence]. }
  destruct (tables_frame s s' T (so_tree _ _ _ _ HS)) as [HT' Htr].
  { apply mem_ok_mem; [apply (pt_mem _ _ (so_tree _ _ _ _ HS))|done]. }
  { done. } { done. } { done. }
  pose proof (so_root _ _ _ _ HS) as Hroot.
  split_and!.
  - split; try done.
    + apply (so_dom _ _ _ _ HS).
    + intros w q Hq. destruct (so_frame _ _ _ _ HS _ _ Hq) as (? & ? & ? & ? & ? & ?). split_and!; auto.
    + apply (so_inj _ _ _ _ HS).
    + intros w q k Hq Hk. rewrite (proj1 (Htr root (w + k) Hroot)). by apply (so_trans _ _ _ _ HS).
    + intros w Hw Hn. rewrite (proj1 (Htr root w Hroot)). by apply (so_none _ _ _ _ HS).
    + intros w Hw. apply (Htr root w Hroot). by apply (so_plain _ _ _ _ HS).
  - split; try done.
    + congruence.
    + intros q Hq [? ?]. congruence.
    + intros root' w Hr' _. by apply Htr.
    + intros q Hqa _ _ Hq. apply A2; [done|]. intros ->. by apply (Hq v).
    + by exists (pmm_buddy s), m; destruct s.
  - intros a. unfold ubyte. destruct (page_split a) as [Ea Hoa]. destruct (so_dom _ _ _ _ HS _ _ Hv) as [Hva _].
    destruct (decide (page_of a = v)) as [Epa|Hne].
    + rewrite Epa, Hv. cbn. rewrite A3 by done. replace (low12 a - o) with (a - (v + o)) by lia.
      destruct (decide (v + o ≤ a < v + o + Z.of_nat (length l))) as [Hin|Hout].
      * destruct (l !! Z.to_nat (a - (v + o))) as [b|] eqn:Eb; [by rewrite decide_True by lia|].
        apply lookup_ge_None in Eb. lia.
      * destruct (l !! Z.to_nat (a - (v + o))) as [b|] eqn:Eb; [|done]. apply lookup_lt_Some in Eb.
        by rewrite decide_False by lia.
    + rewrite decide_False. 2: { intros Hin. destruct (page_of_add v (a - v) Hva ltac:(lia)) as [Hpg _].
        replace (v + (a - v)) with a in Hpg by lia. done. }
      destruct (fr !! page_of a) as [q|] eqn:Hq; [|done]. cbn. f_equal. unfold pbyte. f_equal. f_equal.
      apply same_page_word; [|Z.div_mod_to_equations; lia].
      apply A2; [apply (so_frame _ _ _ _ HS _ _ Hq)|]. intros ->. by apply Hne, (so_inj _ _ _ _ HS _ _ p).
Qed.
(** *** A new page *)

Lemma space_got s s1 T root fr p : space_ok s T root fr → got_page s p s1 → mem_ok s1 →
  space_ok s1 T root fr ∧ evolves root s s1 T T fr fr ∧
  (∀ a, ubyte s1 fr a = ubyte s fr a) ∧
  ¬ page_free s1 p ∧ T !! p = None ∧ ∀ v, fr !! v ≠ Some p.
Proof.
  intros HS HG Hm1. pose proof (so_tree _ _ _ _ HS) as HT. pose proof (so_root _ _ _ _ HS) as Hroot.
  assert (∀ q, page_free s1 q → page_free s q) as Hfree by (by intros q [? _]%(gp_left _ _ _ HG)).
  destruct (tables_frame s s1 T HT Hm1) as [HT1 Htr]; [apply (gp_resident _ _ _ HG)|done| |].
  { intros t rl Ht. destruct (pt_page _ _ HT t rl Ht) as (? & _ & _ & _ & Hnf).
    apply (gp_same _ _ _ HG); [done|]. intros ->. by apply Hnf, (gp_free _ _ _ HG). }
  assert (∀ v, fr !! v ≠ Some p) as Hp.
  { intros v Hv. by apply (so_frame _ _ _ _ HS _ _ Hv), (gp_free _ _ _ HG). }
  split_and!; [| | | | |done].
  - split; try done.
    + apply (so_dom _ _ _ _ HS).
    + intros w q Hq. destruct (so_frame _ _ _ _ HS _ _ Hq) as (? & ? & ? & ? & ? & ?).
      split_and!; auto. by apply (gp_resident _ _ _ HG).
    + apply (so_inj _ _ _ _ HS).
    + intros w q k Hq Hk. rewrite (proj1 (Htr root (w + k) Hroot)). by apply (so_trans _ _ _ _ HS).
    + intros w Hw Hn. rewrite (proj1 (Htr root w Hroot)). by apply (so_none _ _ _ _ HS).
    + intros w Hw. apply (Htr root w Hroot). by apply (so_plain _ _ _ _ HS).
  - split; try done.
    + congruence.
    + intros q Hq [? ?]. congruence.
    + intros root' w Hr' _. by apply Htr.
    + intros q Hqa _ Hf _. apply (gp_same _ _ _ HG); [done|]. intros ->. by apply Hf, (gp_free _ _ _ HG).
    + destruct (gp_rest _ _ _ HG) as (b & m & E). by exists (Some b), m.
  - intros a. unfold ubyte. destruct (fr !! page_of a) as [q|] eqn:Hq; [|done]. cbn. f_equal. unfold pbyte.
    destruct (page_split a) as [_ Ho]. do 2 f_equal. apply same_page_word; [|Z.div_mod_to_equations; lia].
    apply (gp_same _ _ _ HG); [apply (so_frame _ _ _ _ HS _ _ Hq)|]. intros ->. by apply (Hp (page_of a)).
  - by intros [_ ?]%(gp_left _ _ _ HG).
  - destruct (T !! p) as [rl|] eqn:E; [|done]. exfalso.
    by apply (pt_page _ _ HT p _ E), (gp_free _ _ _ HG).
Qed.

(** The page [v] gets the frame [p], new or the one it has. *)
Section Mapped.
Context (root v p : Z) (s0 s1 s2 : mst) (T T' : gmap Z (Z * list Z)) (fr : gmap Z Z).
Context (Hv : v `mod` 4096 = 0 ∧ 0 ≤ v < USER_END) (HS : space_ok s1 T root fr).
Context (Hp : p `mod` 4096 = 0 ∧ hhdm < p ∧ p + 4096 ≤ 2 ^ 64 ∧ resident (mem s1) p ∧
  ¬ page_free s1 p ∧ T !! p = None) (Hpfr : ∀ w, fr !! w = Some p → w = v).
Context (HR : remapped 1 s1 s2 T T' root v) (Htr : ∀ w, page_of w = page_of v →
  translate s2 root w = u64 (page_of (VIRT_TO_PHYS p) + low12 w) ∧ plain 4 (mem s2) root w).
Context (HE : evolves root s0 s1 T T fr fr) (Hnew : fr !! v = Some p ∨ fr !! v = None ∧ page_free s0 p).

Lemma mapped_other w : page_of w ≠ v → 0 ≤ w < USER_END →
  translate s2 root w = translate s1 root w ∧ plain 4 (mem s2) root w.
Proof.
  intros Hne Hw. destruct (rm_other _ _ _ _ _ _ _ HR root w (so_root _ _ _ _ HS)) as [E1 E2].
  - apply pages_apart; [rewrite (page_of_id v) by apply Hv; by apply not_eq_sym|].
    unfold USER_END in *. lia.
  - split; [done|]. by apply E2, (so_plain _ _ _ _ HS).
Qed.

Lemma mapped_page q : q `mod` 4096 = 0 → T !! q = None → ¬ page_free s1 q →
  T' !! q = None ∧ ¬ page_free s2 q ∧ same_page (mem s1) (mem s2) q.
Proof.
  intros Ha Hq Hf. split_and!; [|by intros ?%(rm_free _ _ _ _ _ _ _ HR)|by apply (rm_data _ _ _ _ _ _ _ HR)].
  destruct (T' !! q) eqn:E; [|done]. exfalso.
  by apply Hf, (rm_new _ _ _ _ _ _ _ HR q Hq); eexists.
Qed.

Lemma mapped_evolves : evolves root s0 s2 T T' fr (<[v := p]> fr).
Proof.
  destruct HE as [_ _ _ _ A5 A6 A7 (b1 & m1 & E1)]. split.
  - apply (rm_sub _ _ _ _ _ _ _ HR).
  - apply map_subseteq_spec. intros w q Hq. rewrite lookup_insert. case_decide; [|done]. subst w.
    destruct Hnew as [Hn|[Hn _]]; congruence.
  - intros w q Hw. rewrite lookup_insert. case_decide; [|congruence]. intros [= <-]. subst w.
    by destruct Hnew as [Hn|[_ Hn]]; [congruence|].
  - intros q Hq HqT. by apply A5, (rm_new _ _ _ _ _ _ _ HR).
  - intros q Hq. by apply A5, (rm_free _ _ _ _ _ _ _ HR).
  - intros root' w Hr' Hw. rewrite <-(A6 root' w Hr' Hw). apply (rm_other _ _ _ _ _ _ _ HR); [done|].
    destruct Hw as [Hw|Hw]; [right; split; [done|]; apply user_idx, Hv|left].
    exists 4%nat. split; [lia|]. pose proof (user_idx v (proj2 Hv)). cbn. lia.
  - intros q Hqa HqT Hqf Hq. eapply same_page_trans; [by apply A7|].
    apply (rm_data _ _ _ _ _ _ _ HR); [done|done|]. by intros ?%A5.
  - destruct (rm_rest _ _ _ _ _ _ _ HR) as (b2 & m2 & ->). subst. by exists b2, m2.
Qed.

Lemma mapped_ok : space_ok s2 T' root (<[v := p]> fr).
Proof.
  split.
  - apply (rm_tree _ _ _ _ _ _ _ HR).
  - eapply lookup_weaken; [apply (so_root _ _ _ _ HS)|apply (rm_sub _ _ _ _ _ _ _ HR)].
  - intros w q. rewrite lookup_insert. case_decide; [intros _; by subst w|apply (so_dom _ _ _ _ HS)].
  - intros w q. rewrite lookup_insert. case_decide.
    + intros [= <-]. destruct Hp as (? & ? & ? & ? & ? & ?).
      destruct (mapped_page p) as (? & ? & Hs); [done..|]. split_and!; try done. by eapply same_page_resident.
    + intros Hq. destruct (so_frame _ _ _ _ HS _ _ Hq) as (? & ? & ? & ? & ? & ?).
      destruct (mapped_page q) as (? & ? & Hs); [done..|]. split_and!; try done. by eapply same_page_resident.
  - intros w w' q. rewrite !lookup_insert. repeat case_decide; intros Hq Hq'; subst; simplify_eq; try done.
    + symmetry. by apply Hpfr.
    + by apply Hpfr.
    + by apply (so_inj _ _ _ _ HS _ _ q).
  - intros w q o. rewrite lookup_insert. case_decide as E.
    + intros [= <-] Ho. subst w. destruct (page_of_add v o (proj1 Hv) Ho) as [Epg Elo].
      rewrite (proj1 (Htr (v + o) ltac:(rewrite (page_of_id v) by apply Hv; done))), Elo.
      destruct Hp as (Ha & Hlo & Hhi & _). destruct (virt_phys_aligned p Hlo Hhi Ha) as (Hpa & Hpos & Ev).
      rewrite page_of_id by done. apply wrap_small. destruct hhdm_ok. lia.
    + intros Hq Ho. destruct (so_dom _ _ _ _ HS _ _ Hq) as [Hwa Hwr].
      destruct (page_of_add w o Hwa Ho) as [Epg _].
      rewrite (proj1 (mapped_other (w + o) ltac:(congruence) ltac:(unfold USER_END in *; Z.div_mod_to_equations; lia))).
      by apply (so_trans _ _ _ _ HS).
  - intros w Hw. rewrite lookup_insert. case_decide as E; [done|]. intros Hn.
    rewrite (proj1 (mapped_other w (not_eq_sym E) Hw)). by apply (so_none _ _ _ _ HS).
  - intros w Hw. destruct (decide (page_of w = v)) as [E|E]; [|by apply mapped_other].
    apply Htr. by rewrite (page_of_id v) by apply Hv.
Qed.

Lemma mapped_bytes a : ubyte s2 (<[v := p]> fr) a =
  if decide (page_of a = v) then Some (pbyte (mem s1) p (low12 a)) else ubyte s1 fr a.
Proof.
  destruct (page_split a) as [_ Ho]. unfold ubyte. rewrite lookup_insert.
  destruct (decide (v = page_of a)) as [E|E].
  - rewrite decide_True by done. cbn. destruct Hp as (? & _ & _ & _ & ? & ?).
    destruct (mapped_page p) as (_ & _ & Hs); [done..|]. unfold pbyte. do 3 f_equal.
    apply same_page_word; [done|]. Z.div_mod_to_equations. lia.
  - rewrite decide_False by congruence. destruct (fr !! page_of a) as [q|] eqn:Hq; [|done]. cbn.
    destruct (so_frame _ _ _ _ HS _ _ Hq) as (? & _ & _ & _ & ? & ?).
    destruct (mapped_page q) as (_ & _ & Hs); [done..|]. unfold pbyte. do 3 f_equal.
    apply same_page_word; [done|]. Z.div_mod_to_equations. lia.
Qed.

Lemma mapped_all : space_ok s2 T' root (<[v := p]> fr) ∧ evolves root s0 s2 T T' fr (<[v := p]> fr) ∧
  ∀ a, ubyte s2 (<[v := p]> fr) a =
    if decide (page_of a = v) then Some (pbyte (mem s1) p (low12 a)) else ubyte s1 fr a.
Proof. split_and!; [apply mapped_ok|apply mapped_evolves|apply mapped_bytes]. Qed.
End Mapped.
(** ** What the primitives do to the bytes

    [fill]: the addresses without a byte in the range get zeros.  [poke]: the
    bytes [l] replace what is at [a] and after it. *)
Definition fill (V : Z → option Z) (lo hi : Z) : Z → option Z := λ a,
  match V a with Some b => Some b | None => if decide (lo ≤ a < hi) then Some 0 else None end.
Definition poke (V : Z → option Z) (at_ : Z) (l : list Z) : Z → option Z := λ a,
  if decide (at_ ≤ a < at_ + Z.of_nat (length l)) then l !! Z.to_nat (a - at_) else V a.

(** The space [root] of state [s] has become one with the bytes [V]. *)
Definition becomes (root : Z) s T fr (V : Z → option Z) s' : Prop :=
  ∃ T' fr', space_ok s' T' root fr' ∧ evolves root s s' T T' fr fr' ∧ ∀ a, ubyte s' fr' a = V a.

(** The flags that reach the entry are bits of its low part. *)
Definition flags_ok s (flags : Z) : Prop := 0 ≤ final_flags (nx_supported s) flags < 4096.

Lemma evolves_flags root s s' T T' fr fr' flags : evolves root s s' T T' fr fr' →
  flags_ok s flags → flags_ok s' flags.
Proof. intros HE. unfold flags_ok. by destruct (ev_rest _ _ _ _ _ _ _ HE) as (? & ? & ->). Qed.

Lemma becomes_refl root s T fr V : space_ok s T root fr → (∀ a, V a = ubyte s fr a) →
  becomes root s T fr V s.
Proof. intros HS HV. exists T, fr. split_and!; [done|apply evolves_refl|done]. Qed.

Lemma becomes_trans root s T fr s1 T1 fr1 V s2 : evolves root s s1 T T1 fr fr1 →
  becomes root s1 T1 fr1 V s2 → becomes root s T fr V s2.
Proof. intros HE (T2 & fr2 & HS & HE2 & HV). exists T2, fr2. split_and!; [done|by eapply evolves_trans|done]. Qed.

Lemma becomes_ext root s T fr V V' s' : becomes root s T fr V s' → (∀ a, V a = V' a) →
  becomes root s T fr V' s'.
Proof. intros (T' & fr' & ? & ? & HV) E. exists T', fr'. split_and!; [done..|]. intros a. by rewrite HV. Qed.

Lemma map_new s T root fr v flags : space_ok s T root fr → v `mod` 4096 = 0 → 0 ≤ v < USER_END →
  fr !! v = None → flags_ok s flags →
  wph out_of_memory (phys ← palloc_zero; map_page root v phys flags)
    (λ _ s', becomes root s T fr (λ a, if decide (page_of a = v) then Some 0 else ubyte s fr a) s') s.
Proof.
  intros HS Hva Hvr Hv Hfl. apply wph_bind.
  eapply wph_mono; [apply palloc_zero_spec, (pt_mem _ _ (so_tree _ _ _ _ HS))|].
  intros phys s1 (p & -> & _ & HG & Hm1).
  destruct (space_got _ _ _ _ _ _ HS HG Hm1) as (HS1 & HE1 & HV1 & Hnf & HTp & Hp).
  eapply wph_mono; [apply (map_page_flags s1 T)|].
  { apply (so_tree _ _ _ _ HS1). } { apply (so_root _ _ _ _ HS1). } { by apply (so_plain _ _ _ _ HS1). }
  { by eapply evolves_flags in Hfl. }
  intros [] s2 [(T' & HR) Htr].
  assert (p `mod` 4096 = 0 ∧ hhdm < p ∧ p + 4096 ≤ 2 ^ 64 ∧ resident (mem s1) p ∧ ¬ page_free s1 p ∧ T !! p = None) as Hpok.
  { pose proof (gp_range _ _ _ HG). split_and!; try done; try lia; [apply (gp_align _ _ _ HG)|apply (gp_page _ _ _ HG)]. }
  assert (∀ w, fr !! w = Some p → w = v) as Hpfr by (intros w Hw; by destruct (Hp w)).
  destruct (mapped_all root v p s s1 s2 T T' fr) as (HS2 & HE2 & HV2); try done.
  { right. split; [done|apply (gp_free _ _ _ HG)]. }
  exists T', (<[v := p]> fr). split_and!; [done..|]. intros a. rewrite HV2. case_decide; [|done]. f_equal.
  destruct (page_split a) as [_ Ho]. unfold pbyte. rewrite (gp_zero _ _ _ HG) by (Z.div_mod_to_equations; lia).
  by rewrite Z.shiftr_0_l.
Qed.

Lemma map_old s T root fr v p flags : space_ok s T root fr → fr !! v = Some p → flags_ok s flags →
  wph out_of_memory (map_page root v (translate s root v) flags)
    (λ _ s', becomes root s T fr (ubyte s fr) s') s.
Proof.
  intros HS Hv Hfl. destruct (so_dom _ _ _ _ HS _ _ Hv) as [Hva Hvr].
  pose proof (so_frame _ _ _ _ HS _ _ Hv) as Hp.
  eapply wph_mono; [apply (map_page_flags s T)|].
  { apply (so_tree _ _ _ _ HS). } { apply (so_root _ _ _ _ HS). } { by apply (so_plain _ _ _ _ HS). } { done. }
  intros [] s2 [(T' & HR) Htr]. 
  pose proof (so_trans _ _ _ _ HS v p 0 Hv ltac:(lia)) as Et. rewrite !Z.add_0_r in Et. rewrite Et in Htr.
  assert (∀ w, fr !! w = Some p → w = v) as Hpfr by (intros w Hw; by apply (so_inj _ _ _ _ HS _ _ p)).
  destruct (mapped_all root v p s s s2 T T' fr) as (HS2 & HE2 & HV2); try done; [apply evolves_refl|by left|].
  exists T', (<[v := p]> fr). split_and!; [done..|]. intros a. rewrite HV2. case_decide as E; [|done].
  unfold ubyte. by rewrite E, Hv.
Qed.

Lemma virt_to_phys_frame s T root fr v : space_ok s T root fr → v `mod` 4096 = 0 → 0 ≤ v < USER_END →
  vmm_virt_to_phys root v s = Done (translate s root v) s ∧
  match fr !! v with Some p => translate s root v ≠ 0 | None => translate s root v = 0 end.
Proof.
  intros HS Hva Hvr. split; [by eapply vmm_virt_to_phys_eq; [apply (so_tree _ _ _ _ HS)|apply (so_root _ _ _ _ HS)]|].
  destruct (fr !! v) as [p|] eqn:Hv; [|apply (so_none _ _ _ _ HS); [done|by rewrite page_of_id]].
  destruct (space_translate s T root fr v p HS) as (E & Hpos & _); [by rewrite page_of_id|].
  pose proof (low12_range v). lia.
Qed.

Lemma map_pages_spec fuel : ∀ s T root fr page stop flags, space_ok s T root fr →
  page `mod` 4096 = 0 → stop `mod` 4096 = 0 → 0 ≤ page → stop ≤ USER_END → flags_ok s flags →
  stop ≤ page + 4096 * Z.of_nat fuel →
  wph out_of_memory (map_pages fuel root page stop flags)
    (λ _ s', becomes root s T fr (fill (ubyte s fr) page stop) s') s.
Proof.
  induction fuel as [|fuel IH]; intros s T root fr page stop flags HS Hpa Hsa Hp Hst Hfl Hfu; cbn [map_pages];
    (destruct (Z.leb_spec stop page) as [Hle|Hlt];
      [apply wph_ret, becomes_refl; [done|]; intros a; unfold fill; destruct (ubyte s fr a); [done|];
       by rewrite decide_False by lia|]); [lia|].
  assert (u64 (page + 0x1000) = page + 4096) as -> by (apply wrap_small; unfold USER_END in *; lia).
  assert (page + 4096 ≤ stop) as Hnx by (Z.div_mod_to_equations; lia).
  destruct (virt_to_phys_frame s T root fr page HS Hpa ltac:(lia)) as [Ev Hfr].
  apply wph_bind. unfold wph. rewrite Ev. 
  destruct (fr !! page) as [p|] eqn:Hpg.
  - rewrite (proj2 (Z.eqb_neq _ _) Hfr). change (mret tt ;; ?c) with c. 
    eapply wph_mono; [apply (IH s T root fr); try done; [Z.div_mod_to_equations; lia|lia|lia]|].
    intros [] s' HB. eapply becomes_ext; [exact HB|]. intros a. unfold fill.
    destruct (ubyte s fr a) eqn:Ea; [done|]. destruct (decide (page ≤ a < page + 4096)).
    + exfalso. unfold ubyte in Ea. destruct (page_of_add page (a - page) Hpa ltac:(lia)) as [E _].
      replace (page + (a - page)) with a in E by lia. by rewrite E, Hpg in Ea.
    + repeat case_decide; done || lia.
  - rewrite Hfr. cbn [Z.eqb]. apply wph_bind.
    eapply wph_mono; [apply (map_new s T root fr page flags); done || lia|].
    intros [] s1 (T1 & fr1 & HS1 & HE1 & HV1).
    eapply wph_mono; [apply (IH s1 T1 root fr1); try done;
      [Z.div_mod_to_equations; lia|lia|by eapply evolves_flags|lia]|].
    intros [] s' HB. eapply becomes_ext; [by eapply becomes_trans|]. intros a. unfold fill. rewrite HV1.
    assert (page_of a = page ↔ page ≤ a < page + 4096) as Hin
      by (rewrite page_of_sub; Z.div_mod_to_equations; lia).
    case_decide as E.
    + unfold ubyte. rewrite E, Hpg. cbn. rewrite decide_True by lia. done.
    + destruct (ubyte s fr a); [done|]. repeat case_decide; done || lia.
Qed.
Lemma map_user_range_spec s T root fr start end_ flags : space_ok s T root fr →
  0 ≤ start → 0 ≤ end_ ≤ USER_END → flags_ok s flags →
  wph out_of_memory (map_user_range root start end_ flags)
    (λ _ s', becomes root s T fr (fill (ubyte s fr) (page_of start) (page_of (end_ + 4095))) s') s.
Proof.
  intros HS Hs He Hfl. unfold map_user_range. change 0xFFF with 4095.
  rewrite wrap_small by (unfold USER_END in *; lia).
  pose proof (page_of_aligned start). pose proof (page_of_aligned (end_ + 4095)).
  pose proof (page_of_le start). pose proof (page_of_le (end_ + 4095)).
  apply map_pages_spec; try done.
  - rewrite page_of_sub in *. Z.div_mod_to_equations. lia.
  - change USER_END with (34359738368 * 4096) in *. rewrite page_of_sub in *. Z.div_mod_to_equations. lia.
  - Z.div_mod_to_equations. lia.
Qed.

(** The permissions of the pages of a range change, the bytes do not. *)
Lemma remap_pages_spec fuel : ∀ s T root fr page stop flags, space_ok s T root fr →
  page `mod` 4096 = 0 → 0 ≤ page → stop ≤ USER_END → flags_ok s flags →
  stop ≤ page + 4096 * Z.of_nat fuel →
  wph out_of_memory (remap_pages fuel root page stop flags)
    (λ _ s', becomes root s T fr (ubyte s fr) s') s.
Proof.
  induction fuel as [|fuel IH]; intros s T root fr page stop flags HS Hpa Hp Hst Hfl Hfu; cbn [remap_pages];
    (destruct (Z.leb_spec stop page) as [Hle|Hlt]; [by apply wph_ret, becomes_refl|]); [lia|].
  assert (u64 (page + 0x1000) = page + 4096) as -> by (apply wrap_small; unfold USER_END in *; lia).
  destruct (virt_to_phys_frame s T root fr page HS Hpa ltac:(lia)) as [Ev Hfr].
  apply wph_bind. unfold wph. rewrite Ev. unfold nz. destruct (fr !! page) as [p|] eqn:Hpg.
  - rewrite (proj2 (Z.eqb_neq _ _) Hfr). cbn [negb]. apply wph_bind.
    eapply wph_mono; [by apply (map_old s T root fr page p flags)|].
    intros [] s1 (T1 & fr1 & HS1 & HE1 & HV1).
    eapply wph_mono; [apply (IH s1 T1 root fr1); try done;
      [Z.div_mod_to_equations; lia|lia|by eapply evolves_flags|lia]|].
    intros [] s' HB. eapply becomes_ext; [by eapply becomes_trans|]. done.
  - rewrite Hfr. cbn [Z.eqb negb]. change (mret tt ;; ?c) with c.
    apply (IH s T root fr); try done; [Z.div_mod_to_equations; lia|lia|lia].
Qed.

Lemma remap_user_range_spec s T root fr start end_ flags : space_ok s T root fr →
  0 ≤ start → 0 ≤ end_ ≤ USER_END → flags_ok s flags →
  wph out_of_memory (remap_user_range root start end_ flags) (λ _ s', becomes root s T fr (ubyte s fr) s') s.
Proof.
  intros HS Hs He Hfl. unfold remap_user_range. change 0xFFF with 4095.
  rewrite wrap_small by (unfold USER_END in *; lia).
  pose proof (page_of_aligned start). pose proof (page_of_aligned (end_ + 4095)).
  pose proof (page_of_le start). pose proof (page_of_le (end_ + 4095)).
  apply remap_pages_spec; try done.
  - rewrite page_of_sub in *. Z.div_mod_to_equations. lia.
  - change USER_END with (34359738368 * 4096) in *. rewrite page_of_sub in *. Z.div_mod_to_equations. lia.
  - Z.div_mod_to_equations. lia.
Qed.

(** *** Copies and words *)

(** A store at the frame of a mapped address, by its offset in the page. *)
Lemma poke_frame s T root fr a p l : space_ok s T root fr → fr !! page_of a = Some p →
  low12 a + Z.of_nat (length l) ≤ 4096 → bytes l →
  wp (store_bytes (p + low12 a) l) (λ _ s', space_ok s' T root fr ∧ evolves root s s' T T fr fr ∧
    ∀ b, ubyte s' fr b = poke (ubyte s fr) a l b) s.
Proof.
  intros HS Hp Hl Hb. destruct (page_split a) as [Ea Ho].
  destruct (space_store s T root fr (page_of a) p (low12 a) l HS Hp) as (m & E & HS' & HE & HV); [lia|lia|].
  eapply wp_of_eq; [exact E|]. split_and!; [done..|]. intros b. rewrite HV, <-Ea. unfold poke.
  case_decide; [|done]. destruct (l !! _) as [x|] eqn:Ex; [|done]. cbn. f_equal. apply u8_byte.
  by eapply Forall_lookup_1.
Qed.

Lemma hhdm_write64_spec s T root fr a p x : space_ok s T root fr → fr !! page_of a = Some p → low12 a ≤ 4088 →
  wp (hhdm_write64 root a x) (λ _ s', space_ok s' T root fr ∧ evolves root s s' T T fr fr ∧
    ∀ b, ubyte s' fr b = poke (ubyte s fr) a (le_bytes 8 x) b) s.
Proof.
  intros HS Hp Hl. destruct (space_translate s T root fr a p HS Hp) as (_ & _ & E).
  unfold hhdm_write64. apply wp_bind.
  eapply wp_of_eq; [eapply vmm_virt_to_phys_eq; [apply (so_tree _ _ _ _ HS)|apply (so_root _ _ _ _ HS)]|].
  change (u64 (?x + hhdm)) with (PHYS_TO_VIRT x). rewrite E. apply poke_frame; try done.
  - rewrite length_le_bytes. lia.
  - apply bytes_le_bytes.
Qed.

(** A copy that stays inside a page of the space writes at twice the offset of
    its address. *)
Lemma copy_page_eq s T root fr a p l : space_ok s T root fr → fr !! page_of a = Some p → l ≠ [] →
  low12 a + Z.of_nat (length l) ≤ 4096 →
  hhdm_copy_to_user root a l s = store_bytes (u64 (p + 2 * low12 a)) l s.
Proof.
  intros HS Hp Hne Hl. destruct (space_translate s T root fr a p HS Hp) as (_ & _ & E). pose proof (low12_range a).
  unfold hhdm_copy_to_user. assert (0 < Z.of_nat (length l)) by (destruct l; [done|cbn; lia]).
  destruct (length l) as [|n] eqn:El; [lia|]. cbn [copy_chunks]. rewrite El.
  rewrite (proj2 (Z.leb_gt _ _)) by lia. rewrite (bind_done _ _ _ _ _
    (vmm_virt_to_phys_eq _ T _ _ (so_tree _ _ _ _ HS) (so_root _ _ _ _ HS))).
  change (u64 (translate s root a + hhdm)) with (PHYS_TO_VIRT (translate s root a)). rewrite E.
  change (Z.land a 0xFFF) with (low12 a). replace (p + low12 a + low12 a) with (p + 2 * low12 a) by lia.
  replace (if _ <? _ then _ else _) with (Z.of_nat (length l)) by (rewrite El; destruct (Z.ltb_spec (Z.of_nat (S n)) (0x1000 - low12 a)); lia).
  rewrite Nat2Z.id, take_ge, drop_ge by lia. destruct (store_bytes _ l s) as [[] s1| |] eqn:Es.
  - rewrite (bind_done _ _ _ _ _ Es). by destruct n.
  - unfold mbind, M_bind. by rewrite Es.
  - unfold mbind, M_bind. by rewrite Es.
Qed.

Lemma copy_chunks_spec fuel : ∀ s T root fr a l, space_ok s T root fr → a `mod` 4096 = 0 → 0 ≤ a →
  a + Z.of_nat (length l) ≤ USER_END → bytes l → (length l ≤ fuel)%nat →
  (∀ b, a ≤ b < a + Z.of_nat (length l) → is_Some (ubyte s fr b)) →
  wp (copy_chunks fuel root a l) (λ _ s', space_ok s' T root fr ∧ evolves root s s' T T fr fr ∧
    ∀ b, ubyte s' fr b = poke (ubyte s fr) a l b) s.
Proof.
  induction fuel as [|fuel IH]; intros s T root fr a l HS Haa Ha Hend Hb Hfu Hmap; cbn [copy_chunks];
    (destruct (Z.leb_spec (Z.of_nat (length l)) 0) as [Hle|Hlt];
      [apply wp_ret; split_and!; [done|apply evolves_refl|]; intros b; unfold poke; by rewrite decide_False by lia|]);
    [lia|].
  assert (low12 a = 0 ∧ page_of a = a) as [El Epg] by (by rewrite low12_mod, page_of_id).
  destruct (Hmap a ltac:(lia)) as [x Hx]. unfold ubyte in Hx. apply bind_Some in Hx as (p & Hp & _).
  destruct (space_translate s T root fr a p HS Hp) as (_ & _ & E).
  apply wp_bind. eapply wp_of_eq; [eapply vmm_virt_to_phys_eq; [apply (so_tree _ _ _ _ HS)|apply (so_root _ _ _ _ HS)]|].
  change (u64 (translate s root a + hhdm)) with (PHYS_TO_VIRT (translate s root a)). rewrite E.
  change (Z.land a 0xFFF) with (low12 a). rewrite El, !Z.add_0_r, Z.sub_0_r.
  destruct (so_frame _ _ _ _ HS _ _ Hp) as (_ & ? & ? & _). destruct hhdm_ok as [? _].
  rewrite (wrap_small 64 p) by lia. set (c := if _ <? _ then _ else _).
  assert (c = Z.min (Z.of_nat (length l)) 4096) as Hc by (unfold c; destruct (Z.ltb_spec (Z.of_nat (length l)) 0x1000); lia).
  rewrite wrap_small by (unfold USER_END in *; lia). apply wp_bind.
  assert (length (take (Z.to_nat c) l) = Z.to_nat c) as Htk by (rewrite length_take; lia).
  pose proof (poke_frame s T root fr a p (take (Z.to_nat c) l) HS Hp) as Hpk. rewrite El, Z.add_0_r in Hpk.
  eapply wp_mono; [apply Hpk; [lia|by apply Forall_take]|]. intros [] s1 (HS1 & HE1 & HV1).
  destruct (decide (Z.of_nat (length l) ≤ 4096)) as [Hsm|Hbig].
  - rewrite (drop_ge l), (take_ge l) in * by lia. destruct fuel; cbn [copy_chunks length];
      (apply wp_ret; split_and!; done).
  - eapply wp_mono; [apply (IH s1 T root fr); try done|].
    + replace c with 4096 by lia. Z.div_mod_to_equations. lia.
    + lia.
    + rewrite length_drop. lia.
    + by apply Forall_drop.
    + rewrite length_drop. lia.
    + intros b. rewrite length_drop. intros Hr. rewrite HV1. unfold poke. rewrite decide_False by lia. apply Hmap. lia.
    + intros [] s2 (HS2 & HE2 & HV2). split_and!; [done|by eapply evolves_trans|]. intros b. rewrite HV2. unfold poke.
      rewrite HV1. unfold poke. rewrite length_drop, Htk, lookup_drop. repeat case_decide; try lia; try done.
      * f_equal. lia.
      * rewrite lookup_take_lt by lia. done.
Qed.

Lemma hhdm_copy_spec s T root fr a l : space_ok s T root fr → a `mod` 4096 = 0 → 0 ≤ a →
  a + Z.of_nat (length l) ≤ USER_END → bytes l →
  (∀ b, a ≤ b < a + Z.of_nat (length l) → is_Some (ubyte s fr b)) →
  wp (hhdm_copy_to_user root a l) (λ _ s', space_ok s' T root fr ∧ evolves root s s' T T fr fr ∧
    ∀ b, ubyte s' fr b = poke (ubyte s fr) a l b) s.
Proof. intros. by apply copy_chunks_spec. Qed.

(** The loops that map [n] new pages from [base] on. *)
Lemma map_fresh n s T root fr base flags (at_ : Z → Z) : space_ok s T root fr → base `mod` 4096 = 0 → 0 ≤ base →
  base + 4096 * Z.of_nat n ≤ USER_END → flags_ok s flags →
  (∀ k, 0 ≤ k < Z.of_nat n → at_ k = base + 4096 * k) →
  (∀ b, base ≤ b < base + 4096 * Z.of_nat n → ubyte s fr b = None) →
  wph out_of_memory (for_all n 0 (λ k, phys ← palloc_zero; map_page root (at_ k) phys flags))
    (λ _ s', becomes root s T fr (fill (ubyte s fr) base (base + 4096 * Z.of_nat n)) s') s.
Proof.
  intros HS Hba Hb Hend Hfl Hat Hno.
  eapply wph_mono; [apply (wph_for_all _ n 0 _ (λ k s', becomes root s T fr (fill (ubyte s fr) base (base + 4096 * k)) s'))|].
  - intros k s1 Hk (T1 & fr1 & HS1 & HE1 & HV1). rewrite Hat by lia.
    eapply wph_mono; [apply (map_new s1 T1 root fr1); try done|].
    + Z.div_mod_to_equations. lia.
    + unfold USER_END in *. lia.
    + assert (ubyte s1 fr1 (base + 4096 * k) = None) as Hu.
      { rewrite HV1. unfold fill. rewrite Hno by lia. by rewrite decide_False by lia. }
      unfold ubyte in Hu. rewrite page_of_id in Hu by (Z.div_mod_to_equations; lia).
      by destruct (fr1 !! _).
    + by eapply evolves_flags.
    + intros [] s2 HB. eapply becomes_ext; [by eapply becomes_trans|]. intros a. cbn beta. rewrite HV1. unfold fill.
      assert (page_of a = base + 4096 * k ↔ base + 4096 * k ≤ a < base + 4096 * k + 4096) as Hin
        by (rewrite page_of_sub; Z.div_mod_to_equations; lia).
      case_decide as E.
      * rewrite Hno, decide_True by lia. done.
      * destruct (ubyte s fr a); [done|]. repeat case_decide; done || lia.
  - apply becomes_refl; [done|]. intros a. unfold fill. destruct (ubyte s fr a); [done|]. by rewrite decide_False by lia.
  - intros [] s' HB. done.
Qed.
End Space.
