(* ===== verification/Elf.v ===== *)
(** * The program loader

    Models [lib/libc/elf/load.c]: validation, program segments, thread-local
    storage, the initial stack and the process fields.  The image is a list of
    bytes; a field that lies outside it cannot be read.  Strings are lists of
    bytes without the final zero.  The static [seed] of [push_random_bytes] is
    passed along. *)

From S2P Require Import Prelude Bytes Proc Mem Paging Heap Slab Realloc Uspace.

(** ** [elf.h] *)

Definition PT_LOAD : Z := 1.
Definition PT_INTERP : Z := 3.
Definition PT_TLS : Z := 7.
Definition PT_GNU_STACK : Z := 0x6474e551.
Definition PT_GNU_RELRO : Z := 0x6474e552.
Definition PF_X : Z := 1.
Definition PF_W : Z := 2.
Definition ELFMAG : list Z := [127; 69; 76; 70].
Definition AT_NULL : Z := 0.
Definition AT_PHDR : Z := 3.
Definition AT_PHENT : Z := 4.
Definition AT_PHNUM : Z := 5.
Definition AT_PAGESZ : Z := 6.
Definition AT_BASE : Z := 7.
Definition AT_FLAGS : Z := 8.
Definition AT_ENTRY : Z := 9.
Definition AT_UID : Z := 11.
Definition AT_EUID : Z := 12.
Definition AT_GID : Z := 13.
Definition AT_EGID : Z := 14.
Definition AT_PLATFORM : Z := 15.
Definition AT_HWCAP : Z := 16.
Definition AT_CLKTCK : Z := 17.
Definition AT_SECURE : Z := 23.
Definition AT_RANDOM : Z := 25.
Definition AT_EXECFN : Z := 31.

Section Elf.
Context `{!Buddy}.

(** ** The image *)

(** The [n] bytes at [elf_data + off], and the little-endian value there. *)
Definition img_bytes (img : list Z) (off n : Z) : M mst (list Z) :=
  if decide (0 ≤ off ∧ 0 ≤ n ∧ off + n ≤ Z.of_nat (length img))
  then mret (take (Z.to_nat n) (drop (Z.to_nat off) img)) else fault.
Definition img_val (img : list Z) (off n : Z) : M mst Z :=
  l ← img_bytes img off n; mret (le_val l).

(** Fields of [Elf64_Ehdr] and of the [Elf64_Phdr] at [ph]. *)
Definition e_type (img : list Z) : M mst Z := img_val img 16 2.
Definition e_machine (img : list Z) : M mst Z := img_val img 18 2.
Definition e_entry (img : list Z) : M mst Z := img_val img 24 8.
Definition e_phoff (img : list Z) : M mst Z := img_val img 32 8.
Definition e_phentsize (img : list Z) : M mst Z := img_val img 54 2.
Definition e_phnum (img : list Z) : M mst Z := img_val img 56 2.
Definition p_type (img : list Z) (ph : Z) : M mst Z := img_val img ph 4.
Definition p_flags (img : list Z) (ph : Z) : M mst Z := img_val img (ph + 4) 4.
Definition p_offset (img : list Z) (ph : Z) : M mst Z := img_val img (ph + 8) 8.
Definition p_vaddr (img : list Z) (ph : Z) : M mst Z := img_val img (ph + 16) 8.
Definition p_filesz (img : list Z) (ph : Z) : M mst Z := img_val img (ph + 32) 8.
Definition p_memsz (img : list Z) (ph : Z) : M mst Z := img_val img (ph + 40) 8.
Definition p_align (img : list Z) (ph : Z) : M mst Z := img_val img (ph + 48) 8.
Definition sizeof_phdr : Z := 56.

Definition elf_flags_to_pte (nx : bool) (pflags : Z) (user : bool) : Z :=
  let pte := PTE_PRESENT in
  let pte := if user then Z.lor pte PTE_USER else pte in
  let pte := if has pflags PF_W then Z.lor pte PTE_WRITABLE else pte in
  if nx && negb (has pflags PF_X) then Z.lor pte PTE_NX else pte.

Definition elf_validate (img : list Z) : M mst Z :=
  magic ← img_bytes img 0 4;
  if negb (bool_decide (magic = ELFMAG)) then mret (-1) else
  class ← img_val img 4 1;
  if negb (class =? 2) then mret (-1) else
  data ← img_val img 5 1;
  if negb (data =? 1) then mret (-1) else
  machine ← e_machine img;
  if negb (machine =? 62) then mret (-1) else
  type ← e_type img;
  if negb (type =? 2) && negb (type =? 3) then mret (-1) else mret 0.

(** ** Spaces and segments *)

Definition vmm_create_user_pml4 : M mst Z :=
  phys ← palloc_zero;
  kernel ← gets kernel_pml4;
  let root := PHYS_TO_VIRT phys in
  for_all 256 256 (λ i, e ← rd (kernel + 8 * i); wr (root + 8 * i) e) ;;
  mret root.

Definition TLS_USER_BASE : Z := 0x00007fff00000000.
Definition TCB_SIZE : Z := 16.

(** The address of the thread control block; the process also records it. *)
Definition elf_setup_tls (root : Z) (tls_image : list Z) (tls_memsz : Z) : M mst Z :=
  let total := u64 (tls_memsz + TCB_SIZE) in
  let total_pages := page_of (u64 (total + 0xFFF)) in
  let uva_base := TLS_USER_BASE in
  nx ← gets nx_supported;
  let pte_flags := Z.lor (Z.lor PTE_PRESENT PTE_WRITABLE) PTE_USER in
  let pte_flags := if nx : bool then Z.lor pte_flags PTE_NX else pte_flags in
  for_all (Z.to_nat (total_pages `div` 4096)) 0 (λ k,
    phys ← palloc_zero;
    map_page root (u64 (uva_base + 4096 * k)) phys pte_flags) ;;
  let uva_tcb := u64 (uva_base + tls_memsz) in
  whenM (negb (Z.of_nat (length tls_image) =? 0)) (hhdm_copy_to_user root uva_base tls_image) ;;
  hhdm_write64 root uva_tcb uva_tcb ;;
  hhdm_write64 root (u64 (uva_tcb + 8)) 0 ;;
  mret uva_tcb.

(** What [elf_load_segments] tracks, its last four in the caller's variables;
    [tls_sz] is what is stored in [proc->tls_size] with [proc->tls_base]. *)
Record seg_state := mkSeg {
  load_base : Z; max_vaddr : Z; tls_at : Z; tls_sz : Z; stack_exec : bool }.
#[global] Instance seg_state_eta : Etable seg_state := λ a,
  mkSeg (load_base a) (max_vaddr a) (tls_at a) (tls_sz a) (stack_exec a).

Definition UINTPTR_MAX : Z := 2 ^ 64 - 1.

(** The first pass: is there a [PT_INTERP]? *)
Definition find_interp (img : list Z) (phoff phnum : Z) : M mst bool :=
  r ← for_up (Z.to_nat phnum) 0 (λ i,
    t ← p_type img (phoff + sizeof_phdr * i);
    mret (if t =? PT_INTERP then Some tt else None));
  mret (match r with Some _ => true | None => false end).

(** The body of the second pass for the header at [ph]. *)
Definition load_seg (root : Z) (img : list Z) (ph : Z) (a : seg_state) : M mst seg_state :=
  memsz ← p_memsz img ph;
  if memsz =? 0 then mret a else
  fl ← p_flags img ph;
  nx ← gets nx_supported;
  let pte_flags := elf_flags_to_pte nx fl true in
  vaddr ← p_vaddr img ph;
  let seg_start := page_of vaddr in
  let seg_end := page_of (u64 (u64 (vaddr + memsz) + 0xFFF)) in
  map_user_range root seg_start seg_end pte_flags ;;
  filesz ← p_filesz img ph;
  (if filesz =? 0 then mret tt else
     offset ← p_offset img ph;
     data ← img_bytes img offset filesz;
     hhdm_copy_to_user root vaddr data) ;;
  let seg_top := u64 (vaddr + memsz) in
  mret (a <| load_base := if vaddr <? load_base a then vaddr else load_base a |>
          <| max_vaddr := if max_vaddr a <? seg_top then seg_top else max_vaddr a |>).

Definition tls_seg (root : Z) (img : list Z) (ph : Z) (a : seg_state) : M mst (option seg_state) :=
  filesz ← p_filesz img ph;
  image ← (if filesz =? 0 then mret [] else offset ← p_offset img ph; img_bytes img offset filesz);
  memsz ← p_memsz img ph;
  base ← elf_setup_tls root image memsz;
  if base =? 0 then mret None else
  mret (Some (a <| tls_at := base |> <| tls_sz := u32 (memsz + TCB_SIZE) |>)).

Definition one_seg (root : Z) (img : list Z) (ph : Z) (a : seg_state) : M mst (option seg_state) :=
  t ← p_type img ph;
  if t =? PT_LOAD then a ← load_seg root img ph a; mret (Some a)
  else if t =? PT_TLS then tls_seg root img ph a
  else if t =? PT_GNU_STACK then
    fl ← p_flags img ph; mret (Some (a <| stack_exec := has fl PF_X |>))
  else mret (Some a).

(** The second pass from header [i] on; [None] is the early return of [-1]. *)
Fixpoint load_segs (n : nat) (root : Z) (img : list Z) (phoff i : Z) (a : seg_state) :
    M mst (option seg_state) :=
  match n with
  | O => mret (Some a)
  | S n =>
      r ← one_seg root img (phoff + sizeof_phdr * i) a;
      match r with
      | None => mret None
      | Some a => load_segs n root img phoff (i + 1) a
      end
  end.

(** The third pass. *)
Definition relro_seg (root : Z) (img : list Z) (ph : Z) : M mst unit :=
  t ← p_type img ph;
  if t =? PT_GNU_RELRO then
    nx ← gets nx_supported;
    let ro_flags := Z.lor PTE_PRESENT PTE_USER in
    let ro_flags := if nx : bool then Z.lor ro_flags PTE_NX else ro_flags in
    vaddr ← p_vaddr img ph;
    memsz ← p_memsz img ph;
    remap_user_range root vaddr (u64 (vaddr + memsz)) ro_flags
  else mret tt.

Definition elf_load_segments (root : Z) (img : list Z) : M mst (option seg_state) :=
  phoff ← e_phoff img;
  phnum ← e_phnum img;
  interp ← find_interp img phoff phnum;
  if interp : bool then mret None else
  r ← load_segs (Z.to_nat phnum) root img phoff 0 (mkSeg UINTPTR_MAX 0 0 0 false);
  match r with
  | None => mret None
  | Some a =>
      for_all (Z.to_nat phnum) 0 (λ i, relro_seg root img (phoff + sizeof_phdr * i)) ;;
      mret (Some (a <| load_base := if load_base a =? UINTPTR_MAX then 0 else load_base a |>))
  end.

(** ** The stack *)

Definition USER_STACK_BASE : Z := 0x00007ffff0000000.
Definition STACK_PAGES : Z := 16.

Definition alloc_user_stack (root : Z) (stack_exec : bool) : M mst Z :=
  nx ← gets nx_supported;
  let pte := Z.lor (Z.lor PTE_PRESENT PTE_WRITABLE) PTE_USER in
  let pte := if (nx : bool) && negb stack_exec then Z.lor pte PTE_NX else pte in
  for_all (Z.to_nat STACK_PAGES) 0 (λ i,
    phys ← palloc_zero;
    map_page root (USER_STACK_BASE + i * 0x1000) phys pte) ;;
  mret (USER_STACK_BASE + STACK_PAGES * 0x1000).

(** One round of the generator, and [push_random_bytes]: the new stack pointer
    and seed. *)
Definition seed_step (x : Z) : Z :=
  let x := Z.lxor x (u64 (Z.shiftl x 13)) in
  let x := Z.lxor x (Z.shiftr x 7) in
  Z.lxor x (u64 (Z.shiftl x 17)).

Definition push_random_bytes (root sp seed : Z) : M mst (Z * Z) :=
  let r0 := seed_step seed in
  let r1 := seed_step r0 in
  let sp := u64 (sp - 8) in
  hhdm_write64 root sp r1 ;;
  let sp := u64 (sp - 8) in
  hhdm_write64 root sp r0 ;;
  mret (sp, r1).

(** A string is copied below [sp]; the result is its address. *)
Definition push_string (root sp : Z) (str : list Z) : M mst Z :=
  let sp := Z.land (u64 (sp - (Z.of_nat (length str) + 1))) (Z.lnot 7) in
  hhdm_copy_to_user root sp (str ++ [0]) ;;
  mret sp.

(** The loops over [envp] and [argv], last string first; the addresses go to
    the array at [arr]. *)
Fixpoint push_strings (root arr sp : Z) (rev_strs : list (list Z)) : M mst Z :=
  match rev_strs with
  | [] => mret sp
  | str :: rest =>
      sp ← push_string root sp str;
      vwr (arr + 8 * Z.of_nat (length rest)) sp ;;
      push_strings root arr sp rest
  end.

(** [sp -= 8; hhdm_write64(pml4, sp, x)] *)
Definition push (root sp x : Z) : M mst Z :=
  let sp := u64 (sp - 8) in
  hhdm_write64 root sp x ;; mret sp.

(** [PUSH_AUXV] for each pair. *)
Fixpoint push_auxv (root sp : Z) (l : list (Z * Z)) : M mst Z :=
  match l with
  | [] => mret sp
  | (t, v) :: l => sp ← push root sp v; sp ← push root sp t; push_auxv root sp l
  end.

(** The elements of the array at [arr], last first. *)
Fixpoint push_array (root arr sp : Z) (n : nat) : M mst Z :=
  match n with
  | O => mret sp
  | S n => x ← vrd (arr + 8 * Z.of_nat n); sp ← push root sp x; push_array root arr sp n
  end.

(** The auxiliary vector, in the order of the pushes. *)
Definition auxv (entry phentsize phnum phdr u_platform u_execfn u_random : Z) : list (Z * Z) :=
  [(AT_NULL, 0); (AT_PLATFORM, u_platform)] ++
  (if nz u_execfn then [(AT_EXECFN, u_execfn)] else []) ++
  [(AT_RANDOM, u_random); (AT_SECURE, 0); (AT_EGID, 0); (AT_GID, 0); (AT_EUID, 0); (AT_UID, 0);
   (AT_CLKTCK, 100); (AT_FLAGS, 0); (AT_BASE, 0); (AT_HWCAP, 0); (AT_PAGESZ, 0x1000);
   (AT_ENTRY, entry); (AT_PHENT, phentsize); (AT_PHNUM, phnum); (AT_PHDR, phdr)].

(** The alignment of [sp] before the vectors. *)
Definition align_sp (sp argc envc : Z) : Z :=
  let total_slots := 14 + (envc + 1) + (argc + 1) + 1 in
  let sp := if Z.odd total_slots then u64 (sp - 8) else sp in
  Z.land sp (Z.lnot 0xF).

(** The pushes after it. *)
Definition push_vectors (root sp uargv uenvp argc envc : Z) (aux : list (Z * Z)) : M mst Z :=
  sp ← push_auxv root sp aux;
  sp ← push root sp 0;
  sp ← push_array root uenvp sp (Z.to_nat envc);
  sp ← push root sp 0;
  sp ← push_array root uargv sp (Z.to_nat argc);
  push root sp argc.

Definition platform_str : list Z := [120; 56; 54; 95; 54; 52].

Definition elf_build_stack (root stack_top : Z) (argv envp : list (list Z)) (img : list Z)
    (load_base : Z) (execfn : option (list Z)) (seed : Z) : M mst (Z * Z) :=
  let argc := Z.of_nat (length argv) in
  let envc := Z.of_nat (length envp) in
  uenvp ← kmalloc (8 * (envc + 1));
  sp ← push_strings root uenvp stack_top (reverse envp);
  vwr (uenvp + 8 * envc) 0 ;;
  uargv ← kmalloc (8 * (argc + 1));
  sp ← push_strings root uargv sp (reverse argv);
  vwr (uargv + 8 * argc) 0 ;;
  u_execfn ← match execfn with None => mret 0 | Some str => push_string root sp str end;
  let sp := match execfn with None => sp | Some _ => u_execfn end in
  u_platform ← push_string root sp platform_str;
  '(u_random, seed) ← push_random_bytes root u_platform seed;
  let sp := align_sp u_random argc envc in
  entry ← e_entry img;
  phentsize ← e_phentsize img;
  phnum ← e_phnum img;
  phoff ← e_phoff img;
  sp ← push_vectors root sp uargv uenvp argc envc
         (auxv entry phentsize phnum (u64 (load_base + phoff)) u_platform u_execfn u_random);
  kfree uenvp ;;
  kfree uargv ;;
  mret (sp, seed).

(** ** The process *)

(** The registers with which a program starts. *)
Definition user_regs (entry stack_top : Z) : registers :=
  zero_registers <| es := 0x1B |> <| ds := 0x1B |> <| rip := entry |> <| rsp := stack_top |>
    <| cs := 0x23 |> <| ss := 0x1B |> <| rflags := 0x202 |> <| rax := 0 |> <| int_no := 0 |>
    <| err_code := 0 |>.

(** [self] is the address of the process. *)
Definition init_regs (self : Z) (p : process) (entry stack_top : Z) : process :=
  p <| context := user_regs entry stack_top |> <| context_ptr := self |>.

(** [fx]: what [fninit] and [fxsave] leave in the buffer. *)
Definition init_fpu (fx : list Z) (p : process) : process :=
  p <| sse_state := splice fx 24 (le_bytes 4 0x1F80) |>.

(** The new space and what [elf_load_segments] puts into it. *)
Definition new_image (img : list Z) : M mst (Z * option seg_state) :=
  root ← vmm_create_user_pml4;
  segs ← elf_load_segments root img;
  mret (root, segs).

(** [0] or [-1], the process and the seed; [proc->pml4] is set even when the
    segments cannot be loaded. *)
Definition process_populate_from_elf (fx : list Z) (self : Z) (p : process) (img : list Z)
    (argv envp : list (list Z)) (seed : Z) : M mst (Z * process * Z) :=
  v ← elf_validate img;
  if v <? 0 then mret (-1, p, seed) else
  '(root, segs) ← new_image img;
  let p := p <| pml4 := root |> in
  match segs with
  | None => mret (-1, p, seed)
  | Some a =>
      top ← alloc_user_stack root (stack_exec a);
      if top =? 0 then mret (-1, p, seed) else
      let execfn := head argv in
      '(new_rsp, seed) ← elf_build_stack root top argv envp img (load_base a) execfn seed;
      if new_rsp =? 0 then mret (-1, p, seed) else
      e ← e_entry img;
      let start := page_of (u64 (max_vaddr a + 0xFFF)) in
      let p := p <| entry := e |> <| stack_top := new_rsp |> <| brk_start := start |>
                 <| brk := start |> <| tls_base := tls_at a |> in
      mret (0, init_fpu fx (init_regs self p e new_rsp), seed)
  end.

(** [load_elf], up to [jump_to_usermode]: the entry point and the stack pointer
    it is called with, or [None] when the image is refused. *)
Definition load_boot_seg (root : Z) (img : list Z) (ph : Z) : M mst unit :=
  t ← p_type img ph;
  if negb (t =? PT_LOAD) then mret tt else
  memsz ← p_memsz img ph;
  if memsz =? 0 then mret tt else
  vaddr ← p_vaddr img ph;
  let seg_start := page_of vaddr in
  let seg_end := page_of (u64 (u64 (vaddr + memsz) + 0xFFF)) in
  fl ← p_flags img ph;
  nx ← gets nx_supported;
  map_pages (Z.to_nat ((seg_end - seg_start) `div` 4096)) root seg_start seg_end
    (elf_flags_to_pte nx fl true) ;;
  filesz ← p_filesz img ph;
  if filesz =? 0 then mret tt else
  offset ← p_offset img ph;
  data ← img_bytes img offset filesz;
  hhdm_copy_to_user root vaddr data.

Definition load_elf (img : list Z) : M mst (option (Z * Z)) :=
  v ← elf_validate img;
  if v <? 0 then mret None else
  root ← gets kernel_pml4;
  phoff ← e_phoff img;
  phnum ← e_phnum img;
  for_all (Z.to_nat phnum) 0 (λ i, load_boot_seg root img (phoff + sizeof_phdr * i)) ;;
  top ← alloc_user_stack root false;
  let sp := u64 (top - 16) in
  phys ← vmm_virt_to_phys root sp;
  store_bytes (u64 (phys + hhdm)) (le_bytes 8 0) ;;
  e ← e_entry img;
  mret (Some (e, sp)).
End Elf.
