(* ===== verification/ElfSpec.v ===== *)
(** * What the loader puts into memory

    The segments of an image whose loadable parts start on page boundaries end
    up in the new space byte by byte ([elf_load_segments_correct]); the vectors
    of the initial stack have the layout programs expect
    ([push_vectors_correct]); copies that do not start on a page boundary go to
    the wrong place ([hhdm_copy_misplaced]). *)

From S2P Require Import Prelude Bytes Proc Mem Paging Heap Slab Realloc Uspace Elf.

(** ** Headers as data *)

Definition sub_val (img : list Z) (off n : Z) : Z := le_val (take (Z.to_nat n) (drop (Z.to_nat off) img)).

Record phdr := mkPhdr {
  ph_type : Z; ph_flags : Z; ph_offset : Z; ph_vaddr : Z; ph_filesz : Z; ph_memsz : Z }.
Definition phdr_of (img : list Z) (off : Z) : phdr :=
  mkPhdr (sub_val img off 4) (sub_val img (off + 4) 4) (sub_val img (off + 8) 8)
    (sub_val img (off + 16) 8) (sub_val img (off + 32) 8) (sub_val img (off + 40) 8).

Definition phoff_of (img : list Z) : Z := sub_val img 32 8.
Definition phnum_of (img : list Z) : Z := sub_val img 56 2.
Definition headers_from (img : list Z) (i : Z) (n : nat) : list phdr :=
  (λ k, phdr_of img (phoff_of img + sizeof_phdr * k)) <$> seqZ i (Z.of_nat n).
Definition headers (img : list Z) : list phdr := headers_from img 0 (Z.to_nat (phnum_of img)).

(** The header table lies in the image. *)
Definition table_in (img : list Z) : Prop :=
  bytes img ∧ 64 ≤ Z.of_nat (length img) ∧
  phoff_of img + sizeof_phdr * phnum_of img ≤ Z.of_nat (length img).

Definition is_load (ph : phdr) : bool := (ph_type ph =? PT_LOAD) && negb (ph_memsz ph =? 0).
Definition is_tls (ph : phdr) : bool := ph_type ph =? PT_TLS.
Definition ph_data (img : list Z) (ph : phdr) : list Z :=
  take (Z.to_nat (ph_filesz ph)) (drop (Z.to_nat (ph_offset ph)) img).

(** The initialised part lies in the image; loadable segments start on a page
    and end below the thread-local storage, whose size is a multiple of 8. *)
Definition seg_wf (img : list Z) (ph : phdr) : Prop :=
  (is_load ph = true →
     ph_vaddr ph `mod` 4096 = 0 ∧ ph_vaddr ph + ph_memsz ph ≤ TLS_USER_BASE ∧
     ph_filesz ph ≤ ph_memsz ph ∧ ph_offset ph + ph_filesz ph ≤ Z.of_nat (length img)) ∧
  (is_tls ph = true →
     ph_memsz ph `mod` 8 = 0 ∧ ph_memsz ph ≤ 2 ^ 28 ∧
     ph_filesz ph ≤ ph_memsz ph ∧ ph_offset ph + ph_filesz ph ≤ Z.of_nat (length img)) ∧
  (ph_type ph = PT_GNU_RELRO → ph_vaddr ph + ph_memsz ph ≤ USER_END).

(** The pages a segment occupies. *)
Definition seg_lo (ph : phdr) : Z := if is_tls ph then TLS_USER_BASE else ph_vaddr ph.
Definition seg_hi (ph : phdr) : Z :=
  if is_tls ph then TLS_USER_BASE + page_of (ph_memsz ph + TCB_SIZE + 4095)
  else page_of (ph_vaddr ph + ph_memsz ph + 4095).
Definition seg_pages (ph : phdr) (a : Z) : Prop :=
  (is_load ph = true ∨ is_tls ph = true) ∧ seg_lo ph ≤ a < seg_hi ph.

(** ** What a segment does to the bytes and to the loader's variables *)

Definition tcb_of (ph : phdr) : Z := TLS_USER_BASE + ph_memsz ph.

Definition seg_view (img : list Z) (V : Z → option Z) (ph : phdr) : Z → option Z :=
  if is_load ph then poke (fill V (seg_lo ph) (seg_hi ph)) (ph_vaddr ph) (ph_data img ph)
  else if is_tls ph then
    poke (poke (poke (fill V (seg_lo ph) (seg_hi ph)) TLS_USER_BASE (ph_data img ph))
      (tcb_of ph) (le_bytes 8 (tcb_of ph))) (tcb_of ph + 8) (le_bytes 8 0)
  else V.

Definition seg_acc (a : seg_state) (ph : phdr) : seg_state :=
  if is_load ph then
    a <| load_base := if ph_vaddr ph <? load_base a then ph_vaddr ph else load_base a |>
      <| max_vaddr := if max_vaddr a <? ph_vaddr ph + ph_memsz ph then ph_vaddr ph + ph_memsz ph else max_vaddr a |>
  else if is_tls ph then a <| tls_at := tcb_of ph |> <| tls_sz := ph_memsz ph + TCB_SIZE |>
  else if ph_type ph =? PT_GNU_STACK then a <| stack_exec := has (ph_flags ph) PF_X |>
  else a.

Lemma sub_val_range img off n : bytes img → 0 ≤ n → 0 ≤ sub_val img off n < 256 ^ n.
Proof.
  intros Hb Hn. unfold sub_val. pose proof (le_val_range (take (Z.to_nat n) (drop (Z.to_nat off) img))) as Hr.
  destruct Hr as [H1 H2]; [by apply Forall_take, Forall_drop|]. split; [done|]. eapply Z.lt_le_trans; [exact H2|].
  apply Z.pow_le_mono_r; [lia|]. rewrite length_take. lia.
Qed.

Lemma ph_range img off : bytes img → let ph := phdr_of img off in
  0 ≤ ph_offset ph < 2 ^ 64 ∧ 0 ≤ ph_vaddr ph < 2 ^ 64 ∧ 0 ≤ ph_filesz ph < 2 ^ 64 ∧ 0 ≤ ph_memsz ph < 2 ^ 64.
Proof.
  intros Hb ph. change (2 ^ 64) with (256 ^ 8). unfold ph, phdr_of; cbn.
  split_and!; apply sub_val_range; done || lia.
Qed.

Section Segments.
Context `{!Buddy} `{!BuddyOk}.
Implicit Types (s : mst) (T : gmap Z (Z * list Z)) (fr : gmap Z Z).

Lemma img_bytes_eq img off n s : 0 ≤ off → 0 ≤ n → off + n ≤ Z.of_nat (length img) →
  img_bytes img off n s = Done (take (Z.to_nat n) (drop (Z.to_nat off) img)) s.
Proof. intros. unfold img_bytes. by rewrite decide_True. Qed.

Lemma img_val_eq img off n s : 0 ≤ off → 0 ≤ n → off + n ≤ Z.of_nat (length img) →
  img_val img off n s = Done (sub_val img off n) s.
Proof. intros. unfold img_val. by rewrite (bind_done _ _ _ _ _ (img_bytes_eq img off n s ltac:(done) ltac:(done) ltac:(done))). Qed.

(** The fields of a header in the image can be read. *)
Lemma fields_eq img off s : 0 ≤ off → off + sizeof_phdr ≤ Z.of_nat (length img) → let ph := phdr_of img off in
  p_type img off s = Done (ph_type ph) s ∧ p_flags img off s = Done (ph_flags ph) s ∧
  p_offset img off s = Done (ph_offset ph) s ∧ p_vaddr img off s = Done (ph_vaddr ph) s ∧
  p_filesz img off s = Done (ph_filesz ph) s ∧ p_memsz img off s = Done (ph_memsz ph) s.
Proof. intros Ho Hl ph. unfold sizeof_phdr in Hl. split_and!; apply img_val_eq; lia. Qed.

(** The flags the loader uses reach the entries without the no-execute bit. *)
Lemma load_flags_ok s fl : flags_ok s (elf_flags_to_pte (nx_supported s) fl true).
Proof.
  unfold flags_ok, elf_flags_to_pte. destruct (nx_supported s), (has fl PF_W), (has fl PF_X); by vm_compute.
Qed.

Lemma load_seg_spec img off s T root fr a : let ph := phdr_of img off in
  space_ok s T root fr → bytes img → 0 ≤ off → off + sizeof_phdr ≤ Z.of_nat (length img) →
  seg_wf img ph → ph_type ph = PT_LOAD →
  wph out_of_memory (load_seg root img off a)
    (λ a' s', a' = seg_acc a ph ∧ becomes root s T fr (seg_view img (ubyte s fr) ph) s') s.
Proof.
  intros ph HS Hb Ho Hl (Hwf & _) Ht. destruct (ph_range img off Hb) as (Hro & Hrv & Hrf & Hrm). fold ph in Hro, Hrv, Hrf, Hrm.
  destruct (fields_eq img off s Ho Hl) as (_ & Ef & _ & Ev & _ & Em). fold ph in Ef, Ev, Em.
  assert (is_tls ph = false) as Htls by (unfold is_tls; by rewrite Ht).
  unfold load_seg, seg_acc, seg_view, seg_lo, seg_hi. rewrite Htls.
  unfold wph. rewrite (bind_done _ _ _ _ _ Em). unfold is_load in *. rewrite Ht in *. cbn [Z.eqb PT_LOAD Pos.eqb andb] in *.
  destruct (Z.eqb_spec (ph_memsz ph) 0) as [E0|Hn0]; cbn [negb] in *.
  { cbn. split; [done|]. by apply becomes_refl. }
  destruct (Hwf eq_refl) as (Hva & Hend & Hfm & Hoff). unfold TLS_USER_BASE in Hend.
  rewrite (bind_done _ _ _ _ _ Ef), (bind_done (gets _) _ _ _ _ eq_refl), (bind_done _ _ _ _ _ Ev).
  assert (page_of (ph_vaddr ph) = ph_vaddr ph) as Epv by (by apply page_of_id).
  rewrite (wrap_small 64 (ph_vaddr ph + ph_memsz ph)), (wrap_small 64 (_ + 0xFFF)) by lia. rewrite Epv.
  change 0xFFF with 4095. set (stop := page_of (ph_vaddr ph + ph_memsz ph + 4095)).
  assert (stop `mod` 4096 = 0 ∧ ph_vaddr ph + ph_memsz ph ≤ stop ≤ 0x00007fff00000000) as [Hsa Hst].
  { split; [apply page_of_aligned|]. unfold stop. rewrite page_of_sub. Z.div_mod_to_equations. lia. }
  apply wph_bind. eapply wph_mono; [apply (map_user_range_spec s T root fr); [done|lia|unfold USER_END; lia|apply load_flags_ok]|].
  intros [] s1 (T1 & fr1 & HS1 & HE1 & HV1). rewrite Epv in HV1.
  replace (page_of (stop + 4095)) with stop in HV1 by (rewrite page_of_sub; Z.div_mod_to_equations; lia).
  destruct (fields_eq img off s1 Ho Hl) as (_ & _ & Eo & _ & Efs & _). fold ph in Eo, Efs.
  unfold wph. rewrite (bind_done _ _ _ _ _ Efs).
  apply wph_bind. eapply wph_mono; [apply (wph_wp _ _ (λ _ s', becomes root s T fr
    (poke (fill (ubyte s fr) (ph_vaddr ph) stop) (ph_vaddr ph) (ph_data img ph)) s'))|].
  - destruct (Z.eqb_spec (ph_filesz ph) 0) as [E0|Hnf].
    + apply wp_ret. exists T1, fr1. split_and!; [done..|]. intros b. rewrite HV1. unfold poke, ph_data. rewrite E0. change (Z.to_nat 0) with 0%nat. rewrite take_0.
      cbn. rewrite decide_False by lia. done.
    + unfold wp. rewrite (bind_done _ _ _ _ _ Eo), (bind_done _ _ _ _ _ (img_bytes_eq img (ph_offset ph) (ph_filesz ph) s1 ltac:(lia) ltac:(lia) Hoff)).
      fold (ph_data img ph). assert (Z.of_nat (length (ph_data img ph)) = ph_filesz ph) as Hlen
        by (unfold ph_data; rewrite length_take, length_drop; lia).
      eapply wp_mono; [apply (hhdm_copy_spec s1 T1 root fr1); try done|].
      * lia.
      * rewrite Hlen. unfold USER_END. lia.
      * by apply Forall_take, Forall_drop.
      * intros b Hbr. rewrite HV1. unfold fill. destruct (ubyte s fr b); [by eexists|]. rewrite decide_True by lia. by eexists.
      * intros [] s2 (HS2 & HE2 & HV2). exists T1, fr1. split_and!; [done|by eapply evolves_trans|].
        intros b. rewrite HV2. unfold poke. case_decide; [done|]. apply HV1.
  - intros [] s2 HB. split; [|done]. done.
Qed.

(** A word stored into a mapped place. *)
Lemma write64_becomes s T root fr s1 T1 fr1 V a x :
  space_ok s1 T1 root fr1 → evolves root s s1 T T1 fr fr1 → (∀ b, ubyte s1 fr1 b = V b) →
  is_Some (V a) → low12 a ≤ 4088 →
  wp (hhdm_write64 root a x) (λ _ s', space_ok s' T1 root fr1 ∧ evolves root s s' T T1 fr fr1 ∧
    ∀ b, ubyte s' fr1 b = poke V a (le_bytes 8 x) b) s1.
Proof.
  intros HS HE HV [y Hy] Hl. rewrite <-HV in Hy. unfold ubyte in Hy. apply bind_Some in Hy as (p & Hp & _).
  eapply wp_mono; [by eapply (hhdm_write64_spec s1 T1 root fr1 a p)|].
  intros [] s2 (HS2 & HE2 & HV2). split_and!; [done|by eapply evolves_trans|].
  intros b. rewrite HV2. unfold poke. case_decide; [done|]. apply HV.
Qed.

Lemma tls_flags_ok s (fl : Z) (b : bool) : fl = Z.lor (Z.lor PTE_PRESENT PTE_WRITABLE) PTE_USER ∨ fl = Z.lor PTE_PRESENT PTE_USER →
  flags_ok s (if nx_supported s && b then Z.lor fl PTE_NX else fl).
Proof. unfold flags_ok. intros [->| ->]; destruct (nx_supported s), b; by vm_compute. Qed.

Lemma elf_setup_tls_spec s T root fr image memsz : space_ok s T root fr → bytes image →
  memsz `mod` 8 = 0 → 0 ≤ memsz ≤ 2 ^ 28 → Z.of_nat (length image) ≤ memsz →
  let hi := TLS_USER_BASE + page_of (memsz + TCB_SIZE + 4095) in let tcb := TLS_USER_BASE + memsz in
  (∀ b, TLS_USER_BASE ≤ b < hi → ubyte s fr b = None) →
  wph out_of_memory (elf_setup_tls root image memsz)
    (λ r s', r = tcb ∧ becomes root s T fr
       (poke (poke (poke (fill (ubyte s fr) TLS_USER_BASE hi) TLS_USER_BASE image)
          tcb (le_bytes 8 tcb)) (tcb + 8) (le_bytes 8 0)) s') s.
Proof.
  intros HS Hb Hm Hms Hlen hi tcb Hno. unfold elf_setup_tls.
  rewrite (wrap_small 64 (memsz + TCB_SIZE)), (wrap_small 64 (_ + 0xFFF)) by (unfold TCB_SIZE; lia).
  change 0xFFF with 4095. set (pgs := page_of (memsz + TCB_SIZE + 4095)) in *.
  assert (pgs `mod` 4096 = 0 ∧ memsz + 16 ≤ pgs ≤ 2 ^ 29) as [Hpa Hpr].
  { split; [apply page_of_aligned|]. unfold pgs. rewrite page_of_sub. unfold TCB_SIZE. Z.div_mod_to_equations. lia. }
  assert (4096 * Z.of_nat (Z.to_nat (pgs `div` 4096)) = pgs) as En by (Z.div_mod_to_equations; lia).
  unfold TLS_USER_BASE in *. apply wph_bind, wph_gets, wph_bind.
  eapply wph_mono; [apply (map_fresh _ s T root fr 0x00007fff00000000); try done|].
  { rewrite En. unfold USER_END. lia. }
  { pose proof (tls_flags_ok s _ true (or_introl eq_refl)) as Hf. by destruct (nx_supported s). }
  { intros k Hk. apply wrap_small. lia. }
  { rewrite En. done. }
  rewrite En. intros [] s1 (T1 & fr1 & HS1 & HE1 & HV1). rewrite wrap_small by lia. fold tcb. rewrite wrap_small by lia.
  apply wph_bind. eapply wph_mono; [apply (wph_wp _ _ (λ _ s2, space_ok s2 T1 root fr1 ∧ evolves root s s2 T T1 fr fr1 ∧
    ∀ b, ubyte s2 fr1 b = poke (fill (ubyte s fr) 0x00007fff00000000 hi) 0x00007fff00000000 image b))|].
  { destruct (Z.eqb_spec (Z.of_nat (length image)) 0) as [E0|Hne]; cbn [negb whenM].
    - apply wp_ret. split_and!; [done..|]. intros b. rewrite HV1. unfold poke. by rewrite decide_False by lia.
    - eapply wp_mono; [apply (hhdm_copy_spec s1 T1 root fr1); try done|].
      + unfold USER_END. lia.
      + intros b Hbr. rewrite HV1. unfold fill. rewrite Hno, decide_True by lia. by eexists.
      + intros [] s2 (HS2 & HE2 & HV2). split_and!; [done|by eapply evolves_trans|]. intros b. rewrite HV2. unfold poke.
        case_decide; [done|]. apply HV1. }
  intros [] s2 (HS2 & HE2 & HV2).
  assert (∀ V a, 0x00007fff00000000 ≤ a < hi → is_Some (fill V 0x00007fff00000000 hi a)) as Hfill.
  { intros V a Ha. unfold fill. destruct (V a); [by eexists|]. rewrite decide_True by done. by eexists. }
  assert (∀ V l at_ a, is_Some (V a) → is_Some (poke V at_ l a)) as Hpoke.
  { intros V l at_ a Ha. unfold poke. case_decide; [|done]. apply lookup_lt_is_Some. lia. }
  assert (low12 tcb ≤ 4088 ∧ low12 (tcb + 8) ≤ 4088) as [Hl1 Hl2].
  { unfold tcb. rewrite !low12_mod. Z.div_mod_to_equations. lia. }
  apply wph_bind, wph_wp. eapply wp_mono; [eapply (write64_becomes s T root fr s2); try done; apply Hpoke, Hfill; lia|].
  intros [] s3 (HS3 & HE3 & HV3). apply wph_bind, wph_wp.
  eapply wp_mono; [eapply (write64_becomes s T root fr s3); try done; apply Hpoke, Hpoke, Hfill; lia|].
  intros [] s4 (HS4 & HE4 & HV4). split; [done|]. by exists T1, fr1.
Qed.

(** One round of the second pass. *)
Lemma one_seg_spec img off s T root fr a : let ph := phdr_of img off in
  space_ok s T root fr → bytes img → 0 ≤ off → off + sizeof_phdr ≤ Z.of_nat (length img) → seg_wf img ph →
  (is_tls ph = true → ∀ b, seg_lo ph ≤ b < seg_hi ph → ubyte s fr b = None) →
  wph out_of_memory (one_seg root img off a)
    (λ r s', r = Some (seg_acc a ph) ∧ becomes root s T fr (seg_view img (ubyte s fr) ph) s') s.
Proof.
  intros ph HS Hb Ho Hl Hwf Hno. destruct (fields_eq img off s Ho Hl) as (Et & Ef & Eo & _ & Efs & Em).
  destruct (ph_range img off Hb) as (Hro & _ & Hrf & Hrm).
  fold ph in Et, Ef, Eo, Efs, Em, Hro, Hrf, Hrm. unfold one_seg, wph. rewrite (bind_done _ _ _ _ _ Et).
  destruct (Z.eqb_spec (ph_type ph) PT_LOAD) as [E|Hnl].
  { apply wph_bind. eapply wph_mono; [by apply (load_seg_spec img off s T root fr)|].
    intros a' s' [-> HB]. by split. }
  assert (is_load ph = false) as Hld by (unfold is_load; by rewrite (proj2 (Z.eqb_neq _ _) Hnl)).
  unfold seg_acc, seg_view. rewrite Hld. unfold seg_lo, seg_hi in *. unfold is_tls in *.
  destruct (Z.eqb_spec (ph_type ph) PT_TLS) as [E|Hnt].
  - destruct Hwf as (_ & Hwf & _). unfold is_tls in Hwf. rewrite E in Hwf. destruct (Hwf eq_refl) as (Hm8 & Hms & Hfm & Hoff).
    unfold tls_seg. rewrite (bind_done _ _ _ _ _ Efs).
    rewrite (bind_done _ _ _ (ph_data img ph) s).
    2: { unfold ph_data. destruct (Z.eqb_spec (ph_filesz ph) 0) as [->|Hn]; [by rewrite take_0|].
         by rewrite (bind_done _ _ _ _ _ Eo), (img_bytes_eq img (ph_offset ph) (ph_filesz ph) s) by lia. }
    rewrite (bind_done _ _ _ _ _ Em). apply wph_bind.
    eapply wph_mono; [apply (elf_setup_tls_spec s T root fr); try done; try lia|].
    + by apply Forall_take, Forall_drop.
    + unfold ph_data. rewrite length_take, length_drop. lia.
    + by apply Hno.
    + intros r s1 [-> HB]. rewrite (proj2 (Z.eqb_neq _ _)) by (unfold TLS_USER_BASE; lia).
      rewrite wrap_small by (unfold TCB_SIZE; lia). done.
  - destruct (Z.eqb_spec (ph_type ph) PT_GNU_STACK) as [E|Hns].
    + rewrite (bind_done _ _ _ _ _ Ef). split; [done|]. by apply becomes_refl.
    + split; [done|]. by apply becomes_refl.
Qed.

(** Bytes outside the pages of a segment are not changed by it. *)
Lemma seg_view_outside img V ph a : seg_wf img ph → 0 ≤ ph_memsz ph → ¬ seg_pages ph a → seg_view img V ph a = V a.
Proof.
  intros (Hl & Ht & _) Hm Hn. unfold seg_view, seg_pages in *.
  assert (∀ V lo hi, ¬ (lo ≤ a < hi) → fill V lo hi a = V a) as Hfill.
  { intros V' lo hi Ha. unfold fill. destruct (V' a); [done|]. by rewrite decide_False. }
  assert (∀ V at_ l, ¬ (at_ ≤ a < at_ + Z.of_nat (length l)) → poke V at_ l a = V a) as Hpoke.
  { intros V' at_ l Ha. unfold poke. by rewrite decide_False. }
  pose proof (page_of_le (ph_memsz ph + TCB_SIZE + 4095)). pose proof (page_of_le (ph_vaddr ph + ph_memsz ph + 4095)).
  assert (Z.of_nat (length (ph_data img ph)) ≤ Z.max 0 (ph_filesz ph)) by (unfold ph_data; rewrite length_take; lia).
  unfold seg_lo, seg_hi in *. destruct (is_load ph) eqn:El.
  - destruct (Hl eq_refl) as (_ & _ & Hf & _). assert (is_tls ph = false) as Et.
    { unfold is_load in El. apply andb_true_iff in El as [El%Z.eqb_eq _]. unfold is_tls. by rewrite El. }
    rewrite Et in *. rewrite Hpoke, Hfill; [done|naive_solver|]. intros Ha. apply Hn. split; [by left|]. lia.
  - destruct (is_tls ph); [|done]. destruct (Ht eq_refl) as (_ & _ & Hf & _). unfold TCB_SIZE, tcb_of in *.
    assert (¬ (TLS_USER_BASE ≤ a < TLS_USER_BASE + page_of (ph_memsz ph + 16 + 4095))) as Ha by naive_solver.
    rewrite !Hpoke, Hfill; rewrite ?length_le_bytes; [done|done|lia..].
Qed.

Lemma headers_cons img i n : headers_from img i (S n) =
  phdr_of img (phoff_of img + sizeof_phdr * i) :: headers_from img (i + 1) n.
Proof. unfold headers_from. rewrite seqZ_cons by lia. cbn [fmap list_fmap]. do 2 f_equal. f_equal; lia. Qed.

Lemma header_memsz img i n ph : bytes img → ph ∈ headers_from img i n → 0 ≤ ph_memsz ph.
Proof.
  intros Hb (k & -> & _)%list_elem_of_fmap. destruct (ph_range img (phoff_of img + sizeof_phdr * k) Hb) as (_ & _ & _ & ?). lia.
Qed.

Lemma seg_fold_ext img l : ∀ V V', (∀ b, V b = V' b) → ∀ b, foldl (seg_view img) V l b = foldl (seg_view img) V' l b.
Proof.
  induction l as [|p l IHl]; intros V V' HVV; [done|]. cbn [foldl]. apply IHl. intros c. unfold seg_view.
  assert (∀ W W' at_ l, (∀ b, W b = W' b) → ∀ b, poke W at_ l b = poke W' at_ l b) as Hpk
    by (intros W W' at_ l' HW b'; unfold poke; by rewrite HW).
  assert (∀ lo hi b, fill V lo hi b = fill V' lo hi b) as Hfl by (intros lo hi b'; unfold fill; by rewrite HVV).
  destruct (is_load p); [by apply Hpk|]. destruct (is_tls p); [|done]. by do 3 (apply Hpk; intros).
Qed.

(** The second pass: each header in turn. *)
Lemma load_segs_spec img n : ∀ i s T root fr a, bytes img → space_ok s T root fr → 0 ≤ i →
  phoff_of img + sizeof_phdr * (i + Z.of_nat n) ≤ Z.of_nat (length img) →
  Forall (seg_wf img) (headers_from img i n) →
  (∀ j k ph ph' b, headers_from img i n !! j = Some ph → headers_from img i n !! k = Some ph' →
     seg_pages ph b → seg_pages ph' b → j = k) →
  (∀ ph b, ph ∈ headers_from img i n → seg_pages ph b → ubyte s fr b = None) →
  wph out_of_memory (load_segs n root img (phoff_of img) i a)
    (λ r s', r = Some (foldl seg_acc a (headers_from img i n)) ∧
       becomes root s T fr (foldl (seg_view img) (ubyte s fr) (headers_from img i n)) s') s.
Proof.
  induction n as [|n IH]; intros i s T root fr a Hb HS Hi Hin Hwf Hdj Hno; cbn [load_segs].
  { apply wph_ret. split; [done|]. by apply becomes_refl. }
  pose proof (sub_val_range img 32 8 Hb ltac:(lia)) as Hoff. fold (phoff_of img) in Hoff.
  rewrite headers_cons in *. cbn [foldl]. set (ph := phdr_of img (phoff_of img + sizeof_phdr * i)) in *.
  apply Forall_cons_1 in Hwf as [Hw Hwf]. unfold sizeof_phdr in *. apply wph_bind.
  eapply wph_mono; [apply (one_seg_spec img _ s T root fr a); try done; fold ph; unfold sizeof_phdr; try lia|].
  { intros Ht b Hbr. apply (Hno ph); [left|]. split; [by right|done]. }
  fold ph. intros r s1 [-> (T1 & fr1 & HS1 & HE1 & HV1)].
  assert (0 ≤ ph_memsz ph) as Hm0 by (destruct (ph_range img (phoff_of img + 56 * i) Hb) as (_ & _ & _ & Hx); exact (proj1 Hx)).
  eapply wph_mono; [apply (IH (i + 1) s1 T1 root fr1); try done; try lia|].
  - intros j k p p' b Hj Hk Hp Hp'. apply Nat.succ_inj. by apply (Hdj (S j) (S k) p p' b).
  - intros p b Hp Hpb. rewrite HV1, (seg_view_outside img); [apply (Hno p); [by right|done]|done|done|].
    intros Hph. apply list_elem_of_lookup in Hp as [j Hj]. by pose proof (Hdj 0%nat (S j) ph p b eq_refl Hj Hph Hpb).
  - intros r s2 [-> HB]. split; [done|]. eapply becomes_ext; [by eapply becomes_trans|]. intros b.
    by apply seg_fold_ext.
Qed.

(** The other two passes. *)
Lemma find_interp_eq img s : table_in img →
  find_interp img (phoff_of img) (phnum_of img) s =
  Done (bool_decide (Exists (λ ph, ph_type ph = PT_INTERP) (headers img))) s.
Proof.
  intros (Hb & _ & Hin). pose proof (sub_val_range img 56 2 Hb ltac:(lia)) as Hn. fold (phnum_of img) in Hn.
  pose proof (sub_val_range img 32 8 Hb ltac:(lia)) as Ho. fold (phoff_of img) in Ho.
  unfold find_interp. erewrite (bind_done _ _ _ _ _ (for_up_search _ _ _ (λ i,
    if ph_type (phdr_of img (phoff_of img + sizeof_phdr * i)) =? PT_INTERP then Some tt else None) _ _)). 
  { f_equal. destruct (first_some _ _ _) as [u|] eqn:E; symmetry.
    - apply bool_decide_eq_true_2. apply first_some_Some in E as (j & Hj & E & _).
      destruct (Z.eqb_spec (ph_type (phdr_of img (phoff_of img + sizeof_phdr * j))) PT_INTERP) as [Et|]; [|done].
      apply list.Exists_exists. eexists. split; [|exact Et]. apply list_elem_of_fmap. exists j. split; [done|].
      apply elem_of_seqZ. lia.
    - apply bool_decide_eq_false_2. intros (ph & (j & -> & Hj%elem_of_seqZ)%list_elem_of_fmap & Et)%list.Exists_exists.
      rewrite first_some_None in E. specialize (E j ltac:(lia)). by rewrite Et in E. }
  Unshelve. intros k Hk. unfold sizeof_phdr in *.
  destruct (fields_eq img (phoff_of img + 56 * k) s) as (Et & _); [lia|unfold sizeof_phdr; lia|].
  by rewrite (bind_done _ _ _ _ _ Et).
Qed.

Lemma relro_seg_spec img off s T root fr : let ph := phdr_of img off in
  space_ok s T root fr → bytes img → 0 ≤ off → off + sizeof_phdr ≤ Z.of_nat (length img) → seg_wf img ph →
  wph out_of_memory (relro_seg root img off) (λ _ s', becomes root s T fr (ubyte s fr) s') s.
Proof.
  intros ph HS Hb Ho Hl (_ & _ & Hwf). destruct (fields_eq img off s Ho Hl) as (Et & _ & _ & Ev & _ & Em).
  destruct (ph_range img off Hb) as (_ & Hrv & _ & Hrm). fold ph in Et, Ev, Em, Hrv, Hrm.
  unfold relro_seg, wph. rewrite (bind_done _ _ _ _ _ Et).
  destruct (Z.eqb_spec (ph_type ph) PT_GNU_RELRO) as [E|]; [|by apply becomes_refl].
  specialize (Hwf E). rewrite (bind_done (gets _) _ _ _ _ eq_refl), (bind_done _ _ _ _ _ Ev), (bind_done _ _ _ _ _ Em).
  rewrite wrap_small by (unfold USER_END in *; lia). apply remap_user_range_spec; [done|lia|lia|].
  pose proof (tls_flags_ok s _ true (or_intror eq_refl)) as Hf. by destruct (nx_supported s).
Qed.

Lemma relro_pass img s T root fr : space_ok s T root fr → table_in img → Forall (seg_wf img) (headers img) →
  wph out_of_memory (for_all (Z.to_nat (phnum_of img)) 0 (λ i, relro_seg root img (phoff_of img + sizeof_phdr * i)))
    (λ _ s', becomes root s T fr (ubyte s fr) s') s.
Proof.
  intros HS (Hb & _ & Hin) Hwf. pose proof (sub_val_range img 56 2 Hb ltac:(lia)) as Hn. fold (phnum_of img) in Hn.
  pose proof (sub_val_range img 32 8 Hb ltac:(lia)) as Ho. fold (phoff_of img) in Ho.
  apply (wph_for_all _ _ _ _ (λ _ s', becomes root s T fr (ubyte s fr) s')); [|by apply becomes_refl].
  intros k s1 Hk (T1 & fr1 & HS1 & HE1 & HV1). unfold sizeof_phdr in *.
  eapply wph_mono; [apply (relro_seg_spec img _ s1 T1 root fr1); try done; unfold sizeof_phdr; try lia|].
  - rewrite list.Forall_forall in Hwf. apply Hwf. apply list_elem_of_fmap. exists k. split; [done|]. apply elem_of_seqZ. lia.
  - intros [] s2 HB. eapply becomes_ext; [by eapply becomes_trans|done].
Qed.

(** ** The loaded image *)

(** No page belongs to two segments. *)
Definition segs_apart (l : list phdr) : Prop :=
  ∀ j k ph ph' b, l !! j = Some ph → l !! k = Some ph' → seg_pages ph b → seg_pages ph' b → j = k.

(** What a program finds: its initialised data and zeros after it, the same for
    the thread-local storage with the control block behind it, and nothing
    else. *)
Record loaded (img : list Z) (V : Z → option Z) (a : seg_state) : Prop := {
  ld_load ph i : ph ∈ headers img → is_load ph = true → 0 ≤ i < ph_memsz ph →
    V (ph_vaddr ph + i) = if decide (i < ph_filesz ph) then img !! Z.to_nat (ph_offset ph + i) else Some 0;
  ld_tls ph i : ph ∈ headers img → is_tls ph = true → 0 ≤ i < ph_memsz ph →
    V (TLS_USER_BASE + i) = if decide (i < ph_filesz ph) then img !! Z.to_nat (ph_offset ph + i) else Some 0;
  ld_tcb ph i : ph ∈ headers img → is_tls ph = true → 0 ≤ i < 8 →
    V (tcb_of ph + i) = le_bytes 8 (tcb_of ph) !! Z.to_nat i;
  ld_tls_at ph : ph ∈ headers img → is_tls ph = true → tls_at a = tcb_of ph;
  ld_only b : is_Some (V b) → ∃ ph, ph ∈ headers img ∧ seg_pages ph b;
  ld_base : load_base a = let l := ph_vaddr <$> filter (λ ph, is_load ph = true) (headers img) in
    if bool_decide (l = []) then 0 else foldl Z.min UINTPTR_MAX l;
  ld_max : max_vaddr a =
    foldl Z.max 0 ((λ ph, ph_vaddr ph + ph_memsz ph) <$> filter (λ ph, is_load ph = true) (headers img)) }.

Lemma seg_fold_outside img l : ∀ V b, Forall (seg_wf img) l → Forall (λ ph, 0 ≤ ph_memsz ph) l →
  (∀ ph, ph ∈ l → ¬ seg_pages ph b) → foldl (seg_view img) V l b = V b.
Proof.
  induction l as [|ph l IH]; intros V b Hw Hm Hn; [done|]. apply Forall_cons_1 in Hw as [Hw1 Hw], Hm as [Hm1 Hm].
  cbn [foldl]. rewrite IH; [|done|done|]. { apply seg_view_outside; [done|done|]. apply Hn. by left. }
  intros p Hp. apply Hn. by right.
Qed.

(** The pages of a segment have the bytes it alone puts there. *)
Lemma seg_fold_at img l j ph b : Forall (seg_wf img) l → Forall (λ ph, 0 ≤ ph_memsz ph) l → segs_apart l →
  l !! j = Some ph → seg_pages ph b →
  foldl (seg_view img) (λ _, None) l b = seg_view img (λ _, None) ph b.
Proof.
  intros Hw Hm Hap Hj Hb. pose proof (take_drop_middle l j ph Hj) as El.
  assert (∀ k p, l !! k = Some p → k ≠ j → ¬ seg_pages p b) as Hno
    by (intros k p Hk Hne Hpb; by apply Hne, (Hap k j p ph b)).
  assert (Forall (seg_wf img) (take j l) ∧ Forall (seg_wf img) (drop (S j) l)) as [Hw1 Hw2]
    by (split; [by apply Forall_take|by apply Forall_drop]).
  assert (Forall (λ ph, 0 ≤ ph_memsz ph) (take j l) ∧ Forall (λ ph, 0 ≤ ph_memsz ph) (drop (S j) l)) as [Hm1 Hm2]
    by (split; [by apply Forall_take|by apply Forall_drop]).
  rewrite <-El at 1. rewrite foldl_app. cbn [foldl]. rewrite seg_fold_outside; [|done|done|].
  2: { intros p [k Hk]%list_elem_of_lookup. rewrite lookup_drop in Hk. apply (Hno (S j + k)%nat); [done|lia]. }
  assert (foldl (seg_view img) (λ _, None) (take j l) b = None) as Hb0.
  { rewrite seg_fold_outside; [done|done|done|]. intros p [k Hk]%list_elem_of_lookup.
    apply lookup_take_Some in Hk as [Hk ?]. apply (Hno k); [done|lia]. }
  assert (∀ W W' at_ l, W b = W' b → poke W at_ l b = poke W' at_ l b) as Hpk
    by (intros W W' at_ l' HW; unfold poke; by rewrite HW).
  assert (∀ lo hi, fill (foldl (seg_view img) (λ _, None) (take j l)) lo hi b = fill (λ _, None) lo hi b) as Hfl
    by (intros lo hi; unfold fill; by rewrite Hb0).
  set (W := foldl _ _ (take j l)) in *. unfold seg_view. destruct (is_load ph); [by apply Hpk|].
  destruct (is_tls ph); [by do 3 apply Hpk|done].
Qed.

Lemma load_bytes img ph i : seg_wf img ph → 0 ≤ ph_offset ph → 0 ≤ ph_filesz ph → is_load ph = true → 0 ≤ i < ph_memsz ph →
  seg_pages ph (ph_vaddr ph + i) ∧ seg_view img (λ _, None) ph (ph_vaddr ph + i) =
    if decide (i < ph_filesz ph) then img !! Z.to_nat (ph_offset ph + i) else Some 0.
Proof.
  intros (Hw & _) Ho Hf Hl Hi. destruct (Hw Hl) as (Ha & _ & Hfm & Hoff).
  assert (is_tls ph = false) as Et.
  { unfold is_load in Hl. apply andb_true_iff in Hl as [El%Z.eqb_eq _]. unfold is_tls. by rewrite El. }
  pose proof (page_of_le (ph_vaddr ph + ph_memsz ph + 4095)).
  unfold seg_pages, seg_view, seg_lo, seg_hi. rewrite Et, Hl. split; [split; [by left|lia]|].
  assert (Z.of_nat (length (ph_data img ph)) = ph_filesz ph) as Hlen
    by (unfold ph_data; rewrite length_take, length_drop; lia).
  unfold poke, fill. rewrite Hlen. destruct (decide (i < ph_filesz ph)).
  - rewrite decide_True by lia. unfold ph_data. rewrite lookup_take_lt, lookup_drop by lia. f_equal. lia.
  - rewrite decide_False, decide_True by lia. done.
Qed.

Lemma tls_bytes img ph i : seg_wf img ph → 0 ≤ ph_offset ph → 0 ≤ ph_filesz ph → is_tls ph = true →
  (0 ≤ i < ph_memsz ph → seg_pages ph (TLS_USER_BASE + i) ∧ seg_view img (λ _, None) ph (TLS_USER_BASE + i) =
    if decide (i < ph_filesz ph) then img !! Z.to_nat (ph_offset ph + i) else Some 0) ∧
  (0 ≤ ph_memsz ph → 0 ≤ i < 8 → seg_pages ph (tcb_of ph + i) ∧
    seg_view img (λ _, None) ph (tcb_of ph + i) = le_bytes 8 (tcb_of ph) !! Z.to_nat i).
Proof.
  intros (_ & Hw & _) Ho Hf Hl. destruct (Hw Hl) as (_ & _ & Hfm & Hoff).
  assert (is_load ph = false) as Et by (unfold is_load, is_tls in *; apply Z.eqb_eq in Hl; by rewrite Hl).
  pose proof (page_of_le (ph_memsz ph + TCB_SIZE + 4095)). unfold TCB_SIZE in *.
  assert (Z.of_nat (length (ph_data img ph)) = ph_filesz ph) as Hlen
    by (unfold ph_data; rewrite length_take, length_drop; lia).
  unfold seg_pages, seg_view, seg_lo, seg_hi, tcb_of. rewrite Et, Hl. split; intros Hi; [|intros Hi8];
    (split; [split; [by right|unfold TCB_SIZE; lia]|]); unfold poke, fill; rewrite ?length_le_bytes, ?Hlen.
  - rewrite !(decide_False (P := TLS_USER_BASE + ph_memsz ph + _ ≤ _ < _)), (decide_False (P := TLS_USER_BASE + ph_memsz ph ≤ _ < _)) by lia.
    destruct (decide (i < ph_filesz ph)).
    + rewrite decide_True by lia. unfold ph_data. rewrite lookup_take_lt, lookup_drop by lia. f_equal. lia.
    + rewrite decide_False, decide_True by (unfold TCB_SIZE; lia). done.
  - rewrite (decide_False (P := TLS_USER_BASE + ph_memsz ph + 8 ≤ _ < _)), decide_True by lia. f_equal. lia.
Qed.

Lemma seg_acc_bounds l : ∀ a,
  load_base (foldl seg_acc a l) = foldl Z.min (load_base a) (ph_vaddr <$> filter (λ ph, is_load ph = true) l) ∧
  max_vaddr (foldl seg_acc a l) =
    foldl Z.max (max_vaddr a) ((λ ph, ph_vaddr ph + ph_memsz ph) <$> filter (λ ph, is_load ph = true) l).
Proof.
  induction l as [|ph l IH]; intros a; [done|]. cbn [foldl]. destruct (IH (seg_acc a ph)) as [-> ->].
  rewrite filter_cons. unfold seg_acc. destruct (is_load ph) eqn:E.
  - rewrite decide_True by done. cbn. split; [f_equal; destruct (Z.ltb_spec (ph_vaddr ph) (load_base a)); lia|].
    f_equal. destruct (Z.ltb_spec (max_vaddr a) (ph_vaddr ph + ph_memsz ph)); lia.
  - rewrite decide_False by done. destruct (is_tls ph); [done|]. by destruct (ph_type ph =? PT_GNU_STACK).
Qed.

Lemma seg_acc_tls l : ∀ a j ph, segs_apart l → Forall (λ ph, 0 ≤ ph_memsz ph) l → l !! j = Some ph → is_tls ph = true →
  tls_at (foldl seg_acc a l) = tcb_of ph.
Proof.
  assert (∀ p, 0 ≤ ph_memsz p → is_tls p = true → seg_pages p TLS_USER_BASE) as Hpg.
  { intros p Hm Ht. unfold seg_pages, seg_lo, seg_hi. rewrite Ht. split; [by right|].
    pose proof (page_of_le (ph_memsz p + TCB_SIZE + 4095)). unfold TCB_SIZE in *. lia. }
  assert (∀ p a, is_tls p = false → tls_at (seg_acc a p) = tls_at a) as Hacc.
  { intros p a Hp. unfold seg_acc. rewrite Hp. destruct (is_load p); [done|]. by destruct (ph_type p =? PT_GNU_STACK). }
  intros a j ph Hap Hm Hj Ht. pose proof (take_drop_middle l j ph Hj) as El.
  assert (∀ l' a, (∀ p, p ∈ l' → is_tls p = false) → tls_at (foldl seg_acc a l') = tls_at a) as Hnone.
  { induction l' as [|p l' IH]; intros a' Hl'; [done|]. cbn [foldl]. rewrite IH; [apply Hacc, Hl'; by left|].
    intros q Hq. apply Hl'. by right. }
  rewrite <-El, foldl_app. cbn [foldl]. rewrite Hnone.
  - unfold seg_acc. assert (is_load ph = false) as -> by (unfold is_load, is_tls in *; apply Z.eqb_eq in Ht; by rewrite Ht).
    by rewrite Ht.
  - intros p [k Hk]%list_elem_of_lookup. rewrite lookup_drop in Hk. destruct (is_tls p) eqn:Ep; [|done]. exfalso.
    rewrite list.Forall_forall in Hm.
    assert (S j + k = j)%nat; [|lia]. eapply (Hap _ _ p ph TLS_USER_BASE); [exact Hk|exact Hj|..];
      (apply Hpg; [|done]); apply Hm; by eapply list_elem_of_lookup_2.
Qed.

Lemma loaded_fold img a0 V : table_in img → Forall (seg_wf img) (headers img) → segs_apart (headers img) →
  (∀ b, V b = foldl (seg_view img) (λ _, None) (headers img) b) → load_base a0 = UINTPTR_MAX → max_vaddr a0 = 0 →
  let a := foldl seg_acc a0 (headers img) in
  loaded img V (a <| load_base := if load_base a =? UINTPTR_MAX then 0 else load_base a |>).
Proof.
  intros (Hb & _) Hwf Hap HV Hlb Hmv a.
  assert (∀ ph, ph ∈ headers img → 0 ≤ ph_offset ph ∧ 0 ≤ ph_vaddr ph < 2 ^ 64 ∧ 0 ≤ ph_filesz ph ∧ 0 ≤ ph_memsz ph) as Hr.
  { intros ph (k & -> & _)%list_elem_of_fmap. destruct (ph_range img (phoff_of img + sizeof_phdr * k) Hb) as (? & ? & ? & ?). lia. }
  assert (Forall (λ ph, 0 ≤ ph_memsz ph) (headers img)) as Hm by (apply list.Forall_forall; intros ph Hph; by apply Hr).
  assert (∀ ph, ph ∈ headers img → seg_wf img ph) as Hw by (by apply list.Forall_forall).
  assert (∀ ph b, ph ∈ headers img → seg_pages ph b → V b = seg_view img (λ _, None) ph b) as Hat.
  { intros ph b [j Hj]%list_elem_of_lookup Hpb. rewrite HV. by eapply seg_fold_at. }
  destruct (seg_acc_bounds (headers img) a0) as [E1 E2]. split.
  - intros ph i Hph Hl Hi. destruct (Hr ph Hph) as (? & _ & ? & _).
    destruct (load_bytes img ph i) as [Hp <-]; auto.
  - intros ph i Hph Hl Hi. destruct (Hr ph Hph) as (? & _ & ? & _).
    destruct (tls_bytes img ph i) as [Ht _]; auto. destruct (Ht Hi) as [Hp <-]. auto.
  - intros ph i Hph Hl Hi. destruct (Hr ph Hph) as (? & _ & ? & ?).
    destruct (tls_bytes img ph i) as [_ Ht]; auto. destruct Ht as [Hp <-]; auto.
  - intros ph [j Hj]%list_elem_of_lookup Ht. cbn. by eapply seg_acc_tls.
  - intros b Hs. rewrite HV in Hs.
    destruct (decide (Exists (λ ph, (is_load ph = true ∨ is_tls ph = true) ∧ seg_lo ph ≤ b < seg_hi ph) (headers img))) as [He|Hn].
    + by apply list.Exists_exists in He.
    + rewrite seg_fold_outside in Hs; [by destruct Hs|done|done|]. intros ph Hph Hpb. apply Hn, list.Exists_exists. by exists ph.
  - cbn. unfold a. rewrite E1, Hlb. cbn zeta. set (l := ph_vaddr <$> _).
    case_bool_decide as El; [by rewrite El|]. rewrite (proj2 (Z.eqb_neq _ _)); [done|].
    assert (∀ l m, m ≤ UINTPTR_MAX → Forall (λ x, x < UINTPTR_MAX) l → l ≠ [] → foldl Z.min m l < UINTPTR_MAX) as Hlt.
    { clear. induction l as [|x l IH]; intros m Hm Hl Hne; [done|]. apply Forall_cons_1 in Hl as [Hx Hl]. cbn [foldl].
      destruct l as [|y l]; [cbn; lia|]. apply IH; [lia|done|done]. }
    apply Z.lt_neq, Hlt; [done| |done]. unfold l. apply list.Forall_forall. 
    intros x (ph & -> & [Hl Hph]%list_elem_of_filter)%list_elem_of_fmap. destruct (Hw ph Hph) as (Hld & _).
    destruct (Hld Hl) as (_ & Hend & _). destruct (Hr ph Hph) as (_ & _ & _ & ?). unfold TLS_USER_BASE, UINTPTR_MAX in *. lia.
  - cbn. unfold a. by rewrite E2, Hmv.
Qed.

(** An image without interpreter whose loadable segments start on page
    boundaries and share no pages is loaded (or the machine stops because
    physical memory is exhausted): every byte of every segment is the byte of
    the image, or zero after the initialised part; the thread-local storage is
    set up with its control block; nothing else is mapped; the lowest and the
    highest address are reported; no other space and no page in use is changed. *)
Theorem elf_load_segments_correct s T root img :
  space_ok s T root ∅ → table_in img → Forall (seg_wf img) (headers img) → segs_apart (headers img) →
  Forall (λ ph, ph_type ph ≠ PT_INTERP) (headers img) →
  wph out_of_memory (elf_load_segments root img)
    (λ r s', ∃ a T' fr, r = Some a ∧ space_ok s' T' root fr ∧ evolves root s s' T T' ∅ fr ∧
       loaded img (ubyte s' fr) a) s.
Proof.
  intros HS Htab Hwf Hap Hni. pose proof Htab as (Hb & Hlen & Hin).
  pose proof (sub_val_range img 56 2 Hb ltac:(lia)) as Hn. fold (phnum_of img) in Hn.
  pose proof (sub_val_range img 32 8 Hb ltac:(lia)) as Ho. fold (phoff_of img) in Ho.
  assert (Forall (λ ph, 0 ≤ ph_memsz ph) (headers img)) as Hm.
  { apply list.Forall_forall. intros ph Hph. by eapply header_memsz. }
  unfold elf_load_segments, wph. unfold e_phoff, e_phnum.
  rewrite (bind_done _ _ _ _ _ (img_val_eq img 32 8 s ltac:(lia) ltac:(lia) ltac:(lia))). fold (phoff_of img).
  rewrite (bind_done _ _ _ _ _ (img_val_eq img 56 2 s ltac:(lia) ltac:(lia) ltac:(lia))). fold (phnum_of img).
  rewrite (bind_done _ _ _ _ _ (find_interp_eq img s Htab)). rewrite bool_decide_eq_false_2.
  2: { intros (ph & Hph & Et)%list.Exists_exists. rewrite list.Forall_forall in Hni. by apply (Hni ph). }
  assert (∀ b, ubyte s ∅ b = None) as Hnone by done.
  apply wph_bind. eapply wph_mono; [apply (load_segs_spec img _ 0 s T root ∅); try done|].
  { unfold sizeof_phdr in *. lia. }
  fold (headers img). intros r s1 [-> (T1 & fr1 & HS1 & HE1 & HV1)]. cbn beta iota.
  apply wph_bind. eapply wph_mono; [by apply (relro_pass img s1 T1 root fr1)|].
  intros [] s2 (T2 & fr2 & HS2 & HE2 & HV2). apply wph_ret.
  eexists _, T2, fr2. split_and!; [done|done|by eapply evolves_trans|].
  assert (∀ b, ubyte s2 fr2 b = foldl (seg_view img) (λ _, None) (headers img) b) as HV.
  { intros b. rewrite HV2, HV1. by apply seg_fold_ext. }
  by apply loaded_fold.
Qed.

(** ** A new space *)

(** The loop of [vmm_create_user_pml4]. *)
Lemma copy_half_spec (kernel root : Z) s : resident (mem s) kernel → resident (mem s) root →
  kernel `mod` 4096 = 0 → root `mod` 4096 = 0 → kernel ≠ root →
  wp (for_all 256 256 (λ i, e ← rd (kernel + 8 * i); wr (root + 8 * i) e))
    (λ _ s', ∃ m, s' = s <| mem := m |> ∧ (∀ t, resident (mem s) t → resident m t) ∧
       (∀ t, t `mod` 4096 = 0 → t ≠ root → same_page (mem s) m t) ∧
       (∀ i, 0 ≤ i < 256 → word m root i = word (mem s) root i) ∧
       (∀ i, 256 ≤ i < 512 → word m root i = word (mem s) kernel i)) s.
Proof.
  intros Hk Hr Hka Hra Hne.
  eapply wp_mono; [apply (wp_for_all 256 256 _ (λ k s', ∃ m, s' = s <| mem := m |> ∧
    (∀ t, resident (mem s) t → resident m t) ∧ (∀ t, t `mod` 4096 = 0 → t ≠ root → same_page (mem s) m t) ∧
    (∀ i, 0 ≤ i < 256 → word m root i = word (mem s) root i) ∧
    (∀ i, 256 ≤ i < k → word m root i = word (mem s) kernel i)))|done].
  - intros k s' Hk' (m & -> & A1 & A2 & A3 & A4). apply wp_bind, wp_rd; [by apply A1|lia|]. cbn.
    apply wp_wr; [by apply A1|lia|]. eexists. split_and!; [done|..].
    + intros t Ht. by apply resident_insert, A1.
    + intros t Ht Hnt. eapply same_page_trans; [by apply A2|]. apply same_page_insert; done || lia.
    + intros i Hi. rewrite word_insert, decide_False by lia. auto.
    + intros i Hi. cbn. rewrite word_insert by lia. case_decide; [|apply A4; lia]. subst.
      apply same_page_word; [by apply A2|lia].
  - exists (mem s). split_and!; try done; [by destruct s|lia].
Qed.

(** A top table whose kernel half is that of the kernel's and whose user half is
    empty. *)
Section NewRoot.
Context (s s2 : mst) (T : gmap Z (Z * list Z)) (root kernel : Z).
Context (HT : ptree s2 T) (Hk : is_root T kernel) (Hnew : T !! root = None).
Context (Hroot : root `mod` 4096 = 0 ∧ hhdm < root ∧ root + 4096 ≤ 2 ^ 64 ∧ resident (mem s2) root ∧ ¬ page_free s2 root).
Context (Hz : ∀ i, 0 ≤ i < 256 → word (mem s2) root i = 0).
Context (Hh : ∀ i, 256 ≤ i < 512 → word (mem s2) root i = word (mem s2) kernel i).

Lemma new_root_ok : space_ok s2 (<[root := (root, [])]> T) root ∅ ∧
  ∀ v, 256 ≤ PML4_IDX v → translate s2 root v = translate s2 kernel v.
Proof.
  assert (∀ v, 0 ≤ v < USER_END → word (mem s2) root (idx 4 v) = 0) as Hu.
  { intros v Hv. apply Hz. pose proof (user_idx v Hv). pose proof (idx_ok 4 v). cbn in *. lia. }
  split.
  - split; try done.
    + destruct Hroot as (Ha & Hlo & Hhi & Hr & Hf). split.
      * apply (pt_mem _ _ HT).
      * intros t r l. rewrite lookup_insert. case_decide; [|apply (pt_depth _ _ HT)]. intros [= <- <-]. cbn. lia.
      * intros t rl. rewrite lookup_insert. case_decide; [|apply (pt_page _ _ HT)]. intros _. subst t. split_and!; done || lia.
      * intros t r l i. rewrite lookup_insert. case_decide as Et; intros Ht Hl Hi e Hp Hlf.
        -- injection Ht as <- <-. subst t. unfold e in *. destruct (decide (i < 256)) as [Hlt|Hge].
           { rewrite Hz in Hp by lia. done. }
           rewrite Hh in * by lia. rewrite lookup_insert_ne.
           { rewrite (pt_child _ _ HT kernel kernel [] i); try done. unfold below; cbn.
             rewrite !bool_decide_eq_true_2 by (split; [done|lia]). done. }
           intros E. pose proof (pt_child _ _ HT kernel kernel [] i Hk ltac:(cbn; lia) Hi Hp Hlf) as Hc. cbn in Hc.
           rewrite <-E in Hc. congruence.
        -- rewrite lookup_insert_ne; [by apply (pt_child _ _ HT)|]. intros E.
           pose proof (pt_child _ _ HT t r l i Ht Hl Hi Hp Hlf) as Hc. cbn in Hc. unfold e in E. rewrite <-E in Hc. congruence.
    + apply lookup_insert_eq.
    + intros v Hv _. apply trans_absent. by rewrite Hu.
    + intros v Hv. cbn [plain]. by rewrite Hu.
  - intros v Hv. unfold translate. cbn [trans]. rewrite Hh by (pose proof (idx_ok 4 v); cbn in *; lia). done.
Qed.
End NewRoot.

Lemma vmm_create_user_pml4_spec s T : ptree s T → is_root T (kernel_pml4 s) →
  wph out_of_memory vmm_create_user_pml4
    (λ root s', ∃ T', space_ok s' T' root ∅ ∧ evolves root s s' T T' ∅ ∅ ∧ page_free s root ∧
       ∀ v, 256 ≤ PML4_IDX v → translate s' root v = translate s (kernel_pml4 s) v) s.
Proof.
  intros HT Hk. unfold vmm_create_user_pml4. apply wph_bind.
  eapply wph_mono; [apply palloc_zero_spec, (pt_mem _ _ HT)|]. intros phys s1 (p & -> & _ & HG & Hm1).
  apply wph_bind, wph_gets. destruct (gp_range _ _ _ HG) as [Hlo Hhi]. rewrite phys_virt by done.
  assert (kernel_pml4 s1 = kernel_pml4 s) as -> by (by destruct (gp_rest _ _ _ HG) as (? & ? & ->)).
  destruct (pt_page _ _ HT _ _ Hk) as (Hka & _ & _ & Hkr & Hkf).
  assert (T !! p = None) as Hp.
  { destruct (T !! p) as [rl|] eqn:E; [|done]. exfalso. by apply (pt_page _ _ HT p _ E), (gp_free _ _ _ HG). }
  assert (kernel_pml4 s ≠ p) as Hne by (intros E; unfold is_root in Hk; rewrite E in Hk; congruence).
  apply wph_bind, wph_wp. eapply wp_mono; [apply (copy_half_spec (kernel_pml4 s) p s1); try done|].
  { by apply (gp_resident _ _ _ HG). } { apply (gp_page _ _ _ HG). } { apply (gp_align _ _ _ HG). }
  intros [] s2 (m & -> & A1 & A2 & A3 & A4). set (s2 := s1 <| mem := m |>).
  assert (∀ t rl, T !! t = Some rl → same_page (mem s) m t) as Hsame.
  { intros t rl Ht. destruct (pt_page _ _ HT t _ Ht) as (Hta & _). assert (t ≠ p) by congruence.
    eapply same_page_trans; [by apply (gp_same _ _ _ HG)|]. by apply A2. }
  assert (∀ q, page_free s2 q → page_free s q) as Hfree by (intros q Hq; by apply (gp_left _ _ _ HG) in Hq as [? _]).
  destruct (tables_frame s s2 T HT) as [HT2 Htr]; [by apply mem_ok_mem|..|done|].
  { intros t Ht. by apply A1, (gp_resident _ _ _ HG). } { done. }
  destruct (new_root_ok s2 T p (kernel_pml4 s) HT2 Hk Hp) as [HS Hhalf].
  { split_and!; [apply (gp_align _ _ _ HG)|done|done|apply A1, (gp_page _ _ _ HG)|]. by intros [_ ?]%(gp_left _ _ _ HG). }
  { intros i Hi. cbn. rewrite A3 by done. apply (gp_zero _ _ _ HG). lia. }
  { intros i Hi. cbn. rewrite A4 by done. symmetry. apply same_page_word; [|lia]. apply A2; done. }
  apply wph_ret. exists (<[p := (p, [])]> T). split_and!; [done| |apply (gp_free _ _ _ HG)|].
  - split; try done.
    + by apply insert_subseteq.
    + intros q Hq. rewrite lookup_insert. case_decide; [|intros [? ?]; congruence]. subst q. intros _. apply (gp_free _ _ _ HG).
    + intros root' v Hr' _. by apply Htr.
    + intros q Hqa _ Hqf _. assert (q ≠ p) by (intros ->; by apply Hqf, (gp_free _ _ _ HG)).
      eapply same_page_trans; [by apply (gp_same _ _ _ HG)|]. by apply A2.
    + destruct (gp_rest _ _ _ HG) as (b & m' & E). exists (Some b), m. unfold s2. by rewrite E.
  - intros v Hv. rewrite Hhalf by done. by apply Htr.
Qed.

(** The two steps together. *)
Lemma new_image_spec s T img :
  ptree s T → is_root T (kernel_pml4 s) →
  table_in img → Forall (seg_wf img) (headers img) → segs_apart (headers img) →
  Forall (λ ph, ph_type ph ≠ PT_INTERP) (headers img) →
  wph out_of_memory (new_image img)
    (λ r s', ∃ a T' fr, r.2 = Some a ∧ space_ok s' T' r.1 fr ∧ evolves r.1 s s' T T' ∅ fr ∧
       loaded img (ubyte s' fr) a ∧
       ∀ v, 256 ≤ PML4_IDX v → translate s' r.1 v = translate s (kernel_pml4 s) v) s.
Proof.
  intros HT Hk Htab Hwf Hap Hni. unfold new_image. apply wph_bind.
  eapply wph_mono; [by apply vmm_create_user_pml4_spec|]. intros root s1 (T1 & HS1 & HE1 & _ & Hh1).
  apply wph_bind. eapply wph_mono; [by apply (elf_load_segments_correct s1 T1)|].
  intros r s2 (a & T2 & fr & -> & HS2 & HE2 & Hld). apply wph_ret. exists a, T2, fr.
  split_and!; [done|done|by eapply evolves_trans|done|]. intros v Hv.
  rewrite (ev_other _ _ _ _ _ _ _ HE2) by (try apply (so_root _ _ _ _ HS1); by right). by apply Hh1.
Qed.

(** C31: A new process image.  The kernel half of the new space is the kernel's.
    An image without interpreter whose loadable segments start on page
    boundaries and share no pages is loaded (or the machine stops because
    physical memory is exhausted): every byte of every segment is the byte of
    the image, or zero after the initialised part; the thread-local storage is
    set up with its control block; nothing else is mapped; the lowest and the
    highest address are reported; no other space and no page in use is changed. *)
Theorem new_image_correct s T img :
  ptree s T → is_root T (kernel_pml4 s) →
  table_in img → Forall (seg_wf img) (headers img) → segs_apart (headers img) →
  Forall (λ ph, ph_type ph ≠ PT_INTERP) (headers img) →
  wph out_of_memory (new_image img)
    (λ r s', ∃ a T' fr, r.2 = Some a ∧ space_ok s' T' r.1 fr ∧ evolves r.1 s s' T T' ∅ fr ∧
       loaded img (ubyte s' fr) a ∧
       ∀ v, 256 ≤ PML4_IDX v → translate s' r.1 v = translate s (kernel_pml4 s) v) s.
Proof. apply new_image_spec. Qed.

(** An image that is refused changes nothing.  One that asks for an interpreter
    is refused after the new space has been made: the process keeps its address
    and the table is not given back. *)
Lemma populate_refused fx self p img argv envp seed s : elf_validate img s = Done (-1) s →
  process_populate_from_elf fx self p img argv envp seed s = Done (-1, p, seed) s.
Proof. intros E. unfold process_populate_from_elf. by rewrite (bind_done _ _ _ _ _ E). Qed.

Lemma populate_interp fx self p img argv envp seed s T : ptree s T → is_root T (kernel_pml4 s) →
  table_in img → elf_validate img s = Done 0 s → Exists (λ ph, ph_type ph = PT_INTERP) (headers img) →
  wph out_of_memory (process_populate_from_elf fx self p img argv envp seed)
    (λ r s', ∃ root, r = (-1, p <| pml4 := root |>, seed) ∧ page_free s root ∧ ¬ page_free s' root) s.
Proof.
  intros HT Hk Htab Ev Hi. pose proof Htab as (Hb & Hlen & _).
  unfold process_populate_from_elf, wph. rewrite (bind_done _ _ _ _ _ Ev). cbn [Z.ltb Z.compare].
  unfold new_image. apply wph_bind, wph_bind.
  eapply wph_mono; [by apply vmm_create_user_pml4_spec|]. intros root s1 (T1 & HS1 & HE1 & Hfree & _).
  unfold elf_load_segments, wph. unfold e_phoff, e_phnum. unfold mbind at 1, M_bind at 1.
  rewrite (bind_done _ _ _ _ _ (img_val_eq img 32 8 s1 ltac:(lia) ltac:(lia) ltac:(lia))). fold (phoff_of img).
  rewrite (bind_done _ _ _ _ _ (img_val_eq img 56 2 s1 ltac:(lia) ltac:(lia) ltac:(lia))). fold (phnum_of img).
  rewrite (bind_done _ _ _ _ _ (find_interp_eq img s1 Htab)). rewrite bool_decide_eq_true_2 by done. cbn.
  destruct (pt_page _ _ (so_tree _ _ _ _ HS1) _ _ (so_root _ _ _ _ HS1)) as (_ & _ & _ & _ & Hf).
  by exists root.
Qed.

(** A copy into one page of another space does not go to its address but to
    twice the offset of the address in the page: [vmm_virt_to_phys] has already
    added the offset once.  The bytes appear at the wrong address of the space,
    or, from the middle of the page on, outside its frame. *)
Theorem hhdm_copy_misplaced s T root fr a p l : space_ok s T root fr → fr !! page_of a = Some p → l ≠ [] → bytes l →
  low12 a + Z.of_nat (length l) ≤ 4096 →
  hhdm_copy_to_user root a l s = store_bytes (u64 (p + 2 * low12 a)) l s ∧
  (2 * low12 a + Z.of_nat (length l) ≤ 4096 →
     wp (hhdm_copy_to_user root a l) (λ _ s', ∀ b, ubyte s' fr b = poke (ubyte s fr) (a + low12 a) l b) s) ∧
  (2048 ≤ low12 a → p + 4096 ≤ p + 2 * low12 a).
Proof.
  intros HS Hp Hne Hb Hl. assert (0 < Z.of_nat (length l)) by (destruct l; [done|cbn; lia]).
  pose proof (copy_page_eq s T root fr a p l HS Hp Hne Hl) as E. split_and!; [done| |lia].
  intros H2. unfold wp. rewrite E. destruct (page_split a) as [Ea Ho].
  destruct (so_frame _ _ _ _ HS _ _ Hp) as (_ & ? & ? & _). destruct hhdm_ok as [? _]. rewrite wrap_small by lia.
  assert (page_of (a + low12 a) = page_of a ∧ low12 (a + low12 a) = 2 * low12 a) as [Epg Elo].
  { rewrite Ea at 1 4. rewrite <-Z.add_assoc. rewrite (proj1 (page_of_add _ (low12 a + low12 a) (page_of_aligned a) ltac:(lia))).
    rewrite (proj2 (page_of_add _ (low12 a + low12 a) (page_of_aligned a) ltac:(lia))). split; [done|lia]. }
  rewrite <-Elo. eapply (wp_mono (store_bytes _ _)); [apply (poke_frame s T root fr (a + low12 a) p l HS); [by rewrite Epg|lia|done]|].
  by intros [] s' (_ & _ & HV).
Qed.

(** ** The vectors of the initial stack *)

(** A word of kernel memory outside the tables and the space. *)
Definition held s T fr (a x : Z) : Prop :=
  let t := translate s (kernel_pml4 s) a in let q := PHYS_TO_VIRT t in
  is_root T (kernel_pml4 s) ∧ 256 ≤ PML4_IDX a ∧ t ≠ 0 ∧ q `mod` 8 = 0 ∧ mem s !! q = Some x ∧
  T !! page_of q = None ∧ ¬ page_free s (page_of q) ∧ ∀ v, fr !! v ≠ Some (page_of q).

Lemma held_vrd s T fr a x : held s T fr a x → vrd a s = Done x s.
Proof.
  intros (_ & _ & Hnz & _ & Hm & _). unfold vrd. rewrite (proj2 (Z.eqb_neq _ _) Hnz). unfold rd. by rewrite Hm.
Qed.

Lemma held_evolves root s s' T T' fr fr' a x : evolves root s s' T T' fr fr' → held s T fr a x → held s' T' fr' a x.
Proof.
  intros HE (Hr & Ha & Hnz & H8 & Hm & HT & Hf & Hfr). unfold held.
  assert (kernel_pml4 s' = kernel_pml4 s) as -> by (by destruct (ev_rest _ _ _ _ _ _ _ HE) as (? & ? & ->)).
  rewrite (ev_other _ _ _ _ _ _ _ HE) by auto. set (q := PHYS_TO_VIRT _) in *. split_and!; try done.
  - eapply lookup_weaken; [done|apply (ev_sub _ _ _ _ _ _ _ HE)].
  - destruct (word_split q H8) as [Eq Hi]. rewrite Eq in Hm |- *.
    rewrite <-Hm. apply (ev_data _ _ _ _ _ _ _ HE); [apply page_of_aligned|done..].
  - destruct (T' !! page_of q) eqn:E; [|done]. destruct Hf. by apply (ev_table _ _ _ _ _ _ _ HE); [|eexists].
  - intros Hx. by apply Hf, (ev_free _ _ _ _ _ _ _ HE).
  - intros v Hv. destruct (fr !! v) as [p|] eqn:E.
    + pose proof (lookup_weaken _ _ _ _ E (ev_fr _ _ _ _ _ _ _ HE)). apply (Hfr v). congruence.
    + by apply Hf, (ev_new _ _ _ _ _ _ _ HE v).
Qed.

(** Words of the kernel heap are such words. *)
Lemma held_heap s T frh a : heap_ok s T frh → in_heap s a → held s T ∅ a (hword s frh a).
Proof.
  intros Hok Ha. destruct (in_heap_frame _ _ _ _ Hok Ha) as [p Hp].
  destruct (heap_translate _ _ _ _ _ Hok Ha Hp) as [Hne E]. destruct (word_split a (proj1 Ha)) as [_ Hi].
  destruct (ho_frame _ _ _ Hok _ _ Hp) as (Hpa & _ & _ & Hres & Hf & HT). unfold held. rewrite E.
  assert (page_of (p + 8 * (low12 a `div` 8)) = p) as -> by (rewrite page_of_sub; Z.div_mod_to_equations; lia).
  split_and!; try done.
  - apply (ho_root _ _ _ Hok).
  - destruct Ha as [_ Ha]. destruct (ho_top _ _ _ Hok) as [Htop _]. unfold PML4_IDX.
    change 511 with (Z.ones 9). rewrite Z.land_ones, Z.shiftr_div_pow2 by done.
    unfold HEAP_BASE, HEAP_LIMIT in *. change (2 ^ 39) with 549755813888. change (2 ^ 9) with 512.
    Z.div_mod_to_equations. lia.
  - Z.div_mod_to_equations. lia.
  - unfold hword. rewrite Hp. unfold word. by destruct (Hres _ Hi) as [x ->].
Qed.

Definition words (l : list Z) : list Z := flat_map (le_bytes 8) l.

Lemma length_words l : Z.of_nat (length (words l)) = 8 * Z.of_nat (length l).
Proof. unfold words. induction l as [|x l IH]; [done|]. cbn [flat_map length]. rewrite length_app, length_le_bytes. lia. Qed.

Section Push.
Context (root sp0 : Z) (s0 : mst) (T : gmap Z (Z * list Z)) (fr : gmap Z Z) (room : Z).
Context (Hsp : sp0 `mod` 8 = 0 ∧ 0 ≤ room ∧ room ≤ sp0 < 2 ^ 64).
Context (Hroom : ∀ b, room ≤ b < sp0 → is_Some (ubyte s0 fr b)).

(** The words [l] have been pushed, the last one first. *)
Definition pushed (l : list Z) (sp : Z) (s : mst) : Prop :=
  sp = sp0 - 8 * Z.of_nat (length l) ∧ space_ok s T root fr ∧ evolves root s0 s T T fr fr ∧
  ∀ b, ubyte s fr b = poke (ubyte s0 fr) sp (words l) b.

Lemma push_spec l sp s x : pushed l sp s → room ≤ sp - 8 →
  wp (push root sp x) (λ sp' s', pushed (x :: l) sp' s') s.
Proof.
  intros (-> & HS & HE & HV) Hr. unfold push. pose proof (length_words l) as Hlw.
  rewrite wrap_small by lia. apply wp_bind.
  eapply wp_mono; [eapply (write64_becomes s0 T root fr s); try done|].
  - unfold poke. rewrite decide_False by lia. apply Hroom. lia.
  - rewrite low12_mod. Z.div_mod_to_equations. lia.
  - intros [] s' (HS' & HE' & HV'). apply wp_ret. split_and!; [cbn [length]; lia|done|done|].
    intros b. rewrite HV'. unfold poke. rewrite !length_words, length_le_bytes. cbn [length].
    unfold words. cbn [flat_map]. fold (words l).
    destruct (decide (sp0 - 8 * Z.of_nat (length l) - 8 ≤ b < sp0 - 8 * Z.of_nat (length l))).
    + rewrite !decide_True by lia. rewrite lookup_app_l by (rewrite length_le_bytes; lia). done.
    + rewrite (decide_False (P := _ ≤ b < sp0 - 8 * Z.of_nat (length l) - 8 + Z.of_nat 8)) by lia.
      repeat case_decide; try lia; [|done]. rewrite lookup_app_r by (rewrite length_le_bytes; lia).
      rewrite length_le_bytes. f_equal. lia.
Qed.

Lemma push_auxv_spec aux : ∀ l sp s, pushed l sp s → room ≤ sp - 16 * Z.of_nat (length aux) →
  wp (push_auxv root sp aux)
    (λ sp' s', pushed (mjoin ((λ tv, [tv.1; tv.2]) <$> reverse aux) ++ l) sp' s') s.
Proof.
  induction aux as [|[t v] aux IH]; intros l sp s HP Hr; cbn [push_auxv length] in *; [done|].
  apply wp_bind. eapply wp_mono; [apply (push_spec l); [done|lia]|]. intros sp1 s1 HP1.
  pose proof HP1 as (E1 & _). pose proof HP as (E & _). cbn [length] in E1.
  apply wp_bind. eapply wp_mono; [apply (push_spec (v :: l)); [done|lia]|]. intros sp2 s2 HP2.
  pose proof HP2 as (E2 & _). cbn [length] in E2.
  eapply wp_mono; [apply (IH (t :: v :: l)); [done|lia]|]. intros sp3 s3 HP3.
  rewrite reverse_cons, fmap_app, join_app, <-app_assoc. done.
Qed.

Lemma push_array_spec arr n : ∀ l sp s (xs : list Z), pushed l sp s → length xs = n →
  (∀ i x, xs !! i = Some x → held s0 T fr (arr + 8 * Z.of_nat i) x) → room ≤ sp - 8 * Z.of_nat n →
  wp (push_array root arr sp n) (λ sp' s', pushed (xs ++ l) sp' s') s.
Proof.
  induction n as [|n IH]; intros l sp s xs HP Hlen Hh Hr; cbn [push_array].
  { apply nil_length_inv in Hlen as ->. done. }
  destruct (xs !! n) as [x|] eqn:Ex; [|apply lookup_ge_None in Ex; lia].
  assert (xs = take n xs ++ [x]) as Exs.
  { rewrite <-(take_drop_middle xs n x Ex) at 1. rewrite (drop_ge xs) by lia. done. }
  pose proof HP as (E & HS & HE & _).
  apply wp_bind. eapply wp_of_eq; [by eapply held_vrd, held_evolves, Hh|].
  apply wp_bind. eapply wp_mono; [apply (push_spec l); [done|lia]|]. intros sp1 s1 HP1.
  pose proof HP1 as (E1 & _). cbn [length] in E1.
  eapply wp_mono; [apply (IH (x :: l) sp1 s1 (take n xs)); [done| | |lia]|].
  - rewrite length_take. lia.
  - intros i y Hi. apply lookup_take_Some in Hi as [Hi _]. by apply Hh.
  - intros sp2 s2 HP2. rewrite Exs, <-app_assoc. done.
Qed.
End Push.

Lemma align_sp_ok u argc envc : 8 ≤ u < 2 ^ 64 →
  align_sp u argc envc `mod` 16 = 0 ∧ 0 ≤ align_sp u argc envc ≤ u.
Proof.
  intros Hu. unfold align_sp. set (x := if Z.odd _ then _ else _).
  assert (0 ≤ x ≤ u) as Hx by (unfold x; destruct (Z.odd _); rewrite ?wrap_small; lia).
  assert (Z.land x (Z.lnot 0xF) = x - x `mod` 16) as ->.
  { rewrite <-Z.sub_land_same_l. change 0xF with (Z.ones 4). by rewrite Z.land_ones. }
  Z.div_mod_to_equations. lia.
Qed.

(** C32: The vectors of the initial stack: from the final stack pointer upwards
    the program finds [argc], the pointers of [argv] and a null, those of [envp]
    and a null, and the auxiliary vector from its last pair to [AT_NULL]; no
    other byte changes.  The stack pointer is not a multiple of 16 when
    [argc + envc] is even, since the padding comes before the alignment. *)
Theorem push_vectors_correct s T root fr u uargv uenvp (argvp envpp : list Z) (aux : list (Z * Z)) :
  let argc := Z.of_nat (length argvp) in let envc := Z.of_nat (length envpp) in
  let sp0 := align_sp u argc envc in
  let n := 2 * Z.of_nat (length aux) + argc + envc + 3 in
  space_ok s T root fr → 8 ≤ u < 2 ^ 64 → 0 ≤ sp0 - 8 * n →
  (∀ b, sp0 - 8 * n ≤ b < sp0 → is_Some (ubyte s fr b)) →
  (∀ i x, argvp !! i = Some x → held s T fr (uargv + 8 * Z.of_nat i) x) →
  (∀ i x, envpp !! i = Some x → held s T fr (uenvp + 8 * Z.of_nat i) x) →
  wp (push_vectors root sp0 uargv uenvp argc envc aux)
    (λ sp s', sp = sp0 - 8 * n ∧ sp `mod` 16 = (if Z.even (argc + envc) then 8 else 0) ∧
       space_ok s' T root fr ∧ evolves root s s' T T fr fr ∧
       ∀ b, ubyte s' fr b = poke (ubyte s fr) sp
         (words ([argc] ++ argvp ++ [0] ++ envpp ++ [0] ++ mjoin ((λ tv, [tv.1; tv.2]) <$> reverse aux))) b) s.
Proof.
  intros argc envc sp0 n HS Hu Hlow Hmap Hargv Henv. destruct (align_sp_ok u argc envc Hu) as [H16 Hr]. fold sp0 in H16, Hr.
  assert (sp0 `mod` 8 = 0 ∧ 0 ≤ sp0 - 8 * n ∧ sp0 - 8 * n ≤ sp0 < 2 ^ 64) as Hsp.
  { unfold n, argc, envc in *. split_and!; try lia. Z.div_mod_to_equations. lia. }
  assert (pushed root sp0 s T fr [] sp0 s) as HP0.
  { split_and!; [cbn; lia|done|apply evolves_refl|]. intros b. unfold poke. rewrite decide_False by (cbn; lia). done. }
  set (pairs := mjoin ((λ tv, [tv.1; tv.2]) <$> reverse aux)).
  assert (Z.of_nat (length pairs) = 2 * Z.of_nat (length aux)) as Hpl.
  { unfold pairs. rewrite <-(length_reverse aux). generalize (reverse aux). intros l. induction l as [|tv l IH]; [done|].
    change (mjoin ((λ tv, [tv.1; tv.2]) <$> tv :: l)) with ([tv.1; tv.2] ++ mjoin ((λ tv, [tv.1; tv.2]) <$> l)).
    rewrite length_app. cbn [length]. lia. }
  pose proof (push_spec root sp0 s T fr _ Hsp Hmap) as Hpush.
  unfold push_vectors. apply wp_bind.
  eapply wp_mono; [apply (push_auxv_spec root sp0 s T fr _ Hsp Hmap aux []); [done|unfold n, argc, envc; lia]|].
  fold pairs. rewrite app_nil_r. intros sp1 s1 HP1. pose proof HP1 as (E1 & _).
  apply wp_bind. eapply wp_mono; [apply (Hpush pairs); [done|unfold n, argc, envc; lia]|].
  intros sp2 s2 HP2. pose proof HP2 as (E2 & _). cbn [length] in E2.
  apply wp_bind. eapply wp_mono; [apply (push_array_spec root sp0 s T fr _ Hsp Hmap uenvp _ (0 :: pairs) sp2 s2 envpp);
    [done|unfold envc; lia|done|unfold n, argc, envc in *; lia]|].
  intros sp3 s3 HP3. pose proof HP3 as (E3 & _). rewrite length_app in E3. cbn [length] in E3.
  apply wp_bind. eapply wp_mono; [apply (Hpush (envpp ++ 0 :: pairs)); [done|unfold n, argc, envc in *; lia]|].
  intros sp4 s4 HP4. pose proof HP4 as (E4 & _). cbn [length] in E4. rewrite length_app in E4. cbn [length] in E4.
  apply wp_bind. eapply wp_mono; [apply (push_array_spec root sp0 s T fr _ Hsp Hmap uargv _ (0 :: envpp ++ 0 :: pairs) sp4 s4 argvp);
    [done|unfold argc; lia|done|unfold n, argc, envc in *; lia]|].
  intros sp5 s5 HP5. pose proof HP5 as (E5 & _). repeat (rewrite ?length_app in E5; cbn [length] in E5).
  eapply wp_mono; [apply (Hpush (argvp ++ 0 :: envpp ++ 0 :: pairs)); [done|unfold n, argc, envc in *; lia]|].
  intros sp6 s6 (E6 & HS6 & HE6 & HV6). repeat (rewrite ?length_app in E6; cbn [length] in E6).
  assert (sp6 = sp0 - 8 * n) as -> by (unfold n, argc, envc in *; lia).
  split_and!; [done| |done|done|done].
  pose proof (Zmod_even (argc + envc)) as Hev. unfold n in *. destruct (Z.even _); Z.div_mod_to_equations; lia.
Qed.
End Segments.
