(* ===== verification/MemExamples.v ===== *)
(** * Memory management at work

    Machine states, with the buddy allocator underneath, on which the theorems
    on memory management apply. *)

From S2P Require Import Prelude Bytes BuddyBits Bitset BuddyTree Buddy Mem PageBuddy Paging Region Vmm Heap Slab Realloc MemFile.

(** ** The allocator *)

Definition the_hhdm : Z := 0xffff800000000000.
Lemma the_hhdm_ok : 0 < the_hhdm < 2 ^ 64 ∧ the_hhdm `mod` 4096 = 0.
Proof. by vm_compute. Qed.

#[local] Instance ex_buddy : Buddy := znu_buddy the_hhdm.
#[local] Instance ex_buddy_ok : BuddyOk := znu_buddy_ok the_hhdm the_hhdm_ok.

Definition pg (n : Z) : Z := the_hhdm + 4096 * n.

(** Memory that holds no allocator yet. *)
Definition raw : bud := mkBud 0 0 0 0 0 0 0 0 ∅.

(** An arena of [n] pages from page 1 on; its metadata is at page 0. *)
Definition new_arena (n : Z) : bud :=
  match buddy_init the_hhdm (pg 1) (4096 * n) raw with Done _ b => b | _ => raw end.

Lemma new_arena_ok n : 1 ≤ n ≤ 1000 →
  pages_ok the_hhdm (new_arena n) ∧
  (∀ q, free_page the_hhdm (new_arena n) q ↔ q `mod` 4096 = 0 ∧ pg 1 ≤ q ∧ q + 4096 ≤ pg (n + 1)) ∧
  (∀ q, ¬ used_page the_hhdm (new_arena n) q).
Proof.
  intros Hn. pose proof (init_page the_hhdm raw the_hhdm (pg 1) (4096 * n)) as H.
  apply wp_run in H as (p & b & E & -> & H1 & H2 & H3); try (unfold pg, the_hhdm; lia); [|done..].
  unfold new_arena. rewrite E. split_and!; [done| |done]. intros q. rewrite H2.
  replace (pg 1 + 4096 * n) with (pg (n + 1)) by (unfold pg; lia). done.
Qed.

(** The first [k] pages that are allocated. *)
Fixpoint take_pages (k : nat) (b : bud) : option (list Z * bud) :=
  match k with
  | O => Some ([], b)
  | S k =>
      match buddy_malloc 4096 b with
      | Done p b' => if p =? 0 then None else '(l, b'') ← take_pages k b'; Some (p :: l, b'')
      | _ => None
      end
  end.

Lemma take_pages_ok k : ∀ b l b', pages_ok the_hhdm b → take_pages k b = Some (l, b') →
  pages_ok the_hhdm b' ∧
  (∀ q, free_page the_hhdm b' q ↔ free_page the_hhdm b q ∧ q ∉ l) ∧
  (∀ q, used_page the_hhdm b' q ↔ used_page the_hhdm b q ∨ q ∈ l).
Proof.
  induction k as [|k IH]; intros b l b' Hb E; cbn [take_pages] in E.
  - injection E as <- <-. split_and!; [done|..]; intros q; set_unfold; naive_solver.
  - pose proof (malloc_page the_hhdm b Hb) as Hm. apply wp_run in Hm as (p & b1 & E1 & Hb1 & Hm).
    rewrite E1 in E. destruct (Z.eqb_spec p 0) as [|Hp]; [done|]. rewrite decide_False in Hm by done.
    destruct Hm as (_ & Hf & Hu). apply bind_Some in E as ([l2 b2] & E2 & [= <- <-]).
    destruct (IH b1 l2 b2 Hb1 E2) as (H1 & H2 & H3). split_and!; [done|..]; intros q.
    + rewrite H2, Hf, not_elem_of_cons. tauto.
    + rewrite H3, Hu, elem_of_cons. tauto.
Qed.

(** ** Machine states *)

(** Zeroed pages. *)
Definition zero_pages (l : list Z) : gmap Z Z :=
  list_to_map (p ← l; (λ i, (p + 8 * i, 0)) <$> seqZ 0 512).

Lemma zero_pages_val l a v : zero_pages l !! a = Some v → v = 0.
Proof.
  intros (p & Hp & Hl)%elem_of_list_to_map_2%list_elem_of_bind.
  apply list_elem_of_fmap in Hp as (i & E & _). by injection E.
Qed.

Lemma zero_pages_resident l p : p ∈ l → resident (zero_pages l) p.
Proof.
  intros Hp i Hi. apply not_eq_None_Some. intros E. apply not_elem_of_list_to_map_2 in E.
  apply E, list_elem_of_fmap. exists (p + 8 * i, 0). split; [done|].
  apply list_elem_of_bind. exists p. split; [|done].
  apply list_elem_of_fmap. exists i. split; [done|]. apply elem_of_seqZ. lia.
Qed.

Lemma zero_pages_word l p i : word (zero_pages l) p i = 0.
Proof.
  unfold word. destruct (zero_pages l !! _) as [v|] eqn:E; [|done]. by apply zero_pages_val in E.
Qed.

(** The allocator after [k] allocations. *)
Definition arena (k n : Z) : bud :=
  match take_pages (Z.to_nat k) (new_arena n) with Some (_, b) => b | None => raw end.

(** [n] pages of physical memory, the first [k] of them allocated, the words
    [ents]. *)
Definition machine (k n : Z) (ents : list (Z * Z)) : mst :=
  {| mem := foldr (λ av m, <[av.1 := av.2]> m) (zero_pages (pg <$> seqZ 1 n)) ents;
     pmm_buddy := Some (arena k n);
     total_system_pages := n; arena_phys_base := 0; arena_total_len := 4096 * n;
     kernel_pml4 := pg 1; nx_supported := true; heap_virtual_top := 0; buckets := replicate 8 0 |}.

Lemma machine_resident k n ents p :
  p ∈ pg <$> seqZ 1 n → resident (mem (machine k n ents)) p.
Proof.
  intros Hp. cbn [mem machine]. induction ents as [|[a v] ents IH]; simpl;
    [by apply zero_pages_resident|by apply resident_insert].
Qed.

(** The allocator hands out the pages in order. *)
Definition taken (k n : Z) : Prop :=
  1 ≤ n ≤ 1000 ∧ fst <$> take_pages (Z.to_nat k) (new_arena n) = Some (pg <$> seqZ 1 k).

Lemma arena_ok_taken k n : taken k n →
  pages_ok the_hhdm (arena k n) ∧
  (∀ q, free_page the_hhdm (arena k n) q → ∃ i, q = pg i ∧ k < i ∧ 1 ≤ i < n + 1) ∧
  (∀ q, used_page the_hhdm (arena k n) q ↔ q ∈ pg <$> seqZ 1 k).
Proof.
  intros [Hn E]. destruct (new_arena_ok n Hn) as (H1 & H2 & H3).
  apply fmap_Some in E as ([l b] & E & El). simpl in El. subst l.
  destruct (take_pages_ok _ _ _ _ H1 E) as (T1 & T2 & T3). unfold arena. rewrite E.
  split_and!; [done|..]; intros q.
  - rewrite T2, H2. intros [(Hq & Hlo & Hhi) Hnot]. exists ((q - the_hhdm) `div` 4096).
    assert (q = pg ((q - the_hhdm) `div` 4096)) as Eq
      by (unfold pg, the_hhdm in *; Z.div_mod_to_equations; lia).
    split; [done|]. rewrite Eq in Hnot, Hlo, Hhi. set (i := _ `div` _) in *.
    assert (1 ≤ i < n + 1) by (unfold pg in *; lia).
    split; [|done]. destruct (decide (k < i)); [done|]. destruct Hnot.
    apply list_elem_of_fmap. exists i. split; [done|]. apply elem_of_seqZ. unfold pg in *. lia.
  - rewrite T3. pose proof (H3 q). tauto.
Qed.

Lemma machine_ok k n ents : taken k n → mem_ok (machine k n ents).
Proof.
  intros Ht. destruct (arena_ok_taken k n Ht) as (H1 & H2 & _). exists (arena k n).
  split_and!; [done|done|]. intros p Hp. destruct (H2 p Hp) as (i & -> & Hk & Hi).
  apply machine_resident, list_elem_of_fmap. exists i. split; [done|]. apply elem_of_seqZ. lia.
Qed.

(** The allocated pages are not free. *)
Lemma machine_not_free k n ents i : taken k n → i ≤ k → ¬ page_free (machine k n ents) (pg i).
Proof.
  intros Ht Hi (f & Ef & Hp). cbn in Ef. injection Ef as <-.
  destruct (arena_ok_taken k n Ht) as (_ & H2 & _). destruct (H2 _ Hp) as (j & E & Hk & Hj). unfold pg in E. lia.
Qed.

(** ** Deciding well-formedness of concrete tables *)

Definition all_below (w : Z) (f : Z → bool) : bool := forallb f (seqZ 0 w).

Lemma all_below_sound w f : all_below w f = true → ∀ i, 0 ≤ i < w → f i = true.
Proof.
  intros H i Hi. unfold all_below in H. rewrite forallb_forall in H. apply H.
  apply list_elem_of_In, elem_of_seqZ. lia.
Qed.

Definition childb (m : gmap Z Z) (T : gmap Z (Z * list Z)) (tp : Z * (Z * list Z)) : bool :=
  let '(t, (r, l)) := tp in
  bool_decide (length l ≤ 3)%nat && bool_decide (t `mod` 4096 = 0 ∧ the_hhdm < t ∧ t + 4096 ≤ 2 ^ 64) &&
  (bool_decide (3 ≤ length l)%nat || all_below 512 (λ i,
     let e := word m t i in
     negb (has e PTE_PRESENT) || is_leaf (level l) e ||
     bool_decide (T !! table_of e = Some (below (r, l) i)))).

Lemma ptree_decide k n ents T :
  taken k n →
  forallb (childb (mem (machine k n ents)) T) (map_to_list T) = true →
  (∀ t rl, T !! t = Some rl → ∃ i, t = pg i ∧ 1 ≤ i < 1 + n ∧ i ≤ k) →
  ptree (machine k n ents) T.
Proof.
  intros Htk Hb Hpg.
  assert (∀ t rl, T !! t = Some rl → childb (mem (machine k n ents)) T (t, rl) = true) as Hc.
  { intros t rl Ht. rewrite forallb_forall in Hb. apply Hb, list_elem_of_In.
    by apply elem_of_map_to_list. }
  split.
  - by apply machine_ok.
  - intros t r l Ht. specialize (Hc t _ Ht). unfold childb in Hc.
    rewrite !andb_true_iff, !bool_decide_eq_true in Hc. tauto.
  - intros t [r l] Ht. specialize (Hc t _ Ht). unfold childb in Hc.
    rewrite !andb_true_iff, !bool_decide_eq_true in Hc. destruct Hc as [[_ (Ha & Hlo & Hhi)] _].
    destruct (Hpg t _ Ht) as (i & -> & Hi & Hk).
    split_and!; [done|simpl; lia|done| |by apply machine_not_free].
    apply machine_resident, list_elem_of_fmap. exists i. split; [done|]. apply elem_of_seqZ. lia.
  - intros t r l i Ht Hl Hi e Hp Hlf. specialize (Hc t _ Ht). unfold childb in Hc.
    rewrite !andb_true_iff, orb_true_iff in Hc. destruct Hc as [_ [Hc|Hc]].
    { apply bool_decide_eq_true in Hc. lia. }
    apply all_below_sound with (i := i) in Hc; [|done]. cbn zeta in Hc. fold e in Hc.
    rewrite Hp, Hlf in Hc. by apply bool_decide_eq_true in Hc.
Qed.

(** The address [0x400000] is mapped to page 5 by the tables in pages 1 to 4. *)
Definition one_page : mst :=
  machine 5 32 [(pg 1, 0x2007); (pg 2, 0x3007); (pg 3 + 8 * 2, 0x4007); (pg 4, 0x5007); (pg 5 + 8, 42)].
Definition tables : gmap Z (Z * list Z) :=
  list_to_map [(pg 1, (pg 1, [])); (pg 2, (pg 1, [0])); (pg 3, (pg 1, [0; 0]));
               (pg 4, (pg 1, [0; 0; 2]))].

Lemma five_taken : taken 5 32.
Proof. split; [lia|]. by vm_compute. Qed.

Lemma one_page_tree : ptree one_page tables.
Proof.
  apply ptree_decide; [apply five_taken|by vm_compute|]. intros t rl Ht%elem_of_list_to_map_2.
  repeat (apply elem_of_cons in Ht as [E|Ht]; [injection E as -> ->; eexists; split; [done|lia]|]).
  by apply not_elem_of_nil in Ht.
Qed.

Lemma one_page_root : is_root tables (pg 1).
Proof. by vm_compute. Qed.

Lemma one_page_plain : plain 4 (mem one_page) (pg 1) 0x400000.
Proof. vm_compute. repeat split. Qed.

(** Mapping the page again, unmapping it, walking to it. *)
Lemma map_page_correct_witness :
  wph out_of_memory (map_page (pg 1) 0x401000 0x7000 7)
    (λ _ s', (∃ T', remapped 1 one_page s' tables T' (pg 1) 0x401000) ∧
       ∀ virt', page_of virt' = page_of 0x401000 →
       translate s' (pg 1) virt' = u64 (page_of 0x7000 + low12 virt')) one_page.
Proof.
  apply map_page_correct;
    [apply one_page_tree|apply one_page_root|vm_compute; repeat split|by vm_compute].
Defined.

Lemma unmap_page_correct_witness :
  wp (unmap_page (pg 1) 0x400000)
    (λ _ s', remapped 1 one_page s' tables tables (pg 1) 0x400000 ∧
       translate s' (pg 1) 0x400000 = 0) one_page.
Proof. apply unmap_page_correct; [apply one_page_tree|apply one_page_root|apply one_page_plain]. Defined.

Lemma vmm_virt_to_phys_correct_witness :
  vmm_virt_to_phys (pg 1) 0x400123 one_page = Done (translate one_page (pg 1) 0x400123) one_page ∧
  translate one_page (pg 1) 0x400123 = 0x5123.
Proof.
  split; [|by vm_compute].
  apply (vmm_virt_to_phys_correct one_page tables); [apply one_page_tree|apply one_page_root].
Defined.

Lemma one_page_high off : 0 ≤ off < 0x201000 → plain 4 (mem one_page) (pg 1) (0x80000000 + off).
Proof.
  assert (word (mem one_page) (pg 1) 0 = 0x2007) as W1 by (by vm_compute).
  assert (word (mem one_page) (pg 2) 2 = 0) as W2 by (by vm_compute).
  assert (table_of 0x2007 = pg 2) as Et by (by vm_compute).
  generalize dependent (mem one_page). intros m W1 W2 Hoff.
  destruct (idx_div (0x80000000 + off)) as (_ & _ & D3 & D4). cbn [plain idx].
  assert (PML4_IDX (0x80000000 + off) = 0) as -> by (rewrite D4; Z.div_mod_to_equations; lia).
  assert (PDP_IDX (0x80000000 + off) = 2) as -> by (rewrite D3; Z.div_mod_to_equations; lia).
  rewrite W1, Et, W2. intros _. by split.
Qed.

(** A region of 2 MiB and one page: one large page and one small one. *)
Lemma vmm_map_region_correct_witness :
  wph out_of_memory (vmm_map_region (pg 1) 0x80000000 0x40000000 0x201000 3)
    (λ _ s', ∃ T', mapped_from (pg 1) 0x80000000 0x40000000 0x201000 one_page s' tables T' 0)
    one_page.
Proof.
  apply vmm_map_region_correct; [split_and!; by vm_compute..|split; by vm_compute|
    split; by vm_compute|apply one_page_tree|apply one_page_root|].
  apply one_page_high.
Defined.

(** ** Cloning and freeing the address space *)

Fixpoint in_useb (n : nat) (m : gmap Z Z) (k src : Z) : bool :=
  bool_decide (src ∈ pg <$> seqZ 1 k) &&
  match n with
  | O => true
  | S n' => all_below (width n) (λ j,
      let e := word m src j in if goes n e then in_useb n' m k (table_of e) else true)
  end.

Lemma machine_in_use k w ents src :
  k ≤ w → taken k w → src ∈ pg <$> seqZ 1 k →
  src `mod` 4096 = 0 ∧ resident (mem (machine k w ents)) src ∧
  ¬ page_free (machine k w ents) src.
Proof.
  intros Hkw Ht (i & -> & Hi%elem_of_seqZ)%list_elem_of_fmap. split_and!.
  - unfold pg, the_hhdm. Z.div_mod_to_equations. lia.
  - apply machine_resident, list_elem_of_fmap. exists i. split; [done|]. apply elem_of_seqZ. lia.
  - apply machine_not_free; [done|lia].
Qed.

Lemma in_use_decide n k w ents src : k ≤ w → taken k w →
  in_useb n (mem (machine k w ents)) k src = true → in_use n (machine k w ents) src.
Proof.
  intros Hkw Ht. revert src. induction n as [|n IH]; intros src; cbn [in_useb in_use];
    rewrite andb_true_iff, bool_decide_eq_true; intros [Hp Hk];
    destruct (machine_in_use k w ents src Hkw Ht Hp) as (? & ? & ?); split_and!; try done.
  intros j Hj Hg. apply all_below_sound with (i := j) in Hk; [|done]. cbn zeta in Hk.
  rewrite Hg in Hk. by apply IH.
Qed.

Lemma vmm_clone_pml4_correct_witness :
  wph out_of_memory (vmm_clone_pml4 (pg 1))
    (λ dst s', dst ≠ 0 ∧ ∃ N, cloned one_page s' (pg 1) dst N) one_page ∧
  frame 4 (mem one_page) (pg 1) 0x400000 = Some (pg 5).
Proof.
  split; [|by vm_compute]. apply vmm_clone_pml4_correct; [apply machine_ok, five_taken|].
  apply in_use_decide; [done|apply five_taken|]. by vm_compute.
Defined.

(** The clone really is made: five pages are taken from the allocator. *)
Example clone_runs :
  match vmm_clone_pml4 (pg 1) one_page with
  | Done dst s' => dst ≠ pg 1 ∧
      match frame 4 (mem s') dst 0x400000 with
      | Some f => f ≠ pg 5 ∧ word (mem s') f 1 = 42
      | None => False
      end
  | _ => False
  end.
Proof. vm_compute. split; [done|]. by split. Qed.

Lemma one_page_owned : owned one_page (pg 1) (pages 4 (mem one_page) (pg 1) 256).
Proof.
  assert (pages 4 (mem one_page) (pg 1) 256 = [pg 5; pg 4; pg 3; pg 2]) as -> by (by vm_compute).
  assert (∀ q, q ∈ [pg 5; pg 4; pg 3; pg 2] → q ∈ pg <$> seqZ 1 5) as Hin.
  { apply list.Forall_forall, (bool_decide_unpack _). by vm_compute. }
  split.
  - apply machine_ok, five_taken.
  - split; [done|]. by apply (machine_in_use 5 32); [|apply five_taken|vm_compute; left].
  - apply (bool_decide_unpack _). by vm_compute.
  - intros q Hq%Hin. split; [|by apply (machine_in_use 5 32); [|apply five_taken|]].
    exists (arena 5 32). split; [done|]. by apply (arena_ok_taken 5 32 five_taken).
Qed.

Lemma vmm_free_user_pages_correct_witness :
  wp (vmm_free_user_pages (pg 1))
    (λ _ s', released one_page s' (pg 1) (pages 4 (mem one_page) (pg 1) 256) ∧
       (∀ j, 256 ≤ j < 512 → word (mem s') (pg 1) j = word (mem one_page) (pg 1) j) ∧
       (∀ virt, PML4_IDX virt < 256 → frame 4 (mem s') (pg 1) virt = None)) one_page.
Proof. apply vmm_free_user_pages_correct; [by vm_compute|apply one_page_owned]. Defined.

(** ** The allocator itself *)

Lemma buddy_tree_layout_witness :
  (∀ i, node 13 i → 0 ≤ loc 13 i ∧ 1 ≤ lo 13 i ∧ loc 13 i + lo 13 i ≤ 8 * set_bytes 13) ∧
  (∀ i j a b, node 13 i → node 13 j → i ≠ j → 0 ≤ a < lo 13 i → 0 ≤ b < lo 13 j →
     loc 13 i + a ≠ loc 13 j + b) ∧
  set_bytes 13 ≤ 8 * table_word 13 ∧ 8 * (table_word 13 + 13 + 1) ≤ buddy_tree_sizeof 13 - 24.
Proof. apply buddy_tree_layout. lia. Defined.

(** An arena of 40 pages, which is not a power of two. *)
Lemma buddy_init_correct_witness :
  wp (buddy_init the_hhdm (pg 1) 163840)
    (λ p s', p = the_hhdm ∧ arena_main s' = pg 1 ∧ memory_size s' = 163840 - 163840 `mod` 64 ∧
       ∃ A, buddy_ok s' A ∧ ∀ q, A q → memory_size s' ≤ boff (order s') q) raw.
Proof. apply buddy_init_correct; by vm_compute. Defined.

Lemma buddy_malloc_correct_witness : ∃ A, buddy_ok (new_arena 40) A ∧
  wp (buddy_malloc 5000)
    (λ p s', (p = 0 ∧ s' = new_arena 40 ∧
        (memory_size (new_arena 40) < 5000 ∨
         ∀ q, bsz (order (new_arena 40)) q = 2 ^ fit 5000 → ¬ free_in (order (new_arena 40)) A q)) ∨
      (∃ q m, p = addr_of (new_arena 40) q ∧ free_in (order (new_arena 40)) A q ∧
        bsz (order (new_arena 40)) q = 2 ^ fit 5000 ∧ in_range (new_arena 40) q ∧
        s' = (new_arena 40) <| tbytes := m |> ∧ buddy_ok s' (λ r, A r ∨ r = q))) (new_arena 40).
Proof.
  destruct (new_arena_ok 40 ltac:(lia)) as ((A & Hok & _) & _). exists A. split; [done|].
  apply buddy_malloc_correct; [done|lia].
Defined.

(** It succeeds, with a block of 8 KiB. *)
Example malloc_runs :
  match buddy_malloc 5000 (new_arena 40) with
  | Done p b => pg 1 ≤ p ∧ p `mod` 4096 = 0 ∧
      match buddy_alloc_size p b with Done n _ => n = 8192 | _ => False end
  | _ => False
  end.
Proof. vm_compute. by repeat split. Qed.

Lemma buddy_free_correct_witness : ∃ A i,
  buddy_ok (arena 5 32) A ∧ A i ∧ in_range (arena 5 32) i ∧ pg 1 = addr_of (arena 5 32) i ∧
  wp (buddy_free (addr_of (arena 5 32) i))
    (λ _ s', (∃ m, s' = (arena 5 32) <| tbytes := m |>) ∧ buddy_ok s' (λ r, A r ∧ r ≠ i)) (arena 5 32).
Proof.
  destruct (arena_ok_taken 5 32 five_taken) as (_ & _ & Hu).
  destruct (proj2 (Hu (pg 1))) as (A & i & (Hok & _) & _ & Hi & Hr & E).
  { apply (bool_decide_unpack _). by vm_compute. }
  exists A, i. split_and!; [done..|]. exact (proj1 (buddy_free_correct (arena 5 32) A i 4096 Hok Hi Hr)).
Defined.

(** A memory map with two usable entries. *)
Definition ex_map : list memmap_entry :=
  [mkEntry 0 0x1000 0; mkEntry 0x1000 0x2000 1; mkEntry 0x3000 0x20000 0].
Definition ex_boot : mst :=
  {| mem := zero_pages (pg <$> seqZ 0 40); pmm_buddy := None;
     total_system_pages := 0; arena_phys_base := 0; arena_total_len := 0;
     kernel_pml4 := 0; nx_supported := true; heap_virtual_top := 0; buckets := replicate 8 0 |}.

Lemma ex_map_ok : ∀ e, usable ex_map e → memmap_ok the_hhdm ex_boot e.
Proof.
  assert (∀ b l, 0 ≤ b → 0 ≤ l → b + l ≤ 0x23000 → ∀ p, p `mod` 4096 = 0 → b + the_hhdm ≤ p →
    p + 4096 ≤ b + l + the_hhdm → resident (mem ex_boot) p) as Hres.
  { intros b l Hb Hl Hbl p Hp Hlo Hhi. apply zero_pages_resident, list_elem_of_fmap.
    exists ((p - the_hhdm) `div` 4096). unfold pg, the_hhdm in *.
    split; [Z.div_mod_to_equations; lia|]. apply elem_of_seqZ. Z.div_mod_to_equations; lia. }
  intros e [He Ht]. unfold ex_map in He.
  repeat (apply elem_of_cons in He as [-> |He];
    [first [discriminate Ht|split_and!; [done..|]; by apply Hres]|]).
  by apply not_elem_of_nil in He.
Qed.

Lemma init_pmm_correct_witness :
  wp (init_pmm raw ex_map)
    (λ _ s', ∃ e, usable ex_map e ∧ (∀ e', usable ex_map e' → e_length e' ≤ e_length e) ∧
       initialised the_hhdm the_hhdm_ok s' e) ex_boot.
Proof.
  apply init_pmm_correct; [apply ex_map_ok|]. exists (mkEntry 0x3000 0x20000 0).
  split; [split; [right; right; left|done]|by vm_compute].
Defined.

(** ** The heap *)

(** Addresses above the user half meet an empty entry of the top table. *)
Lemma one_page_heap v : HEAP_BASE ≤ v < HEAP_LIMIT → plain 4 (mem one_page) (pg 1) v.
Proof.
  intros Hv. destruct (idx_div v) as (_ & _ & _ & E). cbn zeta in E.
  assert (256 ≤ PML4_IDX v < 512) as Hi.
  { rewrite E. unfold HEAP_BASE, HEAP_LIMIT in Hv. Z.div_mod_to_equations. lia. }
  assert (all_below 512 (λ i, (i <? 1) || (word (mem one_page) (pg 1) i =? 0)) = true) as Hz by (by vm_compute).
  pose proof (all_below_sound _ _ Hz (PML4_IDX v) ltac:(lia)) as H0. cbn beta in H0.
  apply orb_true_iff in H0 as [H0|H0]; [apply Z.ltb_lt in H0; lia|]. apply Z.eqb_eq in H0.
  cbn [plain idx]. rewrite H0. done.
Qed.

Definition heap0 : mst := match init_slab one_page with Done _ s => s | _ => one_page end.

Lemma heap0_inv : slab_inv heap0 (λ _, 0) empty_layout.
Proof.
  destruct (init_slab_ok one_page tables one_page_tree one_page_root eq_refl one_page_heap) as (s' & E & HI).
  unfold heap0. by rewrite E.
Qed.

Lemma heap0_room n : 0 ≤ n ≤ 2 ^ 40 → room heap0 n.
Proof.
  intros Hn. unfold room, pages_for, HEAP_LIMIT. change (heap_virtual_top heap0) with HEAP_BASE.
  unfold HEAP_BASE. change (2 ^ 40) with 1099511627776 in Hn. Z.div_mod_to_equations. lia.
Qed.

Lemma kmalloc_correct_witness :
  wph out_of_memory (kmalloc 100) (λ p s',
    if decide (100 = 0) then p = 0 ∧ s' = heap0 else
    ∃ h' G', allocated (λ _, 0) empty_layout 100 p s' h' G' ∧ p `mod` 16 = 0 ∧
      HEAP_BASE ≤ p ∧ p + 100 ≤ heap_virtual_top s' ∧
      ∀ q l, object empty_layout q l → apart p 100 q l) heap0.
Proof.
  apply (kmalloc_correct heap0 (λ _, 0) empty_layout 100); [apply heap0_inv|lia|apply heap0_room; lia].
Defined.

(** The heap after an allocation of 100 bytes. *)
Definition obj1 : Z := HEAP_BASE + 32.

Definition returns {A} (c : M mst A) (s : mst) (f : A → bool) : bool :=
  match c s with Done a _ => f a | _ => false end.
Definition state_after {A} (c : M mst A) (s : mst) : mst :=
  match c s with Done _ s' => s' | _ => s end.

Lemma wph_returns {A} H (c : M mst A) Q s f :
  wph H c Q s → returns c s f = true → ∃ a, f a = true ∧ Q a (state_after c s).
Proof. unfold wph, returns, state_after. destruct (c s) as [a s'| |]; [|done..]. by exists a. Qed.

Definition heap1 : mst := state_after (kmalloc 100) heap0.

Lemma heap1_returns : returns (kmalloc 100) heap0 (λ p, p =? obj1) = true.
Proof. vm_compute. reflexivity. Qed.

#[local] Opaque kmalloc heap0.

Lemma heap1_inv : ∃ h G l, slab_inv heap1 h G ∧ object G obj1 l ∧ 100 ≤ l ≤ 2048.
Proof.
  pose proof (kmalloc_ok heap0 (λ _, 0) empty_layout 100 heap0_inv ltac:(lia) ltac:(apply heap0_room; lia)) as Hk.
  destruct (wph_returns _ _ _ _ _ Hk heap1_returns) as (p & ->%Z.eqb_eq & h & G & [HI _ _ (len & Hlen & Hobj) _]).
  assert (object G obj1 len) as Hp by (apply Hobj; left; split; reflexivity). exists h, G, len.
  fold heap1 in HI. split; [exact HI|]. split; [exact Hp|]. lia.
Qed.

Lemma kfree_correct_witness : ∃ h G, slab_inv heap1 h G ∧
  ∃ m h' G', kfree obj1 heap1 = Done tt (heap1 <| mem := m |>) ∧ slab_inv (heap1 <| mem := m |>) h' G' ∧
    (∀ q k, object G' q k ↔ object G q k ∧ q ≠ obj1) ∧ kept G obj1 h h'.
Proof.
  destruct heap1_inv as (h & G & l & HI & Hp & _). exists h, G. split; [exact HI|].
  apply (kfree_correct heap1 h G obj1 l HI Hp).
Defined.

Lemma krealloc_correct_witness : ∃ h G l, slab_inv heap1 h G ∧ object G obj1 l ∧
  wph out_of_memory (krealloc obj1 1000) (λ q s', ∃ h' G' len, slab_inv s' h' G' ∧ q ≠ 0 ∧ (∀ k, ¬ object G q k) ∧ 1000 ≤ len ∧
    (1000 ≤ 2048 → len ≤ 2048) ∧
    (∀ r k, object G' r k ↔ (r = q ∧ k = len) ∨ (object G r k ∧ r ≠ obj1)) ∧
    (∀ i, 0 ≤ i < Z.min l 1000 → hbyte h' (q + i) = hbyte h (obj1 + i)) ∧
    (∀ r k b, object G r k → r ≠ obj1 → r ≤ b < r + k → hbyte h' b = hbyte h b)) heap1.
Proof.
  destruct heap1_inv as (h & G & l & HI & Hp & Hl). exists h, G, l. split; [exact HI|]. split; [exact Hp|].
  apply (krealloc_correct heap1 h G obj1 l 1000 HI Hp); [lia|lia|].
  unfold room. vm_compute. discriminate.
Defined.

Lemma mem_file_correct_witness : ∃ h G l, slab_inv heap1 h G ∧ let f := mkMfile obj1 5 in file_rep h G f l ∧
  (∀ size offset, 0 ≤ offset → 0 ≤ size → offset + size < 2 ^ 63 →
    let out := take (Z.to_nat size) (drop (Z.to_nat offset) l) in
    mem_vfs_read f size offset heap1 = Done (i32 (Z.of_nat (length out)), out) heap1) ∧
  (∀ buf offset, Forall byte buf → 0 ≤ offset → offset + Z.of_nat (length buf) ≤ 2048 →
    room heap1 (offset + Z.of_nat (length buf)) →
    wph out_of_memory (mem_vfs_write f buf offset) (λ r s', ∃ h' G' l', slab_inv s' h' G' ∧
      r.1 = Z.of_nat (length buf) ∧ file_rep h' G' r.2 l' ∧ overwritten l buf (Z.to_nat offset) l' ∧
      others h G obj1 h' G') heap1).
Proof.
  destruct heap1_inv as (h & G & l & HI & Hp & Hl). set (bs := (λ i, hbyte h (obj1 + Z.of_nat i)) <$> seq 0 5).
  assert (file_rep h G (mkMfile obj1 5) bs) as Hf.
  { split; [done|]. right. exists l. cbn [f_data f_size]. split_and!; [exact Hp|lia|lia|].
    intros i b Hi. unfold bs in Hi. apply list_lookup_fmap_Some in Hi as (j & -> & Hj). apply lookup_seq in Hj as [-> _]. done. }
  exists h, G, bs. split; [exact HI|]. split; [exact Hf|].
  exact (mem_file_correct heap1 h G (mkMfile obj1 5) bs HI Hf).
Defined.

#[local] Transparent kmalloc heap0.

(** A large block counts as one page, or as what its owner stored in it: that
    many bytes are all that [krealloc] copies of its two pages. *)
Example large_block_size :
  match (p ← kmalloc 8192; n ← get_allocation_size p; vwr (p + 16) 24 ;; m ← get_allocation_size p;
         mret (n, m)) heap0 with
  | Done nm _ => nm = (4096, 24)
  | _ => False
  end.
Proof. vm_compute. reflexivity. Qed.

(** A request that overflows the rounding gets an address without memory. *)
Example kmalloc_overflow :
  match kmalloc (2 ^ 64 - 1) heap0 with
  | Done p s' => p = HEAP_BASE ∧ heap_virtual_top s' = HEAP_BASE
  | _ => False
  end.
Proof. vm_compute. split; reflexivity. Qed.
