(* ===== verification/ElfExamples.v ===== *)
(** * The program loader at work

    A small image and machine states on which the theorems on the loader
    apply. *)

From S2P Require Import Prelude Bytes Mem PageBuddy Paging Heap Slab Realloc Uspace Elf ElfSpec MemExamples.

#[local] Existing Instance ex_buddy.
#[local] Existing Instance ex_buddy_ok.

(** An executable with a loadable page of code and data, thread-local storage
    and a stack header. *)
Definition ex_phdr (type flags offset vaddr filesz memsz : Z) : list Z :=
  le_bytes 4 type ++ le_bytes 4 flags ++ le_bytes 8 offset ++ le_bytes 8 vaddr ++ le_bytes 8 vaddr ++
  le_bytes 8 filesz ++ le_bytes 8 memsz ++ le_bytes 8 4096.
Definition ex_img : list Z :=
  [127; 69; 76; 70; 2; 1; 1; 0] ++ replicate 8 0 ++ le_bytes 2 2 ++ le_bytes 2 62 ++ le_bytes 4 1 ++
  le_bytes 8 0x400000 ++ le_bytes 8 64 ++ le_bytes 8 0 ++ le_bytes 4 0 ++ le_bytes 2 64 ++
  le_bytes 2 56 ++ le_bytes 2 3 ++ le_bytes 6 0 ++
  ex_phdr PT_LOAD 7 232 0x400000 8 4096 ++ ex_phdr PT_TLS 4 240 0x400000 3 16 ++
  ex_phdr PT_GNU_STACK 6 0 0 0 0 ++ [1; 2; 3; 4; 5; 6; 7; 8; 21; 22; 23].

Lemma ex_headers : headers ex_img =
  [mkPhdr PT_LOAD 7 232 0x400000 8 4096; mkPhdr PT_TLS 4 240 0x400000 3 16; mkPhdr PT_GNU_STACK 6 0 0 0 0].
Proof. vm_compute. reflexivity. Qed.

Lemma ex_table : table_in ex_img.
Proof.
  split_and!; [|vm_compute; discriminate..].
  change (Forall (λ b, 0 ≤ b < 256) ex_img). apply (bool_decide_unpack _). vm_compute. exact I.
Qed.

Lemma ex_wf : Forall (seg_wf ex_img) (headers ex_img).
Proof.
  rewrite ex_headers. repeat apply Forall_cons_2; [..|apply Forall_nil_2]; unfold seg_wf; cbn;
    split_and!; intros E; try discriminate E; split_and!; vm_compute; done.
Qed.

Lemma ex_apart : segs_apart (headers ex_img).
Proof.
  rewrite ex_headers. intros j k ph ph' b Hj Hk.
  set (h0 := mkPhdr PT_LOAD 7 _ _ _ _) in *. set (h1 := mkPhdr PT_TLS 4 _ _ _ _) in *. set (h2 := mkPhdr PT_GNU_STACK 6 _ _ _ _) in *.
  assert (seg_hi h0 = 0x401000 ∧ seg_lo h1 = TLS_USER_BASE) as [Eh El] by (split; vm_compute; reflexivity).
  destruct j as [|[|[|j]]], k as [|[|[|k]]]; cbn in Hj, Hk; simplify_eq; try done;
    intros [[H1|H1] Hb1] [[H2|H2] Hb2]; try discriminate H1; try discriminate H2;
    rewrite ?Eh, ?El in *; unfold TLS_USER_BASE in *; lia.
Qed.

Lemma ex_no_interp : Forall (λ ph, ph_type ph ≠ PT_INTERP) (headers ex_img).
Proof. rewrite ex_headers. by repeat constructor. Qed.

Lemma new_image_correct_witness :
  wph out_of_memory (new_image ex_img)
    (λ r s', ∃ a T' fr, r.2 = Some a ∧ space_ok s' T' r.1 fr ∧ evolves r.1 one_page s' tables T' ∅ fr ∧
       loaded ex_img (ubyte s' fr) a ∧
       ∀ v, 256 ≤ PML4_IDX v → translate s' r.1 v = translate one_page (kernel_pml4 one_page) v) one_page.
Proof.
  apply (new_image_correct one_page tables ex_img).
  - apply one_page_tree.
  - apply one_page_root.
  - apply ex_table.
  - apply ex_wf.
  - apply ex_apart.
  - apply ex_no_interp.
Defined.

(** The image is loaded next to the heap object of [heap1]. *)
Lemma ex_loads : returns (new_image ex_img) heap1 (λ _, true) = true.
Proof. vm_compute. reflexivity. Qed.

#[local] Opaque new_image heap1 ex_img.

Lemma ex_space : ∃ s T root fr p x, space_ok s T root fr ∧ fr !! 0x400000 = Some p ∧ held s T fr obj1 x ∧
  ∀ b, 0x400000 ≤ b < 0x401000 → is_Some (ubyte s fr b).
Proof.
  destruct heap1_inv as (h & G & l & HI & Hobj & Hl).
  destruct (si_heap _ _ _ HI) as (T0 & fr0 & Hok & _).
  pose proof (new_image_spec heap1 T0 ex_img (ho_tree _ _ _ Hok) (ho_root _ _ _ Hok)
    ex_table ex_wf ex_apart ex_no_interp) as Hw.
  destruct (wph_returns _ _ _ _ _ Hw ex_loads) as (r & _ & a & T & fr & _ & HS & HE & Hld & _). clear Hw.
  destruct (object_place _ _ _ _ _ HI Hobj) as (H1 & H2 & H3 & H4).
  assert (in_heap heap1 obj1) as Hin by (split; [reflexivity|lia]).
  revert HS HE Hld Hok Hin. generalize (state_after (new_image ex_img) heap1). generalize heap1. clear.
  intros s0 s HS HE Hld Hok Hin.
  assert (∀ b, 0x400000 ≤ b < 0x401000 → is_Some (ubyte s fr b)) as Hmap.
  { intros b Hb. pose proof (ld_load _ _ _ Hld (mkPhdr PT_LOAD 7 232 0x400000 8 4096) (b - 0x400000)) as Hv. cbn in Hv.
    replace (0x400000 + (b - 0x400000)) with b in Hv by lia.
    rewrite Hv; [|rewrite ex_headers; left|reflexivity|lia]. case_decide; [|by eexists].
    apply lookup_lt_is_Some. assert (length ex_img = 243%nat) as -> by (vm_compute; reflexivity). lia. }
  destruct (Hmap 0x400000 ltac:(lia)) as [y Hy]. unfold ubyte in Hy. apply bind_Some in Hy as (p & Hp & _).
  change (page_of 0x400000) with 0x400000 in Hp.
  exists s, T, r.1, fr, p, (hword s0 fr0 obj1). split_and!; [exact HS|exact Hp| |exact Hmap].
  eapply held_evolves; [exact HE|]. exact (held_heap _ _ fr0 _ Hok Hin).
Qed.

(** A copy of three bytes to offset 16 of a page. *)
Lemma hhdm_copy_misplaced_witness : ∃ s T root fr p, space_ok s T root fr ∧ fr !! 0x400000 = Some p ∧
  hhdm_copy_to_user root 0x400010 [1; 2; 3] s = store_bytes (u64 (p + 2 * low12 0x400010)) [1; 2; 3] s ∧
  (2 * low12 0x400010 + 3 ≤ 4096 →
     wp (hhdm_copy_to_user root 0x400010 [1; 2; 3])
       (λ _ s', ∀ b, ubyte s' fr b = poke (ubyte s fr) (0x400010 + low12 0x400010) [1; 2; 3] b) s) ∧
  (2048 ≤ low12 0x400010 → p + 4096 ≤ p + 2 * low12 0x400010).
Proof.
  destruct ex_space as (s & T & root & fr & p & x & HS & Hp & _ & _). exists s, T, root, fr, p.
  split; [exact HS|]. split; [exact Hp|].
  apply (hhdm_copy_misplaced s T root fr 0x400010 p [1; 2; 3] HS Hp); [discriminate| |vm_compute; discriminate].
  repeat constructor; discriminate.
Defined.

(** A stack in the page [0x400000], one argument and no environment. *)
Lemma push_vectors_correct_witness : ∃ s T root fr x, space_ok s T root fr ∧ held s T fr obj1 x ∧
  wp (push_vectors root (align_sp 0x400808 1 0) obj1 0 1 0 [(AT_NULL, 0); (AT_PAGESZ, 4096)])
    (λ sp s', sp = align_sp 0x400808 1 0 - 8 * 8 ∧ sp `mod` 16 = (if Z.even (1 + 0) then 8 else 0) ∧
       space_ok s' T root fr ∧ evolves root s s' T T fr fr ∧
       ∀ b, ubyte s' fr b = poke (ubyte s fr) sp
         (words ([1] ++ [x] ++ [0] ++ [] ++ [0] ++
            mjoin ((λ tv, [tv.1; tv.2]) <$> reverse [(AT_NULL, 0); (AT_PAGESZ, 4096)]))) b) s.
Proof.
  destruct ex_space as (s & T & root & fr & p & x & HS & _ & Hh & Hmap). exists s, T, root, fr, x.
  split; [exact HS|]. split; [exact Hh|].
  assert (align_sp 0x400808 1 0 = 0x400800) as E by reflexivity.
  apply (push_vectors_correct s T root fr 0x400808 obj1 0 [x] [] [(AT_NULL, 0); (AT_PAGESZ, 4096)] HS).
  - lia.
  - cbn [length]. change (Z.of_nat 1) with 1. change (Z.of_nat 0) with 0. rewrite E. lia.
  - cbn [length]. change (Z.of_nat 1) with 1. change (Z.of_nat 0) with 0. rewrite E. intros b Hb. apply Hmap. lia.
  - intros [|i] y Hy; [|discriminate Hy]. injection Hy as <-. change (obj1 + 8 * Z.of_nat 0) with obj1. exact Hh.
  - intros i y Hy. discriminate Hy.
Defined.
