(* ===== verification/Hash.v ===== *)
(** * Iterated hash functions

    What MD5 and SHA-256 have in common.  A compression function takes a state
    and a block of 64 bytes.  The hash of a message is the state after all
    blocks of the padded message: a one bit, zeros, and the length of the
    message in bits.  The code sees the message in pieces and keeps an
    incomplete block in a buffer; [streamed] relates that to the message. *)

From S2P Require Import Prelude Bytes.

Section Hash.
Context {St : Type} (compress : St → list Z → St).

Fixpoint absorb (n : nat) (st : St) (l : list Z) : St :=
  match n with O => st | S n => absorb n (compress st (take 64 l)) (drop 64 l) end.

Lemma absorb_app n m st l l' : length l = (64 * n)%nat →
  absorb (n + m) st (l ++ l') = absorb m (absorb n st l) l'.
Proof.
  revert st l. induction n as [|n IH]; intros st l Hl.
  - by apply nil_length_inv in Hl as ->.
  - cbn [Nat.add absorb]. rewrite take_app_le, drop_app_le by lia.
    apply IH. rewrite length_drop. lia.
Qed.

Lemma absorb_one st l : length l = 64%nat → absorb 1 st l = compress st l.
Proof. intros Hl. cbn [absorb]. by rewrite take_ge by lia. Qed.

Lemma absorb_take n st l : (64 * n ≤ length l)%nat → absorb n st (take (64 * n) l) = absorb n st l.
Proof.
  intros Hl. pose proof (absorb_app n 0 st (take (64 * n) l) (drop (64 * n) l)) as E.
  rewrite take_drop, Nat.add_0_r in E. symmetry. apply E. rewrite length_take. lia.
Qed.

(** After the message [msg], which is some whole blocks and [pending]. *)
Definition streamed (iv : St) (msg : list Z) (st : St) (pending : list Z) : Prop :=
  ∃ n whole, msg = whole ++ pending ∧ length whole = (64 * n)%nat ∧
    st = absorb n iv whole ∧ (length pending < 64)%nat.

Lemma streamed_nil iv : streamed iv [] iv [].
Proof. exists O, []. simpl. split_and!; [done..|lia]. Qed.

Lemma streamed_more iv msg st p l : streamed iv msg st p → (length (p ++ l) < 64)%nat →
  streamed iv (msg ++ l) st (p ++ l).
Proof.
  intros (n & w & -> & Hw & -> & _) Hl. exists n, w. by rewrite app_assoc.
Qed.

Lemma streamed_block iv msg st p l : streamed iv msg st p → length (p ++ l) = 64%nat →
  streamed iv (msg ++ l) (compress st (p ++ l)) [].
Proof.
  intros (n & w & -> & Hw & -> & _) Hl. exists (n + 1)%nat, (w ++ p ++ l).
  rewrite app_nil_r, <-app_assoc, absorb_app by done. rewrite absorb_one by done.
  rewrite (length_app w). simpl. split_and!; [done|lia|done|lia].
Qed.

Lemma streamed_blocks iv msg st k l : streamed iv msg st [] → length l = (64 * k)%nat →
  streamed iv (msg ++ l) (absorb k st l) [].
Proof.
  intros (n & w & -> & Hw & -> & _) Hl. exists (n + k)%nat, (w ++ l).
  rewrite !app_nil_r, absorb_app, length_app by done. simpl. split_and!; [done|lia|done|lia].
Qed.

(** ** Padding *)

Definition padding (n : nat) (len : list Z) : list Z :=
  128 :: replicate ((119 - n `mod` 64) `mod` 64) 0 ++ len.

(** The hash of a message, [enc] being the encoding of its length in bits. *)
Definition digest (iv : St) (enc : Z → list Z) (msg : list Z) : St :=
  let m := msg ++ padding (length msg) (enc (8 * Z.of_nat (length msg))) in
  absorb (length m / 64) iv m.

Section Padded.
Context (iv : St) (enc : Z → list Z) (msg : list Z) (st : St) (p : list Z).
Context (Henc : ∀ z, length (enc z) = 8%nat) (HS : streamed iv msg st p).

Lemma streamed_length : (length msg `mod` 64 = length p)%nat.
Proof.
  destruct HS as (n & w & -> & Hw & _ & Hp). rewrite length_app, Hw, Nat.add_comm, Nat.mul_comm.
  rewrite Nat.Div0.mod_add. by apply Nat.mod_small.
Qed.

Lemma digest_streamed k l : l = p ++ padding (length msg) (enc (8 * Z.of_nat (length msg))) →
  length l = (64 * k)%nat → digest iv enc msg = absorb k st l.
Proof.
  intros -> Hk. destruct HS as (n & w & E & Hw & -> & Hp).
  unfold digest. revert Hk. generalize (padding (length msg) (enc (8 * Z.of_nat (length msg)))).
  intros pad Hk. rewrite E, <-app_assoc.
  replace (length (w ++ p ++ _)) with ((n + k) * 64)%nat by (rewrite length_app, Hk; lia).
  rewrite Nat.div_mul by lia. by apply absorb_app.
Qed.

Lemma digest_short : (length p < 56)%nat →
  digest iv enc msg =
  compress st (p ++ 128 :: replicate (55 - length p) 0 ++ enc (8 * Z.of_nat (length msg))).
Proof.
  intros Hp. rewrite <-absorb_one.
  - apply (digest_streamed 1).
    + unfold padding. rewrite streamed_length. do 4 f_equal.
      replace (119 - length p)%nat with (55 - length p + 1 * 64)%nat by lia.
      rewrite Nat.Div0.mod_add, Nat.mod_small; lia.
    + rewrite length_app. cbn [length]. rewrite length_app, length_replicate, Henc. lia.
  - rewrite length_app. cbn [length]. rewrite length_app, length_replicate, Henc. lia.
Qed.

Lemma digest_long : (56 ≤ length p)%nat →
  digest iv enc msg =
  compress (compress st (p ++ 128 :: replicate (63 - length p) 0))
    (replicate 56 0 ++ enc (8 * Z.of_nat (length msg))).
Proof.
  intros Hp. destruct HS as (_ & _ & _ & _ & _ & Hp').
  assert (length (p ++ 128 :: replicate (63 - length p) 0) = (64 * 1)%nat) as H1
    by (rewrite length_app; cbn [length]; rewrite length_replicate; lia).
  assert (length (replicate 56 0 ++ enc (8 * Z.of_nat (length msg))) = 64%nat) as H2
    by (by rewrite length_app, Henc).
  rewrite <-(absorb_one _ (replicate 56 0 ++ _)) by done.
  rewrite <-(absorb_one st) by (rewrite H1; lia).
  rewrite <-(absorb_app 1 1) by done.
  apply (digest_streamed 2); [|rewrite length_app, H1, H2; lia].
  unfold padding. rewrite streamed_length, <-app_assoc. cbn [app]. do 2 f_equal.
  rewrite app_assoc, <-replicate_add. f_equal. f_equal.
  rewrite Nat.mod_small; lia.
Qed.
End Padded.
End Hash.
