(* ===== verification/Sha256.v ===== *)
(** * SHA-256

    The hash function of [lib/libc/stdlib/entropy.c].  [sha256_correct]: however
    a message is cut into pieces, the code computes the hash of FIPS 180-4, the
    iteration of the compression function over the padded message.  The bit
    functions are characterised bit by bit, and the compression function is
    evaluated on the standard's examples. *)

From S2P Require Import Prelude Bytes Hash.

(** ** The code *)

Definition ROTRIGHT (word bits : Z) : Z :=
  Z.lor (Z.shiftr word bits) (u32 (Z.shiftl word (32 - bits))).
Definition CH (x y z : Z) : Z := Z.lxor (Z.land x y) (Z.land (u32 (Z.lnot x)) z).
Definition MAJ (x y z : Z) : Z := Z.lxor (Z.lxor (Z.land x y) (Z.land x z)) (Z.land y z).
Definition EP0 (x : Z) : Z := Z.lxor (Z.lxor (ROTRIGHT x 2) (ROTRIGHT x 13)) (ROTRIGHT x 22).
Definition EP1 (x : Z) : Z := Z.lxor (Z.lxor (ROTRIGHT x 6) (ROTRIGHT x 11)) (ROTRIGHT x 25).
Definition SIG0 (x : Z) : Z := Z.lxor (Z.lxor (ROTRIGHT x 7) (ROTRIGHT x 18)) (Z.shiftr x 3).
Definition SIG1 (x : Z) : Z := Z.lxor (Z.lxor (ROTRIGHT x 17) (ROTRIGHT x 19)) (Z.shiftr x 10).

(** The array [k], a row of eight words at a time, first word first. *)
Definition row_words (row : Z) : list Z := (λ i, Z.shiftr row (32 * (7 - i)) `mod` 2 ^ 32) <$> seqZ 0 8.
Definition sha256_k : list Z := mjoin (row_words <$>
  [0x428a2f9871374491b5c0fbcfe9b5dba53956c25b59f111f1923f82a4ab1c5ed5;
   0xd807aa9812835b01243185be550c7dc372be5d7480deb1fe9bdc06a7c19bf174;
   0xe49b69c1efbe47860fc19dc6240ca1cc2de92c6f4a7484aa5cb0a9dc76f988da;
   0x983e5152a831c66db00327c8bf597fc7c6e00bf3d5a7914706ca635114292967;
   0x27b70a852e1b21384d2c6dfc53380d13650a7354766a0abb81c2c92e92722c85;
   0xa2bfe8a1a81a664bc24b8b70c76c51a3d192e819d6990624f40e3585106aa070;
   0x19a4c1161e376c082748774c34b0bcb5391c0cb34ed8aa4a5b9cca4f682e6ff3;
   0x748f82ee78a5636f84c878148cc7020890befffaa4506cebbef9a3f7c67178f2]).

(** The array [state], the eight working variables. *)
Definition words : Type := Z * Z * Z * Z * Z * Z * Z * Z.

Record sha256_ctx := mkSha {
  sha_data : list Z; datalen : Z; bitlen : Z; sha_state : words }.
#[global] Instance sha256_ctx_eta : Etable sha256_ctx :=
  λ c, mkSha (sha_data c) (datalen c) (bitlen c) (sha_state c).

(** The array [m]: sixteen words of the block, then one word per round. *)
Definition load_word (data : list Z) (j : nat) : Z :=
  Z.lor (Z.lor (Z.lor (Z.shiftl (data !!! j) 24) (Z.shiftl (data !!! (j + 1)%nat) 16))
    (Z.shiftl (data !!! (j + 2)%nat) 8)) (data !!! (j + 3)%nat).

Fixpoint expand (n : nat) (m : list Z) : list Z :=
  match n with
  | O => m
  | S n =>
      let i := length m in
      expand n (m ++ [u32 (SIG1 (m !!! (i - 2)%nat) + m !!! (i - 7)%nat +
                           SIG0 (m !!! (i - 15)%nat) + m !!! (i - 16)%nat)])
  end.

Definition schedule (data : list Z) : list Z :=
  expand 48 ((λ i, load_word data (4 * i)) <$> seq 0 16).

Definition sha_round (s : words) (km : Z * Z) : words :=
  let '(a, b, c, d, e, f, g, h) := s in
  let t1 := u32 (h + EP1 e + CH e f g + km.1 + km.2) in
  let t2 := u32 (EP0 a + MAJ a b c) in
  (u32 (t1 + t2), a, b, c, u32 (d + t1), e, f, g).

Definition sha256_transform (s : words) (data : list Z) : words :=
  let '(a, b, c, d, e, f, g, h) := foldl sha_round s (zip sha256_k (schedule data)) in
  let '(s0, s1, s2, s3, s4, s5, s6, s7) := s in
  (u32 (s0 + a), u32 (s1 + b), u32 (s2 + c), u32 (s3 + d),
   u32 (s4 + e), u32 (s5 + f), u32 (s6 + g), u32 (s7 + h)).

Definition sha256_iv : words :=
  (0x6a09e667, 0xbb67ae85, 0x3c6ef372, 0xa54ff53a, 0x510e527f, 0x9b05688c, 0x1f83d9ab, 0x5be0cd19).

Definition sha256_init : M sha256_ctx unit :=
  modify (λ c, c <| datalen := 0 |> <| bitlen := 0 |> <| sha_state := sha256_iv |>).

(** [ctx->data[i] = b] *)
Definition set_data (i b : Z) : M sha256_ctx unit := λ c,
  if (0 <=? i) && (i <? 64) then Done tt (c <| sha_data := <[Z.to_nat i := b]> (sha_data c) |>)
  else Fault.

Definition transform_data : M sha256_ctx unit :=
  modify (λ c, c <| sha_state := sha256_transform (sha_state c) (sha_data c) |>).

Definition update_byte (b : Z) : M sha256_ctx unit :=
  n ← gets datalen;
  set_data n b ;;
  modify (λ c, c <| datalen := u32 (n + 1) |>) ;;
  if u32 (n + 1) =? 64 then
    transform_data ;;
    modify (λ c, c <| bitlen := u64 (bitlen c + 512) |> <| datalen := 0 |>)
  else mret tt.

Fixpoint sha256_update (data : list Z) : M sha256_ctx unit :=
  match data with [] => mret tt | b :: data => update_byte b ;; sha256_update data end.

(** [while (i < to) ctx->data[i++] = 0x00] *)
Definition zero_data (i to : Z) : M sha256_ctx unit :=
  for_all (Z.to_nat (to - i)) i (λ i, set_data i 0).

Definition word_out (s : Z) : list Z :=
  (λ i, u8 (Z.land (Z.shiftr s (24 - i * 8)) 0xff)) <$> [0; 1; 2; 3].

Definition words_out (s : words) : list Z :=
  let '(s0, s1, s2, s3, s4, s5, s6, s7) := s in
  word_out s0 ++ word_out s1 ++ word_out s2 ++ word_out s3 ++
  word_out s4 ++ word_out s5 ++ word_out s6 ++ word_out s7.

Definition sha256_final : M sha256_ctx (list Z) :=
  n ← gets datalen;
  (if n <? 56 then set_data n 128 ;; zero_data (n + 1) 56
   else set_data n 128 ;; zero_data (n + 1) 64 ;; transform_data ;; zero_data 0 56) ;;
  modify (λ c, c <| bitlen := u64 (bitlen c + n * 8) |>) ;;
  bits ← gets bitlen;
  set_data 63 (u8 bits) ;;
  set_data 62 (u8 (Z.shiftr bits 8)) ;;
  set_data 61 (u8 (Z.shiftr bits 16)) ;;
  set_data 60 (u8 (Z.shiftr bits 24)) ;;
  set_data 59 (u8 (Z.shiftr bits 32)) ;;
  set_data 58 (u8 (Z.shiftr bits 40)) ;;
  set_data 57 (u8 (Z.shiftr bits 48)) ;;
  set_data 56 (u8 (Z.shiftr bits 56)) ;;
  transform_data ;;
  gets (λ c, words_out (sha_state c)).

(** A context on the stack of the caller; its contents are arbitrary. *)
Definition sha_stack : sha256_ctx := mkSha (replicate 64 0) 0 0 (0, 0, 0, 0, 0, 0, 0, 0).

Definition on_stack {S A} (c : M sha256_ctx A) : M S A := λ s,
  match c sha_stack with
  | Done a _ => Done a s
  | Panicked _ => Panicked s
  | Fault => Fault
  end.

Definition sha256 {S} (data : list Z) : M S (list Z) :=
  on_stack (sha256_init ;; sha256_update data ;; sha256_final).

(** ** The hash of a message *)

Definition SHA (msg : list Z) : list Z :=
  words_out (digest sha256_transform sha256_iv (be_bytes 8) msg).

(** The context after the message [msg]. *)
Record sha_rep (c : sha256_ctx) (msg : list Z) : Prop := {
  sr_len : length (sha_data c) = 64%nat;
  sr_pending : streamed sha256_transform sha256_iv msg (sha_state c)
                 (take (Z.to_nat (datalen c)) (sha_data c));
  sr_datalen : 0 ≤ datalen c < 64;
  sr_bitlen : bitlen c = u64 (8 * (Z.of_nat (length msg) - datalen c)) }.

Arguments sha256_transform : simpl never.

Lemma set_data_eq i b c : 0 ≤ i < 64 →
  set_data i b c = Done tt (c <| sha_data := <[Z.to_nat i := b]> (sha_data c) |>).
Proof.
  intros Hi. unfold set_data.
  by rewrite (proj2 (Z.leb_le _ _)), (proj2 (Z.ltb_lt _ _)) by lia.
Qed.

Lemma sha256_init_rep c : length (sha_data c) = 64%nat →
  ∃ c', sha256_init c = Done tt c' ∧ sha_rep c' [].
Proof.
  intros Hl. eexists. split; [reflexivity|]. split; simpl; [done| |lia|done].
  rewrite take_0. apply streamed_nil.
Qed.

Lemma update_byte_rep c msg b : sha_rep c msg →
  ∃ c', update_byte b c = Done tt c' ∧ sha_rep c' (msg ++ [b]).
Proof.
  intros [Hl HS Hn Hb]. unfold update_byte.
  rewrite (bind_done _ _ _ (datalen c) c) by done.
  rewrite (bind_done _ _ _ tt _ (set_data_eq _ b c Hn)).
  rewrite (bind_done (modify _) _ _ tt _ eq_refl).
  set (n := Z.to_nat (datalen c)) in *. rewrite wrap_small by lia.
  assert (take (S n) (<[n := b]> (sha_data c)) = take n (sha_data c) ++ [b]) as Et.
  { rewrite (take_S_r _ _ b) by (by rewrite list_lookup_insert_eq by lia).
    by rewrite take_insert_ge by lia. }
  assert (length (take n (sha_data c)) = n) as En by (rewrite length_take; lia).
  destruct (Z.eqb_spec (datalen c + 1) 64) as [E|E].
  - eexists. split; [reflexivity|]. split; cbn [sha_data datalen sha_state bitlen update eta_expand].
    + by rewrite length_insert.
    + rewrite take_0. replace (<[n := b]> (sha_data c)) with (take n (sha_data c) ++ [b]).
      * apply streamed_block; [done|]. rewrite length_app, En. simpl. lia.
      * rewrite <-Et. rewrite take_ge; [done|]. rewrite length_insert. lia.
    + lia.
    + rewrite Hb, length_app. unfold wrap. rewrite Zplus_mod_idemp_l. f_equal. simpl. lia.
  - eexists. split; [reflexivity|]. split; cbn [sha_data datalen sha_state bitlen update eta_expand].
    + by rewrite length_insert.
    + replace (Z.to_nat (datalen c + 1)) with (S n) by lia. rewrite Et.
      apply streamed_more; [done|]. rewrite length_app, En. simpl. lia.
    + lia.
    + rewrite Hb, length_app. f_equal. simpl. lia.
Qed.

Lemma sha256_update_rep l c msg : sha_rep c msg →
  ∃ c', sha256_update l c = Done tt c' ∧ sha_rep c' (msg ++ l).
Proof.
  revert c msg. induction l as [|b l IH]; intros c msg HR.
  - exists c. by rewrite app_nil_r.
  - destruct (update_byte_rep c msg b HR) as (c1 & E1 & HR1).
    destruct (IH c1 _ HR1) as (c2 & E2 & HR2). exists c2. cbn [sha256_update].
    rewrite (bind_done _ _ _ tt c1 E1), E2. split; [done|]. by rewrite <-app_assoc in HR2.
Qed.

(** ** Finishing *)

Lemma zero_data_eq i to c : 0 ≤ i ≤ to → to ≤ 64 → length (sha_data c) = 64%nat →
  zero_data i to c =
  Done tt (c <| sha_data := splice (sha_data c) (Z.to_nat i) (replicate (Z.to_nat (to - i)) 0) |>).
Proof.
  intros Hi Hto Hl. unfold zero_data. destruct c as [D n b s]. cbn [sha_data] in Hl.
  pose proof (for_all_eq (Z.to_nat (to - i)) i (λ i, set_data i 0)
    (λ k, mkSha (splice D (Z.to_nat i) (replicate (Z.to_nat (k - i)) 0)) n b s)) as H.
  cbv beta in H. rewrite Z.sub_diag, splice_nil in H. rewrite H.
  - unfold update; simpl. do 4 f_equal. lia.
  - intros k Hk. rewrite set_data_eq by lia. unfold update; simpl. do 2 f_equal.
    replace (Z.to_nat k) with (Z.to_nat i + length (replicate (Z.to_nat (k - i)) 0%Z))%nat
      by (rewrite length_replicate; lia).
    rewrite splice_insert by (rewrite length_replicate; lia).
    f_equal. rewrite <-replicate_cons_app, <-replicate_S. f_equal. lia.
Qed.

Lemma be_bytes_8 z : be_bytes 8 z =
  [u8 (Z.shiftr z 56); u8 (Z.shiftr z 48); u8 (Z.shiftr z 40); u8 (Z.shiftr z 32);
   u8 (Z.shiftr z 24); u8 (Z.shiftr z 16); u8 (Z.shiftr z 8); u8 z].
Proof.
  unfold be_bytes.
  assert (le_bytes 8 z = [u8 z; u8 (Z.shiftr z 8); u8 (Z.shiftr z 16); u8 (Z.shiftr z 24);
    u8 (Z.shiftr z 32); u8 (Z.shiftr z 40); u8 (Z.shiftr z 48); u8 (Z.shiftr z 56)]) as ->; [|done].
  apply list_eq. intros i. destruct (decide (i < 8)%nat) as [Hi|Hi].
  - rewrite le_bytes_lookup by done.
    do 8 (destruct i as [|i]; [simpl; by rewrite ?Z.shiftr_0_r|]). lia.
  - rewrite !lookup_ge_None_2; simpl; rewrite ?length_le_bytes; [done|lia..].
Qed.

(** The last eight bytes of the block are replaced by the length. *)
Lemma put_length (l : list Z) (a b c d e f g h : Z) : length l = 64%nat →
  <[56%nat := a]> (<[57%nat := b]> (<[58%nat := c]> (<[59%nat := d]> (<[60%nat := e]>
    (<[61%nat := f]> (<[62%nat := g]> (<[63%nat := h]> l)))))))
  = take 56 l ++ [a; b; c; d; e; f; g; h].
Proof.
  intros Hl. rewrite <-(take_drop 56 l) at 1.
  assert (length (drop 56 l) = 8%nat) as Hd by (rewrite length_drop; lia).
  assert (length (take 56 l) = 56%nat) as Ht by (rewrite length_take; lia).
  destruct (drop 56 l) as [|x0 [|x1 [|x2 [|x3 [|x4 [|x5 [|x6 [|x7 [|x8 r]]]]]]]]] eqn:E; try done.
  rewrite !insert_app_r_alt by lia. by rewrite Ht.
Qed.

Ltac put_byte i := rewrite (bind_done _ _ _ tt _ (set_data_eq i _ _ ltac:(lia))).

Definition write_length : M sha256_ctx (list Z) :=
  bits ← gets bitlen;
  set_data 63 (u8 bits) ;;
  set_data 62 (u8 (Z.shiftr bits 8)) ;;
  set_data 61 (u8 (Z.shiftr bits 16)) ;;
  set_data 60 (u8 (Z.shiftr bits 24)) ;;
  set_data 59 (u8 (Z.shiftr bits 32)) ;;
  set_data 58 (u8 (Z.shiftr bits 40)) ;;
  set_data 57 (u8 (Z.shiftr bits 48)) ;;
  set_data 56 (u8 (Z.shiftr bits 56)) ;;
  transform_data ;;
  gets (λ c, words_out (sha_state c)).

Lemma write_length_eq c : length (sha_data c) = 64%nat →
  ∃ c', write_length c =
    Done (words_out (sha256_transform (sha_state c) (take 56 (sha_data c) ++ be_bytes 8 (bitlen c)))) c'.
Proof.
  intros Hl. unfold write_length. rewrite (bind_done (gets _) _ _ _ _ eq_refl).
  put_byte 63. put_byte 62. put_byte 61. put_byte 60. put_byte 59. put_byte 58. put_byte 57. put_byte 56.
  rewrite (bind_done transform_data _ _ tt _ eq_refl). rewrite be_bytes_8, <-put_length by done.
  eexists. reflexivity.
Qed.

(** The bytes of a block after the end mark and zeros up to byte [k]. *)
Lemma marked_block D n k : (n < k ≤ length D)%nat →
  take k (splice (<[n := 128]> D) (S n) (replicate (k - S n) 0))
  = take n D ++ 128 :: replicate (k - S n) 0.
Proof.
  intros Hk. unfold splice. rewrite app_assoc.
  rewrite (take_S_r _ _ 128) by (by rewrite list_lookup_insert_eq by lia).
  rewrite take_insert_ge by lia. rewrite <-(app_assoc (take n D)). cbn [app].
  apply take_app_length'. rewrite length_app. cbn [length].
  rewrite length_take, length_replicate. lia.
Qed.

(** The end mark and the zeros after it, up to byte [k]. *)
Lemma mark_eq c k : 0 ≤ datalen c < k → k ≤ 64 → length (sha_data c) = 64%nat →
  (set_data (datalen c) 128 ;; zero_data (datalen c + 1) k) c =
  Done tt (c <| sha_data := splice (<[Z.to_nat (datalen c) := 128]> (sha_data c))
    (S (Z.to_nat (datalen c))) (replicate (Z.to_nat k - S (Z.to_nat (datalen c))) 0) |>).
Proof.
  intros Hk Hk' Hl. rewrite (bind_done _ _ _ tt _ (set_data_eq (datalen c) _ _ ltac:(lia))).
  rewrite zero_data_eq; [|lia|lia|by simpl; rewrite length_insert].
  unfold update; simpl. do 4 f_equal; [lia|f_equal; lia].
Qed.

Lemma sha256_final_rep c msg : sha_rep c msg → ∃ c', sha256_final c = Done (SHA msg) c'.
Proof.
  intros [Hl HS Hn Hb]. unfold sha256_final. fold write_length.
  rewrite (bind_done (gets _) _ _ _ _ eq_refl).
  set (n := Z.to_nat (datalen c)) in *. set (p := take n (sha_data c)) in *.
  assert (length p = n) as Hp by (unfold p; rewrite length_take; lia).
  assert (∀ z, be_bytes 8 (u64 z) = be_bytes 8 z) as Ewrap.
  { intros z. unfold be_bytes. f_equal. apply (le_bytes_mod 8). }
  assert (be_bytes 8 (u64 (bitlen c + datalen c * 8)) = be_bytes 8 (8 * Z.of_nat (length msg))) as Ebits.
  { rewrite Hb, <-(Ewrap (8 * Z.of_nat (length msg))). unfold wrap.
    rewrite Zplus_mod_idemp_l. do 2 f_equal. lia. }
  unfold SHA. destruct (Z.ltb_spec (datalen c) 56).
  - rewrite (digest_short _ _ _ _ _ p (length_be_bytes 8) HS) by lia.
    rewrite (bind_done _ _ _ tt _ (mark_eq c 56 ltac:(lia) ltac:(lia) Hl)).
    rewrite (bind_done (modify _) _ _ tt _ eq_refl).
    edestruct write_length_eq as [c' ->].
    { simpl. rewrite length_splice, length_insert; [done|]. rewrite length_replicate, length_insert. lia. }
    exists c'. cbn [sha_data datalen sha_state bitlen update eta_expand]. rewrite Ebits. do 3 f_equal.
    change (Z.to_nat 56) with 56%nat. rewrite marked_block, <-app_assoc by lia. by rewrite Hp.
  - rewrite (digest_long _ _ _ _ _ p (length_be_bytes 8) HS) by lia.
    pose proof (mark_eq c 64 ltac:(lia) ltac:(lia) Hl) as Em.
    rewrite (bind_done _ _ _ tt _ (set_data_eq (datalen c) _ _ ltac:(lia))) in Em.
    rewrite <-(take_ge (splice _ _ _) 64) in Em by
      (rewrite length_splice, length_insert; [lia|rewrite length_replicate, length_insert; lia]).
    change (Z.to_nat 64) with 64%nat in Em. rewrite marked_block in Em by lia. fold n p in Em.
    replace (64 - S n)%nat with (63 - length p)%nat in Em by lia.
    set (D := p ++ 128 :: replicate (63 - length p) 0) in *.
    assert (length D = 64%nat) as HD
      by (unfold D; rewrite length_app; cbn [length]; rewrite length_replicate; lia).
    erewrite (bind_done (_ ;; _)).
    2:{ rewrite (bind_done _ _ _ tt _ (set_data_eq (datalen c) _ _ ltac:(lia))).
        rewrite (bind_done _ _ _ tt _ Em). rewrite (bind_done transform_data _ _ tt _ eq_refl).
        by apply zero_data_eq. }
    rewrite (bind_done (modify _) _ _ tt _ eq_refl).
    edestruct write_length_eq as [c' ->].
    { cbn [sha_data update eta_expand]. change (length (splice D 0 (replicate 56 0)) = 64%nat).
      by rewrite length_splice by (rewrite length_replicate; lia). }
    exists c'. cbn [sha_data datalen sha_state bitlen update eta_expand]. rewrite Ebits. do 3 f_equal.
Qed.


(** Any sequence of calls of [sha256_update] between [sha256_init] and
    [sha256_final]. *)
Lemma sha_chunks chunks c : length (sha_data c) = 64%nat →
  ∃ c', (sha256_init ;; foldr (λ l k, sha256_update l ;; k) sha256_final chunks) c
    = Done (SHA (concat chunks)) c'.
Proof.
  intros Hl. destruct (sha256_init_rep c Hl) as (c1 & E1 & HR).
  rewrite (bind_done _ _ _ tt c1 E1). clear E1 Hl c. revert HR.
  change (concat chunks) with ([] ++ concat chunks). generalize (@nil Z) as msg. revert c1.
  induction chunks as [|l chunks IH]; intros c msg HR.
  - cbn [foldr concat]. rewrite app_nil_r. by apply sha256_final_rep.
  - destruct (sha256_update_rep l c msg HR) as (c2 & E2 & HR2). cbn [foldr concat].
    rewrite (bind_done _ _ _ tt c2 E2), app_assoc. by apply IH.
Qed.

Lemma on_stack_chunks {S} chunks (s : S) :
  on_stack (sha256_init ;; foldr (λ l k, sha256_update l ;; k) sha256_final chunks) s
  = Done (SHA (concat chunks)) s.
Proof.
  unfold on_stack. destruct (sha_chunks chunks sha_stack) as [c' E]; [done|]. by rewrite E.
Qed.

Lemma sha256_eq {S} data (s : S) : sha256 data s = Done (SHA data) s.
Proof. pose proof (on_stack_chunks [data] s) as E. cbn [concat] in E. by rewrite app_nil_r in E. Qed.

Lemma length_SHA msg : length (SHA msg) = 32%nat.
Proof. unfold SHA. by destruct (digest _ _ _ _) as [[[[[[[? ?] ?] ?] ?] ?] ?] ?]. Qed.

Lemma bytes_SHA msg : bytes (SHA msg).
Proof.
  assert (∀ s, bytes (word_out s)) as Hw by (intros s; repeat constructor; apply byte_u8).
  unfold SHA. destruct (digest _ _ _ _) as [[[[[[[? ?] ?] ?] ?] ?] ?] ?].
  unfold words_out. rewrite !Forall_app. split_and!; apply Hw.
Qed.

(** ** The compression function of the standard

    Rotation and shift as arithmetic, the choice and the majority bit by bit. *)

Module FIPS.
Definition rotr (n x : Z) : Z := x / 2 ^ n + x `mod` 2 ^ n * 2 ^ (32 - n).
Definition shr (n x : Z) : Z := x / 2 ^ n.
Definition Ch (x y z : Z) : Z := bits32 (λ i, if Z.testbit x i then Z.testbit y i else Z.testbit z i).
Definition Maj (x y z : Z) : Z := bits32 (λ i,
  let a := Z.testbit x i in let b := Z.testbit y i in let c := Z.testbit z i in
  (a && b) || (a && c) || (b && c)).
Definition S0 x := Z.lxor (Z.lxor (rotr 2 x) (rotr 13 x)) (rotr 22 x).
Definition S1 x := Z.lxor (Z.lxor (rotr 6 x) (rotr 11 x)) (rotr 25 x).
Definition s0 x := Z.lxor (Z.lxor (rotr 7 x) (rotr 18 x)) (shr 3 x).
Definition s1 x := Z.lxor (Z.lxor (rotr 17 x) (rotr 19 x)) (shr 10 x).

(** [W block w]: [w] is the message schedule of [block]. *)
Definition W (block w : list Z) : Prop :=
  length w = 64%nat ∧
  (∀ t, (t < 16)%nat → w !!! t = be_val (take 4 (drop (4 * t) block))) ∧
  (∀ t, (16 ≤ t < 64)%nat →
     w !!! t = (s1 (w !!! (t - 2)%nat) + w !!! (t - 7)%nat
                + s0 (w !!! (t - 15)%nat) + w !!! (t - 16)%nat) `mod` 2 ^ 32).

Definition round (s : words) (kw : Z * Z) : words :=
  let '(a, b, c, d, e, f, g, h) := s in
  let T1 := h + S1 e + Ch e f g + kw.1 + kw.2 in
  let T2 := S0 a + Maj a b c in
  ((T1 + T2) `mod` 2 ^ 32, a, b, c, (d + T1) `mod` 2 ^ 32, e, f, g).

Definition add (s t : words) : words :=
  let '(a, b, c, d, e, f, g, h) := s in
  let '(a', b', c', d', e', f', g', h') := t in
  ((a + a') `mod` 2 ^ 32, (b + b') `mod` 2 ^ 32, (c + c') `mod` 2 ^ 32, (d + d') `mod` 2 ^ 32,
   (e + e') `mod` 2 ^ 32, (f + f') `mod` 2 ^ 32, (g + g') `mod` 2 ^ 32, (h + h') `mod` 2 ^ 32).

(** The constants: the first 32 bits of the fractional parts of the cube roots
    and of the square roots of the first primes. *)
Definition prime (p : Z) : bool := (2 <=? p) && forallb (λ d, negb (p `mod` d =? 0)) (seqZ 2 (p - 2)).
Definition primes (n : nat) : list Z := take n (List.filter prime (seqZ 2 310)).
Fixpoint cbrt (bits : nat) (x r : Z) : Z :=
  match bits with
  | O => r
  | S i => let r' := r + 2 ^ Z.of_nat i in cbrt i x (if r' ^ 3 <=? x then r' else r)
  end.
Definition K : list Z := (λ p, cbrt 36 (p * 2 ^ 96) 0 `mod` 2 ^ 32) <$> primes 64.
Definition H0 : list Z := (λ p, Z.sqrt (p * 2 ^ 64) `mod` 2 ^ 32) <$> primes 8.
End FIPS.

(** ** The code computes them *)

Lemma sha256_k_eq : sha256_k = FIPS.K.
Proof. vm_compute. reflexivity. Qed.

Lemma sha256_iv_eq : ∃ a b c d e f g h, FIPS.H0 = [a; b; c; d; e; f; g; h] ∧ sha256_iv = (a, b, c, d, e, f, g, h).
Proof. vm_compute. repeat eexists. Qed.

Lemma ROTRIGHT_eq x n : word x → 0 < n < 32 → ROTRIGHT x n = FIPS.rotr n x.
Proof. intros. by apply rotate_right. Qed.

Lemma word_ROTRIGHT x n : 0 ≤ n → word x → word (ROTRIGHT x n).
Proof. intros. unfold ROTRIGHT. apply word_lor; [by apply word_shiftr|apply word_u32]. Qed.

Lemma EP0_eq x : word x → EP0 x = FIPS.S0 x.
Proof. intros. unfold EP0, FIPS.S0. by rewrite !ROTRIGHT_eq by (done || lia). Qed.
Lemma EP1_eq x : word x → EP1 x = FIPS.S1 x.
Proof. intros. unfold EP1, FIPS.S1. by rewrite !ROTRIGHT_eq by (done || lia). Qed.
Lemma SIG0_eq x : word x → SIG0 x = FIPS.s0 x.
Proof.
  intros. unfold SIG0, FIPS.s0, FIPS.shr. by rewrite !ROTRIGHT_eq, Z.shiftr_div_pow2 by (done || lia).
Qed.
Lemma SIG1_eq x : word x → SIG1 x = FIPS.s1 x.
Proof.
  intros. unfold SIG1, FIPS.s1, FIPS.shr. by rewrite !ROTRIGHT_eq, Z.shiftr_div_pow2 by (done || lia).
Qed.

Lemma CH_eq x y z : word x → word y → word z → CH x y z = FIPS.Ch x y z.
Proof.
  intros. unfold CH, FIPS.Ch. apply word_eq; [auto with word..|]. intros i Hi.
  rewrite Z.lxor_spec, !Z.land_spec, u32_lnot_bit, bits32_bit by lia.
  rewrite (proj2 (Z.ltb_lt i 32)) by lia.
  by destruct (Z.testbit x i), (Z.testbit y i), (Z.testbit z i).
Qed.

Lemma MAJ_eq x y z : word x → word y → word z → MAJ x y z = FIPS.Maj x y z.
Proof.
  intros. unfold MAJ, FIPS.Maj. apply word_eq; [auto with word..|]. intros i Hi.
  rewrite !Z.lxor_spec, !Z.land_spec, bits32_bit by lia.
  rewrite (proj2 (Z.ltb_lt i 32)) by lia.
  by destruct (Z.testbit x i), (Z.testbit y i), (Z.testbit z i).
Qed.

Definition words_ok (s : words) : Prop :=
  let '(a, b, c, d, e, f, g, h) := s in
  word a ∧ word b ∧ word c ∧ word d ∧ word e ∧ word f ∧ word g ∧ word h.

Lemma sha_round_eq s kw : words_ok s → sha_round s kw = FIPS.round s kw ∧ words_ok (sha_round s kw).
Proof.
  destruct s as [[[[[[[a b] c] d] e] f] g] h]. intros (Ha & Hb & Hc & Hd & He & Hf & Hg & Hh).
  unfold sha_round, FIPS.round, words_ok. rewrite EP1_eq, CH_eq, EP0_eq, MAJ_eq by done. unfold wrap.
  rewrite <-Zplus_mod, Zplus_mod_idemp_r. split; [done|]. split_and!; try done; apply word_u32.
Qed.

Lemma sha_rounds_eq kws s : words_ok s →
  foldl sha_round s kws = foldl FIPS.round s kws ∧ words_ok (foldl sha_round s kws).
Proof.
  revert s. induction kws as [|kw kws IH]; intros s Hs; [done|]. cbn [foldl].
  destruct (sha_round_eq s kw Hs) as [<- H]. by apply IH.
Qed.

Lemma load_word_eq data j : bytes data → (j + 4 ≤ length data)%nat →
  load_word data j = be_val (take 4 (drop j data)).
Proof.
  intros Hb Hj. unfold load_word.
  assert (∃ a b c d r, drop j data = a :: b :: c :: d :: r) as (a & b & c & d & r & E).
  { pose proof (length_drop data j) as Hl.
    destruct (drop j data) as [|a [|b [|c [|d r]]]]; cbn [length] in Hl; try lia. by eexists _, _, _, _, _. }
  assert (∀ i x, (a :: b :: c :: d :: r) !! i = Some x → data !!! (j + i)%nat = x ∧ byte x) as Hx.
  { intros i x Hi. rewrite <-E, lookup_drop in Hi. split; [by apply list_lookup_total_correct|].
    by eapply Forall_lookup_1. }
  destruct (Hx 0%nat a eq_refl) as [E0 Ha]. rewrite Nat.add_0_r in E0.
  destruct (Hx 1%nat b eq_refl) as [-> Hb']. destruct (Hx 2%nat c eq_refl) as [-> Hc].
  destruct (Hx 3%nat d eq_refl) as [-> Hd]. rewrite E0, E. clear Hx E E0. unfold byte in *.
  rewrite (Z.lor_comm _ d), (Z.lor_comm _ (Z.shiftl c 8)), (Z.lor_comm _ (Z.shiftl b 16)), !Z.lor_assoc.
  rewrite (lor_shift d), (lor_shift _ b), (lor_shift _ a) by lia.
  unfold be_val. simpl. lia.
Qed.

(** The schedule up to some word. *)
Record scheduled (block m : list Z) : Prop := {
  sch_len : (16 ≤ length m)%nat;
  sch_word : Forall word m;
  sch_block t : (t < 16)%nat → m !!! t = be_val (take 4 (drop (4 * t) block));
  sch_next t : (16 ≤ t < length m)%nat →
    m !!! t = (FIPS.s1 (m !!! (t - 2)%nat) + m !!! (t - 7)%nat
               + FIPS.s0 (m !!! (t - 15)%nat) + m !!! (t - 16)%nat) `mod` 2 ^ 32 }.

Lemma scheduled_expand block n m : scheduled block m →
  scheduled block (expand n m) ∧ length (expand n m) = (length m + n)%nat.
Proof.
  revert m. induction n as [|n IH]; intros m Hm; [split; [done|cbn [expand]; lia]|]. cbn [expand].
  set (x := u32 _). destruct (IH (m ++ [x])) as [H1 H2].
  - destruct Hm as [Hl Hw Hb Hn].
    assert (∀ t, (t < length m)%nat → (m ++ [x]) !!! t = m !!! t) as Ht
      by (intros; by apply lookup_total_app_l).
    assert (∀ t, (t < length m)%nat → word (m !!! t)) as Hw'
      by (intros t Hlt; by apply Forall_lookup_total_1).
    split; [rewrite length_app; lia| | |].
    + apply Forall_app. split; [done|]. repeat constructor; apply word_u32.
    + intros t Hlt. rewrite Ht by lia. by apply Hb.
    + intros t Hlt. rewrite length_app in Hlt. cbn [length] in Hlt.
      rewrite !(Ht (t - _)%nat) by lia. destruct (decide (t = length m)) as [->|].
      * rewrite lookup_total_app_r, Nat.sub_diag by lia. cbn. unfold x.
        by rewrite SIG0_eq, SIG1_eq by (apply Hw'; lia).
      * rewrite Ht by lia. apply Hn. lia.
  - split; [done|]. rewrite H2, length_app. simpl. lia.
Qed.

Lemma schedule_W block : bytes block → length block = 64%nat → FIPS.W block (schedule block).
Proof.
  intros Hb Hl. unfold schedule. set (m := _ <$> seq 0 16).
  assert (∀ t, (t < 16)%nat → m !!! t = be_val (take 4 (drop (4 * t) block))) as Hm.
  { intros t Ht. apply list_lookup_total_correct. unfold m.
    rewrite list_lookup_fmap, lookup_seq_lt by lia. simpl. by rewrite load_word_eq by (done || lia). }
  destruct (scheduled_expand block 48 m) as [[Hl' Hw' Hb' Hn'] E]; [|by split_and!].
  split; [by unfold m|..|done|].
  - apply Forall_lookup. intros t x Ht.
    assert (t < 16)%nat as Hlt by (apply lookup_lt_Some in Ht; by unfold m in Ht).
    apply list_lookup_total_correct in Ht as <-. rewrite Hm by done.
    pose proof (be_val_range (take 4 (drop (4 * t) block))) as Hr.
    rewrite length_take, length_drop in Hr.
    replace (4 `min` (length block - 4 * t))%nat with 4%nat in Hr by lia.
    apply Hr. by apply Forall_take, Forall_drop.
  - intros t Ht. unfold m in Ht. simpl in Ht. lia.
Qed.

Lemma sha256_transform_eq s block : words_ok s → bytes block → length block = 64%nat →
  ∃ w, FIPS.W block w ∧ sha256_transform s block = FIPS.add s (foldl FIPS.round s (zip sha256_k w)).
Proof.
  intros Hs Hb Hl. exists (schedule block). split; [by apply schedule_W|].
  unfold sha256_transform. rewrite (proj1 (sha_rounds_eq _ s Hs)).
  by destruct (foldl FIPS.round s _) as [[[[[[[? ?] ?] ?] ?] ?] ?] ?],
    s as [[[[[[[? ?] ?] ?] ?] ?] ?] ?].
Qed.

(** C28: SHA-256.  However a message is cut into pieces for [sha256_update], the
    code between [sha256_init] and [sha256_final] stays within its buffer and
    returns the hash of the whole message: the compression function iterated
    over the message padded as FIPS 180-4 says, for messages of any length.  The
    compression function is the one of the standard, with its message schedule,
    its rounds and its constants, the bits of roots of primes. *)
Theorem sha256_correct c chunks : length (sha_data c) = 64%nat →
  (∃ c', (sha256_init ;; foldr (λ l k, sha256_update l ;; k) sha256_final chunks) c
    = Done (words_out (digest sha256_transform sha256_iv (be_bytes 8) (concat chunks))) c') ∧
  (∀ s block, words_ok s → bytes block → length block = 64%nat →
    ∃ w, FIPS.W block w ∧
      sha256_transform s block = FIPS.add s (foldl FIPS.round s (zip FIPS.K w))) ∧
  ∃ a b c d e f g h, FIPS.H0 = [a; b; c; d; e; f; g; h] ∧ sha256_iv = (a, b, c, d, e, f, g, h).
Proof.
  intros Hl. split_and!; [by apply sha_chunks| |exact sha256_iv_eq]. rewrite <-sha256_k_eq. apply sha256_transform_eq.
Qed.

(** The first example of the standard, the message "abc", in two pieces. *)
Lemma sha256_correct_witness :
  ∃ c', (sha256_init ;; sha256_update [97] ;; sha256_update [98; 99] ;; sha256_final) sha_stack
    = Done (be_bytes 32 0xba7816bf8f01cfea414140de5dae2223b00361a396177a9cb410ff61f20015ad) c'.
Proof.
  destruct (proj1 (sha256_correct sha_stack [[97]; [98; 99]] eq_refl)) as [c' E].
  exists c'. etransitivity; [exact E|]. apply (f_equal (λ l, Done l c')). vm_compute. reflexivity.
Defined.

(** The second example, a message of two blocks. *)
Example sha256_two_blocks :
  SHA ([97; 98; 99; 100; 98; 99; 100; 101; 99; 100; 101; 102; 100; 101; 102; 103; 101; 102; 103; 104;
        102; 103; 104; 105; 103; 104; 105; 106; 104; 105; 106; 107; 105; 106; 107; 108; 106; 107; 108;
        109; 107; 108; 109; 110; 108; 109; 110; 111; 109; 110; 111; 112; 110; 111; 112; 113])
  = be_bytes 32 0x248d6a61d20638b8e5c026930c3e6039a33ce45964ff2167f6ecedd419db06c1.
Proof. vm_compute. reflexivity. Qed.
