(* ===== verification/Drbg.v ===== *)
(** * Random numbers

    The generator of [lib/libc/stdlib/entropy.c] (a hash DRBG in the style of
    NIST SP 800-90A over SHA-256, and an entropy pool) and its users in
    [lib/libc/stdlib/rand.c].  The state of the generator is shown to evolve by
    arithmetic modulo 2^440; requests of any length are answered in full. *)

From S2P Require Import Prelude Bytes Hash Sha256.

(** ** State *)

Definition DRBG_V_LEN : nat := 55.
Definition DRBG_RESEED_INTERVAL : Z := 2 ^ 48.
Definition DRBG_MAX_BYTES_PER_REQ : Z := 65536.

Record drbg_ctx := mkDrbg { dV : list Z; dC : list Z; reseed_counter : Z; seeded : bool }.
#[global] Instance drbg_ctx_eta : Etable drbg_ctx :=
  λ c, mkDrbg (dV c) (dC c) (reseed_counter c) (seeded c).

Record entropy_pool := mkPool { accumulator : list Z; entropy_estimate : Z; initialized : bool }.
#[global] Instance entropy_pool_eta : Etable entropy_pool :=
  λ p, mkPool (accumulator p) (entropy_estimate p) (initialized p).

(** The sources of the processor: whether it has the two instructions, what
    each execution of them gives (the value and the carry flag), and the time
    stamp counter.  [cpu_registers] are the thirteen values that
    [entropy_garden] reads after the counter: control registers, flags, stack
    and frame pointer, and segment selectors. *)
Class Hardware := {
  hw : Type;
  cpu_has_rdseed : bool;
  cpu_has_rdrand : bool;
  rdseed64 : hw → (Z * bool) * hw;
  rdrand64 : hw → (Z * bool) * hw;
  rdtsc : hw → Z * hw;
  cpu_registers : hw → list Z * hw }.

Section Code.
Context `{!Hardware}.

(** The globals of [rand.c], and the processor. *)
Record rst := mkRst {
  k_drbg : drbg_ctx; k_pool : entropy_pool; k_initialized : bool; r_hw : hw }.
#[global] Instance rst_eta : Etable rst :=
  λ s, mkRst (k_drbg s) (k_pool s) (k_initialized s) (r_hw s).

(** ** The derivation function and the output stream *)

Fixpoint hash_df_from {S} (fuel : nat) (counter : Z) (len_bytes input : list Z)
    (out_len offset : Z) : M S (list Z) :=
  if out_len <=? offset then mret [] else
  match fuel with
  | O => fault
  | Datatypes.S fuel =>
      hash ← on_stack (sha256_init ;; sha256_update [counter] ;; sha256_update len_bytes ;;
                       sha256_update input ;; sha256_final);
      let copy := if out_len - offset <? 32 then out_len - offset else 32 in
      rest ← hash_df_from fuel (u8 (counter + 1)) len_bytes input out_len (offset + copy);
      mret (take (Z.to_nat copy) hash ++ rest)
  end.

Definition hash_df {S} (input : list Z) (out_len : Z) : M S (list Z) :=
  let bits := u64 (out_len * 8) in
  let len_bytes := [u8 (Z.shiftr bits 24); u8 (Z.shiftr bits 16); u8 (Z.shiftr bits 8); u8 bits] in
  hash_df_from (Z.to_nat out_len) 1 len_bytes input out_len 0.

(** [for (i = n - 1; i >= 0 && carry; i--) ...] *)
Fixpoint carry_from (n : nat) (data : list Z) (carry : Z) : list Z :=
  match n with
  | O => data
  | S i =>
      if carry =? 0 then data else
      let sum := data !!! i + carry in
      carry_from i (<[i := u8 sum]> data) (Z.shiftr sum 8)
  end.

Fixpoint hashgen_from {S} (fuel : nat) (data : list Z) (out_len offset : Z) : M S (list Z) :=
  if out_len <=? offset then mret [] else
  match fuel with
  | O => fault
  | Datatypes.S fuel =>
      hash ← on_stack (sha256_init ;; sha256_update data ;; sha256_final);
      let copy := if out_len - offset <? 32 then out_len - offset else 32 in
      rest ← hashgen_from fuel (carry_from DRBG_V_LEN data 1) out_len (offset + copy);
      mret (take (Z.to_nat copy) hash ++ rest)
  end.

Definition hashgen {S} (V : list Z) (out_len : Z) : M S (list Z) :=
  hashgen_from (Z.to_nat out_len) V out_len 0.

(** ** The generator *)

(** [seed_material + seed_len] grows by [l] when its length is accepted. *)
Definition seed_part (l : list Z) (max : nat) : list Z :=
  if (0 <? length l)%nat && (length l <=? max)%nat then l else [].

Definition set_drbg (f : drbg_ctx → drbg_ctx) : M rst unit :=
  modify (λ s, s <| k_drbg := f (k_drbg s) |>).

(** [V] from the seed material, [C] from [V], and a new count. *)
Definition new_state (seed_material : list Z) : M rst unit :=
  V ← hash_df seed_material (Z.of_nat DRBG_V_LEN);
  C ← hash_df (V ++ [0]) (Z.of_nat DRBG_V_LEN);
  set_drbg (λ c, c <| dV := V |> <| dC := C |> <| reseed_counter := 1 |>).

Definition drbg_instantiate (entropy nonce pers : list Z) : M rst unit :=
  new_state (seed_part entropy 128 ++ seed_part nonce 64 ++ seed_part pers 256) ;;
  set_drbg (λ c, c <| seeded := true |>).

Definition drbg_reseed (entropy addin : list Z) : M rst unit :=
  c ← gets k_drbg;
  if negb (seeded c) then mret tt else
  new_state (1 :: dV c ++ seed_part entropy 128 ++ seed_part addin 256).

(** [n] rounds of [sum = V[i] + w[i] + carry; V[i] = sum; carry = sum >> 8],
    with [i] going down. *)
Fixpoint add_down (n i : nat) (w : nat → Z) (V : list Z) (carry : Z) : list Z * Z :=
  match n with
  | O => (V, carry)
  | S n =>
      let sum := V !!! i + w i + carry in
      add_down n (i - 1) w (<[i := u8 sum]> V) (Z.shiftr sum 8)
  end.

Definition add_hash (V H : list Z) : list Z :=
  (add_down DRBG_V_LEN (DRBG_V_LEN - 1) (λ i, H !!! (i `mod` 32)%nat) V 0).1.

Definition add_counter (V : list Z) (count : Z) : list Z :=
  let rc_bytes := [u8 (Z.shiftr count 56); u8 (Z.shiftr count 48); u8 (Z.shiftr count 40);
    u8 (Z.shiftr count 32); u8 (Z.shiftr count 24); u8 (Z.shiftr count 16);
    u8 (Z.shiftr count 8); u8 count] in
  let '(V, carry) :=
    add_down 8 (DRBG_V_LEN - 1) (λ i, rc_bytes !!! (DRBG_V_LEN - 1 - i)%nat) V 0 in
  if nz carry then carry_from (DRBG_V_LEN - 8) V carry else V.

(** The result and, when it is 0, the bytes written to [out]. *)
Definition drbg_generate (out_len : Z) (addin : list Z) : M rst (option (list Z)) :=
  c ← gets k_drbg;
  if negb (seeded c) then mret None else
  if DRBG_MAX_BYTES_PER_REQ <? out_len then mret None else
  if DRBG_RESEED_INTERVAL <? reseed_counter c then mret None else
  (if (0 <? length addin)%nat then
     w ← on_stack (sha256_init ;; sha256_update (dV c) ;; sha256_update addin ;; sha256_final);
     set_drbg (λ c, c <| dV := add_hash (dV c) w |>)
   else mret tt) ;;
  V ← gets (λ s, dV (k_drbg s));
  out ← hashgen V out_len;
  H ← sha256 (3 :: V);
  set_drbg (λ c, c <| dV := add_hash (dV c) H |>) ;;
  set_drbg (λ c, c <| dV :=
    (add_down DRBG_V_LEN (DRBG_V_LEN - 1) (λ i, dC c !!! i) (dV c) 0).1 |>) ;;
  set_drbg (λ c, c <| dV := add_counter (dV c) (reseed_counter c) |>) ;;
  set_drbg (λ c, c <| reseed_counter := u64 (reseed_counter c + 1) |>) ;;
  mret (Some out).

Definition drbg_uninstantiate : M rst unit :=
  set_drbg (λ _, mkDrbg (replicate DRBG_V_LEN 0) (replicate DRBG_V_LEN 0) 0 false).

(** ** The entropy pool *)

Definition entropy_pool_init : M rst unit :=
  modify (λ s, s <| k_pool := mkPool (replicate 64 0) 0 true |>).

Definition pool_ready : M rst unit :=
  p ← gets k_pool;
  whenM (negb (initialized p)) entropy_pool_init.

Definition entropy_pool_add (data : list Z) : M rst unit :=
  pool_ready ;;
  acc ← gets (λ s, accumulator (k_pool s));
  h ← on_stack (sha256_init ;; sha256_update acc ;; sha256_update data ;; sha256_final);
  modify (λ s, s <| k_pool := mkPool (splice acc 0 h)
    (u64 (entropy_estimate (k_pool s) + Z.of_nat (length data) * 4)) (initialized (k_pool s)) |>).

Definition entropy_pool_extract (out_len : Z) : M rst (list Z) :=
  pool_ready ;;
  acc ← gets (λ s, accumulator (k_pool s));
  out ← hash_df acc out_len;
  h ← sha256 acc;
  modify (λ s, s <| k_pool := mkPool (splice acc 0 h) 0 (initialized (k_pool s)) |>) ;;
  mret out.

(** ** The processor *)

Definition read_hw {A} (f : hw → A * hw) : M rst A := λ s,
  let '(a, h) := f (r_hw s) in Done a (s <| r_hw := h |>).

(** [for (retry = 0; retry < n && !ok; retry++) ok = f(&val)] *)
Fixpoint retry (n : nat) (f : hw → (Z * bool) * hw) (val : Z) : M rst (Z * bool) :=
  match n with
  | O => mret (val, false)
  | S n =>
      '(val, ok) ← read_hw f;
      if (ok : bool) then mret (val, true) else retry n f val
  end.

Definition hardware_word : M rst Z :=
  '(val, ok) ← (if cpu_has_rdseed then retry 10 rdseed64 0 else mret (0, false));
  '(val, ok) ← (if negb ok && cpu_has_rdrand then retry 10 rdrand64 val else mret (val, ok));
  if (ok : bool) then mret val else read_hw rdtsc.

Fixpoint gather_from (fuel : nat) (len offset : Z) : M rst (list Z) :=
  if len <=? offset then mret [] else
  match fuel with
  | O => fault
  | S fuel =>
      val ← hardware_word;
      let copy := if len - offset <? 8 then len - offset else 8 in
      rest ← gather_from fuel len (offset + copy);
      mret (take (Z.to_nat copy) (le_bytes 8 val) ++ rest)
  end.

Definition gather_hardware_entropy (len : Z) : M rst (list Z) := gather_from (Z.to_nat len) len 0.

(** ** Requests

    [buf] is the caller's buffer before the call. *)

Fixpoint random_from (fuel : nat) (buf : list Z) (offset : Z) : M rst (list Z) :=
  let len := Z.of_nat (length buf) in
  if len <=? offset then mret buf else
  match fuel with
  | O => fault
  | S fuel =>
      let chunk := if len - offset <? DRBG_MAX_BYTES_PER_REQ then len - offset
                   else DRBG_MAX_BYTES_PER_REQ in
      r ← drbg_generate chunk [];
      r ← match r with
          | Some _ => mret r
          | None =>
              entropy ← gather_hardware_entropy 64;
              drbg_reseed entropy [] ;;
              drbg_generate chunk []
          end;
      random_from fuel (splice buf (Z.to_nat offset) (default [] r)) (offset + chunk)
  end.

Definition secure_random_bytes (buf : list Z) : M rst (list Z) := random_from (length buf) buf 0.

Definition secure_random_u32 (val : list Z) : M rst Z := b ← secure_random_bytes val; mret (le_val b).
Definition secure_random_u64 (val : list Z) : M rst Z := b ← secure_random_bytes val; mret (le_val b).

Definition charset : list Z := seqZ 65 26 ++ seqZ 97 26 ++ seqZ 48 10.
Definition charset_size : Z := 62.
Definition charset_limit : Z := u8 (256 - 256 `mod` charset_size).

(** [if (byte < limit) dest[i++] = charset[byte % charset_size]] *)
Definition string_char (b : Z) : option Z :=
  if b <? charset_limit then Some (charset !!! Z.to_nat (b `mod` charset_size)) else None.

(** The loop of [secure_random_string] runs until [len] bytes have been
    accepted; [fuel] bounds the number of bytes drawn. *)
Fixpoint secure_random_string (fuel : nat) (len : nat) : M rst (list Z) :=
  match len with
  | O => mret [0]
  | S len' =>
      match fuel with
      | O => fault
      | S fuel =>
          b ← secure_random_bytes [0];
          match string_char (b !!! 0%nat) with
          | Some c => rest ← secure_random_string fuel len'; mret (c :: rest)
          | None => secure_random_string fuel len
          end
      end
  end.

(** ** [rand.c] *)

Definition pers_string : list Z :=
  [122; 110; 117; 95; 107; 101; 114; 110; 101; 108; 95; 114; 110; 103; 95; 118; 49; 0].

Definition ensure_initialized : M rst unit :=
  i ← gets k_initialized;
  if (i : bool) then mret tt else
  entropy_pool_init ;;
  hw_entropy ← gather_hardware_entropy 64;
  entropy_pool_add hw_entropy ;;
  tsc ← read_hw rdtsc;
  entropy_pool_add (le_bytes 8 tsc) ;;
  seed ← entropy_pool_extract 64;
  nonce ← entropy_pool_extract 32;
  drbg_instantiate seed nonce pers_string ;;
  modify (λ s, s <| k_initialized := true |>).

Definition seed_from_text (text : list Z) : M rst unit :=
  ensure_initialized ;;
  text_hash ← on_stack (sha256_init ;; sha256_update text ;; sha256_final);
  entropy_pool_add text_hash ;;
  fresh ← entropy_pool_extract 64;
  drbg_reseed fresh [].

(** The decimal digits of [temp], last digit first. *)
Fixpoint seed_digits (n : nat) (temp : Z) : list Z :=
  match n with
  | O => []
  | S n => if 0 <? temp then 48 + temp `mod` 10 :: seed_digits n (temp / 10) else []
  end.

Definition srand (seed : Z) : M rst unit :=
  seed_from_text (if seed =? 0 then [48] else seed_digits 30 seed).

Definition rand (val : list Z) : M rst Z :=
  ensure_initialized ;;
  v ← secure_random_u32 val;
  mret (Z.land v 0x7FFFFFFF).

Definition seed_from_hardware : M rst unit :=
  ensure_initialized ;;
  hw_entropy ← gather_hardware_entropy 128;
  entropy_pool_add hw_entropy ;;
  fresh ← entropy_pool_extract 64;
  drbg_reseed fresh [].

Definition rand_reseed : M rst unit := seed_from_hardware.

Definition random_bytes (buf : list Z) : M rst (list Z) :=
  ensure_initialized ;; secure_random_bytes buf.

(** One step of the generator that scrambles the words of [entropy_garden]. *)
Definition xorshift (x : Z) : Z :=
  let x := Z.lxor x (u64 (Z.shiftl x 13)) in
  let x := Z.lxor x (Z.shiftr x 7) in
  Z.lxor x (u64 (Z.shiftl x 17)).

(** [x << n] as the processor does it, with the count modulo 64; for a shift
    amount of 0 the code shifts by 64. *)
Definition shl64 (x n : Z) : Z := u64 (Z.shiftl x (n `mod` 64)).

Fixpoint garden_mix (state_buf : list Z) (local_rand_state : Z) : list Z :=
  match state_buf with
  | [] => []
  | w :: state_buf =>
      let r := xorshift local_rand_state in
      let shift_amount := r `mod` 64 in
      let rotated := Z.lor (Z.shiftr w shift_amount) (shl64 w (64 - shift_amount)) in
      Z.lxor rotated r :: garden_mix state_buf r
  end.

(** [if (has) { if (f(&v)) state_buf[idx++] = v; }] *)
Definition garden_source (has : bool) (f : hw → (Z * bool) * hw) : M rst (list Z) :=
  if has then '(v, ok) ← read_hw f; mret (if (ok : bool) then [v] else []) else mret [].

Definition entropy_garden : M rst unit :=
  tsc ← read_hw rdtsc;
  regs ← read_hw cpu_registers;
  s1 ← garden_source cpu_has_rdseed rdseed64;
  s2 ← garden_source cpu_has_rdrand rdrand64;
  let state_buf := tsc :: regs ++ s1 ++ s2 in
  let local_rand_state := if tsc =? 0 then 0x55AA55AA55AA55AA else tsc in
  entropy_pool_add (mjoin (le_bytes 8 <$> garden_mix state_buf local_rand_state)).
End Code.

(** ** Arithmetic on byte strings

    The loops with a carry are additions of big-endian numbers. *)

Lemma add_byte x y c : byte x → byte y → 0 ≤ c ≤ 1 →
  byte (u8 (x + y + c)) ∧ 0 ≤ Z.shiftr (x + y + c) 8 ≤ 1 ∧
  u8 (x + y + c) + 256 * Z.shiftr (x + y + c) 8 = x + y + c.
Proof.
  unfold byte. intros Hx Hy Hc. rewrite Z.shiftr_div_pow2 by lia. unfold wrap.
  change (2 ^ 8) with 256. pose proof (Z.div_mod (x + y + c) 256). split; [|split]; [|split|];
    Z.div_mod_to_equations; lia.
Qed.

Lemma add_down_spec n : ∀ w P Q R c, length Q = n → bytes Q →
  (∀ i, (length P ≤ i < length P + n)%nat → byte (w i)) → 0 ≤ c ≤ 1 →
  ∃ Q' c', add_down n (length P + n - 1) w (P ++ Q ++ R) c = (P ++ Q' ++ R, c') ∧
    length Q' = n ∧ bytes Q' ∧ 0 ≤ c' ≤ 1 ∧
    be_val Q' + 256 ^ Z.of_nat n * c' = be_val Q + be_val (w <$> seq (length P) n) + c.
Proof.
  induction n as [|n IH]; intros w P Q R c Hl HQ Hw Hc.
  - apply nil_length_inv in Hl as ->. exists [], c. cbn. split_and!; [done..|lia|lia|unfold be_val; simpl; lia].
  - destruct Q as [|x Q _] using rev_ind; [done|].
    rewrite length_app in Hl. cbn [length] in Hl. apply Forall_app in HQ as [HQ [Hx _]%list.Forall_cons].
    cbn [add_down]. replace (length P + S n - 1)%nat with (length P + n)%nat by lia.
    assert (length (P ++ Q) = (length P + n)%nat) as HPQ by (rewrite length_app; lia).
    rewrite <-(app_assoc Q), (app_assoc P). cbn [app].
    rewrite lookup_total_app_r by lia.
    rewrite HPQ, Nat.sub_diag. change ((x :: R) !!! 0%nat) with x.
    destruct (add_byte x (w (length P + n)%nat) c) as (Hb & Hc' & E); [done|apply Hw; lia|done|].
    rewrite insert_app_r_alt by lia. rewrite HPQ, Nat.sub_diag. cbn [insert list_insert].
    destruct (IH w P Q (u8 (x + w (length P + n)%nat + c) :: R) (Z.shiftr (x + w (length P + n)%nat + c) 8))
      as (Q' & c' & E' & Hl' & HQ' & Hcr & Ev); [lia|done|intros; apply Hw; lia|done|].
    exists (Q' ++ [u8 (x + w (length P + n)%nat + c)]), c'.
    rewrite <-app_assoc, E', <-app_assoc. split_and!; [done|rewrite length_app; simpl; lia| |lia|lia|].
    + apply Forall_app. by rewrite Forall_singleton.
    + rewrite seq_S, fmap_app. change (w <$> [_]) with [w (length P + n)%nat].
      rewrite !be_val_snoc, pow256_S. lia.
Qed.

(** The sum of the carries lost at the front. *)
Lemma be_val_sum n Q' Q a c : length Q' = n → bytes Q' → length Q = n →
  be_val Q' + 256 ^ Z.of_nat n * c = be_val Q + a → Q' = be_bytes n (be_val Q + a).
Proof.
  intros Hl HQ' HQ E. subst n. rewrite <-E. unfold be_bytes.
  rewrite <-le_bytes_mod, Z.mul_comm, Z_mod_plus_full. fold (be_bytes (length Q') (be_val Q' `mod` 256 ^ Z.of_nat (length Q'))).
  rewrite Z.mod_small by by apply be_val_range. symmetry. by apply be_bytes_val.
Qed.

Lemma carry_from_spec n : ∀ P R c, length P = n → bytes P → 0 ≤ c ≤ 1 →
  carry_from n (P ++ R) c = be_bytes n (be_val P + c) ++ R.
Proof.
  assert (∀ n P R c, length P = n → bytes P → 0 ≤ c ≤ 1 → ∃ P' c',
    carry_from n (P ++ R) c = P' ++ R ∧ length P' = n ∧ bytes P' ∧
    be_val P' + 256 ^ Z.of_nat n * c' = be_val P + c) as H.
  { clear n. induction n as [|n IH]; intros P R c Hl HP Hc.
    - apply nil_length_inv in Hl as ->. exists [], c. unfold be_val. simpl. split_and!; [done..|lia].
    - destruct P as [|x P _] using rev_ind; [done|].
      rewrite length_app in Hl. cbn [length] in Hl. apply Forall_app in HP as [HP [Hx _]%list.Forall_cons].
      cbn [carry_from]. destruct (Z.eqb_spec c 0) as [->|Hc0].
      + exists (P ++ [x]), 0. split_and!; [done|rewrite length_app; simpl; lia| |lia].
        apply Forall_app. by rewrite Forall_singleton.
      + rewrite <-app_assoc. cbn [app]. rewrite lookup_total_app_r by lia.
        replace (n - length P)%nat with O by lia. change ((x :: R) !!! 0%nat) with x.
        destruct (add_byte x 0 c) as (Hb & Hc' & E); [done|unfold byte; lia|done|].
        rewrite Z.add_0_r in *. rewrite insert_app_r_alt by lia.
        replace (n - length P)%nat with O by lia. cbn [insert list_insert].
        destruct (IH P (u8 (x + c) :: R) (Z.shiftr (x + c) 8)) as (P' & c' & E' & Hl' & HP' & Ev);
          [lia|done|done|].
        exists (P' ++ [u8 (x + c)]), c'. rewrite E', <-app_assoc. split_and!;
          [done|rewrite length_app; simpl; lia|apply Forall_app; by rewrite Forall_singleton|].
        rewrite !be_val_snoc, pow256_S. lia. }
  intros P R c Hl HP Hc. destruct (H n P R c Hl HP Hc) as (P' & c' & -> & Hl' & HP' & E).
  f_equal. by eapply be_val_sum.
Qed.

Abbreviation V_LEN := DRBG_V_LEN.

Lemma add_all V w n c : length V = S n → bytes V → (∀ i, (i < S n)%nat → byte (w i)) → 0 ≤ c ≤ 1 →
  (add_down (S n) (S n - 1) w V c).1 = be_bytes (S n) (be_val V + be_val (w <$> seq 0 (S n)) + c).
Proof.
  intros Hl HV Hw Hc.
  destruct (add_down_spec (S n) w [] V [] c Hl HV) as (Q' & c' & E & Hl' & HQ' & _ & Ev);
    [intros; apply Hw; simpl in *; lia|done|].
  rewrite app_nil_r in E. cbn [length Nat.add app] in E, Ev. rewrite E. cbn [fst].
  rewrite app_nil_r, <-Z.add_assoc. apply be_val_sum with (c := c'); [done..|]. lia.
Qed.

Lemma add_hash_eq V H : length V = V_LEN → bytes V → length H = 32%nat → bytes H →
  add_hash V H = be_bytes V_LEN (be_val V + be_val (take V_LEN (H ++ H))).
Proof.
  intros HlV HV HlH HH. unfold add_hash, DRBG_V_LEN in *.
  rewrite add_all; [|done|done| |lia].
  - rewrite Z.add_0_r. do 3 f_equal. apply list_eq_same_length with 55%nat;
      [by rewrite length_take, length_app, HlH|done|].
    intros i x y Hi Hx Hy.
    rewrite list_lookup_fmap, lookup_seq_lt in Hx by lia. apply (inj Some) in Hx as <-.
    rewrite lookup_take_lt in Hy by lia. apply list_lookup_total_correct.
    destruct (decide (i < 32)%nat).
    + rewrite lookup_app_l in Hy by lia. by rewrite Nat.mod_small.
    + rewrite lookup_app_r, HlH in Hy by lia.
      by replace ((0 + i) `mod` 32)%nat with (i - 32)%nat by (apply (Nat.mod_unique _ _ 1); lia).
  - intros i Hi. apply Forall_lookup_total_1; [done|]. rewrite HlH. apply Nat.mod_upper_bound. lia.
Qed.

Lemma add_C_eq V C : length V = V_LEN → bytes V → length C = V_LEN → bytes C →
  (add_down V_LEN (V_LEN - 1) (λ i, C !!! i) V 0).1 = be_bytes V_LEN (be_val V + be_val C).
Proof.
  intros HlV HV HlC HC. unfold DRBG_V_LEN in *. rewrite add_all; [|done|done| |lia].
  - rewrite Z.add_0_r. do 3 f_equal. apply list_eq_same_length with 55%nat; [done|done|].
    intros i x y Hi Hx Hy.
    rewrite list_lookup_fmap, lookup_seq_lt in Hx by lia. apply (inj Some) in Hx as <-.
    by apply list_lookup_total_correct.
  - intros i Hi. apply Forall_lookup_total_1; [done|]. lia.
Qed.

(** The count is added with its bytes in reverse. *)
Lemma add_counter_eq V n : length V = V_LEN → bytes V →
  add_counter V n = be_bytes V_LEN (be_val V + be_val (le_bytes 8 n)).
Proof.
  intros Hl HV. unfold add_counter. rewrite <-be_bytes_8.
  set (w := λ i, be_bytes 8 n !!! (V_LEN - 1 - i)%nat).
  assert (w <$> seq 47 8 = le_bytes 8 n) as Ew.
  { unfold w, be_bytes. cbn [DRBG_V_LEN]. by destruct (le_bytes 8 n) as
      [|? [|? [|? [|? [|? [|? [|? [|? [|]]]]]]]]] eqn:E; apply (f_equal length) in E. }
  rewrite <-(take_drop 47 V) at 1. unfold DRBG_V_LEN in *.
  assert (length (take 47 V) = 47%nat) as Ht by (rewrite length_take; lia).
  assert (length (drop 47 V) = 8%nat) as Hd by (rewrite length_drop; lia).
  destruct (add_down_spec 8 w (take 47 V) (drop 47 V) [] 0) as (Q' & c' & E & Hl' & HQ' & Hc & Ev);
    [done|by apply Forall_drop| |lia|].
  { intros i Hi. rewrite Ht in Hi. unfold w. apply Forall_lookup_total_1; [apply bytes_be_bytes|].
    rewrite length_be_bytes. unfold DRBG_V_LEN. lia. }
  rewrite app_nil_r in E. rewrite Ht in E, Ev. cbn [Nat.add Nat.sub] in E |- *. rewrite E, app_nil_r.
  rewrite Ew, Z.add_0_r in Ev.
  assert ((if nz c' then carry_from 47 (take 47 V ++ Q') c' else take 47 V ++ Q')
    = be_bytes 47 (be_val (take 47 V) + c') ++ Q') as ->.
  { destruct (nz c') eqn:Ec; [apply carry_from_spec; [done|by apply Forall_take|lia]|].
    apply nz_false in Ec as ->. rewrite Z.add_0_r. rewrite <-Ht at 2.
    by rewrite be_bytes_val by by apply Forall_take. }
  apply be_val_sum with (c := (be_val (take 47 V) + c') / 256 ^ 47);
    [by rewrite length_app, length_be_bytes, Hl'|apply Forall_app; split; [apply bytes_be_bytes|done]|done|].
  rewrite be_val_app, be_val_bytes, Hl'. rewrite <-(take_drop 47 V) at 3. rewrite be_val_app, Hd.
  pose proof (Z.div_mod (be_val (take 47 V) + c') (256 ^ 47)). 
  change (256 ^ Z.of_nat 55) with (256 ^ 47 * 256 ^ Z.of_nat 8). change (Z.of_nat 47) with 47. lia.
Qed.

(** ** Streams of hash blocks *)

Fixpoint blocks (f : Z → list Z) (n : nat) (i : Z) : list Z :=
  match n with O => [] | S n => f i ++ blocks f n (i + 1) end.

Section Blocks.
Context (f : Z → list Z) (Hf : ∀ i, length (f i) = 32%nat) (Hb : ∀ i, bytes (f i)).

Lemma length_blocks n i : length (blocks f n i) = (32 * n)%nat.
Proof. revert i. induction n as [|n IH]; intros i; [done|]. cbn [blocks]. rewrite length_app, Hf, IH. lia. Qed.

Lemma bytes_blocks n i : bytes (blocks f n i).
Proof. revert i. induction n as [|n IH]; intros i; [constructor|]. by apply Forall_app. Qed.

(** One round of either loop. *)
Lemma take_blocks n i m : 0 < m →
  take (Z.to_nat (if m <? 32 then m else 32)) (f i)
    ++ take (Z.to_nat (m - (if m <? 32 then m else 32))) (blocks f n (i + 1))
  = take (Z.to_nat m) (blocks f (S n) i).
Proof.
  intros Hm. cbn [blocks]. rewrite take_app, Hf. destruct (Z.ltb_spec m 32).
  - rewrite Z.sub_diag. by replace (Z.to_nat m - 32)%nat with O by lia.
  - rewrite !(take_ge (f i)) by (rewrite Hf; lia). do 2 f_equal. lia.
Qed.
End Blocks.

(** The bytes of the derivation function: hashes of a counter, the number of
    bits asked for and the input. *)
Definition df (input : list Z) (out_len : nat) : list Z :=
  take out_len (blocks (λ i, SHA (u8 i :: be_bytes 4 (8 * Z.of_nat out_len) ++ input)) out_len 1).

(** The bytes of the output function: hashes of successive numbers. *)
Definition gen (V : list Z) (out_len : nat) : list Z :=
  take out_len (blocks (λ i, SHA (be_bytes V_LEN (be_val V + i))) out_len 0).

Lemma length_bytes_df input n : length (df input n) = n ∧ bytes (df input n).
Proof.
  unfold df. split; [|apply Forall_take, bytes_blocks; intros; apply bytes_SHA].
  rewrite length_take, length_blocks by (intros; apply length_SHA). lia.
Qed.

Lemma length_bytes_gen V n : length (gen V n) = n ∧ bytes (gen V n).
Proof.
  unfold gen. split; [|apply Forall_take, bytes_blocks; intros; apply bytes_SHA].
  rewrite length_take, length_blocks by (intros; apply length_SHA). lia.
Qed.

Lemma hash_df_from_eq {S} fuel counter i lb input out_len offset (s : S) :
  counter = u8 i → out_len - offset ≤ Z.of_nat fuel →
  hash_df_from fuel counter lb input out_len offset s
  = Done (take (Z.to_nat (out_len - offset)) (blocks (λ i, SHA (u8 i :: lb ++ input)) fuel i)) s.
Proof.
  revert counter i offset. induction fuel as [|fuel IH]; intros counter i offset -> Hf;
    cbn [hash_df_from]; destruct (Z.leb_spec out_len offset); [|lia|..].
  1,2: replace (Z.to_nat (out_len - offset)) with O by lia; by rewrite take_0.
  pose proof (on_stack_chunks [[u8 i]; lb; input] s) as E. cbn [foldr concat app] in E.
  rewrite app_nil_r in E. rewrite (bind_done _ _ _ _ _ E). cbv zeta.
  erewrite bind_done; [|apply (IH _ (i + 1)); [unfold wrap; by rewrite Zplus_mod_idemp_l|]].
  - rewrite Z.sub_add_distr.
    by rewrite (take_blocks (λ i, SHA (u8 i :: lb ++ input))) by (intros; apply length_SHA || lia).
  - destruct (Z.ltb_spec (out_len - offset) 32); lia.
Qed.

Lemma be_bytes_4 z : be_bytes 4 z = [u8 (Z.shiftr z 24); u8 (Z.shiftr z 16); u8 (Z.shiftr z 8); u8 z].
Proof.
  unfold be_bytes.
  assert (le_bytes 4 z = [u8 z; u8 (Z.shiftr z 8); u8 (Z.shiftr z 16); u8 (Z.shiftr z 24)]) as ->; [|done].
  apply list_eq. intros i. destruct (decide (i < 4)%nat) as [Hi|Hi].
  - rewrite le_bytes_lookup by done. do 4 (destruct i as [|i]; [simpl; by rewrite ?Z.shiftr_0_r|]). lia.
  - rewrite !lookup_ge_None_2; simpl; rewrite ?length_le_bytes; [done|lia..].
Qed.

Lemma hash_df_eq {S} input out_len (s : S) : 0 ≤ out_len < 2 ^ 61 →
  hash_df input out_len s = Done (df input (Z.to_nat out_len)) s.
Proof.
  intros Hl. unfold hash_df. rewrite <-be_bytes_4.
  rewrite (hash_df_from_eq _ _ 1) by (done || lia). unfold df. rewrite Z.sub_0_r, Z2Nat.id by lia.
  rewrite wrap_small by lia. by rewrite (Z.mul_comm out_len).
Qed.

Lemma carry_all V i : length V = V_LEN →
  carry_from V_LEN (be_bytes V_LEN (be_val V + i)) 1 = be_bytes V_LEN (be_val V + (i + 1)).
Proof.
  intros Hl. rewrite <-(app_nil_r (be_bytes _ _)) at 1.
  rewrite carry_from_spec, app_nil_r; [|apply length_be_bytes|apply bytes_be_bytes|lia].
  rewrite be_val_bytes. unfold be_bytes. f_equal. rewrite <-le_bytes_mod, Zplus_mod_idemp_l.
  rewrite le_bytes_mod. f_equal. lia.
Qed.

Lemma hashgen_from_eq {S} fuel V i out_len offset (s : S) :
  length V = V_LEN → out_len - offset ≤ Z.of_nat fuel →
  hashgen_from fuel (be_bytes V_LEN (be_val V + i)) out_len offset s
  = Done (take (Z.to_nat (out_len - offset))
      (blocks (λ i, SHA (be_bytes V_LEN (be_val V + i))) fuel i)) s.
Proof.
  intros HV. revert i offset. induction fuel as [|fuel IH]; intros i offset Hf;
    cbn [hashgen_from]; destruct (Z.leb_spec out_len offset); [|lia|..].
  1,2: replace (Z.to_nat (out_len - offset)) with O by lia; by rewrite take_0.
  pose proof (on_stack_chunks [be_bytes V_LEN (be_val V + i)] s) as E. cbn [foldr concat] in E.
  rewrite app_nil_r in E. rewrite (bind_done _ _ _ _ _ E), carry_all by done. cbv zeta.
  erewrite bind_done; [|apply IH; destruct (Z.ltb_spec (out_len - offset) 32); lia].
  rewrite Z.sub_add_distr.
  by rewrite (take_blocks (λ i, SHA (be_bytes V_LEN (be_val V + i)))) by (intros; apply length_SHA || lia).
Qed.

Lemma hashgen_eq {S} V out_len (s : S) : length V = V_LEN → bytes V → 0 ≤ out_len →
  hashgen V out_len s = Done (gen V (Z.to_nat out_len)) s.
Proof.
  intros Hl HV Ho. unfold hashgen. pose proof (be_bytes_val V HV) as E. rewrite Hl in E.
  rewrite <-E at 1. rewrite <-(Z.add_0_r (be_val V)), hashgen_from_eq by (done || lia).
  unfold gen. by rewrite Z.sub_0_r.
Qed.

(** ** The generator *)

Record drbg_ok (c : drbg_ctx) : Prop := {
  do_V : length (dV c) = V_LEN;
  do_Vb : bytes (dV c);
  do_C : length (dC c) = V_LEN;
  do_Cb : bytes (dC c);
  do_count : 0 ≤ reseed_counter c < 2 ^ 64;
  do_seeded : seeded c = true }.

(** The state [V] after additional input, and after a request. *)
Definition mix (V addin : list Z) : list Z :=
  let w := SHA (V ++ addin) in be_bytes V_LEN (be_val V + be_val (take V_LEN (w ++ w))).

Definition next_V (V C : list Z) (count : Z) : list Z :=
  let H := SHA (3 :: V) in
  be_bytes V_LEN (be_val V + be_val (take V_LEN (H ++ H)) + be_val C + be_val (le_bytes 8 count)).

Lemma be_bytes_add n z a : be_bytes n (be_val (be_bytes n z) + a) = be_bytes n (z + a).
Proof.
  rewrite be_val_bytes. unfold be_bytes. f_equal.
  by rewrite <-le_bytes_mod, Zplus_mod_idemp_l, le_bytes_mod.
Qed.

#[local] Opaque df gen.

Section Generator.
Context {HW : Hardware}.
Implicit Types s : rst.

Lemma drbg_generate_refused s n addin :
  seeded (k_drbg s) = false ∨ DRBG_MAX_BYTES_PER_REQ < n ∨
    DRBG_RESEED_INTERVAL < reseed_counter (k_drbg s) →
  drbg_generate n addin s = Done None s.
Proof.
  intros H. unfold drbg_generate. rewrite (bind_done (gets _) _ _ _ _ eq_refl).
  destruct (seeded (k_drbg s)); [|done]. cbn [negb].
  destruct (Z.ltb_spec DRBG_MAX_BYTES_PER_REQ n); [done|].
  destruct (Z.ltb_spec DRBG_RESEED_INTERVAL (reseed_counter (k_drbg s))); [done|].
  destruct H as [?|[?|?]]; [done|lia|lia].
Qed.

Lemma drbg_generate_eq s n addin : drbg_ok (k_drbg s) → 0 ≤ n ≤ DRBG_MAX_BYTES_PER_REQ →
  reseed_counter (k_drbg s) ≤ DRBG_RESEED_INTERVAL →
  let c := k_drbg s in
  let V := match addin with [] => dV c | _ => mix (dV c) addin end in
  drbg_generate n addin s =
  Done (Some (gen V (Z.to_nat n)))
    (s <| k_drbg := mkDrbg (next_V V (dC c) (reseed_counter c)) (dC c) (reseed_counter c + 1) true |>).
Proof.
  destruct s as [[V0 C n0 sd] pool ini h]. cbn [k_drbg dV dC reseed_counter].
  intros [HV HVb HC HCb Hc Hs] Hn Hr. cbn [dV dC reseed_counter seeded] in *. subst sd.
  set (V := match addin with [] => V0 | _ => mix V0 addin end).
  assert (length V = V_LEN ∧ bytes V) as [HlV HbV].
  { unfold V, mix. destruct addin; [done|]. split; [apply length_be_bytes|apply bytes_be_bytes]. }
  unfold drbg_generate. rewrite (bind_done (gets _) _ _ _ _ eq_refl).
  cbn [k_drbg dV dC reseed_counter seeded negb].
  rewrite (proj2 (Z.ltb_ge _ n)), (proj2 (Z.ltb_ge _ n0)) by lia.
  rewrite (bind_done _ _ _ tt (mkRst (mkDrbg V C n0 true) pool ini h)).
  2:{ unfold V, mix. destruct addin as [|a addin]; [done|].
      pose proof (on_stack_chunks [V0; a :: addin] (mkRst (mkDrbg V0 C n0 true) pool ini h)) as E.
      cbn [foldr concat] in E. rewrite app_nil_r in E. cbn [length Nat.ltb Nat.leb].
      rewrite (bind_done _ _ _ _ _ E), <-add_hash_eq by (done || apply length_SHA || apply bytes_SHA).
      reflexivity. }
  rewrite (bind_done (gets _) _ _ _ _ eq_refl). cbn [k_drbg dV].
  rewrite (bind_done _ _ _ _ _ (hashgen_eq V n _ HlV HbV ltac:(lia))).
  rewrite (bind_done _ _ _ _ _ (sha256_eq (3 :: V) _)).
  rewrite !(bind_done (set_drbg _) _ _ _ _ eq_refl).
  unfold update. cbn [eta_expand rst_eta drbg_ctx_eta k_drbg k_pool k_initialized r_hw dV dC reseed_counter seeded].
  rewrite add_hash_eq by (done || apply length_SHA || apply bytes_SHA).
  rewrite add_C_eq, add_counter_eq, !be_bytes_add by (apply length_be_bytes || apply bytes_be_bytes || done).
  rewrite <-(Z.add_assoc (be_val (be_bytes _ _))), be_bytes_add, Z.add_assoc.
  rewrite wrap_small by (unfold DRBG_RESEED_INTERVAL in *; lia). reflexivity.
Qed.

Lemma next_V_ok V C n : length (next_V V C n) = V_LEN ∧ bytes (next_V V C n).
Proof. split; [apply length_be_bytes|apply bytes_be_bytes]. Qed.

Lemma new_state_eq s m :
  let V := df m V_LEN in
  new_state m s = Done tt (s <| k_drbg := mkDrbg V (df (V ++ [0]) V_LEN) 1 (seeded (k_drbg s)) |>).
Proof.
  intros V. unfold new_state.
  rewrite (bind_done _ _ _ _ _ (hash_df_eq m (Z.of_nat V_LEN) s ltac:(unfold DRBG_V_LEN; lia))).
  rewrite (bind_done _ _ _ _ _ (hash_df_eq _ (Z.of_nat V_LEN) s ltac:(unfold DRBG_V_LEN; lia))).
  rewrite Nat2Z.id. reflexivity.
Qed.

Lemma new_state_ok m b : b = true → drbg_ok (mkDrbg (df m V_LEN) (df (df m V_LEN ++ [0]) V_LEN) 1 b).
Proof. intros ->. split; simpl; try apply length_bytes_df; done || lia. Qed.

(** ** Sources of entropy *)

Lemma read_hw_eq {A} (f : hw → A * hw) s : read_hw f s = Done (f (r_hw s)).1 (s <| r_hw := (f (r_hw s)).2 |>).
Proof. unfold read_hw. by destruct (f (r_hw s)). Qed.

(** [c] only moves the processor on. *)
Definition hw_only {A} (c : M rst A) (P : A → Prop) : Prop :=
  ∀ s, ∃ a h, c s = Done a (s <| r_hw := h |>) ∧ P a.

Lemma hw_only_ret {A} (a : A) (P : A → Prop) : P a → hw_only (mret a) P.
Proof. intros Ha s. exists a, (r_hw s). split; [by destruct s|done]. Qed.

Lemma hw_only_read {A} (f : hw → A * hw) : hw_only (read_hw f) (λ _, True).
Proof. intros s. rewrite read_hw_eq. eauto. Qed.

Lemma hw_only_bind {A B} (c : M rst A) (f : A → M rst B) P Q :
  hw_only c P → (∀ a, P a → hw_only (f a) Q) → hw_only (c ≫= f) Q.
Proof.
  intros Hc Hf s. destruct (Hc s) as (a & h & E & Ha).
  destruct (Hf a Ha (s <| r_hw := h |>)) as (b & h' & E' & Hb).
  exists b, h'. rewrite (bind_done _ _ _ _ _ E), E'. by destruct s.
Qed.

Lemma hw_only_retry n f val : hw_only (retry n f val) (λ _, True).
Proof.
  revert val. induction n as [|n IH]; intros val; [by apply hw_only_ret|]. cbn [retry].
  eapply hw_only_bind; [apply hw_only_read|]. intros [v [|]] _; [by apply hw_only_ret|apply IH].
Qed.

Lemma hw_only_word : hw_only hardware_word (λ _, True).
Proof.
  unfold hardware_word. eapply (hw_only_bind _ _ (λ _, True)).
  { destruct cpu_has_rdseed; [apply hw_only_retry|by apply hw_only_ret]. }
  intros [v ok] _. eapply (hw_only_bind _ _ (λ _, True)).
  { destruct (negb ok && cpu_has_rdrand); [apply hw_only_retry|by apply hw_only_ret]. }
  intros [w [|]] _; [by apply hw_only_ret|apply hw_only_read].
Qed.

Lemma hw_only_gather len : 0 ≤ len →
  hw_only (gather_hardware_entropy len) (λ l, length l = Z.to_nat len ∧ bytes l).
Proof.
  intros Hl. unfold gather_hardware_entropy.
  cut (∀ fuel offset, len - offset ≤ Z.of_nat fuel →
    hw_only (gather_from fuel len offset) (λ l, length l = Z.to_nat (len - offset) ∧ bytes l)).
  { intros H. specialize (H (Z.to_nat len) 0). rewrite Z.sub_0_r in H. apply H. lia. }
  induction fuel as [|fuel IH]; intros offset Hf; cbn [gather_from];
    destruct (Z.leb_spec len offset); [|lia|..].
  1,2: apply hw_only_ret; split; [simpl; lia|constructor].
  eapply hw_only_bind; [apply hw_only_word|]. intros v _.
  assert (0 < (if len - offset <? 8 then len - offset else 8) ≤ 8) as Hc
    by (destruct (Z.ltb_spec (len - offset) 8); lia).
  assert ((if len - offset <? 8 then len - offset else 8) ≤ len - offset) as Hc'
    by (destruct (Z.ltb_spec (len - offset) 8); lia).
  eapply hw_only_bind; [apply IH; lia|]. intros l [El Hb]. apply hw_only_ret. split.
  - rewrite length_app, length_take, length_le_bytes, El. lia.
  - apply Forall_app. split; [apply Forall_take, bytes_le_bytes|done].
Qed.

(** ** The invariant of the globals *)

Record rng_inv s : Prop := {
  ri_pool : initialized (k_pool s) = true → length (accumulator (k_pool s)) = 64%nat;
  ri_drbg : k_initialized s = true → drbg_ok (k_drbg s) }.

(** [c] keeps the invariant, the generator and the flag, given a ready pool. *)
Definition pool_step {A} (c : M rst A) (P : A → Prop) : Prop :=
  ∀ s, rng_inv s → ∃ a s', c s = Done a s' ∧ P a ∧ rng_inv s' ∧
    k_drbg s' = k_drbg s ∧ k_initialized s' = k_initialized s.

Lemma pool_ready_eq s : rng_inv s → ∃ s', pool_ready s = Done tt s' ∧ rng_inv s' ∧
  k_drbg s' = k_drbg s ∧ k_initialized s' = k_initialized s ∧ length (accumulator (k_pool s')) = 64%nat.
Proof.
  intros HI. pose proof HI as [Hp Hd]. unfold pool_ready. rewrite (bind_done (gets _) _ _ _ _ eq_refl).
  destruct (initialized (k_pool s)) eqn:E; cbn [negb whenM].
  - exists s. split_and!; auto.
  - eexists. split; [reflexivity|]. split; [|done]. by split.
Qed.

Lemma pool_add_step data : pool_step (entropy_pool_add data) (λ _, True).
Proof.
  intros s HI. unfold entropy_pool_add.
  destruct (pool_ready_eq s HI) as (s1 & E & [_ Hd] & Ed & Ei & Hl). rewrite (bind_done _ _ _ _ _ E).
  rewrite (bind_done (gets _) _ _ _ _ eq_refl).
  pose proof (on_stack_chunks [accumulator (k_pool s1); data] s1) as Eh. cbn [foldr concat] in Eh.
  rewrite (bind_done _ _ _ _ _ Eh). eexists tt, _. split; [reflexivity|]. split; [done|].
  split; [|done]. split; [|done]. intros _. cbn. rewrite length_splice, Hl; [done|]. rewrite length_SHA. lia.
Qed.

Lemma pool_extract_step n : 0 ≤ n < 2 ^ 61 →
  pool_step (entropy_pool_extract n) (λ out, length out = Z.to_nat n ∧ bytes out).
Proof.
  intros Hn s HI. unfold entropy_pool_extract.
  destruct (pool_ready_eq s HI) as (s1 & E & [_ Hd] & Ed & Ei & Hl). rewrite (bind_done _ _ _ _ _ E).
  rewrite (bind_done (gets _) _ _ _ _ eq_refl), (bind_done _ _ _ _ _ (hash_df_eq _ n s1 Hn)).
  rewrite (bind_done _ _ _ _ _ (sha256_eq _ s1)).
  eexists _, _. split; [reflexivity|]. split; [apply length_bytes_df|].
  split; [|done]. split; [|done]. intros _. cbn. rewrite length_splice, Hl; [done|]. rewrite length_SHA. lia.
Qed.

(** ** Requests *)

Lemma generate_ok s n : drbg_ok (k_drbg s) → 0 ≤ n ≤ DRBG_MAX_BYTES_PER_REQ →
  reseed_counter (k_drbg s) ≤ DRBG_RESEED_INTERVAL →
  ∃ out c, drbg_generate n [] s = Done (Some out) (s <| k_drbg := c |>) ∧ drbg_ok c ∧
    length out = Z.to_nat n ∧ bytes out.
Proof.
  intros Hd Hn Hr. rewrite drbg_generate_eq by done. cbv zeta. eexists _, _. split; [reflexivity|].
  destruct Hd as [? ? ? ? ? ?]. split; [|apply length_bytes_gen].
  split; simpl; try apply next_V_ok; try done. unfold DRBG_RESEED_INTERVAL in *. lia.
Qed.

Lemma reseed_ok s entropy addin : drbg_ok (k_drbg s) →
  ∃ c, drbg_reseed entropy addin s = Done tt (s <| k_drbg := c |>) ∧ drbg_ok c ∧ reseed_counter c = 1.
Proof.
  intros Hd. unfold drbg_reseed. rewrite (bind_done (gets _) _ _ _ _ eq_refl).
  rewrite (do_seeded _ Hd). cbn [negb]. rewrite new_state_eq. cbv zeta.
  eexists. split; [reflexivity|]. split; [|done]. apply new_state_ok, do_seeded, Hd.
Qed.

(** One round: the bytes come at once or after reseeding. *)
Lemma round_ok s n : drbg_ok (k_drbg s) → 0 ≤ n ≤ DRBG_MAX_BYTES_PER_REQ →
  ∃ out c h,
    (r ← drbg_generate n [];
     match r with
     | Some _ => mret r
     | None => entropy ← gather_hardware_entropy 64; drbg_reseed entropy [] ;; drbg_generate n []
     end) s = Done (Some out) (s <| k_drbg := c |> <| r_hw := h |>) ∧
    drbg_ok c ∧ length out = Z.to_nat n ∧ bytes out.
Proof.
  intros Hd Hn. destruct (Z_le_gt_dec (reseed_counter (k_drbg s)) DRBG_RESEED_INTERVAL) as [Hr|Hr].
  - destruct (generate_ok s n Hd Hn Hr) as (out & c & E & Hc & Ho). exists out, c, (r_hw s).
    rewrite (bind_done _ _ _ _ _ E). by destruct s.
  - rewrite (bind_done _ _ _ None s) by (apply drbg_generate_refused; lia).
    destruct (hw_only_gather 64 ltac:(lia) s) as (l & h & E & _). rewrite (bind_done _ _ _ _ _ E).
    set (s1 := s <| r_hw := h |>). destruct (reseed_ok s1 l [] Hd) as (c & E' & Hc & Hc1).
    rewrite (bind_done _ _ _ _ _ E'). set (s2 := s1 <| k_drbg := c |>).
    destruct (generate_ok s2 n Hc Hn) as (out & c' & -> & Hc' & Ho).
    { cbn. rewrite Hc1. unfold DRBG_RESEED_INTERVAL. lia. }
    exists out, c', h. by destruct s.
Qed.

Lemma random_from_ok fuel : ∀ s buf offset, drbg_ok (k_drbg s) → 0 ≤ offset →
  Z.of_nat (length buf) - offset ≤ Z.of_nat fuel →
  ∃ fresh c h, random_from fuel buf offset s
    = Done (take (Z.to_nat offset) buf ++ fresh) (s <| k_drbg := c |> <| r_hw := h |>) ∧
    drbg_ok c ∧ length fresh = (length buf - Z.to_nat offset)%nat ∧ bytes fresh.
Proof.
  induction fuel as [|fuel IH]; intros s buf offset Hd Ho Hf; cbn [random_from];
    destruct (Z.leb_spec (Z.of_nat (length buf)) offset); [|lia|..].
  1,2: exists [], (k_drbg s), (r_hw s); rewrite app_nil_r, take_ge by lia;
    (split; [by destruct s|]); (split; [done|]); split; [simpl; lia|constructor].
  set (chunk := if _ <? _ then _ else _).
  assert (0 < chunk ≤ DRBG_MAX_BYTES_PER_REQ ∧ chunk ≤ Z.of_nat (length buf) - offset) as [Hc Hc'].
  { unfold chunk, DRBG_MAX_BYTES_PER_REQ. destruct (Z.ltb_spec (Z.of_nat (length buf) - offset) 65536); lia. }
  destruct (round_ok s chunk Hd ltac:(lia)) as (out & c & h & E & Hok & Hl & Hb).
  apply bind_inv in E as (r & s1 & E1 & E2).
  rewrite (bind_done _ _ _ _ _ E1), (bind_done _ _ _ _ _ E2).
  change (default [] (Some out)) with out.
  set (s2 := s <| k_drbg := c |> <| r_hw := h |>) in *.
  destruct (IH s2 (splice buf (Z.to_nat offset) out) (offset + chunk))
    as (fresh & c' & h' & -> & Hok' & Hlf & Hbf); [done|lia|rewrite length_splice by lia; lia|].
  rewrite length_splice in Hlf by lia. exists (out ++ fresh), c', h'. split_and!; [|done| |].
  - replace (s2 <| k_drbg := c' |> <| r_hw := h' |>)
      with (s <| k_drbg := c' |> <| r_hw := h' |>) by (by destruct s).
    f_equal. rewrite app_assoc. f_equal. unfold splice. rewrite app_assoc.
    apply take_app_length'. rewrite length_app, length_take. lia.
  - rewrite length_app, Hlf. lia.
  - by apply Forall_app.
Qed.

Lemma secure_random_bytes_ok s buf : drbg_ok (k_drbg s) →
  ∃ out c h, secure_random_bytes buf s = Done out (s <| k_drbg := c |> <| r_hw := h |>) ∧
    drbg_ok c ∧ length out = length buf ∧ bytes out.
Proof.
  intros Hd. destruct (random_from_ok (length buf) s buf 0 Hd) as (f & c & h & E & ? & Hl & ?); [lia..|].
  exists f, c, h. split_and!; [exact E|done|lia|done].
Qed.

Lemma ensure_initialized_ok s : rng_inv s →
  ∃ s', ensure_initialized s = Done tt s' ∧ rng_inv s' ∧ k_initialized s' = true.
Proof.
  intros HI. unfold ensure_initialized. rewrite (bind_done (gets _) _ _ _ _ eq_refl).
  destruct (k_initialized s) eqn:Ei; [by exists s|].
  rewrite (bind_done entropy_pool_init _ _ _ _ eq_refl).
  set (s0 := s <| k_pool := _ |>).
  assert (rng_inv s0) as H0 by (split; cbn; [done|by rewrite Ei]).
  destruct (hw_only_gather 64 ltac:(lia) s0) as (l & h & E1 & _). rewrite (bind_done _ _ _ _ _ E1).
  destruct (pool_add_step l (s0 <| r_hw := h |>)) as ([] & s2 & E2 & _ & H2 & D2 & I2).
  { destruct H0. by split. }
  rewrite (bind_done _ _ _ _ _ E2), (bind_done _ _ _ _ _ (read_hw_eq rdtsc s2)).
  destruct (pool_add_step (le_bytes 8 (rdtsc (r_hw s2)).1) (s2 <| r_hw := (rdtsc (r_hw s2)).2 |>))
    as ([] & s3 & E3 & _ & H3 & D3 & I3).
  { destruct H2. by split. }
  rewrite (bind_done _ _ _ _ _ E3).
  destruct (pool_extract_step 64 ltac:(lia) s3 H3) as (seed & s4 & E4 & _ & H4 & D4 & I4).
  rewrite (bind_done _ _ _ _ _ E4).
  destruct (pool_extract_step 32 ltac:(lia) s4 H4) as (nonce & s5 & E5 & _ & H5 & D5 & I5).
  rewrite (bind_done _ _ _ _ _ E5). unfold drbg_instantiate.
  erewrite (bind_done (_ ;; _)); [|rewrite (bind_done _ _ _ _ _ (new_state_eq s5 _)); reflexivity].
  eexists. split; [reflexivity|]. split; [|done].
  split; [apply H5|]. intros _. exact (new_state_ok _ true eq_refl).
Qed.

(** Entropy goes into the pool and new state into the generator. *)
Lemma refresh_ok l s : rng_inv s → k_initialized s = true →
  ∃ s', (entropy_pool_add l ;; fresh ← entropy_pool_extract 64; drbg_reseed fresh []) s = Done tt s' ∧
    rng_inv s' ∧ k_initialized s' = true.
Proof.
  intros HI Hi. destruct (pool_add_step l s HI) as ([] & s1 & E1 & _ & H1 & D1 & I1).
  rewrite (bind_done _ _ _ _ _ E1).
  destruct (pool_extract_step 64 ltac:(lia) s1 H1) as (f & s2 & E2 & _ & H2 & D2 & I2).
  rewrite (bind_done _ _ _ _ _ E2).
  assert (k_initialized s2 = true) as Hi2 by congruence.
  destruct (reseed_ok s2 f [] (ri_drbg _ H2 Hi2)) as (c & E3 & Hc & _).
  exists (s2 <| k_drbg := c |>). split; [done|]. split; [|done]. split; [apply H2|done].
Qed.

(** [entropy_garden] adds to the pool; the generator is left alone. *)
Lemma entropy_garden_ok : pool_step entropy_garden (λ _, True).
Proof.
  intros s HI. unfold entropy_garden.
  assert (∀ has f, hw_only (garden_source has f) (λ _, True)) as Hsrc.
  { intros [] f; [|by apply hw_only_ret]. eapply hw_only_bind; [apply hw_only_read|]. intros [v ok] _. by apply hw_only_ret. }
  destruct (hw_only_read rdtsc s) as (tsc & h1 & E1 & _). rewrite (bind_done _ _ _ _ _ E1).
  destruct (hw_only_read cpu_registers (s <| r_hw := h1 |>)) as (regs & h2 & E2 & _). rewrite (bind_done _ _ _ _ _ E2).
  destruct (Hsrc cpu_has_rdseed rdseed64 (s <| r_hw := h2 |>)) as (l1 & h3 & E3 & _).
  replace (s <| r_hw := h1 |> <| r_hw := h2 |>) with (s <| r_hw := h2 |>) by (by destruct s). rewrite (bind_done _ _ _ _ _ E3).
  destruct (Hsrc cpu_has_rdrand rdrand64 (s <| r_hw := h3 |>)) as (l2 & h4 & E4 & _).
  replace (s <| r_hw := h2 |> <| r_hw := h3 |>) with (s <| r_hw := h3 |>) by (by destruct s). rewrite (bind_done _ _ _ _ _ E4).
  set (data := mjoin _).
  destruct (pool_add_step data (s <| r_hw := h3 |> <| r_hw := h4 |>)) as ([] & s' & E & _ & H1 & D1 & I1).
  { destruct HI. by split. }
  by exists tt, s'.
Qed.

(** The public functions of [rand.c]. *)
Inductive rng_call :=
| CRand (val : list Z) | CSrand (seed : Z) | CText (text : list Z) | CHardware
| CBytes (buf : list Z).

Definition run_rng (c : rng_call) : M rst (list Z) :=
  match c with
  | CRand val => v ← rand val; mret [v]
  | CSrand seed => srand seed ;; mret []
  | CText text => seed_from_text text ;; mret []
  | CHardware => rand_reseed ;; mret []
  | CBytes buf => random_bytes buf
  end.

Definition rng_result (c : rng_call) (l : list Z) : Prop :=
  match c with
  | CRand _ => ∃ v, l = [v] ∧ 0 ≤ v < 2 ^ 31
  | CBytes buf => length l = length buf ∧ bytes l
  | _ => l = []
  end.

Lemma seed_from_text_ok s text : rng_inv s →
  ∃ s', seed_from_text text s = Done tt s' ∧ rng_inv s' ∧ k_initialized s' = true.
Proof.
  intros HI. unfold seed_from_text. destruct (ensure_initialized_ok s HI) as (s1 & E & H1 & I1).
  rewrite (bind_done _ _ _ _ _ E). pose proof (on_stack_chunks [text] s1) as E'. cbn [foldr] in E'.
  rewrite (bind_done _ _ _ _ _ E'). by apply refresh_ok.
Qed.

Lemma seed_from_hardware_ok s : rng_inv s →
  ∃ s', seed_from_hardware s = Done tt s' ∧ rng_inv s' ∧ k_initialized s' = true.
Proof.
  intros HI. unfold seed_from_hardware. destruct (ensure_initialized_ok s HI) as (s1 & E & H1 & I1).
  rewrite (bind_done _ _ _ _ _ E).
  destruct (hw_only_gather 128 ltac:(lia) s1) as (l & h & E' & _). rewrite (bind_done _ _ _ _ _ E').
  apply refresh_ok; [|done]. destruct H1. by split.
Qed.

Lemma random_bytes_ok s buf : rng_inv s →
  ∃ out s', random_bytes buf s = Done out s' ∧ rng_inv s' ∧ k_initialized s' = true ∧
    length out = length buf ∧ bytes out.
Proof.
  intros HI. unfold random_bytes. destruct (ensure_initialized_ok s HI) as (s1 & E & H1 & I1).
  rewrite (bind_done _ _ _ _ _ E).
  destruct (secure_random_bytes_ok s1 buf (ri_drbg _ H1 I1)) as (out & c & h & E' & Hc & Hl & Hb).
  exists out, (s1 <| k_drbg := c |> <| r_hw := h |>). split; [done|]. split; [|done].
  split; [apply H1|done].
Qed.

Lemma rand_ok s val : rng_inv s →
  ∃ v s', rand val s = Done v s' ∧ rng_inv s' ∧ k_initialized s' = true ∧ 0 ≤ v < 2 ^ 31.
Proof.
  intros HI. destruct (random_bytes_ok s val HI) as (out & s' & E & H1 & I1 & _).
  unfold random_bytes in E. apply bind_inv in E as ([] & s1 & E1 & E2).
  exists (Z.land (le_val out) 0x7FFFFFFF), s'. unfold rand, secure_random_u32.
  rewrite (bind_done _ _ _ _ _ E1). erewrite (bind_done (_ ≫= _)) by (by rewrite (bind_done _ _ _ _ _ E2)).
  split; [done|]. split; [done|]. split; [done|].
  change 0x7FFFFFFF with (Z.ones 31). rewrite Z.land_ones by lia. apply Z.mod_pos_bound. lia.
Qed.

(** C30: a request to the generator.  A generator that has no seed, or that must
    be reseeded, or a request that is too long, is refused and nothing changes.
    Otherwise the output is the stream of hashes of successive numbers from [V]
    on, cut to the length asked for; additional input is first mixed into [V];
    then [V] becomes, modulo 2^440, the sum of [V], the hash of [3 :: V] repeated
    to 55 bytes, [C], and the count with its bytes reversed.  This is the step
    that the code makes.  It is not the one of its comments, V + w for additional
    input and V + H + C + reseed_counter afterwards, nor that of NIST SP 800-90A:
    there the 32-byte hashes are added as numbers, to the end of [V], and the count
    in its own byte order ([hash_repeated] and [counter_reversed] below). *)
Theorem drbg_generate_correct s n addin :
  (seeded (k_drbg s) = false ∨ DRBG_MAX_BYTES_PER_REQ < n ∨
     DRBG_RESEED_INTERVAL < reseed_counter (k_drbg s) →
   drbg_generate n addin s = Done None s) ∧
  (drbg_ok (k_drbg s) → 0 ≤ n ≤ DRBG_MAX_BYTES_PER_REQ →
   reseed_counter (k_drbg s) ≤ DRBG_RESEED_INTERVAL →
   let c := k_drbg s in
   let V := match addin with [] => dV c | _ => mix (dV c) addin end in
   drbg_generate n addin s =
   Done (Some (gen V (Z.to_nat n)))
     (s <| k_drbg := mkDrbg (next_V V (dC c) (reseed_counter c)) (dC c) (reseed_counter c + 1) true |>)).
Proof. split; [apply drbg_generate_refused|apply drbg_generate_eq]. Qed.

(** The random number functions always answer.  From the initial state on,
    whatever the processor delivers, every call of [rand], [srand],
    [seed_from_text], [rand_reseed] and [random_bytes] returns, seeds the
    generator on first use and reseeds it when it has to be, and keeps its state
    well-formed; [random_bytes] fills the whole buffer with bytes, and [rand]
    gives a number of 31 bits. *)
Theorem rng_correct s c : rng_inv s →
  ∃ l s', run_rng c s = Done l s' ∧ rng_result c l ∧ rng_inv s' ∧ drbg_ok (k_drbg s').
Proof.
  intros HI. destruct c as [val|seed|text| |buf]; cbn [run_rng rng_result].
  - destruct (rand_ok s val HI) as (v & s' & E & H1 & I1 & Hv). rewrite (bind_done _ _ _ _ _ E).
    eexists _, _. split; [done|]. split; [by exists v|]. split; [done|by apply H1].
  - unfold srand.
    destruct (seed_from_text_ok s (if seed =? 0 then [48] else seed_digits 30 seed) HI) as (s' & E & H1 & I1).
    rewrite (bind_done _ _ _ _ _ E). eexists _, _. split; [done|]. split; [done|]. split; [done|by apply H1].
  - destruct (seed_from_text_ok s text HI) as (s' & E & H1 & I1).
    rewrite (bind_done _ _ _ _ _ E). eexists _, _. split; [done|]. split; [done|]. split; [done|by apply H1].
  - unfold rand_reseed. destruct (seed_from_hardware_ok s HI) as (s' & E & H1 & I1).
    rewrite (bind_done _ _ _ _ _ E). eexists _, _. split; [done|]. split; [done|]. split; [done|by apply H1].
  - destruct (random_bytes_ok s buf HI) as (out & s' & E & H1 & I1 & Ho).
    exists out, s'. split; [done|]. split; [done|]. split; [done|by apply H1].
Qed.

(** A generator that was never seeded leaves the buffer as it was. *)
Lemma unseeded_writes_nothing s buf : seeded (k_drbg s) = false →
  ∃ h, secure_random_bytes buf s = Done buf (s <| r_hw := h |>).
Proof.
  intros Hs. unfold secure_random_bytes.
  cut (∀ fuel offset s, seeded (k_drbg s) = false → Z.of_nat (length buf) - offset ≤ Z.of_nat fuel →
    ∃ h, random_from fuel buf offset s = Done buf (s <| r_hw := h |>)).
  { intros H. apply H; [done|lia]. }
  clear s Hs. induction fuel as [|fuel IH]; intros offset s Hs Hf; cbn [random_from];
    destruct (Z.leb_spec (Z.of_nat (length buf)) offset); [|lia|..].
  1,2: exists (r_hw s); by destruct s.
  rewrite (bind_done _ _ _ None s) by (apply drbg_generate_refused; by left).
  destruct (hw_only_gather 64 ltac:(lia) s) as (l & h & E & _).
  set (s1 := s <| r_hw := h |>) in *.
  erewrite (bind_done (gather_hardware_entropy 64 ≫= _)).
  2:{ rewrite (bind_done _ _ _ _ _ E). rewrite (bind_done _ _ _ tt s1).
      - by apply drbg_generate_refused; left.
      - unfold drbg_reseed. rewrite (bind_done (gets _) _ _ _ _ eq_refl).
        by replace (seeded (k_drbg s1)) with false. }
  change (default [] None) with (@nil Z). rewrite splice_nil.
  destruct (IH (offset + (if Z.of_nat (length buf) - offset <? DRBG_MAX_BYTES_PER_REQ
    then Z.of_nat (length buf) - offset else DRBG_MAX_BYTES_PER_REQ)) s1 Hs) as (h' & ->).
  { unfold DRBG_MAX_BYTES_PER_REQ. destruct (Z.ltb_spec (Z.of_nat (length buf) - offset) 65536); lia. }
  exists h'. by destruct s.
Qed.
End Generator.

(** ** Random strings

    Every character of the set is the image of the same number of bytes. *)
Lemma string_char_uniform c : c ∈ charset →
  length (filter (λ b, string_char b = Some c) (seqZ 0 256)) = 4%nat.
Proof.
  intros Hc. assert (Forall (λ c, length (filter (λ b, string_char b = Some c) (seqZ 0 256)) = 4%nat) charset)
    as H by (refine (bool_decide_unpack _ _); vm_compute; exact I).
  rewrite list.Forall_forall in H. by apply H.
Qed.

(** A hash is added over the whole of [V]: the 32 bytes are repeated, from the
    first byte on, so that the number added is not the hash. *)
Example hash_repeated :
  add_hash (replicate 55 0) (replicate 31 0 ++ [1]) = replicate 31 0 ++ [1] ++ replicate 23 0.
Proof. vm_compute. reflexivity. Qed.

(** The bytes of the count are added in reverse: counting one request changes
    byte 47 of [V], not the last one. *)
Example counter_reversed : add_counter (replicate 55 0) 1 = replicate 47 0 ++ [1] ++ replicate 7 0.
Proof. vm_compute. reflexivity. Qed.

(** ** A processor without random number instructions *)

#[export] Instance plain_cpu : Hardware := {
  hw := Z; cpu_has_rdseed := false; cpu_has_rdrand := false;
  rdseed64 h := ((0, false), h); rdrand64 h := ((0, false), h); rdtsc h := (h, u64 (h + 1000));
  cpu_registers h := (replicate 13 0, h) }.

Definition boot_rng : rst :=
  mkRst (mkDrbg (replicate 55 0) (replicate 55 0) 0 false) (mkPool (replicate 64 0) 0 false) false 12345.

Lemma rng_correct_witness :
  ∃ l s', run_rng (CBytes [0; 0; 0; 0]) boot_rng = Done l s' ∧ rng_result (CBytes [0; 0; 0; 0]) l ∧
    rng_inv s' ∧ drbg_ok (k_drbg s').
Proof. apply (rng_correct boot_rng). split; vm_compute; done. Defined.

(** A request with additional input to a seeded generator. *)
Definition seeded_rng : rst :=
  mkRst (mkDrbg (replicate 55 7) (replicate 55 9) 1 true) (mkPool (replicate 64 0) 0 true) true 12345.

Lemma seeded_rng_ok : drbg_ok (k_drbg seeded_rng).
Proof. split; try done; refine (bool_decide_unpack _ _); vm_compute; exact I. Qed.

Lemma drbg_generate_correct_witness :
  drbg_generate 0 [] boot_rng = Done None boot_rng ∧
  drbg_generate 40 [1] seeded_rng =
  Done (Some (gen (mix (replicate 55 7) [1]) 40))
    (seeded_rng <| k_drbg :=
       mkDrbg (next_V (mix (replicate 55 7) [1]) (replicate 55 9) 1) (replicate 55 9) 2 true |>).
Proof.
  split; [apply (proj1 (drbg_generate_correct boot_rng 0 [])); by left|].
  apply (proj2 (drbg_generate_correct seeded_rng 40 [1])); [apply seeded_rng_ok|done|done].
Defined.
