(* ===== verification/Md5.v ===== *)
(** * MD5

    The message digest of [lib/libc/md5.c].  [md5_correct]: however a message is
    cut into pieces, the code computes the digest of RFC 1321.  The optimised
    bit functions and the unrolled rounds are shown equal to the functions and
    the loop of the RFC. *)

From S2P Require Import Prelude Bytes Hash.

(** ** The code *)

Definition F (x y z : Z) : Z := Z.lxor z (Z.land x (Z.lxor y z)).
Definition G (x y z : Z) : Z := Z.lxor y (Z.land z (Z.lxor x y)).
Definition H (x y z : Z) : Z := Z.lxor (Z.lxor x y) z.
Definition H2 (x y z : Z) : Z := Z.lxor x (Z.lxor y z).
Definition I (x y z : Z) : Z := Z.lxor y (Z.lor x (u32 (Z.lnot z))).

Definition STEP (f : Z → Z → Z → Z) (a b c d x t s : Z) : Z :=
  let a := u32 (a + (f b c d + x + t)) in
  let a := Z.lor (u32 (Z.shiftl a s)) (Z.shiftr (Z.land a 0xffffffff) (32 - s)) in
  u32 (a + b).

(** One line [STEP(f, r, ..., GET(n), t, s)] of the body; the other three
    variables follow [r] in the order a, b, c, d, a, ... *)
Inductive md5_reg := Ra | Rb | Rc | Rd.
Record md5_instr := step {
  st_f : Z → Z → Z → Z; st_reg : md5_reg; st_n : nat; st_t : Z; st_s : Z }.

Definition regs4 : Type := Z * Z * Z * Z.

Definition exec (x : nat → Z) (r : regs4) (i : md5_instr) : regs4 :=
  let '(a, b, c, d) := r in
  match st_reg i with
  | Ra => (STEP (st_f i) a b c d (x (st_n i)) (st_t i) (st_s i), b, c, d)
  | Rd => (a, b, c, STEP (st_f i) d a b c (x (st_n i)) (st_t i) (st_s i))
  | Rc => (a, b, STEP (st_f i) c d a b (x (st_n i)) (st_t i) (st_s i), d)
  | Rb => (a, STEP (st_f i) b c d a (x (st_n i)) (st_t i) (st_s i), c, d)
  end.

Definition md5_rounds : list md5_instr :=
  [
step F Ra 0 0xd76aa478 7; step F Rd 1 0xe8c7b756 12;
   step F Rc 2 0x242070db 17; step F Rb 3 0xc1bdceee 22;
   step F Ra 4 0xf57c0faf 7; step F Rd 5 0x4787c62a 12;
   step F Rc 6 0xa8304613 17; step F Rb 7 0xfd469501 22;
   step F Ra 8 0x698098d8 7; step F Rd 9 0x8b44f7af 12;
   step F Rc 10 0xffff5bb1 17; step F Rb 11 0x895cd7be 22;
   step F Ra 12 0x6b901122 7; step F Rd 13 0xfd987193 12;
   step F Rc 14 0xa679438e 17; step F Rb 15 0x49b40821 22;
   step G Ra 1 0xf61e2562 5; step G Rd 6 0xc040b340 9;
   step G Rc 11 0x265e5a51 14; step G Rb 0 0xe9b6c7aa 20;
   step G Ra 5 0xd62f105d 5; step G Rd 10 0x02441453 9;
   step G Rc 15 0xd8a1e681 14; step G Rb 4 0xe7d3fbc8 20;
   step G Ra 9 0x21e1cde6 5; step G Rd 14 0xc33707d6 9;
   step G Rc 3 0xf4d50d87 14; step G Rb 8 0x455a14ed 20;
   step G Ra 13 0xa9e3e905 5; step G Rd 2 0xfcefa3f8 9;
   step G Rc 7 0x676f02d9 14; step G Rb 12 0x8d2a4c8a 20;
   step H Ra 5 0xfffa3942 4; step H2 Rd 8 0x8771f681 11;
   step H Rc 11 0x6d9d6122 16; step H2 Rb 14 0xfde5380c 23;
   step H Ra 1 0xa4beea44 4; step H2 Rd 4 0x4bdecfa9 11;
   step H Rc 7 0xf6bb4b60 16; step H2 Rb 10 0xbebfbc70 23;
   step H Ra 13 0x289b7ec6 4; step H2 Rd 0 0xeaa127fa 11;
   step H Rc 3 0xd4ef3085 16; step H2 Rb 6 0x04881d05 23;
   step H Ra 9 0xd9d4d039 4; step H2 Rd 12 0xe6db99e5 11;
   step H Rc 15 0x1fa27cf8 16; step H2 Rb 2 0xc4ac5665 23;
   step I Ra 0 0xf4292244 6; step I Rd 7 0x432aff97 10;
   step I Rc 14 0xab9423a7 15; step I Rb 5 0xfc93a039 21;
   step I Ra 12 0x655b59c3 6; step I Rd 3 0x8f0ccc92 10;
   step I Rc 10 0xffeff47d 15; step I Rb 1 0x85845dd1 21;
   step I Ra 8 0x6fa87e4f 6; step I Rd 15 0xfe2ce6e0 10;
   step I Rc 6 0xa3014314 15; step I Rb 13 0x4e0811a1 21;
   step I Ra 4 0xf7537e82 6; step I Rd 11 0xbd3af235 10;
   step I Rc 2 0x2ad7d2bb 15; step I Rb 9 0xeb86d391 21].

(** [SET(n)]: a word of the block, in little-endian order. *)
Definition SET (block : list Z) (n : nat) : Z := le_val (take 4 (drop (n * 4) block)).

(** One round of the loop of [body]. *)
Definition body_block (r : regs4) (block : list Z) : regs4 :=
  let '(a, b, c, d) := foldl (exec (SET block)) r md5_rounds in
  let '(saved_a, saved_b, saved_c, saved_d) := r in
  (u32 (a + saved_a), u32 (b + saved_b), u32 (c + saved_c), u32 (d + saved_d)).

(** [do { ... ptr += 64; } while (size -= 64);] for [n] blocks, [n > 0] *)
Fixpoint body (n : nat) (r : regs4) (data : list Z) : regs4 :=
  match n with O => r | S n => body n (body_block r (take 64 data)) (drop 64 data) end.

Record MD5_CTX := mkMd5 { lo : Z; hi : Z; abcd : regs4; buffer : list Z }.
#[global] Instance MD5_CTX_eta : Etable MD5_CTX := λ c, mkMd5 (lo c) (hi c) (abcd c) (buffer c).

Definition md5_iv : regs4 := (0x67452301, 0xefcdab89, 0x98badcfe, 0x10325476).

Definition MD5_Init : M MD5_CTX unit :=
  modify (λ c, c <| abcd := md5_iv |> <| lo := 0 |> <| hi := 0 |>).

(** [memcpy(&ctx->buffer[at], data, ...)] *)
Definition to_buffer (at_ : Z) (data : list Z) : M MD5_CTX unit := λ c,
  if (0 <=? at_) && (at_ + Z.of_nat (length data) <=? 64)
  then Done tt (c <| buffer := splice (buffer c) (Z.to_nat at_) data |>) else Fault.

Definition body_buffer : M MD5_CTX unit :=
  modify (λ c, c <| abcd := body 1 (abcd c) (buffer c) |>).

Definition count_bytes (saved_lo size : Z) : M MD5_CTX unit :=
  modify (λ c, c <| lo := Z.land (u64 (saved_lo + size)) 0x1fffffff |>) ;;
  new_lo ← gets lo;
  whenM (new_lo <? saved_lo) (modify (λ c, c <| hi := u32 (hi c + 1) |>)) ;;
  modify (λ c, c <| hi := u32 (hi c + Z.shiftr size 29) |>).

(** The part of [MD5_Update] after the buffer has been dealt with. *)
Definition update_blocks (data : list Z) : M MD5_CTX unit :=
  let size := Z.of_nat (length data) in
  if 64 <=? size then
    modify (λ c, c <| abcd := body (length data / 64) (abcd c) data |>) ;;
    to_buffer 0 (drop (length data / 64 * 64) data)
  else to_buffer 0 data.

Definition MD5_Update (data : list Z) : M MD5_CTX unit :=
  let size := Z.of_nat (length data) in
  saved_lo ← gets lo;
  count_bytes saved_lo size ;;
  let used := Z.land saved_lo 0x3f in
  if nz used then
    let available := 64 - used in
    if size <? available then to_buffer used data else
    to_buffer used (take (Z.to_nat available) data) ;;
    body_buffer ;;
    update_blocks (drop (Z.to_nat available) data)
  else update_blocks data.

Definition OUT (src : Z) : list Z :=
  [u8 src; u8 (Z.shiftr src 8); u8 (Z.shiftr src 16); u8 (Z.shiftr src 24)].

(** The end of [MD5_Final], from the padded buffer on. *)
Definition write_length : M MD5_CTX (list Z) :=
  modify (λ c, c <| lo := u32 (Z.shiftl (lo c) 3) |>) ;;
  l ← gets lo; to_buffer 56 (OUT l) ;;
  h ← gets hi; to_buffer 60 (OUT h) ;;
  body_buffer ;;
  '(a, b, c, d) ← gets abcd;
  modify (λ _, mkMd5 0 0 (0, 0, 0, 0) (replicate 64 0)) ;;
  mret (OUT a ++ OUT b ++ OUT c ++ OUT d).

Definition MD5_Final : M MD5_CTX (list Z) :=
  l ← gets lo;
  let used := Z.land l 0x3f in
  to_buffer used [128] ;;
  let used := used + 1 in
  let available := 64 - used in
  '(used, available) ←
    (if available <? 8 then
       to_buffer used (replicate (Z.to_nat available) 0) ;; body_buffer ;; mret (0, 64)
     else mret (used, available));
  to_buffer used (replicate (Z.to_nat (available - 8)) 0) ;;
  write_length.

(** ** The algorithm of RFC 1321 *)

Module RFC1321.
Definition F_bits (x y z : Z) : Z := bits32 (λ i, if Z.testbit x i then Z.testbit y i else Z.testbit z i).
Definition G_bits (x y z : Z) : Z := bits32 (λ i, if Z.testbit z i then Z.testbit x i else Z.testbit y i).
Definition H_bits (x y z : Z) : Z := bits32 (λ i, xorb (Z.testbit x i) (xorb (Z.testbit y i) (Z.testbit z i))).
Definition I_bits (x y z : Z) : Z := bits32 (λ i, xorb (Z.testbit y i) (Z.testbit x i || negb (Z.testbit z i))).

(** The sine of an integer, in fixed point with [prec] bits: the sum of the
    first terms of its power series. *)
Definition prec : Z := 140.
Fixpoint series (n : nat) (x k term : Z) : Z :=
  match n with
  | O => 0
  | S n => term + series n x (k + 2) (- (term * (x * x) / ((k + 1) * (k + 2))))
  end.
Definition sine (x : Z) : Z := series 100 x 1 (x * 2 ^ prec).

(** The table of constants: the first 32 bits of |sin 1|, |sin 2|, ... *)
Definition T (i : nat) : Z := Z.abs (sine (Z.of_nat (S i))) / 2 ^ (prec - 32).

Definition f (i : nat) : Z → Z → Z → Z :=
  match (i / 16)%nat with O => F_bits | 1%nat => G_bits | 2%nat => H_bits | _ => I_bits end.
Definition k (i : nat) : nat :=
  match (i / 16)%nat with
  | O => i | 1%nat => (5 * i + 1) `mod` 16 | 2%nat => (3 * i + 5) `mod` 16 | _ => (7 * i) `mod` 16
  end.
Definition s (i : nat) : Z :=
  match (i / 16)%nat with O => [7; 12; 17; 22] | 1%nat => [5; 9; 14; 20]
                     | 2%nat => [4; 11; 16; 23] | _ => [6; 10; 15; 21] end !!! (i `mod` 4)%nat.

Definition rotl (n x : Z) : Z := (x * 2 ^ n) `mod` 2 ^ 32 + x / 2 ^ (32 - n).

Definition step (X : nat → Z) (r : regs4) (i : nat) : regs4 :=
  let '(a, b, c, d) := r in
  (d, (b + rotl (s i) ((a + f i b c d + X (k i) + T i) `mod` 2 ^ 32)) `mod` 2 ^ 32, b, c).

Definition compress (r : regs4) (block : list Z) : regs4 :=
  let X j := le_val (take 4 (drop (j * 4) block)) in
  let '(a, b, c, d) := r in
  let '(a', b', c', d') := foldl (step X) r (seq 0 64) in
  ((a + a') `mod` 2 ^ 32, (b + b') `mod` 2 ^ 32, (c + c') `mod` 2 ^ 32, (d + d') `mod` 2 ^ 32).

Definition out (r : regs4) : list Z :=
  let '(a, b, c, d) := r in le_bytes 4 a ++ le_bytes 4 b ++ le_bytes 4 c ++ le_bytes 4 d.

Definition md5 (msg : list Z) : list Z :=
  out (digest compress (0x67452301, 0xefcdab89, 0x98badcfe, 0x10325476) (le_bytes 8) msg).
End RFC1321.

(** ** Updating *)

Arguments body_block : simpl never.

Lemma body_absorb n r l : body n r l = absorb body_block n r l.
Proof. revert r l. induction n as [|n IH]; intros r l; [done|]. apply IH. Qed.

(** The context after the message [msg]. *)
Record md5_rep (c : MD5_CTX) (msg : list Z) : Prop := {
  mr_len : length (buffer c) = 64%nat;
  mr_pending : streamed body_block md5_iv msg (abcd c) (take (length msg `mod` 64) (buffer c));
  mr_lo : lo c = Z.of_nat (length msg) `mod` 2 ^ 29;
  mr_hi : hi c = u32 (Z.of_nat (length msg) / 2 ^ 29) }.

Lemma to_buffer_eq i l c : 0 ≤ i → i + Z.of_nat (length l) ≤ 64 →
  to_buffer i l c = Done tt (c <| buffer := splice (buffer c) (Z.to_nat i) l |>).
Proof.
  intros Hi Hl. unfold to_buffer. by rewrite (proj2 (Z.leb_le 0 i)), (proj2 (Z.leb_le _ 64)) by lia.
Qed.

Lemma used_eq c msg : md5_rep c msg → Z.land (lo c) 0x3f = Z.of_nat (length msg `mod` 64).
Proof.
  intros [_ _ -> _]. change 0x3f with (Z.ones 6). rewrite Z.land_ones by lia.
  rewrite Nat2Z.inj_mod. change (2 ^ 29) with (2 ^ 6 * 2 ^ 23).
  rewrite Z.rem_mul_r, Z.mul_comm, Z_mod_plus_full, Z.mod_mod by lia. done.
Qed.

Lemma count_bytes_eq c msg size : md5_rep c msg → 0 ≤ size →
  count_bytes (lo c) size c =
  Done tt (c <| lo := (Z.of_nat (length msg) + size) `mod` 2 ^ 29 |>
             <| hi := u32 ((Z.of_nat (length msg) + size) / 2 ^ 29) |>).
Proof.
  intros [_ _ Hlo Hhi] Hs. unfold count_bytes. set (n := Z.of_nat (length msg)) in *.
  rewrite (bind_done (modify _) _ _ tt _ eq_refl), (bind_done (gets _) _ _ _ _ eq_refl).
  assert (Z.land (u64 (lo c + size)) 0x1fffffff = (n + size) `mod` 2 ^ 29) as E.
  { change 0x1fffffff with (Z.ones 29). rewrite Z.land_ones by lia. rewrite Hlo. unfold wrap.
    change (2 ^ 64) with (2 ^ 29 * 2 ^ 35). rewrite Z.rem_mul_r by lia.
    rewrite Z.mul_comm, Z_mod_plus_full, Z.mod_mod, Zplus_mod_idemp_l by lia. done. }
  cbn [lo update eta_expand]. rewrite E.
  destruct c as [l h r b]. cbn [lo hi] in *. unfold whenM.
  assert (n = 2 ^ 29 * (n / 2 ^ 29) + n `mod` 2 ^ 29) as En by (apply Z.div_mod; lia).
  assert (size = 2 ^ 29 * (size / 2 ^ 29) + size `mod` 2 ^ 29) as Es by (apply Z.div_mod; lia).
  pose proof (Z.mod_pos_bound n (2 ^ 29) ltac:(lia)). pose proof (Z.mod_pos_bound size (2 ^ 29) ltac:(lia)).
  assert ((n + size) / 2 ^ 29 = n / 2 ^ 29 + size / 2 ^ 29
    + (if (n + size) `mod` 2 ^ 29 <? n `mod` 2 ^ 29 then 1 else 0)) as Ed.
  { destruct (Z_lt_le_dec (n `mod` 2 ^ 29 + size `mod` 2 ^ 29) (2 ^ 29)).
    - assert ((n + size) `mod` 2 ^ 29 = n `mod` 2 ^ 29 + size `mod` 2 ^ 29) as ->
        by (symmetry; apply (Z.mod_unique _ _ (n / 2 ^ 29 + size / 2 ^ 29)); lia).
      rewrite (proj2 (Z.ltb_ge _ _)) by lia. symmetry.
      apply (Z.div_unique _ _ _ (n `mod` 2 ^ 29 + size `mod` 2 ^ 29)); lia.
    - assert ((n + size) `mod` 2 ^ 29 = n `mod` 2 ^ 29 + size `mod` 2 ^ 29 - 2 ^ 29) as ->
        by (symmetry; apply (Z.mod_unique _ _ (n / 2 ^ 29 + size / 2 ^ 29 + 1)); lia).
      rewrite (proj2 (Z.ltb_lt _ _)) by lia. symmetry.
      apply (Z.div_unique _ _ _ (n `mod` 2 ^ 29 + size `mod` 2 ^ 29 - 2 ^ 29)); lia. }
  rewrite Ed, Hlo, Hhi. unfold wrap. rewrite Z.shiftr_div_pow2 by lia.
  destruct (_ <? _); unfold mbind, M_bind, modify, mret, M_ret, update; cbn;
    do 2 f_equal; rewrite ?Zplus_mod_idemp_l, <-?Z.add_assoc, ?Zplus_mod_idemp_l; f_equal; lia.
Qed.

Lemma take_splice_0 b l : take (length l) (splice b 0 l) = l.
Proof. unfold splice. rewrite take_0, app_nil_l. apply take_app_length. Qed.

Lemma update_blocks_eq c msg data : length (buffer c) = 64%nat →
  streamed body_block md5_iv msg (abcd c) [] →
  ∃ r b, update_blocks data c = Done tt (c <| abcd := r |> <| buffer := b |>) ∧ length b = 64%nat ∧
    streamed body_block md5_iv (msg ++ data) r (take (length data `mod` 64) b).
Proof.
  intros Hl HS. unfold update_blocks. pose proof (Nat.mod_upper_bound (length data) 64 ltac:(lia)) as Hm.
  destruct (Z.leb_spec 64 (Z.of_nat (length data))).
  - set (k := (length data / 64)%nat).
    assert (length data = (64 * k + length data `mod` 64)%nat) as Ed by (apply Nat.div_mod; lia).
    rewrite (bind_done (modify _) _ _ tt _ eq_refl).
    assert (length (drop (k * 64) data) = (length data `mod` 64)%nat) as Edr by (rewrite length_drop; lia).
    rewrite to_buffer_eq by lia. eexists _, _. split; [reflexivity|]. cbn [abcd buffer update eta_expand].
    rewrite length_splice by lia. split; [done|]. change (Z.to_nat 0) with O. rewrite <-Edr, take_splice_0.
    rewrite <-(take_drop (k * 64) data) at 1. rewrite app_assoc.
    apply (streamed_more _ _ _ _ [] (drop (k * 64) data)); [|simpl; lia]. rewrite body_absorb.
    rewrite <-absorb_take, (Nat.mul_comm 64) by lia. apply streamed_blocks; [done|]. rewrite length_take. lia.
  - rewrite to_buffer_eq by lia. eexists (abcd c), _. split; [by destruct c|]. cbn [buffer].
    rewrite length_splice by lia. split; [done|]. rewrite Nat.mod_small by lia.
    change (Z.to_nat 0) with O. rewrite take_splice_0. apply (streamed_more _ _ _ _ [] data HS). simpl. lia.
Qed.

Lemma MD5_Update_rep c msg data : md5_rep c msg →
  ∃ c', MD5_Update data c = Done tt c' ∧ md5_rep c' (msg ++ data).
Proof.
  intros HR. pose proof HR as [Hl HS Hlo Hhi]. unfold MD5_Update.
  rewrite (bind_done (gets _) _ _ _ _ eq_refl), (bind_done _ _ _ _ _ (count_bytes_eq c msg (Z.of_nat (length data)) HR ltac:(lia))).
  rewrite (used_eq c msg HR). set (c1 := c <| lo := _ |> <| hi := _ |>).
  assert (∀ r b, length b = 64%nat →
    streamed body_block md5_iv (msg ++ data) r (take (length (msg ++ data) `mod` 64) b) →
    md5_rep (c1 <| abcd := r |> <| buffer := b |>) (msg ++ data)) as Hok.
  { intros r b Hb Hs. split; [done|done|..]; cbn; by rewrite length_app, Nat2Z.inj_add. }
  set (n := (length msg `mod` 64)%nat) in *.
  assert (n < 64)%nat as Hn by (apply Nat.mod_upper_bound; lia).
  pose proof (length_take (buffer c) n) as Hp. set (p := take n (buffer c)) in *.
  assert ((length (msg ++ data) `mod` 64 = (n + length data) `mod` 64)%nat) as Em
    by (rewrite length_app; unfold n; by rewrite Nat.Div0.add_mod_idemp_l).
  destruct (nz (Z.of_nat n)) eqn:En.
  - apply nz_true in En. destruct (Z.ltb_spec (Z.of_nat (length data)) (64 - Z.of_nat n)).
    + rewrite to_buffer_eq by lia. eexists. split; [reflexivity|].
      replace (c1 <| buffer := _ |>) with (c1 <| abcd := abcd c |> <| buffer := splice (buffer c) n data |>)
        by (destruct c; unfold update; simpl; by rewrite Nat2Z.id).
      apply Hok; [by rewrite length_splice by lia|]. rewrite Em, Nat.mod_small by lia.
      unfold splice. fold p. rewrite app_assoc, take_app_length' by (rewrite length_app; lia).
      apply streamed_more; [done|]. rewrite length_app. lia.
    + erewrite bind_done; [|apply to_buffer_eq; rewrite ?length_take; lia].
      erewrite (bind_done body_buffer); [|reflexivity].
      set (d := take (Z.to_nat (64 - Z.of_nat n)) data).
      assert (length d = (64 - n)%nat) as Hd by (unfold d; rewrite length_take; lia).
      assert (splice (buffer c) n d = p ++ d) as Eb.
      { unfold splice. fold p. rewrite (drop_ge (buffer c)) by lia. by rewrite app_nil_r. }
      edestruct (update_blocks_eq (c1 <| buffer := p ++ d |> <| abcd := body 1 (abcd c) (p ++ d) |>)
        (msg ++ d) (drop (Z.to_nat (64 - Z.of_nat n)) data)) as (r & b & E & Hb & Hs).
      { cbn [buffer update eta_expand]. change (length (p ++ d) = 64%nat). rewrite length_app. lia. }
      { cbn [abcd update eta_expand]. rewrite body_absorb, absorb_one by (rewrite length_app; lia).
        apply streamed_block; [done|]. rewrite length_app. lia. }
      exists (c1 <| abcd := r |> <| buffer := b |>). split.
      * rewrite Nat2Z.id. change (buffer c1) with (buffer c). rewrite Eb. exact E.
      * apply Hok; [done|]. rewrite Em. rewrite <-app_assoc in Hs. unfold d in Hs. rewrite take_drop in Hs.
        rewrite length_drop in Hs. replace (n + length data)%nat
          with (length data - Z.to_nat (64 - Z.of_nat n) + 1 * 64)%nat by lia.
        by rewrite Nat.Div0.mod_add.
  - apply nz_false in En. assert (n = O) as En0 by lia.
    destruct (update_blocks_eq c1 msg data Hl) as (r & b & E & Hb & Hs).
    { unfold p in HS. by rewrite En0, take_0 in HS. }
    exists (c1 <| abcd := r |> <| buffer := b |>). split; [done|]. apply Hok; [done|].
    by rewrite Em, En0.
Qed.

(** ** Finishing *)

Lemma OUT_eq z : OUT z = le_bytes 4 z.
Proof.
  apply list_eq. intros i. destruct (decide (i < 4)%nat) as [Hi|Hi].
  - rewrite le_bytes_lookup by done. unfold OUT.
    do 4 (destruct i as [|i]; [simpl; by rewrite ?Z.shiftr_0_r|]). lia.
  - rewrite !lookup_ge_None_2; unfold OUT; simpl; rewrite ?length_le_bytes; [done|lia..].
Qed.

Lemma le_bytes_split n m z : le_bytes (n + m) z = le_bytes n z ++ le_bytes m (z / 256 ^ Z.of_nat n).
Proof.
  revert z. induction n as [|n IH]; intros z; [by rewrite Z.div_1_r|].
  cbn [Nat.add le_bytes app]. rewrite IH, pow256_S, Z.div_div by (pose proof (pow256_pos n); lia). done.
Qed.

(** The length in bits from the two counters. *)
Lemma length_out n : 0 ≤ n →
  OUT (u32 (Z.shiftl (n `mod` 2 ^ 29) 3)) ++ OUT (u32 (n / 2 ^ 29)) = le_bytes 8 (8 * n).
Proof.
  intros Hn. rewrite !OUT_eq, (le_bytes_split 4 4). f_equal.
  - rewrite <-(le_bytes_mod 4 (8 * n)). rewrite Z.shiftl_mul_pow2 by lia. f_equal.
    change (256 ^ Z.of_nat 4) with (2 ^ 29 * 2 ^ 3). change (2 ^ 3) with 8.
    rewrite (Z.mul_comm 8 n), Z.mul_mod_distr_r by lia. apply wrap_small.
    pose proof (Z.mod_pos_bound n (2 ^ 29)). lia.
  - change (256 ^ Z.of_nat 4) with (8 * 2 ^ 29). rewrite Z.div_mul_cancel_l by lia.
    apply (le_bytes_mod 4).
Qed.

Lemma md5_length_eq c n r : length (buffer c) = 64%nat → 0 ≤ n →
  lo c = n `mod` 2 ^ 29 → hi c = u32 (n / 2 ^ 29) →
  body_block (abcd c) (take 56 (buffer c) ++ le_bytes 8 (8 * n)) = r →
  write_length c = Done (let '(a, b, c, d) := r in OUT a ++ OUT b ++ OUT c ++ OUT d)
    (mkMd5 0 0 (0, 0, 0, 0) (replicate 64 0)).
Proof.
  intros Hl Hn Hlo Hhi <-. unfold write_length. rewrite (bind_done (modify _) _ _ tt _ eq_refl).
  rewrite (bind_done (gets _) _ _ _ _ eq_refl).
  erewrite bind_done; [|apply to_buffer_eq; simpl; lia].
  rewrite (bind_done (gets _) _ _ _ _ eq_refl).
  erewrite bind_done; [|apply to_buffer_eq; simpl; lia].
  rewrite (bind_done body_buffer _ _ _ _ eq_refl), (bind_done (gets _) _ _ _ _ eq_refl).
  rewrite <-length_out by done. destruct c as [l h r b]. cbn [lo hi buffer abcd] in *. subst l h.
  set (L := OUT (u32 (Z.shiftl _ 3))). set (R := OUT (u32 (_ / _))).
  assert (length L = 4%nat ∧ length R = 4%nat) as [HL HR] by done.
  assert (splice (splice b 56 L) 60 R = take 56 b ++ L ++ R) as Eb.
  { unfold splice. rewrite !(drop_ge _ (60 + length R)) by
      (rewrite !length_app, length_take, length_drop; lia).
    rewrite app_nil_r, app_assoc, take_app_length'; [by rewrite app_assoc|].
    rewrite length_app, length_take. lia. }
  cbv [update eta_expand MD5_CTX_eta lo hi abcd buffer].
  change (Z.to_nat 56) with 56%nat. change (Z.to_nat 60) with 60%nat. fold L R. rewrite Eb.
  rewrite body_absorb, absorb_one by (rewrite !length_app, length_take; lia).
  by destruct (body_block r _) as [[[? ?] ?] ?].
Qed.

Definition MD5 (msg : list Z) : list Z :=
  let '(a, b, c, d) := digest body_block md5_iv (le_bytes 8) msg in OUT a ++ OUT b ++ OUT c ++ OUT d.

Lemma MD5_Final_rep c msg : md5_rep c msg →
  MD5_Final c = Done (MD5 msg) (mkMd5 0 0 (0, 0, 0, 0) (replicate 64 0)).
Proof.
  intros HR. pose proof HR as [Hl HS Hlo Hhi]. unfold MD5_Final, MD5.
  rewrite (bind_done (gets _) _ _ _ _ eq_refl), (used_eq c msg HR).
  set (n := (length msg `mod` 64)%nat) in *.
  assert (n < 64)%nat as Hn by (apply Nat.mod_upper_bound; lia).
  pose proof (length_take (buffer c) n) as Hp. set (p := take n (buffer c)) in *.
  erewrite bind_done; [|apply to_buffer_eq; simpl; lia]. rewrite Nat2Z.id.
  assert (∀ k, splice (splice (buffer c) n [128]) (Z.to_nat (Z.of_nat n + 1)) (replicate k 0)
    = p ++ 128 :: replicate k 0 ++ drop (n + 1 + k) (buffer c)) as Ek.
  { intros k. unfold splice at 1. rewrite length_replicate. unfold splice. fold p. cbn [length].
    replace (Z.to_nat (Z.of_nat n + 1)) with (length (p ++ [128])) by (rewrite length_app; simpl; lia).
    rewrite !(app_assoc p [128]), take_app_length, drop_app_ge, drop_drop by lia.
    rewrite length_app. simpl length. rewrite <-app_assoc. cbn [app]. do 4 f_equal. lia. }
  destruct (Z.ltb_spec (64 - (Z.of_nat n + 1)) 8).
  - erewrite bind_done; cycle 1.
    { erewrite bind_done; [|apply to_buffer_eq; rewrite ?length_replicate; lia].
      rewrite (bind_done body_buffer _ _ _ _ eq_refl). reflexivity. }
    rewrite Z2Nat.inj_sub, !Ek, drop_ge, app_nil_r by lia.
    replace (Z.to_nat 64 - _)%nat with (63 - length p)%nat by lia.
    assert (length (p ++ 128 :: replicate (63 - length p) 0) = 64%nat) as H64
      by (rewrite length_app; cbn [length]; rewrite length_replicate; lia).
    set (q := p ++ 128 :: replicate (63 - length p) 0) in *.
    erewrite bind_done; [|apply to_buffer_eq; rewrite ?length_replicate; lia].
    apply (md5_length_eq _ (Z.of_nat (length msg))); [|lia|exact Hlo|exact Hhi|].
    + cbn [buffer update eta_expand]. change (length (splice q 0 (replicate 56 0)) = 64%nat).
      rewrite length_splice; rewrite ?length_replicate; lia.
    + rewrite (digest_long _ _ (le_bytes 8) msg _ _ (length_le_bytes 8) HS) by lia. fold q.
      cbn [buffer abcd update eta_expand MD5_CTX_eta].
      rewrite body_absorb, absorb_one by done. done.
  - rewrite (bind_done (mret _) _ _ _ _ eq_refl).
    erewrite bind_done; [|apply to_buffer_eq; rewrite ?length_replicate; lia].
    cbn [buffer update eta_expand MD5_CTX_eta]. rewrite Ek.
    replace (Z.to_nat (64 - _ - 8)) with (55 - length p)%nat by lia.
    set (q := p ++ 128 :: _ ++ drop _ (buffer c)).
    assert (length q = 64%nat ∧ take 56 q = p ++ 128 :: replicate (55 - length p) 0) as [Hq Eq].
    { unfold q. split.
      - rewrite length_app. cbn [length]. rewrite length_app, length_replicate, length_drop. lia.
      - rewrite (app_comm_cons _ _ 128), app_assoc, take_app_length'; [done|].
        rewrite length_app. cbn [length]. rewrite length_replicate. lia. }
    apply (md5_length_eq _ (Z.of_nat (length msg))); [exact Hq|lia|exact Hlo|exact Hhi|].
    rewrite (digest_short _ _ (le_bytes 8) msg _ _ (length_le_bytes 8) HS) by lia.
    cbn [buffer abcd update eta_expand MD5_CTX_eta]. rewrite Eq, <-app_assoc. done.
Qed.

(** ** The rounds *)

Lemma F_eq x y z : word x → word y → word z → F x y z = RFC1321.F_bits x y z.
Proof.
  intros. apply word_eq; unfold F, RFC1321.F_bits; [auto with word..|]. intros i Hi.
  rewrite !Z.lxor_spec, Z.land_spec, Z.lxor_spec, bits32_bit, (proj2 (Z.ltb_lt i 32)) by lia.
  by destruct (Z.testbit x i), (Z.testbit y i), (Z.testbit z i).
Qed.

Lemma G_eq x y z : word x → word y → word z → G x y z = RFC1321.G_bits x y z.
Proof.
  intros. apply word_eq; unfold G, RFC1321.G_bits; [auto with word..|]. intros i Hi.
  rewrite !Z.lxor_spec, Z.land_spec, Z.lxor_spec, bits32_bit, (proj2 (Z.ltb_lt i 32)) by lia.
  by destruct (Z.testbit x i), (Z.testbit y i), (Z.testbit z i).
Qed.

Lemma H2_eq x y z : word x → word y → word z → H2 x y z = RFC1321.H_bits x y z.
Proof.
  intros. apply word_eq; unfold H2, RFC1321.H_bits; [auto with word..|]. intros i Hi.
  by rewrite !Z.lxor_spec, bits32_bit, (proj2 (Z.ltb_lt i 32)) by lia.
Qed.

Lemma H_eq x y z : word x → word y → word z → H x y z = RFC1321.H_bits x y z.
Proof. intros. rewrite <-H2_eq by done. apply Z.lxor_assoc. Qed.

Lemma I_eq x y z : word x → word y → word z → I x y z = RFC1321.I_bits x y z.
Proof.
  intros. apply word_eq; unfold I, RFC1321.I_bits; [auto with word..|]. intros i Hi.
  by rewrite Z.lxor_spec, Z.lor_spec, u32_lnot_bit, bits32_bit, (proj2 (Z.ltb_lt i 32)) by lia.
Qed.

Lemma STEP_eq g f a b c d x t s : 0 < s < 32 → g b c d = f b c d →
  STEP g a b c d x t s =
  (b + RFC1321.rotl s ((a + f b c d + x + t) `mod` 2 ^ 32)) `mod` 2 ^ 32.
Proof.
  intros Hs Hg. unfold STEP. rewrite Hg, !Z.add_assoc. unfold wrap.
  set (y := (a + f b c d + x + t) `mod` 2 ^ 32).
  assert (word y) as Hy by apply word_u32. clearbody y. rewrite Z.add_comm. f_equal. f_equal.
  change 0xffffffff with (Z.ones 32). rewrite Z.land_ones, (Z.mod_small y) by (done || apply Hy).
  rewrite Z.lor_comm. unfold RFC1321.rotl.
  assert (0 < 2 ^ s) by (apply Z.pow_pos_nonneg; lia).
  assert (0 < 2 ^ (32 - s)) by (apply Z.pow_pos_nonneg; lia).
  assert (2 ^ 32 = 2 ^ (32 - s) * 2 ^ s) as E by (rewrite <-Z.pow_add_r by lia; f_equal; lia).
  replace (Z.shiftl y s `mod` 2 ^ 32) with (Z.shiftl (y `mod` 2 ^ (32 - s)) s).
  - rewrite lor_shift, Z.shiftr_div_pow2; [|lia|lia|].
    + rewrite E, Z.mul_mod_distr_r by lia. lia.
    + rewrite Z.shiftr_div_pow2 by lia. unfold word in Hy. split; [apply Z.div_pos; lia|].
      apply Z.div_lt_upper_bound; lia.
  - rewrite !Z.shiftl_mul_pow2, E, Z.mul_mod_distr_r by lia. done.
Qed.

(** The unrolled rounds, line by line.  The registers of the code stay in place;
    those of the RFC move. *)
Definition line_f (i : nat) : Z → Z → Z → Z :=
  match (i / 16)%nat with
  | O => F | 1%nat => G | 2%nat => if Nat.even i then H else H2 | _ => I
  end.
Definition line_reg (i : nat) : md5_reg := default Rb ([Ra; Rd; Rc] !! (i `mod` 4)%nat).
Definition line (i : nat) : md5_instr :=
  step (line_f i) (line_reg i) (RFC1321.k i) (RFC1321.T i) (RFC1321.s i).

Definition line_data (i : md5_instr) : md5_reg * nat * Z * Z := (st_reg i, st_n i, st_t i, st_s i).

Lemma instrs_eq (l l' : list md5_instr) : st_f <$> l = st_f <$> l' → line_data <$> l = line_data <$> l' → l = l'.
Proof.
  revert l'. induction l as [|[] l IH]; intros [|[] l'] Hf Hd; try done.
  injection Hf as -> Hf. injection Hd as -> -> -> -> Hd. f_equal. by apply IH.
Qed.

Lemma md5_rounds_lines : md5_rounds = line <$> seq 0 64.
Proof.
  apply instrs_eq.
  - rewrite <-list_fmap_compose. change (st_f ∘ line) with line_f. cbv -[F G H H2 I]. reflexivity.
  - vm_compute. reflexivity.
Qed.

Lemma line_f_eq i x y z : word x → word y → word z → line_f i x y z = RFC1321.f i x y z.
Proof.
  intros. unfold line_f, RFC1321.f.
  destruct (i / 16)%nat as [|[|[|?]]]; [by apply F_eq|by apply G_eq| |by apply I_eq].
  destruct (Nat.even i); [by apply H_eq|by apply H2_eq].
Qed.

Lemma s_range i : 0 < RFC1321.s i < 32.
Proof.
  unfold RFC1321.s. pose proof (Nat.mod_upper_bound i 4 ltac:(lia)).
  destruct (i / 16)%nat as [|[|[|?]]]; destruct (i `mod` 4)%nat as [|[|[|[|?]]]]; simpl; lia.
Qed.

#[local] Opaque RFC1321.T RFC1321.k RFC1321.s RFC1321.f RFC1321.rotl line_f.

Definition view (i : nat) (r : regs4) : regs4 :=
  let '(a, b, c, d) := r in
  match (i `mod` 4)%nat with
  | O => (a, b, c, d) | 1%nat => (d, a, b, c) | 2%nat => (c, d, a, b) | _ => (b, c, d, a)
  end.

Definition regs_ok (r : regs4) : Prop := let '(a, b, c, d) := r in word a ∧ word b ∧ word c ∧ word d.

Lemma line_exec X r i : regs_ok r →
  view (S i) (exec X r (line i)) = RFC1321.step X (view i r) i ∧ regs_ok (exec X r (line i)).
Proof.
  destruct r as [[[a b] c] d]. intros (Ha & Hb & Hc & Hd). unfold exec, line, line_reg, view.
  cbn [st_f st_reg st_n st_t st_s]. pose proof (Nat.mod_upper_bound i 4 ltac:(lia)).
  assert ((S i `mod` 4)%nat = if decide ((i `mod` 4)%nat = 3%nat) then O else S (i `mod` 4)%nat) as ->.
  { case_decide; [symmetry; apply (Nat.mod_unique _ _ (S (i / 4)))|symmetry; apply (Nat.mod_unique _ _ (i / 4))];
      pose proof (Nat.div_mod i 4); lia. }
  destruct (i `mod` 4)%nat as [|[|[|[|?]]]]; [..|lia]; cbn [lookup list_lookup default from_option id];
    rewrite (STEP_eq _ (RFC1321.f i)) by (apply s_range || by apply line_f_eq);
    (split; [reflexivity|]); split_and!; try done; apply word_u32.
Qed.

Lemma lines_exec X n m r : regs_ok r →
  view (m + n) (foldl (exec X) r (line <$> seq m n)) = foldl (RFC1321.step X) (view m r) (seq m n) ∧
  regs_ok (foldl (exec X) r (line <$> seq m n)).
Proof.
  revert m r. induction n as [|n IH]; intros m r Hr; [by rewrite Nat.add_0_r|].
  cbn [seq fmap list_fmap foldl]. destruct (line_exec X r m Hr) as [E Hr'].
  destruct (IH (S m) _ Hr') as [IH1 IH2]. rewrite <-E. rewrite Nat.add_succ_r. by split.
Qed.

Lemma body_block_eq r block : regs_ok r →
  body_block r block = RFC1321.compress r block ∧ regs_ok (body_block r block).
Proof.
  intros Hr. unfold body_block, RFC1321.compress. rewrite md5_rounds_lines.
  destruct (lines_exec (SET block) 64 0 r Hr) as [E _]. revert E. cbn [Nat.add].
  destruct r as [[[a b] c] d]. unfold view at 2. change (0 `mod` 4)%nat with O. cbv iota.
  change (λ j, le_val (take 4 (drop (j * 4) block))) with (SET block).
  intros <-. destruct (foldl _ _ _) as [[[a' b'] c'] d']. unfold view.
  change (64 `mod` 4)%nat with O. cbv iota. unfold wrap.
  rewrite (Z.add_comm a), (Z.add_comm b), (Z.add_comm c), (Z.add_comm d).
  split; [done|]. split_and!; apply word_u32.
Qed.

Lemma absorb_ext n r l : regs_ok r →
  absorb body_block n r l = absorb RFC1321.compress n r l.
Proof.
  revert r l. induction n as [|n IH]; intros r l Hr; [done|]. cbn [absorb].
  destruct (body_block_eq r (take 64 l) Hr) as [<- Hr']. by apply IH.
Qed.

Lemma MD5_eq msg : MD5 msg = RFC1321.md5 msg.
Proof.
  unfold MD5, RFC1321.md5, digest. rewrite absorb_ext by (unfold regs_ok, word; simpl; lia).
  fold md5_iv. unfold RFC1321.out. destruct (absorb _ _ _ _) as [[[a b] c] d]. by rewrite !OUT_eq.
Qed.

Lemma md5_chunks chunks c msg : md5_rep c msg →
  foldr (λ l k, MD5_Update l ;; k) MD5_Final chunks c =
  Done (MD5 (msg ++ concat chunks)) (mkMd5 0 0 (0, 0, 0, 0) (replicate 64 0)).
Proof.
  revert c msg. induction chunks as [|l chunks IH]; intros c msg HR; cbn [foldr concat].
  - rewrite app_nil_r. by apply MD5_Final_rep.
  - destruct (MD5_Update_rep c msg l HR) as (c' & E & HR'). rewrite (bind_done _ _ _ _ _ E).
    rewrite (IH c' _ HR'). by rewrite app_assoc.
Qed.

(** C29: MD5.  However a message is cut into pieces for [MD5_Update], the code
    between [MD5_Init] and [MD5_Final] stays within its buffer, returns the
    digest that RFC 1321 gives the whole message, for messages of any length,
    and leaves the context cleared.  The RFC's rounds are a loop over a table
    of sines; the code's are unrolled, with reformulated bit functions. *)
Theorem md5_correct c chunks : length (buffer c) = 64%nat →
  (MD5_Init ;; foldr (λ l k, MD5_Update l ;; k) MD5_Final chunks) c =
  Done (RFC1321.md5 (concat chunks)) (mkMd5 0 0 (0, 0, 0, 0) (replicate 64 0)).
Proof.
  intros Hl. rewrite (bind_done MD5_Init _ _ _ _ eq_refl), <-MD5_eq.
  apply (md5_chunks chunks _ []). split; [done|apply streamed_nil|done..].
Qed.

(** The message "abc" of the RFC's test suite, in two pieces. *)
Lemma md5_correct_witness :
  (MD5_Init ;; MD5_Update [97] ;; MD5_Update [98; 99] ;; MD5_Final)
    (mkMd5 7 7 (1, 2, 3, 4) (replicate 64 255)) =
  Done (be_bytes 16 0x900150983cd24fb0d6963f7d28e17f72) (mkMd5 0 0 (0, 0, 0, 0) (replicate 64 0)).
Proof.
  etransitivity; [exact (md5_correct (mkMd5 7 7 (1, 2, 3, 4) (replicate 64 255)) [[97]; [98; 99]] eq_refl)|].
  apply (f_equal (λ l, Done l _)). rewrite <-MD5_eq. vm_compute. reflexivity.
Defined.
