(* ===== verification/NetSum.v ===== *)
(** * Byte order and checksums of the network stack

    [htons] and [htonl] of [drivers/include/net.h] and the checksums of
    [drivers/net/net.c].  [checksum_correct]: what the code puts into a checksum
    field makes the receiver's test of RFC 1071 succeed, in network byte order,
    although the code adds words in the order of the machine. *)

From S2P Require Import Prelude Bytes.

(** ** The code *)

Definition htons (v : Z) : Z := u16 (Z.lor (Z.shiftr v 8) (Z.shiftl v 8)).
Definition htonl (v : Z) : Z :=
  u32 (Z.lor (Z.lor (Z.lor (Z.land (Z.shiftr v 24) 0xFF)
    (Z.shiftl (Z.land (Z.shiftr v 16) 0xFF) 8))
    (Z.shiftl (Z.land (Z.shiftr v 8) 0xFF) 16))
    (Z.shiftl (Z.land v 0xFF) 24)).

(** A [uint16_t] or [uint32_t] field of a packed structure in memory. *)
Definition st16 (v : Z) : list Z := le_bytes 2 v.
Definition st32 (v : Z) : list Z := le_bytes 4 v.
Definition ld16 (l : list Z) (o : nat) : Z := le_val (take 2 (drop o l)).
Definition ld32 (l : list Z) (o : nat) : Z := le_val (take 4 (drop o l)).

(** [while (n > 1) { sum += *p++; n -= 2; }] and the odd byte. *)
Fixpoint sum_words (sum : Z) (l : list Z) : Z :=
  match l with
  | a :: b :: l => sum_words (u32 (sum + (a + 256 * b))) l
  | [a] => u32 (sum + a)
  | [] => sum
  end.

(** [while (sum >> 16) sum = (sum & 0xFFFF) + (sum >> 16);]: a sum of 32 bits
    needs at most two rounds. *)
Fixpoint fold_carry (fuel : nat) (sum : Z) : Z :=
  match fuel with
  | O => sum
  | S fuel =>
      if nz (Z.shiftr sum 16) then fold_carry fuel (Z.land sum 0xFFFF + Z.shiftr sum 16) else sum
  end.

Definition fold_sum (sum : Z) : Z := u16 (Z.lnot (fold_carry 2 sum)).

Definition ip_checksum (data : list Z) : Z := fold_sum (sum_words 0 data).

Definition IP_PROTO_TCP : Z := 6.
Definition IP_PROTO_UDP : Z := 17.

Definition pseudo_header (src_ip dst_ip : list Z) (tcp_len : Z) : list Z :=
  src_ip ++ dst_ip ++ [0; IP_PROTO_TCP; u8 (Z.shiftr tcp_len 8); u8 tcp_len].

Definition tcp_checksum (src_ip dst_ip tcp_seg : list Z) : Z :=
  fold_sum (sum_words (sum_words 0 (pseudo_header src_ip dst_ip (Z.of_nat (length tcp_seg)))) tcp_seg).

(** ** Byte order *)

Lemma htons_eq v : 0 ≤ v < 65536 → htons v = v `div` 256 + 256 * (v `mod` 256).
Proof.
  intros Hv. unfold htons, wrap. rewrite Z.shiftr_div_pow2, lor_shift by (lia || (change (2 ^ 8) with 256; Z.div_mod_to_equations; lia)).
  change (2 ^ 8) with 256. change (2 ^ 16) with 65536. Z.div_mod_to_equations. lia.
Qed.

(** On the wire the fields are big-endian. *)
Lemma st16_htons v : 0 ≤ v < 65536 → st16 (htons v) = be_bytes 2 v.
Proof.
  intros Hv. rewrite htons_eq by done. unfold st16, be_bytes. cbn [le_bytes reverse rev_append].
  change (reverse [u8 v; u8 (v / 256)]) with [u8 (v / 256); u8 v]. unfold wrap. change (2 ^ 8) with 256.
  assert ((v / 256 + 256 * (v `mod` 256)) `mod` 256 = (v / 256) `mod` 256 ∧
    ((v / 256 + 256 * (v `mod` 256)) / 256) `mod` 256 = v `mod` 256) as [-> ->]
    by (Z.div_mod_to_equations; lia). done.
Qed.

Lemma htons_involutive v : 0 ≤ v < 65536 → htons (htons v) = v.
Proof.
  intros Hv. rewrite (htons_eq v) by done. rewrite htons_eq; Z.div_mod_to_equations; lia.
Qed.

Lemma htonl_eq v : 0 ≤ v < 2 ^ 32 →
  htonl v = le_val (be_bytes 4 v).
Proof.
  intros Hv. unfold htonl. rewrite !(Z.land_ones _ 8 ltac:(lia) : Z.land _ 0xFF = _).
  rewrite !Z.shiftr_div_pow2 by lia.
  pose proof (Z.mod_pos_bound v (2 ^ 8)). pose proof (Z.mod_pos_bound (v / 2 ^ 8) (2 ^ 8)).
  pose proof (Z.mod_pos_bound (v / 2 ^ 16) (2 ^ 8)). pose proof (Z.mod_pos_bound (v / 2 ^ 24) (2 ^ 8)).
  rewrite (lor_shift _ _ 8) by lia. rewrite (lor_shift _ _ 16) by lia. rewrite (lor_shift _ _ 24) by lia.
  unfold be_bytes. cbn [le_bytes].
  change (reverse [?a; ?b; ?c; ?d]) with [d; c; b; a]. cbn [le_val]. unfold wrap.
  rewrite !Z.div_div by lia. change (2 ^ 8) with 256 in *. change (256 * 256) with (2 ^ 16).
  change (256 * 2 ^ 16) with (2 ^ 24). rewrite Z.mod_small; lia.
Qed.

Lemma st32_htonl v : 0 ≤ v < 2 ^ 32 → st32 (htonl v) = be_bytes 4 v.
Proof.
  intros Hv. rewrite htonl_eq by done. unfold st32.
  rewrite <-(length_be_bytes 4 v) at 1. apply le_bytes_val, bytes_be_bytes.
Qed.

Lemma htonl_involutive v : 0 ≤ v < 2 ^ 32 → htonl (htonl v) = v.
Proof.
  intros Hv. assert (0 ≤ htonl v < 2 ^ 32) as Hh by (by apply wrap_range).
  rewrite (htonl_eq (htonl v)) by done. unfold be_bytes.
  pose proof (st32_htonl v Hv) as E. unfold st32 in E. rewrite E. unfold be_bytes. rewrite reverse_involutive.
  rewrite le_val_bytes. by apply Z.mod_small.
Qed.

(** ** RFC 1071 *)

(** Addition of 16-bit words with end-around carry, over the words of a message
    in network byte order. *)
Definition oc_add (a b : Z) : Z := if a + b <? 65536 then a + b else a + b - 65535.

Fixpoint be_words (l : list Z) : list Z :=
  match l with a :: b :: l => (256 * a + b) :: be_words l | [a] => [256 * a] | [] => [] end.

Definition oc_sum (l : list Z) : Z := foldl oc_add 0 (be_words l).

(** The same words as the machine reads them, and plain sums. *)
Fixpoint le_words (l : list Z) : list Z :=
  match l with a :: b :: l => (a + 256 * b) :: le_words l | [a] => [a] | [] => [] end.
Definition zsum (l : list Z) : Z := foldr Z.add 0 l.

Lemma zsum_cons a l : zsum (a :: l) = a + zsum l.
Proof. done. Qed.

Lemma pair_ind (P : list Z → Prop) :
  P [] → (∀ a, P [a]) → (∀ a b l, P l → P (a :: b :: l)) → ∀ l, P l.
Proof.
  intros H0 H1 H2. fix IH 1. intros [|a [|b l]]; [done|done|]. apply H2, IH.
Qed.

Lemma words_app l l' : Nat.even (length l) = true →
  be_words (l ++ l') = be_words l ++ be_words l' ∧ le_words (l ++ l') = le_words l ++ le_words l'.
Proof.
  induction l as [|a|a b l IH] using pair_ind; intros Hl; [done|done|].
  destruct (IH Hl) as [E1 E2]. split; cbn; by f_equal.
Qed.

Lemma zsum_app l l' : zsum (l ++ l') = zsum l + zsum l'.
Proof. induction l as [|a l IH]; [done|]. cbn [app]. rewrite !zsum_cons, IH. lia. Qed.

(** The sums of a message in the two orders: swapping the bytes of every word
    multiplies the sum by 256, modulo 65535. *)
Lemma words_sums l : bytes l →
  0 ≤ zsum (be_words l) ∧ 0 ≤ zsum (le_words l) ≤ 65535 * Z.of_nat (length l) ∧
  Forall (λ w, 0 ≤ w < 65536) (be_words l) ∧
  (zsum (be_words l) = 0 ↔ zsum (le_words l) = 0) ∧
  ∃ k, zsum (be_words l) = 256 * zsum (le_words l) - 65535 * k.
Proof.
  induction l as [|a|a b l IH] using pair_ind; intros Hl; cbn [be_words le_words length];
    rewrite ?zsum_cons; change (zsum []) with 0.
  - split_and!; [lia..|done|done|by exists 0].
  - apply list.Forall_cons in Hl as [Ha _]. unfold byte in Ha.
    split_and!; [lia..|by constructor; [lia|]|lia|exists 0; lia].
  - apply list.Forall_cons in Hl as [Ha [Hb Hl]%list.Forall_cons]. unfold byte in Ha, Hb.
    destruct (IH Hl) as (H1 & H2 & H3 & H4 & k & H5). split_and!; [lia..| |lia|].
    + constructor; [lia|done].
    + exists (k + b). lia.
Qed.

Lemma sum_words_eq l s : bytes l → 0 ≤ s → s + zsum (le_words l) < 2 ^ 32 →
  sum_words s l = s + zsum (le_words l).
Proof.
  revert s. induction l as [|a|a b l IH] using pair_ind; intros s Hl Hs; cbn [sum_words le_words]; rewrite ?zsum_cons; change (zsum []) with 0.
  - lia.
  - apply list.Forall_cons in Hl as [Ha _]. unfold byte in Ha. intros. rewrite wrap_small; lia.
  - apply list.Forall_cons in Hl as [Ha [Hb Hl]%list.Forall_cons]. unfold byte in Ha, Hb.
    intros Hlt. destruct (words_sums l Hl) as (_ & H2 & _).
    rewrite wrap_small by lia. rewrite IH; [lia|done|lia|lia].
Qed.

(** What both ways of folding a sum [s] to 16 bits give. *)
Definition folded (s r : Z) : Prop := 0 ≤ r < 65536 ∧ (∃ k, r = s - 65535 * k) ∧ (r = 0 ↔ s = 0).

Lemma folded_unique s r r' : folded s r → folded s r' → r = r'.
Proof. intros (H1 & (k & H2) & H3) (H4 & (k' & H5) & H6). lia. Qed.

Lemma fold_carry_step s : 0 ≤ s < 2 ^ 32 → nz (Z.shiftr s 16) = true →
  let s' := Z.land s 0xFFFF + Z.shiftr s 16 in
  0 < s ∧ 0 < s' ≤ 0x1FFFE ∧ (s ≤ 0x1FFFE → s' < 65536) ∧ ∃ k, s' = s - 65535 * k.
Proof.
  intros Hs Hnz s'. unfold s'. apply nz_true in Hnz. change (Z.land s 0xFFFF) with (Z.land s (Z.ones 16)).
  rewrite Z.land_ones, Z.shiftr_div_pow2 in * by lia. change (2 ^ 16) with 65536 in *. change (2 ^ 32) with 4294967296 in *.
  split_and!; [Z.div_mod_to_equations; lia..|]. exists (s / 65536). Z.div_mod_to_equations. lia.
Qed.

Lemma fold_carry_eq s : 0 ≤ s < 2 ^ 32 → folded s (fold_carry 2 s) ∧ Z.shiftr (fold_carry 2 s) 16 = 0.
Proof.
  intros Hs.
  assert (∀ x, 0 ≤ x < 2 ^ 32 → nz (Z.shiftr x 16) = false → x < 65536 ∧ Z.shiftr x 16 = 0) as Hstop.
  { intros x Hx Hz. apply nz_false in Hz. split; [|done]. rewrite Z.shiftr_div_pow2 in Hz by lia.
    change (2 ^ 16) with 65536 in Hz. Z.div_mod_to_equations. lia. }
  assert (∀ x, 0 ≤ x < 65536 → nz (Z.shiftr x 16) = false) as Hsmall.
  { intros x Hx. apply nz_false. rewrite Z.shiftr_div_pow2 by lia. by apply Z.div_small. }
  cbn [fold_carry]. destruct (nz (Z.shiftr s 16)) eqn:E1.
  - destruct (fold_carry_step s Hs E1) as (H0 & H1 & H2 & k & H3). set (s1 := Z.land s _ + _) in *.
    destruct (nz (Z.shiftr s1 16)) eqn:E2.
    + destruct (fold_carry_step s1 ltac:(lia) E2) as (_ & H4 & H5 & k' & H6). specialize (H5 ltac:(lia)). set (s2 := Z.land s1 _ + _) in *.
      split; [|apply Hstop; [lia|apply Hsmall; lia]].
      split_and!; [lia..| |].
      * exists (k + k'). lia.
      * lia.
    + destruct (Hstop s1 ltac:(lia) E2). split; [|done]. split_and!; [lia..|by exists k|]. lia.
  - destruct (Hstop s Hs E1). split; [|done]. split_and!; [lia..| |done]. exists 0. lia.
Qed.

Lemma oc_foldl l a s : Forall (λ w, 0 ≤ w < 65536) l → folded s a → 0 ≤ s → folded (s + zsum l) (foldl oc_add a l).
Proof.
  revert a s. induction l as [|w l IH]; intros a s Hl Ha Hs; cbn [foldl]; [by rewrite Z.add_0_r|].
  apply list.Forall_cons in Hl as [Hw Hl]. rewrite zsum_cons, Z.add_assoc. apply IH; [done| |lia].
  destruct Ha as (H1 & (k & H2) & H3). unfold oc_add. destruct (Z.ltb_spec (a + w) 65536).
  - split_and!; [lia..|exists k; lia|lia].
  - split_and!; [lia..|exists (k + 1); lia|lia].
Qed.

Lemma oc_sum_folded l : bytes l → folded (zsum (be_words l)) (oc_sum l).
Proof.
  intros Hl. destruct (words_sums l Hl) as (_ & _ & HF & _). unfold oc_sum.
  rewrite <-(Z.add_0_l (zsum _)). apply oc_foldl; [done| |done]. split_and!; [lia..|by exists 0|done].
Qed.

(** The checksum of a message is the complement of its sum. *)
Lemma ip_checksum_eq l : bytes l → Z.of_nat (length l) ≤ 65535 →
  0 ≤ ip_checksum l < 65536 ∧ folded (zsum (le_words l)) (65535 - ip_checksum l).
Proof.
  intros Hl Hn. destruct (words_sums l Hl) as (_ & H2 & _). unfold ip_checksum, fold_sum.
  rewrite sum_words_eq, Z.add_0_l by (done || lia).
  destruct (fold_carry_eq (zsum (le_words l))) as [Hf _]; [lia|]. set (r := fold_carry 2 _) in *.
  pose proof Hf as (Hr & _).
  assert (u16 (Z.lnot r) = 65535 - r) as E.
  { unfold wrap, Z.lnot. symmetry. apply (Z.mod_unique _ _ (-1)); lia. }
  rewrite E. split; [lia|]. replace (65535 - (65535 - r)) with r by lia. done.
Qed.

(** Checksums.  The value computed over a message whose checksum field (at
    an even offset) is zero, once stored in that field, makes the message pass
    the test of RFC 1071: the one's complement sum of its words in network byte
    order is all ones.  For TCP the message is the segment behind its
    pseudo-header. *)
Theorem checksum_correct pre post : bytes pre → bytes post → Nat.even (length pre) = true →
  Z.of_nat (length pre + 2 + length post) ≤ 65535 →
  oc_sum (pre ++ st16 (ip_checksum (pre ++ [0; 0] ++ post)) ++ post) = 65535 ∧
  ∀ src dst seg, length src = 4%nat → length dst = 4%nat →
    tcp_checksum src dst seg =
    ip_checksum (pseudo_header src dst (Z.of_nat (length seg)) ++ seg).
Proof.
  intros Hp Hq He Hn. split.
  - assert (bytes (pre ++ [0; 0] ++ post)) as Hz by (rewrite !list.Forall_app; by repeat constructor).
    destruct (ip_checksum_eq _ Hz) as [Hc Hf]; [rewrite !length_app; simpl; lia|]. set (c := ip_checksum _) in *.
    set (m := pre ++ st16 c ++ post).
    assert (bytes m) as Hm by (unfold m; rewrite !list.Forall_app; split_and!; [done|apply bytes_le_bytes|done]).
    assert (zsum (le_words m) = zsum (le_words (pre ++ [0; 0] ++ post)) + c) as Ez.
    { unfold m. rewrite !(proj2 (words_app pre _ He)), !zsum_app. unfold st16. cbn [le_bytes app le_words].
      rewrite !zsum_cons. Z.div_mod_to_equations. lia. }
    destruct (words_sums m Hm) as (_ & H2 & _ & H4 & k & H5). destruct (words_sums _ Hz) as (_ & H6 & _).
    destruct (oc_sum_folded m Hm) as (G1 & (k' & G2) & G3). destruct Hf as (F1 & (k0 & F2) & F3). lia.
  - intros src dst seg Hs Hd. unfold tcp_checksum, ip_checksum. f_equal.
    destruct src as [|s1 [|s2 [|s3 [|s4 [|]]]]]; try done. destruct dst as [|d1 [|d2 [|d3 [|d4 [|]]]]]; done.
Qed.

(** A header of 20 bytes, its checksum at offset 10. *)
Lemma checksum_correct_witness :
  let pre := [0x45; 0; 0; 40; 0; 1; 0x40; 0; 64; 6] in
  let post := [10; 0; 2; 15; 8; 8; 8; 8] in
  oc_sum (pre ++ st16 (ip_checksum (pre ++ [0; 0] ++ post)) ++ post) = 65535 ∧
  st16 (ip_checksum (pre ++ [0; 0] ++ post)) = [0x1e; 0xb1].
Proof.
  split; [|vm_compute; reflexivity].
  refine (proj1 (checksum_correct [0x45; 0; 0; 40; 0; 1; 0x40; 0; 64; 6] [10; 0; 2; 15; 8; 8; 8; 8] _ _ _ _));
    [by repeat constructor..|reflexivity|by vm_compute].
Defined.
