(* ===== verification/Dns.v ===== *)
(** * DNS messages

    The query builder, the response parser and the dotted-decimal parser of
    [drivers/net/net.c].  [dns_parse_correct]: the parser reads only inside the
    message, whatever the message is, and returns the first address record of a
    message in the format of RFC 1035. *)

From S2P Require Import Prelude Bytes.

(** ** The code *)

(** [buf[i]] of a buffer that holds the bytes [buf]. *)
Definition at_ (buf : list Z) (i : Z) : M unit Z :=
  if i <? 0 then fault else match buf !! Z.to_nat i with Some b => mret b | None => fault end.

(** [(uint16_t)((buf[i] << 8) | buf[i + 1])] *)
Definition at16 (buf : list Z) (i : Z) : M unit Z :=
  a ← at_ buf i; b ← at_ buf (i + 1); mret (u16 (Z.lor (Z.shiftl a 8) b)).

(** [buf[pos++] = b;] into a buffer of [size] bytes; the state is what has been
    written. *)
Definition put (size b : Z) : M (list Z) unit := λ buf,
  if Z.of_nat (length buf) <? size then Done tt (buf ++ [u8 b]) else Fault.

Fixpoint puts (size : Z) (l : list Z) : M (list Z) unit :=
  match l with [] => mret tt | b :: l => put size b ;; puts size l end.

Definition DOT : Z := 46.

(** [dot]: the end of the first label of a name. *)
Fixpoint label (p : list Z) : list Z :=
  match p with [] => [] | c :: p => if c =? DOT then [] else c :: label p end.

(** The loop over the labels; [false] when it returns -1. *)
Fixpoint put_labels (fuel : nat) (size : Z) (p : list Z) : M (list Z) bool :=
  match p with
  | [] => mret true
  | _ =>
      match fuel with
      | O => fault
      | S fuel =>
          let l := label p in
          let label_len := Z.of_nat (length l) in
          if (label_len =? 0) || (63 <? label_len) then mret false else
          put size label_len ;; puts size l ;;
          let p := drop (length l) p in
          let p := match p with c :: p' => if c =? DOT then p' else p | [] => p end in
          put_labels fuel size p
      end
  end.

Definition dns_build_query (bufsize txid : Z) (hostname : list Z) : M (list Z) Z :=
  if bufsize <? 512 then mret (-1) else
  puts bufsize [Z.shiftr txid 8; Z.land txid 0xFF; 1; 0; 0; 1; 0; 0; 0; 0; 0; 0] ;;
  ok ← put_labels (length hostname) bufsize hostname;
  if negb ok then mret (-1) else
  puts bufsize [0; 0; 1; 0; 1] ;;
  gets (λ buf, Z.of_nat (length buf)).

(** Every round moves on by at least one byte, so [len] rounds are enough. *)
Fixpoint skip_name_from (fuel : nat) (buf : list Z) (len pos : Z) : M unit Z :=
  if len <=? pos then mret (-1) else
  match fuel with
  | O => fault
  | S fuel =>
      c ← at_ buf pos;
      if c =? 0 then mret (pos + 1) else
      if Z.land c 0xC0 =? 0xC0 then mret (pos + 2) else
      skip_name_from fuel buf len (pos + 1 + c)
  end.
Definition dns_skip_name (buf : list Z) (len pos : Z) : M unit Z :=
  skip_name_from (Z.to_nat len) buf len pos.

(** The loop over the questions: the position behind them, or -1. *)
Fixpoint skip_questions (n : nat) (buf : list Z) (len pos : Z) : M unit Z :=
  match n with
  | O => mret pos
  | S n =>
      pos ← dns_skip_name buf len pos;
      if pos <? 0 then mret (-1) else skip_questions n buf len (pos + 4)
  end.

(** The loop over the answers: [ip_out], or nothing for -1. *)
Fixpoint find_answer (n : nat) (buf : list Z) (len pos : Z) : M unit (option (list Z)) :=
  match n with
  | O => mret None
  | S n =>
      name_end ← dns_skip_name buf len pos;
      if (name_end <? 0) || (len <? name_end + 10) then mret None else
      rtype ← at16 buf name_end;
      rdlen ← at16 buf (name_end + 8);
      let rdata := name_end + 10 in
      if rdlen =? 0 then find_answer n buf len (name_end + 10) else
      if len <? rdata + rdlen then mret None else
      if (rtype =? 1) && (rdlen =? 4) then
        a ← at_ buf rdata; b ← at_ buf (rdata + 1); c ← at_ buf (rdata + 2); d ← at_ buf (rdata + 3);
        mret (Some [a; b; c; d])
      else find_answer n buf len (rdata + rdlen)
  end.

Definition dns_parse_response (buf : list Z) (len : Z) : M unit (option (list Z)) :=
  if len <? 12 then mret None else
  flags ← at16 buf 2;
  ancount ← at16 buf 6;
  if Z.land flags 0x8000 =? 0 then mret None else
  if nz (Z.land flags 0x000F) then mret None else
  if ancount =? 0 then mret None else
  qdcount ← at16 buf 4;
  pos ← skip_questions (Z.to_nat qdcount) buf len 12;
  if pos <? 0 then mret None else
  find_answer (Z.to_nat ancount) buf len pos.

(** The test for a numeric address at the start of [dns_resolve]. *)
Definition digit (c : Z) : bool := (48 <=? c) && (c <=? 57).
Definition is_ip (hostname : list Z) : bool := forallb (λ c, digit c || (c =? DOT)) hostname.

(** A decimal number: the loops over the digits of [a], [b], [c] and [d]. *)
Fixpoint number (a : Z) (p : list Z) : Z * list Z :=
  match p with
  | c :: p' => if digit c then number (u32 (u32 (a * 10) + (c - 48))) p' else (a, p)
  | [] => (a, [])
  end.

(** The test for the dot that follows. *)
Definition expect_dot (p : list Z) : option (list Z) :=
  match p with c :: p => if c =? DOT then Some p else None | [] => None end.

Definition parse_ip (hostname : list Z) : option (list Z) :=
  let '(a, p) := number 0 hostname in
  p ← expect_dot p;
  let '(b, p) := number 0 p in
  p ← expect_dot p;
  let '(c, p) := number 0 p in
  p ← expect_dot p;
  let '(d, p) := number 0 p in
  Some [u8 a; u8 b; u8 c; u8 d].

(** ** The format of RFC 1035 *)

(** A name: labels, then the end or a pointer to the rest. *)
Inductive dname :=
  | DEnd
  | DPtr (hi lo : Z)
  | DLabel (l : list Z) (rest : dname).

Fixpoint name_ok (n : dname) : Prop :=
  match n with
  | DEnd => True
  | DPtr hi lo => 0 ≤ hi < 64 ∧ byte lo
  | DLabel l n => (1 ≤ length l ≤ 63)%nat ∧ bytes l ∧ name_ok n
  end.

Fixpoint enc_name (n : dname) : list Z :=
  match n with
  | DEnd => [0]
  | DPtr hi lo => [192 + hi; lo]
  | DLabel l n => Z.of_nat (length l) :: l ++ enc_name n
  end.

Record question := mkQuestion { q_name : dname; q_type : Z; q_class : Z }.
Definition enc_question (q : question) : list Z :=
  enc_name (q_name q) ++ be_bytes 2 (q_type q) ++ be_bytes 2 (q_class q).

Record answer := mkAnswer { a_name : dname; a_type : Z; a_class : Z; a_ttl : Z; a_data : list Z }.
Definition answer_ok (a : answer) : Prop :=
  name_ok (a_name a) ∧ 0 ≤ a_type a < 65536 ∧ bytes (a_data a) ∧ Z.of_nat (length (a_data a)) < 65536.
Definition enc_answer (a : answer) : list Z :=
  enc_name (a_name a) ++ be_bytes 2 (a_type a) ++ be_bytes 2 (a_class a) ++ be_bytes 4 (a_ttl a) ++
  be_bytes 2 (Z.of_nat (length (a_data a))) ++ a_data a.

(** A message; [m_rest] are the sections after the answers. *)
Record message := mkMessage {
  m_id : Z; m_flags : Z; m_counts : list Z; m_questions : list question; m_answers : list answer;
  m_rest : list Z }.
Definition message_ok (m : message) : Prop :=
  0 ≤ m_flags m < 65536 ∧ length (m_counts m) = 4%nat ∧
  Forall (λ q, name_ok (q_name q)) (m_questions m) ∧ Forall answer_ok (m_answers m) ∧
  Z.of_nat (length (m_questions m)) < 65536 ∧ Z.of_nat (length (m_answers m)) < 65536.
Definition enc_message (m : message) : list Z :=
  be_bytes 2 (m_id m) ++ be_bytes 2 (m_flags m) ++
  be_bytes 2 (Z.of_nat (length (m_questions m))) ++ be_bytes 2 (Z.of_nat (length (m_answers m))) ++
  m_counts m ++ concat (enc_question <$> m_questions m) ++ concat (enc_answer <$> m_answers m) ++ m_rest m.

(** An address record. *)
Definition is_address (a : answer) : bool := (a_type a =? 1) && (Z.of_nat (length (a_data a)) =? 4).
Fixpoint first_address (l : list answer) : option (list Z) :=
  match l with [] => None | a :: l => if is_address a then Some (a_data a) else first_address l end.

(** ** Reading *)

Lemma at_eq buf i : 0 ≤ i < Z.of_nat (length buf) → at_ buf i tt = Done (buf !!! Z.to_nat i) tt.
Proof.
  intros Hi. unfold at_. rewrite (proj2 (Z.ltb_ge i 0)) by lia.
  destruct (lookup_lt_is_Some_2 buf (Z.to_nat i)) as [b Hb]; [lia|].
  by rewrite Hb, (list_lookup_total_correct _ _ _ Hb).
Qed.

Lemma at_app pre b post i : i = Z.of_nat (length pre) → at_ (pre ++ b :: post) i tt = Done b tt.
Proof.
  intros ->. rewrite at_eq by (rewrite length_app; simpl; lia). by rewrite Nat2Z.id, list_lookup_total_middle.
Qed.

Lemma at16_run buf i : 0 ≤ i → i + 2 ≤ Z.of_nat (length buf) → bytes buf →
  ∃ v, at16 buf i tt = Done v tt ∧ 0 ≤ v < 65536.
Proof.
  intros Hi Hl Hb. unfold at16. rewrite (bind_done _ _ _ _ _ (at_eq buf i ltac:(lia))).
  rewrite (bind_done _ _ _ _ _ (at_eq buf (i + 1) ltac:(lia))). eexists. split; [reflexivity|].
  by apply wrap_range.
Qed.

Lemma at16_app pre v post i : i = Z.of_nat (length pre) → 0 ≤ v < 65536 →
  at16 (pre ++ be_bytes 2 v ++ post) i tt = Done v tt.
Proof.
  intros -> Hv. unfold be_bytes. change (reverse (le_bytes 2 v)) with [(v / 256) `mod` 256; v `mod` 256].
  cbn [app]. unfold at16. rewrite (bind_done _ _ _ _ _ (at_app _ _ _ _ eq_refl)).
  rewrite (bind_done (at_ _ _) _ _ (v `mod` 256) tt).
  2: { rewrite (cons_middle ((v / 256) `mod` 256)), app_assoc. apply at_app. rewrite length_app. simpl. lia. }
  apply (f_equal (λ x, Done x tt)). rewrite Z.lor_comm, lor_shift by (change (2 ^ 8) with 256; Z.div_mod_to_equations; lia).
  change (2 ^ 8) with 256. rewrite wrap_small; [|change (2 ^ 16) with 65536]; Z.div_mod_to_equations; lia.
Qed.

Lemma take_4 (l : list Z) o : (o + 4 ≤ length l)%nat →
  take 4 (drop o l) = [l !!! o; l !!! (o + 1)%nat; l !!! (o + 2)%nat; l !!! (o + 3)%nat].
Proof.
  intros Hl. rewrite <-(Nat.add_0_r o) at 2. rewrite <-!lookup_total_drop.
  destruct (drop o l) as [|a [|b [|c [|d l']]]] eqn:E; [..|done];
    apply (f_equal length) in E; rewrite length_drop in E; simpl in E; lia.
Qed.

(** ** Safety *)

Section Safe.
Context (buf : list Z) (len : Z) (Hb : bytes buf) (Hlen : len ≤ Z.of_nat (length buf)).

Lemma byte_at i : 0 ≤ i < Z.of_nat (length buf) → byte (buf !!! Z.to_nat i).
Proof.
  intros Hi. apply (list.Forall_forall byte buf); [done|]. apply list_elem_of_lookup_total_2. lia.
Qed.

Lemma skip_name_safe fuel pos : 0 ≤ pos → len - pos ≤ Z.of_nat fuel →
  ∃ r, skip_name_from fuel buf len pos tt = Done r tt ∧ (r = -1 ∨ pos < r).
Proof.
  revert pos. induction fuel as [|fuel IH]; intros pos Hp Hf; cbn [skip_name_from];
    (destruct (Z.leb_spec len pos); [by exists (-1); split; [|left]|]); [lia|].
  rewrite (bind_done _ _ _ _ _ (at_eq buf pos ltac:(lia))). set (c := buf !!! _).
  assert (byte c) as Hc by (apply byte_at; lia). unfold byte in Hc.
  destruct (c =? 0); [exists (pos + 1); split; [done|lia]|].
  destruct (_ =? 0xC0); [exists (pos + 2); split; [done|lia]|].
  destruct (IH (pos + 1 + c)) as (r & E & Hr); [lia|lia|]. exists r. split; [done|lia].
Qed.

Lemma dns_skip_name_safe pos : 0 ≤ pos →
  ∃ r, dns_skip_name buf len pos tt = Done r tt ∧ (r = -1 ∨ pos < r).
Proof. intros Hp. apply skip_name_safe; lia. Qed.

Lemma skip_questions_safe n pos : 0 ≤ pos →
  ∃ r, skip_questions n buf len pos tt = Done r tt ∧ (r = -1 ∨ 0 ≤ r).
Proof.
  revert pos. induction n as [|n IH]; intros pos Hp; cbn [skip_questions]; [exists pos; split; [done|lia]|].
  destruct (dns_skip_name_safe pos Hp) as (r & E & Hr). rewrite (bind_done _ _ _ _ _ E).
  destruct (Z.ltb_spec r 0); [exists (-1); split; [done|lia]|]. apply IH. lia.
Qed.

Lemma find_answer_safe n pos : 0 ≤ pos →
  ∃ r, find_answer n buf len pos tt = Done r tt ∧
    ∀ ip, r = Some ip → ∃ o, (o + 4 ≤ Z.to_nat len)%nat ∧ ip = take 4 (drop o buf).
Proof.
  revert pos. induction n as [|n IH]; intros pos Hp; cbn [find_answer]; [by exists None|].
  destruct (dns_skip_name_safe pos Hp) as (e & E & He). rewrite (bind_done _ _ _ _ _ E).
  destruct (Z.ltb_spec e 0); [by exists None|]. destruct (Z.ltb_spec len (e + 10)); [by exists None|]. cbn [orb].
  destruct (at16_run buf e) as (t & Et & _); [lia|lia|done|]. rewrite (bind_done _ _ _ _ _ Et).
  destruct (at16_run buf (e + 8)) as (d & Ed & Hd); [lia|lia|done|]. rewrite (bind_done _ _ _ _ _ Ed).
  destruct (d =? 0); [apply IH; lia|]. destruct (Z.ltb_spec len (e + 10 + d)); [by exists None|].
  destruct ((t =? 1) && (d =? 4)) eqn:Ea; [|apply IH; lia].
  apply andb_true_iff in Ea as [_ Hd4%Z.eqb_eq]. subst d.
  rewrite (bind_done _ _ _ _ _ (at_eq buf (e + 10) ltac:(lia))), (bind_done _ _ _ _ _ (at_eq buf (e + 10 + 1) ltac:(lia))),
    (bind_done _ _ _ _ _ (at_eq buf (e + 10 + 2) ltac:(lia))), (bind_done _ _ _ _ _ (at_eq buf (e + 10 + 3) ltac:(lia))).
  eexists. split; [reflexivity|]. intros ip [= <-]. exists (Z.to_nat (e + 10)). split; [lia|].
  rewrite !(Z2Nat.inj_add (e + 10)) by lia. by rewrite take_4 by lia.
Qed.
End Safe.

(** ** Well-formed messages *)

Lemma pointer_tag hi : 0 ≤ hi < 64 → (192 + hi =? 0) = false ∧ (Z.land (192 + hi) 0xC0 =? 0xC0) = true.
Proof.
  intros Hhi. split; [apply Z.eqb_neq; lia|].
  assert (forallb (λ h, Z.land (192 + h) 0xC0 =? 0xC0) (seqZ 0 64) = true) as Hall by (by vm_compute).
  rewrite forallb_forall in Hall. apply Hall, list_elem_of_In, elem_of_seqZ. lia.
Qed.

Lemma label_tag n : (1 ≤ n ≤ 63)%nat →
  (Z.of_nat n =? 0) = false ∧ (Z.land (Z.of_nat n) 0xC0 =? 0xC0) = false.
Proof.
  intros Hn. split; [apply Z.eqb_neq; lia|].
  assert (forallb (λ h, negb (Z.land h 0xC0 =? 0xC0)) (seqZ 1 63) = true) as Hall by (by vm_compute).
  rewrite forallb_forall in Hall. apply negb_true_iff, Hall, list_elem_of_In, elem_of_seqZ. lia.
Qed.

Lemma enc_name_length n : (1 ≤ length (enc_name n))%nat.
Proof. destruct n; simpl; lia. Qed.

Abbreviation len_ l := (Z.of_nat (length l)).

Lemma skip_name_enc n : ∀ pre post fuel len,
  name_ok n → len_ pre + len_ (enc_name n) ≤ len → len - len_ pre ≤ Z.of_nat fuel →
  skip_name_from fuel (pre ++ enc_name n ++ post) len (len_ pre) tt = Done (len_ pre + len_ (enc_name n)) tt.
Proof.
  induction n as [|hi lo|l n IH]; intros pre post fuel len Hok Hl Hf;
    (destruct fuel as [|fuel];
     [match type of Hl with context [enc_name ?x] => pose proof (enc_name_length x) end; lia|]);
    simpl length in Hl; cbn [skip_name_from enc_name];
    rewrite (proj2 (Z.leb_gt len (len_ pre))) by lia; cbn [app]; rewrite (bind_done _ _ _ _ _ (at_app _ _ _ _ eq_refl)).
  - done.
  - destruct Hok as [Hhi _]. destruct (pointer_tag hi Hhi) as [-> ->]. done.
  - destruct Hok as (Hlen & _ & Hn). destruct (label_tag _ Hlen) as [-> ->].
    replace (pre ++ len_ l :: (l ++ enc_name n) ++ post) with ((pre ++ len_ l :: l) ++ enc_name n ++ post)
      by (rewrite <-(app_assoc pre), <-(app_assoc l); done).
    rewrite length_app in Hl.
    replace (len_ pre + 1 + len_ l) with (len_ (pre ++ len_ l :: l)) by (rewrite length_app; simpl; lia).
    rewrite IH; [|done|rewrite length_app; simpl; lia|rewrite length_app; simpl; lia].
    f_equal. rewrite !length_app. simpl. rewrite length_app. lia.
Qed.

Lemma dns_skip_name_enc n pre post len : name_ok n → len_ pre + len_ (enc_name n) ≤ len →
  dns_skip_name (pre ++ enc_name n ++ post) len (len_ pre) tt = Done (len_ pre + len_ (enc_name n)) tt.
Proof. intros Hok Hl. apply skip_name_enc; [done|done|lia]. Qed.

Lemma skip_questions_enc qs : ∀ pre post len, Forall (λ q, name_ok (q_name q)) qs →
  len_ pre + len_ (concat (enc_question <$> qs)) ≤ len →
  skip_questions (length qs) (pre ++ concat (enc_question <$> qs) ++ post) len (len_ pre) tt =
  Done (len_ pre + len_ (concat (enc_question <$> qs))) tt.
Proof.
  induction qs as [|q qs IH]; intros pre post len Hok Hl; cbn [length skip_questions fmap list_fmap concat] in *.
  - by rewrite Z.add_0_r.
  - apply list.Forall_cons in Hok as [Hq Hqs]. unfold enc_question at 1 in Hl. unfold enc_question at 1 3.
    rewrite !length_app, !length_be_bytes in Hl. rewrite <-!app_assoc.
    rewrite (bind_done _ _ _ _ _ (dns_skip_name_enc (q_name q) pre _ len Hq ltac:(lia))).
    rewrite (proj2 (Z.ltb_ge _ 0)) by lia.
    set (t := be_bytes 2 (q_type q) ++ be_bytes 2 (q_class q)). assert (length t = 4%nat) as Ht by done.
    replace (pre ++ enc_name (q_name q) ++ be_bytes 2 (q_type q) ++ be_bytes 2 (q_class q) ++ concat (enc_question <$> qs) ++ post)
      with ((pre ++ enc_name (q_name q) ++ t) ++ concat (enc_question <$> qs) ++ post)
      by (unfold t; by rewrite <-!app_assoc).
    replace (len_ pre + len_ (enc_name (q_name q)) + 4) with (len_ (pre ++ enc_name (q_name q) ++ t))
      by (rewrite !length_app, Ht; lia).
    rewrite IH; [|done|rewrite !length_app, Ht; lia]. f_equal. unfold enc_question at 2.
    rewrite !length_app, Ht, !length_be_bytes. lia.
Qed.

(** One round of [find_answer] on an answer. *)
Lemma find_answer_enc a n pre post len : answer_ok a → len_ pre + len_ (enc_answer a) ≤ len →
  let buf := pre ++ enc_answer a ++ post in
  len ≤ len_ buf →
  find_answer (S n) buf len (len_ pre) tt =
  if is_address a then Done (Some (a_data a)) tt
  else find_answer n buf len (len_ (pre ++ enc_answer a)) tt.
Proof.
  intros (Hn & Ht & Hd & Hdl) Hl buf Hlb. cbn [find_answer].
  set (nm := enc_name (a_name a)) in *. set (fixed := be_bytes 2 (a_type a) ++ be_bytes 2 (a_class a) ++ be_bytes 4 (a_ttl a)).
  assert (length fixed = 8%nat) as Hfx by done.
  assert (len_ (enc_answer a) = len_ nm + 10 + len_ (a_data a)) as Hea
    by (unfold enc_answer; rewrite !length_app, !length_be_bytes; fold nm; lia).
  assert (buf = pre ++ nm ++ be_bytes 2 (a_type a) ++ (be_bytes 2 (a_class a) ++ be_bytes 4 (a_ttl a) ++
    be_bytes 2 (len_ (a_data a)) ++ a_data a ++ post)) as E1 by (unfold buf, enc_answer; by rewrite <-!app_assoc).
  assert (buf = (pre ++ nm ++ fixed) ++ be_bytes 2 (len_ (a_data a)) ++ (a_data a ++ post)) as E2
    by (rewrite E1; unfold fixed; by rewrite <-!app_assoc).
  assert (buf = (pre ++ nm ++ fixed ++ be_bytes 2 (len_ (a_data a))) ++ a_data a ++ post) as E3
    by (rewrite E2; by rewrite <-!app_assoc).
  rewrite (bind_done (dns_skip_name buf len (len_ pre)) _ _ (len_ pre + len_ nm) tt).
  2: { rewrite E1. apply dns_skip_name_enc; [done|]. fold nm. lia. }
  rewrite (proj2 (Z.ltb_ge _ 0)), (proj2 (Z.ltb_ge len _)) by lia. cbn [orb].
  rewrite (bind_done (at16 buf _) _ _ (a_type a) tt).
  2: { rewrite E1, app_assoc. apply at16_app; [rewrite length_app; lia|done]. }
  rewrite (bind_done (at16 buf _) _ _ (len_ (a_data a)) tt).
  2: { rewrite E2. apply at16_app; [rewrite !length_app, Hfx; lia|lia]. }
  replace (len_ pre + len_ nm + 10) with (len_ pre + (len_ nm + 10)) by lia.
  assert (len_ (pre ++ enc_answer a) = len_ pre + (len_ nm + 10) + len_ (a_data a)) as Hend by (rewrite length_app; lia).
  rewrite Hend. unfold is_address. destruct (Z.eqb_spec (len_ (a_data a)) 0) as [E0|E0].
  { rewrite E0, andb_false_r. by rewrite Z.add_0_r. }
  rewrite (proj2 (Z.ltb_ge len _)) by lia.
  destruct (a_type a =? 1); [|done]. cbn [andb]. destruct (Z.eqb_spec (len_ (a_data a)) 4) as [E4|]; [|done].
  set (q := pre ++ nm ++ fixed ++ be_bytes 2 (len_ (a_data a))) in E3.
  assert (len_ pre + (len_ nm + 10) = len_ q) as -> by (unfold q; rewrite !length_app, Hfx, length_be_bytes; lia).
  assert (len_ q + 4 ≤ len_ buf) as Hqb by (rewrite E3, !length_app; lia).
  rewrite (bind_done _ _ _ _ _ (at_eq buf (len_ q) ltac:(lia))), (bind_done _ _ _ _ _ (at_eq buf (len_ q + 1) ltac:(lia))),
    (bind_done _ _ _ _ _ (at_eq buf (len_ q + 2) ltac:(lia))), (bind_done _ _ _ _ _ (at_eq buf (len_ q + 3) ltac:(lia))).
  rewrite !(Z2Nat.inj_add (len_ q)), !Nat2Z.id by lia.
  apply (f_equal (λ l, Done (Some l) tt)). etransitivity; [symmetry; apply take_4; lia|].
  by rewrite E3, drop_app_length, take_app_length' by lia.
Qed.

Lemma find_answers_enc l : ∀ pre post len, Forall answer_ok l →
  len_ pre + len_ (concat (enc_answer <$> l)) ≤ len →
  let buf := pre ++ concat (enc_answer <$> l) ++ post in len ≤ len_ buf →
  find_answer (length l) buf len (len_ pre) tt = Done (first_address l) tt.
Proof.
  induction l as [|a l IH]; intros pre post len Hok Hl buf Hb; [done|]. unfold buf in *. clear buf.
  cbn [fmap list_fmap concat length first_address] in *.
  apply list.Forall_cons in Hok as [Ha Hok]. rewrite length_app in Hl.
  rewrite <-(app_assoc (enc_answer a)) in Hb |- *. rewrite find_answer_enc; [|done|lia|done]. destruct (is_address a); [done|].
  rewrite app_assoc. apply IH; [done|rewrite length_app; lia|]. rewrite <-app_assoc. done.
Qed.

Lemma flags_test f : 0 ≤ f < 65536 → Z.testbit f 15 = true → f `mod` 16 = 0 →
  (Z.land f 0x8000 =? 0) = false ∧ nz (Z.land f 0x000F) = false.
Proof.
  intros Hf Hb Hm. split.
  - apply Z.eqb_neq. intros E. apply (f_equal (λ x, Z.testbit x 15)) in E.
    rewrite Z.land_spec, Hb, Z.bits_0 in E. done.
  - apply nz_false. change 0x000F with (Z.ones 4). by rewrite Z.land_ones.
Qed.

Lemma dns_parse_enc m tail : message_ok m → Z.testbit (m_flags m) 15 = true → m_flags m `mod` 16 = 0 →
  m_answers m ≠ [] →
  dns_parse_response (enc_message m ++ tail) (len_ (enc_message m)) tt = Done (first_address (m_answers m)) tt.
Proof.
  intros (Hf & Hc & Hq & Ha & Hnq & Hna) Hb Hm Hne. destruct (flags_test _ Hf Hb Hm) as [T1 T2].
  set (h := be_bytes 2 (m_id m) ++ be_bytes 2 (m_flags m) ++ be_bytes 2 (len_ (m_questions m)) ++
    be_bytes 2 (len_ (m_answers m)) ++ m_counts m).
  assert (length h = 12%nat) as Hh by (unfold h; rewrite !length_app, !length_be_bytes; lia).
  set (qs := concat (enc_question <$> m_questions m)). set (ans := concat (enc_answer <$> m_answers m)).
  assert (enc_message m = h ++ qs ++ ans ++ m_rest m) as Em by (unfold enc_message, h; by rewrite <-!app_assoc).
  set (buf := enc_message m ++ tail). set (len := len_ (enc_message m)).
  assert (len = 12 + len_ qs + len_ ans + len_ (m_rest m)) as Hlen by (unfold len; rewrite Em, !length_app; lia).
  assert (len ≤ len_ buf) as Hlb by (unfold buf, len; rewrite length_app; lia).
  unfold dns_parse_response. rewrite (proj2 (Z.ltb_ge len 12)) by lia.
  rewrite (bind_done (at16 buf 2) _ _ (m_flags m) tt).
  2: { unfold buf, enc_message. rewrite <-!app_assoc. apply at16_app; [done|lia]. }
  rewrite (bind_done (at16 buf 6) _ _ (len_ (m_answers m)) tt).
  2: { unfold buf, enc_message. rewrite <-!app_assoc.
       rewrite (app_assoc (be_bytes 2 (m_id m))), (app_assoc (_ ++ _) (be_bytes 2 (len_ (m_questions m)))).
       apply at16_app; [done|lia]. }
  rewrite T1, T2, (proj2 (Z.eqb_neq (len_ (m_answers m)) 0)) by (destruct (m_answers m); [done|simpl; lia]).
  rewrite (bind_done (at16 buf 4) _ _ (len_ (m_questions m)) tt).
  2: { unfold buf, enc_message. rewrite <-!app_assoc. rewrite (app_assoc (be_bytes 2 (m_id m))).
       apply at16_app; [done|lia]. }
  rewrite !Nat2Z.id. change 12 with (Z.of_nat 12). rewrite <-Hh.
  assert (buf = h ++ qs ++ (ans ++ m_rest m ++ tail)) as E1 by (unfold buf; rewrite Em; by rewrite <-!app_assoc).
  rewrite (bind_done _ _ _ (len_ h + len_ qs) tt).
  2: { rewrite E1. apply skip_questions_enc; [done|]. fold qs. lia. }
  rewrite (proj2 (Z.ltb_ge _ 0)) by lia.
  replace (len_ h + len_ qs) with (len_ (h ++ qs)) by (rewrite length_app; lia).
  assert (buf = (h ++ qs) ++ ans ++ (m_rest m ++ tail)) as E2 by (rewrite E1; by rewrite <-!app_assoc).
  rewrite E2. apply find_answers_enc; [done|fold ans; rewrite length_app; lia|]. fold ans. by rewrite <-E2.
Qed.

(** On any bytes the parser returns, with four bytes of the message if with anything. *)
Lemma dns_parse_safe buf len : bytes buf → len ≤ Z.of_nat (length buf) →
  ∃ r, dns_parse_response buf len tt = Done r tt ∧
     ∀ ip, r = Some ip → ∃ o, (o + 4 ≤ Z.to_nat len)%nat ∧ ip = take 4 (drop o buf).
Proof.
  intros Hb Hl. unfold dns_parse_response.
  destruct (Z.ltb_spec len 12); [by exists None|].
  destruct (at16_run buf 2) as (f & Ef & _); [lia|lia|done|]. rewrite (bind_done _ _ _ _ _ Ef).
  destruct (at16_run buf 6) as (an & Ea & _); [lia|lia|done|]. rewrite (bind_done _ _ _ _ _ Ea).
  destruct (_ =? 0); [by exists None|]. destruct (nz _); [by exists None|]. destruct (_ =? 0); [by exists None|].
  destruct (at16_run buf 4) as (qd & Eq & _); [lia|lia|done|]. rewrite (bind_done _ _ _ _ _ Eq).
  destruct (skip_questions_safe buf len Hb Hl (Z.to_nat qd) 12) as (p & Ep & Hp); [lia|].
  rewrite (bind_done _ _ _ _ _ Ep). destruct (Z.ltb_spec p 0); [by exists None|].
  apply find_answer_safe; [done|done|lia].
Qed.

(** C27: The response parser.  On any bytes it returns without reading outside
    the [len] bytes of the message, and an address it returns is four bytes of
    the message.  On a message in the format of RFC 1035 that answers without
    error it returns the data of the first address record, whatever questions
    and other records surround it. *)
Theorem dns_parse_correct buf len m tail :
  bytes buf → len ≤ Z.of_nat (length buf) →
  message_ok m → Z.testbit (m_flags m) 15 = true → m_flags m `mod` 16 = 0 → m_answers m ≠ [] →
  (∃ r, dns_parse_response buf len tt = Done r tt ∧
     ∀ ip, r = Some ip → ∃ o, (o + 4 ≤ Z.to_nat len)%nat ∧ ip = take 4 (drop o buf)) ∧
  dns_parse_response (enc_message m ++ tail) (Z.of_nat (length (enc_message m))) tt
    = Done (first_address (m_answers m)) tt.
Proof.
  intros Hb Hl Hm Hf He Ha. split; [by apply dns_parse_safe|by apply dns_parse_enc].
Qed.

(** A response with a question, an alias and an address. *)
Definition example_message : message :=
  mkMessage 0x1337 0x8180 [0; 0; 0; 0]
    [mkQuestion (DLabel [119; 119; 119] (DLabel [97; 98] DEnd)) 1 1]
    [mkAnswer (DPtr 0 12) 5 1 300 (enc_name (DLabel [97; 98] DEnd));
     mkAnswer (DLabel [97; 98] DEnd) 1 1 300 [10; 20; 30; 40]] [].

Lemma dns_parse_correct_witness :
  (∃ r, dns_parse_response [1; 2; 3] 3 tt = Done r tt ∧
     ∀ ip, r = Some ip → ∃ o, (o + 4 ≤ Z.to_nat 3)%nat ∧ ip = take 4 (drop o [1; 2; 3])) ∧
  dns_parse_response (enc_message example_message ++ [7]) (Z.of_nat (length (enc_message example_message))) tt
    = Done (Some [10; 20; 30; 40]) tt.
Proof.
  apply (dns_parse_correct [1; 2; 3] 3 example_message [7]); try done; [repeat constructor; done|].
  repeat (split || constructor); vm_compute; intuition congruence.
Defined.

(** ** Queries *)

Fixpoint join (ls : list (list Z)) : list Z :=
  match ls with [] => [] | [l] => l | l :: ls => l ++ DOT :: join ls end.

Definition host_label (l : list Z) : Prop := (1 ≤ length l ≤ 63)%nat ∧ bytes l ∧ DOT ∉ l.

Fixpoint host_name (ls : list (list Z)) : dname :=
  match ls with [] => DEnd | l :: ls => DLabel l (host_name ls) end.

Lemma puts_eq size l buf : bytes l → Z.of_nat (length buf + length l) ≤ size → puts size l buf = Done tt (buf ++ l).
Proof.
  revert buf. induction l as [|b l IH]; intros buf Hl Hs; cbn [puts]; [by rewrite app_nil_r|].
  apply list.Forall_cons in Hl as [Hb Hl]. cbn [length] in Hs.
  rewrite (bind_done (put size b) _ _ tt (buf ++ [b])).
  - rewrite IH; [by rewrite <-app_assoc|done|rewrite length_app; simpl; lia].
  - unfold put. rewrite (proj2 (Z.ltb_lt _ _)) by lia. by rewrite u8_byte.
Qed.

Lemma label_eq l rest : DOT ∉ l → label (l ++ DOT :: rest) = l ∧ label l = l.
Proof.
  induction l as [|c l IH]; intros Hl; [done|]. apply not_elem_of_cons in Hl as [Hc Hl].
  cbn [app label]. rewrite (proj2 (Z.eqb_neq c DOT)) by congruence. destruct (IH Hl) as [-> ->]. done.
Qed.

Lemma join_cons l ls : ls ≠ [] → join (l :: ls) = l ++ DOT :: join ls.
Proof. by destruct ls. Qed.

(** The labels without the end of the name. *)
Definition enc_labels (ls : list (list Z)) : list Z := concat ((λ l, len_ l :: l) <$> ls).

Lemma put_labels_eq ls : ∀ fuel size buf, Forall host_label ls → (length ls ≤ fuel)%nat →
  len_ buf + len_ (enc_labels ls) ≤ size →
  put_labels fuel size (join ls) buf = Done true (buf ++ enc_labels ls).
Proof.
  induction ls as [|l ls IH]; intros fuel size buf Hok Hf Hs.
  { unfold enc_labels. simpl. rewrite app_nil_r. by destruct fuel. }
  apply list.Forall_cons in Hok as [(Hl & Hb & Hd) Hok]. destruct fuel as [|fuel]; [simpl in Hf; lia|].
  unfold enc_labels in Hs |- *. cbn [fmap list_fmap concat] in Hs |- *. fold (enc_labels ls) in Hs |- *.
  rewrite length_app in Hs. cbn [length] in Hs.
  assert (label (join (l :: ls)) = l ∧ join (l :: ls) ≠ [] ∧
    match drop (length l) (join (l :: ls)) with
    | c :: p' => if c =? DOT then p' else drop (length l) (join (l :: ls))
    | [] => drop (length l) (join (l :: ls)) end = join ls) as (E1 & E2 & E3).
  { destruct (label_eq l (join ls) Hd) as [L1 L2]. destruct (decide (ls = [])) as [->|Hne].
    - cbn [join]. rewrite drop_all. split_and!; [done| |done]. intros ->. simpl in Hl. lia.
    - rewrite join_cons by done. rewrite drop_app_length. split_and!; [done| |done]. destruct l; simpl in *; [lia|done]. }
  cbn [put_labels]. destruct (join (l :: ls)) as [|c p] eqn:Ej; [done|]. rewrite E1.
  rewrite (proj2 (Z.eqb_neq (len_ l) 0)), (proj2 (Z.ltb_ge 63 (len_ l))) by lia. cbn [orb].
  rewrite (bind_done (put size (len_ l)) _ _ tt (buf ++ [len_ l])).
  2: { unfold put. rewrite (proj2 (Z.ltb_lt _ _)) by lia. rewrite u8_byte; [done|unfold byte; lia]. }
  rewrite (bind_done _ _ _ _ _ (puts_eq size l (buf ++ [len_ l]) Hb ltac:(rewrite length_app; simpl; lia))).
  cbv zeta. rewrite E3. rewrite IH; [|done|simpl in Hf; lia|rewrite !length_app; simpl; lia].
  by rewrite <-!app_assoc.
Qed.

Lemma enc_host_name ls : enc_name (host_name ls) = enc_labels ls ++ [0].
Proof.
  induction ls as [|l ls IH]; [done|]. cbn [host_name enc_name]. rewrite IH.
  unfold enc_labels. cbn [fmap list_fmap concat]. by rewrite <-app_assoc.
Qed.

Lemma join_length ls : Forall host_label ls → (length ls ≤ length (join ls))%nat.
Proof.
  induction ls as [|l ls IH]; intros Hok; [simpl; lia|].
  apply list.Forall_cons in Hok as [(Hl & _) Hok]. specialize (IH Hok). destruct ls as [|l' ls]; [simpl in *; lia|].
  rewrite join_cons by done. rewrite length_app. cbn [length] in *. lia.
Qed.

(** The message with one question for the address of a name. *)
Definition address_query (txid : Z) (ls : list (list Z)) : list Z :=
  enc_message (mkMessage txid 0x0100 [0; 0; 0; 0] [mkQuestion (host_name ls) 1 1] [] []).

(** The buffer has room for names of up to 495 bytes, encoded. *)
Lemma dns_build_query_eq txid ls : 0 ≤ txid < 65536 → Forall host_label ls → len_ (enc_labels ls) ≤ 495 →
  dns_build_query 512 txid (join ls) [] = Done (len_ (address_query txid ls)) (address_query txid ls).
Proof.
  intros Ht Hok Hl. unfold dns_build_query. change (512 <? 512) with false. cbv iota.
  set (h := [Z.shiftr txid 8; Z.land txid 0xFF; 1; 0; 0; 1; 0; 0; 0; 0; 0; 0]).
  assert (h = be_bytes 2 txid ++ [1; 0; 0; 1; 0; 0; 0; 0; 0; 0]) as Eh.
  { unfold h, be_bytes. change (reverse (le_bytes 2 txid)) with [(txid / 256) `mod` 256; txid `mod` 256].
    change 0xFF with (Z.ones 8). rewrite Z.land_ones, Z.shiftr_div_pow2 by lia. change (2 ^ 8) with 256.
    cbn [app]. f_equal. symmetry. apply Z.mod_small. Z.div_mod_to_equations. lia. }
  assert (bytes h) as Hh by (rewrite Eh; apply list.Forall_app; split; [apply bytes_be_bytes|by repeat constructor]).
  rewrite (bind_done _ _ _ _ _ (puts_eq 512 h [] Hh ltac:(simpl; lia))). cbn [app].
  rewrite (bind_done _ _ _ _ _ (put_labels_eq ls (length (join ls)) 512 h Hok (join_length ls Hok) ltac:(simpl; lia))).
  cbn [negb]. erewrite bind_done; [|apply puts_eq; [by repeat constructor|rewrite length_app; simpl; lia]].
  assert ((h ++ enc_labels ls) ++ [0; 0; 1; 0; 1] = address_query txid ls) as ->; [|done].
  unfold address_query, enc_message. cbn [m_id m_flags m_questions m_answers m_counts m_rest fmap list_fmap concat length].
  unfold enc_question. cbn [q_name q_type q_class]. rewrite enc_host_name, Eh.
  change (be_bytes 2 256) with [1; 0]. change (be_bytes 2 (Z.of_nat 1)) with [0; 1].
  change (be_bytes 2 (Z.of_nat 0)) with [0; 0]. change (be_bytes 2 1) with [0; 1].
  by rewrite !app_nil_r, <-!app_assoc.
Qed.

(** A longer name overruns the buffer. *)
Example dns_build_query_overflow :
  dns_build_query 512 1 (join (replicate 10 (replicate 60 97))) [] = Fault.
Proof. vm_compute. reflexivity. Qed.

(** ** Numeric addresses *)

Definition decimal (n : Z) : list Z :=
  if n <? 10 then [48 + n] else
  if n <? 100 then [48 + n / 10; 48 + n `mod` 10] else
  [48 + n / 100; 48 + (n / 10) `mod` 10; 48 + n `mod` 10].

Definition dotted (a b c d : Z) : list Z :=
  decimal a ++ DOT :: decimal b ++ DOT :: decimal c ++ DOT :: decimal d.

Lemma number_app ds a p : forallb digit ds = true → match p with c :: _ => digit c = false | [] => True end →
  number a (ds ++ p) = ((number a ds).1, p).
Proof.
  revert a. induction ds as [|c ds IH]; intros a Hd Hp; cbn [app number].
  - destruct p as [|c p]; [done|]. cbn [number]. by rewrite Hp.
  - cbn [forallb] in Hd. apply andb_true_iff in Hd as [Hc Hd]. rewrite Hc. by apply IH.
Qed.

Lemma decimal_ok n : byte n → forallb digit (decimal n) = true ∧ (number 0 (decimal n)).1 = n.
Proof.
  intros Hn. unfold byte in Hn.
  assert (forallb (λ n, forallb digit (decimal n) && ((number 0 (decimal n)).1 =? n)) (seqZ 0 256) = true) as Hall
    by (by vm_compute).
  rewrite forallb_forall in Hall. specialize (Hall n).
  rewrite andb_true_iff, Z.eqb_eq in Hall. apply Hall, list_elem_of_In, elem_of_seqZ. lia.
Qed.

Lemma parse_ip_dotted a b c d : byte a → byte b → byte c → byte d →
  is_ip (dotted a b c d) = true ∧ parse_ip (dotted a b c d) = Some [a; b; c; d].
Proof.
  intros Ha Hb Hc Hd. destruct (decimal_ok a Ha) as [Fa Na], (decimal_ok b Hb) as [Fb Nb],
    (decimal_ok c Hc) as [Fc Nc], (decimal_ok d Hd) as [Fd Nd].
  assert (∀ l, forallb digit l = true → forallb (λ c, digit c || (c =? DOT)) l = true) as Hw.
  { intros l. rewrite !forallb_forall. intros Hl x Hx. by rewrite Hl. }
  split.
  - unfold is_ip, dotted. rewrite forallb_app. cbn [forallb]. rewrite forallb_app. cbn [forallb].
    rewrite forallb_app. cbn [forallb]. by rewrite !Hw.
  - unfold parse_ip, dotted. rewrite number_app by done. cbn [expect_dot]. change (DOT =? DOT) with true. cbn.
    rewrite number_app by done. cbn. rewrite number_app by done. cbn.
    rewrite <-(app_nil_r (decimal d)), number_app by done. cbn. rewrite Na, Nb, Nc, Nd. by rewrite !u8_byte.
Qed.
