(* ===== verification/Net.v ===== *)
(** * The network stack

    Models [drivers/net/net.c]: the ARP cache, sending and receiving of Ethernet,
    ARP, IP, UDP and TCP packets, the TCP connections and [dns_resolve].  The
    network card is the interface [Nic].  Handling a packet may send one, which
    may have to resolve an address, which polls the card again: the handlers
    take the function that polls as an argument, and [net_poll] ties the knot. *)

From S2P Require Import Prelude Bytes NetSum Dns.

(** ** The card

    [e1000_receive_packet] gives the next frame, if there is one; [net_rand] is
    the [rand] that [simple_rand_seq] calls. *)
Class Nic := {
  nic : Type;
  e1000_send_packet : list Z → nic → Z * nic;
  e1000_receive_packet : nic → option (list Z) * nic;
  e1000_get_mac_address : nic → list Z;
  net_rand : nic → Z * nic }.

(** ** Constants and types *)

Definition ETH_TYPE_IP : Z := 0x0800.
Definition ETH_TYPE_ARP : Z := 0x0806.
Definition ARP_OP_REQUEST : Z := 1.
Definition ARP_OP_REPLY : Z := 2.
Definition ARP_CACHE_SIZE : nat := 16.
Definition SCRATCH_SIZE : Z := 2048.
Definition DNS_LOCAL_PORT : Z := 53000.
Definition DNS_PORT : Z := 53.
Definition DNS_BUF_SIZE : Z := 512.
Definition DNS_SERVER_IP : list Z := [8; 8; 8; 8].
Definition TCP_FLAG_FIN : Z := 1.
Definition TCP_FLAG_SYN : Z := 2.
Definition TCP_FLAG_PSH : Z := 8.
Definition TCP_FLAG_ACK : Z := 16.
Definition TCP_RX_BUF_SIZE : Z := 256 * 1024.
Definition MAX_TCP_CONNS : Z := 8.
Definition bcast_mac : list Z := [0xFF; 0xFF; 0xFF; 0xFF; 0xFF; 0xFF].

(** [sizeof] of the packed headers. *)
Definition sizeof_eth : Z := 14.
Definition sizeof_arp : Z := 28.
Definition sizeof_ip : Z := 20.
Definition sizeof_tcp : Z := 20.
Definition sizeof_udp : Z := 8.

Record arp_entry := mkArp { ae_ip : list Z; ae_mac : list Z; ae_valid : bool }.

Inductive tcp_state :=
  | TCP_STATE_CLOSED | TCP_STATE_SYN_SENT | TCP_STATE_ESTABLISHED
  | TCP_STATE_FIN_WAIT | TCP_STATE_CLOSE_WAIT | TCP_STATE_TIME_WAIT.
#[global] Instance tcp_state_eq : EqDecision tcp_state.
Proof. solve_decision. Defined.

(** [tcp_conn_t]; [remote_window] is never used.  Bytes of [rx_buf] that have not
    been written are 0. *)
Record tcp_conn := mkConn {
  cstate : tcp_state; remote_ip : list Z; remote_port : Z; local_port : Z;
  cseq : Z; cack : Z; rx_buf : gmap Z Z; rx_head : Z; rx_tail : Z; rx_avail : Z;
  fin_received : bool }.
#[global] Instance tcp_conn_eta : Etable tcp_conn := λ c,
  mkConn (cstate c) (remote_ip c) (remote_port c) (local_port c) (cseq c) (cack c) (rx_buf c)
    (rx_head c) (rx_tail c) (rx_avail c) (fin_received c).
#[global] Instance tcp_conn_inhabited : Inhabited tcp_conn :=
  populate (mkConn TCP_STATE_CLOSED [] 0 0 0 0 ∅ 0 0 0 false).

(** [memset(c, 0, sizeof( *c))] *)
Definition zero_conn : tcp_conn := mkConn TCP_STATE_CLOSED [0; 0; 0; 0] 0 0 0 0 ∅ 0 0 0 false.

(** ** The ARP cache *)

Definition is_entry (ip : list Z) (e : arp_entry) : bool := ae_valid e && bool_decide (ae_ip e = ip).

Fixpoint cache_update (ip mac : list Z) (l : list arp_entry) : option (list arp_entry) :=
  match l with
  | [] => None
  | e :: l =>
      if is_entry ip e then Some (mkArp (ae_ip e) mac (ae_valid e) :: l)
      else (e ::.) <$> cache_update ip mac l
  end.
Fixpoint cache_fill (ip mac : list Z) (l : list arp_entry) : option (list arp_entry) :=
  match l with
  | [] => None
  | e :: l => if negb (ae_valid e) then Some (mkArp ip mac true :: l) else (e ::.) <$> cache_fill ip mac l
  end.

Definition arp_cache_put (ip mac : list Z) (l : list arp_entry) : list arp_entry :=
  match cache_update ip mac l with
  | Some l' => l'
  | None => match cache_fill ip mac l with Some l' => l' | None => l end
  end.

Fixpoint arp_cache_get (ip : list Z) (l : list arp_entry) : option (list Z) :=
  match l with [] => None | e :: l => if is_entry ip e then Some (ae_mac e) else arp_cache_get ip l end.

Section Net.
Context `{HN : Nic}.

Record nst := mkNst {
  my_ip : list Z; my_gw : list Z; my_mac : list Z;
  arp_cache : list arp_entry; rx_scratch : list Z; ip_id_counter : Z; conns : list tcp_conn;
  dns_rx_buf : list Z; dns_rx_len : Z; dns_rx_txid : Z; dns_rx_ready : bool; txid_counter : Z;
  dev : nic }.
#[global] Instance nst_eta : Etable nst := λ s,
  mkNst (my_ip s) (my_gw s) (my_mac s) (arp_cache s) (rx_scratch s) (ip_id_counter s) (conns s)
    (dns_rx_buf s) (dns_rx_len s) (dns_rx_txid s) (dns_rx_ready s) (txid_counter s) (dev s).

(** ** Sending *)

Definition send_frame (frame : list Z) : M nst Z := λ s,
  let '(r, d) := e1000_send_packet frame (dev s) in Done r (s <| dev := d |>).

Definition eth_send (dst_mac : list Z) (ethertype : Z) (payload : list Z) : M nst Z :=
  if SCRATCH_SIZE <? Z.of_nat (length payload) + sizeof_eth then mret (-1) else
  mac ← gets my_mac;
  send_frame (dst_mac ++ mac ++ st16 (htons ethertype) ++ payload).

(** The packet of [arp_send_request] and [arp_send_reply]. *)
Definition arp_packet (op : Z) (sha spa tha tpa : list Z) : list Z :=
  st16 (htons 1) ++ st16 (htons ETH_TYPE_IP) ++ [6; 4] ++ st16 (htons op) ++ sha ++ spa ++ tha ++ tpa.

Definition arp_send_request (target_ip : list Z) : M nst unit :=
  mac ← gets my_mac; ip ← gets my_ip;
  _ ← eth_send bcast_mac ETH_TYPE_ARP (arp_packet ARP_OP_REQUEST mac ip (replicate 6 0) target_ip);
  mret tt.

Definition arp_send_reply (req_mac req_ip : list Z) : M nst unit :=
  mac ← gets my_mac; ip ← gets my_ip;
  _ ← eth_send req_mac ETH_TYPE_ARP (arp_packet ARP_OP_REPLY mac ip req_mac req_ip);
  mret tt.

(** [conns[i]] through a pointer. *)
Definition conn (i : nat) : M nst tcp_conn := λ s,
  match conns s !! i with Some c => Done c s | None => Fault end.
Definition on_conn (i : nat) (f : tcp_conn → tcp_conn) : M nst unit := λ s,
  match conns s !! i with Some c => Done tt (s <| conns := <[i := f c]> (conns s) |>) | None => Fault end.

(** The header of [ip_send], with the given checksum. *)
Definition ip_header (total id proto cksum : Z) (src dst : list Z) : list Z :=
  [0x45; 0] ++ st16 (htons (u16 total)) ++ st16 (htons id) ++ st16 (htons 0x4000) ++ [64; proto] ++
  st16 cksum ++ src ++ dst.

(** The header of [tcp_send_seg]. *)
Definition tcp_header (c : tcp_conn) (flags cksum : Z) : list Z :=
  st16 (htons (local_port c)) ++ st16 (htons (remote_port c)) ++ st32 (htonl (cseq c)) ++
  st32 (htonl (cack c)) ++ [0x50; flags] ++ st16 (htons 8192) ++ st16 cksum ++ st16 0.

Section Poll.
Context (poll : M nst unit).

Definition net_arp_resolve (ip : list Z) : M nst (option (list Z)) :=
  m ← gets (λ s, arp_cache_get ip (arp_cache s));
  match m with
  | Some mac => mret (Some mac)
  | None =>
      for_up 5 0 (λ _,
        arp_send_request ip ;;
        for_up (Z.to_nat 10000) 0 (λ _, poll ;; gets (λ s, arp_cache_get ip (arp_cache s))))
  end.

Definition next_hop (dst_ip : list Z) (s : nst) : list Z :=
  if bool_decide (take 3 dst_ip = take 3 (my_ip s)) then dst_ip else my_gw s.

Definition ip_send (dst_ip : list Z) (proto : Z) (payload : list Z) : M nst Z :=
  nexthop ← gets (next_hop dst_ip);
  m ← net_arp_resolve nexthop;
  match m with
  | None => mret (-1)
  | Some dst_mac =>
      let total := sizeof_ip + Z.of_nat (length payload) in
      if 1500 <? total then mret (-1) else
      id ← gets ip_id_counter;
      modify (λ s, s <| ip_id_counter := u16 (id + 1) |>) ;;
      src ← gets my_ip;
      let cksum := ip_checksum (ip_header total id proto 0 src dst_ip) in
      eth_send dst_mac ETH_TYPE_IP (ip_header total id proto cksum src dst_ip ++ payload)
  end.

Definition tcp_send_seg (i : nat) (flags : Z) (data : list Z) : M nst Z :=
  let data := take 1460 data in
  c ← conn i;
  src ← gets my_ip;
  let cksum := tcp_checksum src (remote_ip c) (tcp_header c flags 0 ++ data) in
  ip_send (remote_ip c) IP_PROTO_TCP (tcp_header c flags cksum ++ data).

Definition udp_send (dst_ip : list Z) (src_port dst_port : Z) (data : list Z) : M nst Z :=
  let total := sizeof_udp + Z.of_nat (length data) in
  if 1472 <? total then mret (-1) else
  ip_send dst_ip IP_PROTO_UDP
    (st16 (htons src_port) ++ st16 (htons dst_port) ++ st16 (htons (u16 total)) ++ st16 0 ++ data).

(** ** Receiving *)

(** Bytes of the received packet. *)
Definition rx (i : Z) : M nst Z := λ s,
  if (0 <=? i) && (i <? SCRATCH_SIZE) then
    match rx_scratch s !! Z.to_nat i with Some b => Done b s | None => Fault end
  else Fault.
Definition rx16 (i : Z) : M nst Z := a ← rx i; b ← rx (i + 1); mret (a + 256 * b).
Definition rx32 (i : Z) : M nst Z := a ← rx16 i; b ← rx16 (i + 2); mret (a + 65536 * b).
Fixpoint rx_bytes (n : nat) (i : Z) : M nst (list Z) :=
  match n with O => mret [] | S n => b ← rx i; l ← rx_bytes n (i + 1); mret (b :: l) end.

(** [c->rx_buf[c->rx_tail] = b; c->rx_tail = (c->rx_tail + 1) % TCP_RX_BUF_SIZE;] *)
Definition rx_push (i : nat) (b : Z) : M nst unit :=
  c ← conn i;
  if TCP_RX_BUF_SIZE <=? rx_tail c then fault else
  on_conn i (λ c, c <| rx_buf := <[rx_tail c := b]> (rx_buf c) |>
                    <| rx_tail := u32 (rx_tail c + 1) `mod` TCP_RX_BUF_SIZE |>).

Definition conn_matches (dst_port src_port : Z) (src_ip : list Z) (c : tcp_conn) : bool :=
  negb (bool_decide (cstate c = TCP_STATE_CLOSED)) && (local_port c =? dst_port) &&
  (remote_port c =? src_port) && bool_decide (remote_ip c = src_ip).

Fixpoint find_conn (i : nat) (f : tcp_conn → bool) (l : list tcp_conn) : option nat :=
  match l with [] => None | c :: l => if f c then Some i else find_conn (S i) f l end.

(** A segment with data, in [TCP_STATE_ESTABLISHED] or [TCP_STATE_FIN_WAIT]. *)
Definition tcp_data (i : nat) (seq data data_len : Z) : M nst unit :=
  if data_len <=? 0 then mret tt else
  c ← conn i;
  let free_space := u32 (TCP_RX_BUF_SIZE - rx_avail c) in
  let to_copy := if data_len <? free_space then data_len else free_space in
  for_all (Z.to_nat to_copy) 0 (λ k, b ← rx (data + k); rx_push i b) ;;
  on_conn i (λ c, c <| rx_avail := u32 (rx_avail c + to_copy) |> <| cack := u32 (seq + data_len) |>) ;;
  _ ← tcp_send_seg i TCP_FLAG_ACK [];
  mret tt.

Definition tcp_fin (i : nat) (seq data_len flags : Z) : M nst unit :=
  if negb (nz (Z.land flags TCP_FLAG_FIN)) then mret tt else
  on_conn i (λ c, c <| cack := u32 (seq + data_len + 1) |> <| fin_received := true |>) ;;
  _ ← tcp_send_seg i TCP_FLAG_ACK [];
  on_conn i (λ c, c <| cstate := if decide (cstate c = TCP_STATE_FIN_WAIT)
                                 then TCP_STATE_TIME_WAIT else TCP_STATE_CLOSE_WAIT |>).

(** The [switch] of [tcp_handle]. *)
Definition tcp_input (i : nat) (seq ack_num flags data data_len : Z) : M nst unit :=
  c ← conn i;
  match cstate c with
  | TCP_STATE_SYN_SENT =>
      let both := Z.lor TCP_FLAG_SYN TCP_FLAG_ACK in
      if Z.land flags both =? both then
        on_conn i (λ c, c <| cack := u32 (seq + 1) |> <| cseq := ack_num |>) ;;
        _ ← tcp_send_seg i TCP_FLAG_ACK [];
        on_conn i (λ c, c <| cstate := TCP_STATE_ESTABLISHED |>)
      else mret tt
  | TCP_STATE_ESTABLISHED | TCP_STATE_FIN_WAIT =>
      tcp_data i seq data data_len ;; tcp_fin i seq data_len flags
  | _ => mret tt
  end.

(** A segment of [total] bytes at [tcp] in [rx_scratch]. *)
Definition tcp_handle (src_ip : list Z) (tcp total : Z) : M nst unit :=
  dst_port ← rx16 (tcp + 2); src_port ← rx16 tcp;
  seq ← rx32 (tcp + 4); ack_num ← rx32 (tcp + 8);
  flags ← rx (tcp + 13); data_off ← rx (tcp + 12);
  let hdr_len := Z.shiftr data_off 4 * 4 in
  let data_len := u64 (total - hdr_len) in
  found ← gets (λ s, find_conn 0 (conn_matches (htons dst_port) (htons src_port) src_ip) (conns s));
  match found with
  | None => mret tt
  | Some i => tcp_input i (htonl seq) (htonl ack_num) flags (tcp + hdr_len) data_len
  end.

Definition udp_dns_handle (payload len : Z) : M nst unit :=
  if (len <? 12) || (DNS_BUF_SIZE <? len) then mret tt else
  a ← rx payload; b ← rx (payload + 1);
  want ← gets dns_rx_txid;
  if negb (u16 (Z.lor (Z.shiftl a 8) b) =? want) then mret tt else
  l ← rx_bytes (Z.to_nat len) payload;
  modify (λ s, s <| dns_rx_buf := splice (dns_rx_buf s) 0 l |> <| dns_rx_len := len |> <| dns_rx_ready := true |>).

(** A packet of [len] bytes at [pkt] in [rx_scratch]. *)
Definition ip_handle (pkt len : Z) : M nst unit :=
  if len <? sizeof_ip then mret tt else
  ver_ihl ← rx pkt;
  if negb (Z.shiftr ver_ihl 4 =? 4) then mret tt else
  dst ← rx_bytes 4 (pkt + 16); ip ← gets my_ip;
  if negb (bool_decide (dst = ip)) then mret tt else
  let ip_hdr_len := Z.land ver_ihl 0xF * 4 in
  t ← rx16 (pkt + 2);
  let total := htons t in
  if len <? total then mret tt else
  let payload := pkt + ip_hdr_len in
  let payload_len := u64 (total - ip_hdr_len) in
  proto ← rx (pkt + 9);
  if proto =? IP_PROTO_TCP then
    if payload_len <? sizeof_tcp then mret tt else
    src ← rx_bytes 4 (pkt + 12);
    tcp_handle src payload payload_len
  else if proto =? IP_PROTO_UDP then
    if payload_len <? sizeof_udp then mret tt else
    p ← rx16 (payload + 2);
    if htons p =? DNS_LOCAL_PORT then udp_dns_handle (payload + sizeof_udp) (payload_len - sizeof_udp)
    else mret tt
  else mret tt.

Definition arp_handle (pkt len : Z) : M nst unit :=
  if len <? sizeof_arp then mret tt else
  ptype ← rx16 (pkt + 2);
  if negb (htons ptype =? ETH_TYPE_IP) then mret tt else
  spa ← rx_bytes 4 (pkt + 14); sha ← rx_bytes 6 (pkt + 8);
  modify (λ s, s <| arp_cache := arp_cache_put spa sha (arp_cache s) |>) ;;
  op ← rx16 (pkt + 6);
  if htons op =? ARP_OP_REQUEST then
    tpa ← rx_bytes 4 (pkt + 24); ip ← gets my_ip;
    if bool_decide (tpa = ip) then arp_send_reply sha spa else mret tt
  else mret tt.

(** The body of the loop of [net_poll], for a frame of [got] bytes. *)
Definition eth_handle (got : Z) : M nst unit :=
  if got <? sizeof_eth then mret tt else
  et ← rx16 12;
  let et := htons et in
  if et =? ETH_TYPE_ARP then arp_handle sizeof_eth (got - sizeof_eth) else
  if et =? ETH_TYPE_IP then ip_handle sizeof_eth (got - sizeof_eth) else mret tt.
End Poll.

(** [e1000_receive_packet(rx_scratch, sizeof(rx_scratch))]: the length of the
    frame; at most the buffer is filled. *)
Definition receive : M nst (option Z) := λ s,
  let '(f, d) := e1000_receive_packet (dev s) in
  match f with
  | None => Done None (s <| dev := d |>)
  | Some frame =>
      Done (Some (Z.of_nat (length frame)))
        (s <| dev := d |> <| rx_scratch := splice (rx_scratch s) 0 (take (Z.to_nat SCRATCH_SIZE) frame) |>)
  end.

(** [fuel]: the frames that arrive, and one more round. *)
Fixpoint net_poll (fuel : nat) : M nst unit :=
  match fuel with
  | O => fault
  | S fuel =>
      got ← receive;
      match got with
      | None => mret tt
      | Some got => if got <=? 0 then mret tt else eth_handle (net_poll fuel) got ;; net_poll fuel
      end
  end.

(** ** The interface of the stack *)

Definition net_set_ip (ip gw : list Z) : M nst unit := modify (λ s, s <| my_ip := ip |> <| my_gw := gw |>).

Definition qemu_gw_mac : list Z := [0x52; 0x55; 0x0a; 0x00; 0x02; 0x02].

Definition net_init : M nst unit :=
  modify (λ s, s <| conns := replicate (Z.to_nat MAX_TCP_CONNS) zero_conn |>
                 <| arp_cache := replicate ARP_CACHE_SIZE (mkArp [0; 0; 0; 0] [0; 0; 0; 0; 0; 0] false) |>) ;;
  modify (λ s, s <| my_mac := e1000_get_mac_address (dev s) |>) ;;
  modify (λ s, s <| arp_cache := arp_cache_put (my_gw s) qemu_gw_mac (arp_cache s) |>).

Definition simple_rand_seq : M nst Z := λ s, let '(r, d) := net_rand (dev s) in Done (u32 r) (s <| dev := d |>).

(** [conn_get]: the index of a connection, if the id is one. *)
Definition conn_get (id : Z) : option nat :=
  if (id <? 0) || (MAX_TCP_CONNS <=? id) then None else Some (Z.to_nat id).

Definition is_closed (c : tcp_conn) : bool := bool_decide (cstate c = TCP_STATE_CLOSED).

Section Api.
Context (poll : M nst unit).

(** A round of the loop of [tcp_connect] that waits for the connection. *)
Definition connect_round (i : nat) (k : Z) : M nst (option Z) :=
  poll ;;
  c ← conn i;
  if decide (cstate c = TCP_STATE_ESTABLISHED) then mret (Some (Z.of_nat i)) else
  if decide (cstate c = TCP_STATE_CLOSED) then mret (Some (-1)) else
  (if (0 <? k) && (k `mod` 50000 =? 0) then _ ← tcp_send_seg poll i TCP_FLAG_SYN []; mret tt else mret tt) ;;
  mret None.

Definition tcp_connect (ip : list Z) (port : Z) : M nst Z :=
  id ← gets (λ s, find_conn 0 is_closed (take (Z.to_nat MAX_TCP_CONNS) (conns s)));
  match id with
  | None => mret (-1)
  | Some i =>
      on_conn i (λ _, zero_conn <| remote_ip := ip |> <| remote_port := port |>) ;;
      r ← simple_rand_seq;
      on_conn i (λ c, c <| local_port := u16 (49152 + Z.of_nat i * 100 + Z.land r 0xFF) |>) ;;
      r ← simple_rand_seq;
      on_conn i (λ c, c <| cseq := r |> <| cstate := TCP_STATE_SYN_SENT |> <| fin_received := false |>) ;;
      _ ← tcp_send_seg poll i TCP_FLAG_SYN [];
      on_conn i (λ c, c <| cseq := u32 (cseq c + 1) |>) ;;
      r ← for_up (Z.to_nat 500000) 0 (connect_round i);
      match r with
      | Some r => mret r
      | None => on_conn i (λ c, c <| cstate := TCP_STATE_CLOSED |>) ;; mret (-1)
      end
  end.

(** The loop of [tcp_send] over the data that is left; every round sends at
    least a byte. *)
Fixpoint send_chunks (fuel i : nat) (data : list Z) : M nst bool :=
  match data with
  | [] => mret true
  | _ =>
      match fuel with
      | O => fault
      | S fuel =>
          let chunk := take 1460 data in
          r ← tcp_send_seg poll i (Z.lor TCP_FLAG_PSH TCP_FLAG_ACK) chunk;
          if r <? 0 then mret false else
          on_conn i (λ c, c <| cseq := u32 (cseq c + Z.of_nat (length chunk)) |>) ;;
          send_chunks fuel i (drop 1460 data)
      end
  end.

Definition tcp_send (id : Z) (data : list Z) : M nst Z :=
  match conn_get id with
  | None => mret (-1)
  | Some i =>
      c ← conn i;
      if negb (bool_decide (cstate c = TCP_STATE_ESTABLISHED)) then mret (-1) else
      ok ← send_chunks (length data) i data;
      mret (if ok : bool then i32 (Z.of_nat (length data)) else -1)
  end.

(** The two loops of [tcp_recv]: [Some r] when it returns [r] at once. *)
Definition linger_round (i : nat) (_ : Z) : M nst (option unit) :=
  poll ;; c ← conn i; mret (if 0 <? rx_avail c then Some tt else None).

Definition recv_round (i : nat) (_ : Z) : M nst (option (option Z)) :=
  poll ;;
  c ← conn i;
  if 0 <? rx_avail c then mret (Some None) else
  if fin_received c then
    more ← for_up (Z.to_nat 1000) 0 (linger_round i);
    mret (Some (match more with Some _ => None | None => Some 0 end))
  else if decide (cstate c = TCP_STATE_CLOSED) then mret (Some (Some (-1)))
  else mret None.

Definition rx_pop (i : nat) : M nst Z :=
  c ← conn i;
  if TCP_RX_BUF_SIZE <=? rx_head c then fault else
  on_conn i (λ c, c <| rx_head := u32 (rx_head c + 1) `mod` TCP_RX_BUF_SIZE |>) ;;
  mret (default 0 (rx_buf c !! rx_head c)).

Fixpoint rx_pops (n : nat) (i : nat) : M nst (list Z) :=
  match n with O => mret [] | S n => b ← rx_pop i; l ← rx_pops n i; mret (b :: l) end.

(** The end of [tcp_recv]: the value returned and the bytes put into [buf]. *)
Definition tcp_take (i : nat) (max_len : Z) : M nst (Z * list Z) :=
  c ← conn i;
  if rx_avail c =? 0 then mret (0, []) else
  let to_read := if rx_avail c <? max_len then rx_avail c else max_len in
  l ← rx_pops (Z.to_nat to_read) i;
  on_conn i (λ c, c <| rx_avail := u32 (rx_avail c - u32 to_read) |>) ;;
  mret (i32 to_read, l).

Definition tcp_recv (id max_len : Z) : M nst (Z * list Z) :=
  match conn_get id with
  | None => mret (-1, [])
  | Some i =>
      r ← for_up (Z.to_nat 2000000) 0 (recv_round i);
      match r with
      | Some (Some r) => mret (r, [])
      | _ => tcp_take i max_len
      end
  end.

Definition tcp_close (id : Z) : M nst unit :=
  match conn_get id with
  | None => mret tt
  | Some i =>
      c ← conn i;
      if decide (cstate c = TCP_STATE_CLOSED) then mret tt else
      (if decide (cstate c = TCP_STATE_ESTABLISHED) then
         _ ← tcp_send_seg poll i (Z.lor TCP_FLAG_FIN TCP_FLAG_ACK) [];
         on_conn i (λ c, c <| cseq := u32 (cseq c + 1) |> <| cstate := TCP_STATE_FIN_WAIT |>)
       else mret tt) ;;
      on_conn i (λ c, c <| cstate := TCP_STATE_CLOSED |>)
  end.

Definition tcp_is_connected (id : Z) : M nst bool :=
  match conn_get id with
  | None => mret false
  | Some i => c ← conn i; mret (bool_decide (cstate c = TCP_STATE_ESTABLISHED))
  end.

(** A round of the loop of [dns_resolve] that waits for the response. *)
Definition dns_wait (_ : Z) : M nst (option unit) :=
  ready ← gets dns_rx_ready;
  if ready : bool then mret (Some tt) else poll ;; mret None.

Definition dns_attempt (q : list Z) (_ : Z) : M nst (option unit) :=
  _ ← udp_send poll DNS_SERVER_IP DNS_LOCAL_PORT DNS_PORT q;
  _ ← for_up (Z.to_nat 3000000) 0 dns_wait;
  ready ← gets dns_rx_ready;
  mret (if ready : bool then Some tt else None).

(** The address, or nothing for -1. *)
Definition dns_resolve (hostname : list Z) : M nst (option (list Z)) :=
  if is_ip hostname then mret (parse_ip hostname) else
  txid ← gets txid_counter;
  modify (λ s, s <| txid_counter := u16 (txid + 1) |> <| dns_rx_ready := false |> <| dns_rx_txid := txid |>) ;;
  match dns_build_query DNS_BUF_SIZE txid hostname [] with
  | Done qlen q =>
      if qlen <? 0 then mret None else
      _ ← for_up 3 0 (dns_attempt q);
      ready ← gets dns_rx_ready;
      if negb ready then mret None else
      buf ← gets dns_rx_buf; len ← gets dns_rx_len;
      match dns_parse_response buf len tt with Done r _ => mret r | _ => fault end
  | _ => fault
  end.
End Api.
End Net.
