(* ===== verification/NetInv.v ===== *)
(** * Safety of the network stack

    The invariant of the state, the queues of received bytes, and the proof that
    polling returns.  [NicOk] lists what the card delivers: a finite sequence of
    frames, to which sending adds nothing. *)

From S2P Require Import Prelude Bytes NetSum Dns Net.

(** ** The queue of received bytes *)

Definition ring_ok (c : tcp_conn) : Prop :=
  0 ≤ rx_head c < TCP_RX_BUF_SIZE ∧ 0 ≤ rx_avail c ≤ TCP_RX_BUF_SIZE ∧
  rx_tail c = (rx_head c + rx_avail c) `mod` TCP_RX_BUF_SIZE.

(** The first [n] bytes from the head on. *)
Definition queued (c : tcp_conn) (n : Z) : list Z :=
  (λ k, default 0 (rx_buf c !! ((rx_head c + k) `mod` TCP_RX_BUF_SIZE))) <$> seqZ 0 n.
Definition queue (c : tcp_conn) : list Z := queued c (rx_avail c).

(** The two assignments of the copying loop of [tcp_handle]. *)
Definition push (c : tcp_conn) (b : Z) : tcp_conn :=
  c <| rx_buf := <[rx_tail c := b]> (rx_buf c) |> <| rx_tail := u32 (rx_tail c + 1) `mod` TCP_RX_BUF_SIZE |>.

Lemma length_queued c n : length (queued c n) = Z.to_nat n.
Proof. unfold queued. by rewrite length_fmap, length_seqZ. Qed.

Lemma queued_take c k n : 0 ≤ k ≤ n → take (Z.to_nat k) (queued c n) = queued c k.
Proof.
  intros Hk. unfold queued. replace n with (k + (n - k)) by lia.
  rewrite seqZ_app, fmap_app, take_app_le by (rewrite ?length_fmap, ?length_seqZ; lia).
  apply take_ge. rewrite length_fmap, length_seqZ. lia.
Qed.

Lemma tail_step x : 0 ≤ x → u32 (x `mod` TCP_RX_BUF_SIZE + 1) `mod` TCP_RX_BUF_SIZE = (x + 1) `mod` TCP_RX_BUF_SIZE.
Proof.
  intros Hx. pose proof (Z.mod_pos_bound x TCP_RX_BUF_SIZE ltac:(done)) as Hm.
  rewrite wrap_small by (unfold TCP_RX_BUF_SIZE in *; lia). by rewrite Zplus_mod_idemp_l.
Qed.

Lemma mod_apart h a b : 0 ≤ a < b → b < TCP_RX_BUF_SIZE →
  (h + b) `mod` TCP_RX_BUF_SIZE ≠ (h + a) `mod` TCP_RX_BUF_SIZE.
Proof. change TCP_RX_BUF_SIZE with 262144. intros. Z.div_mod_to_equations. lia. Qed.

Lemma queued_ext c c' n : rx_head c' = rx_head c →
  (∀ k, 0 ≤ k < n → rx_buf c' !! ((rx_head c + k) `mod` TCP_RX_BUF_SIZE) = rx_buf c !! ((rx_head c + k) `mod` TCP_RX_BUF_SIZE)) →
  queued c' n = queued c n.
Proof.
  intros Hh Hb. unfold queued. rewrite Hh. apply list_fmap_ext.
  intros j k Hk%list_elem_of_lookup_2%elem_of_seqZ. by rewrite Hb by lia.
Qed.

Lemma queued_S c n : 0 ≤ n →
  queued c (n + 1) = queued c n ++ [default 0 (rx_buf c !! ((rx_head c + n) `mod` TCP_RX_BUF_SIZE))].
Proof. intros Hn. unfold queued. rewrite seqZ_app, fmap_app by lia. done. Qed.

Lemma push_step c n b : 0 ≤ rx_head c < TCP_RX_BUF_SIZE → 0 ≤ n < TCP_RX_BUF_SIZE →
  rx_tail c = (rx_head c + n) `mod` TCP_RX_BUF_SIZE →
  queued (push c b) (n + 1) = queued c n ++ [b] ∧
  rx_tail (push c b) = (rx_head c + (n + 1)) `mod` TCP_RX_BUF_SIZE ∧ 0 ≤ rx_tail c < TCP_RX_BUF_SIZE.
Proof.
  intros Hh Hn Ht. split_and!.
  - rewrite queued_S by lia. change (rx_head (push c b)) with (rx_head c).
    change (rx_buf (push c b)) with (<[rx_tail c := b]> (rx_buf c)).
    rewrite <-Ht, lookup_insert_eq. f_equal. apply queued_ext; [done|]. intros k Hk.
    change (rx_buf (push c b)) with (<[rx_tail c := b]> (rx_buf c)). rewrite Ht. apply lookup_insert_ne.
    apply mod_apart; lia.
  - change (rx_tail (push c b)) with (u32 (rx_tail c + 1) `mod` TCP_RX_BUF_SIZE). rewrite Ht, tail_step by lia.
    by rewrite Z.add_assoc.
  - rewrite Ht. by apply Z.mod_pos_bound.
  - rewrite Ht. by apply Z.mod_pos_bound.
Qed.

(** The connection after the bytes [l] have been copied. *)
Definition pushes (c : tcp_conn) (l : list Z) : tcp_conn := foldl push c l.

Lemma pushes_head c l : rx_head (pushes c l) = rx_head c ∧ rx_avail (pushes c l) = rx_avail c ∧
  cstate (pushes c l) = cstate c ∧ remote_ip (pushes c l) = remote_ip c.
Proof. unfold pushes. revert c. induction l as [|b l IH]; intros c; [done|]. cbn [foldl]. by destruct (IH (push c b)) as (-> & -> & -> & ->). Qed.

Lemma pushes_ok c l : ring_ok c → rx_avail c + Z.of_nat (length l) ≤ TCP_RX_BUF_SIZE →
  queued (pushes c l) (rx_avail c + Z.of_nat (length l)) = queue c ++ l ∧
  rx_tail (pushes c l) = (rx_head c + (rx_avail c + Z.of_nat (length l))) `mod` TCP_RX_BUF_SIZE.
Proof.
  intros (Hh & Ha & Ht) Hl. induction l as [|b l IH] using rev_ind.
  - cbn [length]. rewrite app_nil_r, Z.add_0_r. done.
  - rewrite length_app in Hl. cbn [length] in Hl. destruct IH as [IH1 IH2]; [lia|].
    unfold pushes. rewrite foldl_app. cbn [foldl]. fold (pushes c l). rewrite length_app. cbn [length].
    destruct (pushes_head c l) as (Eh & _).
    destruct (push_step (pushes c l) (rx_avail c + Z.of_nat (length l)) b) as (P1 & P2 & _);
      [by rewrite Eh|lia|by rewrite Eh|].
    replace (rx_avail c + Z.of_nat (length l + 1)) with (rx_avail c + Z.of_nat (length l) + 1) by lia.
    rewrite P1, P2, IH1, Eh, app_assoc. split; [done|]. do 2 f_equal; lia.
Qed.

(** ** The invariant *)

(** No connection is ever seen in [TCP_STATE_FIN_WAIT] or [TCP_STATE_TIME_WAIT]. *)
Definition conn_ok (c : tcp_conn) : Prop :=
  ring_ok c ∧ cstate c ≠ TCP_STATE_FIN_WAIT ∧ cstate c ≠ TCP_STATE_TIME_WAIT.

(** Each address has one entry. *)
Definition cache_ok (l : list arp_entry) : Prop :=
  length l = ARP_CACHE_SIZE ∧ NoDup (ae_ip <$> filter (λ e, ae_valid e = true) l).

(** What the code does not check about a frame: the lengths in an IP header and
    a TCP header are those of real headers. *)
Definition fb (f : list Z) (i : Z) : Z := f !!! Z.to_nat i.
Definition ihl (f : list Z) : Z := Z.land (fb f 14) 0xF * 4.
Definition ip_total (f : list Z) : Z := 256 * fb f 16 + fb f 17.
Definition is_ip_frame (f : list Z) : bool :=
  (34 <=? Z.of_nat (length f)) && (fb f 12 =? 8) && (fb f 13 =? 0) && (Z.shiftr (fb f 14) 4 =? 4).
Definition frame_ok (f : list Z) : Prop :=
  bytes f ∧ Z.of_nat (length f) ≤ SCRATCH_SIZE ∧
  (is_ip_frame f = true → ip_total f + 14 ≤ Z.of_nat (length f) →
   ihl f ≤ ip_total f ∧
   (fb f 23 = IP_PROTO_TCP → 20 ≤ ip_total f - ihl f →
    Z.shiftr (fb f (14 + ihl f + 12)) 4 * 4 ≤ ip_total f - ihl f)).

(** The frames that the card will deliver. *)
Class NicOk `{!Nic} := {
  frames : nic → list (list Z);
  nic_send f d : frames (e1000_send_packet f d).2 = frames d;
  nic_recv d : match e1000_receive_packet d with
               | (None, d') => frames d' = frames d
               | (Some f, d') => frames d = f :: frames d'
               end;
  nic_rand d : frames (net_rand d).2 = frames d }.

(** ** The ARP cache *)

Definition valid_ips (l : list arp_entry) : list (list Z) := ae_ip <$> filter (λ e, ae_valid e = true) l.

Lemma valid_ips_cons e l : valid_ips (e :: l) = (if ae_valid e then [ae_ip e] else []) ++ valid_ips l.
Proof. unfold valid_ips. rewrite filter_cons. by destruct (ae_valid e). Qed.

Lemma is_entry_true ip e : is_entry ip e = true ↔ ae_valid e = true ∧ ae_ip e = ip.
Proof. unfold is_entry. by rewrite andb_true_iff, bool_decide_eq_true. Qed.

Lemma cache_update_some ip mac l l' : cache_update ip mac l = Some l' →
  valid_ips l' = valid_ips l ∧ length l' = length l ∧ arp_cache_get ip l' = Some mac ∧
  ∀ ip', ip' ≠ ip → arp_cache_get ip' l' = arp_cache_get ip' l.
Proof.
  revert l'. induction l as [|e l IH]; intros l' E; [done|]. cbn [cache_update] in E.
  destruct (is_entry ip e) eqn:He.
  - injection E as <-. pose proof He as [Hv Hi]%is_entry_true. rewrite !valid_ips_cons. cbn [length arp_cache_get].
    unfold is_entry. cbn [ae_valid ae_ip ae_mac]. rewrite Hv, Hi, bool_decide_true by done. split_and!; [done..|].
    intros ip' Hne. by rewrite bool_decide_false by congruence.
  - apply fmap_Some in E as (l1 & E & ->). destruct (IH l1 E) as (I1 & I2 & I3 & I4).
    rewrite !valid_ips_cons, I1. cbn [length arp_cache_get]. rewrite I2, He. split_and!; [done..|].
    intros ip' Hne. by rewrite I4.
Qed.

Lemma cache_update_none ip mac l : cache_update ip mac l = None ↔ ip ∉ valid_ips l.
Proof.
  induction l as [|e l IH]; [cbn; set_solver|]. cbn [cache_update]. rewrite valid_ips_cons.
  destruct (is_entry ip e) eqn:He.
  - apply is_entry_true in He as [-> ->]. split; [done|]. intros []. set_solver.
  - rewrite fmap_None, IH. assert (ip ∉ (if ae_valid e then [ae_ip e] else [])).
    { destruct (ae_valid e) eqn:Hv; [|set_solver]. intros ->%list_elem_of_singleton.
      rewrite (proj2 (is_entry_true _ _)) in He by done. done. }
    set_solver.
Qed.

Lemma cache_get_none ip l : arp_cache_get ip l = None ↔ ip ∉ valid_ips l.
Proof.
  induction l as [|e l IH]; [cbn; set_solver|]. cbn [arp_cache_get]. rewrite valid_ips_cons.
  destruct (is_entry ip e) eqn:He.
  - apply is_entry_true in He as [-> ->]. split; [done|]. intros []. set_solver.
  - rewrite IH. assert (ip ∉ (if ae_valid e then [ae_ip e] else [])); [|set_solver].
    destruct (ae_valid e) eqn:Hv; [|set_solver]. intros ->%list_elem_of_singleton.
    by rewrite (proj2 (is_entry_true _ _)) in He by done.
Qed.

Lemma cache_fill_some ip mac l l' : cache_fill ip mac l = Some l' →
  valid_ips l' ≡ₚ ip :: valid_ips l ∧ length l' = length l ∧ (ip ∉ valid_ips l → arp_cache_get ip l' = Some mac) ∧
  ∀ ip', ip' ≠ ip → arp_cache_get ip' l' = arp_cache_get ip' l.
Proof.
  revert l'. induction l as [|e l IH]; intros l' E; [done|]. cbn [cache_fill] in E.
  destruct (ae_valid e) eqn:Hv; cbn [negb] in E.
  - apply fmap_Some in E as (l1 & E & ->). destruct (IH l1 E) as (I1 & I2 & I3 & I4).
    rewrite !valid_ips_cons, I1, Hv. cbn [length arp_cache_get]. rewrite I2. split_and!.
    + cbn [app]. apply Permutation_swap.
    + done.
    + intros Hn. cbn [app] in Hn. apply not_elem_of_cons in Hn as [Hne Hn].
      unfold is_entry. rewrite Hv, bool_decide_false by congruence. by apply I3.
    + intros ip' Hne. by rewrite I4.
  - injection E as <-. rewrite !valid_ips_cons, Hv. cbn [length arp_cache_get ae_valid ae_ip app].
    unfold is_entry. cbn [ae_valid ae_ip ae_mac]. rewrite bool_decide_true by done. rewrite Hv. split_and!; [done..|].
    intros ip' Hne. by rewrite bool_decide_false by congruence.
Qed.

Lemma arp_cache_put_ok ip mac l : cache_ok l → cache_ok (arp_cache_put ip mac l).
Proof.
  intros [Hl Hn]. fold (valid_ips l) in Hn. unfold arp_cache_put, cache_ok. fold (valid_ips (arp_cache_put ip mac l)).
  destruct (cache_update ip mac l) as [l'|] eqn:E.
  - destruct (cache_update_some _ _ _ _ E) as (H1 & H2 & _). fold (valid_ips l'). by rewrite H1, H2.
  - destruct (cache_fill ip mac l) as [l'|] eqn:E'; [|done].
    destruct (cache_fill_some _ _ _ _ E') as (H1 & H2 & _). fold (valid_ips l'). rewrite H1, H2.
    split; [done|]. apply list.NoDup_cons. split; [by eapply cache_update_none|done].
Qed.

Section Inv.
Context `{HN : Nic} `{HO : !NicOk}.

Definition scratch_ok (s : nst) : Prop := length (rx_scratch s) = 2048%nat ∧ bytes (rx_scratch s).

Record net_inv (n : nat) (s : nst) : Prop := {
  ni_scratch : scratch_ok s;
  ni_conns : length (conns s) = 8%nat ∧ Forall conn_ok (conns s);
  ni_cache : cache_ok (arp_cache s);
  ni_dns : length (dns_rx_buf s) = 512%nat ∧ bytes (dns_rx_buf s) ∧ dns_rx_len s ≤ 512;
  ni_txid : 0 ≤ txid_counter s < 65536;
  ni_frames : Forall frame_ok (frames (dev s)) ∧ (length (frames (dev s)) ≤ n)%nat }.

(** ** Sending *)

Section Sending.
Context (n : nat).

Lemma send_frame_keeps f : keeps (net_inv n) (send_frame f).
Proof.
  intros s [H1 H2 H3 H4 Ht H5]. unfold wp, send_frame. pose proof (nic_send f (dev s)) as Hs.
  destruct (e1000_send_packet f (dev s)) as [r d]. cbn in Hs. split; try done.
  cbn. by rewrite Hs.
Qed.

Lemma eth_send_keeps m t p : keeps (net_inv n) (eth_send m t p).
Proof. unfold eth_send. pose proof send_frame_keeps. auto with keeps. Qed.

Lemma arp_send_request_keeps ip : keeps (net_inv n) (arp_send_request ip).
Proof. unfold arp_send_request. pose proof eth_send_keeps. auto 10 with keeps. Qed.

Lemma arp_send_reply_keeps m ip : keeps (net_inv n) (arp_send_reply m ip).
Proof. unfold arp_send_reply. pose proof eth_send_keeps. auto 10 with keeps. Qed.

Lemma conn_run i s : net_inv n s → (i < 8)%nat →
  ∃ c, conns s !! i = Some c ∧ conn i s = Done c s ∧ conn_ok c.
Proof.
  intros HI Hi. destruct (ni_conns _ _ HI) as [Hl Hok].
  destruct (lookup_lt_is_Some_2 (conns s) i) as [c Hc]; [lia|]. exists c. unfold conn. rewrite Hc.
  split_and!; [done|done|]. by eapply list.Forall_lookup_1.
Qed.

Lemma conn_keeps i : (i < 8)%nat → keeps (net_inv n) (conn i).
Proof. intros Hi s HI. destruct (conn_run i s HI Hi) as (c & _ & E & _). by eapply wp_of_eq. Qed.

Lemma set_conn_inv i c s : net_inv n s → conn_ok c → net_inv n (s <| conns := <[i := c]> (conns s) |>).
Proof.
  intros [H1 [H2 H2'] H3 H4 Ht H5] Hc. split; try done. cbn. rewrite length_insert. split; [done|].
  by apply Forall_insert.
Qed.

Lemma on_conn_keeps i f : (i < 8)%nat → (∀ c, conn_ok c → conn_ok (f c)) → keeps (net_inv n) (on_conn i f).
Proof.
  intros Hi Hf s HI. destruct (conn_run i s HI Hi) as (c & Hc & _ & Hok). unfold on_conn, wp. rewrite Hc.
  apply set_conn_inv; auto.
Qed.

Context (poll : M nst unit) (Hpoll : keeps (net_inv n) poll).

Lemma net_arp_resolve_keeps ip : keeps (net_inv n) (net_arp_resolve poll ip).
Proof.
  unfold net_arp_resolve. pose proof arp_send_request_keeps.
  apply keeps_bind; [apply keeps_gets|]. intros [m|]; auto 10 with keeps.
Qed.

Lemma ip_send_keeps ip proto l : keeps (net_inv n) (ip_send poll ip proto l).
Proof.
  unfold ip_send. apply keeps_bind; [apply keeps_gets|]. intros hop.
  apply keeps_bind; [apply net_arp_resolve_keeps|]. intros [m|]; [|apply keeps_ret].
  apply keeps_if; [apply keeps_ret|]. apply keeps_bind; [apply keeps_gets|]. intros id.
  apply keeps_bind; [apply keeps_modify; intros s [H1 H2 H3 H4 Ht H5]; by split|]. intros _.
  apply keeps_bind; [apply keeps_gets|]. intros src. apply eth_send_keeps.
Qed.

Lemma tcp_send_seg_keeps i flags data : (i < 8)%nat → keeps (net_inv n) (tcp_send_seg poll i flags data).
Proof.
  intros Hi. unfold tcp_send_seg. pose proof (conn_keeps i Hi). pose proof ip_send_keeps. auto with keeps.
Qed.

Lemma udp_send_keeps ip a b data : keeps (net_inv n) (udp_send poll ip a b data).
Proof. unfold udp_send. pose proof ip_send_keeps. auto with keeps. Qed.

(** ** Reading the packet *)

Lemma rx_eq s i : scratch_ok s → 0 ≤ i < 2048 → rx i s = Done (fb (rx_scratch s) i) s ∧ byte (fb (rx_scratch s) i).
Proof.
  intros HI Hi. destruct HI as [Hl Hb]. unfold rx, fb, SCRATCH_SIZE.
  rewrite (proj2 (Z.leb_le 0 i)), (proj2 (Z.ltb_lt i 2048)) by lia. cbn [andb].
  destruct (lookup_lt_is_Some_2 (rx_scratch s) (Z.to_nat i)) as [b E]; [lia|].
  rewrite E, (list_lookup_total_correct _ _ _ E). split; [done|]. by eapply list.Forall_lookup_1.
Qed.

Lemma rx16_eq s i : scratch_ok s → 0 ≤ i → i + 2 ≤ 2048 →
  rx16 i s = Done (fb (rx_scratch s) i + 256 * fb (rx_scratch s) (i + 1)) s ∧
  0 ≤ fb (rx_scratch s) i + 256 * fb (rx_scratch s) (i + 1) < 65536.
Proof.
  intros HI Hi Hi'. destruct (rx_eq s i HI ltac:(lia)) as [E1 B1], (rx_eq s (i + 1) HI ltac:(lia)) as [E2 B2].
  unfold rx16. rewrite (bind_done _ _ _ _ _ E1), (bind_done _ _ _ _ _ E2). unfold byte in *. split; [done|lia].
Qed.

Lemma rx32_run s i : scratch_ok s → 0 ≤ i → i + 4 ≤ 2048 → ∃ v, rx32 i s = Done v s ∧ 0 ≤ v < 2 ^ 32.
Proof.
  intros HI Hi Hi'. destruct (rx16_eq s i HI) as [E1 B1]; [lia|lia|]. destruct (rx16_eq s (i + 2) HI) as [E2 B2]; [lia|lia|].
  unfold rx32. rewrite (bind_done _ _ _ _ _ E1), (bind_done _ _ _ _ _ E2). eexists. split; [done|]. lia.
Qed.

Lemma rx_bytes_eq s k : scratch_ok s → ∀ i, 0 ≤ i → i + Z.of_nat k ≤ 2048 →
  rx_bytes k i s = Done (take k (drop (Z.to_nat i) (rx_scratch s))) s.
Proof.
  intros HI. pose proof HI as [Hl Hb]. induction k as [|k IH]; intros i Hi Hk; cbn [rx_bytes]; [done|].
  destruct (rx_eq s i HI ltac:(lia)) as [E1 _]. rewrite (bind_done _ _ _ _ _ E1).
  rewrite (bind_done _ _ _ _ _ (IH (i + 1) ltac:(lia) ltac:(lia))).
  apply (f_equal (λ l, Done l s)). unfold fb. destruct (lookup_lt_is_Some_2 (rx_scratch s) (Z.to_nat i)) as [b E]; [lia|].
  rewrite (drop_S _ _ _ E), (list_lookup_total_correct _ _ _ E). cbn [take]. do 2 f_equal. f_equal. lia.
Qed.

(** ** Data of a connection *)

Lemma rx_push_eq s i c b : conns s !! i = Some c → 0 ≤ rx_tail c < TCP_RX_BUF_SIZE →
  rx_push i b s = Done tt (s <| conns := <[i := push c b]> (conns s) |>).
Proof.
  intros Hc Ht. unfold rx_push, conn, mbind, M_bind. rewrite Hc, (proj2 (Z.leb_gt _ _)) by lia.
  unfold on_conn. by rewrite Hc.
Qed.

(** The state after [j] rounds of the copying loop. *)
Definition copied (s : nst) (i : nat) (c : tcp_conn) (l : list Z) (j : Z) : nst :=
  s <| conns := <[i := pushes c (take (Z.to_nat j) l)]> (conns s) |>.

Lemma copied_0 s i c l : conns s !! i = Some c → copied s i c l 0 = s.
Proof. intros Hc. unfold copied. cbn. change (pushes c []) with c. rewrite list_insert_id by done. by destruct s. Qed.

Lemma copy_step s i c data j : let l := drop (Z.to_nat data) (rx_scratch s) in
  scratch_ok s → conns s !! i = Some c → ring_ok c → 0 ≤ data → 0 ≤ j → data + j < 2048 → rx_avail c + j < TCP_RX_BUF_SIZE →
  (b ← rx (data + j); rx_push i b) (copied s i c l j) = Done tt (copied s i c l (j + 1)).
Proof.
  intros l HS Hc Hr Hd Hj Hdj Hav.
  assert (length l = 2048 - Z.to_nat data)%nat as Hl by (unfold l; rewrite length_drop; destruct HS; lia).
  destruct (rx_eq (copied s i c l j) (data + j)) as [Eb _]; [exact HS|lia|]. rewrite (bind_done _ _ _ _ _ Eb).
  destruct (lookup_lt_is_Some_2 l (Z.to_nat j)) as [b Hb]; [lia|].
  assert (fb (rx_scratch (copied s i c l j)) (data + j) = b) as ->.
  { unfold fb. change (rx_scratch (copied s i c l j)) with (rx_scratch s). unfold l in Hb. rewrite lookup_drop in Hb.
    apply list_lookup_total_correct. rewrite <-Hb. f_equal. lia. }
  assert (conns (copied s i c l j) !! i = Some (pushes c (take (Z.to_nat j) l))) as Hc'.
  { cbn. apply list_lookup_insert_eq. by eapply lookup_lt_Some. }
  assert (Z.of_nat (length (take (Z.to_nat j) l)) = j) as Hlj by (rewrite length_take; lia).
  destruct (pushes_ok c (take (Z.to_nat j) l) Hr) as [_ Ht]; [lia|].
  rewrite (rx_push_eq _ _ _ b Hc') by (rewrite Ht; by apply Z.mod_pos_bound).
  assert (pushes c (take (Z.to_nat (j + 1)) l) = push (pushes c (take (Z.to_nat j) l)) b) as Es.
  { replace (Z.to_nat (j + 1)) with (S (Z.to_nat j)) by lia. rewrite (take_S_r _ _ _ Hb). unfold pushes. by rewrite foldl_app. }
  unfold copied. rewrite Es. cbn. by rewrite list_insert_insert_eq.
Qed.

Lemma copy_loop s i c data k : scratch_ok s → conns s !! i = Some c → ring_ok c →
  0 ≤ data → 0 ≤ k → data + k ≤ 2048 → rx_avail c + k ≤ TCP_RX_BUF_SIZE →
  for_all (Z.to_nat k) 0 (λ j, b ← rx (data + j); rx_push i b) s =
  Done tt (copied s i c (drop (Z.to_nat data) (rx_scratch s)) k).
Proof.
  intros HS Hc Hr Hd Hk Hdk Hav. rewrite <-(copied_0 s i c (drop (Z.to_nat data) (rx_scratch s)) Hc) at 1.
  rewrite for_all_eq; [by rewrite Z.add_0_l, Z2Nat.id by done|].
  intros j Hj. apply copy_step; done || lia.
Qed.

(** A length beyond the end of the packet: the loop leaves the buffer. *)
Lemma copy_overread s i c data k : scratch_ok s → conns s !! i = Some c → ring_ok c →
  0 ≤ data ≤ 2048 → 2048 < data + k → rx_avail c + 2048 ≤ TCP_RX_BUF_SIZE →
  for_all (Z.to_nat k) 0 (λ j, b ← rx (data + j); rx_push i b) s = Fault.
Proof.
  intros HS Hc Hr Hd Hk Hav. rewrite <-(copied_0 s i c (drop (Z.to_nat data) (rx_scratch s)) Hc).
  apply (for_all_fault (Z.to_nat (2048 - data))); [lia| |].
  - intros j Hj. apply copy_step; done || lia.
  - apply bind_fault. unfold rx, SCRATCH_SIZE. rewrite (proj2 (Z.ltb_ge _ _)) by lia. by rewrite andb_false_r.
Qed.

(** The connection after a segment whose first bytes are [l]. *)
Definition received (c : tcp_conn) (ack : Z) (l : list Z) : tcp_conn :=
  (pushes c l) <| rx_avail := rx_avail c + Z.of_nat (length l) |> <| cack := ack |>.

Lemma received_ok c ack l : conn_ok c → rx_avail c + Z.of_nat (length l) ≤ TCP_RX_BUF_SIZE →
  conn_ok (received c ack l) ∧ queue (received c ack l) = queue c ++ l.
Proof.
  intros [Hr Hs] Hl. destruct (pushes_ok c l Hr Hl) as [P1 P2]. destruct (pushes_head c l) as (E1 & E2 & E3 & _).
  destruct Hr as (Hh & Ha & Ht). split; [|exact P1]. unfold conn_ok, ring_ok.
  change (rx_head (received c ack l)) with (rx_head (pushes c l)).
  change (rx_tail (received c ack l)) with (rx_tail (pushes c l)).
  change (cstate (received c ack l)) with (cstate (pushes c l)).
  change (rx_avail (received c ack l)) with (rx_avail c + Z.of_nat (length l)).
  rewrite E1, E3, P2. split_and!; try lia; done || apply Hs.
Qed.

(** Bytes [data] to [data + data_len] of the packet are appended to the queue, as
    far as there is room; all of them are acknowledged. *)
Lemma tcp_data_eq s i c seq data data_len : scratch_ok s → conns s !! i = Some c → ring_ok c →
  0 ≤ data → 0 < data_len → data + data_len ≤ 2048 →
  let k := Z.min data_len (TCP_RX_BUF_SIZE - rx_avail c) in
  let l := take (Z.to_nat k) (drop (Z.to_nat data) (rx_scratch s)) in
  tcp_data poll i seq data data_len s =
  (_ ← tcp_send_seg poll i TCP_FLAG_ACK []; mret tt)
    (s <| conns := <[i := received c (u32 (seq + data_len)) l]> (conns s) |>).
Proof.
  intros HS Hc Hr Hd Hdl Hdd k l. pose proof Hr as (Hh & Ha & Ht). unfold tcp_data.
  rewrite (proj2 (Z.leb_gt _ 0)) by done. rewrite (bind_done (conn i) _ s c s) by (unfold conn; by rewrite Hc).
  rewrite (wrap_small 32 (TCP_RX_BUF_SIZE - rx_avail c)) by (unfold TCP_RX_BUF_SIZE in *; lia).
  set (to_copy := if data_len <? _ then _ else _).
  assert (to_copy = k) as -> by (unfold to_copy, k; destruct (Z.ltb_spec data_len (TCP_RX_BUF_SIZE - rx_avail c)); lia).
  rewrite (bind_done _ _ _ _ _ (copy_loop s i c data k HS Hc Hr Hd ltac:(lia) ltac:(lia) ltac:(lia))). fold l.
  unfold copied. fold l. set (s1 := s <| conns := _ |>).
  assert (conns s1 !! i = Some (pushes c l)) as Hc1 by (cbn; apply list_lookup_insert_eq; by eapply lookup_lt_Some).
  assert (Z.of_nat (length l) = k) as Hl by (unfold l; rewrite length_take, length_drop; destruct HS; lia).
  destruct (pushes_head c l) as (_ & E2 & _).
  erewrite (bind_done (on_conn i _)); [|unfold on_conn; rewrite Hc1; reflexivity].
  unfold s1, received. cbn. rewrite list_insert_insert_eq. rewrite E2, Hl.
  rewrite (wrap_small 32 (rx_avail c + k)) by (unfold TCP_RX_BUF_SIZE in *; lia). done.
Qed.

Lemma tcp_data_keeps s i seq data data_len : net_inv n s → (i < 8)%nat → 0 ≤ data → 0 ≤ data_len →
  data + data_len ≤ 2048 → wp (tcp_data poll i seq data data_len) (λ _, net_inv n) s.
Proof.
  intros HI Hi Hd Hdl Hdd. destruct (conn_run i s HI Hi) as (c & Hc & _ & Hok).
  destruct (Z.eqb_spec data_len 0) as [->|Hne]; [by apply wp_ret|]. unfold wp.
  rewrite (tcp_data_eq s i c seq data data_len (ni_scratch _ _ HI) Hc (proj1 Hok)) by lia.
  set (l := take _ _).
  assert (rx_avail c + Z.of_nat (length l) ≤ TCP_RX_BUF_SIZE) as Hfit.
  { destruct Hok as [(_ & Ha & _) _]. unfold l. rewrite length_take. lia. }
  pose proof (set_conn_inv i _ s HI (proj1 (received_ok c (u32 (seq + data_len)) l Hok Hfit))) as HI1.
  revert HI1. generalize (s <| conns := <[i := received c (u32 (seq + data_len)) l]> (conns s) |>). intros s1 HI1.
  change (wp (_ ← tcp_send_seg poll i TCP_FLAG_ACK []; mret tt) (λ _, net_inv n) s1).
  apply keeps_bind; [by apply tcp_send_seg_keeps|intros; apply keeps_ret|done].
Qed.

Lemma tcp_fin_keeps i seq data_len flags : (i < 8)%nat → keeps (net_inv n) (tcp_fin poll i seq data_len flags).
Proof.
  intros Hi. unfold tcp_fin. apply keeps_if; [apply keeps_ret|].
  apply keeps_bind; [apply on_conn_keeps; [done|]; intros c [Hr Hs]; by split|]. intros _.
  apply keeps_bind; [by apply tcp_send_seg_keeps|]. intros _. apply on_conn_keeps; [done|].
  intros c [Hr [Hs1 Hs2]]. split; [exact Hr|]. cbn. rewrite decide_False by done. done.
Qed.

Lemma find_conn_lt k f l i : find_conn k f l = Some i → (k ≤ i < k + length l)%nat.
Proof.
  revert k. induction l as [|c l IH]; intros k E; [done|]. cbn [find_conn] in E. cbn [length].
  destruct (f c); [injection E as <-; lia|]. specialize (IH _ E). lia.
Qed.

Lemma htons_range v : 0 ≤ htons v < 65536.
Proof. by apply wrap_range. Qed.

Lemma tcp_input_keeps s i seq ack flags data data_len : net_inv n s → (i < 8)%nat →
  0 ≤ data → 0 ≤ data_len → data + data_len ≤ 2048 →
  wp (tcp_input poll i seq ack flags data data_len) (λ _, net_inv n) s.
Proof.
  intros HI Hi Hd Hdl Hdd. destruct (conn_run i s HI Hi) as (c & Hc & Ec & Hok). unfold tcp_input.
  apply wp_bind. eapply wp_of_eq; [exact Ec|]. pose proof Hok as [_ [Hs1 _]].
  destruct (cstate c) eqn:Est; try done.
  - apply keeps_if; [|apply keeps_ret|done].
    apply keeps_bind; [apply on_conn_keeps; [done|]; intros c' [? ?]; by split|]. intros _.
    apply keeps_bind; [by apply tcp_send_seg_keeps|]. intros _.
    apply on_conn_keeps; [done|]. intros c' [? ?]. by split.
  - apply wp_bind. eapply wp_mono; [by apply tcp_data_keeps|]. intros a s' HI'. by apply tcp_fin_keeps.
Qed.

Lemma tcp_handle_keeps s src tcp total : net_inv n s → 0 ≤ tcp → 20 ≤ total → tcp + total ≤ 2048 →
  Z.shiftr (fb (rx_scratch s) (tcp + 12)) 4 * 4 ≤ total →
  wp (tcp_handle poll src tcp total) (λ _, net_inv n) s.
Proof.
  intros HI Ht Htot Hend Hhdr. pose proof (ni_scratch _ _ HI) as HS. unfold tcp_handle.
  destruct (rx16_eq s (tcp + 2) HS ltac:(lia) ltac:(lia)) as [E1 _], (rx16_eq s tcp HS ltac:(lia) ltac:(lia)) as [E2 _].
  destruct (rx32_run s (tcp + 4) HS ltac:(lia) ltac:(lia)) as (seq & E3 & _), (rx32_run s (tcp + 8) HS ltac:(lia) ltac:(lia)) as (ack & E4 & _).
  destruct (rx_eq s (tcp + 13) HS ltac:(lia)) as [E5 _], (rx_eq s (tcp + 12) HS ltac:(lia)) as [E6 B6].
  unfold wp. rewrite (bind_done _ _ _ _ _ E1), (bind_done _ _ _ _ _ E2), (bind_done _ _ _ _ _ E3),
    (bind_done _ _ _ _ _ E4), (bind_done _ _ _ _ _ E5), (bind_done _ _ _ _ _ E6), (bind_done (gets _) _ _ _ _ eq_refl).
  set (hdr := Z.shiftr _ 4 * 4) in *. assert (0 ≤ hdr) as Hh.
  { unfold hdr, byte in *. rewrite Z.shiftr_div_pow2 by lia. Z.div_mod_to_equations. lia. }
  rewrite (wrap_small 64 (total - hdr)) by lia.
  destruct (find_conn 0 _ (conns s)) as [i|] eqn:Ef; [|exact HI].
  apply find_conn_lt in Ef as Hi. rewrite (proj1 (ni_conns _ _ HI)) in Hi.
  apply tcp_input_keeps; [done|lia..].
Qed.

Lemma udp_dns_handle_keeps s payload len : net_inv n s → 0 ≤ payload → payload + len ≤ 2048 →
  wp (udp_dns_handle payload len) (λ _, net_inv n) s.
Proof.
  intros HI Hp Hl. pose proof (ni_scratch _ _ HI) as HS. unfold udp_dns_handle.
  destruct (Z.ltb_spec len 12); [by apply wp_ret|]. destruct (Z.ltb_spec DNS_BUF_SIZE len); [by apply wp_ret|].
  cbn [orb]. destruct (rx_eq s payload HS ltac:(lia)) as [E1 _], (rx_eq s (payload + 1) HS ltac:(lia)) as [E2 _].
  unfold wp. rewrite (bind_done _ _ _ _ _ E1), (bind_done _ _ _ _ _ E2), (bind_done (gets _) _ _ _ _ eq_refl).
  destruct (negb _); [exact HI|].
  rewrite (bind_done _ _ _ _ _ (rx_bytes_eq s (Z.to_nat len) HS payload ltac:(lia) ltac:(lia))).
  set (l := take _ _). assert (length l = Z.to_nat len) as Hll by (unfold l; rewrite length_take, length_drop; destruct HS; lia).
  destruct HI as [H1 H2 H3 (H4 & H4' & H4'') Ht H5]. split; try done. unfold DNS_BUF_SIZE in *. cbn. split_and!; [|  |lia].
  - rewrite length_splice; lia.
  - apply bytes_splice; [done|]. unfold l. apply Forall_take, Forall_drop, HS.
Qed.

(** ** A whole packet *)

(** The packet in [rx_scratch] is [f]. *)
Definition loaded (f : list Z) (s : nst) : Prop :=
  ∀ i, 0 ≤ i < Z.of_nat (length f) → fb (rx_scratch s) i = fb f i.

Lemma rx_loaded f s i : scratch_ok s → loaded f s → Z.of_nat (length f) ≤ 2048 → 0 ≤ i < Z.of_nat (length f) →
  rx i s = Done (fb f i) s ∧ byte (fb f i).
Proof. intros HS HL Hf Hi. destruct (rx_eq s i HS ltac:(lia)) as [E B]. by rewrite HL in E, B by done. Qed.

Lemma rx16_loaded f s i : scratch_ok s → loaded f s → Z.of_nat (length f) ≤ 2048 → 0 ≤ i → i + 2 ≤ Z.of_nat (length f) →
  rx16 i s = Done (fb f i + 256 * fb f (i + 1)) s ∧ byte (fb f i) ∧ byte (fb f (i + 1)).
Proof.
  intros HS HL Hf Hi Hi'. destruct (rx_loaded f s i) as [E1 B1], (rx_loaded f s (i + 1)) as [E2 B2]; try done; try lia.
  unfold rx16. by rewrite (bind_done _ _ _ _ _ E1), (bind_done _ _ _ _ _ E2).
Qed.

Lemma rx_bytes_loaded f s k i : scratch_ok s → loaded f s → Z.of_nat (length f) ≤ 2048 → 0 ≤ i →
  i + Z.of_nat k ≤ Z.of_nat (length f) → rx_bytes k i s = Done (take k (drop (Z.to_nat i) f)) s.
Proof.
  intros HS HL Hf. revert i. induction k as [|k IH]; intros i Hi Hk; cbn [rx_bytes]; [done|].
  destruct (rx_loaded f s i HS HL Hf ltac:(lia)) as [E1 _]. rewrite (bind_done _ _ _ _ _ E1).
  rewrite (bind_done _ _ _ _ _ (IH (i + 1) ltac:(lia) ltac:(lia))).
  apply (f_equal (λ l, Done l s)). unfold fb. destruct (lookup_lt_is_Some_2 f (Z.to_nat i)) as [b E]; [lia|].
  rewrite (drop_S _ _ _ E), (list_lookup_total_correct _ _ _ E). cbn [take]. do 2 f_equal. f_equal. lia.
Qed.

Lemma htons_swap a b : byte a → byte b → htons (a + 256 * b) = 256 * a + b.
Proof. unfold byte. intros Ha Hb. rewrite htons_eq by lia. Z.div_mod_to_equations. lia. Qed.

Lemma ip_handle_keeps s f : net_inv n s → loaded f s → frame_ok f → 14 ≤ Z.of_nat (length f) →
  fb f 12 = 8 → fb f 13 = 0 →
  wp (ip_handle poll sizeof_eth (Z.of_nat (length f) - sizeof_eth)) (λ _, net_inv n) s.
Proof.
  intros HI HL (Hb & Hlen & Hok) Hl14 E12 E13. pose proof (ni_scratch _ _ HI) as HS. unfold SCRATCH_SIZE in Hlen.
  unfold ip_handle, sizeof_eth, sizeof_ip, sizeof_tcp, sizeof_udp.
  destruct (Z.ltb_spec (Z.of_nat (length f) - 14) 20); [by apply wp_ret|].
  apply wp_bind. eapply wp_of_eq; [by apply (rx_loaded f s 14); [..|lia]|].
  destruct (Z.eqb_spec (Z.shiftr (fb f 14) 4) 4) as [E14|]; cbn [negb]; [|by apply wp_ret].
  apply wp_bind. eapply wp_of_eq; [by apply (rx_bytes_loaded f s 4); [..|lia|lia]|].
  apply wp_bind. eapply wp_of_eq; [done|].
  destruct (bool_decide _); cbn [negb]; [|by apply wp_ret].
  destruct (rx16_loaded f s 16) as (E16 & B16 & B17); [done..|lia|lia|].
  apply wp_bind. eapply wp_of_eq; [exact E16|]. rewrite htons_swap by done. change (16 + 1) with 17 in *. fold (ip_total f).
  destruct (Z.ltb_spec (Z.of_nat (length f) - 14) (ip_total f)) as [|Htot]; [by apply wp_ret|].
  destruct Hok as [Hihl Htcp]; [|lia|].
  { unfold is_ip_frame. rewrite (proj2 (Z.leb_le _ _)), E12, E13, E14 by lia. done. }
  fold (ihl f). assert (0 ≤ ihl f) as Hih by (unfold ihl; pose proof (Z.land_nonneg (fb f 14) 15); lia).
  assert (0 ≤ ip_total f < 65536) as Hit by (unfold ip_total, byte in *; lia).
  rewrite (wrap_small 64 (ip_total f - ihl f)) by lia.
  apply wp_bind. eapply wp_of_eq; [by apply (rx_loaded f s 23); [..|lia]|].
  destruct (Z.eqb_spec (fb f 23) IP_PROTO_TCP) as [Et|_].
  - destruct (Z.ltb_spec (ip_total f - ihl f) 20); [by apply wp_ret|].
    apply wp_bind. eapply wp_of_eq; [by apply (rx_bytes_loaded f s 4); [..|lia|lia]|].
    apply tcp_handle_keeps; [done|lia..|]. rewrite HL by lia. by apply Htcp.
  - destruct (_ =? IP_PROTO_UDP); [|by apply wp_ret].
    destruct (Z.ltb_spec (ip_total f - ihl f) 8); [by apply wp_ret|].
    apply wp_bind. eapply wp_of_eq; [by apply (rx16_loaded f s (14 + ihl f + 2)); [..|lia|lia]|].
    destruct (_ =? DNS_LOCAL_PORT); [|by apply wp_ret]. apply udp_dns_handle_keeps; [done|lia..].
Qed.

Lemma arp_handle_keeps s f : net_inv n s → loaded f s → frame_ok f → 
  wp (arp_handle sizeof_eth (Z.of_nat (length f) - sizeof_eth)) (λ _, net_inv n) s.
Proof.
  intros HI HL (Hb & Hlen & _). pose proof (ni_scratch _ _ HI) as HS. unfold SCRATCH_SIZE in Hlen.
  unfold arp_handle, sizeof_eth, sizeof_arp.
  destruct (Z.ltb_spec (Z.of_nat (length f) - 14) 28); [by apply wp_ret|].
  apply wp_bind. eapply wp_of_eq; [by apply (rx16_loaded f s 16); [..|lia|lia]|].
  destruct (negb _); [by apply wp_ret|].
  apply wp_bind. eapply wp_of_eq; [by apply (rx_bytes_loaded f s 4); [..|lia|lia]|].
  apply wp_bind. eapply wp_of_eq; [by apply (rx_bytes_loaded f s 6); [..|lia|lia]|].
  apply wp_bind. eapply wp_of_eq; [done|]. set (s1 := s <| arp_cache := _ |>).
  assert (net_inv n s1) as HI1 by (destruct HI as [H1 H2 H3 H4 Ht H5]; split; try done; by apply arp_cache_put_ok).
  apply wp_bind. eapply wp_of_eq; [by apply (rx16_loaded f s1 20); [..|lia|lia]|].
  destruct (_ =? ARP_OP_REQUEST); [|by apply wp_ret].
  apply wp_bind. eapply wp_of_eq; [by apply (rx_bytes_loaded f s1 4); [..|lia|lia]|].
  apply wp_bind. eapply wp_of_eq; [done|].
  destruct (bool_decide _); [by apply arp_send_reply_keeps|by apply wp_ret].
Qed.

Lemma eth_handle_keeps s f : net_inv n s → loaded f s → frame_ok f →
  wp (eth_handle poll (Z.of_nat (length f))) (λ _, net_inv n) s.
Proof.
  intros HI HL Hf. pose proof Hf as (Hb & Hlen & _). unfold SCRATCH_SIZE in Hlen. unfold eth_handle.
  destruct (Z.ltb_spec (Z.of_nat (length f)) sizeof_eth) as [|H14]; [by apply wp_ret|]. unfold sizeof_eth in H14.
  destruct (rx16_loaded f s 12) as (E12 & B12 & B13); [apply HI|done|lia..|].
  apply wp_bind. eapply wp_of_eq; [exact E12|]. rewrite htons_swap by done. change (12 + 1) with 13 in *.
  destruct (_ =? ETH_TYPE_ARP); [by apply arp_handle_keeps|].
  destruct (Z.eqb_spec (256 * fb f 12 + fb f 13) ETH_TYPE_IP) as [E|_]; [|by apply wp_ret].
  unfold ETH_TYPE_IP, byte in *. by apply ip_handle_keeps; [..|lia|lia|lia].
Qed.
End Sending.

(** The state after a frame has been received. *)
Lemma receive_run n s : net_inv n s →
  match receive s with
  | Done None s' => net_inv n s' ∧ frames (dev s) = frames (dev s')
  | Done (Some len) s' => ∃ f m, n = S m ∧ len = Z.of_nat (length f) ∧ frames (dev s) = f :: frames (dev s') ∧ frame_ok f ∧
                            loaded f s' ∧ net_inv m s'
  | _ => False
  end.
Proof.
  intros [[H1 H1'] H2 H3 H4 Ht [H5 H5']]. unfold receive. pose proof (nic_recv (dev s)) as Hr.
  destruct (e1000_receive_packet (dev s)) as [[f|] d].
  - rewrite Hr in H5, H5'. apply list.Forall_cons in H5 as [Hf H5]. cbn [length] in H5'. pose proof Hf as (Hb & Hl & _).
    unfold SCRATCH_SIZE in *. rewrite take_ge by lia. destruct n as [|m]; [lia|].
    exists f, m. split_and!; try done.
    + intros i Hi. unfold fb. cbn. unfold splice. rewrite take_0. cbn [app]. rewrite lookup_total_app_l by lia. done.
    + split; try done; [|split; [done|cbn; lia]]. split; cbn.
      * rewrite length_splice; lia.
      * by apply bytes_splice.
  - split; [|by cbn]. split; try done. cbn. by rewrite Hr.
Qed.

Lemma net_inv_mono n m s : net_inv n s → (n ≤ m)%nat → net_inv m s.
Proof. intros [H1 H2 H3 H4 Ht [H5 H5']] Hm. split; try done. split; [done|lia]. Qed.

(** Polling returns once the frames are handled. *)
Lemma net_poll_keeps n : keeps (net_inv n) (net_poll (S n)).
Proof.
  induction n as [n IH] using lt_wf_ind. intros s HI. pose proof (receive_run n s HI) as Hr.
  unfold wp. cbn [net_poll]. unfold mbind at 1, M_bind. destruct (receive s) as [[len|] s'|?|] eqn:E; try done.
  - destruct Hr as (f & m & -> & -> & _ & Hf & HL & HI').
    destruct (Z.of_nat (length f) <=? 0); [eapply net_inv_mono; [exact HI'|lia]|].
    change (wp (eth_handle (net_poll (S m)) (Z.of_nat (length f)) ;; net_poll (S m)) (λ _, net_inv (S m)) s').
    pose proof (IH m ltac:(lia)) as IHm. apply wp_bind. eapply wp_mono; [by apply eth_handle_keeps|].
    intros a s2 HI2. eapply wp_mono; [by apply IHm|]. intros b s3 HI3. eapply net_inv_mono; [exact HI3|lia].
  - apply Hr.
Qed.
End Inv.
