(* ===== verification/NetSpec.v ===== *)
(** * What the network stack promises

    On top of the invariant of [NetInv]: polling and every operation of the
    interface return; data sent over a connection is what the other side
    receives; and what a malformed segment does. *)

From S2P Require Import Prelude Bytes NetSum Dns Net NetInv.

Section Api.
Context `{HN : Nic} `{HO : !NicOk}.
Context (n : nat) (poll : M nst unit) (Hpoll : keeps (net_inv n) poll).

(** ** The operations keep the invariant *)

Lemma simple_rand_seq_keeps : keeps (net_inv n) simple_rand_seq.
Proof.
  intros s [H1 H2 H3 H4 Ht H5]. unfold simple_rand_seq, wp. pose proof (nic_rand (dev s)) as Hr.
  destruct (net_rand (dev s)) as [r d]. split; try done. cbn in *. by rewrite Hr.
Qed.

Lemma conn_get_lt id i : conn_get id = Some i → (i < 8)%nat ∧ id = Z.of_nat i.
Proof.
  unfold conn_get, MAX_TCP_CONNS. destruct (Z.ltb_spec id 0), (Z.leb_spec 8 id); intros [= <-]. lia.
Qed.

Lemma zero_ring ip port : ring_ok (zero_conn <| remote_ip := ip |> <| remote_port := port |>).
Proof. by split_and!. Qed.

Lemma connect_round_keeps i k : (i < 8)%nat → keeps (net_inv n) (connect_round poll i k).
Proof.
  intros Hi. unfold connect_round. pose proof (conn_keeps n i Hi). pose proof (λ f d, tcp_send_seg_keeps n poll Hpoll i f d Hi).
  apply keeps_bind; [done|]. intros _. apply keeps_bind; [done|]. intros c.
  destruct (decide _); [apply keeps_ret|]. destruct (decide _); [apply keeps_ret|]. auto 10 with keeps.
Qed.

Ltac same_ring := let c := fresh "c" in intros c [? [? ?]]; by split.

Lemma tcp_connect_keeps ip port : keeps (net_inv n) (tcp_connect poll ip port).
Proof.
  intros s HI. unfold tcp_connect. apply wp_bind. eapply wp_of_eq; [done|].
  destruct (find_conn 0 is_closed _) as [i|] eqn:Ef; [|by apply wp_ret].
  apply find_conn_lt in Ef as [_ Hi]. assert (i < 8)%nat as Hi8 by (rewrite length_take in Hi; unfold MAX_TCP_CONNS in Hi; lia).
  pose proof simple_rand_seq_keeps as Hr. clear Hi. revert s HI. apply keeps_bind.
  { apply on_conn_keeps; [done|]. intros _ _. split; [apply zero_ring|done]. }
  intros _. apply keeps_bind; [done|]. intros r. apply keeps_bind; [apply on_conn_keeps; [done|same_ring]|].
  intros _. apply keeps_bind; [done|]. intros r'. apply keeps_bind; [apply on_conn_keeps; [done|same_ring]|].
  intros _. apply keeps_bind; [by apply tcp_send_seg_keeps|]. intros _.
  apply keeps_bind; [apply on_conn_keeps; [done|same_ring]|]. intros _.
  apply keeps_bind; [apply keeps_for_up; intros; by apply connect_round_keeps|]. intros [x|]; [apply keeps_ret|].
  apply keeps_bind; [apply on_conn_keeps; [done|same_ring]|]. intros _. apply keeps_ret.
Qed.

Lemma send_chunks_keeps i : (i < 8)%nat → ∀ fuel data, (length data ≤ fuel)%nat → keeps (net_inv n) (send_chunks poll fuel i data).
Proof.
  intros Hi fuel. induction fuel as [|fuel IH]; intros [|b data] Hl; cbn [send_chunks]; [apply keeps_ret|simpl in Hl; lia|apply keeps_ret|].
  apply keeps_bind; [by apply tcp_send_seg_keeps|]. intros r. apply keeps_if; [apply keeps_ret|].
  apply keeps_bind; [apply on_conn_keeps; [done|same_ring]|]. intros _. apply IH.
  change (drop 1460 (b :: data)) with (drop 1459 data). rewrite length_drop. simpl in Hl. lia.
Qed.

Lemma tcp_send_keeps id data : keeps (net_inv n) (tcp_send poll id data).
Proof.
  unfold tcp_send. destruct (conn_get id) as [i|] eqn:Ei; [|apply keeps_ret]. apply conn_get_lt in Ei as [Hi _].
  apply keeps_bind; [by apply conn_keeps|]. intros c. apply keeps_if; [apply keeps_ret|].
  apply keeps_bind; [by apply send_chunks_keeps|]. intros. apply keeps_ret.
Qed.

Lemma on_conn_twice i f g Q s :
  wp (on_conn i (g ∘ f)) Q s → wp (on_conn i f) (λ _, wp (on_conn i g) Q) s.
Proof.
  unfold on_conn, wp. destruct (conns s !! i) as [c|] eqn:E; [|done]. cbn.
  rewrite list_lookup_insert_eq by (by eapply lookup_lt_Some). cbn. by rewrite list_insert_insert_eq.
Qed.

Lemma tcp_close_keeps id : keeps (net_inv n) (tcp_close poll id).
Proof.
  unfold tcp_close. destruct (conn_get id) as [i|] eqn:Ei; [|apply keeps_ret]. apply conn_get_lt in Ei as [Hi _].
  apply keeps_bind; [by apply conn_keeps|]. intros c. destruct (decide _); [apply keeps_ret|].
  assert (keeps (net_inv n) (on_conn i (λ c, c <| cstate := TCP_STATE_CLOSED |>))) as Hclosed
    by (apply on_conn_keeps; [done|same_ring]).
  destruct (decide _); [|apply keeps_bind; [apply keeps_ret|by intros]].
  intros s HI. apply wp_bind, wp_bind. eapply wp_mono; [by apply tcp_send_seg_keeps|]. intros r s' HI'.
  apply on_conn_twice, on_conn_keeps; [done| |exact HI']. same_ring.
Qed.

(** ** Receiving from a connection *)

(** The connection after [k] bytes have been taken. *)
Definition popped (c : tcp_conn) (k : Z) : tcp_conn :=
  c <| rx_head := (rx_head c + k) `mod` TCP_RX_BUF_SIZE |> <| rx_avail := rx_avail c - k |>.

Lemma popped_ok c k : conn_ok c → 0 ≤ k ≤ rx_avail c →
  conn_ok (popped c k) ∧ queue (popped c k) = drop (Z.to_nat k) (queue c).
Proof.
  intros [(Hh & Ha & Ht) Hs] Hk. split.
  - split; [|exact Hs]. unfold ring_ok. cbn. split_and!; [by apply Z.mod_pos_bound..|lia|lia|].
    rewrite Ht, Zplus_mod_idemp_l. f_equal. lia.
  - apply list_eq. intros j. rewrite lookup_drop. unfold queue, queued. rewrite !list_lookup_fmap. cbn.
    destruct (decide (Z.of_nat j < rx_avail c - k)).
    + rewrite !lookup_seqZ_lt by lia. cbn. rewrite Zplus_mod_idemp_l. do 4 f_equal. lia.
    + rewrite !lookup_seqZ_ge by lia. done.
Qed.

Lemma rx_pops_eq k : ∀ s i c, conns s !! i = Some c → 0 ≤ rx_head c < TCP_RX_BUF_SIZE →
  rx_pops k i s =
  Done (queued c (Z.of_nat k))
    (s <| conns := <[i := c <| rx_head := (rx_head c + Z.of_nat k) `mod` TCP_RX_BUF_SIZE |>]> (conns s) |>).
Proof.
  induction k as [|k IH]; intros s i c Hc Hh; cbn [rx_pops].
  { rewrite Z.add_0_r, Z.mod_small by done. unfold mret, M_ret. f_equal.
    replace (c <| rx_head := rx_head c |>) with c by (by destruct c). rewrite list_insert_id by done. by destruct s. }
  set (c1 := c <| rx_head := (rx_head c + 1) `mod` TCP_RX_BUF_SIZE |>).
  set (s1 := s <| conns := <[i := c1]> (conns s) |>).
  rewrite (bind_done (rx_pop i) _ s (default 0 (rx_buf c !! rx_head c)) s1).
  2: { unfold rx_pop. rewrite (bind_done (conn i) _ s c s) by (unfold conn; by rewrite Hc).
       rewrite (proj2 (Z.leb_gt _ _)) by lia. erewrite bind_done; [|unfold on_conn; rewrite Hc; reflexivity].
       unfold s1, c1. rewrite <-(tail_step (rx_head c)) by lia. rewrite (Z.mod_small (rx_head c)) by done. done. }
  assert (conns s1 !! i = Some c1) as Hc1 by (apply list_lookup_insert_eq; by eapply lookup_lt_Some).
  rewrite (bind_done _ _ _ _ _ (IH s1 i c1 Hc1 ltac:(by apply Z.mod_pos_bound))).
  unfold s1, mret, M_ret. cbn. rewrite list_insert_insert_eq. f_equal.
  - unfold queued. rewrite (seqZ_cons 0 (Z.of_nat (S k))) by lia. cbn [fmap list_fmap]. rewrite Z.add_0_r, Z.mod_small by done. f_equal.
    rewrite Nat2Z.inj_succ, Z.pred_succ. change (Z.succ 0) with (1 + 0). rewrite <-fmap_add_seqZ, <-list_fmap_compose.
    apply list_fmap_ext. intros j x _. cbn. by rewrite Zplus_mod_idemp_l, <-Z.add_assoc.
  - unfold c1. cbn. rewrite Zplus_mod_idemp_l. by replace (rx_head c + 1 + Z.of_nat k) with (rx_head c + Z.of_nat (S k)) by lia.
Qed.

(** The bytes at the head of the queue are taken. *)
Lemma tcp_take_run s i c max_len : conns s !! i = Some c → ring_ok c → 0 < rx_avail c → 0 ≤ max_len →
  let k := Z.min (rx_avail c) max_len in
  tcp_take i max_len s = Done (k, take (Z.to_nat k) (queue c)) (s <| conns := <[i := popped c k]> (conns s) |>).
Proof.
  intros Hc (Hh & Ha & Ht) Hav Hm k. unfold tcp_take.
  rewrite (bind_done (conn i) _ s c s) by (unfold conn; by rewrite Hc). rewrite (proj2 (Z.eqb_neq _ 0)) by lia.
  set (to_read := if rx_avail c <? max_len then _ else _).
  assert (to_read = k) as -> by (unfold to_read, k; destruct (Z.ltb_spec (rx_avail c) max_len); lia).
  assert (0 ≤ k ≤ 262144 ∧ k ≤ rx_avail c) as [Hk Hk'] by (unfold k, TCP_RX_BUF_SIZE in *; lia).
  rewrite (bind_done _ _ _ _ _ (rx_pops_eq (Z.to_nat k) s i c Hc Hh)). rewrite Z2Nat.id by lia.
  erewrite (bind_done (on_conn i _)).
  2: { unfold on_conn. cbn. rewrite list_lookup_insert_eq by (by eapply lookup_lt_Some). reflexivity. }
  unfold mret, M_ret. cbn. rewrite list_insert_insert_eq.
  rewrite (wrap_small 32 k), (wrap_small 32 (rx_avail c - k)) by (unfold TCP_RX_BUF_SIZE in *; lia).
  unfold queue. rewrite queued_take by lia. by rewrite sint_small by lia.
Qed.

Lemma tcp_take_keeps i max_len : (i < 8)%nat → 0 ≤ max_len → keeps (net_inv n) (tcp_take i max_len).
Proof.
  intros Hi Hm s HI. destruct (conn_run n i s HI Hi) as (c & Hc & Ec & Hok). destruct (decide (rx_avail c = 0)) as [E0|E0].
  - unfold tcp_take. apply wp_bind. eapply wp_of_eq; [exact Ec|]. by rewrite E0.
  - destruct Hok as [Hr Hs]. pose proof Hr as (_ & Ha & _). eapply wp_of_eq; [apply tcp_take_run; [done..|lia|done]|].
    apply set_conn_inv; [done|]. apply popped_ok; [done|lia].
Qed.

Lemma tcp_recv_keeps id max_len : 0 ≤ max_len → keeps (net_inv n) (tcp_recv poll id max_len).
Proof.
  intros Hm. unfold tcp_recv. destruct (conn_get id) as [i|] eqn:Ei; [|apply keeps_ret]. apply conn_get_lt in Ei as [Hi _].
  pose proof (conn_keeps n i Hi) as Hconn. pose proof (tcp_take_keeps i max_len Hi Hm) as Htake.
  apply keeps_bind; [|intros [[r|]|]; [apply keeps_ret|done..]].
  apply keeps_for_up. intros k. unfold recv_round. apply keeps_bind; [done|]. intros _.
  apply keeps_bind; [done|]. intros c. apply keeps_if; [apply keeps_ret|]. apply keeps_if.
  - apply keeps_bind; [|intros; apply keeps_ret]. apply keeps_for_up. intros j. unfold linger_round.
    apply keeps_bind; [done|]. intros _. apply keeps_bind; [done|]. intros. apply keeps_ret.
  - destruct (decide _); apply keeps_ret.
Qed.

(** ** Names *)

Lemma dns_resolve_keeps ls : Forall host_label ls → len_ (enc_labels ls) ≤ 495 →
  keeps (net_inv n) (dns_resolve poll (join ls)).
Proof.
  intros Hok Hl. unfold dns_resolve. apply keeps_if; [apply keeps_ret|]. intros s HI.
  pose proof (ni_txid _ _ HI) as Ht. apply wp_bind. eapply wp_of_eq; [done|]. apply wp_bind. eapply wp_of_eq; [done|].
  set (s1 := s <| txid_counter := _ |> <| dns_rx_ready := _ |> <| dns_rx_txid := _ |>).
  assert (net_inv n s1) as HI1 by (destruct HI as [H1 H2 H3 H4 _ H5]; split; try done; by apply wrap_range).
  unfold DNS_BUF_SIZE. rewrite (dns_build_query_eq _ ls Ht Hok Hl). set (q := address_query _ ls).
  rewrite (proj2 (Z.ltb_ge (len_ q) 0)) by lia. apply wp_bind. eapply wp_mono.
  { apply keeps_for_up; [|exact HI1]. intros k. unfold dns_attempt.
    apply keeps_bind; [by apply udp_send_keeps|]. intros _. apply keeps_bind; [|auto with keeps].
    apply keeps_for_up. intros j. unfold dns_wait. apply keeps_bind; [apply keeps_gets|]. intros r. auto with keeps. }
  intros o s2 HI2. apply wp_bind. eapply wp_of_eq; [done|]. destruct (negb _); [exact HI2|].
  apply wp_bind. eapply wp_of_eq; [done|]. apply wp_bind. eapply wp_of_eq; [done|].
  destruct (ni_dns _ _ HI2) as (D1 & D2 & D3).
  destruct (dns_parse_safe (dns_rx_buf s2) (dns_rx_len s2) D2 ltac:(lia)) as (r & -> & _). exact HI2.
Qed.

(** [tcp_recv] when the first poll leaves data in the queue. *)
Lemma tcp_recv_run s s1 i c max_len : (i < 8)%nat → poll s = Done tt s1 → conns s1 !! i = Some c → conn_ok c →
  0 < rx_avail c → 0 ≤ max_len →
  let k := Z.min (rx_avail c) max_len in
  tcp_recv poll (Z.of_nat i) max_len s =
  Done (k, take (Z.to_nat k) (queue c)) (s1 <| conns := <[i := popped c k]> (conns s1) |>).
Proof.
  intros Hi Ep Hc [Hr _] Hav Hm k. unfold tcp_recv, conn_get, MAX_TCP_CONNS.
  rewrite (proj2 (Z.ltb_ge _ 0)), (proj2 (Z.leb_gt 8 _)) by lia. cbn [orb]. rewrite Nat2Z.id.
  assert (recv_round poll i 0 s = Done (Some None) s1) as Er.
  { unfold recv_round. rewrite (bind_done _ _ _ _ _ Ep), (bind_done (conn i) _ s1 c s1) by (unfold conn; by rewrite Hc).
    by rewrite (proj2 (Z.ltb_lt 0 _)) by done. }
  rewrite (bind_done _ _ _ _ _ (for_up_first (Z.to_nat 2000000) 0 _ s None s1 ltac:(lia) Er)).
  by apply tcp_take_run.
Qed.

(** [tcp_recv] after the other side has finished. *)
Lemma tcp_recv_eof s s1 i c max_len : (i < 8)%nat → poll s = Done tt s1 → poll s1 = Done tt s1 →
  conns s1 !! i = Some c → rx_avail c = 0 → fin_received c = true →
  tcp_recv poll (Z.of_nat i) max_len s = Done (0, []) s1.
Proof.
  intros Hi Ep Eq Hc Hz Hfin. unfold tcp_recv, conn_get, MAX_TCP_CONNS.
  rewrite (proj2 (Z.ltb_ge _ 0)), (proj2 (Z.leb_gt 8 _)) by lia. cbn [orb]. rewrite Nat2Z.id.
  assert (conn i s1 = Done c s1) as Ec by (unfold conn; by rewrite Hc).
  assert (∀ n, for_up n 0 (linger_round poll i) s1 = Done None s1) as Hl.
  { intros n'. rewrite (for_up_search n' 0 _ (λ _, None)).
    - apply (f_equal (λ r, Done r s1)). by apply first_some_None.
    - intros k _. unfold linger_round. rewrite (bind_done _ _ _ _ _ Eq), (bind_done _ _ _ _ _ Ec). by rewrite Hz. }
  rewrite (bind_done _ _ _ _ _ (for_up_first (Z.to_nat 2000000) 0 (recv_round poll i) s (Some 0) s1 ltac:(lia)
    ltac:(unfold recv_round; rewrite (bind_done _ _ _ _ _ Ep), (bind_done _ _ _ _ _ Ec), Hz, Hfin;
          cbn [Z.ltb Z.compare]; by rewrite (bind_done _ _ _ _ _ (Hl _))))).
  done.
Qed.
End Api.

(** ** A segment on the wire *)

(** The frame with a segment of connection [c], with data and flags, from the
    machine [src] to the machine [dst]. *)
Definition segment_frame (dst_mac src_mac src_ip dst_ip : list Z) (id flags : Z) (c : tcp_conn) (data : list Z) : list Z :=
  let tcp := tcp_header c flags (tcp_checksum src_ip dst_ip (tcp_header c flags 0 ++ data)) ++ data in
  let total := sizeof_ip + Z.of_nat (length tcp) in
  let ip ck := ip_header total id IP_PROTO_TCP ck src_ip dst_ip in
  dst_mac ++ src_mac ++ st16 (htons ETH_TYPE_IP) ++ ip (ip_checksum (ip 0)) ++ tcp.

Section Wire.
Context `{HN : Nic}.

(** The frame that the machine in state [s] sends to [mac] on connection [c]. *)
Definition outgoing (s : nst) (mac : list Z) (c : tcp_conn) (flags : Z) (data : list Z) : list Z :=
  segment_frame mac (my_mac s) (my_ip s) (remote_ip c) (ip_id_counter s) flags c data.

(** The hardware address of the next hop to [ip] is known to be [mac]. *)
Definition resolved (s : nst) (ip mac : list Z) : Prop := arp_cache_get (next_hop ip s) (arp_cache s) = Some mac.

Lemma tcp_send_seg_eq poll s i c mac flags data : conns s !! i = Some c → resolved s (remote_ip c) mac →
  length (my_ip s) = 4%nat → length (remote_ip c) = 4%nat → (length data ≤ 1460)%nat →
  tcp_send_seg poll i flags data s =
  send_frame (outgoing s mac c flags data) (s <| ip_id_counter := u16 (ip_id_counter s + 1) |>).
Proof.
  intros Hc Hm Hip Hrip Hd. unfold tcp_send_seg. rewrite (take_ge data) by lia.
  rewrite (bind_done (conn i) _ s c s) by (unfold conn; by rewrite Hc). rewrite (bind_done (gets _) _ _ _ _ eq_refl).
  unfold outgoing, segment_frame. set (tcp := tcp_header c flags (tcp_checksum _ _ _) ++ data).
  assert (length tcp = 20 + length data)%nat as Htcp by (unfold tcp, tcp_header; rewrite !length_app; done).
  unfold ip_send. rewrite (bind_done (gets _) _ _ _ _ eq_refl).
  rewrite (bind_done (net_arp_resolve poll _) _ s (Some mac) s).
  2: { unfold net_arp_resolve. rewrite (bind_done (gets _) _ _ _ _ eq_refl). by rewrite Hm. }
  rewrite (proj2 (Z.ltb_ge 1500 _)) by (unfold sizeof_ip; lia).
  rewrite (bind_done (gets _) _ _ _ _ eq_refl), (bind_done (modify _) _ _ tt _ eq_refl), (bind_done (gets _) _ _ _ _ eq_refl).
  unfold eth_send. rewrite (proj2 (Z.ltb_ge SCRATCH_SIZE _)).
  - by rewrite (bind_done (gets _) _ _ _ _ eq_refl).
  - unfold SCRATCH_SIZE, sizeof_eth, ip_header. rewrite !length_app, Htcp.
    change (my_ip (s <| ip_id_counter := _ |>)) with (my_ip s). rewrite Hip, Hrip. cbn. lia.
Qed.

(** ** Reading it again *)

Lemma rx_field f s i b : scratch_ok s → loaded f s → Z.of_nat (length f) ≤ 2048 → 0 ≤ i →
  f !! Z.to_nat i = Some b → rx i s = Done b s.
Proof.
  intros HS HL Hf Hi Hb. destruct (rx_loaded f s i) as [E _]; try done.
  - apply lookup_lt_Some in Hb. lia.
  - rewrite E. unfold fb. by rewrite (list_lookup_total_correct _ _ _ Hb).
Qed.

Lemma rx16_field f s i v : scratch_ok s → loaded f s → Z.of_nat (length f) ≤ 2048 → 0 ≤ i →
  take 2 (drop (Z.to_nat i) f) = st16 v → 0 ≤ v < 65536 → rx16 i s = Done v s.
Proof.
  intros HS HL Hf Hi E Hv. unfold rx16, st16 in *. cbn [le_bytes] in E.
  rewrite (bind_done (rx i) _ s (v `mod` 256) s), (bind_done (rx (i + 1)) _ s ((v / 256) `mod` 256) s).
  - unfold mret, M_ret. f_equal. Z.div_mod_to_equations. lia.
  - apply (rx_field f); [done..|lia|]. apply (f_equal (λ l, l !! 1%nat)) in E. cbn in E. rewrite <-E.
    rewrite lookup_take_lt, lookup_drop by lia. f_equal. lia.
  - apply (rx_field f); [done..|]. apply (f_equal (λ l, l !! 0%nat)) in E. cbn in E. rewrite <-E.
    rewrite lookup_take_lt, lookup_drop by lia. f_equal. lia.
Qed.

Lemma rx32_field f s i v : scratch_ok s → loaded f s → Z.of_nat (length f) ≤ 2048 → 0 ≤ i →
  take 4 (drop (Z.to_nat i) f) = st32 v → 0 ≤ v < 2 ^ 32 → rx32 i s = Done v s.
Proof.
  intros HS HL Hf Hi E Hv. unfold rx32.
  rewrite (bind_done (rx16 i) _ s (v `mod` 65536) s), (bind_done (rx16 (i + 2)) _ s (v / 65536) s).
  - unfold mret, M_ret. f_equal. Z.div_mod_to_equations. lia.
  - apply (rx16_field f); [done..|lia| |Z.div_mod_to_equations; lia]. replace (Z.to_nat (i + 2)) with (Z.to_nat i + 2)%nat by lia.
    rewrite <-drop_drop. change 2%nat with (4 - 2)%nat at 1. rewrite <-skipn_firstn_comm, E.
    unfold st32, st16. cbn [le_bytes skipn]. by rewrite (Z.div_div v 256 256) by lia.
  - apply (rx16_field f); [done..| |Z.div_mod_to_equations; lia].
    replace (take 2 (drop (Z.to_nat i) f)) with (take 2 (take 4 (drop (Z.to_nat i) f))) by (by rewrite take_take).
    rewrite E. unfold st32, st16. cbn [le_bytes firstn]. f_equal; [|f_equal]; Z.div_mod_to_equations; lia.
Qed.

(** The ranges of the fields of a connection, and the lengths of the addresses. *)
Definition conn_fields (c : tcp_conn) : Prop :=
  0 ≤ local_port c < 65536 ∧ 0 ≤ remote_port c < 65536 ∧ 0 ≤ cseq c < 2 ^ 32 ∧ 0 ≤ cack c < 2 ^ 32 ∧
  length (remote_ip c) = 4%nat.

Lemma length_segment_frame dmac smac ip dip id flags c data : length dmac = 6%nat → length smac = 6%nat →
  length ip = 4%nat → length dip = 4%nat →
  length (segment_frame dmac smac ip dip id flags c data) = (54 + length data)%nat.
Proof.
  intros H1 H2 H3 H4. unfold segment_frame, ip_header, tcp_header. rewrite !length_app, H1, H2, H3, H4. done.
Qed.

(** The addresses as lists of bytes, so that the fields of the frame compute. *)
Ltac explicit_addresses dmac smac ip dip :=
  destruct dmac as [|? [|? [|? [|? [|? [|? []]]]]]]; try done;
  destruct smac as [|? [|? [|? [|? [|? [|? []]]]]]]; try done;
  destruct ip as [|? [|? [|? [|? []]]]]; try done;
  destruct dip as [|? [|? [|? [|? []]]]]; try done.

Section Segment.
Context (s : nst) (dmac smac ip dip : list Z) (id flags : Z) (c : tcp_conn) (data : list Z).
Let f := segment_frame dmac smac ip dip id flags c data.
Context (HS : scratch_ok s) (HL : loaded f s) (Hdm : length dmac = 6%nat) (Hsm : length smac = 6%nat)
  (Hip : length ip = 4%nat) (Hdip : length dip = 4%nat) (Hd : (length data ≤ 1460)%nat).

Lemma segment_fits : length f = (54 + length data)%nat ∧ Z.of_nat (length f) ≤ 2048.
Proof. assert (length f = (54 + length data)%nat) by (by apply length_segment_frame). lia. Qed.

(** The Ethernet and the IP header lead to the segment. *)
Lemma eth_handle_tcp poll : my_ip s = dip →
  eth_handle poll (Z.of_nat (length f)) s = tcp_handle poll ip 34 (20 + Z.of_nat (length data)) s.
Proof.
  intros Hmy. destruct segment_fits as [Hlen Hf].
  pose proof (rx_field f s) as G. pose proof (rx16_field f s) as G16. pose proof (rx_bytes_loaded f s 4) as GB.
  assert (htons (htons (u16 (sizeof_ip + Z.of_nat (20 + length data)))) = 40 + Z.of_nat (length data)) as Etot.
  { rewrite htons_involutive by (by apply wrap_range). unfold sizeof_ip. rewrite wrap_small; lia. }
  subst f. explicit_addresses dmac smac ip dip. set (f := segment_frame _ _ _ _ _ _ _ _) in *.
  unfold eth_handle. rewrite (proj2 (Z.ltb_ge _ sizeof_eth)) by (unfold sizeof_eth; lia).
  rewrite (bind_done _ _ _ _ _ (G16 12 (htons ETH_TYPE_IP) HS HL Hf ltac:(lia) ltac:(reflexivity) ltac:(done))).
  change (htons (htons ETH_TYPE_IP) =? ETH_TYPE_ARP) with false. change (htons (htons ETH_TYPE_IP) =? ETH_TYPE_IP) with true.
  cbv iota. unfold ip_handle. change sizeof_eth with 14. rewrite (proj2 (Z.ltb_ge _ sizeof_ip)) by (unfold sizeof_ip; lia).
  rewrite (bind_done _ _ _ _ _ (G 14 0x45 HS HL Hf ltac:(done) ltac:(reflexivity))).
  change (Z.shiftr 0x45 4 =? 4) with true. cbn [negb].
  rewrite (bind_done _ _ _ _ _ (GB (14 + 16) HS HL Hf ltac:(done) ltac:(lia))).
  rewrite (bind_done (gets _) _ _ _ _ eq_refl), Hmy. rewrite bool_decide_true by reflexivity. cbn [negb].
  rewrite (bind_done _ _ _ _ _ (G16 (14 + 2) (htons (u16 (sizeof_ip + Z.of_nat (20 + length data)))) HS HL Hf ltac:(done)
    ltac:(reflexivity) ltac:(by apply wrap_range))).
  rewrite Etot, (proj2 (Z.ltb_ge _ _)) by lia. change (Z.land 0x45 0xF * 4) with 20.
  rewrite (wrap_small 64) by lia.
  rewrite (bind_done _ _ _ _ _ (G (14 + 9) IP_PROTO_TCP HS HL Hf ltac:(done) ltac:(reflexivity))).
  rewrite Z.eqb_refl, (proj2 (Z.ltb_ge _ sizeof_tcp)) by (unfold sizeof_tcp; lia).
  rewrite (bind_done _ _ _ _ _ (GB (14 + 12) HS HL Hf ltac:(done) ltac:(lia))).
  by replace (40 + Z.of_nat (length data) - 20) with (20 + Z.of_nat (length data)) by lia.
Qed.

(** The TCP header leads to the connection. *)
Lemma tcp_handle_segment poll j : conn_fields c →
  find_conn 0 (conn_matches (remote_port c) (local_port c) ip) (conns s) = Some j →
  tcp_handle poll ip 34 (20 + Z.of_nat (length data)) s =
  tcp_input poll j (cseq c) (cack c) flags 54 (Z.of_nat (length data)) s.
Proof.
  intros (R1 & R2 & R3 & R4 & _) Hj. destruct segment_fits as [Hlen Hf].
  pose proof (rx_field f s) as G. pose proof (rx16_field f s) as G16. pose proof (rx32_field f s) as G32.
  subst f. explicit_addresses dmac smac ip dip. set (f := segment_frame _ _ _ _ _ _ _ _) in *. unfold tcp_handle.
  rewrite (bind_done _ _ _ _ _ (G16 (34 + 2) (htons (remote_port c)) HS HL Hf ltac:(done) ltac:(reflexivity) ltac:(by apply wrap_range))).
  rewrite (bind_done _ _ _ _ _ (G16 34 (htons (local_port c)) HS HL Hf ltac:(done) ltac:(reflexivity) ltac:(by apply wrap_range))).
  rewrite (bind_done _ _ _ _ _ (G32 (34 + 4) (htonl (cseq c)) HS HL Hf ltac:(done) ltac:(reflexivity) ltac:(by apply wrap_range))).
  rewrite (bind_done _ _ _ _ _ (G32 (34 + 8) (htonl (cack c)) HS HL Hf ltac:(done) ltac:(reflexivity) ltac:(by apply wrap_range))).
  rewrite (bind_done _ _ _ _ _ (G (34 + 13) flags HS HL Hf ltac:(done) ltac:(reflexivity))).
  rewrite (bind_done _ _ _ _ _ (G (34 + 12) 0x50 HS HL Hf ltac:(done) ltac:(reflexivity))).
  change (Z.shiftr 0x50 4 * 4) with 20. rewrite !htons_involutive, !htonl_involutive by done.
  rewrite (bind_done (gets _) _ _ _ _ eq_refl), Hj, (wrap_small 64) by lia.
  by replace (20 + Z.of_nat (length data) - 20) with (Z.of_nat (length data)) by lia.
Qed.
End Segment.

Lemma segment_data dmac smac ip dip id flags c data : length dmac = 6%nat → length smac = 6%nat → length ip = 4%nat →
  length dip = 4%nat → drop 54 (segment_frame dmac smac ip dip id flags c data) = data.
Proof. intros. by explicit_addresses dmac smac ip dip. Qed.

(** An established connection [c] of the machine in state [s]; the next hop has the address [mac]. *)
Record endpoint (s : nst) (i : nat) (c : tcp_conn) (mac : list Z) : Prop := {
  ep_conn : conns s !! i = Some c;
  ep_lt : (i < 8)%nat;
  ep_fields : conn_fields c;
  ep_ok : conn_ok c;
  ep_state : cstate c = TCP_STATE_ESTABLISHED;
  ep_arp : resolved s (remote_ip c) mac;
  ep_ip : length (my_ip s) = 4%nat;
  ep_macs : length (my_mac s) = 6%nat ∧ length mac = 6%nat }.

Lemma tcp_send_small poll s i c mac data r d : endpoint s i c mac → (0 < length data ≤ 1460)%nat →
  let f := outgoing s mac c (Z.lor TCP_FLAG_PSH TCP_FLAG_ACK) data in
  e1000_send_packet f (dev s) = (r, d) → 0 ≤ r →
  tcp_send poll (Z.of_nat i) data s =
  Done (Z.of_nat (length data))
    (s <| ip_id_counter := u16 (ip_id_counter s + 1) |> <| dev := d |>
       <| conns := <[i := c <| cseq := u32 (cseq c + Z.of_nat (length data)) |>]> (conns s) |>).
Proof.
  intros [Hc Hi (_ & _ & _ & _ & Hrip) Hok Hst Harp Hip [Hm1 Hm2]] Hd f Hs Hr. unfold tcp_send, conn_get, MAX_TCP_CONNS.
  rewrite (proj2 (Z.ltb_ge _ 0)), (proj2 (Z.leb_gt 8 _)) by lia. cbn [orb]. rewrite Nat2Z.id.
  rewrite (bind_done (conn i) _ s c s) by (unfold conn; by rewrite Hc). rewrite bool_decide_true by done. cbn [negb].
  set (s1 := s <| ip_id_counter := _ |> <| dev := d |>).
  assert (∃ b data', data = b :: data') as (b & data' & Hb) by (destruct data; [simpl in Hd; lia|eauto]).
  rewrite (bind_done (send_chunks poll (length data) i data) _ s true
    (s1 <| conns := <[i := c <| cseq := u32 (cseq c + Z.of_nat (length data)) |>]> (conns s) |>)).
  { by rewrite sint_small by lia. }
  destruct (length data) as [|m] eqn:El; [lia|]. rewrite Hb at 1. cbn [send_chunks]. rewrite <-Hb, (take_ge data) by lia.
  rewrite (bind_done (tcp_send_seg _ _ _ _) _ s r s1).
  2: { rewrite (tcp_send_seg_eq poll s i c mac) by (done || lia). unfold send_frame. fold f. cbn. by rewrite Hs. }
  rewrite (proj2 (Z.ltb_ge r 0)) by done. erewrite (bind_done (on_conn i _)); [|unfold on_conn; cbn; rewrite Hc; reflexivity].
  rewrite drop_ge by lia. rewrite El. by destruct m.
Qed.

(** The state after the frame has been received into the buffer. *)
Definition arrived (s : nst) (d : nic) (f : list Z) : nst :=
  s <| dev := d |> <| rx_scratch := splice (rx_scratch s) 0 f |>.

Lemma arrived_loaded s d f : scratch_ok s → bytes f → Z.of_nat (length f) ≤ 2048 →
  scratch_ok (arrived s d f) ∧ loaded f (arrived s d f) ∧
  ∀ k, drop k (rx_scratch (arrived s d f)) = drop k f ++ drop (length f + (k - length f)) (rx_scratch s).
Proof.
  intros [Hl Hb] Hf Hlf. split_and!.
  - split; cbn; [rewrite length_splice; lia|by apply bytes_splice].
  - intros i Hi. unfold fb, arrived. cbn. unfold splice. rewrite take_0. cbn [app]. by rewrite lookup_total_app_l by lia.
  - intros k. cbn. unfold splice. rewrite take_0. cbn [app]. by rewrite drop_app, drop_drop.
Qed.

(** A segment with data that has arrived is appended to the queue and acknowledged. *)
Lemma tcp_input_data poll s i c mac seq ack flags data rest : endpoint s i c mac → scratch_ok s →
  drop 54 (rx_scratch s) = data ++ rest → (0 < length data ≤ 1460)%nat →
  rx_avail c + Z.of_nat (length data) ≤ TCP_RX_BUF_SIZE → Z.land flags TCP_FLAG_FIN = 0 →
  let c' := received c (u32 (seq + Z.of_nat (length data))) data in
  let s' := s <| conns := <[i := c']> (conns s) |> in
  tcp_input poll i seq ack flags 54 (Z.of_nat (length data)) s =
  (_ ← send_frame (outgoing s' mac c' TCP_FLAG_ACK []); mret tt) (s' <| ip_id_counter := u16 (ip_id_counter s + 1) |>).
Proof.
  intros [Hc Hi (R1 & R2 & R3 & R4 & Hrip) [Hr _] Hst Harp Hip [Hm1 Hm2]] HS Hdrop Hd Hfit Hfin c' s'.
  pose proof Hr as (_ & Ha & _). pose proof HS as [Hl _].
  assert (Z.of_nat (length data) ≤ 1994) as Hd' by lia.
  assert (54 + length data ≤ 2048)%nat as Hbuf.
  { apply (f_equal length) in Hdrop. rewrite length_drop, length_app in Hdrop. lia. }
  unfold tcp_input. rewrite (bind_done (conn i) _ s c s) by (unfold conn; by rewrite Hc). rewrite Hst.
  unfold mbind at 1, M_bind. rewrite (tcp_data_eq poll s i c seq 54 (Z.of_nat (length data)) HS Hc Hr) by lia.
  rewrite Z.min_l, Nat2Z.id by lia. change (Z.to_nat 54) with 54%nat. rewrite Hdrop, take_app_length. fold c' s'.
  destruct (pushes_head c data) as (_ & _ & _ & Erip).
  unfold mbind at 1, M_bind. rewrite (tcp_send_seg_eq poll s' i c' mac).
  - unfold mbind, M_bind. destruct (send_frame _ _) as [r s2|?|] eqn:E; [|done..].
    unfold tcp_fin. rewrite Hfin. done.
  - unfold s'. cbn. apply list_lookup_insert_eq. by eapply lookup_lt_Some.
  - change (remote_ip c') with (remote_ip (pushes c data)). rewrite Erip. exact Harp.
  - done.
  - change (remote_ip c') with (remote_ip (pushes c data)). by rewrite Erip.
  - simpl. lia.
Qed.

Lemma bytes_segment_frame dmac smac ip dip id flags c data : bytes dmac → bytes smac → bytes ip → bytes dip →
  byte flags → bytes data → bytes (segment_frame dmac smac ip dip id flags c data).
Proof.
  intros. unfold segment_frame, ip_header, tcp_header, st16, st32.
  repeat (apply Forall_app_2 || apply bytes_le_bytes || done || (apply Forall_cons_2; [by unfold byte in *; done|]) || apply Forall_nil_2).
Qed.

(** [net_poll] takes a frame and handles it. *)
Lemma net_poll_frame fuel s f d : e1000_receive_packet (dev s) = (Some f, d) → 0 < Z.of_nat (length f) ≤ 2048 →
  net_poll (S fuel) s = (eth_handle (net_poll fuel) (Z.of_nat (length f)) ;; net_poll fuel) (arrived s d f).
Proof.
  intros E Hf. cbn [net_poll]. rewrite (bind_done receive _ s (Some (Z.of_nat (length f))) (arrived s d f)).
  - by rewrite (proj2 (Z.leb_gt _ 0)) by lia.
  - unfold receive, arrived, SCRATCH_SIZE. by rewrite E, take_ge by lia.
Qed.

(** C25: A transfer of one segment, 1 to 1460 bytes, from the machine in state
    [a], over its connection [ca], to the machine in state [b], over [cb].  Both
    connections are established and belong together, both sides know each other's
    hardware address ([endpoint]), and the data fit into what is free of the
    receiver's queue.  Then sending puts one frame on the wire and advances the
    sequence number; when that frame arrives, polling appends the data to the
    queue of the receiving connection and answers with the acknowledgement of the
    last byte.  Longer data take several frames and are not covered; data that do
    not fit are dropped by the code and acknowledged all the same. *)
Theorem tcp_transfer_correct a b i j ca cb maca macb data pa fuel r d d' :
  endpoint a i ca macb → endpoint b j cb maca → scratch_ok b →
  remote_ip ca = my_ip b → remote_ip cb = my_ip a →
  find_conn 0 (conn_matches (remote_port ca) (local_port ca) (my_ip a)) (conns b) = Some j →
  bytes (my_ip a) → bytes (my_ip b) → bytes (my_mac a) → bytes macb → bytes data →
  (0 < length data ≤ 1460)%nat → rx_avail cb + Z.of_nat (length data) ≤ TCP_RX_BUF_SIZE →
  let f := outgoing a macb ca (Z.lor TCP_FLAG_PSH TCP_FLAG_ACK) data in
  let next := u32 (cseq ca + Z.of_nat (length data)) in
  let cb' := received cb next data in
  let b' := (arrived b d' f) <| conns := <[j := cb']> (conns b) |> in
  e1000_send_packet f (dev a) = (r, d) → 0 ≤ r → e1000_receive_packet (dev b) = (Some f, d') →
  tcp_send pa (Z.of_nat i) data a =
    Done (Z.of_nat (length data))
      (a <| ip_id_counter := u16 (ip_id_counter a + 1) |> <| dev := d |>
         <| conns := <[i := ca <| cseq := next |>]> (conns a) |>) ∧
  net_poll (S fuel) b =
    (_ ← send_frame (outgoing b' maca cb' TCP_FLAG_ACK []); net_poll fuel)
      (b' <| ip_id_counter := u16 (ip_id_counter b + 1) |>) ∧
  queue cb' = queue cb ++ data ∧ cack cb' = next ∧ conn_ok cb'.
Proof.
  intros HA HB HS Eab Eba Hfind B1 B2 B3 B4 B5 Hd Hfit f next cb' b' Hsend Hr Hrecv.
  destruct (received_ok cb next data (ep_ok _ _ _ _ HB) Hfit) as [Hok Hq].
  split_and!; [by apply (tcp_send_small pa a i ca macb data r d)| |done..].
  pose proof (ep_macs _ _ _ _ HA) as [Hm1 Hm2]. pose proof (ep_ip _ _ _ _ HA) as Hia. pose proof (ep_ip _ _ _ _ HB) as Hib.
  assert (length (remote_ip ca) = 4%nat) as Hrip by (by rewrite Eab).
  assert (length f = 54 + length data)%nat as Hlen by (by apply length_segment_frame).
  assert (bytes f) as Hbf by (apply bytes_segment_frame; try done; by rewrite Eab).
  rewrite (net_poll_frame fuel b f d') by (done || lia).
  destruct (arrived_loaded b d' f HS Hbf) as (HS' & HL & Hdrop); [lia|].
  unfold mbind at 1, M_bind.
  rewrite (eth_handle_tcp (arrived b d' f) _ _ _ _ _ _ ca data HS' HL); try done; [|lia].
  rewrite (tcp_handle_segment (arrived b d' f) _ _ _ _ _ _ ca data HS' HL) with (j := j); try done; [|lia|apply HA].
  assert (endpoint (arrived b d' f) j cb maca) as HB' by (destruct HB; by split).
  rewrite (tcp_input_data _ _ j cb maca _ _ _ data (drop (length f + (54 - length f)) (rx_scratch b)) HB' HS'); try done.
  - unfold mbind, M_bind. fold next cb' b'. by destruct (send_frame _ _).
  - rewrite Hdrop. unfold f, outgoing. by rewrite segment_data.
Qed.

(** What a malformed segment does.  [tcp_handle] takes the length of the
    data to be [total] minus the length in the header; a header that claims to be
    longer than the segment makes this wrap around to almost [2 ^ 64].  Every such
    segment for an established connection, whose queue has 2048 bytes of room,
    makes the handler read beyond the receive buffer. *)
Theorem tcp_overread poll s src tcp total i c :
  scratch_ok s → 0 ≤ tcp → 20 ≤ total → tcp + total ≤ 1988 →
  total < Z.shiftr (fb (rx_scratch s) (tcp + 12)) 4 * 4 →
  conns s !! i = Some c → ring_ok c → cstate c = TCP_STATE_ESTABLISHED → rx_avail c + 2048 ≤ TCP_RX_BUF_SIZE →
  (let p k := 256 * fb (rx_scratch s) (tcp + k) + fb (rx_scratch s) (tcp + k + 1) in
   find_conn 0 (conn_matches (p 2) (p 0) src) (conns s) = Some i) →
  tcp_handle poll src tcp total s = Fault.
Proof.
  intros HS Ht Htot Hend Hhdr Hc Hr Hst Hav Hfind.
  destruct (rx16_eq s (tcp + 2) HS ltac:(lia) ltac:(lia)) as [E1 _], (rx16_eq s tcp HS ltac:(lia) ltac:(lia)) as [E2 _].
  destruct (rx32_run s (tcp + 4) HS ltac:(lia) ltac:(lia)) as (seq & E3 & _), (rx32_run s (tcp + 8) HS ltac:(lia) ltac:(lia)) as (ack & E4 & _).
  destruct (rx_eq s (tcp + 13) HS ltac:(lia)) as [E5 _], (rx_eq s (tcp + 12) HS ltac:(lia)) as [E6 B6].
  destruct (rx_eq s tcp HS ltac:(lia)) as [_ B0], (rx_eq s (tcp + 1) HS ltac:(lia)) as [_ B1],
    (rx_eq s (tcp + 2) HS ltac:(lia)) as [_ B2], (rx_eq s (tcp + 2 + 1) HS ltac:(lia)) as [_ B3].
  unfold tcp_handle. rewrite (bind_done _ _ _ _ _ E1), (bind_done _ _ _ _ _ E2), (bind_done _ _ _ _ _ E3),
    (bind_done _ _ _ _ _ E4), (bind_done _ _ _ _ _ E5), (bind_done _ _ _ _ _ E6), (bind_done (gets _) _ _ _ _ eq_refl).
  rewrite !htons_swap by done. cbv beta zeta in Hfind. rewrite Z.add_0_r in Hfind. rewrite Hfind.
  set (hdr := Z.shiftr _ 4 * 4) in *. assert (hdr ≤ 60) as Hh.
  { unfold hdr, byte in *. rewrite Z.shiftr_div_pow2 by lia. Z.div_mod_to_equations. lia. }
  assert (u64 (total - hdr) = 2 ^ 64 + total - hdr) as ->.
  { unfold wrap. symmetry. apply Z.mod_unique with (-1); lia. }
  unfold tcp_input. rewrite (bind_done (conn i) _ s c s) by (unfold conn; by rewrite Hc). rewrite Hst.
  apply bind_fault. unfold tcp_data. rewrite (proj2 (Z.leb_gt _ 0)) by lia.
  rewrite (bind_done (conn i) _ s c s) by (unfold conn; by rewrite Hc). pose proof Hr as (_ & Ha & _).
  rewrite (wrap_small 32 (TCP_RX_BUF_SIZE - rx_avail c)) by (unfold TCP_RX_BUF_SIZE in *; lia).
  rewrite (proj2 (Z.ltb_ge _ (TCP_RX_BUF_SIZE - rx_avail c))) by (unfold TCP_RX_BUF_SIZE in *; lia).
  apply bind_fault, (copy_overread s i c); done || lia.
Qed.
End Wire.

(** The interface with the whole stack behind it. *)
Section Main.
Context `{HN : Nic} `{HO : !NicOk}.

(** [net_init] sets up the connections and the ARP cache. *)
Lemma net_init_ok n s : scratch_ok s → length (dns_rx_buf s) = 512%nat ∧ bytes (dns_rx_buf s) ∧ dns_rx_len s ≤ 512 →
  0 ≤ txid_counter s < 65536 → Forall frame_ok (frames (dev s)) ∧ (length (frames (dev s)) ≤ n)%nat →
  ∃ s', net_init s = Done tt s' ∧ net_inv n s' ∧ arp_cache_get (my_gw s) (arp_cache s') = Some qemu_gw_mac.
Proof.
  intros HS HD HT HF. eexists. split; [reflexivity|]. set (empty := replicate _ (mkArp _ _ _)). split.
  2: { change (arp_cache_get (my_gw s) (arp_cache_put (my_gw s) qemu_gw_mac empty) = Some qemu_gw_mac).
       unfold arp_cache_put. rewrite (proj2 (cache_update_none (my_gw s) qemu_gw_mac empty)) by apply not_elem_of_nil.
       eapply (cache_fill_some _ _ empty); [reflexivity|]. apply not_elem_of_nil. }
  split; try done.
  - split; [done|]. apply Forall_replicate. split; [|done]. by split_and!.
  - apply arp_cache_put_ok. split; [done|]. vm_compute. constructor.
Qed.

(** C26: Termination and safety of the stack.  While the card delivers at most
    [n] more frames whose IP and TCP headers state lengths that fit the packet,
    polling returns - although handling a frame may resolve an address and so
    poll again - and it never reads or writes outside its buffers.  The same
    holds of every operation of the interface: connecting, sending, receiving,
    closing and resolving a name (of at most 495 encoded bytes).  They all keep
    the invariant: consistent rings of received bytes, one ARP entry per
    address, and no connection in FIN_WAIT or TIME_WAIT. *)
Theorem net_stack_correct n s : net_inv n s →
  let poll := net_poll (S n) in
  (∃ s', poll s = Done tt s' ∧ net_inv n s') ∧
  (∀ ip port, ∃ r s', tcp_connect poll ip port s = Done r s' ∧ net_inv n s') ∧
  (∀ id data, ∃ r s', tcp_send poll id data s = Done r s' ∧ net_inv n s') ∧
  (∀ id max_len, 0 ≤ max_len → ∃ r s', tcp_recv poll id max_len s = Done r s' ∧ net_inv n s') ∧
  (∀ id, ∃ s', tcp_close poll id s = Done tt s' ∧ net_inv n s') ∧
  (∀ ls, Forall host_label ls → len_ (enc_labels ls) ≤ 495 →
     ∃ r s', dns_resolve poll (join ls) s = Done r s' ∧ net_inv n s').
Proof.
  intros HI poll. pose proof (net_poll_keeps n : keeps (net_inv n) poll) as Hp. clearbody poll. split_and!.
  - destruct (proj1 (wp_run _ _ _) (Hp s HI)) as ([] & s' & ?). by exists s'.
  - intros. apply wp_run. by apply tcp_connect_keeps.
  - intros. apply wp_run. by apply tcp_send_keeps.
  - intros. apply wp_run. by apply tcp_recv_keeps.
  - intros. destruct (proj1 (wp_run _ _ _) (tcp_close_keeps n poll Hp id s HI)) as ([] & s' & ?). by exists s'.
  - intros. apply wp_run. by apply dns_resolve_keeps.
Qed.
End Main.

Section Recv.
Context `{HN : Nic}.

(** [tcp_recv].  When polling leaves bytes in the queue of the connection it
    returns the first ones, as many as there are and fit, and these leave the
    queue.  When the other side has finished and nothing more arrives it returns
    0.  For an id that is no connection it returns -1 and does nothing. *)
Theorem tcp_recv_correct poll s s1 i c max_len :
  (i < 8)%nat → poll s = Done tt s1 → conns s1 !! i = Some c → conn_ok c → 0 ≤ max_len →
  (0 < rx_avail c → let k := Z.min (rx_avail c) max_len in
   ∃ c', tcp_recv poll (Z.of_nat i) max_len s =
           Done (k, take (Z.to_nat k) (queue c)) (s1 <| conns := <[i := c']> (conns s1) |>) ∧
         queue c' = drop (Z.to_nat k) (queue c) ∧ conn_ok c') ∧
  (rx_avail c = 0 → fin_received c = true → poll s1 = Done tt s1 →
   tcp_recv poll (Z.of_nat i) max_len s = Done (0, []) s1) ∧
  (∀ id, id < 0 ∨ 8 ≤ id → tcp_recv poll id max_len s = Done (-1, []) s).
Proof.
  intros Hi Ep Hc Hok Hm. pose proof Hok as [(_ & Ha & _) _].
  split_and!.
  - intros Hav k. exists (popped c k). split; [by apply tcp_recv_run|]. destruct (popped_ok c k) as [? ?]; [done|lia|done].
  - intros Hz Hfin Eq. by apply (tcp_recv_eof poll s s1 i c).
  - intros id Hid. unfold tcp_recv, conn_get, MAX_TCP_CONNS.
    destruct (Z.ltb_spec id 0), (Z.leb_spec 8 id); done || lia.
Qed.
End Recv.
