(* ===== verification/NetExamples.v ===== *)
(** * The network stack at work

    A network card that delivers a given list of frames and keeps what is sent,
    and two machines with a connection between them: the theorems of [NetSpec]
    apply to them. *)

From S2P Require Import Prelude Bytes NetSum Dns Net NetInv NetSpec.

(** The frames to be delivered and the frames sent. *)
#[local] Instance wire : Nic := {|
  nic := list (list Z) * list (list Z);
  e1000_send_packet f d := (0, (d.1, d.2 ++ [f]));
  e1000_receive_packet d := match d.1 with [] => (None, d) | f :: l => (Some f, (l, d.2)) end;
  e1000_get_mac_address _ := [0x52; 0x54; 0; 0x12; 0x34; 0x56];
  net_rand d := (4711, d) |}.

#[local] Instance wire_ok : NicOk.
Proof. refine {| frames := fst |}; [done| |done]. by intros [[|f l] sent]. Defined.

Definition ip_a : list Z := [10; 0; 2; 15].
Definition ip_b : list Z := [10; 0; 2; 16].
Definition mac_a : list Z := [2; 0; 0; 0; 0; 1].
Definition mac_b : list Z := [2; 0; 0; 0; 0; 2].

(** A machine at address [ip] that knows one other one and has the connection [c]. *)
Definition machine (ip mac ip' mac' : list Z) (c : tcp_conn) (scratch : list Z) (d : nic) : nst :=
  mkNst ip [10; 0; 2; 2] mac
    (mkArp ip' mac' true :: replicate 15 (mkArp [0; 0; 0; 0] [0; 0; 0; 0; 0; 0] false))
    scratch 1 (c :: replicate 7 zero_conn) (replicate 512 0) 0 0 false 0x1337 d.

Definition ex_conn (ip : list Z) (rport lport seq ack : Z) : tcp_conn :=
  mkConn TCP_STATE_ESTABLISHED ip rport lport seq ack ∅ 0 0 0 false.
Definition conn_a : tcp_conn := ex_conn ip_b 80 49152 1000 2000.
Definition conn_b : tcp_conn := ex_conn ip_a 49152 80 2000 1000.

Definition blank : list Z := replicate 2048 0.
Definition ex_a : nst := machine ip_a mac_a ip_b mac_b conn_a blank ([], []).
Definition ex_frame : list Z := outgoing ex_a mac_b conn_a (Z.lor TCP_FLAG_PSH TCP_FLAG_ACK) [104; 105].
Definition ex_b : nst := machine ip_b mac_b ip_a mac_a conn_b blank ([ex_frame], []).

(** Polling when nothing arrives. *)
Definition quiet : M nst unit := mret tt.

Lemma blank_ok : length blank = 2048%nat ∧ bytes blank.
Proof. split; [apply length_replicate|]. by apply Forall_replicate. Qed.

Lemma ex_conn_ok ip rport lport seq ack : conn_ok (ex_conn ip rport lport seq ack).
Proof. split; [by split_and!|done]. Qed.

Lemma machine_endpoint ip mac ip' mac' c s d : length ip = 4%nat → length ip' = 4%nat → length mac = 6%nat → length mac' = 6%nat →
  take 3 ip' = take 3 ip → remote_ip c = ip' → conn_fields c → conn_ok c → cstate c = TCP_STATE_ESTABLISHED →
  endpoint (machine ip mac ip' mac' c s d) 0 c mac'.
Proof.
  intros. split; try done; [lia|]. unfold resolved, next_hop. cbn [my_ip machine]. subst ip'.
  rewrite bool_decide_true by done. cbn [arp_cache machine arp_cache_get]. unfold is_entry. cbn. by rewrite bool_decide_true.
Qed.

Lemma ex_a_endpoint : endpoint ex_a 0 conn_a mac_b.
Proof. by apply machine_endpoint. Qed.
Lemma ex_b_endpoint : endpoint ex_b 0 conn_b mac_a.
Proof. by apply machine_endpoint. Qed.

Lemma small_bytes l : forallb (λ b, (0 <=? b) && (b <? 256)) l = true → bytes l.
Proof.
  intros E. apply list.Forall_forall. intros b Hb%list_elem_of_In. rewrite forallb_forall in E.
  specialize (E b Hb). apply andb_true_iff in E as [?%Z.leb_le ?%Z.ltb_lt]. by split.
Qed.

Lemma tcp_transfer_correct_witness :
  let next := 1002 in
  queue (received conn_b next [104; 105]) = [104; 105] ∧ cack (received conn_b next [104; 105]) = 1002.
Proof.
  destruct (tcp_transfer_correct ex_a ex_b 0 0 conn_a conn_b mac_a mac_b [104; 105] quiet 0 0
    ([], [ex_frame]) ([], [])) as (_ & _ & Hq & Ha & _);
    try reflexivity; try (apply small_bytes; reflexivity).
  - exact ex_a_endpoint.
  - exact ex_b_endpoint.
  - exact blank_ok.
  - simpl. lia.
  - simpl. unfold TCP_RX_BUF_SIZE. lia.
  - split; [exact Hq|exact Ha].
Defined.

Lemma ex_net_inv : net_inv 0 ex_a.
Proof.
  split.
  - exact blank_ok.
  - split; [done|]. apply Forall_cons_2; [apply ex_conn_ok|]. apply Forall_replicate. split; [by split_and!|done].
  - split; [done|]. vm_compute. apply list.NoDup_cons. split; [apply not_elem_of_nil|constructor].
  - split_and!; [done|by apply Forall_replicate|done].
  - done.
  - split; [constructor|done].
Qed.

Lemma net_stack_correct_witness : ∃ s', net_poll 1 ex_a = Done tt s' ∧ net_inv 0 s'.
Proof. exact (proj1 (net_stack_correct 0 ex_a ex_net_inv)). Defined.

Definition ex_received : tcp_conn := received conn_b 1003 [1; 2; 3].
Definition ex_b' : nst := machine ip_b mac_b ip_a mac_a ex_received blank ([], []).

Lemma tcp_recv_correct_witness :
  ∃ c', tcp_recv quiet 0 2 ex_b' = Done (2, [1; 2]) (ex_b' <| conns := <[0%nat := c']> (conns ex_b') |>) ∧
        queue c' = [3] ∧ conn_ok c'.
Proof.
  destruct (received_ok conn_b 1003 [1; 2; 3] (ex_conn_ok _ _ _ _ _)) as [Hok Hq].
  - simpl. unfold TCP_RX_BUF_SIZE. lia.
  - destruct (tcp_recv_correct quiet ex_b' ex_b' 0 ex_received 2) as [Hr _]; try done; [lia|].
    destruct (Hr ltac:(done)) as (c' & E & Hq' & Hc'). exists c'. split_and!; [exact E|exact Hq'|exact Hc'].
Defined.

(** A header that claims to be 60 bytes long, in a segment of 20 bytes. *)
Definition bad_scratch : list Z :=
  replicate 34 0 ++ be_bytes 2 49152 ++ be_bytes 2 80 ++ be_bytes 4 1000 ++ be_bytes 4 2000 ++ [0xF0; TCP_FLAG_ACK] ++
  replicate 2000 0.
Definition ex_bad : nst := machine ip_b mac_b ip_a mac_a conn_b bad_scratch ([], []).

Lemma tcp_overread_witness : tcp_handle quiet ip_a 34 20 ex_bad = Fault.
Proof.
  apply (tcp_overread quiet ex_bad ip_a 34 20 0 conn_b); try done; try lia.
  - split; [reflexivity|]. apply small_bytes. vm_compute. reflexivity.
Defined.
