(* ===== verification/Cstring.v ===== *)
(** * C strings

    Models [lib/libc/string].  A string is the list of its characters before the
    terminating NUL; reading at its end reads NUL.  [cstring] says that no
    character is NUL. *)

From S2P Require Import Prelude.

Definition cstring (s : list Z) : Prop := Forall (λ c, 0 < c < 256) s.

(** [*s] *)
Definition char_at (s : list Z) : Z := match s with [] => 0 | c :: _ => c end.

Definition strlen (s : list Z) : Z := Z.of_nat (length s).

Fixpoint strcmp (s1 s2 : list Z) : Z :=
  match s1 with
  | [] => 0 - char_at s2
  | c1 :: s1' =>
      match s2 with
      | c2 :: s2' => if c1 =? c2 then strcmp s1' s2' else c1 - c2
      | [] => c1 - 0
      end
  end.

Fixpoint strncmp (s1 s2 : list Z) (n : nat) : Z :=
  match n with
  | O => 0
  | S n =>
      match s1, s2 with
      | c1 :: s1', c2 :: s2' => if c1 =? c2 then strncmp s1' s2' n else c1 - c2
      | _, _ => char_at s1 - char_at s2
      end
  end.

(** [strrchr(s, c)] as the index of the last [c], for [c] not NUL. *)
Fixpoint strrchr_from (s : list Z) (c i : Z) (last : option Z) : option Z :=
  match s with
  | [] => last
  | x :: s => strrchr_from s c (i + 1) (if x =? c then Some i else last)
  end.
Definition strrchr (s : list Z) (c : Z) : option Z := strrchr_from s c 0 None.

(** The string in a buffer after [strncpy(buf, s, n); buf[n] = NUL]. *)
Definition strncpy (s : list Z) (n : nat) : list Z := take n s.

Lemma strcmp_eq s1 : ∀ s2, cstring s1 → cstring s2 → strcmp s1 s2 = 0 ↔ s1 = s2.
Proof.
  induction s1 as [|c1 s1 IH]; intros [|c2 s2] H1 H2; cbn [strcmp char_at]; try done.
  - apply list.Forall_cons in H2 as [? _]. split; [lia|done].
  - apply list.Forall_cons in H1 as [? _]. split; [lia|done].
  - apply list.Forall_cons in H1 as [? H1], H2 as [? H2].
    destruct (Z.eqb_spec c1 c2) as [->|Hne].
    + rewrite IH by done. naive_solver.
    + split; [lia|naive_solver].
Qed.

Lemma cstring_take s n : cstring s → cstring (take n s).
Proof. apply Forall_take. Qed.

(** [strncmp] compares the first [n] characters. *)
Lemma strncmp_eq n : ∀ s1 s2, cstring s1 → cstring s2 →
  strncmp s1 s2 n = 0 ↔ take n s1 = take n s2.
Proof.
  induction n as [|n IH]; intros [|c1 s1] [|c2 s2] H1 H2; cbn [strncmp take char_at]; try done.
  - apply list.Forall_cons in H2 as [? _]. split; [lia|done].
  - apply list.Forall_cons in H1 as [? _]. split; [lia|done].
  - apply list.Forall_cons in H1 as [? H1], H2 as [? H2].
    destruct (Z.eqb_spec c1 c2) as [->|Hne].
    + rewrite IH by done. split; [by intros ->|by intros [= E]].
    + split; [lia|by intros [= E _]].
Qed.
