(* ===== verification/Printf.v ===== *)
(** * Formatted output

    Models [lib/libc/stdio/printf.c]: [itoa], [base_vprintf] over any output
    function, and [vsnprintf].  A format is the list of its bytes with the final
    zero; reading beyond it is a fault, and so is an argument that is missing or
    of the wrong kind. *)

From S2P Require Import Prelude Bytes.

(** ** [itoa] *)

Definition digit_char (uppercase : bool) (d : Z) : Z :=
  if d <? 10 then 48 + d else if uppercase then 55 + d else 87 + d.

(** The loops of [itoa], on a buffer of the caller; [None] is a store outside
    it.  Digits are stored from [i] on, lowest first. *)
Fixpoint itoa_digits (fuel : nat) (n base : Z) (uppercase : bool) (buf : list Z) (i : nat) :
    option (list Z * nat) :=
  match fuel with
  | O => None
  | S fuel =>
      if decide (i < length buf)%nat then
        let buf := <[i := digit_char uppercase (n `mod` base)]> buf in
        let n := n `div` base in
        if n =? 0 then Some (buf, S i) else itoa_digits fuel n base uppercase buf (S i)
      else None
  end.

Fixpoint itoa_reverse (fuel : nat) (buf : list Z) (low ptr : nat) : list Z :=
  match fuel with
  | O => buf
  | S fuel =>
      if decide (low < ptr)%nat then
        let tmp := nth low buf 0 in
        let buf := <[low := nth ptr buf 0]> buf in
        itoa_reverse fuel (<[ptr := tmp]> buf) (S low) (ptr - 1)
      else buf
  end.

Definition itoa (n : Z) (buf : list Z) (base : Z) (uppercase : bool) : option (list Z) :=
  '(buf, i) ← itoa_digits 65 n base uppercase buf 0;
  if decide (i < length buf)%nat then
    Some (itoa_reverse 64 (<[i := 0]> buf) 0 (i - 1))
  else None.

(** ** [base_vprintf] *)

(** An argument: the 64 bits of an integer or pointer, or a string. *)
Inductive arg := AInt (z : Z) | AStr (s : option (list Z)).

Record flags := mkFlags {
  left_justify : bool; force_sign : bool; space_sign : bool; hash_flag : bool; zero_pad : bool }.
#[global] Instance flags_eta : Etable flags := λ f,
  mkFlags (left_justify f) (force_sign f) (space_sign f) (hash_flag f) (zero_pad f).

(** Reading the format: what was read, and what is left. *)
Fixpoint read_flags (f : list Z) (fl : flags) : option (flags * list Z) :=
  match f with
  | [] => None
  | c :: r =>
      if c =? 45 then read_flags r (fl <| left_justify := true |>)
      else if c =? 43 then read_flags r (fl <| force_sign := true |>)
      else if c =? 32 then read_flags r (fl <| space_sign := true |>)
      else if c =? 35 then read_flags r (fl <| hash_flag := true |>)
      else if c =? 48 then read_flags r (fl <| zero_pad := true |>)
      else Some (fl, f)
  end.

Fixpoint read_num (f : list Z) (acc : Z) : option (Z * list Z) :=
  match f with
  | [] => None
  | c :: r => if (48 <=? c) && (c <=? 57) then read_num r (i32 (acc * 10 + (c - 48))) else Some (acc, f)
  end.

Definition read_length (f : list Z) : option (Z * list Z) :=
  match f with
  | [] => None
  | c :: r =>
      if c =? 104 then match r with [] => None | d :: r' => Some (if d =? 104 then (2, r') else (1, r)) end
      else if c =? 108 then match r with [] => None | d :: r' => Some (if d =? 108 then (4, r') else (3, r)) end
      else if c =? 122 then Some (5, r)
      else if c =? 106 then Some (6, r)
      else if c =? 116 then Some (7, r)
      else Some (0, f)
  end.

(** The state: what is left of the format and of the arguments, the number of
    characters put out, and the device behind [putc]. *)
Record pst (D : Type) := mkPst { fmt : list Z; ap : list arg; written : Z; dev : D }.
Arguments mkPst {D} _ _ _ _.
Arguments fmt {D} _.
Arguments ap {D} _.
Arguments written {D} _.
Arguments dev {D} _.

Section Vprintf.
Context {D : Type} (putc : Z → M D unit).

Definition emit (c : Z) : M (pst D) unit := λ st,
  match putc c (dev st) with
  | Done _ d => Done tt (mkPst (fmt st) (ap st) (written st + 1) d)
  | Panicked d => Panicked (mkPst (fmt st) (ap st) (written st) d)
  | Fault => Fault
  end.
Fixpoint emit_list (l : list Z) : M (pst D) unit :=
  match l with [] => mret tt | c :: l => emit c ;; emit_list l end.

(** [while (width-- > len) putc(c)]: the value of [width] after it. *)
Definition pad (c width len : Z) : M (pst D) Z :=
  emit_list (replicate (Z.to_nat (width - len)) c) ;; mret (Z.min width len - 1).

Definition on_fmt {A} (f : list Z → option (A * list Z)) : M (pst D) A := λ st,
  match f (fmt st) with
  | Some (a, r) => Done a (mkPst r (ap st) (written st) (dev st))
  | None => Fault
  end.
(** [*format] and [*format++]. *)
Definition peek : M (pst D) Z := on_fmt (λ f, match f with [] => None | c :: _ => Some (c, f) end).
Definition next : M (pst D) Z := on_fmt (λ f, match f with [] => None | c :: r => Some (c, r) end).

(** [va_arg] *)
Definition va_int : M (pst D) Z := λ st,
  match ap st with
  | AInt z :: l => Done z (mkPst (fmt st) l (written st) (dev st))
  | _ => Fault
  end.
Definition va_str : M (pst D) (option (list Z)) := λ st,
  match ap st with
  | AStr s :: l => Done s (mkPst (fmt st) l (written st) (dev st))
  | _ => Fault
  end.

Definition read_width : M (pst D) Z :=
  c ← peek;
  if c =? 42 then w ← va_int; next ;; mret (i32 w) else on_fmt (λ f, read_num f 0).

Definition read_precision : M (pst D) Z :=
  c ← peek;
  if c =? 46 then
    next ;;
    c ← peek;
    if c =? 42 then p ← va_int; next ;; mret (i32 p) else on_fmt (λ f, read_num f 0)
  else mret (-1).

Definition null_str : list Z := [40; 110; 117; 108; 108; 41].

Definition conv_str (fl : flags) (width precision : Z) : M (pst D) unit :=
  s ← va_str;
  let str := default null_str s in
  let len := Z.of_nat (length str) in
  let len := if (0 <=? precision) && (precision <? len) then precision else len in
  width ← (if left_justify fl then mret width else pad 32 width len);
  emit_list (take (Z.to_nat len) str) ;;
  pad 32 width len ;; mret tt.

(** The type letters. *)
Definition num_base (type : Z) : Z :=
  if (type =? 120) || (type =? 88) || (type =? 112) then 16
  else if type =? 111 then 8 else if type =? 98 then 2 else 10.
Definition is_signed (type : Z) : bool := (type =? 100) || (type =? 105).
Definition is_num (type : Z) : bool :=
  is_signed type || (type =? 117) || (type =? 120) || (type =? 88) || (type =? 111) || (type =? 112) || (type =? 98).

(** The value of a number and its sign, from the argument [z]. *)
Definition num_val (type length_mod z : Z) : Z * bool :=
  if is_signed type then
    let val := if (length_mod =? 4) || (length_mod =? 3) || (length_mod =? 6) || (length_mod =? 7)
               then i64 z else i32 z in
    if val <? 0 then (u64 (- val), true) else (val, false)
  else if type =? 112 then (u64 z, false)
  else if (length_mod =? 4) || (length_mod =? 3) || (length_mod =? 5) then (u64 z, false)
  else (u32 z, false).

(** The output of a number from its digits [buf], of which [len] count. *)
Definition put_num (fl : flags) (width precision type n : Z) (negative hash : bool) (buf : list Z) (len : Z) :
    M (pst D) unit :=
  let base := num_base type in
  let actual_len := if len <? precision then precision else len in
  let actual_len := if negative || force_sign fl || space_sign fl then actual_len + 1 else actual_len in
  let actual_len := if hash && negb (n =? 0)
                    then if base =? 16 then actual_len + 2 else if base =? 8 then actual_len + 1 else actual_len
                    else actual_len in
  width ← (if negb (left_justify fl) && negb (zero_pad fl) then pad 32 width actual_len else mret width);
  (if negative then emit 45 else if force_sign fl then emit 43 else if space_sign fl then emit 32 else mret tt) ;;
  (if hash && (negb (n =? 0) || (type =? 112)) then
     if base =? 16 then emit 48 ;; emit (if type =? 88 then 88 else 120)
     else if (base =? 8) && negb (nth 0 buf 0 =? 48) then emit 48 else mret tt
   else mret tt) ;;
  width ← (if negb (left_justify fl) && zero_pad fl then pad 48 width actual_len else mret width);
  pad 48 precision len ;;
  emit_list (take (Z.to_nat len) buf) ;;
  pad 32 width actual_len ;; mret tt.

Definition conv_num (fl : flags) (width precision length_mod type : Z) : M (pst D) unit :=
  z ← va_int;
  let '(n, negative) := num_val type length_mod z in
  let hash := if is_signed type then hash_flag fl else if type =? 112 then true else hash_flag fl in
  match itoa n (replicate 64 0) (num_base type) (type =? 88) with
  | None => fault
  | Some buf =>
      let len := default 0 (Z.of_nat ∘ fst <$> list_find (λ c, c = 0) buf) in
      let len := if (n =? 0) && (precision =? 0) then 0 else len in
      put_num fl width precision type n negative hash buf len
  end.

(** What follows a percent sign. *)
Definition directive : M (pst D) unit :=
  fl ← on_fmt (λ f, read_flags f (mkFlags false false false false false));
  width ← read_width;
  precision ← read_precision;
  length_mod ← on_fmt read_length;
  type ← next;
  if type =? 37 then emit 37
  else if type =? 99 then z ← va_int; emit (u8 z)
  else if type =? 115 then conv_str fl width precision
  else if is_num type then conv_num fl width precision length_mod type
  else mret tt.

Fixpoint vprintf_loop (fuel : nat) : M (pst D) unit :=
  c ← peek;
  if c =? 0 then mret tt else
  match fuel with
  | O => fault
  | S fuel =>
      next ;;
      (if negb (c =? 37) then emit c else directive) ;;
      vprintf_loop fuel
  end.

(** The number of characters and the device; [f] is the format without its
    final zero.  The count is an [int] in the code; here it does not overflow, and
    [vsnprintf] converts it. *)
Definition base_vprintf (f : list Z) (args : list arg) : M D Z := λ d,
  match vprintf_loop (length f) (mkPst (f ++ [0]) args 0 d) with
  | Done _ st => Done (written st) (dev st)
  | Panicked st => Panicked (dev st)
  | Fault => Fault
  end.
End Vprintf.

(** ** [vsnprintf] *)

Record snprintf_ctx := mkSn { sn_buf : list Z; sn_size : Z; sn_written : Z }.

Definition sn_putc (c : Z) : M snprintf_ctx unit := λ x,
  if sn_written x <? sn_size x - 1 then
    if decide (Z.to_nat (sn_written x) < length (sn_buf x))%nat
    then Done tt (mkSn (<[Z.to_nat (sn_written x) := c]> (sn_buf x)) (sn_size x) (sn_written x + 1))
    else Fault
  else Done tt (mkSn (sn_buf x) (sn_size x) (sn_written x + 1)).

(** The result and the buffer; [None] is a fault. *)
Definition vsnprintf (str : list Z) (size : Z) (f : list Z) (args : list arg) : option (Z * list Z) :=
  if size =? 0 then Some (0, str) else
  match base_vprintf sn_putc f args (mkSn str size 0) with
  | Done _ x =>
      let at_ := if sn_written x <? sn_size x then sn_written x else sn_size x - 1 in
      if decide (Z.to_nat at_ < length (sn_buf x))%nat
      then Some (i32 (sn_written x), <[Z.to_nat at_ := 0]> (sn_buf x)) else None
  | _ => None
  end.

(** What is put out, as a list. *)
Definition log_putc (c : Z) : M (list Z) unit := λ out, Done tt (out ++ [c]).
Definition vprintf_out (f : list Z) (args : list arg) : option (list Z) :=
  match base_vprintf log_putc f args [] with Done _ out => Some out | _ => None end.

(** ** Digits *)

(** The digits of [n], lowest first. *)
Fixpoint digits_low (fuel : nat) (n base : Z) : list Z :=
  match fuel with
  | O => []
  | S fuel => n `mod` base :: if n `div` base =? 0 then [] else digits_low fuel (n `div` base) base
  end.

(** The digits of [n] in the order of writing. *)
Definition digits (n base : Z) : list Z := reverse (digits_low 65 n base).

(** The number that a list of digits denotes. *)
Definition digits_val (base : Z) (l : list Z) : Z := foldl (λ a d, a * base + d) 0 l.

Section Digits.
Context (base : Z) (Hbase : 2 ≤ base).

Lemma digits_low_val fuel : ∀ n, 0 ≤ n < base ^ Z.of_nat fuel →
  foldr (λ d a, a * base + d) 0 (digits_low fuel n base) = n ∧
  Forall (λ d, 0 ≤ d < base) (digits_low fuel n base) ∧
  n < base ^ Z.of_nat (length (digits_low fuel n base)).
Proof.
  induction fuel as [|fuel IH]; intros n Hn; cbn [digits_low foldr length].
  - change (base ^ Z.of_nat 0) with 1 in *. split_and!; [cbn; lia|constructor|lia].
  - rewrite Nat2Z.inj_succ, Z.pow_succ_r in Hn by lia. pose proof (Z.mod_pos_bound n base ltac:(lia)) as Hm.
    pose proof (Z.div_mod n base ltac:(lia)) as Hdm.
    destruct (Z.eqb_spec (n `div` base) 0) as [E|Hne]; cbn [foldr length].
    + split_and!; [lia|by constructor|]. change (Z.of_nat 1) with 1. rewrite Z.pow_1_r. nia.
    + destruct (IH (n `div` base)) as (H1 & H2 & H3).
      { split; [apply Z.div_pos; lia|]. apply Z.div_lt_upper_bound; lia. }
      split_and!; [rewrite H1; lia|by constructor|]. rewrite Nat2Z.inj_succ, Z.pow_succ_r by lia. nia.
Qed.

(** Bounds on the number of digits. *)
Lemma digits_low_length fuel : ∀ n k, 0 ≤ n → (n < base ^ Z.of_nat (S k) → (length (digits_low fuel n base) ≤ S k)%nat) ∧
  (base ^ Z.of_nat k ≤ n → (k < fuel)%nat → (k < length (digits_low fuel n base))%nat).
Proof.
  induction fuel as [|fuel IH]; intros n k Hn; cbn [digits_low length]; [split; lia|].
  destruct (Z.eqb_spec (n `div` base) 0) as [E|Hne]; cbn [length].
  - split; [lia|]. intros Hk Hf. apply Z.div_small_iff in E; [|lia]. destruct k as [|k]; [lia|]. exfalso.
    rewrite Nat2Z.inj_succ, Z.pow_succ_r in Hk by lia. pose proof (Z.pow_pos_nonneg base (Z.of_nat k)). nia.
  - assert (0 ≤ n `div` base) by (apply Z.div_pos; lia).
    destruct k as [|k].
    + split; [|lia]. intros Hk. change (Z.of_nat 1) with 1 in Hk. rewrite Z.pow_1_r in Hk.
      rewrite Z.div_small in Hne by lia. lia.
    + destruct (IH (n `div` base) k) as [H1 H2]; [done|]. split.
      * intros Hk. rewrite Nat2Z.inj_succ, Z.pow_succ_r in Hk by lia. apply le_n_S, H1. apply Z.div_lt_upper_bound; lia.
      * intros Hk Hf. rewrite Nat2Z.inj_succ, Z.pow_succ_r in Hk by lia. apply -> Nat.succ_lt_mono. apply H2; [|lia].
        apply Z.div_le_lower_bound; lia.
Qed.

Lemma digits_correct n : 0 ≤ n < base ^ 65 →
  digits_val base (digits n base) = n ∧ Forall (λ d, 0 ≤ d < base) (digits n base).
Proof.
  intros Hn. destruct (digits_low_val 65 n Hn) as (H1 & H2 & _). unfold digits_val, digits. split.
  - rewrite <-H1 at 2. generalize (digits_low 65 n base). intros l. clear. induction l as [|d l IH]; [done|].
    rewrite reverse_cons, foldl_app. cbn. by rewrite IH.
  - by apply Forall_reverse.
Qed.
End Digits.

(** ** [itoa] is [digits] *)

Lemma itoa_digits_eq base uppercase fuel : 2 ≤ base → ∀ n buf i, let ds := digits_low fuel n base in
  (i ≤ length buf)%nat → (0 < fuel)%nat → 0 ≤ n < base ^ Z.of_nat fuel →
  itoa_digits fuel n base uppercase buf i =
  if decide (i + length ds ≤ length buf)%nat
  then Some (take i buf ++ (digit_char uppercase <$> ds) ++ drop (i + length ds) buf, (i + length ds)%nat)
  else None.
Proof.
  intros Hb. induction fuel as [|fuel IH]; intros n buf i ds Hi Hf Hn; [lia|]. unfold ds. cbn [itoa_digits digits_low].
  rewrite Nat2Z.inj_succ, Z.pow_succ_r in Hn by lia. set (c := digit_char uppercase (n `mod` base)).
  assert ((i < length buf)%nat → take (S i) (<[i := c]> buf) = take i buf ++ [c]) as Htk.
  { intros Hl. rewrite (take_S_r _ i c) by (by rewrite list_lookup_insert_eq). by rewrite take_insert_ge by lia. }
  destruct (Z.eqb_spec (n `div` base) 0) as [E|Hne]; cbn [length fmap list_fmap].
  - case_decide as Hlt; case_decide; try lia; [|done]. f_equal. f_equal; [|lia].
    rewrite <-(take_drop (S i) (<[i := c]> buf)). rewrite Htk by done. rewrite drop_insert_lt by lia.
    rewrite <-app_assoc. cbn. do 3 f_equal. lia.
  - assert (0 < n `div` base < base ^ Z.of_nat fuel) as Hn'.
    { assert (0 ≤ n `div` base) by (apply Z.div_pos; lia). split; [lia|]. apply Z.div_lt_upper_bound; lia. }
    assert (0 < fuel)%nat by (destruct fuel; [change (base ^ Z.of_nat 0) with 1 in Hn'; lia|lia]).
    case_decide as Hlt.
    + rewrite IH by (rewrite ?length_insert; lia). rewrite length_insert. repeat case_decide; try lia; [|done].
      rewrite Htk, drop_insert_lt by lia. rewrite <-app_assoc. cbn. f_equal. f_equal; [|lia].
      do 4 f_equal. lia.
    + rewrite decide_False by lia. done.
Qed.

Lemma itoa_reverse_eq fuel : ∀ pre mid post, (length mid ≤ 2 * fuel + 1)%nat → mid ≠ [] →
  itoa_reverse fuel (pre ++ mid ++ post) (length pre) (length pre + length mid - 1) = pre ++ reverse mid ++ post.
Proof.
  induction fuel as [|fuel IH]; intros pre mid post Hl Hne; cbn [itoa_reverse].
  - destruct mid as [|x [|y mid]]; [done|done|cbn in Hl; lia].
  - destruct mid as [|x mid]; [done|]. destruct (decide (mid = [])) as [->|Hm].
    { rewrite decide_False by (cbn; lia). done. }
    destruct (exists_last Hm) as (mid' & y & ->). rewrite decide_True by (cbn; rewrite length_app; cbn; lia).
    cbn [length]. rewrite length_app. cbn [length].
    replace (length pre + S (length mid' + 1) - 1)%nat with (length pre + S (length mid'))%nat by lia.
    assert (∀ (z w : Z), nth (length pre) (pre ++ (z :: mid' ++ [w]) ++ post) 0 = z ∧
      nth (length pre + S (length mid')) (pre ++ (z :: mid' ++ [w]) ++ post) 0 = w) as Hnth.
    { intros z w. split.
      - rewrite app_nth2 by lia. by rewrite Nat.sub_diag.
      - rewrite app_nth2 by lia. replace (length pre + S (length mid') - length pre)%nat with (S (length mid')) by lia.
        cbn. rewrite <-app_assoc, app_nth2 by lia. by rewrite Nat.sub_diag. }
    rewrite (proj1 (Hnth x y)), (proj2 (Hnth x y)).
    rewrite (insert_app_r_alt pre) by lia. rewrite Nat.sub_diag. cbn [insert list_insert app].
    rewrite insert_app_r_alt by lia. replace (length pre + S (length mid') - length pre)%nat with (S (length mid')) by lia.
    change (<[S (length mid') := x]> (y :: (mid' ++ [y]) ++ post)) with (y :: <[length mid' := x]> ((mid' ++ [y]) ++ post)).
    rewrite <-app_assoc, insert_app_r_alt by lia. rewrite Nat.sub_diag. cbn [insert list_insert app].
    replace (length pre + S (length mid') - 1)%nat with (length pre + length mid')%nat by lia.
    rewrite reverse_cons, reverse_app. cbn.
    destruct (decide (mid' = [])) as [->|Hm'].
    { cbn. rewrite Nat.add_0_r. destruct fuel; [done|]. cbn. by rewrite decide_False by lia. }
    pose proof (IH (pre ++ [y]) mid' (x :: post)) as IH'. rewrite !length_app in IH'. cbn [length] in *. rewrite !length_app in Hl. cbn [length] in Hl.
    replace (length pre + 1 + length mid' - 1)%nat with (length pre + length mid')%nat in IH' by lia.
    replace (length pre + 1)%nat with (S (length pre)) in IH' by lia.
    rewrite <-!app_assoc in IH'. cbn in IH'. rewrite IH' by (lia || done). by rewrite <-app_assoc.
Qed.

(** [itoa] writes the digits and a zero, or runs out of the 64 bytes. *)
Lemma itoa_eq n base uppercase buf : 2 ≤ base → 0 ≤ n < 2 ^ 64 → (0 < length buf ≤ 64)%nat →
  itoa n buf base uppercase =
  let ds := digit_char uppercase <$> digits n base in
  if decide (length ds < length buf)%nat then Some (ds ++ 0 :: drop (S (length ds)) buf) else None.
Proof.
  intros Hb Hn Hbuf. unfold itoa.
  assert (2 ^ 65 ≤ base ^ 65) as Hp by (apply (Z.pow_le_mono_l 2 base 65); lia).
  assert (0 ≤ n < base ^ Z.of_nat 65) as Hn' by (change (Z.of_nat 65) with 65; split; [lia|]; eapply Z.lt_le_trans; [|exact Hp]; lia).
  rewrite itoa_digits_eq by (done || lia). cbn zeta. unfold digits.
  rewrite !length_fmap, length_reverse. set (ds := digits_low 65 n base). cbn [Nat.add take].
  assert (1 ≤ length ds)%nat as Hds by (unfold ds; cbn [digits_low length]; lia). clearbody ds.
  destruct (decide (length ds ≤ length buf)%nat) as [Hle|Hgt]; cbn [mbind option_bind].
  2: { rewrite decide_False by lia. done. }
  rewrite app_nil_l, length_app, length_fmap, length_drop.
  replace (length ds + (length buf - length ds))%nat with (length buf) by lia.
  destruct (decide (length ds < length buf)%nat) as [Hlt|]; [|done]. f_equal.
  rewrite insert_app_r_alt by (rewrite length_fmap; lia). rewrite length_fmap, Nat.sub_diag.
  destruct (drop (length ds) buf) as [|x rest] eqn:Ed.
  { apply (f_equal length) in Ed. rewrite length_drop in Ed. cbn in Ed. lia. }
  cbn [insert list_insert].
  assert (rest = drop (S (length ds)) buf) as ->.
  { replace (S (length ds)) with (length ds + 1)%nat by lia. rewrite <-drop_drop, Ed. done. }
  pose proof (itoa_reverse_eq 64 [] (digit_char uppercase <$> ds) (0 :: drop (S (length ds)) buf)) as Hr.
  cbn [app length] in Hr. rewrite length_fmap in Hr. rewrite Nat.add_0_l in Hr. rewrite Hr.
  - by rewrite fmap_reverse.
  - lia.
  - destruct ds; [cbn in Hds; lia|done].
Qed.

(** The digits of 64-bit numbers fit, except that 64 binary digits do not. *)
Lemma itoa_fits n base : 0 ≤ n < 2 ^ 64 → 2 ≤ base → (base = 2 → n < 2 ^ 63) → (length (digits n base) < 64)%nat.
Proof.
  intros Hn Hb Hbin. unfold digits. rewrite length_reverse.
  destruct (digits_low_length base ltac:(lia) 65 n 62) as [H _]; [lia|]. apply Nat.lt_succ_r, H.
  change (Z.of_nat 63) with 63. destruct (decide (base = 2)) as [->|]; [by apply Hbin|].
  eapply Z.lt_le_trans; [apply Hn|]. transitivity (3 ^ 63); [by vm_compute|]. apply Z.pow_le_mono_l. lia.
Qed.

Lemma itoa_binary_overflow n uppercase : 2 ^ 63 ≤ n < 2 ^ 64 → itoa n (replicate 64 0) 2 uppercase = None.
Proof.
  intros Hn. rewrite itoa_eq by (rewrite ?length_replicate; lia). cbn zeta.
  rewrite decide_False; [done|]. rewrite length_fmap, length_replicate. unfold digits. rewrite length_reverse.
  destruct (digits_low_length 2 ltac:(lia) 65 n 63) as [_ H]; [lia|]. apply Nat.le_ngt. apply H; [|lia].
  change (Z.of_nat 63) with 63. lia.
Qed.
