(* ===== verification/PrintfSpec.v ===== *)
(** * What formatted output promises

    [vsnprintf] puts out what [base_vprintf] puts out to any device, cut to the
    buffer ([vsnprintf_correct]); integer conversions follow the C standard for the
    flags, widths and length modifiers the code treats ([printf_number_correct]),
    and the examples at the end show where they do not. *)

From S2P Require Import Prelude Bytes Printf.

(** ** Output to different devices

    [tracks c c']: if [c], which logs its output, puts out [o], then [c'] puts the
    characters of [o] on its own device, one by one, and is the same otherwise. *)
Section Tracks.
Context {D : Type} (putc : Z → M D unit) (P : D → Prop) (put : D → Z → D).
Context (Hput : ∀ c d, P d → putc c d = Done tt (put d c) ∧ P (put d c)).

Definition tracks {A} (c : M (pst (list Z)) A) (c' : M (pst D) A) : Prop :=
  ∀ f l w out d, P d →
  match c (mkPst f l w out) with
  | Done a st => ∃ o, dev st = out ++ o ∧ written st = w + Z.of_nat (length o) ∧
      c' (mkPst f l w d) = Done a (mkPst (fmt st) (ap st) (written st) (foldl put d o)) ∧ P (foldl put d o)
  | Panicked _ => False
  | Fault => c' (mkPst f l w d) = Fault
  end.

Lemma tracks_ret {A} (a : A) : tracks (mret a) (mret a).
Proof. intros f l w out d Hd. exists []. cbn. by rewrite app_nil_r, Z.add_0_r. Qed.

Lemma tracks_bind {A B} (c : M (pst (list Z)) A) c' (g : A → M (pst (list Z)) B) g' :
  tracks c c' → (∀ a, tracks (g a) (g' a)) → tracks (c ≫= g) (c' ≫= g').
Proof.
  intros Hc Hg f l w out d Hd. specialize (Hc f l w out d Hd). unfold mbind, M_bind.
  destruct (c (mkPst f l w out)) as [a [f1 l1 w1 o1]| |]; [|done|by rewrite Hc].
  destruct Hc as (o & Eo & Ew & -> & Hp). cbn in Eo, Ew. subst o1 w1. cbn. specialize (Hg a f1 l1 (w + Z.of_nat (length o)) (out ++ o) (foldl put d o) Hp).
  destruct (g a _) as [b st| |]; [|done..]. destruct Hg as (o' & E & Ew & -> & Hp').
  exists (o ++ o'). rewrite foldl_app, app_assoc, length_app. split_and!; [done|lia|done|done].
Qed.

Lemma tracks_emit c : tracks (emit log_putc c) (emit putc c).
Proof.
  intros f l w out d Hd. destruct (Hput c d Hd) as [E Hp]. unfold emit, log_putc. cbn. rewrite E. by exists [c].
Qed.

Lemma tracks_on_fmt {A} (g : list Z → option (A * list Z)) : tracks (on_fmt g) (on_fmt g).
Proof.
  intros f l w out d Hd. unfold on_fmt. cbn. destruct (g f) as [[a r]|]; [|done]. exists []. cbn. by rewrite app_nil_r, Z.add_0_r.
Qed.

Lemma tracks_va_int : tracks va_int va_int.
Proof. intros f [|[z|s] l] w out d Hd; cbn; try done. exists []. cbn. by rewrite app_nil_r, Z.add_0_r. Qed.
Lemma tracks_va_str : tracks va_str va_str.
Proof. intros f [|[z|s] l] w out d Hd; cbn; try done. exists []. cbn. by rewrite app_nil_r, Z.add_0_r. Qed.

Lemma tracks_if {A} (b : bool) (c1 c2 : M (pst (list Z)) A) c1' c2' :
  tracks c1 c1' → tracks c2 c2' → tracks (if b then c1 else c2) (if b then c1' else c2').
Proof. by destruct b. Qed.

Lemma tracks_fault {A} : tracks (fault (A := A)) fault.
Proof. by intros f l w out d Hd. Qed.

Hint Resolve tracks_ret tracks_bind tracks_emit tracks_on_fmt tracks_va_int tracks_va_str tracks_if tracks_fault : core.

Ltac tracks_steps :=
  repeat lazymatch goal with
  | |- tracks (_ ≫= _) _ => apply tracks_bind
  | |- tracks (if _ then _ else _) _ => apply tracks_if
  | |- ∀ _, tracks _ _ => intros ?
  end.

Lemma tracks_emit_list o : tracks (emit_list log_putc o) (emit_list putc o).
Proof. induction o as [|c o IH]; cbn [emit_list]; auto. Qed.
Hint Resolve tracks_emit_list : core.

Lemma tracks_pad c width len : tracks (pad log_putc c width len) (pad putc c width len).
Proof. unfold pad. auto. Qed.
Hint Resolve tracks_pad : core.

Lemma tracks_directive : tracks (directive log_putc) (directive putc).
Proof.
  assert (tracks read_width read_width) by (unfold read_width, peek, next; auto 7).
  assert (tracks read_precision read_precision) by (unfold read_precision, peek, next; auto 12).
  assert (∀ fl w p, tracks (conv_str log_putc fl w p) (conv_str putc fl w p)) by (intros; unfold conv_str; auto 8).
  assert (∀ fl w p t n ng h b len, tracks (put_num log_putc fl w p t n ng h b len) (put_num putc fl w p t n ng h b len))
    by (intros; unfold put_num; tracks_steps; auto).
  assert (∀ fl w p lm t, tracks (conv_num log_putc fl w p lm t) (conv_num putc fl w p lm t)).
  { intros fl w p lm t. unfold conv_num. apply tracks_bind; [auto|]. intros z. destruct (num_val t lm z) as [n ng].
    destruct (itoa _ _ _ _); auto. }
  unfold directive, next. tracks_steps; auto.
Qed.

Lemma tracks_loop fuel : tracks (vprintf_loop log_putc fuel) (vprintf_loop putc fuel).
Proof.
  induction fuel as [|fuel IH]; cbn [vprintf_loop]; unfold peek, next;
    tracks_steps; auto. apply tracks_directive.
Qed.

(** The output to the device is the logged output. *)
Lemma base_vprintf_device f args d : P d →
  match vprintf_out f args with
  | Some o => base_vprintf putc f args d = Done (Z.of_nat (length o)) (foldl put d o)
  | None => base_vprintf putc f args d = Fault
  end.
Proof.
  intros Hd. pose proof (tracks_loop (length f) (f ++ [0]) args 0 [] d Hd) as Ht.
  unfold vprintf_out, base_vprintf. destruct (vprintf_loop log_putc _ _) as [[] st| |] eqn:E; [|done|by rewrite Ht].
  destruct Ht as (o & Eo & Ew & -> & _). cbn. rewrite Eo, Ew. done.
Qed.
End Tracks.

(** ** [vsnprintf] *)

Definition sn_put (x : snprintf_ctx) (c : Z) : snprintf_ctx :=
  mkSn (if sn_written x <? sn_size x - 1 then <[Z.to_nat (sn_written x) := c]> (sn_buf x) else sn_buf x)
    (sn_size x) (sn_written x + 1).
Definition sn_ok (x : snprintf_ctx) : Prop :=
  1 ≤ sn_size x ≤ Z.of_nat (length (sn_buf x)) ∧ 0 ≤ sn_written x.

Lemma sn_putc_ok c x : sn_ok x → sn_putc c x = Done tt (sn_put x c) ∧ sn_ok (sn_put x c).
Proof.
  intros [Hs Hw]. unfold sn_putc, sn_put, sn_ok. cbn. destruct (Z.ltb_spec (sn_written x) (sn_size x - 1)).
  - rewrite decide_True by lia. split; [done|]. rewrite length_insert. lia.
  - split; [done|]. lia.
Qed.

Lemma sn_puts str size o : 1 ≤ size ≤ Z.of_nat (length str) → let kept := take (Z.to_nat (size - 1)) o in
  foldl sn_put (mkSn str size 0) o = mkSn (kept ++ drop (length kept) str) size (Z.of_nat (length o)).
Proof.
  intros Hs kept. unfold kept. clear kept. induction o as [|c o IH] using rev_ind; [cbn; by rewrite take_nil|].
  rewrite foldl_app, IH. cbn [foldl]. unfold sn_put. cbn [sn_buf sn_size sn_written].
  rewrite length_app. cbn [length]. f_equal; [|lia]. rewrite Nat2Z.id.
  set (n := Z.to_nat (size - 1)). destruct (Z.ltb_spec (Z.of_nat (length o)) (size - 1)).
  - rewrite (take_ge (o ++ [c])), (take_ge o) by (rewrite ?length_app; cbn; lia).
    rewrite insert_app_r_alt, Nat.sub_diag by lia.
    destruct (drop (length o) str) as [|x r] eqn:E.
    { apply (f_equal length) in E. rewrite length_drop in E. cbn in E. lia. }
    cbn [insert list_insert]. rewrite length_app, <-app_assoc. cbn. do 2 f_equal.
    rewrite <-drop_drop, E. done.
  - by rewrite take_app_le by lia.
Qed.

Lemma vsnprintf_eq str size f args : 1 ≤ size ≤ Z.of_nat (length str) →
  vsnprintf str size f args =
  o ← vprintf_out f args;
  let kept := take (Z.to_nat (size - 1)) o in
  Some (i32 (Z.of_nat (length o)), kept ++ 0 :: drop (S (length kept)) str).
Proof.
  intros Hs. unfold vsnprintf. rewrite (proj2 (Z.eqb_neq size 0)) by lia.
  pose proof (base_vprintf_device sn_putc sn_ok sn_put sn_putc_ok f args (mkSn str size 0)) as Hd.
  destruct (vprintf_out f args) as [o|]; rewrite Hd by (split; cbn; lia); [|done]. cbn [mbind option_bind].
  rewrite sn_puts by done. cbn zeta. cbn [sn_buf sn_size sn_written]. set (kept := take _ o).
  assert (length kept = Nat.min (Z.to_nat (size - 1)) (length o)) as Hk by (unfold kept; by rewrite length_take).
  replace (Z.to_nat _) with (length kept).
  2: { destruct (Z.ltb_spec (Z.of_nat (length o)) size); lia. }
  rewrite decide_True by (rewrite length_app, length_drop; lia). f_equal. f_equal.
  rewrite insert_app_r_alt, Nat.sub_diag by lia.
  destruct (drop (length kept) str) as [|x r] eqn:E.
  { apply (f_equal length) in E. rewrite length_drop in E. cbn in E. lia. }
  cbn [insert list_insert]. do 2 f_equal. replace (S (length kept)) with (length kept + 1)%nat by lia.
  by rewrite <-drop_drop, E.
Qed.

(** C38: [vsnprintf] never writes outside a buffer of the given size, at least one
    byte (with size 0 it writes nothing and returns 0): it stores
    the formatted text, cut to the size less one, and a zero after it, leaves the
    rest of the buffer alone, and returns the length of the whole text. *)
Theorem vsnprintf_correct str size f args : 1 ≤ size ≤ Z.of_nat (length str) →
  vsnprintf str size f args =
  o ← vprintf_out f args;
  let kept := take (Z.to_nat (size - 1)) o in
  Some (i32 (Z.of_nat (length o)), kept ++ 0 :: drop (S (length kept)) str).
Proof. apply vsnprintf_eq. Qed.

(** ** Numbers *)

(** [c] gives [a], puts out [o] and reads nothing. *)
Definition says {A} (c : M (pst (list Z)) A) (a : A) (o : list Z) : Prop :=
  ∀ f l w out, c (mkPst f l w out) = Done a (mkPst f l (w + Z.of_nat (length o)) (out ++ o)).

Lemma says_ret {A} (a : A) : says (mret a) a [].
Proof. intros f l w out. cbn. by rewrite app_nil_r, Z.add_0_r. Qed.

Lemma says_bind {A B} (c : M (pst (list Z)) A) (g : A → M (pst (list Z)) B) a b o1 o2 :
  says c a o1 → says (g a) b o2 → says (c ≫= g) b (o1 ++ o2).
Proof.
  intros Hc Hg f l w out. rewrite (bind_done _ _ _ _ _ (Hc f l w out)), Hg, length_app, app_assoc. do 2 f_equal. lia.
Qed.

Lemma says_emit c : says (emit log_putc c) tt [c].
Proof. by intros f l w out. Qed.

Lemma says_emit_list o : says (emit_list log_putc o) tt o.
Proof.
  induction o as [|c o IH]; [apply says_ret|]. cbn [emit_list].
  apply (says_bind (emit log_putc c) (λ _, emit_list log_putc o) tt tt [c] o); [apply says_emit|done].
Qed.

Lemma says_pad c width len : says (pad log_putc c width len) (Z.min width len - 1) (replicate (Z.to_nat (width - len)) c).
Proof.
  unfold pad. pose proof (says_bind (emit_list log_putc (replicate (Z.to_nat (width - len)) c))
    (λ _, mret (Z.min width len - 1)) tt (Z.min width len - 1) _ [] (says_emit_list _) (says_ret _)) as H.
  by rewrite app_nil_r in H.
Qed.

(** No output is left for a second loop. *)
Lemma says_pad_done c width len : width ≤ len → says (pad log_putc c width len) (Z.min width len - 1) [].
Proof. intros Hw. pose proof (says_pad c width len) as H. by replace (Z.to_nat (width - len)) with 0%nat in H by lia. Qed.

(** The text of a number by the standard: sign, prefix, at least [precision]
    digits, and blanks or zeros up to [width]. *)
Definition std_number (fl : flags) (width precision type n : Z) (negative : bool) : list Z :=
  let ds := if (n =? 0) && (precision =? 0) then []
            else digit_char (type =? 88) <$> digits n (num_base type) in
  let body := replicate (Z.to_nat (precision - Z.of_nat (length ds))) 48 ++ ds in
  let sign := if negative then [45] else if force_sign fl then [43] else if space_sign fl then [32] else [] in
  let prefix := if hash_flag fl && negb (n =? 0) then [48; if type =? 88 then 88 else 120] else [] in
  let fill c := replicate (Z.to_nat (width - Z.of_nat (length (sign ++ prefix ++ body)))) c in
  if left_justify fl then sign ++ prefix ++ body ++ fill 32
  else if zero_pad fl && (precision <? 0) then sign ++ prefix ++ fill 48 ++ body
  else fill 32 ++ sign ++ prefix ++ body.

(** The flags the standard gives a meaning to: signs with signed conversions, a
    prefix with hexadecimal ones, zeros without a precision. *)
Definition std_flags (fl : flags) (precision type : Z) : Prop :=
  is_num type = true ∧ type ≠ 112 ∧
  (is_signed type = false → force_sign fl = false ∧ space_sign fl = false) ∧
  (hash_flag fl = true → num_base type = 16) ∧
  (zero_pad fl = true → left_justify fl = true ∨ precision < 0).

Lemma put_num_says fl width precision type n negative ds rest :
  std_flags fl precision type →
  ds = (if (n =? 0) && (precision =? 0) then [] else digit_char (type =? 88) <$> digits n (num_base type)) →
  says (put_num log_putc fl width precision type n negative (hash_flag fl) (ds ++ rest) (Z.of_nat (length ds))) tt
    (std_number fl width precision type n negative).
Proof.
  intros (_ & Hp & _ & Hh & Hz) Eds. unfold put_num, std_number. rewrite <-Eds. cbn zeta.
  set (len := Z.of_nat (length ds)).
  set (sign := if negative then [45] else if force_sign fl then [43] else if space_sign fl then [32] else []).
  set (prefix := if hash_flag fl && negb (n =? 0) then [48; if type =? 88 then 88 else 120] else []).
  set (body := replicate (Z.to_nat (precision - len)) 48 ++ ds).
  set (actual := if hash_flag fl && negb (n =? 0) then _ else _).
  assert (actual = Z.of_nat (length (sign ++ prefix ++ body))) as Ea.
  { unfold actual, sign, prefix, body. rewrite !length_app, length_replicate. fold len.
    destruct (hash_flag fl) eqn:Ehf; cbn [andb].
    - rewrite Hh by done. cbn [Z.eqb Pos.eqb]. destruct negative, (force_sign fl), (space_sign fl), (n =? 0); cbn;
        destruct (Z.ltb_spec len precision); lia.
    - destruct negative, (force_sign fl), (space_sign fl); cbn; destruct (Z.ltb_spec len precision); lia. }
  rewrite <-Ea. clearbody actual.
  assert (says (if negative then emit log_putc 45 else if force_sign fl then emit log_putc 43
    else if space_sign fl then emit log_putc 32 else mret tt) tt sign) as Hsign.
  { unfold sign. destruct negative, (force_sign fl), (space_sign fl); (apply says_emit || apply says_ret). }
  assert (says (if hash_flag fl && (negb (n =? 0) || (type =? 112)) then
     if num_base type =? 16 then emit log_putc 48 ;; emit log_putc (if type =? 88 then 88 else 120)
     else if (num_base type =? 8) && negb (nth 0 (ds ++ rest) 0 =? 48) then emit log_putc 48 else mret tt
   else mret tt) tt prefix) as Hprefix.
  { unfold prefix. rewrite (proj2 (Z.eqb_neq _ _) Hp), orb_false_r. destruct (hash_flag fl) eqn:Ehf; cbn [andb]; [|apply says_ret].
    destruct (negb (n =? 0)); [|apply says_ret]. rewrite Hh by done. cbn [Z.eqb Pos.eqb].
    apply (says_bind _ (λ _, emit log_putc _) tt tt [48] [_]); apply says_emit. }
  assert (says (emit_list log_putc (take (Z.to_nat len) (ds ++ rest))) tt ds) as Hds.
  { unfold len. rewrite Nat2Z.id, take_app_length. apply says_emit_list. }
  pose proof (says_pad 48 precision len) as Hprec.
  assert (∀ w, says (pad log_putc 48 precision len ;; emit_list log_putc (take (Z.to_nat len) (ds ++ rest)) ;;
    (pad log_putc 32 w actual ;; mret tt)) tt (body ++ replicate (Z.to_nat (w - actual)) 32)) as Hend.
  { intros w. unfold body. rewrite <-app_assoc. eapply says_bind; [exact Hprec|]. eapply says_bind; [exact Hds|].
    rewrite <-(app_nil_r (replicate _ 32)). eapply says_bind; [apply says_pad|apply says_ret]. }
  destruct (left_justify fl); cbn [negb andb].
  - change (mret width ≫= ?g) with (g width). eapply says_bind; [exact Hsign|]. eapply says_bind; [exact Hprefix|].
    change (mret width ≫= ?g) with (g width). apply Hend.
  - destruct (zero_pad fl) eqn:Ezp; cbn [negb andb].
    + destruct (Hz eq_refl) as [?|Hneg]; [done|]. rewrite (proj2 (Z.ltb_lt _ _) Hneg).
      change (mret width ≫= ?g) with (g width). eapply says_bind; [exact Hsign|]. eapply says_bind; [exact Hprefix|].
      eapply says_bind; [apply says_pad|]. cbn beta. pose proof (Hend (Z.min width actual - 1)) as He.
      replace (Z.to_nat (Z.min width actual - 1 - actual)) with 0%nat in He by lia. cbn [replicate] in He.
      by rewrite app_nil_r in He.
    + eapply says_bind; [apply says_pad|]. cbn beta. eapply says_bind; [exact Hsign|]. eapply says_bind; [exact Hprefix|].
      change (mret ?x ≫= ?g) with (g x). cbn beta. pose proof (Hend (Z.min width actual - 1)) as He.
      replace (Z.to_nat (Z.min width actual - 1 - actual)) with 0%nat in He by lia. cbn [replicate] in He.
      by rewrite app_nil_r in He.
Qed.

Lemma digit_char_pos uppercase d : 0 ≤ d → 48 ≤ digit_char uppercase d.
Proof. intros Hd. unfold digit_char. destruct (Z.ltb_spec d 10), uppercase; lia. Qed.

Lemma num_val_range type lm z : 0 ≤ (num_val type lm z).1 < 2 ^ 64.
Proof.
  unfold num_val. pose proof (wrap_range 64 z ltac:(lia)). pose proof (wrap_range 32 z ltac:(lia)).
  destruct (is_signed type).
  - set (val := if _ : bool then i64 z else i32 z). assert (- 2 ^ 63 ≤ val < 2 ^ 63) as Hv.
    { unfold val, sint. repeat case_match; lia. }
    destruct (Z.ltb_spec val 0); cbn; [apply wrap_range; lia|lia].
  - destruct (type =? 112); [done|]. destruct (_ || _ || _); cbn; [done|lia].
Qed.

Lemma num_base_ok type : 2 ≤ num_base type.
Proof. unfold num_base. repeat case_match; lia. Qed.

Lemma digits_64 type n : 0 ≤ n < 2 ^ 64 →
  digits_val (num_base type) (digits n (num_base type)) = n ∧
  Forall (λ d, 0 ≤ d < num_base type) (digits n (num_base type)).
Proof.
  intros Hn. pose proof (num_base_ok type) as Hb.
  assert (2 ^ 65 ≤ num_base type ^ 65) as Hp by (apply (Z.pow_le_mono_l 2); lia).
  apply digits_correct; [lia|]. split; [lia|]. eapply Z.lt_le_trans; [|exact Hp]. lia.
Qed.

Lemma conv_num_eq fl width precision lm type z f l w out :
  std_flags fl precision type →
  let n := (num_val type lm z).1 in let negative := (num_val type lm z).2 in
  (num_base type = 2 → n < 2 ^ 63) →
  let text := std_number fl width precision type n negative in
  conv_num log_putc fl width precision lm type (mkPst f (AInt z :: l) w out) =
    Done tt (mkPst f l (w + Z.of_nat (length text)) (out ++ text)).
Proof.
  intros Hfl n negative Hbin text. pose proof (num_val_range type lm z) as Hn. fold n in Hn.
  pose proof (num_base_ok type) as Hb. destruct (digits_64 type n Hn) as [Hval Hds]. unfold conv_num.
  rewrite (bind_done va_int _ (mkPst f (AInt z :: l) w out) z (mkPst f l w out) eq_refl).
  rewrite (surjective_pairing (num_val type lm z)). fold n negative.
  rewrite itoa_eq by (rewrite ?length_replicate; lia). cbn zeta.
  pose proof (itoa_fits n (num_base type) Hn Hb Hbin) as Hfit.
  rewrite length_fmap, length_replicate, decide_True by done. set (ds := digit_char (type =? 88) <$> digits n (num_base type)).
  assert (list_find (λ c, c = 0) (ds ++ 0 :: drop (S (length (digits n (num_base type)))) (replicate 64 0)) = Some (length ds, 0)) as ->.
  { apply list_find_Some. split_and!; [by rewrite lookup_app_r, Nat.sub_diag by lia|done|].
    intros j y Hj Hlt. rewrite lookup_app_l in Hj by lia. apply list_lookup_fmap_Some in Hj as (d & -> & Hd).
    pose proof (Forall_lookup_1 _ _ _ _ Hds Hd) as [H0 _]. pose proof (digit_char_pos (type =? 88) d H0). lia. }
  cbn [fmap option_fmap option_map compose fst default].
  assert (is_signed type = false → (type =? 112) = false) as E112 by (intros _; apply Z.eqb_neq; apply Hfl).
  replace (if is_signed type then hash_flag fl else if type =? 112 then true else hash_flag fl) with (hash_flag fl)
    by (destruct (is_signed type); [done|by rewrite E112]).
  destruct ((n =? 0) && (precision =? 0)) eqn:E0.
  - change 0 with (Z.of_nat (length (@nil Z))) at 1. rewrite <-(app_nil_l (ds ++ _)).
    apply (put_num_says fl width precision type n negative [] _ Hfl). by rewrite E0.
  - apply (put_num_says fl width precision type n negative ds _ Hfl). by rewrite E0.
Qed.

(** ** The value by the standard

    The length modifiers [hh h l ll z j t] (2, 1, 3, 4, 5, 6, 7) name a type; here
    [int] has 32 bits and [long], [intmax_t], [size_t] and [ptrdiff_t] have 64.
    The number put out is the argument converted to that type. *)
Definition std_width (lm : Z) : Z :=
  if lm =? 2 then 8 else if lm =? 1 then 16 else if lm =? 0 then 32 else 64.
Definition std_value (type lm z : Z) : Z :=
  if is_signed type then sint (std_width lm) z else wrap (std_width lm) z.

(** The modifiers for which the code reads the named type: none, [l] and [ll], [j]
    and [t] with the signed and [z] with the unsigned conversions. *)
Definition handled (type lm : Z) : bool :=
  (lm =? 0) || (lm =? 3) || (lm =? 4) ||
  (if is_signed type then (lm =? 6) || (lm =? 7) else lm =? 5).

Lemma sint_range w z : 0 < w → - 2 ^ (w - 1) ≤ sint w z < 2 ^ (w - 1).
Proof.
  intros Hw. unfold sint. pose proof (wrap_range w z ltac:(lia)).
  assert (2 ^ w = 2 * 2 ^ (w - 1)) by (rewrite <-Z.pow_succ_r by lia; f_equal; lia).
  case_match; lia.
Qed.

(** The code reads the value of the standard for these modifiers, and for the
    others when the value does not depend on the modifier. *)
Lemma num_val_std type lm z : is_num type = true → type ≠ 112 → 0 ≤ lm ≤ 7 →
  handled type lm = true ∨ std_value type lm z = std_value type 0 z →
  let v := std_value type lm z in num_val type lm z = (Z.abs v, v <? 0).
Proof.
  intros Hnum Hp Hlm Hh v.
  assert (v = if is_signed type then if (lm =? 4) || (lm =? 3) || (lm =? 6) || (lm =? 7) then i64 z else i32 z
              else if (lm =? 4) || (lm =? 3) || (lm =? 5) then u64 z else u32 z) as Ev.
  { destruct Hh as [Hh|E].
    - unfold v, std_value, std_width. unfold handled in Hh.
      assert (lm = 0 ∨ lm = 1 ∨ lm = 2 ∨ lm = 3 ∨ lm = 4 ∨ lm = 5 ∨ lm = 6 ∨ lm = 7) as Hc by lia.
      destruct Hc as [->|[->|[->|[->|[->|[->|[->| ->]]]]]]]; by destruct (is_signed type).
    - destruct (is_signed type) eqn:Es.
      + destruct ((lm =? 4) || (lm =? 3) || (lm =? 6) || (lm =? 7)) eqn:El.
        * unfold v, std_value, std_width. rewrite Es.
          rewrite !orb_true_iff, !Z.eqb_eq in El. by destruct El as [[[->| ->]| ->]| ->].
        * unfold v. rewrite E. unfold std_value. by rewrite Es.
      + destruct ((lm =? 4) || (lm =? 3) || (lm =? 5)) eqn:El.
        * unfold v, std_value, std_width. rewrite Es.
          rewrite !orb_true_iff, !Z.eqb_eq in El. by destruct El as [[->| ->]| ->].
        * unfold v. rewrite E. unfold std_value. by rewrite Es. }
  clearbody v. subst v. unfold num_val. destruct (is_signed type).
  - set (val := if _ : bool then i64 z else i32 z).
    assert (- 2 ^ 63 ≤ val < 2 ^ 63) as Hv.
    { pose proof (sint_range 64 z ltac:(lia)). pose proof (sint_range 32 z ltac:(lia)).
      unfold val. destruct (_ || _); lia. }
    destruct (Z.ltb_spec val 0); f_equal; [rewrite wrap_small by lia|]; lia.
  - rewrite (proj2 (Z.eqb_neq _ _) Hp).
    pose proof (wrap_range 64 z ltac:(lia)). pose proof (wrap_range 32 z ltac:(lia)).
    destruct (_ || _ || _); f_equal; try lia; symmetry; apply Z.ltb_ge; lia.
Qed.

(** No digit is written in vain. *)
Lemma digits_low_last base fuel : 2 ≤ base → ∀ n, 0 < n < base ^ Z.of_nat fuel →
  list.last (digits_low fuel n base) ≠ Some 0.
Proof.
  intros Hb. induction fuel as [|fuel IH]; intros n Hn; [simpl in Hn; lia|]. cbn [digits_low].
  destruct (Z.eqb_spec (n `div` base) 0) as [E|E].
  - cbn [list.last]. rewrite (Z.div_mod n base) at 1 by lia. rewrite E. intros [= Hz].
    pose proof (Z.div_mod n base ltac:(lia)). rewrite E in *. rewrite Z.mul_0_r, Z.add_0_l, Zmod_mod in Hz. lia.
  - assert (0 < n `div` base < base ^ Z.of_nat fuel) as Hd.
    { pose proof (Z.div_pos n base ltac:(lia) ltac:(lia)). split; [lia|].
      apply Z.div_lt_upper_bound; [lia|]. rewrite Nat2Z.inj_succ, Z.pow_succ_r in Hn by lia. lia. }
    specialize (IH _ Hd). rewrite last_cons. destruct (list.last (digits_low fuel (n `div` base) base)) eqn:El; [done|].
    apply last_None in El. destruct fuel; [simpl in Hd; lia|]. by cbn in El.
Qed.

(** C39: The conversions [d i u x X o b] of a number put out the text the C
    standard asks for - sign, prefix, digits up to the precision, padding up to
    the width - of the value the standard gives the argument: the argument
    converted to the type that the length modifier names.  The digits denote the
    absolute value of that number, with no leading zero.  This holds for a width
    that is not negative, for the flags the standard gives a meaning to, and for
    binary numbers of at most 63 digits.  It covers every length modifier for
    which the code reads the named type, and the other ones ([h], [hh], [z] with
    [d], [j] and [t] with [u x X o b]) only for arguments whose value does not
    depend on the modifier; what the code prints for other arguments, or after a
    negative width, is in the examples below. *)
Theorem printf_number_correct fl width precision lm type z f l w out :
  std_flags fl precision type → 0 ≤ width → 0 ≤ lm ≤ 7 →
  handled type lm = true ∨ std_value type lm z = std_value type 0 z →
  let v := std_value type lm z in
  (num_base type = 2 → Z.abs v < 2 ^ 63) →
  let text := std_number fl width precision type (Z.abs v) (v <? 0) in
  let ds := digits (Z.abs v) (num_base type) in
  conv_num log_putc fl width precision lm type (mkPst f (AInt z :: l) w out) =
    Done tt (mkPst f l (w + Z.of_nat (length text)) (out ++ text)) ∧
  digits_val (num_base type) ds = Z.abs v ∧ Forall (λ d, 0 ≤ d < num_base type) ds ∧
  (v ≠ 0 → head ds ≠ Some 0).
Proof.
  intros Hfl Hw Hlm Hh v Hbin text ds. pose proof Hfl as (Hnum & Hp & _).
  pose proof (num_val_std type lm z Hnum Hp Hlm Hh) as E. fold v in E. cbn zeta in E.
  pose proof (num_val_range type lm z) as Hr. rewrite E in Hr. cbn [fst] in Hr.
  pose proof (conv_num_eq fl width precision lm type z f l w out Hfl) as Hc. rewrite E in Hc.
  split; [by apply Hc|]. destruct (digits_64 type (Z.abs v) Hr) as [? ?]. split_and!; [done|done|].
  intros Hv. unfold ds, digits. rewrite head_reverse. pose proof (num_base_ok type) as Hb.
  apply digits_low_last; [done|]. split; [lia|].
  assert (2 ^ 65 ≤ num_base type ^ 65) by (apply (Z.pow_le_mono_l 2); lia). change (Z.of_nat 65) with 65. lia.
Qed.

(** The text of a string: at most [precision] characters, and blanks. *)
Definition std_string (fl : flags) (width precision : Z) (s : list Z) : list Z :=
  let body := if 0 <=? precision then take (Z.to_nat precision) s else s in
  let fill := replicate (Z.to_nat (width - Z.of_nat (length body))) 32 in
  if left_justify fl then body ++ fill else fill ++ body.

Lemma conv_str_eq fl width precision s f l w out :
  let text := std_string fl width precision (default null_str s) in
  conv_str log_putc fl width precision (mkPst f (AStr s :: l) w out) =
    Done tt (mkPst f l (w + Z.of_nat (length text)) (out ++ text)).
Proof.
  intros text. unfold conv_str.
  rewrite (bind_done va_str _ (mkPst f (AStr s :: l) w out) s (mkPst f l w out) eq_refl). cbn zeta.
  unfold text. clear text. generalize (default null_str s). intros str. set (text := std_string _ _ _ _). set (body := if 0 <=? precision then take (Z.to_nat precision) str else str).
  set (len := if _ : bool then precision else _).
  assert (len = Z.of_nat (length body) ∧ take (Z.to_nat len) str = body) as [Hlen Htk].
  { unfold len, body. destruct (Z.leb_spec 0 precision); cbn [andb].
    - destruct (Z.ltb_spec precision (Z.of_nat (length str))); [rewrite length_take; split; [lia|done]|].
      rewrite (take_ge str (Z.to_nat precision)) by lia. split; [done|]. apply take_ge. lia.
    - split; [done|]. apply take_ge. lia. }
  clearbody len. assert (text = if left_justify fl then body ++ replicate (Z.to_nat (width - len)) 32
    else replicate (Z.to_nat (width - len)) 32 ++ body) as -> by (unfold text, std_string; fold body; by rewrite Hlen).
  clearbody body. revert f l w out. rewrite Htk. refine ((_ : says _ _ _)). destruct (left_justify fl).
  - change (mret width ≫= ?g) with (g width). cbn beta. eapply says_bind; [apply says_emit_list|].
    rewrite <-(app_nil_r (replicate _ _)). eapply says_bind; [apply says_pad|apply says_ret].
  - eapply says_bind; [apply says_pad|]. cbn beta. rewrite <-(app_nil_r body) at 2. eapply says_bind; [apply says_emit_list|].
    rewrite <-(app_nil_r []). eapply says_bind; [apply says_pad_done; lia|apply says_ret].
Qed.

(** The loop on a character and on a directive. *)
Lemma loop_char fuel c f l w out : c ≠ 0 → c ≠ 37 →
  vprintf_loop log_putc (S fuel) (mkPst (c :: f) l w out) = vprintf_loop log_putc fuel (mkPst f l (w + 1) (out ++ [c])).
Proof.
  intros H0 H37. cbn [vprintf_loop]. unfold mbind, M_bind, peek, on_fmt at 1. cbn. rewrite (proj2 (Z.eqb_neq _ _) H0).
  cbn. by rewrite (proj2 (Z.eqb_neq _ _) H37).
Qed.

Lemma loop_directive fuel f l w out st : directive log_putc (mkPst f l w out) = Done tt st →
  vprintf_loop log_putc (S fuel) (mkPst (37 :: f) l w out) = vprintf_loop log_putc fuel st.
Proof. intros E. cbn [vprintf_loop]. unfold mbind, M_bind, peek, next, on_fmt. cbn. by rewrite E. Qed.

(** [%+8.4jd] of -42. *)
Lemma printf_number_correct_witness :
  let fl := mkFlags false true false false false in
  conv_num log_putc fl 8 4 6 100 (mkPst [] [AInt (-42)] 0 []) = Done tt (mkPst [] [] 8 [32; 32; 32; 45; 48; 48; 52; 50]) ∧
  digits_val 10 (digits 42 10) = 42 ∧ Forall (λ d, 0 ≤ d < 10) (digits 42 10) ∧ (-42 ≠ 0 → head (digits 42 10) ≠ Some 0).
Proof.
  intros fl. assert (std_flags fl 4 100) as Hf by (split_and!; done).
  exact (printf_number_correct fl 8 4 6 100 (-42) [] [] 0 [] Hf ltac:(discriminate) ltac:(split; discriminate)
    (or_introl eq_refl) ltac:(discriminate)).
Defined.

Lemma vsnprintf_correct_witness :
  vsnprintf (replicate 6 1) 6 [37; 100; 32; 37; 115] [AInt 17; AStr (Some [97; 98; 99])] =
  o ← vprintf_out [37; 100; 32; 37; 115] [AInt 17; AStr (Some [97; 98; 99])];
  let kept := take (Z.to_nat (6 - 1)) o in
  Some (i32 (Z.of_nat (length o)), kept ++ 0 :: drop (S (length kept)) (replicate 6 1)).
Proof. apply (vsnprintf_correct (replicate 6 1) 6). split; discriminate. Defined.

(** ** Runs that go wrong *)

(** Binary output of a number of 64 digits overruns the buffer of 64 bytes; a
    format that ends in a percent sign is read beyond its end. *)
Example binary_overflow : vprintf_out [37; 108; 98] [AInt (2 ^ 63)] = None.
Proof. vm_compute. reflexivity. Qed.

Example format_overread : vprintf_out [37] [] = None.
Proof. vm_compute. reflexivity. Qed.

(** A null pointer in a field of six comes out in eight; [%zd] and [%ju] read 32
    bits. *)
Example null_pointer_width : vprintf_out [37; 54; 112] [AInt 0] = Some [32; 32; 32; 32; 32; 48; 120; 48].
Proof. vm_compute. reflexivity. Qed.

Example size_truncated :
  vprintf_out [37; 122; 100] [AInt (2 ^ 32 + 5)] = Some [53] ∧ vprintf_out [37; 106; 117] [AInt (2 ^ 32 + 5)] = Some [53].
Proof. vm_compute. split; reflexivity. Qed.

(** [%hhd] of 300 is 300, where the standard says 44; a width of -4 from the
    arguments is no width, where the standard says left-justified in four. *)
Example short_not_converted :
  vprintf_out [37; 104; 104; 100] [AInt 300] = Some [51; 48; 48] ∧ std_value 100 2 300 = 44.
Proof. vm_compute. split; reflexivity. Qed.

Example negative_width : vprintf_out [37; 42; 100] [AInt (-4); AInt 7] = Some [55].
Proof. vm_compute. reflexivity. Qed.
