(* ===== verification/Symbols.v ===== *)
(** * Kernel symbols

    Models [kernel/symbols.c]: reading the symbol section, looking symbols up in
    both directions, and the text of [/proc/kallsyms].  A name is a list of bytes
    without the final zero; [kmalloc] of a positive size does not give [NULL]
    (theorems of [Slab]), so a name is always stored. *)

From S2P Require Import Prelude Bytes Printf PrintfSpec.

(** ** The code *)

Definition MAX_SYMS : Z := 8192.

Record sym_t := mkSym { sym_addr : Z; sym_name : list Z }.

Definition hex_digit (v c : Z) : Z :=
  let v := u64 (Z.shiftl v 4) in
  if (48 <=? c) && (c <=? 57) then Z.lor v (c - 48)
  else if (97 <=? c) && (c <=? 102) then Z.lor v (c - 97 + 10)
  else if (65 <=? c) && (c <=? 70) then Z.lor v (c - 65 + 10)
  else v.
Definition hex_to_u64 (s : list Z) : Z := foldl hex_digit 0 s.

(** The characters from the first one on that does not satisfy [P], and the
    ones before it: [while (p < end && P( *p)) p++]. *)
Fixpoint skip (P : Z → bool) (l : list Z) : list Z :=
  match l with [] => [] | c :: r => if P c then skip P r else l end.
Fixpoint span (P : Z → bool) (l : list Z) : list Z :=
  match l with [] => [] | c :: r => if P c then c :: span P r else [] end.

Definition is_gap (c : Z) : bool := (c =? 10) || (c =? 32) || (c =? 9) || (c =? 0).
Definition in_name (c : Z) : bool := negb (c =? 10) && negb (c =? 0).

(** The loop of [parse_symbols] from [p] on; [None] is running out of fuel. *)
Fixpoint parse_from (fuel : nat) (p : list Z) (tbl : list sym_t) : option (list sym_t) :=
  if bool_decide (p = []) || (MAX_SYMS <=? Z.of_nat (length tbl)) then Some tbl else
  match fuel with
  | O => None
  | S fuel =>
      let p := skip is_gap p in
      if bool_decide (p = []) then Some tbl else
      if Z.of_nat (length p) <? 16 then Some tbl else
      let addr := hex_to_u64 (take 16 p) in
      let p := skip (λ c, c =? 32) (drop 16 p) in
      let name := span in_name p in
      let p := skip in_name p in
      if bool_decide (name = []) then parse_from fuel p tbl else
      parse_from fuel (drop 1 p) (tbl ++ [mkSym addr name])
  end.

Definition parse_symbols (section : list Z) (tbl : list sym_t) : option (list sym_t) :=
  parse_from (length section) section tbl.

(** The statics of the file. *)
Record symst := mkSymst { sym_table : list sym_t; sym_initialized : bool }.

(** [section]: the bytes from [__ksyms_start] to [__ksyms_end]. *)
Definition symbols_init (section : list Z) : M symst unit :=
  init ← gets sym_initialized;
  if init : bool then mret tt else
  modify (λ s, mkSymst (sym_table s) true) ;;
  if bool_decide (section = []) then mret tt else
  if forallb (λ c, c =? 0) (take 64 section) then mret tt else
  tbl ← gets sym_table;
  tbl ← from_opt (parse_symbols section tbl);
  modify (λ s, mkSymst tbl (sym_initialized s)).

(** The loop of [sym_lookup]: the best symbol so far and its distance. *)
Fixpoint lookup_from (tbl : list sym_t) (addr i best best_dist : Z) : Z * Z :=
  match tbl with
  | [] => (best, best_dist)
  | x :: tbl =>
      if (sym_addr x <=? addr) && (addr - sym_addr x <? best_dist)
      then lookup_from tbl addr (i + 1) i (addr - sym_addr x)
      else lookup_from tbl addr (i + 1) best best_dist
  end.

Definition unknown : list Z := [63; 63; 63].

(** The name and the offset. *)
Definition sym_lookup (tbl : list sym_t) (addr : Z) : option (list Z * Z) :=
  match tbl with
  | [] => Some (unknown, 0)
  | _ =>
      let '(best, best_dist) := lookup_from tbl addr 0 0 (2 ^ 64 - 1) in
      x ← tbl !! Z.to_nat best;
      Some (sym_name x, best_dist)
  end.

Definition sym_get_addr (tbl : list sym_t) (name : list Z) : Z :=
  match list_find (λ x, sym_name x = name) tbl with Some (_, x) => sym_addr x | None => 0 end.

Definition get_ksym_count (tbl : list sym_t) : Z := Z.of_nat (length tbl).

(** The format of a line of [kallsyms_dump_range]. *)
Definition line_fmt : list Z := [37; 48; 49; 54; 108; 120; 32; 84; 32; 37; 115; 10].

(** Its loop; [junk] is what the array [line] contains at first, [None] a read
    beyond it. *)
Fixpoint dump_from (junk : list Z) (tbl : list sym_t) (size offset current_byte : Z) (out : list Z) :
    option (list Z) :=
  match tbl with
  | [] => Some out
  | x :: tbl =>
      '(len, line) ← vsnprintf junk 256 line_fmt [AInt (sym_addr x); AStr (Some (sym_name x))];
      if len <=? 0 then dump_from junk tbl size offset current_byte out else
      let written := Z.of_nat (length out) in
      if offset <? current_byte + len then
        let line_off := if current_byte <? offset then offset - current_byte else 0 in
        let to_copy := len - line_off in
        let to_copy := if size <? written + to_copy then size - written else to_copy in
        if decide (line_off + to_copy ≤ Z.of_nat (length line)) then
          let out := out ++ take (Z.to_nat to_copy) (drop (Z.to_nat line_off) line) in
          if size <=? Z.of_nat (length out) then Some out
          else dump_from junk tbl size offset (current_byte + len) out
        else None
      else dump_from junk tbl size offset (current_byte + len) out
  end.

(** The bytes stored into [buf]; their number is the result. *)
Definition kallsyms_dump_range (junk : list Z) (tbl : list sym_t) (size offset : Z) : option (list Z) :=
  if size =? 0 then Some [] else dump_from junk tbl size offset 0 [].

Definition kallsyms_size_bytes (tbl : list sym_t) : Z :=
  foldl (λ total x, total + (19 + Z.of_nat (length (sym_name x)) + 1)) 0 tbl.

(** ** The texts *)

(** The sixteen hexadecimal digits of an address. *)
Definition hex16 (a : Z) : list Z :=
  let ds := digit_char false <$> digits a 16 in replicate (16 - length ds) 48 ++ ds.

(** A line of the symbol section, and of [/proc/kallsyms]. *)
Definition ksym_line (x : sym_t) : list Z := hex16 (sym_addr x) ++ [32] ++ sym_name x ++ [10].
Definition kallsyms_line (x : sym_t) : list Z := hex16 (sym_addr x) ++ [32; 84; 32] ++ sym_name x ++ [10].
Definition kallsyms (tbl : list sym_t) : list Z := mjoin (kallsyms_line <$> tbl).

Lemma digits16_length a : 0 ≤ a < 2 ^ 64 → (length (digits a 16) ≤ 16)%nat.
Proof.
  intros Ha. unfold digits. rewrite length_reverse.
  destruct (digits_low_length 16 ltac:(lia) 65 a 15) as [H _]; [lia|]. apply H. change (16 ^ Z.of_nat 16) with (2 ^ 64). lia.
Qed.

Lemma hex16_length a : 0 ≤ a < 2 ^ 64 → length (hex16 a) = 16%nat.
Proof.
  intros Ha. pose proof (digits16_length a Ha). unfold hex16. rewrite length_app, length_replicate, length_fmap. lia.
Qed.

(** Reading digits is evaluating them. *)
Lemma hex_digit_eq v d : 0 ≤ v < 2 ^ 60 → 0 ≤ d < 16 → hex_digit v (digit_char false d) = v * 16 + d.
Proof.
  intros Hv Hd. assert (u64 (Z.shiftl v 4) = Z.shiftl v 4) as E by (apply wrap_small; rewrite Z.shiftl_mul_pow2; lia).
  assert (Z.lor (Z.shiftl v 4) d = v * 16 + d) as El.
  { rewrite Z.lor_comm, lor_shift by lia. lia. }
  unfold hex_digit, digit_char. rewrite E. destruct (Z.ltb_spec d 10).
  - rewrite (proj2 (Z.leb_le 48 (48 + d))), (proj2 (Z.leb_le (48 + d) 57)) by lia. cbn [andb].
    by replace (48 + d - 48) with d by lia.
  - rewrite (proj2 (Z.leb_gt (87 + d) 57)), andb_false_r by lia.
    rewrite (proj2 (Z.leb_le 97 (87 + d))), (proj2 (Z.leb_le (87 + d) 102)) by lia. cbn [andb].
    by replace (87 + d - 97 + 10) with d by lia.
Qed.

Lemma digits_val_app l d : digits_val 16 (l ++ [d]) = digits_val 16 l * 16 + d.
Proof. unfold digits_val. by rewrite foldl_app. Qed.

Lemma hex_digits_eq l : Forall (λ d, 0 ≤ d < 16) l → 0 ≤ digits_val 16 l < 2 ^ 64 →
  hex_to_u64 (digit_char false <$> l) = digits_val 16 l ∧ 0 ≤ digits_val 16 l.
Proof.
  intros Hl. induction l as [|d l IH] using rev_ind; intros Hv; [done|]. rewrite digits_val_app in *.
  apply Forall_app in Hl as [Hl [Hd _]%Forall_cons_1]. unfold hex_to_u64 in *. rewrite fmap_app, foldl_app. cbn.
  assert (0 ≤ digits_val 16 l) as Hp.
  { clear - Hl. induction l as [|d l IH] using rev_ind; [done|]. rewrite digits_val_app.
    apply Forall_app in Hl as [Hl [Hd _]%Forall_cons_1]. specialize (IH Hl). lia. }
  destruct IH as [-> _]; [done|lia|]. rewrite hex_digit_eq by lia. lia.
Qed.

Lemma hex16_read a : 0 ≤ a < 2 ^ 64 → hex_to_u64 (hex16 a) = a.
Proof.
  intros Ha. destruct (digits_64 120 a Ha) as [Hv Hd]. change (num_base 120) with 16 in *.
  unfold hex16, hex_to_u64. cbn zeta. rewrite foldl_app.
  replace (foldl hex_digit 0 (replicate _ 48)) with 0.
  { destruct (hex_digits_eq (digits a 16)) as [E _]; [done|by rewrite Hv|]. unfold hex_to_u64 in E. by rewrite E. }
  generalize (16 - length (digit_char false <$> digits a 16))%nat. intros n. induction n as [|n IH]; [done|]. cbn. done.
Qed.

(** ** Reading the section *)

Lemma mjoin_cons (l : list Z) ls : mjoin (l :: ls) = l ++ mjoin ls.
Proof. done. Qed.

(** A symbol as the section can hold it: the name is not empty, does not start
    with a blank and has no newline or zero. *)
Definition sym_ok (x : sym_t) : Prop :=
  0 ≤ sym_addr x < 2 ^ 64 ∧ Forall (λ c, in_name c = true) (sym_name x) ∧
  ∃ c r, sym_name x = c :: r ∧ c ≠ 32.

Lemma skip_stop P c l : P c = false → skip P (c :: l) = c :: l.
Proof. intros E. cbn. by rewrite E. Qed.
Lemma span_app P l c r : Forall (λ c, P c = true) l → P c = false → span P (l ++ c :: r) = l ∧ skip P (l ++ c :: r) = c :: r.
Proof.
  intros Hl Hc. induction Hl as [|d l Hd _ [IH1 IH2]]; cbn; [by rewrite Hc|]. by rewrite Hd, IH1, IH2.
Qed.

Lemma hex16_first a : 0 ≤ a < 2 ^ 64 → ∃ c r, hex16 a = c :: r ∧ is_gap c = false.
Proof.
  intros Ha. pose proof (hex16_length a Ha) as Hl. destruct (digits_64 120 a Ha) as [_ Hd].
  unfold hex16 in *. cbn zeta in *. destruct (16 - length _)%nat as [|n]; [|by eexists _, _].
  change (num_base 120) with 16 in Hd. destruct (digits a 16) as [|d ds]; [done|]. apply Forall_cons_1 in Hd as [Hd _].
  eexists _, _. split; [reflexivity|]. pose proof (digit_char_pos false d ltac:(lia)). unfold is_gap.
  by rewrite !(proj2 (Z.eqb_neq (digit_char false d) _)) by lia.
Qed.

(** One line is one turn of the loop. *)
Lemma parse_line fuel x rest tbl : sym_ok x → Z.of_nat (length tbl) < MAX_SYMS →
  parse_from (S fuel) (ksym_line x ++ rest) tbl = parse_from fuel rest (tbl ++ [x]).
Proof.
  intros (Ha & Hn & c & r & En & Hc) Ht. pose proof (hex16_length _ Ha) as Hl.
  destruct (hex16_first _ Ha) as (h & hs & Eh & Hh). unfold ksym_line. rewrite <-!app_assoc.
  assert (∃ q, hex16 (sym_addr x) ++ [32] ++ sym_name x ++ [10] ++ rest = h :: q) as [q Eq] by (rewrite Eh; by eexists).
  cbn [parse_from]. rewrite Eq. rewrite bool_decide_eq_false_2 by done.
  rewrite (proj2 (Z.leb_gt MAX_SYMS _)) by lia. cbn [orb]. rewrite skip_stop by done.
  rewrite bool_decide_eq_false_2 by done. rewrite <-Eq.
  rewrite (proj2 (Z.ltb_ge _ 16)) by (rewrite !length_app, Hl; lia).
  rewrite take_app_le, take_ge, drop_app_le, drop_ge, hex16_read by (done || lia).
  cbn [app]. replace (skip (λ c, c =? 32) (32 :: sym_name x ++ 10 :: rest)) with (sym_name x ++ 10 :: rest).
  2: { cbn. rewrite En. cbn. by rewrite (proj2 (Z.eqb_neq _ _) Hc). }
  destruct (span_app in_name (sym_name x) 10 rest Hn eq_refl) as [-> ->].
  rewrite bool_decide_eq_false_2 by (by rewrite En). cbn [drop]. rewrite drop_0. by destruct x.
Qed.

Lemma parse_lines fuel xs tbl : (length xs ≤ fuel)%nat → Forall sym_ok xs →
  parse_from fuel (mjoin (ksym_line <$> xs)) tbl = Some (tbl ++ take (Z.to_nat MAX_SYMS - length tbl) xs).
Proof.
  intros Hf Hx. revert fuel tbl Hf. induction Hx as [|x xs Hx _ IH]; intros fuel tbl Hf.
  - rewrite take_nil, app_nil_r. by destruct fuel.
  - destruct fuel as [|fuel]; [cbn in Hf; lia|]. cbn in Hf. rewrite fmap_cons, mjoin_cons.
    destruct (decide (Z.of_nat (length tbl) < MAX_SYMS)) as [Ht|Ht].
    + rewrite parse_line, IH by (done || lia). rewrite <-app_assoc. do 2 f_equal.
      rewrite length_app. cbn [length]. replace (Z.to_nat MAX_SYMS - length tbl)%nat with (S (Z.to_nat MAX_SYMS - (length tbl + 1)))%nat by lia. done.
    + cbn [parse_from]. rewrite (proj2 (Z.leb_le MAX_SYMS _)), orb_true_r by lia.
      replace (Z.to_nat MAX_SYMS - length tbl)%nat with 0%nat by lia. by rewrite take_0, app_nil_r.
Qed.

Lemma lines_length xs : (length xs ≤ length (mjoin (ksym_line <$> xs)))%nat.
Proof.
  induction xs as [|x xs IH]; [done|]. rewrite fmap_cons, mjoin_cons, length_app. unfold ksym_line at 1.
  rewrite !length_app. cbn [length]. lia.
Qed.

Lemma parse_symbols_eq xs : Forall sym_ok xs →
  parse_symbols (mjoin (ksym_line <$> xs)) [] = Some (take (Z.to_nat MAX_SYMS) xs).
Proof.
  intros Hx. unfold parse_symbols. rewrite parse_lines by (done || apply lines_length). cbn [length]. by rewrite Nat.sub_0_r.
Qed.

(** The symbol section, written as lines of an address in sixteen hexadecimal
    digits and a name, is read back by the first [symbols_init] as the table it was
    written from, cut to 8192 symbols; a second call changes nothing. *)
Theorem symbols_init_correct xs : Forall sym_ok xs → let tbl := take (Z.to_nat MAX_SYMS) xs in
  symbols_init (mjoin (ksym_line <$> xs)) (mkSymst [] false) = Done tt (mkSymst tbl true) ∧
  symbols_init (mjoin (ksym_line <$> xs)) (mkSymst tbl true) = Done tt (mkSymst tbl true).
Proof.
  intros Hx tbl. split; [|done]. pose proof (parse_symbols_eq xs Hx) as Ep. fold tbl in Ep.
  assert (mjoin (ksym_line <$> xs) = [] ∧ tbl = [] ∨ ∃ h q, mjoin (ksym_line <$> xs) = h :: q ∧ is_gap h = false) as Hs.
  { destruct xs as [|x xs]; [by left|]. right. apply Forall_cons_1 in Hx as [(Ha & _) _].
    destruct (hex16_first _ Ha) as (h & hs & Eh & Hh). rewrite fmap_cons, mjoin_cons. unfold ksym_line at 1.
    exists h. rewrite Eh. by eexists. }
  clearbody tbl. revert Ep Hs. generalize (mjoin (ksym_line <$> xs)). intros sec Ep [[-> ->]|(h & q & -> & Hh)]; [done|].
  unfold symbols_init. remember (parse_symbols (h :: q) []) as r eqn:Er. cbn -[parse_symbols]. destruct (Z.eqb_spec h 0) as [->|]; [done|].
  unfold mbind, M_bind. cbn -[parse_symbols]. by rewrite <-Er, Ep.
Qed.

Lemma symbols_init_correct_witness :
  let xs := [mkSym 4294967311 [97; 32; 98]; mkSym (2 ^ 64 - 1) [95]] in let tbl := take (Z.to_nat MAX_SYMS) xs in
  symbols_init (mjoin (ksym_line <$> xs)) (mkSymst [] false) = Done tt (mkSymst tbl true) ∧
  symbols_init (mjoin (ksym_line <$> xs)) (mkSymst tbl true) = Done tt (mkSymst tbl true).
Proof.
  intros xs. apply (symbols_init_correct xs). repeat constructor; try done; cbn; eauto.
Defined.

(** ** Looking up *)

(** The nearest symbol at or below [a], the first one of several at its address. *)
Definition nearest (tbl : list sym_t) (a : Z) (x : sym_t) : Prop :=
  ∃ i, tbl !! i = Some x ∧ sym_addr x ≤ a ∧
  (∀ j y, tbl !! j = Some y → sym_addr y ≤ a → sym_addr y ≤ sym_addr x) ∧
  (∀ j y, tbl !! j = Some y → (j < i)%nat → sym_addr y ≤ a → sym_addr y < sym_addr x).

Lemma lookup_from_spec tbl a : ∀ pre best dist x, 0 ≤ best →
  (∀ y, y ∈ pre → sym_addr y ≤ a → dist ≤ a - sym_addr y) →
  lookup_from tbl a (Z.of_nat (length pre)) best dist = x →
  (x = (best, dist) ∧ ∀ y, y ∈ pre ++ tbl → sym_addr y ≤ a → dist ≤ a - sym_addr y) ∨
  ∃ i y, x = (Z.of_nat i, a - sym_addr y) ∧ (pre ++ tbl) !! i = Some y ∧ sym_addr y ≤ a ∧ a - sym_addr y < dist ∧
    (∀ j z, (pre ++ tbl) !! j = Some z → sym_addr z ≤ a → sym_addr z ≤ sym_addr y) ∧
    (∀ j z, (pre ++ tbl) !! j = Some z → (j < i)%nat → sym_addr z ≤ a → sym_addr z < sym_addr y).
Proof.
  induction tbl as [|y tbl IH]; intros pre best dist x Hb Hpre E; cbn [lookup_from] in E.
  - left. by rewrite app_nil_r.
  - replace (Z.of_nat (length pre) + 1) with (Z.of_nat (length (pre ++ [y]))) in E by (rewrite length_app; cbn; lia).
    replace (pre ++ y :: tbl) with ((pre ++ [y]) ++ tbl) by (by rewrite <-app_assoc).
    destruct (Z.leb_spec (sym_addr y) a) as [Hle|Hgt]; cbn [andb] in E.
    + destruct (Z.ltb_spec (a - sym_addr y) dist) as [Hlt|Hge].
      * right. apply IH in E; [|lia|].
        2: { intros z [Hz|Hz%list_elem_of_singleton]%elem_of_app Hza; [|subst; lia]. specialize (Hpre z Hz Hza). lia. }
        destruct E as [[-> Hall]|(i & z & -> & Hi & Hz & Hd & H1 & H2)].
        -- exists (length pre), y. split_and!; [done|by rewrite <-app_assoc, lookup_app_r, Nat.sub_diag by lia|done|done|..].
           ++ intros j z Hj Hz. apply list_elem_of_lookup_2 in Hj. specialize (Hall z Hj Hz). lia.
           ++ intros j z Hj Hlt' Hz. rewrite <-app_assoc, lookup_app_l in Hj by done. apply list_elem_of_lookup_2 in Hj.
              specialize (Hpre z Hj Hz). lia.
        -- exists i, z. split_and!; [done..|lia|done|done].
      * apply IH in E; [done|done|]. intros z [Hz|Hz%list_elem_of_singleton]%elem_of_app Hza; [by apply Hpre|subst; lia].
    + apply IH in E; [done|done|]. intros z [Hz|Hz%list_elem_of_singleton]%elem_of_app Hza; [by apply Hpre|subst; lia].
Qed.

(** [sym_lookup] gives the name of the nearest symbol at or below an address
    and the distance to it, if there is such a symbol at less than 2^64 - 1. *)
Theorem sym_lookup_correct tbl a : Forall (λ x, 0 ≤ sym_addr x) tbl → a < 2 ^ 64 - 1 →
  (∃ x, x ∈ tbl ∧ sym_addr x ≤ a) →
  ∃ x, nearest tbl a x ∧ sym_lookup tbl a = Some (sym_name x, a - sym_addr x).
Proof.
  intros Hp Ha (x & Hx & Hxa). destruct (lookup_from_spec tbl a [] 0 (2 ^ 64 - 1) _ ltac:(lia) ltac:(by intros ? ?%elem_of_nil) eq_refl) as
    [[_ Hall]|(i & y & E & Hi & Hy & _ & H1 & H2)].
  - specialize (Hall x Hx Hxa). rewrite list.Forall_forall in Hp. specialize (Hp x Hx). lia.
  - exists y. split; [by exists i|]. unfold sym_lookup. cbn [length] in E. change (Z.of_nat 0) with 0 in E.
    destruct tbl; [by apply elem_of_nil in Hx|]. rewrite E, Nat2Z.id. cbn [app] in Hi. by rewrite Hi.
Qed.

Lemma sym_lookup_correct_witness :
  let tbl := [mkSym 16 [97]; mkSym 4 [98]; mkSym 32 [99]; mkSym 16 [100]] in
  ∃ x, nearest tbl 20 x ∧ sym_lookup tbl 20 = Some (sym_name x, 20 - sym_addr x).
Proof.
  intros tbl. apply (sym_lookup_correct tbl 20); [by repeat constructor|done|].
  exists (mkSym 16 [97]). split; [by constructor|done].
Defined.

(** Below every symbol the first one of the table is named, at an offset of
    2^64 - 1. *)
Example sym_lookup_below : sym_lookup [mkSym 16 [97]; mkSym 32 [98]] 5 = Some ([97], 2 ^ 64 - 1).
Proof. vm_compute. reflexivity. Qed.

(** Looking a name up by address and back. *)
Lemma sym_get_addr_eq tbl x : NoDup (sym_name <$> tbl) → x ∈ tbl → sym_get_addr tbl (sym_name x) = sym_addr x.
Proof.
  intros Hn Hx. unfold sym_get_addr. destruct (list_find _ tbl) as [[i y]|] eqn:E.
  - apply list_find_Some in E as (Hi & En & _). apply list_elem_of_lookup_1 in Hx as [j Hj].
    assert (i = j) as ->; [|congruence].
    eapply (NoDup_lookup (sym_name <$> tbl) i j (sym_name x)); [done|..]; rewrite list_lookup_fmap; [rewrite Hi|rewrite Hj]; cbn; congruence.
  - apply list_find_None in E. rewrite list.Forall_forall in E. by destruct (E x Hx).
Qed.

(** ** [/proc/kallsyms] *)

Definition name_ok (x : sym_t) : Prop := 0 ≤ sym_addr x < 2 ^ 64 ∧ (length (sym_name x) ≤ 235)%nat.

Lemma kallsyms_line_length x : 0 ≤ sym_addr x < 2 ^ 64 → length (kallsyms_line x) = (20 + length (sym_name x))%nat.
Proof. intros Ha. unfold kallsyms_line. rewrite !length_app, hex16_length by done. cbn. lia. Qed.

(** The text of the format. *)
Lemma line_out x : 0 ≤ sym_addr x < 2 ^ 64 →
  vprintf_out line_fmt [AInt (sym_addr x); AStr (Some (sym_name x))] = Some (kallsyms_line x).
Proof.
  intros Ha. set (fl := mkFlags false false false false true).
  pose proof (conv_num_eq fl 16 (-1) 3 120 (sym_addr x) [32; 84; 32; 37; 115; 10; 0] [AStr (Some (sym_name x))] 0 []) as Hn.
  assert (num_val 120 3 (sym_addr x) = (sym_addr x, false)) as Ev.
  { change (num_val 120 3 (sym_addr x)) with (u64 (sym_addr x), false). by rewrite wrap_small. }
  rewrite Ev in Hn. cbn [fst snd] in Hn.
  specialize (Hn ltac:(split_and!; (done || (intros _; right; done))) ltac:(done)).
  assert (std_number fl 16 (-1) 120 (sym_addr x) false = hex16 (sym_addr x)) as E16.
  { pose proof (digits16_length _ Ha) as Hd. unfold std_number, hex16. change (num_base 120) with 16.
    change (-1 =? 0) with false. rewrite andb_false_r. change (120 =? 88) with false.
    revert Hd. generalize (digits (sym_addr x) 16). intros ds Hd.
    replace (Z.to_nat (-1 - _)) with 0%nat by lia. cbn. rewrite length_fmap. do 2 f_equal. lia. }
  cbn zeta in Hn. rewrite E16 in Hn.
  pose proof (conv_str_eq (mkFlags false false false false false) 0 (-1) (Some (sym_name x)) [10; 0] []
    (0 + Z.of_nat (length (hex16 (sym_addr x))) + 3) (hex16 (sym_addr x) ++ [32; 84; 32])) as Hs.
  cbn zeta in Hs. cbn [default from_option id] in Hs. replace (std_string _ 0 (-1) (sym_name x)) with (sym_name x) in Hs
    by (unfold std_string; cbn [left_justify Z.leb Z.compare]; by replace (Z.to_nat (0 - _)) with 0%nat by lia).
  unfold vprintf_out, base_vprintf. change (length line_fmt) with 12%nat. unfold line_fmt. cbn [app].
  rewrite (loop_directive 11 [48; 49; 54; 108; 120; 32; 84; 32; 37; 115; 10; 0] _ 0 [] _ Hn). rewrite !loop_char by done. cbn [app].
  rewrite <-!app_assoc. cbn [app].
  replace (_ + 1 + 1 + 1) with (0 + Z.of_nat (length (hex16 (sym_addr x))) + 3) by lia.
  rewrite (loop_directive 7 [115; 10; 0] _ _ (hex16 (sym_addr x) ++ [32; 84; 32]) _ Hs). rewrite !loop_char by done.
  cbn. unfold kallsyms_line. by rewrite <-!app_assoc.
Qed.

(** What the buffer holds of a line. *)
Lemma line_snprintf junk x : length junk = 256%nat → name_ok x →
  ∃ rest, vsnprintf junk 256 line_fmt [AInt (sym_addr x); AStr (Some (sym_name x))] =
    Some (Z.of_nat (length (kallsyms_line x)), kallsyms_line x ++ rest).
Proof.
  intros Hj [Ha Hn]. pose proof (kallsyms_line_length x Ha) as Hl. rewrite vsnprintf_eq by lia. rewrite line_out by done.
  cbn [mbind option_bind]. rewrite take_ge by lia. rewrite sint_small by lia. eauto.
Qed.

Lemma dump_from_eq junk tbl : length junk = 256%nat → Forall name_ok tbl → ∀ size offset current out,
  0 ≤ current → 0 ≤ offset → Z.of_nat (length out) < size →
  (current < offset → out = []) →
  dump_from junk tbl size offset current out =
  Some (take (Z.to_nat size) (out ++ drop (Z.to_nat (offset - current)) (kallsyms tbl))).
Proof.
  intros Hj Ht. induction Ht as [|x tbl Hx _ IH]; intros size offset current out Hc Ho Hs Hout; cbn [dump_from].
  { unfold kallsyms. cbn. rewrite drop_nil, app_nil_r, take_ge by lia. done. }
  destruct (line_snprintf junk x Hj Hx) as [rest ->]. cbn [mbind option_bind].
  unfold kallsyms. rewrite fmap_cons, mjoin_cons. fold (kallsyms tbl).
  assert (1 ≤ length (kallsyms_line x))%nat as H1 by (rewrite kallsyms_line_length by apply Hx; lia).
  set (line := kallsyms_line x) in *. clearbody line. set (text := kallsyms tbl) in *. clearbody text.
  rewrite (proj2 (Z.leb_gt _ 0)) by lia. destruct (Z.ltb_spec offset (current + Z.of_nat (length line))) as [Hlt|Hge].
  2: { rewrite IH by (lia || (intros _; apply Hout; lia)). do 3 f_equal.
    rewrite drop_app_ge by lia. f_equal. lia. }
  set (line_off := if current <? offset then offset - current else 0).
  assert (0 ≤ line_off < Z.of_nat (length line) ∧ Z.to_nat (offset - current) = Z.to_nat line_off) as [Hlo ->].
  { unfold line_off. destruct (Z.ltb_spec current offset); lia. }
  clearbody line_off. rewrite !drop_app_le by lia.
  set (part := drop (Z.to_nat line_off) line). assert (Z.of_nat (length part) = Z.of_nat (length line) - line_off) as Hp
    by (unfold part; rewrite length_drop; lia).
  set (to_copy := if size <? _ then size - _ else _).
  assert (0 ≤ to_copy ≤ Z.of_nat (length part) ∧
    (to_copy = Z.of_nat (length part) ∧ Z.of_nat (length out) + to_copy ≤ size ∨ Z.of_nat (length out) + to_copy = size)) as [Htc Hcase].
  { unfold to_copy. destruct (Z.ltb_spec size (Z.of_nat (length out) + (Z.of_nat (length line) - line_off))); lia. }
  clearbody to_copy. rewrite decide_True by (rewrite length_app; lia).
  rewrite (take_app_le part rest) by lia.
  rewrite length_app, length_take_le by lia. destruct (Z.leb_spec size (Z.of_nat (length out + Z.to_nat to_copy))) as [Hfull|Hmore].
  - f_equal. rewrite take_app, (take_ge out) by lia. f_equal. rewrite take_app_le by lia. f_equal. lia.
  - destruct Hcase as [[-> _]|]; [|lia]. rewrite take_ge by lia. rewrite IH; [|lia|lia|rewrite length_app; lia|lia].
    replace (Z.to_nat (offset - _)) with 0%nat by lia. by rewrite drop_0, <-app_assoc.
Qed.

(** C40: [kallsyms_dump_range] stores exactly the [size] bytes from [offset] on of
    the text of all symbols, one line each, and [kallsyms_size_bytes] is the length
    of that text, for names of at most 235 characters. *)
Theorem kallsyms_correct junk tbl size offset : length junk = 256%nat → Forall name_ok tbl → 0 ≤ size → 0 ≤ offset →
  kallsyms_dump_range junk tbl size offset = Some (take (Z.to_nat size) (drop (Z.to_nat offset) (kallsyms tbl))) ∧
  kallsyms_size_bytes tbl = Z.of_nat (length (kallsyms tbl)).
Proof.
  intros Hj Ht Hs Ho. split.
  - unfold kallsyms_dump_range. destruct (Z.eqb_spec size 0) as [->|]; [done|].
    rewrite dump_from_eq by (done || (cbn; lia)). by rewrite Z.sub_0_r.
  - unfold kallsyms_size_bytes. rewrite <-(Z.add_0_l (Z.of_nat _)). generalize 0. induction Ht as [|x tbl [Hx _] _ IH]; intros z.
    + unfold kallsyms. cbn. lia.
    + cbn [foldl]. rewrite IH. unfold kallsyms. rewrite fmap_cons, mjoin_cons, length_app, kallsyms_line_length by done. lia.
Qed.

Lemma kallsyms_correct_witness :
  let tbl := [mkSym 4096 [97; 98]; mkSym (2 ^ 64 - 1) [99]] in
  kallsyms_dump_range (replicate 256 7) tbl 12 17 = Some (take 12 (drop 17 (kallsyms tbl))) ∧
  kallsyms_size_bytes tbl = Z.of_nat (length (kallsyms tbl)).
Proof.
  intros tbl. apply (kallsyms_correct (replicate 256 7) tbl 12 17); [by rewrite length_replicate| |done|done].
  repeat constructor; try done; cbn; lia.
Defined.

(** With a longer name the array is read beyond its end. *)
Example long_name_overread : kallsyms_dump_range (replicate 256 7) [mkSym 4096 (replicate 240 97)] 4096 0 = None.
Proof. vm_compute. reflexivity. Qed.
