(* ===== verification/Cmdline.v ===== *)
(** * The boot command line

    Models [kernel/cmdline.c].  The arguments are pointers into the command line,
    which is cut into strings in place: the state is that buffer and the table of
    pointers, as positions in the buffer. *)

From S2P Require Import Prelude.

(** ** The code *)

Definition MAX_BOOT_ARGS : nat := 64.

Record boot_arg := mkArg { key : nat; value : option nat }.

(** [while (go( *ptr)) ptr++]; [None] is running out of the buffer. *)
Definition scan (go : Z → bool) (buf : list Z) (p : nat) : option nat :=
  '(i, _) ← list_find (λ c, go c = false) (drop p buf); Some (p + i)%nat.

Definition is_blank (c : Z) : bool := c =? 32.
Definition in_key (c : Z) : bool := negb (c =? 0) && negb (c =? 32) && negb (c =? 61).
Definition in_value (c : Z) : bool := negb (c =? 0) && negb (c =? 32).

(** The loop of [parse_cmdline] at [ptr]. *)
Fixpoint parse_loop (fuel : nat) (buf : list Z) (ptr : nat) (args : list boot_arg) : option (list Z * list boot_arg) :=
  c ← buf !! ptr;
  if (c =? 0) || bool_decide (MAX_BOOT_ARGS ≤ length args)%nat then Some (buf, args) else
  match fuel with
  | O => None
  | S fuel =>
      ptr ← scan is_blank buf ptr;
      c ← buf !! ptr;
      if c =? 0 then Some (buf, args) else
      let k := ptr in
      ptr ← scan in_key buf ptr;
      c ← buf !! ptr;
      '(buf, v, ptr) ← (if c =? 61 then
                          let buf := <[ptr := 0]> buf in
                          let ptr := S ptr in
                          let v := ptr in
                          ptr ← scan in_value buf ptr;
                          Some (buf, Some v, ptr)
                        else Some (buf, None, ptr));
      c ← buf !! ptr;
      let '(buf, ptr) := if c =? 32 then (<[ptr := 0]> buf, S ptr) else (buf, ptr) in
      parse_loop fuel buf ptr (args ++ [mkArg k v])
  end.

Definition parse_cmdline (buf : list Z) (args : list boot_arg) : option (list Z * list boot_arg) :=
  c ← buf !! 0%nat;
  if c =? 0 then Some (buf, args) else parse_loop (length buf) buf 0 args.

(** The string at a position. *)
Definition cstr (buf : list Z) (p : nat) : option (list Z) :=
  '(i, _) ← list_find (λ c, c = 0) (drop p buf); Some (take i (drop p buf)).

(** The first argument with a key; [None] is a pointer to no string. *)
Fixpoint find_arg (buf : list Z) (args : list boot_arg) (name : list Z) : option (option boot_arg) :=
  match args with
  | [] => Some None
  | a :: args => s ← cstr buf (key a); if bool_decide (s = name) then Some (Some a) else find_arg buf args name
  end.

Definition boot_get_flag (buf : list Z) (args : list boot_arg) (name : list Z) : option bool :=
  r ← find_arg buf args name; Some (bool_decide (is_Some r)).

Definition boot_get_value (buf : list Z) (args : list boot_arg) (name : list Z) : option (option nat) :=
  r ← find_arg buf args name; Some (r ≫= value).

(** ** The reference: words, and the parts of a word around the first [=] *)

Fixpoint split_blank (s : list Z) : list (list Z) :=
  match s with
  | [] => [[]]
  | c :: r => if c =? 32 then [] :: split_blank r
              else match split_blank r with w :: ws => (c :: w) :: ws | [] => [[c]] end
  end.
Definition words (s : list Z) : list (list Z) := filter (λ w, w ≠ []) (split_blank s).

Fixpoint split_arg (w : list Z) : list Z * option (list Z) :=
  match w with
  | [] => ([], None)
  | c :: r => if c =? 61 then ([], Some r) else let '(k, v) := split_arg r in (c :: k, v)
  end.

Definition boot_args (s : list Z) : list (list Z * option (list Z)) := take MAX_BOOT_ARGS (split_arg <$> words s).
Definition first_arg (l : list (list Z * option (list Z))) (name : list Z) : option (list Z * option (list Z)) :=
  snd <$> list_find (λ a, a.1 = name) l.

(** ** Words *)

Definition plain_char (c : Z) : Prop := c ≠ 0 ∧ c ≠ 32.

Lemma words_blank s : words (32 :: s) = words s.
Proof. done. Qed.

Lemma split_blank_word w s : Forall plain_char w →
  split_blank (w ++ 32 :: s) = w :: split_blank s ∧ split_blank w = [w].
Proof.
  induction 1 as [|c w [_ Hc] _ [IH1 IH2]]; [done|]. cbn. rewrite (proj2 (Z.eqb_neq _ _) Hc). by rewrite IH1, IH2.
Qed.

Lemma words_word w s : Forall plain_char w → w ≠ [] → words (w ++ 32 :: s) = w :: words s ∧ words w = [w].
Proof.
  intros Hw Hne. destruct (split_blank_word w s Hw) as [E1 E2]. unfold words. rewrite E1, E2.
  by rewrite !filter_cons_True.
Qed.

(** A command line is blanks, or blanks, a word, and the rest after a blank. *)
Lemma line_cases s : Forall (λ c, c ≠ 0) s →
  (∃ n, s = replicate n 32 ∧ words s = []) ∨
  ∃ n w, Forall plain_char w ∧ w ≠ [] ∧
    (s = replicate n 32 ++ w ∧ words s = [w] ∨ ∃ r, s = replicate n 32 ++ w ++ 32 :: r ∧ words s = w :: words r).
Proof.
  induction 1 as [|c s Hc Hs IH]; [left; by exists 0%nat|]. destruct (decide (c = 32)) as [->|Hb].
  - rewrite words_blank. destruct IH as [(n & -> & ->)|(n & w & Hw & Hne & IH)]; [left; by exists (S n)|].
    right. exists (S n), w. split_and!; [done..|]. destruct IH as [[-> ->]|(r & -> & ->)]; [by left|right; by exists r].
  - right. exists 0%nat. cbn [replicate app]. assert (∃ w, Forall plain_char w ∧ (s = w ∨ ∃ r, s = w ++ 32 :: r)) as (w & Hw & Es).
    { clear IH Hc Hb. induction Hs as [|d s Hd _ (w & Hw & IH)]; [exists []; split; [constructor|by left]|].
      destruct (decide (d = 32)) as [->|]; [exists []; split; [constructor|right; by exists s]|].
      exists (d :: w). split; [by constructor|]. destruct IH as [->|[r ->]]; [by left|right; by exists r]. }
    exists (c :: w). assert (Forall plain_char (c :: w)) as Hcw by (by constructor). split_and!; [done..|].
    destruct Es as [->|[r ->]]; [left|right; exists r].
    + split; [done|]. by apply (words_word (c :: w) []).
    + split; [done|]. by apply (words_word (c :: w) r).
Qed.

(** A word is a key, or a key, [=] and a value. *)
Lemma word_cases w : Forall plain_char w → ∃ k, Forall (λ c, in_key c = true) k ∧
  (w = k ∧ split_arg w = (k, None) ∨ ∃ v, w = k ++ 61 :: v ∧ split_arg w = (k, Some v) ∧ Forall (λ c, in_value c = true) v).
Proof.
  induction 1 as [|c w [Hc Hb] Hw (k & Hk & IH)]; [exists []; split; [constructor|by left]|].
  destruct (decide (c = 61)) as [->|Hne].
  - exists []. split; [constructor|]. right. exists w. split_and!; [done..|]. eapply list.Forall_impl; [exact Hw|]. intros d [??].
    unfold in_value. by rewrite !(proj2 (Z.eqb_neq _ _)).
  - exists (c :: k). split.
    { constructor; [|done]. unfold in_key. by rewrite !(proj2 (Z.eqb_neq _ _)). }
    cbn [split_arg]. rewrite (proj2 (Z.eqb_neq _ _) Hne). destruct IH as [[-> E]|(v & -> & E & Hv)]; rewrite E; [by left|].
    right. by exists v.
Qed.

(** ** The loop *)

Lemma scan_eq go pre a c post p : p = length pre → Forall (λ c, go c = true) a → go c = false →
  scan go (pre ++ a ++ c :: post) p = Some (length (pre ++ a)).
Proof.
  intros -> Ha Hc. unfold scan. rewrite drop_app_length.
  assert (list_find (λ c, go c = false) (a ++ c :: post) = Some (length a, c)) as ->; [|cbn; by rewrite length_app].
  apply list_find_Some. split_and!; [by rewrite lookup_app_r, Nat.sub_diag by lia|done|].
  intros j y Hj Hlt. rewrite lookup_app_l in Hj by done. rewrite (Forall_lookup_1 _ _ _ _ Ha Hj). done.
Qed.

Lemma lookup_mid pre (c : Z) post p : p = length pre → (pre ++ c :: post) !! p = Some c.
Proof. intros ->. by rewrite lookup_app_r, Nat.sub_diag by lia. Qed.
Lemma insert_mid pre (c d : Z) post p : p = length pre → <[p := d]> (pre ++ c :: post) = pre ++ d :: post.
Proof. intros ->. by rewrite insert_app_r_alt, Nat.sub_diag by lia. Qed.

(** A word with its first [=] replaced by a zero, and where its parts are. *)
Definition cut (w : list Z) : list Z :=
  let '(k, v) := split_arg w in k ++ match v with Some v => 0 :: v | None => [] end.
Definition arg_at (p : nat) (w : list Z) : boot_arg :=
  let '(k, v) := split_arg w in mkArg p ((λ _, p + length k + 1)%nat <$> v).

Lemma key_stop t : t = 32 ∨ t = 0 → in_key t = false ∧ in_value t = false ∧ t ≠ 61.
Proof. by intros [->| ->]. Qed.

Lemma parse_word fuel pre n w t post args : Forall plain_char w → w ≠ [] → t = 32 ∨ t = 0 → (length args < MAX_BOOT_ARGS)%nat →
  let pre' := pre ++ replicate n 32 in
  parse_loop (S fuel) (pre ++ replicate n 32 ++ w ++ t :: post) (length pre) args =
  parse_loop fuel (pre' ++ cut w ++ 0 :: post) (length (pre' ++ w) + (if t =? 32 then 1 else 0))
    (args ++ [arg_at (length pre') w]).
Proof.
  intros Hw Hne Ht Hargs pre'. destruct (key_stop t Ht) as (Hk1 & Hv1 & Ht61).
  destruct w as [|c0 w0]; [done|]. pose proof Hw as [[Hc0 Hb0] _]%Forall_cons_1. set (w := c0 :: w0) in *.
  assert (∃ d rest, (pre ++ replicate n 32 ++ w ++ t :: post) = pre ++ d :: rest ∧ d ≠ 0) as (d & rest & Ed & Hd).
  { destruct n as [|n]; [by eexists c0, _|by eexists 32, _]. }
  cbn [parse_loop]. rewrite Ed at 1. rewrite lookup_mid by done. cbn [mbind option_bind].
  rewrite (proj2 (Z.eqb_neq _ _) Hd), bool_decide_eq_false_2 by lia. cbn [orb].
  rewrite (scan_eq is_blank pre (replicate n 32) c0 (w0 ++ t :: post)); [|done|by apply Forall_replicate|by apply Z.eqb_neq].
  fold pre'. cbn [mbind option_bind]. rewrite app_assoc. fold pre'. 
  rewrite (lookup_mid pre' c0 (w0 ++ t :: post) _ eq_refl : (pre' ++ w ++ t :: post) !! length pre' = Some c0).
  cbn [mbind option_bind]. rewrite (proj2 (Z.eqb_neq _ _) Hc0). clear Ed Hd.
  destruct (word_cases w Hw) as (k & Hk & [[Ewk Es]|(v & Ewv & Es & Hv)]); unfold cut, arg_at; rewrite Es; cbn [fmap option_fmap option_map].
  - rewrite Ewk, app_nil_r. rewrite (scan_eq in_key pre' k t post) by done. cbn [mbind option_bind].
    rewrite app_assoc, lookup_mid by done. cbn [mbind option_bind]. rewrite (proj2 (Z.eqb_neq _ _) Ht61).
    cbn [mbind option_bind]. rewrite lookup_mid by done. cbn [mbind option_bind].
    destruct Ht as [->| ->]; cbn [Z.eqb Pos.eqb]; [rewrite insert_mid by done|]; rewrite <-app_assoc; f_equal; lia.
  - rewrite Ewv. change (61 :: v) with ([61] ++ v). rewrite <-!app_assoc. cbn [app].
    rewrite (scan_eq in_key pre' k 61 (v ++ t :: post)) by done. cbn [mbind option_bind].
    rewrite (app_assoc pre' k), lookup_mid by done. cbn [mbind option_bind Z.eqb Pos.eqb]. rewrite insert_mid by done.
    replace ((pre' ++ k) ++ 0 :: v ++ t :: post) with (((pre' ++ k) ++ [0]) ++ v ++ t :: post) by (by rewrite <-!app_assoc).
    rewrite (scan_eq in_value ((pre' ++ k) ++ [0]) v t post) by (done || (rewrite (length_app _ [0]); cbn; lia)).
    cbn [mbind option_bind]. rewrite (app_assoc _ v), lookup_mid by done. cbn [mbind option_bind].
    destruct Ht as [->| ->]; cbn [Z.eqb Pos.eqb]; [rewrite insert_mid by done|]; rewrite !length_app; cbn [length];
      rewrite <-!app_assoc; cbn [app]; f_equal; try lia; repeat f_equal; lia.
Qed.

(** The string [s] is at [p], with its final zero. *)
Definition str_at (buf : list Z) (p : nat) (s : list Z) : Prop :=
  ∃ a b, buf = a ++ s ++ 0 :: b ∧ length a = p ∧ Forall (λ c, c ≠ 0) s.
Definition arg_reads (buf : list Z) (a : boot_arg) (kv : list Z * option (list Z)) : Prop :=
  str_at buf (key a) kv.1 ∧
  match value a, kv.2 with Some p, Some v => str_at buf p v | None, None => True | _, _ => False end.

Lemma cstr_at buf p s : str_at buf p s → cstr buf p = Some s.
Proof.
  intros (a & b & -> & <- & Hs). unfold cstr. rewrite drop_app_length.
  assert (list_find (λ c, c = 0) (s ++ 0 :: b) = Some (length s, 0)) as ->; [|cbn; by rewrite take_app_length].
  apply list_find_Some. split_and!; [by rewrite lookup_app_r, Nat.sub_diag by lia|done|].
  intros j y Hj Hlt. rewrite lookup_app_l in Hj by done. by apply (Forall_lookup_1 _ _ _ _ Hs Hj).
Qed.

Lemma no_zero go l : (∀ c, go c = true → c ≠ 0) → Forall (λ c, go c = true) l → Forall (λ c, c ≠ 0) l.
Proof. intros Hgo Hl. eapply list.Forall_impl; [exact Hl|]. apply Hgo. Qed.

Lemma arg_at_reads pre w post : Forall plain_char w →
  arg_reads (pre ++ cut w ++ 0 :: post) (arg_at (length pre) w) (split_arg w).
Proof.
  assert (∀ c, in_key c = true → c ≠ 0) as Hkey by (intros c Hc ->; discriminate).
  assert (∀ c, in_value c = true → c ≠ 0) as Hval by (intros c Hc ->; discriminate).
  intros Hw. destruct (word_cases w Hw) as (k & Hk & [[_ Es]|(v & _ & Es & Hv)]); unfold cut, arg_at; rewrite Es; split; cbn.
  - exists pre, post. rewrite app_nil_r. split_and!; [done..|]. by apply (no_zero in_key).
  - done.
  - exists pre, (v ++ 0 :: post). rewrite <-!app_assoc. split_and!; [done..|]. by apply (no_zero in_key).
  - exists (pre ++ k ++ [0]), post. rewrite <-!app_assoc. split_and!; [done|rewrite !length_app; cbn; lia|]. by apply (no_zero in_value).
Qed.

Lemma cut_length w : Forall plain_char w → length (cut w) = length w.
Proof.
  intros Hw. destruct (word_cases w Hw) as (k & _ & [[-> Es]|(v & -> & Es & _)]); unfold cut; rewrite Es; [by rewrite app_nil_r|].
  by rewrite !length_app.
Qed.

Lemma parse_loop_eq fuel : ∀ s pre args, Forall (λ c, c ≠ 0) s → (length s ≤ fuel)%nat → ∃ tail new,
  parse_loop fuel (pre ++ s ++ [0]) (length pre) args = Some (pre ++ tail, args ++ new) ∧
  Forall2 (arg_reads (pre ++ tail)) new (take (MAX_BOOT_ARGS - length args) (split_arg <$> words s)).
Proof.
  induction fuel as [|fuel IH]; intros s pre args Hs Hl.
  { destruct s; [|cbn in Hl; lia]. exists [0], []. rewrite app_nil_r. cbn [parse_loop app].
    rewrite lookup_mid by done. split; [done|].
    change (split_arg <$> words []) with (@nil (list Z * option (list Z))). rewrite take_nil. constructor. }
  destruct (decide (MAX_BOOT_ARGS ≤ length args)%nat) as [Hfull|Hargs].
  { exists (s ++ [0]), []. replace (MAX_BOOT_ARGS - length args)%nat with 0%nat by lia. rewrite app_nil_r, take_0. split; [|constructor].
    assert (∃ c, (pre ++ s ++ [0]) !! length pre = Some c) as [c Hc] by (destruct s; cbn; rewrite lookup_mid by done; eauto).
    cbn [parse_loop]. rewrite Hc. cbn [mbind option_bind]. by rewrite (bool_decide_eq_true_2 _ Hfull), orb_true_r. }
  destruct (line_cases s Hs) as [(n & -> & ->)|(n & w & Hw & Hne & Hcase)].
  - exists (replicate n 32 ++ [0]), []. rewrite app_nil_r, fmap_nil, take_nil. split; [|constructor]. cbn [parse_loop].
    destruct n as [|n]; [cbn; rewrite lookup_mid by done; done|]. 
    rewrite (scan_eq is_blank pre (replicate (S n) 32) 0 []); [|done|by apply Forall_replicate|done].
    cbn [replicate app]. rewrite (lookup_mid pre 32) by done. cbn [mbind option_bind Z.eqb Pos.eqb]. rewrite bool_decide_eq_false_2 by done.
    cbn [orb]. change (pre ++ 32 :: replicate n 32 ++ [0]) with (pre ++ (32 :: replicate n 32) ++ [0]).
    rewrite app_assoc, lookup_mid by done. done.
  - destruct (MAX_BOOT_ARGS - length args)%nat as [|m] eqn:Em; [lia|].
    assert (m = MAX_BOOT_ARGS - (length args + 1))%nat as -> by lia. set (pre' := pre ++ replicate n 32).
    pose proof (arg_at_reads pre' w) as Hreads.
    destruct Hcase as [[-> ->]|(r & -> & ->)]; rewrite <-!app_assoc; rewrite ?fmap_cons, firstn_cons.
    + rewrite parse_word by (done || lia || auto). fold pre'. cbn [Z.eqb].
      exists (replicate n 32 ++ cut w ++ [0]), [arg_at (length pre') w]. rewrite (app_assoc pre). fold pre'. split.
      * pose proof (cut_length w Hw) as Hcut.
        rewrite Nat.add_0_r, app_assoc. replace (length (pre' ++ w)) with (length (pre' ++ cut w)) by (rewrite !length_app; lia).
        destruct fuel; cbn [parse_loop]; rewrite lookup_mid by done; done.
      * rewrite fmap_nil, take_nil. constructor; [by apply Hreads|constructor].
    + cbn [app]. rewrite parse_word by (done || lia || auto). fold pre'. cbn [Z.eqb Pos.eqb].
      set (pre2 := pre' ++ cut w ++ [0]). destruct (IH r pre2 (args ++ [arg_at (length pre') w])) as (tail & new & E & Hnew).
      { rewrite !Forall_app in Hs. by destruct Hs as (_ & _ & [_ Hr]%Forall_cons_1). }
      { rewrite !length_app in Hl. cbn in Hl. lia. }
      exists (replicate n 32 ++ cut w ++ [0] ++ tail), (arg_at (length pre') w :: new).
      rewrite (app_assoc pre). fold pre'. replace (pre' ++ cut w ++ [0] ++ tail) with (pre2 ++ tail) by (unfold pre2; by rewrite <-!app_assoc).
      split.
      * replace (args ++ arg_at (length pre') w :: new) with ((args ++ [arg_at (length pre') w]) ++ new) by (by rewrite <-app_assoc).
        rewrite <-E. unfold pre2. rewrite <-!app_assoc. f_equal.
        rewrite !length_app, (cut_length w Hw). cbn. lia.
      * rewrite length_app in Hnew. cbn [length] in Hnew. constructor; [|done]. unfold pre2. rewrite <-!app_assoc. by apply Hreads.
Qed.


(** ** Looking arguments up *)

Lemma find_arg_eq buf args l name : Forall2 (arg_reads buf) args l →
  match first_arg l name with
  | Some kv => ∃ a, find_arg buf args name = Some (Some a) ∧ arg_reads buf a kv
  | None => find_arg buf args name = Some None
  end.
Proof.
  unfold first_arg. induction 1 as [|a [k v] args l Ha _ IH]; [done|]. cbn [find_arg list_find].
  pose proof Ha as [Hk%cstr_at _]. rewrite Hk. cbn [fst mbind option_bind]. cbn [fst] in *.
  destruct (decide (k = name)) as [->|Hne].
  - rewrite bool_decide_eq_true_2 by done. cbn. eauto.
  - rewrite bool_decide_eq_false_2 by done. destruct (list_find _ l) as [[i kv]|]; cbn in *; done.
Qed.

(** Parsing a command line cuts it into its words and each word into a key and
    a value; [boot_get_flag] then says if a key is among the first 64 of them and
    [boot_get_value] points to the string of the first value of a key, or is [NULL]
    if the key has none. *)
Theorem cmdline_correct s : Forall (λ c, c ≠ 0) s → ∃ buf args,
  parse_cmdline (s ++ [0]) [] = Some (buf, args) ∧
  ∀ name, boot_get_flag buf args name = Some (bool_decide (is_Some (first_arg (boot_args s) name))) ∧
  ∃ p, boot_get_value buf args name = Some p ∧
    cstr buf <$> p = Some <$> (first_arg (boot_args s) name ≫= snd).
Proof.
  intros Hs. destruct (parse_loop_eq (length (s ++ [0])) s [] [] Hs) as (buf & args & E & Ha); [rewrite length_app; lia|].
  exists buf, args. cbn [app length] in *. rewrite Nat.sub_0_r in Ha. fold (boot_args s) in Ha. split.
  - unfold parse_cmdline. destruct s as [|c s]; [done|]. apply Forall_cons_1 in Hs as [Hc _]. cbn [app lookup list_lookup mbind option_bind].
    by rewrite (proj2 (Z.eqb_neq _ _) Hc).
  - intros name. pose proof (find_arg_eq buf args _ name Ha) as Hf. unfold boot_get_flag, boot_get_value.
    destruct (first_arg (boot_args s) name) as [[k v]|]; [|rewrite Hf; cbn; eauto].
    destruct Hf as (a & -> & _ & Hv). cbn. split; [done|]. exists (value a). split; [done|].
    cbn in Hv. destruct (value a) as [p|], v as [v|]; try done. cbn. f_equal. by apply cstr_at.
Qed.

Lemma cmdline_correct_witness :
  let s := [32; 113; 32; 114; 61; 47; 61; 32; 32; 114; 61] in ∃ buf args,
  parse_cmdline (s ++ [0]) [] = Some (buf, args) ∧
  ∀ name, boot_get_flag buf args name = Some (bool_decide (is_Some (first_arg (boot_args s) name))) ∧
  ∃ p, boot_get_value buf args name = Some p ∧
    cstr buf <$> p = Some <$> (first_arg (boot_args s) name ≫= snd).
Proof. intros s. apply (cmdline_correct s). by repeat constructor. Defined.
