(* ===== verification/Modl.v ===== *)
(** * Kernel modules

    Models [lib/libc/elf/modl.c] and [include/kernel/module.h]: relocatable object
    files are laid out in a heap block, relocated against the kernel's symbols and
    the exports of loaded modules, and started; modules are found, counted and
    unloaded.  The file is a list of bytes; a read beyond it is a fault.  Heap
    blocks (images, strings) are a map from their address to their bytes.  The
    code of the modules themselves is a parameter. *)

From S2P Require Import Prelude Bytes Proc Cstring Printf PrintfSpec Symbols.

Definition SHT_PROGBITS : Z := 1.
Definition SHT_SYMTAB : Z := 2.
Definition SHT_RELA : Z := 4.
Definition SHT_NOBITS : Z := 8.
Definition SHF_ALLOC : Z := 2.
Definition SHN_UNDEF : Z := 0.
Definition SHN_ABS : Z := 0xfff1.
Definition SHN_COMMON : Z := 0xfff2.
Definition R_X86_64_64 : Z := 1.
Definition R_X86_64_PC32 : Z := 2.
Definition R_X86_64_PLT32 : Z := 4.
Definition R_X86_64_32 : Z := 10.
Definition R_X86_64_32S : Z := 11.
Definition MOD_NAME_LEN : nat := 64.
Definition MOD_DESC_LEN : nat := 128.
Definition MOD_AUTHOR_LEN : nat := 64.
Definition MOD_LICENSE_LEN : nat := 32.
Definition MOD_VERSION_LEN : nat := 32.
Definition MAX_MOD_ALIASES : nat := 4.
Definition MAX_MOD_DEPS : nat := 4.
Definition MAX_MOD_PARAMS : nat := 8.
Definition MAX_EXPORTED_SYMS : nat := 64.
Definition MAX_MODULES : Z := 16.

(** ** The file *)

Definition file_val (img : list Z) (off n : Z) : option Z :=
  if decide (0 ≤ off ∧ off + n ≤ Z.of_nat (length img))
  then Some (le_val (take (Z.to_nat n) (drop (Z.to_nat off) img))) else None.
Definition file_byte (img : list Z) (off : Z) : option Z :=
  if off <? 0 then None else img !! Z.to_nat off.
Definition file_bytes (img : list Z) (off n : Z) : option (list Z) :=
  if decide (0 ≤ off ∧ 0 ≤ n ∧ off + n ≤ Z.of_nat (length img))
  then Some (take (Z.to_nat n) (drop (Z.to_nat off) img)) else None.

(** The string at [off], and [strcmp(.., l) == 0] there. *)
Definition file_str (img : list Z) (off : Z) : option (list Z) :=
  if off <? 0 then None else
  '(i, _) ← list_find (λ c, c = 0) (drop (Z.to_nat off) img); Some (take i (drop (Z.to_nat off) img)).
Fixpoint file_streq (img : list Z) (off : Z) (l : list Z) : option bool :=
  d ← file_byte img off;
  match l with
  | [] => Some (d =? 0)
  | c :: l => if d =? c then file_streq img (off + 1) l else Some false
  end.

Definition e_shoff (img : list Z) : option Z := file_val img 40 8.
Definition e_shnum (img : list Z) : option Z := file_val img 60 2.
Definition e_shstrndx (img : list Z) : option Z := file_val img 62 2.

Record shdr := mkShdr {
  sh_name : Z; sh_type : Z; sh_flags : Z; sh_offset : Z; sh_size : Z; sh_link : Z; sh_info : Z; sh_addralign : Z }.
Definition shdr_at (img : list Z) (sh : Z) : option shdr :=
  name ← file_val img sh 4; type ← file_val img (sh + 4) 4; flags ← file_val img (sh + 8) 8;
  offset ← file_val img (sh + 24) 8; size ← file_val img (sh + 32) 8; link ← file_val img (sh + 40) 4;
  info ← file_val img (sh + 44) 4; align ← file_val img (sh + 48) 8;
  Some (mkShdr name type flags offset size link info align).
(** The section headers of the file. *)
Definition shdrs (img : list Z) : option (list shdr) :=
  shoff ← e_shoff img; n ← e_shnum img;
  mapM (λ i, shdr_at img (shoff + i * 64)) (seqZ 0 n).

Record sym := mkElfSym { st_name : Z; st_shndx : Z; st_value : Z }.
Definition sym_at (img : list Z) (o : Z) : option sym :=
  name ← file_val img o 4; shndx ← file_val img (o + 6) 2; value ← file_val img (o + 8) 8;
  Some (mkElfSym name shndx value).

Record rela := mkRela { r_offset : Z; r_info : Z; r_addend : Z }.
Definition rela_at (img : list Z) (o : Z) : option rela :=
  offset ← file_val img o 8; info ← file_val img (o + 8) 8; addend ← file_val img (o + 16) 8;
  Some (mkRela offset info addend).
Definition ELF64_R_SYM (i : Z) : Z := Z.shiftr i 32.
Definition ELF64_R_TYPE (i : Z) : Z := Z.land i 0xffffffff.

Definition elf_mag : list Z := [127; 69; 76; 70].
Definition elf_validate_reloc (img : list Z) : option Z :=
  m ← file_bytes img 0 4;
  if negb (bool_decide (m = elf_mag)) then Some (-1) else
  class ← file_byte img 4;
  if negb (class =? 2) then Some (-1) else
  data ← file_byte img 5;
  if negb (data =? 1) then Some (-1) else
  machine ← file_val img 18 2;
  if negb (machine =? 62) then Some (-1) else
  type ← file_val img 16 2;
  Some (if negb (type =? 1) then -1 else 0).

(** ** The layout: the index and offset of each allocated section, and the size *)

Definition alloc_section (sh : shdr) : bool := nz (Z.land (sh_flags sh) SHF_ALLOC).
Definition align_up (total align : Z) : Z := Z.land (u64 (total + align - 1)) (u64 (Z.lnot (align - 1))).

Fixpoint section_layout (shs : list shdr) (i total : Z) : list (Z * Z) * Z :=
  match shs with
  | [] => ([], total)
  | sh :: shs =>
      if alloc_section sh then
        let align := if sh_addralign sh <? 1 then 1 else sh_addralign sh in
        let total := align_up total align in
        let '(l, t) := section_layout shs (i + 1) (u64 (total + sh_size sh)) in
        ((i, total) :: l, t)
      else section_layout shs (i + 1) total
  end.

(** The offset of section [i]: [0] if it is not allocated. *)
Definition sec_off (secs : list (Z * Z)) (i : Z) : Z :=
  match list_find (λ e, e.1 = i) secs with Some (_, (_, off)) => off | None => 0 end.

(** ** Modules *)

Inductive mod_state := MOD_STATE_LOADING | MOD_STATE_LIVE | MOD_STATE_GOING | MOD_STATE_UNLOADED.
#[global] Instance mod_state_eq : EqDecision mod_state.
Proof. solve_decision. Defined.

Record ksym_export := mkExport { ex_addr : Z; ex_name : Z }.
(** [name[32]] as a string. *)
Record mod_param := mkParam { pm_name : list Z; pm_type : Z; pm_addr : Z }.

(** Strings in arrays are lists without the final zero, those on the heap
    addresses; [symtab] and [strtab] are offsets in the file. *)
Record module := mkModule {
  m_name : list Z; m_desc : list Z; m_author : list Z; m_license : list Z; m_version : list Z;
  m_base : Z; m_size : Z; m_state : mod_state; refcount : Z;
  init_fn : Z; exit_fn : Z; init_ret : Z;
  exports : list ksym_export; params : list mod_param; depends : list Z; aliases : list Z;
  symtab : option Z; strtab : option Z; sym_count : Z }.
#[global] Instance module_eta : Etable module := λ m,
  mkModule (m_name m) (m_desc m) (m_author m) (m_license m) (m_version m) (m_base m) (m_size m) (m_state m)
    (refcount m) (init_fn m) (exit_fn m) (init_ret m) (exports m) (params m) (depends m) (aliases m)
    (symtab m) (strtab m) (sym_count m).
(** [memset(mod, 0, sizeof *mod)] *)
Definition zero_module : module :=
  mkModule [] [] [] [] [] 0 0 MOD_STATE_LOADING 0 0 0 0 [] [] [] [] None None 0.

Section State.
Context `{!KEnv}.
Record modst := mkModst {
  modules : list module; mod_count : Z; blocks : gmap Z (list Z); menv : kenv; msyms : symst }.
#[global] Instance modst_eta : Etable modst := λ s,
  mkModst (modules s) (mod_count s) (blocks s) (menv s) (msyms s).
End State.

(** The code of modules: [init_fn] and [exit_fn] called at their address; and the
    symbol section of the kernel. *)
Class ModCode `{!KEnv} := {
  call_init : Z → M modst Z;
  call_exit : Z → M modst unit;
  ksyms_section : list Z }.

Section Code.
Context `{!KEnv} `{!ModCode}.

(** ** The heap and the module table *)

Definition block_at (bl : gmap Z (list Z)) (p : Z) : option (Z * list Z) :=
  head (filter (λ e, e.1 ≤ p < e.1 + Z.of_nat (length e.2)) (map_to_list bl)).

(** A block with the given bytes. *)
Definition m_alloc (l : list Z) : M modst Z := λ s,
  let '(p, e) := kmalloc (Z.of_nat (length l)) (menv s) in
  Done p (s <| menv := e |> <| blocks := if p =? 0 then blocks s else <[p := l]> (blocks s) |>).
Definition m_free (p : Z) : M modst unit :=
  modify (λ s, s <| menv := kfree p (menv s) |> <| blocks := delete p (blocks s) |>).

Definition load_str (p : Z) : M modst (list Z) :=
  bl ← gets blocks;
  from_opt ('(b, l) ← block_at bl p; file_str l (p - b)).
Definition load_val (p n : Z) : M modst Z :=
  bl ← gets blocks;
  from_opt ('(b, l) ← block_at bl p; file_val l (p - b) n).
Definition store_at (p : Z) (x : list Z) : M modst unit :=
  bl ← gets blocks;
  '(b, l) ← from_opt (block_at bl p);
  if decide (p - b + Z.of_nat (length x) ≤ Z.of_nat (length l))
  then modify (λ s, s <| blocks := <[b := splice l (Z.to_nat (p - b)) x]> (blocks s) |>) else fault.

Definition mod_at (i : Z) : M modst module :=
  ms ← gets modules; if i <? 0 then fault else from_opt (ms !! Z.to_nat i).
Definition mod_upd (i : Z) (f : module → module) : M modst unit :=
  m ← mod_at i;
  modify (λ s, s <| modules := <[Z.to_nat i := f m]> (modules s) |>).

Definition mod_get (i : Z) : M modst unit := mod_upd i (λ m, m <| refcount := i32 (refcount m + 1) |>).
Definition mod_put (i : Z) : M modst unit := mod_upd i (λ m, m <| refcount := i32 (refcount m - 1) |>).

Definition mod_find (name : list Z) : M modst (option Z) :=
  n ← gets mod_count;
  for_up (Z.to_nat n) 0 (λ i,
    m ← mod_at i;
    mret (if bool_decide (m_state m ≠ MOD_STATE_UNLOADED) && (strcmp (m_name m) name =? 0) then Some i else None)).

Fixpoint has_alias (l : list Z) (alias : list Z) : M modst bool :=
  match l with
  | [] => mret false
  | p :: l => a ← load_str p; if strcmp a alias =? 0 then mret true else has_alias l alias
  end.
Definition mod_find_by_alias (alias : list Z) : M modst (option Z) :=
  n ← gets mod_count;
  for_up (Z.to_nat n) 0 (λ i,
    m ← mod_at i;
    if bool_decide (m_state m ≠ MOD_STATE_LIVE) then mret None else
    b ← has_alias (aliases m) alias;
    mret (if b : bool then Some i else None)).

(** ** Symbols *)

Fixpoint find_export (l : list ksym_export) (name : list Z) : M modst (option Z) :=
  match l with
  | [] => mret None
  | x :: l => n ← load_str (ex_name x); if strcmp n name =? 0 then mret (Some (ex_addr x)) else find_export l name
  end.

Definition mod_resolve_symbol (name : list Z) (requester : Z) : M modst Z :=
  tbl ← gets (sym_table ∘ msyms);
  let kaddr := sym_get_addr tbl name in
  if nz kaddr then mret kaddr else
  n ← gets mod_count;
  r ← for_up (Z.to_nat n) 0 (λ i,
    m ← mod_at i;
    if bool_decide (m_state m ≠ MOD_STATE_LIVE) || (i =? requester) then mret None else
    a ← find_export (exports m) name;
    match a with Some addr => mod_get i ;; mret (Some addr) | None => mret None end);
  mret (default 0 r).

(** ** Relocations *)

Definition apply_rela (base : Z) (x : rela) (symval sec_offset : Z) : M modst Z :=
  let where_ := u64 (base + sec_offset + r_offset x) in
  let S := symval in let A := r_addend x in let P := where_ in
  let type := ELF64_R_TYPE (r_info x) in
  if type =? R_X86_64_64 then store_at where_ (le_bytes 8 (u64 (S + A))) ;; mret 0
  else if (type =? R_X86_64_PC32) || (type =? R_X86_64_PLT32) then store_at where_ (le_bytes 4 (u32 (S + A - P))) ;; mret 0
  else if type =? R_X86_64_32 then store_at where_ (le_bytes 4 (u32 (S + A))) ;; mret 0
  else if type =? R_X86_64_32S then store_at where_ (le_bytes 4 (u32 (S + A))) ;; mret 0
  else mret (-1).

(** The value of a symbol, [None] if it is refused. *)
Definition sym_value (k base : Z) (img : list Z) (nsec : Z) (secs : list (Z * Z)) (strtab : Z) (y : sym) :
    M modst (option Z) :=
  if st_shndx y =? SHN_UNDEF then
    name ← from_opt (file_str img (strtab + st_name y));
    v ← mod_resolve_symbol name k;
    mret (if nz v then Some v else None)
  else if st_shndx y =? SHN_ABS then mret (Some (st_value y))
  else if st_shndx y =? SHN_COMMON then mret None
  else if st_shndx y <? nsec then mret (Some (u64 (base + sec_off secs (st_shndx y) + st_value y)))
  else mret None.

(** The [n] relocations at [o] of the file. *)
Definition relocate_section (k base : Z) (img : list Z) (nsec : Z) (secs : list (Z * Z))
    (symtab strtab o target_off : Z) (n : nat) : M modst (option Z) :=
  for_up n 0 (λ r,
    x ← from_opt (rela_at img (o + r * 24));
    y ← from_opt (sym_at img (symtab + ELF64_R_SYM (r_info x) * 24));
    v ← sym_value k base img nsec secs strtab y;
    match v with
    | None => mret (Some (-1))
    | Some symval =>
        e ← apply_rela base x symval target_off;
        mret (if e <? 0 then Some (-1) else None)
    end).

Definition process_relocations (k base : Z) (img : list Z) (shs : list shdr) (secs : list (Z * Z)) : M modst Z :=
  let nsec := Z.of_nat (length shs) in
  r ← for_up (length shs) 0 (λ i,
    sh ← from_opt (shs !! Z.to_nat i);
    if negb (sh_type sh =? SHT_RELA) then mret None else
    let target := u16 (sh_info sh) in
    if nsec <=? target then mret None else
    tsh ← from_opt (shs !! Z.to_nat target);
    if negb (alloc_section tsh) then mret None else
    let symtab_idx := u16 (sh_link sh) in
    if nsec <=? symtab_idx then mret None else
    symtab_hdr ← from_opt (shs !! Z.to_nat symtab_idx);
    strsh ← from_opt (shs !! Z.to_nat (sh_link symtab_hdr));
    relocate_section k base img nsec secs (sh_offset symtab_hdr) (sh_offset strsh) (sh_offset sh)
      (sec_off secs target) (Z.to_nat (sh_size sh `div` 24)));
  mret (default 0 r).

(** ** Tables of the file *)

Definition str_modinfo : list Z := [46; 109; 111; 100; 105; 110; 102; 111].
Definition str_ksymtab : list Z := [95; 95; 107; 115; 121; 109; 116; 97; 98].
Definition str_param : list Z := [95; 95; 112; 97; 114; 97; 109].

(** The first [SHT_PROGBITS] section with a name, and its index. *)
Definition find_section (img : list Z) (shs : list shdr) (l : list Z) : M modst (option (Z * shdr)) :=
  for_up (length shs) 0 (λ i,
    sh ← from_opt (shs !! Z.to_nat i);
    if negb (sh_type sh =? SHT_PROGBITS) then mret None else
    strndx ← from_opt (e_shstrndx img);
    if (strndx =? SHN_UNDEF) || (Z.of_nat (length shs) <=? strndx) then mret None else
    strsh ← from_opt (shs !! Z.to_nat strndx);
    b ← from_opt (file_streq img (sh_offset strsh + sh_name sh) l);
    mret (if b : bool then Some (i, sh) else None)).

(** From [o], the first place before [stop] where [go] fails. *)
Fixpoint file_scan (fuel : nat) (img : list Z) (go : Z → bool) (o stop : Z) : option Z :=
  match fuel with
  | O => None
  | S fuel =>
      if stop <=? o then Some o else
      c ← file_byte img o; if go c then file_scan fuel img go (o + 1) stop else Some o
  end.
(** The same where the byte is read before the bound is compared. *)
Fixpoint read_scan (fuel : nat) (img : list Z) (go : Z → bool) (o stop : Z) : option Z :=
  match fuel with
  | O => None
  | S fuel =>
      c ← file_byte img o; if go c && (o <? stop) then read_scan fuel img go (o + 1) stop else Some o
  end.

(** The loop over the value of [depends]: from [d] to [stop]. *)
Fixpoint parse_depends (fuel : nat) (k : Z) (img : list Z) (d stop : Z) : M modst unit :=
  match fuel with
  | O => fault
  | S fuel =>
      c ← from_opt (file_byte img d);
      m ← mod_at k;
      if (c =? 0) || (stop <=? d) || bool_decide (MAX_MOD_DEPS ≤ length (depends m))%nat then mret tt else
      let len := S (length img) in
      start ← from_opt (read_scan len img (λ c, (c =? 32) || (c =? 44)) d stop);
      d ← from_opt (read_scan len img (λ c, negb (c =? 0) && negb (c =? 44)) start stop);
      let dlen := d - start in
      whenM ((0 <? dlen) && (dlen <? Z.of_nat MOD_NAME_LEN))
        (s ← from_opt (file_bytes img start dlen);
         dep ← m_alloc (s ++ [0]);
         whenM (nz dep) (mod_upd k (λ m, m <| depends := depends m ++ [dep] |>))) ;;
      parse_depends fuel k img d stop
  end.

Definition key_is (key : list Z) (l : list Z) : bool := bool_decide (key = l).

(** One [key=value] of [.modinfo]: the value is [val], at [o] of the file. *)
Definition modinfo_entry (k : Z) (img : list Z) (key val : list Z) (o : Z) : M modst unit :=
  if key_is key [110; 97; 109; 101] then mod_upd k (λ m, m <| m_name := take (MOD_NAME_LEN - 1) val |>)
  else if key_is key [100; 101; 115; 99; 114; 105; 112; 116; 105; 111; 110] then
    mod_upd k (λ m, m <| m_desc := take (MOD_DESC_LEN - 1) val |>)
  else if key_is key [97; 117; 116; 104; 111; 114] then mod_upd k (λ m, m <| m_author := take (MOD_AUTHOR_LEN - 1) val |>)
  else if key_is key [108; 105; 99; 101; 110; 115; 101] then mod_upd k (λ m, m <| m_license := take (MOD_LICENSE_LEN - 1) val |>)
  else if key_is key [118; 101; 114; 115; 105; 111; 110] then mod_upd k (λ m, m <| m_version := take (MOD_VERSION_LEN - 1) val |>)
  else if key_is key [100; 101; 112; 101; 110; 100; 115] then
    parse_depends (S (length img)) k img o (o + Z.of_nat (length val))
  else if key_is key [97; 108; 105; 97; 115] then
    m ← mod_at k;
    whenM (bool_decide (length (aliases m) < MAX_MOD_ALIASES)%nat)
      (alias ← m_alloc (val ++ [0]);
       whenM (nz alias) (mod_upd k (λ m, m <| aliases := aliases m ++ [alias] |>)))
  else mret tt.

(** The lines of [.modinfo] from [p] to [stop]. *)
Fixpoint modinfo_lines (fuel : nat) (k : Z) (img : list Z) (p stop : Z) : M modst unit :=
  if stop <=? p then mret tt else
  match fuel with
  | O => fault
  | S fuel =>
      end_ ← from_opt (file_scan (S (length img)) img (λ c, negb (c =? 0)) p stop);
      line ← from_opt (file_bytes img p (end_ - p));
      match list_find (λ c, c = 61) line with
      | Some (i, _) => modinfo_entry k img (take i line) (drop (S i) line) (p + Z.of_nat i + 1)
      | None => mret tt
      end ;;
      modinfo_lines fuel k img (end_ + 1) stop
  end.

Definition parse_modinfo (k : Z) (img : list Z) (shs : list shdr) : M modst unit :=
  r ← find_section img shs str_modinfo;
  match r with
  | Some (_, sh) => modinfo_lines (length img) k img (sh_offset sh) (sh_offset sh + sh_size sh)
  | None => mret tt
  end.

Definition parse_export_table (k : Z) (img : list Z) (shs : list shdr) (secs : list (Z * Z)) : M modst unit :=
  r ← find_section img shs str_ksymtab;
  match r with
  | None => mret tt
  | Some (i, sh) =>
      m ← mod_at k;
      let entries := u64 (m_base m + sec_off secs i) in
      r ← for_up (B := unit) (Z.to_nat (sh_size sh `div` 16)) 0 (λ e,
        m ← mod_at k;
        if bool_decide (MAX_EXPORTED_SYMS ≤ length (exports m))%nat then mret (Some tt) else
        name ← load_val (entries + e * 16) 8;
        addr ← load_val (entries + e * 16 + 8) 8;
        whenM (nz name && nz addr) (mod_upd k (λ m, m <| exports := exports m ++ [mkExport addr name] |>)) ;;
        mret None);
      mret tt
  end.

Definition parse_param_table (k : Z) (img : list Z) (shs : list shdr) (secs : list (Z * Z)) : M modst unit :=
  r ← find_section img shs str_param;
  match r with
  | None => mret tt
  | Some (i, sh) =>
      m ← mod_at k;
      let ps := u64 (m_base m + sec_off secs i) in
      r ← for_up (B := unit) (Z.to_nat (sh_size sh `div` 72)) 0 (λ p,
        m ← mod_at k;
        if bool_decide (MAX_MOD_PARAMS ≤ length (params m))%nat then mret (Some tt) else
        let a := ps + p * 72 in
        name ← load_str a;
        type ← load_val (a + 32) 4;
        addr ← load_val (a + 40) 8;
        mod_upd k (λ m, m <| params := params m ++ [mkParam name type addr] |>) ;;
        mret None);
      mret tt
  end.

(** ** Parameters *)

Definition param_int (val : list Z) : Z :=
  foldl (λ num c, if (48 <=? c) && (c <=? 57) then i64 (num * 10 + (c - 48)) else num) 0 val.
Definition param_bool (val : list Z) : bool :=
  bool_decide (val = [116; 114; 117; 101]) || bool_decide (val = [49]) || bool_decide (val = [111; 110]).

Definition set_param (x : mod_param) (val : list Z) : M modst unit :=
  if pm_type x =? 0 then store_at (pm_addr x) (le_bytes 4 (u32 (param_int val)))
  else if pm_type x =? 1 then store_at (pm_addr x) [if param_bool val then 1 else 0]
  else if (pm_type x =? 2) || (pm_type x =? 3) then
    str ← m_alloc (val ++ [0]);
    whenM (nz str) (store_at (pm_addr x) (le_bytes 8 str))
  else mret tt.

(** The loop over [args]; every turn takes at least one character. *)
Fixpoint apply_args (fuel : nat) (k : Z) (p : list Z) : M modst unit :=
  match p with
  | [] => mret tt
  | _ =>
      match fuel with
      | O => fault
      | S fuel =>
          let p := skip (λ c, c =? 32) p in
          if bool_decide (p = []) then mret tt else
          let go c := negb (c =? 61) && negb (c =? 32) in
          let key := span go p in
          let p := skip go p in
          let word c := negb (c =? 32) in
          if negb (char_at p =? 61) then apply_args fuel k (skip word p) else
          let p := drop 1 p in
          let val := span word p in
          m ← mod_at k;
          match list_find (λ x, pm_name x = key) (params m) with
          | Some (_, x) => set_param x val
          | None => mret tt
          end ;;
          apply_args fuel k (skip word p)
      end
  end.
Definition apply_params (k : Z) (args : list Z) : M modst unit := apply_args (S (length args)) k args.

(** ** Hooks and dependencies *)

Definition str_init_module : list Z := [105; 110; 105; 116; 95; 109; 111; 100; 117; 108; 101].
Definition str_module_init : list Z := [109; 111; 100; 117; 108; 101; 95; 105; 110; 105; 116].
Definition str_cleanup_module : list Z := [99; 108; 101; 97; 110; 117; 112; 95; 109; 111; 100; 117; 108; 101].
Definition str_module_exit : list Z := [109; 111; 100; 117; 108; 101; 95; 101; 120; 105; 116].

Definition find_module_hooks (k : Z) (img : list Z) (secs : list (Z * Z)) : M modst unit :=
  m ← mod_at k;
  match symtab m, strtab m with
  | Some st, Some str =>
      for_all (Z.to_nat (sym_count m)) 0 (λ i,
        y ← from_opt (sym_at img (st + i * 24));
        if (st_shndx y =? SHN_UNDEF) || (st_shndx y =? SHN_ABS) then mret tt else
        match list_find (λ e, e.1 = st_shndx y) secs with
        | None => mret tt
        | Some (_, (_, sec_base)) =>
            let name := str + st_name y in
            let addr := u64 (m_base m + sec_base + st_value y) in
            b1 ← from_opt (file_streq img name str_init_module);
            b2 ← (if b1 : bool then mret true else from_opt (file_streq img name str_module_init));
            if (b2 : bool) then mod_upd k (λ m, m <| init_fn := addr |>) else
            b3 ← from_opt (file_streq img name str_cleanup_module);
            b4 ← (if b3 : bool then mret true else from_opt (file_streq img name str_module_exit));
            if (b4 : bool) then mod_upd k (λ m, m <| exit_fn := addr |>) else mret tt
        end)
  | _, _ => mret tt
  end.

Fixpoint resolve_deps (l : list Z) : M modst Z :=
  match l with
  | [] => mret 0
  | p :: l =>
      depname ← load_str p;
      dep ← mod_find depname;
      match dep with
      | None => mret (-1)
      | Some j =>
          d ← mod_at j;
          if bool_decide (m_state d ≠ MOD_STATE_LIVE) then mret (-1) else
          mod_get j ;; resolve_deps l
      end
  end.
Definition resolve_dependencies (k : Z) : M modst Z := m ← mod_at k; resolve_deps (depends m).

(** ** Loading and unloading *)

Definition k_alloc (n : Z) : M modst Z := λ s, let '(p, e) := kmalloc n (menv s) in Done p (s <| menv := e |>).

Definition on_syms (c : M symst unit) : M modst unit := λ s,
  match c (msyms s) with
  | Done _ y => Done tt (s <| msyms := y |>)
  | Panicked y => Panicked (s <| msyms := y |>)
  | Fault => Fault
  end.

(** The sections are copied into the image. *)
Fixpoint copy_sections (img : list Z) (shs : list shdr) (base : Z) (secs : list (Z * Z)) : M modst unit :=
  match secs with
  | [] => mret tt
  | (i, off) :: secs =>
      sh ← from_opt (shs !! Z.to_nat i);
      whenM (negb (sh_type sh =? SHT_NOBITS) && (0 <? sh_size sh))
        (x ← from_opt (file_bytes img (sh_offset sh) (sh_size sh)); store_at (base + off) x) ;;
      copy_sections img shs base secs
  end.

(** The first symbol table. *)
Definition find_symtab (k : Z) (shs : list shdr) : M modst unit :=
  match list_find (λ sh, sh_type sh = SHT_SYMTAB) shs with
  | None => mret tt
  | Some (_, sh) =>
      mod_upd k (λ m, m <| symtab := Some (sh_offset sh) |> <| sym_count := u32 (sh_size sh `div` 24) |>) ;;
      match shs !! Z.to_nat (u16 (sh_link sh)) with
      | Some strsh => mod_upd k (λ m, m <| strtab := Some (sh_offset strsh) |>)
      | None => mret tt
      end
  end.

(** [for each dependency: if it is found, mod_put], at the label [fail]. *)
Fixpoint put_deps (l : list Z) : M modst unit :=
  match l with
  | [] => mret tt
  | p :: l =>
      depname ← load_str p;
      dep ← mod_find depname;
      match dep with Some j => mod_put j | None => mret tt end ;;
      put_deps l
  end.

Definition load_fail (k idx off : Z) : M modst (option Z) :=
  whenM (nz idx) (m_free idx) ;;
  whenM (nz off) (m_free off) ;;
  m ← mod_at k;
  put_deps (depends m) ;;
  m ← mod_at k;
  whenM (nz (m_base m)) (m_free (m_base m)) ;;
  mod_upd k (λ m, m <| m_state := MOD_STATE_UNLOADED |>) ;;
  modify (λ s, s <| mod_count := u32 (mod_count s - 1) |>) ;;
  mret None.

(** From the call of [module_init] on. *)
Definition start_module (k : Z) : M modst (option Z) :=
  m ← mod_at k;
  ret ← (if nz (init_fn m) then
           mod_upd k (λ m, m <| m_state := MOD_STATE_LOADING |>) ;;
           ret ← call_init (init_fn m);
           mod_upd k (λ m, m <| init_ret := ret |>) ;;
           mret ret
         else mret 0);
  if nz ret then
    mod_upd k (λ m, m <| m_state := MOD_STATE_GOING |>) ;;
    load_fail k 0 0
  else
    mod_upd k (λ m, m <| m_state := MOD_STATE_LIVE |>) ;;
    mret (Some k).

(** From the entry in the module table on: the image is at [base]. *)
Definition load_module_at (name img : list Z) (args : option (list Z)) (shs : list shdr) (secs : list (Z * Z))
    (total idx off base : Z) : M modst (option Z) :=
  k ← gets mod_count;
  modify (λ s, s <| mod_count := k + 1 |>) ;;
  mod_upd k (λ _, zero_module <| m_base := base |> <| m_size := total |> <| refcount := 1 |>
                    <| m_name := take (MOD_NAME_LEN - 1) name |>) ;;
  parse_modinfo k img shs ;;
  r ← resolve_dependencies k;
  if r <? 0 then load_fail k idx off else
  find_symtab k shs ;;
  r ← process_relocations k base img shs secs;
  if r <? 0 then load_fail k idx off else
  parse_export_table k img shs secs ;;
  parse_param_table k img shs secs ;;
  match args with Some a => apply_params k a | None => mret tt end ;;
  find_module_hooks k img secs ;;
  m_free idx ;;
  m_free off ;;
  start_module k.

(** The index of the module, or [None] for [NULL]. *)
Definition load_kernel_module (name img : list Z) (args : option (list Z)) : M modst (option Z) :=
  if Z.of_nat (length img) <? 64 then mret None else
  n ← gets mod_count;
  if MAX_MODULES <=? n then mret None else
  v ← from_opt (elf_validate_reloc img);
  if v <? 0 then mret None else
  on_syms (symbols_init ksyms_section) ;;
  shs ← from_opt (shdrs img);
  let nalloc := Z.of_nat (length (filter (λ sh, alloc_section sh = true) shs)) in
  if nalloc =? 0 then m_free 0 ;; m_free 0 ;; mret None else
  idx ← k_alloc (2 * nalloc);
  off ← k_alloc (8 * nalloc);
  if (idx =? 0) || (off =? 0) then m_free idx ;; m_free off ;; m_free 0 ;; m_free 0 ;; mret None else
  let '(secs, total) := section_layout shs 0 0 in
  if total =? 0 then m_free idx ;; m_free off ;; mret None else
  base ← m_alloc (replicate (Z.to_nat total) 0);
  if base =? 0 then m_free idx ;; m_free off ;; mret None else
  copy_sections img shs base secs ;;
  load_module_at name img args shs secs total idx off base.

Fixpoint drop_deps (l : list Z) : M modst unit :=
  match l with
  | [] => mret tt
  | p :: l =>
      depname ← load_str p;
      dep ← mod_find depname;
      match dep with Some j => mod_put j ;; m_free p | None => mret tt end ;;
      drop_deps l
  end.
Fixpoint free_aliases (l : list Z) : M modst unit :=
  match l with [] => mret tt | p :: l => m_free p ;; free_aliases l end.

Definition unload_kernel_module (k : Z) : M modst Z :=
  m ← mod_at k;
  if bool_decide (m_state m = MOD_STATE_UNLOADED) then mret (-1) else
  if 1 <? refcount m then mret (-1) else
  mod_upd k (λ m, m <| m_state := MOD_STATE_GOING |>) ;;
  whenM (nz (exit_fn m)) (call_exit (exit_fn m)) ;;
  m ← mod_at k;
  drop_deps (depends m) ;;
  m ← mod_at k;
  free_aliases (aliases m) ;;
  whenM (nz (m_base m)) (m_free (m_base m)) ;;
  mod_upd k (λ m, m <| m_base := 0 |> <| m_state := MOD_STATE_UNLOADED |> <| refcount := 0 |>) ;;
  mret 0.
End Code.
