(* ===== verification/ModlSpec.v ===== *)
(** * What the module loader promises

    The layout of a module's image ([layout_correct]): sections are aligned,
    disjoint, in order and inside the image.  Relocation
    ([relocate_section_correct]): every patched field denotes the address that the
    ABI asks for, if it can.  And runs that go wrong. *)

From S2P Require Import Prelude Bytes Proc Bump Cstring Printf PrintfSpec Symbols Modl.

(** ** The layout *)

Definition eff_align (sh : shdr) : Z := if sh_addralign sh <? 1 then 1 else sh_addralign sh.

Lemma land_wrap x n : 0 ≤ x < 2 ^ 64 → Z.land x (u64 n) = Z.land x n.
Proof.
  intros Hx. unfold wrap. rewrite <-Z.land_ones by lia. rewrite (Z.land_comm n), Z.land_assoc.
  rewrite (Z.land_ones x) by lia. by rewrite Z.mod_small.
Qed.

Lemma align_up_eq t j : 0 ≤ j < 64 → 0 ≤ t → t + 2 ^ j ≤ 2 ^ 64 →
  align_up t (2 ^ j) = (t + 2 ^ j - 1) `div` 2 ^ j * 2 ^ j.
Proof.
  intros Hj Ht Hb. pose proof (Z.pow_pos_nonneg 2 j). unfold align_up. rewrite (wrap_small 64 (t + 2 ^ j - 1)) by lia.
  rewrite land_wrap by lia. rewrite <-Z.ldiff_land. replace (2 ^ j - 1) with (Z.ones j) by (rewrite Z.ones_equiv; lia).
  rewrite Z.ldiff_ones_r, Z.shiftl_mul_pow2, Z.shiftr_div_pow2 by lia. done.
Qed.

(** Alignments are powers of two, as the format demands. *)
Definition sec_wf (sh : shdr) : Prop := 0 ≤ sh_size sh ∧ ∃ j, 0 ≤ j < 64 ∧ eff_align sh = 2 ^ j.

(** Room enough for every section and its alignment. *)
Definition room (shs : list shdr) : Z := foldr (λ sh a, sh_size sh + eff_align sh + a) 0 shs.

Record laid_out (shs : list shdr) (i : Z) (t : Z) (secs : list (Z * Z)) (total : Z) : Prop := {
  lo_total : t ≤ total;
  lo_secs k off : (k, off) ∈ secs → ∃ sh, shs !! Z.to_nat (k - i) = Some sh ∧ i ≤ k ∧ alloc_section sh = true ∧
    off `mod` eff_align sh = 0 ∧ t ≤ off ∧ off + sh_size sh ≤ total;
  lo_all k sh : shs !! k = Some sh → alloc_section sh = true → ∃ off, (i + Z.of_nat k, off) ∈ secs;
  lo_order n1 n2 k1 o1 k2 o2 sh1 : secs !! n1 = Some (k1, o1) → secs !! n2 = Some (k2, o2) → (n1 < n2)%nat →
    shs !! Z.to_nat (k1 - i) = Some sh1 → k1 < k2 ∧ o1 + sh_size sh1 ≤ o2 }.

Lemma laid_skip sh shs i t secs total : alloc_section sh = false → laid_out shs (i + 1) t secs total →
  laid_out (sh :: shs) i t secs total.
Proof.
  intros Ha [Ht Hs Hall Ho].
  assert (∀ k, i + 1 ≤ k → (sh :: shs) !! Z.to_nat (k - i) = shs !! Z.to_nat (k - (i + 1))) as Hshift.
  { intros k Hk. replace (Z.to_nat (k - i)) with (S (Z.to_nat (k - (i + 1)))) by lia. done. }
  split; [done|..].
  - intros k off Hk. destruct (Hs k off Hk) as (x & Hx & Hi & Hr). exists x. rewrite Hshift by done. split_and!; try apply Hr; [done|lia].
  - intros [|k] x Hx Hax; [cbn in Hx; congruence|]. destruct (Hall k x Hx Hax) as [off Hoff]. exists off. by replace (i + Z.of_nat (S k)) with (i + 1 + Z.of_nat k) by lia.
  - intros n1 n2 k1 o1 k2 o2 x H1 H2 Hlt Hx. apply (Ho n1 n2 k1 o1 k2 o2); [done..|].
    destruct (Hs k1 o1) as (y & _ & Hi & _); [by eapply list_elem_of_lookup_2|]. by rewrite Hshift in Hx.
Qed.

Lemma laid_cons sh shs i t off secs total : alloc_section sh = true → off `mod` eff_align sh = 0 → t ≤ off → 0 ≤ sh_size sh →
  laid_out shs (i + 1) (off + sh_size sh) secs total → laid_out (sh :: shs) i t ((i, off) :: secs) total.
Proof.
  intros Ha Hm Hto Hsz [Ht Hs Hall Ho].
  assert (∀ k, i + 1 ≤ k → (sh :: shs) !! Z.to_nat (k - i) = shs !! Z.to_nat (k - (i + 1))) as Hshift.
  { intros k Hk. replace (Z.to_nat (k - i)) with (S (Z.to_nat (k - (i + 1)))) by lia. done. }
  assert ((sh :: shs) !! Z.to_nat (i - i) = Some sh) as H0 by (by rewrite Z.sub_diag).
  split; [lia|..].
  - intros k o [[= -> ->]|Hk]%elem_of_cons; [exists sh; split_and!; (done || lia)|].
    destruct (Hs k o Hk) as (x & Hx & Hi & Hax & Hmx & Hlo & Hhi). exists x. rewrite Hshift by done. split_and!; (done || lia).
  - intros [|k] x Hx Hax; [exists off; rewrite Z.add_0_r; left|]. destruct (Hall k x Hx Hax) as [o Hoff]. exists o. right.
    by replace (i + Z.of_nat (S k)) with (i + 1 + Z.of_nat k) by lia.
  - intros [|n1] [|n2] k1 o1 k2 o2 x H1 H2 Hlt Hx; [lia| |lia|].
    + cbn in H1, H2. injection H1 as <- <-. assert (x = sh) as -> by congruence.
      destruct (Hs k2 o2) as (y & _ & Hi & _ & _ & Hlo & _); [by eapply list_elem_of_lookup_2|]. lia.
    + cbn in H1, H2. apply (Ho n1 n2 k1 o1 k2 o2); [done|done|lia|].
      destruct (Hs k1 o1) as (y & _ & Hi & _); [by eapply list_elem_of_lookup_2|]. by rewrite Hshift in Hx.
Qed.

Lemma layout_post shs : Forall sec_wf shs → ∀ i t, 0 ≤ t → t + room shs < 2 ^ 64 →
  laid_out shs i t (section_layout shs i t).1 (section_layout shs i t).2.
Proof.
  induction 1 as [|sh shs (Hsz & j & Hj & Ej) Hshs IH]; intros i t Ht Hroom.
  { cbn. split; [done|by intros ? ? ?%elem_of_nil|done|done]. }
  cbn [room foldr] in Hroom. fold (room shs) in Hroom. cbn [section_layout].
  assert (0 ≤ room shs) as Hr.
  { clear -Hshs. induction Hshs as [|x l (Hx & k & Hk & Ek) _ IHl]; [done|]. cbn. fold (room l). pose proof (Z.pow_pos_nonneg 2 k). lia. }
  pose proof (Z.pow_pos_nonneg 2 j ltac:(lia) ltac:(lia)) as Hp.
  destruct (alloc_section sh) eqn:Ha.
  - fold (eff_align sh). rewrite Ej in *. rewrite align_up_eq by lia. set (off := (t + 2 ^ j - 1) `div` 2 ^ j * 2 ^ j).
    assert (t ≤ off < t + 2 ^ j) as Hoff.
    { unfold off. pose proof (Z.div_mod (t + 2 ^ j - 1) (2 ^ j) ltac:(lia)). pose proof (Z.mod_pos_bound (t + 2 ^ j - 1) (2 ^ j) Hp). lia. }
    rewrite (wrap_small 64 (off + sh_size sh)) by lia. specialize (IH (i + 1) (off + sh_size sh) ltac:(lia) ltac:(lia)).
    destruct (section_layout shs (i + 1) (off + sh_size sh)) as [l total]. cbn [fst snd] in *.
    apply laid_cons; [done| |lia|done|done]. rewrite Ej. unfold off. apply Z.mod_mul. lia.
  - apply laid_skip; [done|]. apply IH; [done|]. lia.
Qed.

(** C35: In a module's image the allocated sections, and only these, have places:
    each starts at an offset in the image that is a multiple of the alignment its
    header demands, lies inside the image, and ends before the next one starts.
    (The image itself is a plain [kmalloc] object, so nothing is said of the
    alignment of the addresses.) *)
Theorem layout_correct shs : Forall sec_wf shs → room shs < 2 ^ 64 →
  laid_out shs 0 0 (section_layout shs 0 0).1 (section_layout shs 0 0).2.
Proof. intros Hs Hr. by apply layout_post. Qed.

Lemma layout_correct_witness :
  let text := mkShdr 0 1 6 64 100 0 0 16 in let data := mkShdr 0 1 3 164 3 0 0 0 in
  let other := mkShdr 0 3 0 0 50 0 0 1 in let bss := mkShdr 0 8 3 0 8 0 0 8 in
  let shs := [text; other; data; bss] in
  laid_out shs 0 0 [(0, 0); (2, 100); (3, 104)] 112.
Proof.
  intros text data other bss shs. apply (layout_correct shs); [|done].
  repeat constructor; cbn; try done.
  - by exists 4.
  - by exists 0.
  - by exists 0.
  - by exists 3.
Defined.

(** ** Relocation *)

(** The bytes that a relocation writes at the address [P]. *)
Definition rela_bytes (type S A P : Z) : list Z :=
  if type =? R_X86_64_64 then le_bytes 8 (u64 (S + A))
  else if (type =? R_X86_64_PC32) || (type =? R_X86_64_PLT32) then le_bytes 4 (u32 (S + A - P))
  else le_bytes 4 (u32 (S + A)).

Definition known_type (type : Z) : Prop :=
  type = R_X86_64_64 ∨ type = R_X86_64_PC32 ∨ type = R_X86_64_PLT32 ∨ type = R_X86_64_32 ∨ type = R_X86_64_32S.

(** The address that a patched field denotes when it is used: 32-bit fields are
    extended with zeros or with the sign, those relative to the program counter
    are added to their own address [P]. *)
Definition denotes (type P : Z) (field : list Z) : Z :=
  if type =? R_X86_64_64 then le_val field
  else if (type =? R_X86_64_PC32) || (type =? R_X86_64_PLT32) then u64 (P + i32 (le_val field))
  else if type =? R_X86_64_32 then le_val field
  else u64 (i32 (le_val field)).

(** The target can be expressed in the field. *)
Definition fits (type P v : Z) : Prop :=
  ((type = R_X86_64_PC32 ∨ type = R_X86_64_PLT32) → - 2 ^ 31 ≤ i64 (v - P) < 2 ^ 31) ∧
  (type = R_X86_64_32 → u64 v < 2 ^ 32) ∧
  (type = R_X86_64_32S → - 2 ^ 31 ≤ i64 v < 2 ^ 31).

Lemma le_val_wrap n z : le_val (le_bytes n (wrap (8 * Z.of_nat n) z)) = wrap (8 * Z.of_nat n) z.
Proof.
  rewrite le_val_bytes. unfold wrap. change 256 with (2 ^ 8). rewrite <-Z.pow_mul_r by lia. apply Z.mod_mod. pose proof (Z.pow_pos_nonneg 2 (8 * Z.of_nat n)). lia.
Qed.

(** Truncating to 32 bits and extending the sign keeps a small number. *)
Lemma sint32_small z : - 2 ^ 31 ≤ i64 z < 2 ^ 31 → u64 (i32 (u32 z)) = u64 z ∧ ∀ p, u64 (p + i32 (u32 z)) = u64 (p + z).
Proof.
  intros Hz. assert (i32 (u32 z) = i64 z) as ->.
  { unfold sint in *. rewrite (wrap_small 32 (u32 z)) by (apply wrap_range; lia). change (2 ^ (32 - 1)) with (2 ^ 31). change (2 ^ (64 - 1)) with (2 ^ 63) in *.
    pose proof (wrap_range 64 z ltac:(lia)). pose proof (wrap_range 32 z ltac:(lia)).
    unfold wrap in *. repeat case_match; Z.div_mod_to_equations; lia. }
  assert (∃ q, i64 z = z + q * 2 ^ 64) as [q ->].
  { unfold sint. case_match; unfold wrap; [exists (- (z `div` 2 ^ 64))|exists (- (z `div` 2 ^ 64) - 1)]; pose proof (Z.div_mod z (2 ^ 64)); lia. }
  unfold wrap. split; [apply Z.mod_add; lia|]. intros p. rewrite Z.add_assoc. apply Z.mod_add. lia.
Qed.

Lemma rela_bytes_denote type S A P : known_type type → fits type P (S + A) →
  denotes type P (rela_bytes type S A P) = u64 (S + A).
Proof.
  intros Ht (Hpc & H32 & H32s). unfold denotes, rela_bytes.
  assert (le_val (le_bytes 4 (u32 (S + A))) = u32 (S + A)) as E4 by apply (le_val_wrap 4).
  assert (le_val (le_bytes 4 (u32 (S + A - P))) = u32 (S + A - P)) as Ep by apply (le_val_wrap 4).
  destruct Ht as [->|[->|[->|[->| ->]]]]; cbn [Z.eqb Pos.eqb orb R_X86_64_64 R_X86_64_PC32 R_X86_64_PLT32 R_X86_64_32 R_X86_64_32S].
  - apply (le_val_wrap 8).
  - rewrite Ep. rewrite (proj2 (sint32_small _ (Hpc ltac:(by left)))). f_equal. lia.
  - rewrite Ep. rewrite (proj2 (sint32_small _ (Hpc ltac:(by right)))). f_equal. lia.
  - rewrite E4. specialize (H32 eq_refl). unfold wrap in *. Z.div_mod_to_equations; lia.
  - rewrite E4. apply (sint32_small _ (H32s eq_refl)).
Qed.

(** The heap blocks do not overlap. *)
Definition apart (bl : gmap Z (list Z)) : Prop :=
  ∀ b l b' l', bl !! b = Some l → bl !! b' = Some l' → b ≠ b' →
  b + Z.of_nat (length l) ≤ b' ∨ b' + Z.of_nat (length l') ≤ b.

Lemma block_at_eq bl b l p : apart bl → bl !! b = Some l → b ≤ p < b + Z.of_nat (length l) → block_at bl p = Some (b, l).
Proof.
  intros Hap Hb Hp. unfold block_at. set (L := filter _ _).
  assert (∀ e, e ∈ L ↔ e = (b, l)) as HL.
  { intros [b' l']. unfold L. rewrite list_elem_of_filter, elem_of_map_to_list. cbn. split.
    - intros [Hp' Hb']. destruct (decide (b' = b)) as [->|Hne]; [congruence|].
      destruct (Hap b l b' l' Hb Hb' ltac:(done)); lia.
    - intros [= -> ->]. done. }
  destruct L as [|e L']; [by pose proof (proj2 (HL (b, l)) eq_refl) as ?%elem_of_nil|]. cbn. f_equal. apply HL. by left.
Qed.

Lemma apart_update bl b l l' : apart bl → bl !! b = Some l → length l' = length l → apart (<[b := l']> bl).
Proof.
  intros Hap Hb Hl b1 l1 b2 l2 H1 H2 Hne.
  assert (∀ c k, <[b := l']> bl !! c = Some k → ∃ k0, bl !! c = Some k0 ∧ length k = length k0) as Hback.
  { intros c k [[-> ->]|[? ?]]%lookup_insert_Some; eauto. }
  destruct (Hback _ _ H1) as (k1 & Hk1 & ->), (Hback _ _ H2) as (k2 & Hk2 & ->). by apply (Hap b1 k1 b2 k2).
Qed.

Lemma lookup_splice l i s k : (i + length s ≤ length l)%nat →
  splice l i s !! k = if decide (i ≤ k < i + length s)%nat then s !! (k - i)%nat else l !! k.
Proof.
  intros Hl. unfold splice. assert (length (take i l) = i) as Ht by (rewrite length_take; lia). case_decide.
  - rewrite lookup_app_r, Ht, lookup_app_l by lia. done.
  - destruct (decide (k < i)%nat); [by rewrite lookup_app_l, lookup_take_lt by lia|].
    rewrite lookup_app_r, Ht, lookup_app_r, lookup_drop by lia. f_equal. lia.
Qed.

Section Relocate.
Context `{!KEnv} `{!ModCode}.

Lemma store_at_eq s b l off x : apart (blocks s) → blocks s !! b = Some l → 0 ≤ off → x ≠ [] →
  off + Z.of_nat (length x) ≤ Z.of_nat (length l) →
  store_at (b + off) x s = Done tt (s <| blocks := <[b := splice l (Z.to_nat off) x]> (blocks s) |>).
Proof.
  intros Hap Hb Ho Hx Hl. assert (0 < Z.of_nat (length x)) as Hpos by (destruct x; [done|cbn; lia]).
  unfold store_at, mbind, M_bind, gets, from_opt. rewrite (block_at_eq _ b l) by (done || lia).
  replace (b + off - b) with off by lia. by rewrite decide_True.
Qed.

Definition rela_type (x : rela) : Z := ELF64_R_TYPE (r_info x).
Definition rela_size (type : Z) : Z := if type =? R_X86_64_64 then 8 else 4.

Lemma rela_bytes_length type S A P : Z.of_nat (length (rela_bytes type S A P)) = rela_size type.
Proof. unfold rela_bytes, rela_size. by repeat case_match; rewrite length_le_bytes. Qed.

(** The offset in the image of the field of a relocation, and the image patched. *)
Definition site (toff : Z) (x : rela) : Z := toff + r_offset x.
Definition patch (base toff : Z) (l : list Z) (e : rela * Z) : list Z :=
  splice l (Z.to_nat (site toff e.1)) (rela_bytes (rela_type e.1) e.2 (r_addend e.1) (base + site toff e.1)).

Definition site_ok (toff : Z) (n : nat) (x : rela) : Prop :=
  known_type (rela_type x) ∧ 0 ≤ site toff x ∧ site toff x + rela_size (rela_type x) ≤ Z.of_nat n.

Lemma apply_rela_eq s base l x v toff : apart (blocks s) → blocks s !! base = Some l → 0 ≤ base →
  base + Z.of_nat (length l) < 2 ^ 64 → site_ok toff (length l) x →
  apply_rela base x v toff s = Done 0 (s <| blocks := <[base := patch base toff l (x, v)]> (blocks s) |>).
Proof.
  intros Hap Hb Hb0 Hlen (Ht & Hs0 & Hs). unfold site in *.
  pose proof (rela_bytes_length (rela_type x) v (r_addend x) (base + (toff + r_offset x))) as Hbl.
  assert (0 < rela_size (rela_type x)) as Hpos by (unfold rela_size; case_match; lia).
  pose proof (store_at_eq s base l (toff + r_offset x) (rela_bytes (rela_type x) v (r_addend x) (base + (toff + r_offset x)))
    Hap Hb Hs0 ltac:(intros E; rewrite E in Hbl; cbn in Hbl; lia) ltac:(lia)) as Hst.
  unfold apply_rela. rewrite wrap_small by lia. rewrite <-Z.add_assoc. fold (rela_type x). unfold patch, site. cbn [fst snd].
  unfold rela_bytes in Hst |- *.
  destruct Ht as [E|[E|[E|[E|E]]]]; rewrite E in *;
    cbn [Z.eqb Pos.eqb orb R_X86_64_64 R_X86_64_PC32 R_X86_64_PLT32 R_X86_64_32 R_X86_64_32S] in *; by rewrite (bind_done _ _ _ _ _ Hst).
Qed.

(** The value of a symbol that the module itself or the kernel defines. *)
Definition plain_value (tbl : list sym_t) (base : Z) (img : list Z) (nsec : Z) (secs : list (Z * Z)) (strtab : Z) (y : sym) : option Z :=
  if st_shndx y =? SHN_UNDEF then
    name ← file_str img (strtab + st_name y);
    let a := sym_get_addr tbl name in if nz a then Some a else None
  else if st_shndx y =? SHN_ABS then Some (st_value y)
  else if st_shndx y =? SHN_COMMON then None
  else if st_shndx y <? nsec then Some (u64 (base + sec_off secs (st_shndx y) + st_value y)) else None.

Lemma sym_value_eq k s base img nsec secs strtab y v : plain_value (sym_table (msyms s)) base img nsec secs strtab y = Some v →
  sym_value k base img nsec secs strtab y s = Done (Some v) s.
Proof.
  unfold plain_value, sym_value. intros Hv. destruct (st_shndx y =? SHN_UNDEF).
  - destruct (file_str img _) as [name|]; [|done]. cbn in Hv. destruct (nz (sym_get_addr _ name)) eqn:E; [|done]. injection Hv as <-.
    erewrite bind_done by reflexivity. erewrite bind_done.
    2: { unfold mod_resolve_symbol. erewrite bind_done by reflexivity. cbn [compose]. cbv beta zeta. rewrite E. reflexivity. }
    cbn [compose]. by rewrite E.
  - destruct (st_shndx y =? SHN_ABS); [by injection Hv as <-|]. destruct (st_shndx y =? SHN_COMMON); [done|].
    destruct (st_shndx y <? nsec); [by injection Hv as <-|done].
Qed.

Lemma patch_length base toff l e : site_ok toff (length l) e.1 → length (patch base toff l e) = length l.
Proof.
  intros (_ & H1 & H2). unfold patch. apply length_splice.
  pose proof (rela_bytes_length (rela_type e.1) e.2 (r_addend e.1) (base + site toff e.1)). lia.
Qed.

Lemma relocate_eq k base img nsec secs symtab strtab o toff rs : ∀ i s l,
  apart (blocks s) → blocks s !! base = Some l → 0 ≤ base → base + Z.of_nat (length l) < 2 ^ 64 →
  Forall (λ e, site_ok toff (length l) e.1) rs →
  (∀ j x v, rs !! j = Some (x, v) → rela_at img (o + (i + Z.of_nat j) * 24) = Some x ∧
    ∃ y, sym_at img (symtab + ELF64_R_SYM (r_info x) * 24) = Some y ∧
      plain_value (sym_table (msyms s)) base img nsec secs strtab y = Some v) →
  for_up (length rs) i (λ r,
    x ← from_opt (rela_at img (o + r * 24));
    y ← from_opt (sym_at img (symtab + ELF64_R_SYM (r_info x) * 24));
    v ← sym_value k base img nsec secs strtab y;
    match v with
    | None => mret (Some (-1))
    | Some symval => e ← apply_rela base x symval toff; mret (if e <? 0 then Some (-1) else None)
    end) s = Done None (s <| blocks := <[base := foldl (patch base toff) l rs]> (blocks s) |>).
Proof.
  induction rs as [|[x v] rs IH]; intros i s l Hap Hb Hb0 Hlen Hok Hrs.
  { cbn. rewrite insert_id by done. by destruct s. }
  apply Forall_cons_1 in Hok as [Hx Hok]. cbn [length for_up foldl].
  destruct (Hrs 0%nat x v eq_refl) as (Er & y & Ey & Ev). rewrite Z.add_0_r in Er.
  pose proof (apply_rela_eq s base l x v toff Hap Hb Hb0 Hlen Hx) as Ea.
  set (s1 := s <| blocks := <[base := patch base toff l (x, v)]> (blocks s) |>) in *.
  pose proof (patch_length base toff l (x, v) Hx) as Hpl.
  unfold for_up; fold (@for_up modst Z). rewrite (bind_done _ _ s None s1).
  2: { rewrite Er. rewrite (bind_done _ _ s x s) by done. rewrite Ey. rewrite (bind_done _ _ s y s) by done.
    rewrite (bind_done _ _ s (Some v) s) by (by apply sym_value_eq). by rewrite (bind_done _ _ _ _ _ Ea). }
  rewrite (IH (i + 1) s1 (patch base toff l (x, v))).
  - unfold s1. cbn. by rewrite insert_insert_eq.
  - unfold s1. cbn. by eapply apart_update.
  - unfold s1. cbn. apply lookup_insert_eq.
  - done.
  - by rewrite Hpl.
  - by rewrite Hpl.
  - intros j x' v' Hj. replace (i + 1 + Z.of_nat j) with (i + Z.of_nat (S j)) by lia. by apply (Hrs (S j)).
Qed.

(** Two fields do not overlap. *)
Definition sites_apart (toff : Z) (x x' : rela) : Prop :=
  site toff x + rela_size (rela_type x) ≤ site toff x' ∨ site toff x' + rela_size (rela_type x') ≤ site toff x.

Definition in_site (toff : Z) (x : rela) (o : nat) : Prop :=
  site toff x ≤ Z.of_nat o < site toff x + rela_size (rela_type x).

Lemma patched base toff rs : ∀ l, Forall (λ e, site_ok toff (length l) e.1) rs →
  length (foldl (patch base toff) l rs) = length l ∧
  (∀ o, (∀ e, e ∈ rs → ¬ in_site toff e.1 o) → foldl (patch base toff) l rs !! o = l !! o) ∧
  (ForallOrdPairs (λ e e', sites_apart toff e.1 e'.1) rs → ∀ e i, e ∈ rs → 0 ≤ i < rela_size (rela_type e.1) →
    foldl (patch base toff) l rs !! Z.to_nat (site toff e.1 + i) =
    rela_bytes (rela_type e.1) e.2 (r_addend e.1) (base + site toff e.1) !! Z.to_nat i).
Proof.
  induction rs as [|e rs IH]; intros l Hok; [split_and!; [done|done|by intros _ ? ? ?%elem_of_nil]|].
  pose proof Hok as [He Hok']%Forall_cons_1. pose proof (patch_length base toff l e He) as Hpl.
  destruct (IH (patch base toff l e)) as (IH1 & IH2 & IH3); [by rewrite Hpl|]. cbn [foldl].
  pose proof (rela_bytes_length (rela_type e.1) e.2 (r_addend e.1) (base + site toff e.1)) as Hbl.
  destruct He as (_ & Hs0 & Hs1).
  assert (∀ k, patch base toff l e !! k = if decide (in_site toff e.1 k)
    then rela_bytes (rela_type e.1) e.2 (r_addend e.1) (base + site toff e.1) !! (k - Z.to_nat (site toff e.1))%nat else l !! k) as Hlk.
  { intros k. unfold patch. rewrite lookup_splice by lia. unfold in_site. repeat case_decide; (done || lia). }
  split_and!; [congruence|..].
  - intros o Ho. rewrite IH2 by (intros e' He'; apply Ho; by right). rewrite Hlk, decide_False; [done|]. apply Ho. by left.
  - intros Hap e' i He' Hi. inversion Hap as [|? ? Hhd Htl]; subst. apply elem_of_cons in He' as [->|He']; [|by apply IH3].
    rewrite IH2.
    + rewrite Hlk, decide_True by (unfold in_site; lia). f_equal. lia.
    + intros e2 He2 Hin. rewrite List.Forall_forall in Hhd. specialize (Hhd e2 ltac:(by apply list_elem_of_In)).
      unfold in_site, sites_apart in *. lia.
Qed.

(** C36: A relocation section whose symbols are defined by the module or the kernel
    is applied completely: afterwards each field denotes symbol plus addend, if
    that address can be expressed in the field, and no other byte of the image has
    changed. *)
Theorem relocate_section_correct k base img nsec secs symtab strtab o toff rs s l :
  apart (blocks s) → blocks s !! base = Some l → 0 ≤ base → base + Z.of_nat (length l) < 2 ^ 64 →
  Forall (λ e, site_ok toff (length l) e.1) rs →
  ForallOrdPairs (λ e e', sites_apart toff e.1 e'.1) rs →
  (∀ j x v, rs !! j = Some (x, v) → rela_at img (o + Z.of_nat j * 24) = Some x ∧
    ∃ y, sym_at img (symtab + ELF64_R_SYM (r_info x) * 24) = Some y ∧
      plain_value (sym_table (msyms s)) base img nsec secs strtab y = Some v) →
  ∃ l', relocate_section k base img nsec secs symtab strtab o toff (length rs) s =
      Done None (s <| blocks := <[base := l']> (blocks s) |>) ∧ length l' = length l ∧
    (∀ x v, (x, v) ∈ rs → let P := base + site toff x in fits (rela_type x) P (v + r_addend x) →
      denotes (rela_type x) P (take (Z.to_nat (rela_size (rela_type x))) (drop (Z.to_nat (site toff x)) l')) = u64 (v + r_addend x)) ∧
    (∀ i, (∀ e, e ∈ rs → ¬ in_site toff e.1 i) → l' !! i = l !! i).
Proof.
  intros Hap Hb Hb0 Hlen Hok Hsites Hrs. destruct (patched base toff rs l Hok) as (Hl & Hout & Hin).
  exists (foldl (patch base toff) l rs). split_and!; [|done| |done].
  - unfold relocate_section. apply relocate_eq; try done.
  - intros x v Hx P Hfits. rewrite list.Forall_forall in Hok. specialize (Hok _ Hx). cbn in Hok. destruct Hok as (Ht & Hs0 & Hs1).
    rewrite <-(rela_bytes_denote (rela_type x) v (r_addend x) P Ht Hfits). f_equal.
    pose proof (rela_bytes_length (rela_type x) v (r_addend x) P) as Hbl.
    apply list_eq. intros i. destruct (decide (i < Z.to_nat (rela_size (rela_type x)))%nat) as [Hi|Hi].
    + rewrite lookup_take_lt, lookup_drop by done. pose proof (Hin Hsites (x, v) (Z.of_nat i) Hx ltac:(cbn; lia)) as E. cbn in E.
      rewrite Nat2Z.id in E. unfold P. rewrite <-E. f_equal. lia.
    + rewrite !lookup_ge_None_2; [done|lia|rewrite length_take; lia].
Qed.
End Relocate.

(** ** Runs *)

Module Runs.
#[local] Instance ex_code : ModCode := {| call_init := λ _, mret 0; call_exit := λ _, mret tt; ksyms_section := [] |}.

(** A file with two relocations, two symbols and a string: the address of the
    module's own data, and a call of the kernel's [f]. *)
Definition ex_rela (offset type symidx addend : Z) : rela := mkRela offset (symidx * 2 ^ 32 + type) addend.
Definition rela_file (x : rela) : list Z := le_bytes 8 (r_offset x) ++ le_bytes 8 (r_info x) ++ le_bytes 8 (r_addend x).
Definition sym_file (y : sym) : list Z :=
  le_bytes 4 (st_name y) ++ [0; 0] ++ le_bytes 2 (st_shndx y) ++ le_bytes 8 (st_value y) ++ le_bytes 8 0.
Definition ex_relas : list rela := [ex_rela 0 R_X86_64_64 0 4; ex_rela 8 R_X86_64_PC32 1 (2 ^ 64 - 4)].
Definition ex_file : list Z :=
  mjoin (rela_file <$> ex_relas) ++ sym_file (mkElfSym 0 1 8) ++ sym_file (mkElfSym 0 SHN_UNDEF 0) ++ [102; 0].
Definition ex_base : Z := 0x100000.
Definition ex_state (faddr : Z) : modst :=
  mkModst (replicate 16 zero_module) 0 {[ex_base := replicate 64 0]} (mkBump 0x10000 BUMP_LIMIT [] (λ _, None)) (mkSymst [mkSym faddr [102]] true).
Definition ex_rs (faddr : Z) : list (rela * Z) :=
  [(ex_rela 0 R_X86_64_64 0 4, ex_base + 24); (ex_rela 8 R_X86_64_PC32 1 (2 ^ 64 - 4), faddr)].

Lemma relocate_section_correct_witness : let s := ex_state 0x200000 in let rs := ex_rs 0x200000 in
  ∃ l', relocate_section 0 ex_base ex_file 2 [(1, 16)] 48 96 0 0 2 s =
      Done None (s <| blocks := <[ex_base := l']> (blocks s) |>) ∧ length l' = 64%nat ∧
    (∀ x v, (x, v) ∈ rs → let P := ex_base + site 0 x in fits (rela_type x) P (v + r_addend x) →
      denotes (rela_type x) P (take (Z.to_nat (rela_size (rela_type x))) (drop (Z.to_nat (site 0 x)) l')) = u64 (v + r_addend x)) ∧
    (∀ i, (∀ e, e ∈ rs → ¬ in_site 0 e.1 i) → l' !! i = replicate 64 0 !! i).
Proof.
  intros s rs. apply (relocate_section_correct 0 ex_base ex_file 2 [(1, 16)] 48 96 0 0 rs s (replicate 64 0)).
  - cbn [s ex_state blocks]. intros b l b' l' [<- <-]%lookup_singleton_Some [<- <-]%lookup_singleton_Some Hne. done.
  - apply lookup_singleton_eq.
  - done.
  - done.
  - apply Forall_cons; [split; [by left|by vm_compute]|].
    apply Forall_cons; [split; [by right; left|by vm_compute]|constructor].
  - repeat constructor; by vm_compute.
  - intros [|[|j]] x v Hj; [..|done]; injection Hj as <- <-; (split; [by vm_compute|]).
    + exists (mkElfSym 0 1 8). split; by vm_compute.
    + exists (mkElfSym 0 SHN_UNDEF 0). split; by vm_compute.
Defined.

(** The image after the relocations. *)
Definition relocated (faddr : Z) : option (Z * Z) :=
  match relocate_section 0 ex_base ex_file 2 [(1, 16)] 48 96 0 0 2 (ex_state faddr) with
  | Done None s =>
      l ← blocks s !! ex_base;
      Some (denotes R_X86_64_64 ex_base (take 8 l), denotes R_X86_64_PC32 (ex_base + 8) (take 4 (drop 8 l)))
  | _ => None
  end.

Example relocated_near : relocated 0x200000 = Some (ex_base + 28, 0x200000 - 4).
Proof. vm_compute. reflexivity. Qed.

(** A call of kernel code from a module on the heap is cut to 32 bits without
    notice, and goes elsewhere. *)
Example relocated_far : relocated 0xffffffff80100000 = Some (ex_base + 28, 0x800ffffc).
Proof. vm_compute. reflexivity. Qed.

(** Module 0 is used by module 1.  The load of module 2, which depends on a
    missing module and on module 0, fails at the first of these, and gives back a
    reference to module 0 that it never took: now module 0 can be unloaded. *)
Definition live_module (name : list Z) (refs : Z) (deps : list Z) : module :=
  zero_module <| m_name := name |> <| m_state := MOD_STATE_LIVE |> <| refcount := refs |> <| depends := deps |>.
Definition ex_mods : modst :=
  mkModst ([live_module [97] 2 []; live_module [98] 1 [0x2000];
            zero_module <| m_name := [99] |> <| refcount := 1 |> <| depends := [0x3000; 0x2000] |>] ++ replicate 13 zero_module)
    3 {[0x2000 := [97; 0]; 0x3000 := [120; 0]]} (mkBump 0x10000 BUMP_LIMIT [] (λ _, None)) (mkSymst [] true).

Example failed_load_unpins :
  (unload_kernel_module 0) ex_mods = Done (-1) ex_mods ∧
  ∃ s, (r ← resolve_dependencies 2; _ ← load_fail 2 0 0; mret r) ex_mods = Done (-1) s ∧
    refcount <$> modules s !! 0%nat = Some 1 ∧
    match unload_kernel_module 0 s with Done r _ => r = 0 | _ => False end.
Proof. split; [by vm_compute|]. eexists. split; [vm_compute; reflexivity|]. by vm_compute. Qed.

(** Unloading does not give the slot back: [mod_count] stays. *)
Example slot_lost :
  match unload_kernel_module 1 ex_mods with Done r s => r = 0 ∧ mod_count s = 3 | _ => False end.
Proof. by vm_compute. Qed.

(** The minus sign of an integer parameter is skipped. *)
Example negative_param : param_int [45; 53] = 5.
Proof. vm_compute. reflexivity. Qed.
End Runs.
