(* ===== verification/Lz4.v ===== *)
(** * LZ4 decompression

    Models [kernel/lz4.c], which unpacks the initial file system.  The source is
    a list of bytes and [ip] an index into it; the state is the contents of the
    destination buffer and [op] an index into it.  The code trusts its input: a
    read outside the source or an access outside the destination is a [Fault].
    The theorem says that every well-formed frame decodes to its meaning, the
    meaning of a block being defined on sequences of literals and matches. *)

From S2P Require Import Prelude Bytes.

(** ** The code *)

Section Code.
Context (source : list Z).

Definition src_at (i : Z) : M (list Z) Z :=
  if i <? 0 then fault else from_opt (source !! Z.to_nat i).
Definition dst_at (i : Z) : M (list Z) Z := λ d,
  if i <? 0 then Fault else from_opt (d !! Z.to_nat i) d.
Definition dst_put (i v : Z) : M (list Z) unit := λ d,
  if (i <? 0) || (Z.of_nat (length d) <=? i) then Fault else Done tt (<[Z.to_nat i := v]> d).

(** [do { s = *ip++; len += s; } while (s == 255)]: the length and the new [ip].
    Every round reads another byte of the source. *)
Fixpoint read_ext (fuel : nat) (ip len : Z) : M (list Z) (Z * Z) :=
  match fuel with
  | O => fault
  | S fuel =>
      s ← src_at ip;
      let len := u64 (len + s) in
      if s =? 255 then read_ext fuel (ip + 1) len else mret (len, ip + 1)
  end.
Definition read_len (nibble ip : Z) : M (list Z) (Z * Z) :=
  if nibble =? 15 then read_ext (S (length source)) ip nibble else mret (nibble, ip).

(** The literals of a sequence, and its match: the new [ip] and [op]. *)
Definition lz4_literals (token ip op : Z) : M (list Z) (Z * Z) :=
  '(lit_len, ip) ← read_len (Z.shiftr token 4) ip;
  for_all (Z.to_nat lit_len) 0 (λ i, b ← src_at (ip + i); dst_put (op + i) b) ;;
  mret (ip + lit_len, op + lit_len).

Definition lz4_match (token ip op : Z) : M (list Z) (Z * Z) :=
  b0 ← src_at ip;
  b1 ← src_at (ip + 1);
  let offset := u16 (Z.lor b0 (Z.shiftl b1 8)) in
  '(mat_len, ip) ← read_len (Z.land token 15) (ip + 2);
  let mat_len := u64 (mat_len + 4) in
  for_all (Z.to_nat mat_len) 0 (λ i, b ← dst_at (op - offset + i); dst_put (op + i) b) ;;
  mret (ip, op + mat_len).

(** The body of the loop of [lz4_decompress_block]: also whether the loop was
    left by [break]. *)
Definition lz4_sequence (ip op iend : Z) : M (list Z) (Z * Z * bool) :=
  token ← src_at ip;
  '(ip, op) ← lz4_literals token (ip + 1) op;
  if iend <=? ip then mret (ip, op, true) else
  '(ip, op) ← lz4_match token ip op;
  mret (ip, op, false).

Fixpoint lz4_block_from (fuel : nat) (ip op iend : Z) : M (list Z) Z :=
  if iend <=? ip then mret op else
  match fuel with
  | O => fault
  | S fuel =>
      '(ip, op, stop) ← lz4_sequence ip op iend;
      if stop : bool then mret op else lz4_block_from fuel ip op iend
  end.

(** A sequence takes at least one byte. *)
Definition lz4_decompress_block (ip op isize : Z) : M (list Z) Z :=
  lz4_block_from (Z.to_nat isize) ip op (ip + isize).

Definition le32 (ip : Z) : M (list Z) Z :=
  b0 ← src_at ip;
  b1 ← src_at (ip + 1);
  b2 ← src_at (ip + 2);
  b3 ← src_at (ip + 3);
  mret (u32 (Z.lor (Z.lor (Z.lor b0 (Z.shiftl b1 8)) (Z.shiftl b2 16)) (Z.shiftl b3 24))).

(** The two loops over the blocks; a block takes at least four bytes. *)
Fixpoint lz4_legacy_from (fuel : nat) (ip op iend oend : Z) : M (list Z) Z :=
  if iend <=? ip then mret (i32 op) else
  if iend <? ip + 4 then mret (i32 op) else
  match fuel with
  | O => fault
  | S fuel =>
      block_size ← le32 ip;
      let ip := ip + 4 in
      if block_size =? 0 then mret (i32 op) else
      if iend <? ip + block_size then mret (-3) else
      op ← lz4_decompress_block ip op block_size;
      let ip := ip + block_size in
      if oend <? op then mret (-4) else lz4_legacy_from fuel ip op iend oend
  end.

Fixpoint lz4_blocks_from (fuel : nat) (flg ip op iend oend : Z) : M (list Z) Z :=
  if iend <=? ip then mret (i32 op) else
  if iend <? ip + 4 then mret (i32 op) else
  match fuel with
  | O => fault
  | S fuel =>
      block_size ← le32 ip;
      let ip := ip + 4 in
      if block_size =? 0 then mret (i32 op) else
      let next ip op :=
        lz4_blocks_from fuel flg (if nz (Z.land flg 16) then ip + 4 else ip) op iend oend in
      if nz (Z.land block_size 0x80000000) then
        let real_size := Z.land block_size 0x7FFFFFFF in
        if (iend <? ip + real_size) || (oend <? op + real_size) then mret (-2) else
        for_all (Z.to_nat real_size) 0 (λ i, b ← src_at (ip + i); dst_put (op + i) b) ;;
        next (ip + real_size) (op + real_size)
      else
        if iend <? ip + block_size then mret (-3) else
        op ← lz4_decompress_block ip op block_size;
        if oend <? op then mret (-4) else next (ip + block_size) op
  end.

Definition lz4_unframe (input_size max_output : Z) : M (list Z) Z :=
  if input_size <? 7 then mret (-1) else
  magic ← le32 0;
  if magic =? 0x184C2102 then
    lz4_legacy_from (Z.to_nat input_size) 4 0 input_size max_output
  else if negb (magic =? 0x184D2204) then mret (-1) else
  flg ← src_at 4;
  _ ← src_at 5;
  let ip := 6 in
  let ip := if nz (Z.land flg 8) then ip + 8 else ip in
  let ip := if nz (Z.land flg 1) then ip + 4 else ip in
  let ip := ip + 1 in
  lz4_blocks_from (Z.to_nat input_size) flg ip 0 input_size max_output.
End Code.

(** ** The format

    A sequence is some literal bytes followed by a match: [mlen] bytes copied
    one by one from [off] bytes back.  A block is a list of sequences and a
    last run of literals. *)

Record seq := mkSeq { lits : list Z; off : Z; mlen : nat }.
Record block := mkBlock { seqs : list seq; final : list Z }.

Definition last_at (out : list Z) (o : Z) : Z := default 0 (out !! Z.to_nat (Z.of_nat (length out) - o)).
Fixpoint repeat_from (out : list Z) (o : Z) (n : nat) : list Z :=
  match n with O => out | S n => repeat_from (out ++ [last_at out o]) o n end.

Definition run_seq (out : list Z) (s : seq) : list Z :=
  repeat_from (out ++ lits s) (off s) (mlen s).
Definition run_block (out : list Z) (b : block) : list Z :=
  foldl run_seq out (seqs b) ++ final b.

(** The 4-bit field of a length and its extension bytes. *)
Definition nibble (n : nat) : Z := Z.min (Z.of_nat n) 15.
Definition ext (n : nat) : list Z :=
  if decide (n < 15)%nat then [] else
  replicate ((n - 15) `div` 255) 255 ++ [Z.of_nat ((n - 15) `mod` 255)].

Definition enc_seq (s : seq) : list Z :=
  (16 * nibble (length (lits s)) + nibble (mlen s - 4)) :: ext (length (lits s)) ++ lits s ++
  [off s `mod` 256; off s `div` 256] ++ ext (mlen s - 4).
Definition enc_tail (l : list Z) : list Z :=
  16 * nibble (length l) :: ext (length l) ++ l.
Definition enc_block (b : block) : list Z := concat (enc_seq <$> seqs b) ++ enc_tail (final b).

(** A match starts inside what has been written. *)
Fixpoint seqs_ok (out : list Z) (l : list seq) : Prop :=
  match l with
  | [] => True
  | s :: l =>
      (4 ≤ mlen s)%nat ∧ 1 ≤ off s < 65536 ∧
      off s ≤ Z.of_nat (length out + length (lits s)) ∧ seqs_ok (run_seq out s) l
  end.

(** ** Reading the source, writing the destination *)

Lemma src_at_mid pre b post ip d :
  ip = Z.of_nat (length pre) → src_at (pre ++ b :: post) ip d = Done b d.
Proof.
  intros ->. unfold src_at, from_opt. rewrite (proj2 (Z.ltb_ge _ _)) by lia.
  by rewrite Nat2Z.id, list_lookup_middle.
Qed.

Lemma dst_put_mid out v r rest i :
  i = Z.of_nat (length out) → dst_put i v (out ++ r :: rest) = Done tt (out ++ v :: rest).
Proof.
  intros ->. unfold dst_put. rewrite length_app, length_cons.
  rewrite (proj2 (Z.ltb_ge _ _)), (proj2 (Z.leb_gt _ _)) by lia. simpl.
  by rewrite Nat2Z.id, insert_app_r_alt, Nat.sub_diag by lia.
Qed.

(** A loop that appends the bytes [f 0, f 1, ...] at the end of [out]. *)
Lemma append_loop (body : Z → M (list Z) unit) (outs : nat → list Z) n : ∀ rest,
  (n ≤ length rest)%nat →
  (∀ k r rest, (k < n)%nat →
     body (Z.of_nat k) (outs k ++ r :: rest) = Done tt (outs (S k) ++ rest)) →
  for_all n 0 body (outs 0%nat ++ rest) = Done tt (outs n ++ drop n rest).
Proof.
  intros rest Hn Hb.
  pose proof (for_all_eq n 0 body
    (λ z, outs (Z.to_nat z) ++ drop (Z.to_nat z) rest)) as E.
  rewrite Z.add_0_l, Nat2Z.id in E. cbn in E. rewrite drop_0 in E. apply E. intros k Hk.
  destruct (lookup_lt_is_Some_2 rest (Z.to_nat k)) as [r Hr]; [lia|].
  rewrite (drop_S _ _ _ Hr), <-(Z2Nat.id k) at 1 by lia.
  rewrite Hb by lia. by replace (Z.to_nat (k + 1)) with (S (Z.to_nat k)) by lia.
Qed.

Lemma copy_source pre l post out rest :
  (length l ≤ length rest)%nat →
  for_all (length l) 0 (λ i, b ← src_at (pre ++ l ++ post) (Z.of_nat (length pre) + i);
                             dst_put (Z.of_nat (length out) + i) b) (out ++ rest)
  = Done tt ((out ++ l) ++ drop (length l) rest).
Proof.
  intros Hn.
  pose proof (append_loop (λ i, b ← src_at (pre ++ l ++ post) (Z.of_nat (length pre) + i);
    dst_put (Z.of_nat (length out) + i) b) (λ k, out ++ take k l) (length l) rest Hn) as E.
  cbv beta in E. rewrite firstn_all, take_0, app_nil_r in E. apply E. clear E.
  intros k r rest' Hk. destruct (lookup_lt_is_Some_2 l k Hk) as [b Hb].
  rewrite <-(take_drop_middle l k b Hb) at 1.
  rewrite <-app_assoc, (app_assoc pre), <-app_comm_cons.
  erewrite bind_done; [|apply src_at_mid; rewrite length_app, length_take; lia].
  rewrite dst_put_mid by (rewrite length_app, length_take; lia).
  by rewrite (take_S_r _ _ _ Hb), !app_assoc, <-!app_assoc.
Qed.

Lemma length_repeat_from o n : ∀ out, length (repeat_from out o n) = (length out + n)%nat.
Proof. induction n as [|n IH]; intros out; simpl; [lia|]. rewrite IH, length_app. simpl. lia. Qed.

Lemma repeat_from_S out o n :
  repeat_from out o (S n) = repeat_from out o n ++ [last_at (repeat_from out o n) o].
Proof. revert out. induction n as [|n IH]; intros out; [done|]. apply (IH (out ++ [last_at out o])). Qed.

Lemma copy_match out rest o n :
  (n ≤ length rest)%nat → 1 ≤ o ≤ Z.of_nat (length out) →
  for_all n 0 (λ i, b ← dst_at (Z.of_nat (length out) - o + i);
                    dst_put (Z.of_nat (length out) + i) b) (out ++ rest)
  = Done tt (repeat_from out o n ++ drop n rest).
Proof.
  intros Hn Ho. apply (append_loop _ (repeat_from out o)); [done|].
  intros k r rest' Hk. rewrite repeat_from_S. set (w := repeat_from out o k).
  assert (length w = (length out + k)%nat) as Hw by apply length_repeat_from.
  rewrite (bind_done _ _ _ (last_at w o) (w ++ r :: rest')).
  - rewrite dst_put_mid by lia. by rewrite <-app_assoc.
  - unfold dst_at, last_at, from_opt.
    replace (Z.of_nat (length out) - o + Z.of_nat k) with (Z.of_nat (length w) - o) by lia.
    rewrite (proj2 (Z.ltb_ge _ _)) by lia.
    destruct (lookup_lt_is_Some_2 w (Z.to_nat (Z.of_nat (length w) - o))) as [b Hb]; [lia|].
    rewrite (lookup_app_l_Some _ _ _ _ Hb). by rewrite Hb.
Qed.

(** ** Lengths *)

Lemma nibble_range n : 0 ≤ nibble n ≤ 15.
Proof. unfold nibble. lia. Qed.

(** The extension bytes of [n], after the field has contributed 15. *)
Lemma read_ext_spec k r post d : 0 ≤ r < 255 → ∀ fuel pre len,
  (k < fuel)%nat → 0 ≤ len → len + 255 * Z.of_nat k + r < 2 ^ 64 →
  read_ext (pre ++ replicate k 255 ++ r :: post) fuel (Z.of_nat (length pre)) len d
  = Done (len + 255 * Z.of_nat k + r, Z.of_nat (length pre + k + 1)) d.
Proof.
  intros Hr. induction k as [|k IH]; intros [|fuel] pre len Hf Hl Hb; try lia;
    cbn [read_ext replicate app].
  - erewrite bind_done by by apply src_at_mid. rewrite (proj2 (Z.eqb_neq _ _)) by lia.
    rewrite wrap_small by lia. unfold mret, M_ret. do 2 f_equal; lia.
  - erewrite bind_done by by apply src_at_mid. cbn [Z.eqb Pos.eqb].
    rewrite wrap_small by lia. rewrite (cons_middle 255 pre), app_assoc.
    replace (Z.of_nat (length pre) + 1) with (Z.of_nat (length (pre ++ [255])))
      by (rewrite length_app; simpl; lia).
    rewrite IH by lia. rewrite length_app. do 2 f_equal; simpl; lia.
Qed.

Lemma read_len_spec pre n post d : Z.of_nat n < 2 ^ 63 →
  read_len (pre ++ ext n ++ post) (nibble n) (Z.of_nat (length pre)) d
  = Done (Z.of_nat n, Z.of_nat (length (pre ++ ext n))) d.
Proof.
  change (2 ^ 63) with 9223372036854775808. intros Hn. unfold read_len, ext, nibble.
  case_decide as Hd.
  - rewrite (proj2 (Z.eqb_neq _ _)) by lia. rewrite app_nil_r. unfold mret, M_ret. do 2 f_equal; lia.
  - replace (Z.min (Z.of_nat n) 15) with 15 by lia. cbn [Z.eqb Pos.eqb].
    set (k := ((n - 15) `div` 255)%nat). set (r := ((n - 15) `mod` 255)%nat).
    assert (n = 15 + 255 * k + r ∧ r < 255)%nat as [En Hr]
      by (subst k r; pose proof (Nat.div_mod_eq (n - 15) 255);
          pose proof (Nat.mod_upper_bound (n - 15) 255); lia).
    rewrite <-app_assoc. cbn [app]. rewrite read_ext_spec.
    + rewrite !length_app, length_replicate. cbn [length]. do 2 f_equal; lia.
    + lia.
    + rewrite !length_app, length_replicate. lia.
    + lia.
    + change (2 ^ 64) with 18446744073709551616. lia.
Qed.

Lemma token_fields a b : 0 ≤ a ≤ 15 → 0 ≤ b ≤ 15 →
  Z.shiftr (16 * a + b) 4 = a ∧ Z.land (16 * a + b) 15 = b.
Proof.
  intros Ha Hb. rewrite Z.shiftr_div_pow2 by lia. change 15 with (Z.ones 4).
  rewrite Z.land_ones by lia. change (2 ^ 4) with 16. split; Z.div_mod_to_equations; lia.
Qed.

Lemma offset_fields o : 0 ≤ o < 65536 → u16 (Z.lor (o `mod` 256) (Z.shiftl (o `div` 256) 8)) = o.
Proof.
  intros Ho. rewrite lor_shift; change (2 ^ 8) with 256; [|lia|by apply Z.mod_pos_bound].
  rewrite wrap_small; change (2 ^ 16) with 65536; Z.div_mod_to_equations; lia.
Qed.

(** ** Blocks *)

Lemma length_run_seq out s : length (run_seq out s) = (length out + length (lits s) + mlen s)%nat.
Proof. unfold run_seq. rewrite length_repeat_from, length_app. lia. Qed.

Lemma length_run_seqs l : ∀ out, (length out ≤ length (foldl run_seq out l))%nat.
Proof.
  induction l as [|s l IH]; intros out; simpl; [lia|].
  specialize (IH (run_seq out s)). rewrite length_run_seq in IH. lia.
Qed.

Lemma snoc_app (pre : list Z) t l : pre ++ t :: l = (pre ++ [t]) ++ l.
Proof. by rewrite <-app_assoc. Qed.
Lemma next_index (pre : list Z) t : Z.of_nat (length pre) + 1 = Z.of_nat (length (pre ++ [t])).
Proof. rewrite length_app. simpl. lia. Qed.

Lemma literals_spec pre m l post out rest :
  0 ≤ m ≤ 15 → (length l ≤ length rest)%nat → Z.of_nat (length rest) < 2 ^ 62 →
  lz4_literals (pre ++ ext (length l) ++ l ++ post) (16 * nibble (length l) + m)
    (Z.of_nat (length pre)) (Z.of_nat (length out)) (out ++ rest)
  = Done (Z.of_nat (length (pre ++ ext (length l) ++ l)), Z.of_nat (length (out ++ l)))
      ((out ++ l) ++ drop (length l) rest).
Proof.
  intros Hm Hl Hb. change (2 ^ 62) with 4611686018427387904 in Hb. unfold lz4_literals.
  destruct (token_fields _ m (nibble_range (length l)) Hm) as [-> _].
  erewrite bind_done
    by (apply read_len_spec; change (2 ^ 63) with 9223372036854775808; lia).
  cbv beta iota. rewrite Nat2Z.id, (app_assoc pre). erewrite bind_done by by apply copy_source.
  unfold mret, M_ret. do 2 f_equal; rewrite !length_app; lia.
Qed.

Lemma match_spec pre o n post t out rest :
  (4 ≤ n)%nat → (n ≤ length rest)%nat → Z.of_nat (length rest) < 2 ^ 62 →
  1 ≤ o < 65536 → o ≤ Z.of_nat (length out) → Z.land t 15 = nibble (n - 4) →
  let enc := [o `mod` 256; o `div` 256] ++ ext (n - 4) in
  lz4_match (pre ++ enc ++ post) t (Z.of_nat (length pre)) (Z.of_nat (length out)) (out ++ rest)
  = Done (Z.of_nat (length (pre ++ enc)), Z.of_nat (length (repeat_from out o n)))
      (repeat_from out o n ++ drop n rest).
Proof.
  intros H4 Hn Hb Ho Hout Ht enc. change (2 ^ 62) with 4611686018427387904 in Hb.
  unfold lz4_match. subst enc. rewrite Ht, <-app_assoc. cbn [app].
  erewrite bind_done by by apply src_at_mid.
  rewrite (cons_middle (o `mod` 256)), (app_assoc pre).
  erewrite bind_done by (apply src_at_mid; rewrite length_app; simpl; lia).
  rewrite offset_fields by lia. rewrite (cons_middle (o `div` 256)), (app_assoc _ [_] (ext _ ++ _)).
  replace (Z.of_nat (length pre) + 2)
    with (Z.of_nat (length ((pre ++ [o `mod` 256]) ++ [o `div` 256])))
    by (rewrite !length_app; simpl; lia).
  erewrite bind_done
    by (apply read_len_spec; change (2 ^ 63) with 9223372036854775808; lia).
  cbv beta iota zeta. rewrite wrap_small by (change (2 ^ 64) with 18446744073709551616; lia).
  replace (Z.of_nat (n - 4) + 4) with (Z.of_nat n) by lia. rewrite Nat2Z.id.
  erewrite bind_done by (apply copy_match; lia).
  unfold mret, M_ret. rewrite length_repeat_from, !length_app. simpl. do 2 f_equal; lia.
Qed.

Lemma sequence_tail pre l post out rest :
  (length l ≤ length rest)%nat → Z.of_nat (length rest) < 2 ^ 62 →
  lz4_sequence (pre ++ enc_tail l ++ post) (Z.of_nat (length pre)) (Z.of_nat (length out))
    (Z.of_nat (length (pre ++ enc_tail l))) (out ++ rest)
  = Done (Z.of_nat (length (pre ++ enc_tail l)), Z.of_nat (length (out ++ l)), true)
      ((out ++ l) ++ drop (length l) rest).
Proof.
  intros Hl Hb. unfold lz4_sequence, enc_tail. cbn [app]. rewrite <-app_assoc.
  erewrite bind_done by by apply src_at_mid.
  rewrite (snoc_app pre _ (ext (length l) ++ l ++ post)), (snoc_app pre _ (ext (length l) ++ l)).
  rewrite (next_index pre (16 * nibble (length l))).
  rewrite <-(Z.add_0_r (16 * nibble (length l))) at 2.
  erewrite bind_done by (apply literals_spec; [lia|done..]).
  cbv beta iota. by rewrite Z.leb_refl.
Qed.

Lemma sequence_spec pre s post out rest iend :
  (length (lits s) + mlen s ≤ length rest)%nat → Z.of_nat (length rest) < 2 ^ 62 →
  (4 ≤ mlen s)%nat → 1 ≤ off s < 65536 → off s ≤ Z.of_nat (length out + length (lits s)) →
  Z.of_nat (length (pre ++ enc_seq s)) ≤ iend →
  lz4_sequence (pre ++ enc_seq s ++ post) (Z.of_nat (length pre)) (Z.of_nat (length out)) iend
    (out ++ rest)
  = Done (Z.of_nat (length (pre ++ enc_seq s)), Z.of_nat (length (run_seq out s)), false)
      (run_seq out s ++ drop (length (lits s) + mlen s) rest).
Proof.
  intros Hl Hb H4 Ho Hout Hend. unfold lz4_sequence, enc_seq in *.
  set (t := 16 * nibble (length (lits s)) + nibble (mlen s - 4)) in *.
  cbn [app] in *. rewrite <-!app_assoc.
  erewrite bind_done by by apply src_at_mid.
  rewrite (snoc_app pre t), (next_index pre t).
  erewrite bind_done by (apply literals_spec; [apply nibble_range|lia|done]).
  cbv beta iota. rewrite (proj2 (Z.leb_gt _ _)) by (rewrite !length_app in *; simpl in *; rewrite !length_app in *; simpl in *; lia).
  set (p := (pre ++ [t]) ++ ext (length (lits s)) ++ lits s).
  match goal with |- context [lz4_match ?src] => replace src with
    (p ++ ([off s `mod` 256; off s `div` 256] ++ ext (mlen s - 4)) ++ post)
    by (subst p; by rewrite <-!app_assoc) end.
  erewrite bind_done.
  2: { apply (match_spec p (off s) (mlen s)); rewrite ?length_drop, ?length_app; try lia.
       apply token_fields; apply nibble_range. }
  cbv beta iota. rewrite drop_drop. unfold mret, M_ret, run_seq. subst p. by rewrite <-!app_assoc.
Qed.

Lemma run_block_cons out s l t : run_block out (mkBlock (s :: l) t) = run_block (run_seq out s) (mkBlock l t).
Proof. done. Qed.

Lemma length_run_block out b : (length out ≤ length (run_block out b))%nat.
Proof. unfold run_block. rewrite length_app. pose proof (length_run_seqs (seqs b) out). lia. Qed.

Lemma block_from_spec t l : ∀ fuel pre post out rest,
  let b := mkBlock l t in
  seqs_ok out l → (length (run_block out b) ≤ length out + length rest)%nat →
  Z.of_nat (length rest) < 2 ^ 62 → (length (enc_block b) ≤ fuel)%nat →
  lz4_block_from (pre ++ enc_block b ++ post) fuel (Z.of_nat (length pre)) (Z.of_nat (length out))
    (Z.of_nat (length (pre ++ enc_block b))) (out ++ rest)
  = Done (Z.of_nat (length (run_block out b)))
      (run_block out b ++ drop (length (run_block out b) - length out) rest).
Proof.
  induction l as [|s l IH]; intros fuel pre post out rest b Hok Hlen Hb Hf; subst b.
  - unfold enc_block, run_block in *. cbn [seqs final fmap list_fmap concat app foldl] in *.
    rewrite length_app in Hlen.
    destruct fuel as [|fuel]; [unfold enc_tail in Hf; simpl in Hf; lia|]. cbn [lz4_block_from].
    rewrite (proj2 (Z.leb_gt _ _)) by (rewrite length_app; unfold enc_tail; simpl; lia).
    erewrite bind_done by (apply sequence_tail; lia). cbv beta iota.
    unfold mret, M_ret. rewrite length_app. by replace (length out + length t - length out)%nat with (length t) by lia.
  - destruct Hok as (H4 & Ho & Hout & Hok). rewrite run_block_cons in *.
    pose proof (length_run_block (run_seq out s) (mkBlock l t)) as Hge. rewrite length_run_seq in Hge.
    unfold enc_block in *. cbn [seqs final] in *. rewrite fmap_cons in *. cbn [concat] in *.
    set (e := concat (enc_seq <$> l) ++ enc_tail t) in *.
    assert (1 ≤ length (enc_seq s))%nat as H1 by (unfold enc_seq; simpl; lia).
    rewrite <-!app_assoc in *. rewrite length_app in Hf.
    destruct fuel as [|fuel]; [lia|]. cbn [lz4_block_from].
    rewrite (proj2 (Z.leb_gt _ _)) by (rewrite !length_app; lia).
    erewrite bind_done by (apply sequence_spec; [lia|done..|rewrite !length_app; lia]).
    cbv beta iota.
    specialize (IH fuel (pre ++ enc_seq s) post (run_seq out s) (drop (length (lits s) + mlen s) rest)).
    rewrite drop_drop, length_run_seq in IH. cbv zeta in IH. fold e in IH.
    replace (length (lits s) + mlen s + (length (run_block (run_seq out s) (mkBlock l t)) -
      (length out + length (lits s) + mlen s)))%nat
      with (length (run_block (run_seq out s) (mkBlock l t)) - length out)%nat in IH by lia.
    rewrite <-IH; [|done|rewrite length_drop; lia|rewrite length_drop; lia|subst e; lia].
    subst e. by rewrite length_run_seq, <-!app_assoc.
Qed.

Lemma decompress_spec pre b post out rest :
  seqs_ok out (seqs b) → (length (run_block out b) ≤ length out + length rest)%nat →
  Z.of_nat (length rest) < 2 ^ 62 →
  lz4_decompress_block (pre ++ enc_block b ++ post) (Z.of_nat (length pre)) (Z.of_nat (length out))
    (Z.of_nat (length (enc_block b))) (out ++ rest)
  = Done (Z.of_nat (length (run_block out b)))
      (run_block out b ++ drop (length (run_block out b) - length out) rest).
Proof.
  intros. unfold lz4_decompress_block. rewrite Nat2Z.id, <-Nat2Z.inj_add, <-length_app.
  destruct b as [l t]. by apply block_from_spec.
Qed.

(** ** Frames

    A frame is a header and a list of parts, stored raw or packed, each with an
    optional checksum, which the code skips. *)

Inductive part := Raw (l : list Z) | Packed (b : block).

Definition enc32 (n : Z) : list Z :=
  [n `mod` 256; (n `div` 256) `mod` 256; (n `div` 65536) `mod` 256; n `div` 16777216].
Definition enc_part (p : part) : list Z :=
  match p with
  | Raw l => enc32 (2 ^ 31 + Z.of_nat (length l)) ++ l
  | Packed b => enc32 (Z.of_nat (length (enc_block b))) ++ enc_block b
  end.
Definition run_part (out : list Z) (p : part) : list Z :=
  match p with Raw l => out ++ l | Packed b => run_block out b end.

Definition part_ok (out : list Z) (p : part) : Prop :=
  match p with
  | Raw l => Z.of_nat (length l) < 2 ^ 31
  | Packed b => seqs_ok out (seqs b) ∧ Z.of_nat (length (enc_block b)) < 2 ^ 31
  end.
Fixpoint parts_ok (out : list Z) (ps : list part) : Prop :=
  match ps with [] => True | p :: ps => part_ok out p ∧ parts_ok (run_part out p) ps end.

Record frame := mkFrame {
  f_flg : Z; f_bd : Z; f_header : list Z; f_parts : list (part * list Z) }.

Definition checksum_size (flg : Z) : nat := if nz (Z.land flg 16) then 4%nat else 0%nat.
Definition header_size (flg : Z) : nat :=
  ((if nz (Z.land flg 8) then 8 else 0) + (if nz (Z.land flg 1) then 4 else 0) + 1)%nat.

Definition enc_parts (ps : list (part * list Z)) : list Z :=
  concat ((λ pc, enc_part pc.1 ++ pc.2) <$> ps).
Definition enc_frame (f : frame) : list Z :=
  enc32 0x184D2204 ++ f_flg f :: f_bd f :: f_header f ++ enc_parts (f_parts f) ++ enc32 0.
Definition enc_legacy (bs : list block) : list Z :=
  enc32 0x184C2102 ++ concat ((λ b, enc_part (Packed b)) <$> bs).

Definition frame_ok (f : frame) : Prop :=
  length (f_header f) = header_size (f_flg f) ∧
  Forall (λ pc, length pc.2 = checksum_size (f_flg f)) (f_parts f) ∧
  parts_ok [] (f_parts f).*1.

Lemma le32_spec pre n post d : 0 ≤ n < 2 ^ 32 →
  le32 (pre ++ enc32 n ++ post) (Z.of_nat (length pre)) d = Done n d.
Proof.
  change (2 ^ 32) with 4294967296. intros Hn. unfold le32, enc32. cbn [app].
  erewrite bind_done by by apply src_at_mid. rewrite (snoc_app pre).
  erewrite bind_done by (apply src_at_mid; rewrite length_app; simpl; lia).
  rewrite (snoc_app (pre ++ [_])).
  erewrite bind_done by (apply src_at_mid; rewrite !length_app; simpl; lia).
  rewrite (snoc_app ((pre ++ [_]) ++ [_])).
  erewrite bind_done by (apply src_at_mid; rewrite !length_app; simpl; lia).
  unfold mret, M_ret. f_equal.
  rewrite (lor_shift _ _ 8), (lor_shift _ _ 16), (lor_shift _ _ 24);
    change (2 ^ 8) with 256; change (2 ^ 16) with 65536; change (2 ^ 24) with 16777216;
    [|lia|Z.div_mod_to_equations; lia|lia|Z.div_mod_to_equations; lia|lia|Z.div_mod_to_equations; lia].
  rewrite wrap_small; change (2 ^ 32) with 4294967296; Z.div_mod_to_equations; lia.
Qed.

Lemma length_run_part out p : (length out ≤ length (run_part out p))%nat.
Proof. destruct p; simpl; [rewrite length_app; lia|apply length_run_block]. Qed.

Lemma length_run_parts ps : ∀ out, (length out ≤ length (foldl run_part out ps))%nat.
Proof.
  induction ps as [|p ps IH]; intros out; simpl; [lia|].
  etrans; [apply (length_run_part out p)|apply IH].
Qed.

Lemma enc_block_pos b : (1 ≤ length (enc_block b))%nat.
Proof. unfold enc_block, enc_tail. rewrite length_app. simpl. lia. Qed.

(** A stored block size that is not the end mark; bit 31 is the raw flag. *)
Lemma size_flag n : 0 ≤ n < 2 ^ 31 →
  Z.land n 0x80000000 = 0 ∧ Z.land (2 ^ 31 + n) 0x80000000 = 2 ^ 31 ∧
  Z.land (2 ^ 31 + n) 0x7FFFFFFF = n.
Proof.
  intros Hn. change 0x80000000 with (2 ^ 31). change 0x7FFFFFFF with (Z.ones 31).
  rewrite Z.land_ones by lia.
  assert (Z.land n (2 ^ 31) = 0) as E.
  { apply Z.bits_inj'. intros i Hi. rewrite Z.land_spec, Z.bits_0, Z.pow2_bits_eqb by lia.
    destruct (Z.eqb_spec 31 i) as [<-|]; [|apply andb_false_r].
    rewrite <-(Z.mod_small n (2 ^ 31)) by done. by rewrite Z.mod_pow2_bits_high by lia. }
  split_and!; [done| |].
  - rewrite Z.add_comm, (Z.add_nocarry_lor _ _ E), Z.land_lor_distr_l, E, Z.land_diag. done.
  - rewrite <-(Z.mul_1_l (2 ^ 31)) at 1. rewrite Z.add_comm, Z_mod_plus_full. by apply Z.mod_small.
Qed.

Lemma length_enc32 n : length (enc32 n) = 4%nat.
Proof. done. Qed.

(** One round of the loop over the blocks of a frame. *)
Section Round.
Context (flg : Z) (c x pre out rest : list Z) (fuel : nat).
Context (checksum : length c = checksum_size flg).
Context (buffer : Z.of_nat (length out + length rest) < 2 ^ 31).

Definition round (p : part) (out' : list Z) : Prop :=
  let src := pre ++ (enc_part p ++ c) ++ x in
  lz4_blocks_from src (S fuel) flg (Z.of_nat (length pre)) (Z.of_nat (length out))
    (Z.of_nat (length src)) (Z.of_nat (length out + length rest)) (out ++ rest)
  = lz4_blocks_from src fuel flg (Z.of_nat (length (pre ++ enc_part p ++ c)))
      (Z.of_nat (length out')) (Z.of_nat (length src))
      (Z.of_nat (length out + length rest)) (out' ++ drop (length out' - length out) rest).

Lemma skip_checksum ip :
  (if nz (Z.land flg 16) then ip + 4 else ip) = ip + Z.of_nat (length c).
Proof. rewrite checksum. unfold checksum_size. destruct (nz _); lia. Qed.

Lemma raw_round l :
  Z.of_nat (length l) < 2 ^ 31 → (length l ≤ length rest)%nat → round (Raw l) (out ++ l).
Proof.
  intros Hok Hlen. unfold round. cbn [enc_part lz4_blocks_from].
  set (n := 2 ^ 31 + Z.of_nat (length l)). set (src := pre ++ _ ++ x).
  assert (src = (pre ++ enc32 n) ++ l ++ c ++ x) as Es by (subst src; by rewrite <-!app_assoc).
  assert (length src = length pre + 4 + length l + length c + length x)%nat as El
    by (rewrite Es, !length_app; simpl; lia).
  rewrite (proj2 (Z.leb_gt _ _)), (proj2 (Z.ltb_ge _ _)) by lia.
  destruct (size_flag (Z.of_nat (length l))) as (_ & F1 & F2); [lia|]. fold n in F1, F2.
  rewrite (bind_done _ _ _ n (out ++ rest))
    by (rewrite Es, <-app_assoc; apply le32_spec; subst n; change (2 ^ 32) with 4294967296; lia).
  rewrite (proj2 (Z.eqb_neq _ _)), F1, F2 by lia. change (nz (2 ^ 31)) with true. cbv iota.
  rewrite (proj2 (Z.ltb_ge _ _)), (proj2 (Z.ltb_ge _ _)) by lia. cbn [orb].
  rewrite Nat2Z.id.
  replace (Z.of_nat (length pre) + 4) with (Z.of_nat (length (pre ++ enc32 n)))
    by (rewrite length_app, length_enc32; lia).
  rewrite (bind_done _ _ _ tt ((out ++ l) ++ drop (length l) rest))
    by (rewrite Es; by apply copy_source).
  rewrite skip_checksum, !length_app, length_enc32.
  replace (length out + length l - length out)%nat with (length l) by lia. f_equal; lia.
Qed.

Lemma packed_round b :
  seqs_ok out (seqs b) → Z.of_nat (length (enc_block b)) < 2 ^ 31 →
  (length (run_block out b) ≤ length out + length rest)%nat → round (Packed b) (run_block out b).
Proof.
  intros Hok Hsz Hlen. unfold round. cbn [enc_part lz4_blocks_from].
  set (n := Z.of_nat (length (enc_block b))) in *. set (src := pre ++ _ ++ x).
  assert (src = (pre ++ enc32 n) ++ enc_block b ++ c ++ x) as Es by (subst src; by rewrite <-!app_assoc).
  assert (length src = length pre + 4 + length (enc_block b) + length c + length x)%nat as El
    by (rewrite Es, !length_app; simpl; lia).
  pose proof (enc_block_pos b).
  rewrite (proj2 (Z.leb_gt _ _)), (proj2 (Z.ltb_ge _ _)) by lia.
  destruct (size_flag n) as (F0 & _ & _); [lia|].
  rewrite (bind_done _ _ _ n (out ++ rest))
    by (rewrite Es, <-app_assoc; apply le32_spec; change (2 ^ 32) with 4294967296; lia).
  rewrite (proj2 (Z.eqb_neq _ _)), F0 by lia. change (nz 0) with false. cbv iota.
  rewrite (proj2 (Z.ltb_ge _ _)) by lia.
  replace (Z.of_nat (length pre) + 4) with (Z.of_nat (length (pre ++ enc32 n)))
    by (rewrite length_app, length_enc32; lia).
  rewrite (bind_done _ _ _ (Z.of_nat (length (run_block out b)))
    (run_block out b ++ drop (length (run_block out b) - length out) rest)).
  - rewrite (proj2 (Z.ltb_ge _ _)) by lia. rewrite skip_checksum, !length_app, length_enc32. f_equal; lia.
  - rewrite Es. apply decompress_spec; [done..|].
    change (2 ^ 31) with 2147483648 in buffer. change (2 ^ 62) with 4611686018427387904. lia.
Qed.

Lemma part_round p :
  part_ok out p → (length (run_part out p) ≤ length out + length rest)%nat →
  round p (run_part out p).
Proof.
  destruct p as [l|b]; cbn [part_ok run_part].
  - rewrite length_app. intros. apply raw_round; [done|lia].
  - intros [? ?] ?. by apply packed_round.
Qed.
End Round.

Lemma blocks_from_spec flg post ps : ∀ fuel pre out rest,
  let src := pre ++ enc_parts ps ++ enc32 0 ++ post in
  let res := foldl run_part out ps.*1 in
  Forall (λ pc, length pc.2 = checksum_size flg) ps → parts_ok out ps.*1 →
  (length res ≤ length out + length rest)%nat →
  Z.of_nat (length out + length rest) < 2 ^ 31 → (length ps < fuel)%nat →
  lz4_blocks_from src fuel flg (Z.of_nat (length pre)) (Z.of_nat (length out))
    (Z.of_nat (length src)) (Z.of_nat (length out + length rest)) (out ++ rest)
  = Done (Z.of_nat (length res)) (res ++ drop (length res - length out) rest).
Proof.
  induction ps as [|[p c] ps IH]; intros [|fuel] pre out rest src res Hc Hok Hlen Hb Hf;
    simpl in Hf; try lia; subst src res.
  - cbn [enc_parts fmap list_fmap concat app foldl lz4_blocks_from].
    rewrite (proj2 (Z.leb_gt _ _)), (proj2 (Z.ltb_ge _ _)) by (rewrite !length_app; simpl; lia).
    rewrite (bind_done _ _ _ 0 (out ++ rest)) by (by apply le32_spec). cbn [Z.eqb].
    unfold mret, M_ret. rewrite sint_small by (change (2 ^ (32 - 1)) with (2 ^ 31); lia).
    by rewrite Nat.sub_diag, drop_0.
  - apply list.Forall_cons in Hc as [Hc Hcs]. cbn [fmap list_fmap fst parts_ok foldl] in *.
    destruct Hok as [Hp Hok].
    pose proof (length_run_part out p). pose proof (length_run_parts ps.*1 (run_part out p)).
    assert (enc_parts ((p, c) :: ps) = (enc_part p ++ c) ++ enc_parts ps) as -> by done.
    rewrite <-(app_assoc (enc_part p ++ c)).
    rewrite (part_round flg c (enc_parts ps ++ enc32 0 ++ post) pre out rest fuel Hc Hb p Hp)
      by (etrans; [done|lia]).
    set (out' := run_part out p) in *.
    specialize (IH fuel (pre ++ enc_part p ++ c) out' (drop (length out' - length out) rest)).
    cbv zeta in IH. rewrite length_drop, drop_drop in IH.
    replace (length out' + (length rest - (length out' - length out)))%nat
      with (length out + length rest)%nat in IH by lia.
    rewrite <-(app_assoc pre) in IH. rewrite IH; [|done|done|done|done|lia].
    do 3 f_equal. lia.
Qed.

Lemma legacy_from_spec bs : ∀ fuel pre out rest,
  let src := pre ++ concat ((λ b, enc_part (Packed b)) <$> bs) in
  let res := foldl run_part out (Packed <$> bs) in
  parts_ok out (Packed <$> bs) → (length res ≤ length out + length rest)%nat →
  Z.of_nat (length out + length rest) < 2 ^ 31 → (length bs ≤ fuel)%nat →
  lz4_legacy_from src fuel (Z.of_nat (length pre)) (Z.of_nat (length out))
    (Z.of_nat (length src)) (Z.of_nat (length out + length rest)) (out ++ rest)
  = Done (Z.of_nat (length res)) (res ++ drop (length res - length out) rest).
Proof.
  induction bs as [|b bs IH]; intros fuel pre out rest src res Hok Hlen Hb Hf; subst src res.
  - cbn [fmap list_fmap concat foldl]. rewrite app_nil_r. destruct fuel; cbn [lz4_legacy_from];
      rewrite Z.leb_refl; unfold mret, M_ret;
      rewrite sint_small by (change (2 ^ (32 - 1)) with (2 ^ 31); lia);
      by rewrite Nat.sub_diag, drop_0.
  - destruct fuel as [|fuel]; [simpl in Hf; lia|]. cbn [length] in Hf.
    cbn [fmap list_fmap concat foldl run_part parts_ok part_ok enc_part] in *.
    destruct Hok as [[Hseq Hsz] Hok]. set (n := Z.of_nat (length (enc_block b))) in *.
    set (more := concat _) in *. set (src := pre ++ _).
    assert (src = (pre ++ enc32 n) ++ enc_block b ++ more) as Es by (subst src; by rewrite <-!app_assoc).
    assert (length src = length pre + 4 + length (enc_block b) + length more)%nat as El
      by (rewrite Es, !length_app; simpl; lia).
    pose proof (enc_block_pos b). pose proof (length_run_block out b) as Hge.
    pose proof (length_run_parts (Packed <$> bs) (run_block out b)) as Hge'.
    set (out' := run_block out b) in *. cbn [lz4_legacy_from].
    rewrite (proj2 (Z.leb_gt _ _)), (proj2 (Z.ltb_ge _ _)) by lia.
    rewrite (bind_done _ _ _ n (out ++ rest))
      by (rewrite Es, <-app_assoc; apply le32_spec; change (2 ^ 32) with 4294967296; lia).
    rewrite (proj2 (Z.eqb_neq _ _)), (proj2 (Z.ltb_ge _ _)) by lia.
    replace (Z.of_nat (length pre) + 4) with (Z.of_nat (length (pre ++ enc32 n)))
      by (rewrite length_app, length_enc32; lia).
    assert (length out' ≤ length out + length rest)%nat as Hout' by (etrans; [apply Hge'|done]).
    rewrite (bind_done _ _ _ (Z.of_nat (length out')) (out' ++ drop (length out' - length out) rest)).
    2: { rewrite Es. apply decompress_spec; [done..|].
         change (2 ^ 31) with 2147483648 in Hb. change (2 ^ 62) with 4611686018427387904. lia. }
    rewrite (proj2 (Z.ltb_ge _ _)) by lia.
    specialize (IH fuel ((pre ++ enc32 n) ++ enc_block b) out' (drop (length out' - length out) rest)).
    cbv zeta in IH. rewrite length_drop, drop_drop in IH. fold more in IH.
    replace (length out' + (length rest - (length out' - length out)))%nat
      with (length out + length rest)%nat in IH by lia.
    rewrite <-(app_assoc (pre ++ enc32 n)), <-Es in IH.
    replace (Z.of_nat (length (pre ++ enc32 n)) + n)
      with (Z.of_nat (length ((pre ++ enc32 n) ++ enc_block b))) by (rewrite (length_app (pre ++ _)); lia).
    rewrite IH; [|done..|lia]. do 3 f_equal. lia.
Qed.

Lemma length_enc_parts ps : (length ps ≤ length (enc_parts ps))%nat.
Proof.
  induction ps as [|[p c] ps IH]; [done|].
  assert (enc_parts ((p, c) :: ps) = (enc_part p ++ c) ++ enc_parts ps) as -> by done.
  rewrite !length_app. destruct p; simpl; lia.
Qed.

Lemma unframe_spec f post dest :
  let out := foldl run_part [] (f_parts f).*1 in
  frame_ok f → (length out ≤ length dest)%nat → Z.of_nat (length dest) < 2 ^ 31 →
  lz4_unframe (enc_frame f ++ post) (Z.of_nat (length (enc_frame f ++ post)))
    (Z.of_nat (length dest)) dest = Done (Z.of_nat (length out)) (out ++ drop (length out) dest).
Proof.
  intros out (Hh & Hc & Hok) Hlen Hb. unfold lz4_unframe, enc_frame.
  destruct f as [flg bd header ps]; cbn [f_flg f_bd f_header f_parts] in *.
  set (pre := enc32 0x184D2204 ++ flg :: bd :: header).
  assert ((enc32 0x184D2204 ++ flg :: bd :: header ++ enc_parts ps ++ enc32 0) ++ post
    = pre ++ enc_parts ps ++ enc32 0 ++ post) as Es by (subst pre; simpl; by rewrite <-!app_assoc).
  rewrite Es. set (src := pre ++ _) in *.
  assert (length pre = 6 + length header)%nat as Hpre by (subst pre; rewrite length_app; simpl; lia).
  assert (length src = length pre + length (enc_parts ps) + 4 + length post)%nat as El
    by (subst src; rewrite !length_app; simpl; lia).
  rewrite (proj2 (Z.ltb_ge _ _)) by (unfold header_size in Hh; lia).
  rewrite (bind_done _ _ _ 0x184D2204 dest) by (by apply (le32_spec [])).
  cbn [Z.eqb Pos.eqb negb].
  rewrite (bind_done _ _ _ flg dest)
    by (subst src pre; rewrite <-!app_assoc; by apply (src_at_mid (enc32 0x184D2204))).
  rewrite (bind_done _ _ _ bd dest)
    by (subst src pre; rewrite <-!app_assoc; by apply (src_at_mid (enc32 0x184D2204 ++ [flg]))).
  pose proof (length_enc_parts ps).
  pose proof (blocks_from_spec flg post ps (Z.to_nat (Z.of_nat (length src))) pre [] dest
    Hc Hok Hlen Hb) as E. fold src out in E. cbn [length app] in E. rewrite Nat.sub_0_r in E.
  cbn [Nat.add Z.of_nat] in E. rewrite <-E by lia. f_equal.
  rewrite Hpre, Hh. unfold header_size. destruct (nz _), (nz _); lia.
Qed.

Lemma legacy_spec bs dest :
  let out := foldl run_part [] (Packed <$> bs) in
  bs ≠ [] → parts_ok [] (Packed <$> bs) → (length out ≤ length dest)%nat →
  Z.of_nat (length dest) < 2 ^ 31 →
  lz4_unframe (enc_legacy bs) (Z.of_nat (length (enc_legacy bs))) (Z.of_nat (length dest)) dest
  = Done (Z.of_nat (length out)) (out ++ drop (length out) dest).
Proof.
  intros out Hne Hok Hlen Hb. unfold lz4_unframe, enc_legacy.
  set (body := concat _).
  assert (length bs + 4 ≤ length body)%nat as Hl.
  { subst body. clear -Hne. destruct bs as [|b bs]; [done|]. clear Hne.
    cbn [fmap list_fmap concat]. rewrite length_app. unfold enc_part at 1.
    rewrite length_app, length_enc32. pose proof (enc_block_pos b).
    assert (length bs ≤ length (concat ((λ b, enc_part (Packed b)) <$> bs)))%nat; [|simpl in *; lia].
    clear. induction bs as [|b bs IH]; [done|].
    cbn [fmap list_fmap concat length]. rewrite length_app. unfold enc_part at 1.
    rewrite length_app, length_enc32. simpl in *. lia. }
  rewrite (proj2 (Z.ltb_ge _ _)) by (rewrite length_app, length_enc32; destruct bs; simpl in *; [done|lia]).
  rewrite (bind_done _ _ _ 0x184C2102 dest) by (by apply (le32_spec [])). cbn [Z.eqb Pos.eqb].
  pose proof (legacy_from_spec bs (Z.to_nat (Z.of_nat (length (enc32 0x184C2102 ++ body))))
    (enc32 0x184C2102) [] dest Hok Hlen Hb) as E. fold body out in E. cbn [length app] in E.
  rewrite Nat.sub_0_r in E. apply E. rewrite Nat2Z.id. simpl. lia.
Qed.

(** C18: [lz4_unframe] decodes every well-formed LZ4 frame to its meaning.  For
    a frame with any header options, raw and packed parts and block checksums,
    and for a legacy frame, whose output fits the destination buffer, the call
    returns the number of bytes of the output, the buffer starts with the
    output, and the rest of the buffer is untouched.  The meaning of a part is
    given by sequences of literals and (possibly overlapping) matches, which
    may reach back into earlier parts. *)
Theorem lz4_unframe_correct dest : Z.of_nat (length dest) < 2 ^ 31 →
  (∀ f post, let out := foldl run_part [] (f_parts f).*1 in
     frame_ok f → (length out ≤ length dest)%nat →
     lz4_unframe (enc_frame f ++ post) (Z.of_nat (length (enc_frame f ++ post)))
       (Z.of_nat (length dest)) dest
     = Done (Z.of_nat (length out)) (out ++ drop (length out) dest)) ∧
  (∀ bs, let out := foldl run_part [] (Packed <$> bs) in
     bs ≠ [] → parts_ok [] (Packed <$> bs) → (length out ≤ length dest)%nat →
     lz4_unframe (enc_legacy bs) (Z.of_nat (length (enc_legacy bs))) (Z.of_nat (length dest)) dest
     = Done (Z.of_nat (length out)) (out ++ drop (length out) dest)).
Proof. intros Hd. split; intros; [by apply unframe_spec|by apply legacy_spec]. Qed.

(** Three literals, an overlapping match, a raw part, and a buffer of 24 bytes. *)
Definition example_frame : frame :=
  mkFrame 16 0x40 [7]
    [(Packed (mkBlock [mkSeq [97; 98; 99] 2 6] [33]), [1; 2; 3; 4]); (Raw [10; 11], [5; 6; 7; 8])].

Lemma lz4_unframe_correct_witness :
  lz4_unframe (enc_frame example_frame ++ []) (Z.of_nat (length (enc_frame example_frame ++ []))) 24
    (replicate 24 0)
  = Done 12 ([97; 98; 99; 98; 99; 98; 99; 98; 99; 33; 10; 11] ++ replicate 12 0).
Proof.
  apply (proj1 (lz4_unframe_correct (replicate 24 0) ltac:(vm_compute; reflexivity))
           example_frame []); [|vm_compute; lia].
  split_and!; [done|repeat constructor|].
  cbn. split_and!; try done; vm_compute; lia.
Defined.
