(* ===== verification/Ring.v ===== *)
(** * Ring buffers

    The terminal, the pipes, the keyboard and the input device keep elements in
    an array with two indices.  [ring n buf head tail q]: in an array of [n] cells
    the elements waiting between [tail] and [head], in order, are [q]; one cell stays free. *)

From S2P Require Import Prelude.

Record ring {A : Type} (n : Z) (buf : list A) (head tail : Z) (q : list A) : Prop := {
  ring_len : Z.of_nat (length buf) = n;
  ring_tail : 0 ≤ tail < n;
  ring_head : head = (tail + Z.of_nat (length q)) `mod` n;
  ring_room : Z.of_nat (length q) < n;
  ring_cells i x : q !! i = Some x → buf !! Z.to_nat ((tail + Z.of_nat i) `mod` n) = Some x }.

Section Ring.
Context {A : Type} (n : Z) (buf : list A) (head tail : Z) (q : list A) (R : ring n buf head tail q).

Lemma ring_head_range : 0 ≤ head < n.
Proof. pose proof R as [_ ? -> _ _]. apply Z.mod_pos_bound. lia. Qed.

(** The cells at distance [i] and [j] from the tail are different. *)
Lemma cells_apart i j : 0 ≤ i < n → 0 ≤ j < n →
  (tail + i) `mod` n = (tail + j) `mod` n → i = j.
Proof.
  intros Hi Hj E. pose proof (ring_tail _ _ _ _ _ R).
  assert ((i - j) `mod` n = 0) as Ed.
  { replace (i - j) with ((tail + i) - (tail + j)) by lia. by rewrite Zminus_mod, E, Z.sub_diag. }
  apply Z.mod_divide in Ed as [k Hk]; [|lia].
  destruct (Z.lt_trichotomy k 0) as [?|[->|?]]; nia.
Qed.

Lemma ring_empty : head = tail ↔ q = [].
Proof.
  pose proof R as [_ Ht Hh Hr _]. split.
  - intros E. apply nil_length_inv. cut (Z.of_nat (length q) = 0); [lia|].
    apply cells_apart; [lia|lia|]. rewrite <-Hh, Z.add_0_r, E. by rewrite Z.mod_small.
  - intros E. rewrite Hh, E, Z.add_0_r. by apply Z.mod_small.
Qed.

Lemma ring_full : (head + 1) `mod` n = tail ↔ Z.of_nat (length q) = n - 1.
Proof.
  pose proof R as [_ Ht Hh Hr _].
  assert ((head + 1) `mod` n = (tail + (Z.of_nat (length q) + 1)) `mod` n) as E.
  { rewrite Hh, Zplus_mod_idemp_l. f_equal. lia. }
  rewrite E. split.
  - intros Et. destruct (decide (Z.of_nat (length q) + 1 < n)) as [Hlt|]; [|lia].
    cut (Z.of_nat (length q) + 1 = 0); [lia|]. apply cells_apart; [lia|lia|].
    rewrite Et, Z.add_0_r. by rewrite Z.mod_small.
  - intros ->. replace (tail + (n - 1 + 1)) with (tail + 1 * n) by lia.
    rewrite Z_mod_plus_full. by apply Z.mod_small.
Qed.

Lemma ring_put c : Z.of_nat (length q) < n - 1 →
  ring n (<[Z.to_nat head := c]> buf) ((head + 1) `mod` n) tail (q ++ [c]).
Proof.
  intros Hroom. pose proof ring_head_range. pose proof R as [Hl Ht Hh Hr Hc].
  split; [by rewrite length_insert|done| |rewrite length_app; simpl; lia|].
  - rewrite Hh, Zplus_mod_idemp_l, length_app. f_equal. simpl. lia.
  - intros i x Hi. destruct (decide (i = length q)) as [->|Hne].
    + rewrite list_lookup_middle in Hi by done. injection Hi as ->. rewrite <-Hh.
      apply list_lookup_insert_eq. lia.
    + assert (i < length q)%nat as Hlt.
      { apply lookup_lt_Some in Hi. rewrite length_app in Hi. simpl in Hi. lia. }
      rewrite lookup_app_l in Hi by done. rewrite list_lookup_insert_ne; [by apply Hc|].
      intros E. cut (Z.of_nat i = Z.of_nat (length q)); [lia|].
      apply cells_apart; [lia|lia|]. rewrite <-Hh.
      pose proof (Z.mod_pos_bound (tail + Z.of_nat i) n). lia.
Qed.
End Ring.

Lemma ring_get {A : Type} n (buf : list A) head tail c q : ring n buf head tail (c :: q) →
  buf !! Z.to_nat tail = Some c ∧ ring n buf head ((tail + 1) `mod` n) q.
Proof.
  intros [Hl Ht Hh Hr Hc]. cbn [length] in *. split.
  - specialize (Hc 0%nat c eq_refl). by rewrite Z.add_0_r, Z.mod_small in Hc.
  - split; [done|apply Z.mod_pos_bound; lia| |lia|].
    + rewrite Hh, Zplus_mod_idemp_l. f_equal. lia.
    + intros i x Hi. rewrite Zplus_mod_idemp_l, <-(Hc (S i) x Hi). do 3 f_equal. lia.
Qed.

Lemma ring_new {A : Type} n (x : A) : 0 < n → ring n (replicate (Z.to_nat n) x) 0 0 [].
Proof.
  intros Hn. split; [rewrite length_replicate; lia|lia| |simpl; lia|done].
  cbn [length]. by rewrite Z.mod_small by lia.
Qed.

(** What fits of [l] behind [q]. *)
Definition enqueue (n : Z) (q l : list Z) : list Z := q ++ take (Z.to_nat (n - 1) - length q) l.

Lemma enqueue_cons n q c l : Z.of_nat (length q) < n - 1 →
  enqueue n q (c :: l) = enqueue n (q ++ [c]) l.
Proof.
  intros Hr. unfold enqueue. rewrite length_app. cbn [length].
  replace (Z.to_nat (n - 1) - length q)%nat with (S (Z.to_nat (n - 1) - (length q + 1)))%nat by lia.
  cbn [take]. by rewrite <-app_assoc.
Qed.

Lemma enqueue_full n q l : Z.of_nat (length q) = n - 1 → enqueue n q l = q.
Proof. intros E. unfold enqueue. rewrite <-E, Nat2Z.id, Nat.sub_diag. apply app_nil_r. Qed.

Lemma enqueue_nil n q : enqueue n q [] = q.
Proof. unfold enqueue. rewrite take_nil. apply app_nil_r. Qed.
