(* ===== verification/Tty.v ===== *)
(** * Terminals

    Models [kernel/tty.c]: the line discipline that turns typed characters into
    lines, and the reads that block until a line is there.  The state is the
    kernel state of the file Proc, the array [ttys], and a log of the characters
    sent to the screen and to the debug port.  A character is a [Z]. *)

From S2P Require Import Prelude Proc Ring.

Definition MAX_TTYS : Z := 2.
Definition TTY_BUF_SIZE : Z := 4096.
Definition ICRNL : Z := 256.
Definition OPOST : Z := 1.
Definition ONLCR : Z := 4.
Definition ISIG : Z := 1.
Definition ICANON : Z := 2.
Definition ECHO : Z := 8.

Record termios := mkTermios {
  c_iflag : Z; c_oflag : Z; c_cflag : Z; c_lflag : Z; c_line : Z; c_cc : list Z }.
#[global] Instance termios_eta : Etable termios := λ t,
  mkTermios (c_iflag t) (c_oflag t) (c_cflag t) (c_lflag t) (c_line t) (c_cc t).

Record tty := mkTty {
  cooked_buf : list Z; cooked_head : Z; cooked_tail : Z;
  line_buf : list Z; line_len : Z; tios : termios; waiting_reader : Z }.
#[global] Instance tty_eta : Etable tty := λ t,
  mkTty (cooked_buf t) (cooked_head t) (cooked_tail t) (line_buf t) (line_len t)
    (tios t) (waiting_reader t).

(** Calls of [terminal_putchar], [terminal_backspace] and [debug_putcharn]. *)
Inductive con := Screen (c : Z) | Erase | Debug (c : Z).

Section State.
Context `{!KEnv}.

Record tst := mkTst { ks : kst; ttys : list tty; active_tty : Z; console : list con }.
#[global] Instance tst_eta : Etable tst := λ s,
  mkTst (ks s) (ttys s) (active_tty s) (console s).

Definition on_kernel {A} (c : M kst A) : M tst A := λ s,
  match c (ks s) with
  | Done a k => Done a (s <| ks := k |>)
  | Panicked k => Panicked (s <| ks := k |>)
  | Fault => Fault
  end.

(** [ttys[id]] *)
Definition tty_load (id : Z) : M tst tty := λ s,
  if id <? 0 then Fault else from_opt (ttys s !! Z.to_nat id) s.
Definition tty_upd (id : Z) (f : tty → tty) : M tst unit :=
  t ← tty_load id;
  modify (λ s, s <| ttys := <[Z.to_nat id := f t]> (ttys s) |>).

Definition emit (l : list con) : M tst unit := modify (λ s, s <| console := console s ++ l |>).

Definition flag (x bit : Z) : bool := nz (Z.land x bit).

(** ** The cooked buffer *)

Definition tty_buf_empty (t : tty) : bool := cooked_head t =? cooked_tail t.
Definition tty_buf_full (t : tty) : bool :=
  (cooked_head t + 1) `mod` TTY_BUF_SIZE =? cooked_tail t.
Definition tty_buf_put (c : Z) (t : tty) : tty :=
  if tty_buf_full t then t else
  t <| cooked_buf := <[Z.to_nat (cooked_head t) := c]> (cooked_buf t) |>
    <| cooked_head := (cooked_head t + 1) `mod` TTY_BUF_SIZE |>.
Definition tty_buf_get (id : Z) : M tst Z :=
  t ← tty_load id;
  c ← from_opt (cooked_buf t !! Z.to_nat (cooked_tail t));
  tty_upd id (λ t, t <| cooked_tail := (cooked_tail t + 1) `mod` TTY_BUF_SIZE |>) ;;
  mret c.

Definition tty_wake_reader (id : Z) : M tst unit :=
  t ← tty_load id;
  let proc := waiting_reader t in
  if proc =? 0 then mret tt else
  tty_upd id (λ t, t <| waiting_reader := 0 |>) ;;
  q ← on_kernel (load proc);
  if negb (bool_decide (state q = TASK_WAITING)) then mret tt else
  if negb (bool_decide (wait_reason q = WAIT_TTY)) then mret tt else
  if negb (bool_decide (wait_channel q = ChanTty id)) then mret tt else
  on_kernel (upd proc (λ q,
    q <| wait_reason := WAIT_NONE |> <| wait_channel := ChanNull |>
      <| wait_pid := -1 |> <| state := TASK_READY |>)).

(** ** Reading

    A blocking read of an empty terminal marks the process as waiting and halts
    until the next interrupt, [Blocked]; afterwards it goes on with the bytes it
    already has, which is a call of [tty_read_from] with these bytes. *)

Inductive read_result := Finished (got : list Z) | Blocked (got : list Z).

Definition tty_block (id cur : Z) : M tst unit :=
  tty_upd id (λ t, t <| waiting_reader := cur |>) ;;
  on_kernel (upd cur (λ q,
    q <| wait_reason := WAIT_TTY |> <| wait_channel := ChanTty id |>
      <| wait_pid := -1 |> <| state := TASK_WAITING |>)).

(** [n] is [count - got]. *)
Fixpoint tty_read_from (n : nat) (id : Z) (nonblock : bool) (got : list Z) : M tst read_result :=
  match n with
  | O => mret (Finished got)
  | S n =>
      t ← tty_load id;
      if tty_buf_empty t then
        if nonblock then mret (Finished got) else
        cur ← on_kernel (gets current_process);
        if cur =? 0 then mret (Finished got) else
        tty_block id cur ;; mret (Blocked got)
      else
        c ← tty_buf_get id;
        if flag (c_lflag (tios t)) ICANON && (c =? 10) then mret (Finished (got ++ [c]))
        else tty_read_from n id nonblock (got ++ [c])
  end.

Definition tty_read (id count : Z) (nonblock : bool) : M tst read_result :=
  tty_read_from (Z.to_nat count) id nonblock [].

(** ** Writing *)

Definition tty_write_char (t : tty) (c : Z) : list con :=
  (if flag (c_oflag (tios t)) OPOST && flag (c_oflag (tios t)) ONLCR && (c =? 10)
   then [Screen 13; Debug 13] else []) ++ [Screen c; Debug c].
Definition tty_write (id : Z) (buf : list Z) : M tst Z :=
  t ← tty_load id;
  emit (concat (tty_write_char t <$> buf)) ;;
  mret (Z.of_nat (length buf)).

(** ** Typed characters *)

(** The loop that moves a finished line to the cooked buffer; it stops when the
    buffer is full. *)
Fixpoint cook_line (l : list Z) (t : tty) : tty :=
  match l with
  | [] => t
  | c :: l =>
      if (cooked_head t + 1) `mod` TTY_BUF_SIZE =? cooked_tail t then t else
      cook_line l (t <| cooked_buf := <[Z.to_nat (cooked_head t) := c]> (cooked_buf t) |>
                     <| cooked_head := (cooked_head t + 1) `mod` TTY_BUF_SIZE |>)
  end.

Definition input_raw (id c : Z) (t : tty) : M tst unit :=
  whenM (flag (c_lflag (tios t)) ECHO)
    (emit (if c =? 127 then [Erase] else [Screen c; Debug c])) ;;
  tty_upd id (λ t,
    let next := (cooked_head t + 1) `mod` TTY_BUF_SIZE in
    if negb (next =? cooked_tail t)
    then t <| cooked_buf := <[Z.to_nat (cooked_head t) := c]> (cooked_buf t) |>
           <| cooked_head := next |>
    else t) ;;
  tty_wake_reader id.

Definition input_erase (id : Z) (t : tty) : M tst unit :=
  whenM (0 <? line_len t)
    (tty_upd id (λ t, t <| line_len := line_len t - 1 |>) ;;
     whenM (flag (c_lflag (tios t)) ECHO) (emit [Erase])).

Definition input_line (id c : Z) (t : tty) : M tst unit :=
  whenM (flag (c_lflag (tios t)) ECHO) (emit [Screen c; Debug c]) ;;
  if TTY_BUF_SIZE - 1 <=? line_len t then tty_upd id (λ t, t <| line_len := 0 |>) else
  tty_upd id (λ t, t <| line_buf := <[Z.to_nat (line_len t) := c]> (line_buf t) |>
                     <| line_len := line_len t + 1 |>) ;;
  if negb (c =? 10) then mret tt else
  tty_upd id (λ t, (cook_line (take (Z.to_nat (line_len t)) (line_buf t)) t) <| line_len := 0 |>) ;;
  tty_wake_reader id.

Definition tty_input_char (id c : Z) : M tst unit :=
  t ← tty_load id;
  let c := if flag (c_iflag (tios t)) ICRNL && (c =? 13) then 10 else c in
  if negb (flag (c_lflag (tios t)) ICANON) then input_raw id c t else
  if c =? 127 then input_erase id t else input_line id c t.

(** ** Settings

    [tty_ioctl] on the active terminal: the request, and what [argp] points to. *)

Inductive ioctl_arg := ArgNull | ArgTermios (t : termios) | ArgWords (w : list Z).

Definition tty_ioctl (request : Z) (argp : ioctl_arg) : M tst (Z * ioctl_arg) :=
  id ← gets active_tty;
  match argp with
  | ArgNull => mret (-1, argp)
  | _ =>
      if request =? 0x5401 then t ← tty_load id; mret (0, ArgTermios (tios t))
      else if (request =? 0x5402) || (request =? 0x5403) || (request =? 0x5404) then
        match argp with
        | ArgTermios x => tty_upd id (λ t, t <| tios := x |>) ;; mret (0, argp)
        | _ => fault
        end
      else if request =? 0x5413 then mret (0, ArgWords [25; 80; 0; 0])
      else mret (-1, argp)
  end.

(** The part of [tty_init] that sets up [ttys]. *)
Definition new_tty : tty :=
  mkTty (replicate (Z.to_nat TTY_BUF_SIZE) 0) 0 0 (replicate (Z.to_nat TTY_BUF_SIZE) 0) 0
    (mkTermios ICRNL (Z.lor OPOST ONLCR) 0 (Z.lor (Z.lor ICANON ECHO) ISIG) 0 (replicate 32 0)) 0.
Definition tty_init : M tst unit :=
  modify (λ s, s <| ttys := replicate (Z.to_nat MAX_TTYS) new_tty |>).
End State.

(** ** What a terminal promises

    To a reader a terminal is a queue of bytes and an unfinished line. *)

Record tty_rep (t : tty) (q l : list Z) : Prop := {
  rep_ring : ring TTY_BUF_SIZE (cooked_buf t) (cooked_head t) (cooked_tail t) q;
  rep_buf : Z.of_nat (length (line_buf t)) = TTY_BUF_SIZE;
  rep_len : line_len t = Z.of_nat (length l);
  rep_line : take (length l) (line_buf t) = l;
  rep_max : Z.of_nat (length l) < TTY_BUF_SIZE }.

(** The effect of a character on queue and line, what is echoed, and whether a
    reader is woken. *)
Record effect := mkEffect { e_queue : list Z; e_line : list Z; e_echo : list con; e_wake : bool }.

Definition echoed (t : tty) (l : list con) : list con :=
  if flag (c_lflag (tios t)) ECHO then l else [].

Definition discipline (t : tty) (c : Z) (q l : list Z) : effect :=
  let c := if flag (c_iflag (tios t)) ICRNL && (c =? 13) then 10 else c in
  if negb (flag (c_lflag (tios t)) ICANON) then
    mkEffect (enqueue TTY_BUF_SIZE q [c]) l
      (echoed t (if c =? 127 then [Erase] else [Screen c; Debug c])) true
  else if c =? 127 then
    mkEffect q (take (length l - 1) l) (if decide (l = []) then [] else echoed t [Erase]) false
  else
    let out := echoed t [Screen c; Debug c] in
    if decide (Z.of_nat (length l) = TTY_BUF_SIZE - 1) then mkEffect q [] out false
    else if c =? 10 then mkEffect (enqueue TTY_BUF_SIZE q (l ++ [c])) [] out true
    else mkEffect q (l ++ [c]) out false.

(** What a read takes from the queue: the bytes, what is left, and whether the
    queue ran dry. *)
Fixpoint dequeue (canon : bool) (n : nat) (q : list Z) : list Z * list Z * bool :=
  match n, q with
  | O, _ => ([], q, false)
  | S n, [] => ([], [], true)
  | S n, c :: q =>
      if canon && (c =? 10) then ([c], q, false)
      else let '(got, q', dry) := dequeue canon n q in (c :: got, q', dry)
  end.

Section Props.
Context `{!KEnv}.
Implicit Types (s : tst) (t : tty) (k : kst).

(** The process [p] after a wake-up by terminal [id]. *)
Definition wake_up (id p : Z) (k : kst) : kst :=
  match procs k !! p with
  | Some q =>
      if bool_decide (state q = TASK_WAITING) && bool_decide (wait_reason q = WAIT_TTY) &&
         bool_decide (wait_channel q = ChanTty id)
      then k <| procs := <[p := q <| wait_reason := WAIT_NONE |> <| wait_channel := ChanNull |>
                                  <| wait_pid := -1 |> <| state := TASK_READY |>]> (procs k) |>
      else k
  | None => k
  end.

(** [waiting_reader] is [NULL] or a process. *)
Definition reader_ok (k : kst) (p : Z) : Prop := p = 0 ∨ is_Some (procs k !! p).

(** The state in which terminal [id] is [t], the kernel state is [k], and [out]
    has been written since [s]. *)
Definition put_tty (s : tst) (id : Z) (t : tty) (k : kst) (out : list con) : tst :=
  mkTst k (<[Z.to_nat id := t]> (ttys s)) (active_tty s) (console s ++ out).

Section One.
Context (s : tst) (id : Z) (id_ok : 0 ≤ id) (id_tty : (Z.to_nat id < length (ttys s))%nat).

Lemma put_tty_load t k out : tty_load id (put_tty s id t k out) = Done t (put_tty s id t k out).
Proof.
  unfold tty_load, from_opt. rewrite (proj2 (Z.ltb_ge _ _)) by done. cbn.
  by rewrite list_lookup_insert_eq.
Qed.

Lemma put_tty_upd t k out f :
  tty_upd id f (put_tty s id t k out) = Done tt (put_tty s id (f t) k out).
Proof.
  unfold tty_upd. rewrite (bind_done _ _ _ _ _ (put_tty_load t k out)).
  unfold modify, put_tty. cbn. by rewrite list_insert_insert_eq.
Qed.

Lemma put_tty_emit t k out o :
  emit o (put_tty s id t k out) = Done tt (put_tty s id t k (out ++ o)).
Proof. unfold emit, modify, put_tty. cbn. by rewrite app_assoc. Qed.

Lemma put_tty_emit_when b t k out o :
  whenM b (emit o) (put_tty s id t k out) = Done tt (put_tty s id t k (out ++ if b then o else [])).
Proof. destruct b; [apply put_tty_emit|]. by rewrite app_nil_r. Qed.

Lemma put_tty_upd_proc p f q t k out : p ≠ 0 → procs k !! p = Some q →
  on_kernel (upd p f) (put_tty s id t k out)
  = Done tt (put_tty s id t (k <| procs := <[p := f q]> (procs k) |>) out).
Proof.
  intros Hp Hq. unfold on_kernel, upd, mbind, M_bind, load, store. cbn.
  destruct (Z.eqb_spec p 0); [done|]. by rewrite !Hq.
Qed.

Lemma put_tty_wake t k out : reader_ok k (waiting_reader t) →
  tty_wake_reader id (put_tty s id t k out)
  = Done tt (put_tty s id (t <| waiting_reader := 0 |>)
      (if waiting_reader t =? 0 then k else wake_up id (waiting_reader t) k) out).
Proof.
  intros Hr. unfold tty_wake_reader. rewrite (bind_done _ _ _ _ _ (put_tty_load t k out)).
  destruct (Z.eqb_spec (waiting_reader t) 0) as [E|Hne].
  - unfold mret, M_ret. do 2 f_equal. destruct t. cbn in *. by subst.
  - destruct Hr as [|[q Hq]]; [done|]. rewrite (bind_done _ _ _ _ _ (put_tty_upd _ _ _ _)).
    rewrite (bind_done _ _ _ q (put_tty s id (t <| waiting_reader := 0 |>) k out)).
    2: { unfold on_kernel, load. cbn. rewrite (proj2 (Z.eqb_neq _ _)) by done. by rewrite Hq. }
    unfold wake_up. rewrite Hq. do 3 (case_bool_decide; cbn [negb andb]; [|done]).
    by rewrite (put_tty_upd_proc _ _ q).
Qed.

(** Effects on queue and line. *)

Lemma rep_put t q l c : tty_rep t q l → Z.of_nat (length q) < TTY_BUF_SIZE - 1 →
  tty_rep (t <| cooked_buf := <[Z.to_nat (cooked_head t) := c]> (cooked_buf t) |>
             <| cooked_head := (cooked_head t + 1) `mod` TTY_BUF_SIZE |>) (q ++ [c]) l.
Proof. intros [R ? ? ? ?] Hq. split; [by apply ring_put|done..]. Qed.

Lemma rep_cook t0 l0 : ∀ t q l, tty_rep t q l0 → tios t = tios t0 → waiting_reader t = waiting_reader t0 →
  let t' := cook_line l t in
  tty_rep t' (enqueue TTY_BUF_SIZE q l) l0 ∧ tios t' = tios t0 ∧ waiting_reader t' = waiting_reader t0.
Proof.
  intros t q l. revert t q. induction l as [|c l IH]; intros t q HR Ht Hw; cbn [cook_line].
  - by rewrite enqueue_nil.
  - pose proof (rep_ring _ _ _ HR) as R. pose proof (ring_room _ _ _ _ _ R).
    destruct (Z.eqb_spec ((cooked_head t + 1) `mod` TTY_BUF_SIZE) (cooked_tail t)) as [E|E].
    + rewrite enqueue_full; [done|]. by apply (ring_full _ _ _ _ _ R).
    + rewrite (ring_full _ _ _ _ _ R) in E.
      assert (Z.of_nat (length q) < TTY_BUF_SIZE - 1) as Hq by lia.
      rewrite (enqueue_cons _ _ _ _ Hq). by apply IH; [apply rep_put|..].
Qed.

Lemma rep_set_line t q l l' buf :
  tty_rep t q l → Z.of_nat (length buf) = TTY_BUF_SIZE → take (length l') buf = l' →
  Z.of_nat (length l') < TTY_BUF_SIZE →
  tty_rep (t <| line_buf := buf |> <| line_len := Z.of_nat (length l') |>) q l'.
Proof. by intros [R ? ? ? ?]. Qed.

Lemma rep_line_len t q l n : tty_rep t q l → (n ≤ length l)%nat →
  tty_rep (t <| line_len := Z.of_nat n |>) q (take n l).
Proof.
  intros [R Hb Hl Ht Hm] Hn. split; cbn; rewrite ?length_take; try done; [lia| |lia].
  replace (n `min` length l)%nat with n by lia. rewrite <-(f_equal (take n) Ht), take_take. f_equal. lia.
Qed.

Lemma rep_push t q l c : tty_rep t q l → Z.of_nat (length l) < TTY_BUF_SIZE - 1 →
  tty_rep (t <| line_buf := <[Z.to_nat (line_len t) := c]> (line_buf t) |>
             <| line_len := line_len t + 1 |>) q (l ++ [c]).
Proof.
  intros [R Hb Hl Ht Hm] Hn. unfold TTY_BUF_SIZE in *.
  split; cbn; rewrite ?length_insert, ?length_app; cbn [length]; try done;
    [lia| |unfold TTY_BUF_SIZE; lia].
  rewrite Hl, Nat2Z.id. replace (length l + 1)%nat with (S (length l)) by lia.
  rewrite (take_S_r _ _ c) by (apply list_lookup_insert_eq; lia).
  by rewrite take_insert_ge, Ht by done.
Qed.

(** ** Typing *)

Definition input_post (t : tty) (k : kst) (e : effect) (r : outcome tst unit) : Prop :=
  ∃ t', r = Done tt (put_tty s id t'
      (if e_wake e && negb (waiting_reader t =? 0) then wake_up id (waiting_reader t) k else k)
      (e_echo e)) ∧
    tty_rep t' (e_queue e) (e_line e) ∧ tios t' = tios t ∧
    waiting_reader t' = if e_wake e then 0 else waiting_reader t.

Lemma input_raw_post t q l k c : tty_rep t q l → reader_ok k (waiting_reader t) →
  input_post t k (mkEffect (enqueue TTY_BUF_SIZE q [c]) l
    (echoed t (if c =? 127 then [Erase] else [Screen c; Debug c])) true)
    (input_raw id c t (put_tty s id t k [])).
Proof.
  intros HR Hr. unfold input_raw.
  rewrite (bind_done _ _ _ _ _ (put_tty_emit_when _ _ _ _ _)).
  destruct (rep_cook t l t q [c] HR eq_refl eq_refl) as (HR' & Ht' & Hw').
  set (t1 := cook_line [c] t) in *. set (out := [] ++ _).
  rewrite (bind_done _ _ _ tt (put_tty s id t1 k out))
    by (rewrite put_tty_upd; subst t1; cbn [cook_line]; cbv zeta;
        by destruct ((cooked_head t + 1) `mod` TTY_BUF_SIZE =? cooked_tail t)).
  rewrite put_tty_wake by (by rewrite Hw').
  eexists. split; [rewrite Hw'; cbn; by destruct (_ =? 0)|].
  split_and!; [by destruct HR'|done|done].
Qed.

Lemma input_erase_post t q l k : tty_rep t q l →
  input_post t k (mkEffect q (take (length l - 1) l)
    (if decide (l = []) then [] else echoed t [Erase]) false)
    (input_erase id t (put_tty s id t k [])).
Proof.
  intros HR. unfold input_erase. rewrite (rep_len _ _ _ HR).
  destruct (decide (l = [])) as [->|Hne].
  - exists t. split_and!; [done..|by destruct HR|done|done].
  - assert (0 < length l)%nat by (destruct l; simpl; [done|lia]).
    rewrite (proj2 (Z.ltb_lt _ _)) by lia. cbn [whenM].
    rewrite (bind_done _ _ _ _ _ (put_tty_upd _ _ _ _)), put_tty_emit_when.
    eexists. split; [done|]. cbn [e_queue e_line e_wake].
    split_and!; [|done|done]. rewrite (rep_len _ _ _ HR).
    replace (Z.of_nat (length l) - 1) with (Z.of_nat (length l - 1)) by lia.
    apply rep_line_len; [done|lia].
Qed.

(** A finished line goes to the queue. *)
Lemma rep_flush t q l : tty_rep t q l →
  let t' := (cook_line (take (Z.to_nat (line_len t)) (line_buf t)) t) <| line_len := 0 |> in
  tty_rep t' (enqueue TTY_BUF_SIZE q l) [] ∧ tios t' = tios t ∧ waiting_reader t' = waiting_reader t.
Proof.
  intros HR t'. subst t'. rewrite (rep_len _ _ _ HR), Nat2Z.id, (rep_line _ _ _ HR).
  destruct (rep_cook t l t q l HR eq_refl eq_refl) as (HR' & Ht & Hw).
  split_and!; [|done|done]. apply (rep_line_len _ _ _ 0 HR'). lia.
Qed.

Lemma input_line_post t q l k c : tty_rep t q l → reader_ok k (waiting_reader t) →
  input_post t k
    (let out := echoed t [Screen c; Debug c] in
     if decide (Z.of_nat (length l) = TTY_BUF_SIZE - 1) then mkEffect q [] out false
     else if c =? 10 then mkEffect (enqueue TTY_BUF_SIZE q (l ++ [c])) [] out true
     else mkEffect q (l ++ [c]) out false)
    (input_line id c t (put_tty s id t k [])).
Proof.
  intros HR Hr. pose proof (rep_max _ _ _ HR) as Hm. unfold input_line.
  rewrite (bind_done _ _ _ _ _ (put_tty_emit_when _ _ _ _ _)), (rep_len _ _ _ HR).
  destruct (decide (Z.of_nat (length l) = TTY_BUF_SIZE - 1)) as [E|Hne].
  - rewrite (proj2 (Z.leb_le _ _)), put_tty_upd by lia.
    eexists. split; [done|]. split_and!; [|done|done].
    apply (rep_line_len _ _ _ 0 HR). lia.
  - rewrite (proj2 (Z.leb_gt _ _)), (bind_done _ _ _ _ _ (put_tty_upd _ _ _ _)) by lia.
    pose proof (rep_push t q l c HR ltac:(lia)) as HR1.
    set (t1 := t <| line_buf := _ |> <| line_len := _ |>) in *.
    destruct (Z.eqb_spec c 10) as [->|Hc]; cbn [negb].
    + rewrite (bind_done _ _ _ _ _ (put_tty_upd _ _ _ _)).
      destruct (rep_flush t1 q _ HR1) as (HR2 & Ht2 & Hw2).
      set (t2 := (cook_line _ t1) <| line_len := 0 |>) in *.
      rewrite put_tty_wake by (by rewrite Hw2).
      eexists. split; [rewrite Hw2; cbn; by destruct (_ =? 0)|].
      split_and!; [by destruct HR2|exact Ht2|done].
    + eexists. split; [done|]. by split_and!.
Qed.

Lemma input_char_post t q l k c : tty_rep t q l → reader_ok k (waiting_reader t) →
  input_post t k (discipline t c q l) (tty_input_char id c (put_tty s id t k [])).
Proof.
  intros HR Hr. unfold tty_input_char, discipline.
  rewrite (bind_done _ _ _ _ _ (put_tty_load t k [])).
  destruct (negb _); [by apply input_raw_post|].
  destruct (_ =? 127); [by apply input_erase_post|by apply input_line_post].
Qed.

(** ** Reading *)

Lemma buf_get t q l k c : tty_rep t (c :: q) l →
  let t' := t <| cooked_tail := (cooked_tail t + 1) `mod` TTY_BUF_SIZE |> in
  tty_buf_get id (put_tty s id t k []) = Done c (put_tty s id t' k []) ∧ tty_rep t' q l.
Proof.
  intros [R ? ? ? ?] t'. destruct (ring_get _ _ _ _ _ _ R) as [Hc R'].
  split; [|by split]. unfold tty_buf_get. rewrite (bind_done _ _ _ _ _ (put_tty_load t k [])).
  rewrite (bind_done _ _ _ c (put_tty s id t k [])) by (by rewrite Hc).
  by rewrite (bind_done _ _ _ _ _ (put_tty_upd _ _ _ _)).
Qed.

(** The reader of terminal [id] waits. *)
Definition wait_on (cur : Z) (k : kst) : kst :=
  match procs k !! cur with
  | Some q => k <| procs := <[cur := q <| wait_reason := WAIT_TTY |> <| wait_channel := ChanTty id |>
                                     <| wait_pid := -1 |> <| state := TASK_WAITING |>]> (procs k) |>
  | None => k
  end.

Lemma block_eq cur t k out : cur ≠ 0 → is_Some (procs k !! cur) →
  tty_block id cur (put_tty s id t k out)
  = Done tt (put_tty s id (t <| waiting_reader := cur |>) (wait_on cur k) out).
Proof.
  intros Hne [q Hq]. unfold tty_block, wait_on. rewrite Hq.
  rewrite (bind_done _ _ _ _ _ (put_tty_upd _ _ _ _)). by rewrite (put_tty_upd_proc _ _ q).
Qed.

Definition read_post (t : tty) (k : kst) (q l got : list Z) (n : nat) (nonblock : bool)
    (r : outcome tst read_result) : Prop :=
  let '(more, q', dry) := dequeue (flag (c_lflag (tios t)) ICANON) n q in
  let cur := current_process k in
  let wait := dry && negb nonblock && negb (cur =? 0) in
  ∃ t', r = Done (if wait then Blocked (got ++ more) else Finished (got ++ more))
      (put_tty s id t' (if wait then wait_on cur k else k) []) ∧
    tty_rep t' q' l ∧ tios t' = tios t ∧
    waiting_reader t' = if wait then cur else waiting_reader t.

Lemma read_from_post l k nonblock : reader_ok k (current_process k) →
  ∀ n t q got, tty_rep t q l →
  read_post t k q l got n nonblock (tty_read_from n id nonblock got (put_tty s id t k [])).
Proof.
  intros Hcur. induction n as [|n IH]; intros t q got HR; unfold read_post;
    cbn [dequeue tty_read_from].
  - exists t. rewrite app_nil_r. by split_and!.
  - rewrite (bind_done _ _ _ _ _ (put_tty_load t k [])). unfold tty_buf_empty.
    pose proof (rep_ring _ _ _ HR) as R.
    destruct (Z.eqb_spec (cooked_head t) (cooked_tail t)) as [E|E];
      rewrite (ring_empty _ _ _ _ _ R) in E.
    + subst q. rewrite app_nil_r. destruct nonblock; [exists t; by split_and!|].
      rewrite (bind_done _ _ _ (current_process k) (put_tty s id t k [])) by done. cbn [andb negb].
      destruct (Z.eqb_spec (current_process k) 0) as [E|Hne]; [exists t; by split_and!|].
      destruct Hcur as [|Hq]; [done|]. rewrite (bind_done _ _ _ _ _ (block_eq _ t k [] Hne Hq)).
      eexists. split; [done|]. split_and!; [by destruct HR|done|done].
    + destruct q as [|c q]; [done|].
      destruct (buf_get t q l k c HR) as [Eg HR']. rewrite (bind_done _ _ _ _ _ Eg).
      destruct (_ && (c =? 10)); [eexists; by split_and!|].
      specialize (IH _ q (got ++ [c]) HR'). unfold read_post in IH.
      set (t1 := t <| cooked_tail := _ |>) in *. change (tios t1) with (tios t) in IH.
      change (waiting_reader t1) with (waiting_reader t) in IH.
      destruct (dequeue _ n q) as [[more q'] dry].
      destruct IH as (t' & -> & ? & ? & ?). exists t'. rewrite <-!app_assoc. by split_and!.
Qed.
End One.

Lemma put_tty_self s id t : 0 ≤ id → ttys s !! Z.to_nat id = Some t → s = put_tty s id t (ks s) [].
Proof.
  intros ? Ht. unfold put_tty. rewrite list_insert_id, app_nil_r by done. by destruct s.
Qed.

(** C19: the line discipline.  A terminal is a queue of cooked bytes and an
    unfinished line, and [tty_input_char] acts on them as [discipline] says: in
    raw mode the character is queued; in canonical mode it is added to the
    line, erases its last character, or ends it, which queues the whole line;
    a carriage return counts as a newline; nothing is overwritten when the
    queue is full; the echo is written; a waiting reader is made ready after
    every character in raw mode (also one for which the queue had no room) and
    after every line in canonical mode, and at no other time.  The other terminals, the settings and the other
    processes are untouched. *)
Theorem tty_input_char_correct s id t q l c :
  0 ≤ id → ttys s !! Z.to_nat id = Some t → tty_rep t q l →
  reader_ok (ks s) (waiting_reader t) →
  let e := discipline t c q l in
  ∃ t', tty_input_char id c s
    = Done tt (put_tty s id t'
        (if e_wake e && negb (waiting_reader t =? 0)
         then wake_up id (waiting_reader t) (ks s) else ks s) (e_echo e)) ∧
    tty_rep t' (e_queue e) (e_line e) ∧ tios t' = tios t ∧
    waiting_reader t' = if e_wake e then 0 else waiting_reader t.
Proof.
  intros Hid Ht HR Hr.
  pose proof (input_char_post s id Hid (lookup_lt_Some _ _ _ Ht) t q l (ks s) c HR Hr) as H'.
  by rewrite <-(put_tty_self s id t Hid Ht) in H'.
Qed.

(** Reading a terminal.  [tty_read] takes bytes from the front of the queue
    until it has [count] of them or, in canonical mode, up to and including a
    newline.  When the queue runs dry a non-blocking read returns what it has;
    a blocking one leaves the current process waiting on this terminal and
    registered as its reader.  The line being typed is untouched. *)
Theorem tty_read_correct s id t q l count nonblock :
  0 ≤ id → ttys s !! Z.to_nat id = Some t → tty_rep t q l →
  reader_ok (ks s) (current_process (ks s)) →
  let '(got, q', dry) := dequeue (flag (c_lflag (tios t)) ICANON) (Z.to_nat count) q in
  let cur := current_process (ks s) in
  let wait := dry && negb nonblock && negb (cur =? 0) in
  ∃ t', tty_read id count nonblock s
    = Done (if wait then Blocked got else Finished got)
        (put_tty s id t' (if wait then wait_on id cur (ks s) else ks s) []) ∧
    tty_rep t' q' l ∧ tios t' = tios t ∧
    waiting_reader t' = if wait then cur else waiting_reader t.
Proof.
  intros Hid Ht HR Hr. unfold tty_read.
  pose proof (read_from_post s id Hid (lookup_lt_Some _ _ _ Ht) l (ks s) nonblock Hr
    (Z.to_nat count) t q [] HR) as H'.
  by rewrite <-(put_tty_self s id t Hid Ht) in H'.
Qed.
End Props.
