(* ===== verification/Keyboard.v ===== *)
(** * The keyboard

    Models [kernel/keyboard.c]: scan codes become characters, which go to a
    buffer of their own and to the active terminal.  Calls of
    [evdev_push_event] are logged. *)

From S2P Require Import Prelude Proc Ring Tty.

Definition KB_BUF_SIZE : Z := 256.

Definition ascii : list Z :=
  [0; 27; 49; 50; 51; 52; 53; 54; 55; 56; 57; 48; 45; 61; 127; 9;
   113; 119; 101; 114; 116; 121; 117; 105; 111; 112; 91; 93; 13; 0; 97; 115;
   100; 102; 103; 104; 106; 107; 108; 59; 39; 96; 0; 92; 122; 120; 99; 118;
   98; 110; 109; 44; 46; 47; 0; 42; 0; 32; 0; 0; 0; 0; 0; 0;
   0; 0; 0; 0; 0; 0; 0; 0; 0; 0; 0; 0; 0; 0; 0; 0;
   0; 0; 0; 0; 0; 0; 0; 0; 0; 0; 0; 0; 0; 0; 0; 0;
   0; 0; 0; 0; 0; 0; 0; 0; 0; 0; 0; 0; 0; 0; 0; 0;
   0; 0; 0; 0; 0; 0; 0; 0; 0; 0; 0; 0; 0; 0; 0; 0].
Definition ascii_shifted : list Z :=
  [0; 0; 33; 64; 35; 36; 37; 94; 38; 42; 40; 41; 95; 43; 0; 0;
   81; 87; 69; 82; 84; 89; 85; 73; 79; 80; 123; 125; 0; 0; 65; 83;
   68; 70; 71; 72; 74; 75; 76; 58; 34; 126; 0; 124; 90; 88; 67; 86;
   66; 78; 77; 60; 62; 63; 0; 0; 0; 0; 0; 0; 0; 0; 0; 0;
   0; 0; 0; 0; 0; 0; 0; 0; 0; 0; 0; 0; 0; 0; 0; 0;
   0; 0; 0; 0; 0; 0; 0; 0; 0; 0; 0; 0; 0; 0; 0; 0;
   0; 0; 0; 0; 0; 0; 0; 0; 0; 0; 0; 0; 0; 0; 0; 0;
   0; 0; 0; 0; 0; 0; 0; 0; 0; 0; 0; 0; 0; 0; 0; 0].

(** Type, code and value of a [struct input_event]. *)
Record input_event := mkEvent { ev_type : Z; ev_code : Z; ev_value : Z }.

Section Keyboard.
Context `{!KEnv}.

Record kbst := mkKbst {
  ts : tst; kb_buffer : list Z; kb_head : Z; kb_tail : Z;
  shift_pressed : bool; ctrl_pressed : bool; extended : bool;
  kbd_event_node : Z; events : list input_event }.
#[global] Instance kbst_eta : Etable kbst := λ s,
  mkKbst (ts s) (kb_buffer s) (kb_head s) (kb_tail s) (shift_pressed s) (ctrl_pressed s)
    (extended s) (kbd_event_node s) (events s).

Definition on_tty {A} (c : M tst A) : M kbst A := λ s,
  match c (ts s) with
  | Done a t => Done a (s <| ts := t |>)
  | Panicked t => Panicked (s <| ts := t |>)
  | Fault => Fault
  end.

(** [tty_input_char(active_tty, c)] *)
Definition type_char (c : Z) : M kbst unit :=
  s ← get_state;
  on_tty (tty_input_char (active_tty (ts s)) c).

Definition push_event (e : input_event) : M kbst unit :=
  modify (λ s, if nz (kbd_event_node s) then s <| events := events s ++ [e] |> else s).

(** The last letter of the escape sequence of an arrow key. *)
Definition arrow (scancode : Z) : option Z :=
  if scancode =? 0x48 then Some 65 else if scancode =? 0x50 then Some 66
  else if scancode =? 0x4D then Some 67 else if scancode =? 0x4B then Some 68 else None.

(** The character of a key, without and with control; 0 for none. *)
Definition key_char (shift : bool) (scancode : Z) : Z :=
  if scancode <? 127 then
    let up := default 0 (ascii_shifted !! Z.to_nat scancode) in
    if shift && nz up then up else default 0 (ascii !! Z.to_nat scancode)
  else 0.
Definition ctrl_char (c : Z) : Z :=
  if (97 <=? c) && (c <=? 122) then c - 97 + 1
  else if (65 <=? c) && (c <=? 90) then c - 65 + 1 else c.

Definition keyboard_handle_scancode (scancode : Z) : M kbst unit :=
  push_event (mkEvent 1 (Z.land scancode 0x7F) (if nz (Z.land scancode 0x80) then 0 else 1)) ;;
  push_event (mkEvent 0 0 0) ;;
  if (scancode =? 0x2A) || (scancode =? 0x36) then modify (λ s, s <| shift_pressed := true |>) else
  if (scancode =? 0xAA) || (scancode =? 0xB6) then modify (λ s, s <| shift_pressed := false |>) else
  if scancode =? 0x1D then modify (λ s, s <| ctrl_pressed := true |>) else
  if scancode =? 0x9D then modify (λ s, s <| ctrl_pressed := false |>) else
  if scancode =? 0xE0 then modify (λ s, s <| extended := true |>) else
  if nz (Z.land scancode 0x80) then mret tt else
  s ← get_state;
  if extended s then
    modify (λ s, s <| extended := false |>) ;;
    match arrow scancode with
    | Some c => type_char 27 ;; type_char 91 ;; type_char c
    | None => mret tt
    end
  else
  let c := key_char (shift_pressed s) scancode in
  if c =? 0 then mret tt else
  let c := if ctrl_pressed s then ctrl_char c else c in
  modify (λ s, s <| kb_buffer := <[Z.to_nat (kb_head s) := c]> (kb_buffer s) |>
                 <| kb_head := (kb_head s + 1) `mod` KB_BUF_SIZE |>) ;;
  type_char c.

Fixpoint keyboard_read_from (n : nat) : M kbst (list Z) :=
  match n with
  | O => mret []
  | S n =>
      s ← get_state;
      if kb_head s =? kb_tail s then mret [] else
      c ← from_opt (kb_buffer s !! Z.to_nat (kb_tail s));
      modify (λ s, s <| kb_tail := (kb_tail s + 1) `mod` KB_BUF_SIZE |>) ;;
      l ← keyboard_read_from n;
      mret (c :: l)
  end.
Definition keyboard_read (count : Z) : M kbst (list Z) := keyboard_read_from (Z.to_nat count).

(** ** Properties *)

(** A read takes the oldest characters. *)
Lemma keyboard_read_post n : ∀ s q,
  ring KB_BUF_SIZE (kb_buffer s) (kb_head s) (kb_tail s) q →
  ∃ t, let s' := s <| kb_tail := t |> in
    keyboard_read_from n s = Done (take n q) s' ∧
    ring KB_BUF_SIZE (kb_buffer s') (kb_head s') (kb_tail s') (drop n q).
Proof.
  induction n as [|n IH]; intros s q R; cbn [keyboard_read_from].
  - exists (kb_tail s). rewrite drop_0. split; [by destruct s|done].
  - rewrite (bind_done _ _ _ s s) by done. pose proof (ring_empty _ _ _ _ _ R) as He.
    destruct q as [|c q].
    + rewrite (proj2 (Z.eqb_eq _ _)) by (by apply He). exists (kb_tail s). split; [by destruct s|done].
    + rewrite (proj2 (Z.eqb_neq _ _)) by (intros E; by apply He in E).
      destruct (ring_get _ _ _ _ _ _ R) as [Hc R'].
      rewrite (bind_done _ _ _ c s) by (unfold from_opt; by rewrite Hc).
      rewrite (bind_done _ _ _ tt (s <| kb_tail := (kb_tail s + 1) `mod` KB_BUF_SIZE |>)) by done.
      generalize dependent ((kb_tail s + 1) `mod` KB_BUF_SIZE). intros t1 R'.
      destruct (IH (s <| kb_tail := t1 |>) q) as (t & E & R''); [by destruct s|].
      exists t. rewrite (bind_done _ _ _ _ _ E). by split.
Qed.

(** A character is kept as long as the buffer has room; the code does not check. *)
Lemma keyboard_put s q c :
  ring KB_BUF_SIZE (kb_buffer s) (kb_head s) (kb_tail s) q →
  Z.of_nat (length q) < KB_BUF_SIZE - 1 →
  ring KB_BUF_SIZE (<[Z.to_nat (kb_head s) := c]> (kb_buffer s))
    ((kb_head s + 1) `mod` KB_BUF_SIZE) (kb_tail s) (q ++ [c]).
Proof. intros R. by apply ring_put. Qed.
End Keyboard.
