(* ===== verification/Evdev.v ===== *)
(** * The input device

    Models [kernel/vfs/devfs/evdev/main.c]: the events of the keyboard wait in
    a ring of [EV_BUFFER_SIZE] cells; when it is full the oldest one is dropped.
    [None] is an access outside the buffer. *)

From S2P Require Import Prelude Proc Ring Tty Keyboard.

Definition EV_BUFFER_SIZE : Z := 64.
(** [sizeof(struct input_event)]. *)
Definition EVENT_SIZE : Z := 24.

Record evdev_state := mkEvdev { ev_buffer : list input_event; ev_head : Z; ev_tail : Z }.
#[global] Instance evdev_eta : Etable evdev_state := λ s,
  mkEvdev (ev_buffer s) (ev_head s) (ev_tail s).

(** The zeroed state of [evdev_init]. *)
Definition evdev_state0 : evdev_state :=
  mkEvdev (replicate (Z.to_nat EV_BUFFER_SIZE) (mkEvent 0 0 0)) 0 0.

Definition evdev_push_event (s : evdev_state) (ev : input_event) : option evdev_state :=
  if bool_decide (0 ≤ ev_head s < Z.of_nat (length (ev_buffer s))) then
    let s := s <| ev_buffer := <[Z.to_nat (ev_head s) := ev]> (ev_buffer s) |> in
    let s := s <| ev_head := (ev_head s + 1) `mod` EV_BUFFER_SIZE |> in
    Some (if ev_head s =? ev_tail s
          then s <| ev_tail := (ev_tail s + 1) `mod` EV_BUFFER_SIZE |> else s)
  else None.

(** The loop of [devfs_evdev_read], [n] events from the end of the request. *)
Fixpoint evdev_loop (n : nat) (s : evdev_state) : option (list input_event * evdev_state) :=
  match n with
  | O => Some ([], s)
  | S n =>
    if ev_head s =? ev_tail s then Some ([], s)
    else
      ev ← (if bool_decide (0 ≤ ev_tail s) then ev_buffer s !! Z.to_nat (ev_tail s) else None);
      '(evs, s) ← evdev_loop n (s <| ev_tail := (ev_tail s + 1) `mod` EV_BUFFER_SIZE |>);
      Some (ev :: evs, s)
  end.

(** The events stored in the caller's buffer and the returned count of bytes. *)
Definition devfs_evdev_read (size : Z) (s : evdev_state)
    : option (list input_event * Z * evdev_state) :=
  '(evs, s) ← evdev_loop (Z.to_nat (size / EVENT_SIZE)) s;
  Some (evs, i32 (Z.of_nat (length evs) * EVENT_SIZE), s).

(** ** The queue it implements *)

(** [waiting s q]: the events to be read are [q], oldest first. *)
Definition waiting (s : evdev_state) (q : list input_event) : Prop :=
  ring EV_BUFFER_SIZE (ev_buffer s) (ev_head s) (ev_tail s) q.

(** The last [n] elements. *)
Definition latest {A} (n : nat) (l : list A) : list A := drop (length l - n) l.

Lemma waiting_new : waiting evdev_state0 [].
Proof. by apply ring_new. Qed.

Lemma push_waiting s q ev : waiting s q →
  ∃ s', evdev_push_event s ev = Some s' ∧ waiting s' (latest 63 (q ++ [ev])).
Proof.
  intros R. pose proof (ring_head_range _ _ _ _ _ R) as Hh.
  pose proof (ring_len _ _ _ _ _ R) as Hl. pose proof (ring_room _ _ _ _ _ R) as Hr.
  pose proof (ring_full _ _ _ _ _ R) as Hf. assert (EV_BUFFER_SIZE = 64) by done.
  unfold evdev_push_event. rewrite bool_decide_eq_true_2 by lia. eexists. split; [done|].
  cbn. unfold latest, waiting. rewrite length_app. cbn [length].
  destruct (Z.eqb_spec ((ev_head s + 1) `mod` EV_BUFFER_SIZE) (ev_tail s)) as [E|E].
  - apply Hf in E. destruct q as [|c q]; [done|]. cbn [length] in *.
    apply ring_get in R as [_ R].
    replace (S (length q) + 1 - 63)%nat with 1%nat by lia. apply ring_put; [done|lia].
  - rewrite Hf in E. replace (length q + 1 - 63)%nat with 0%nat by lia.
    apply ring_put; [done|lia].
Qed.

Lemma loop_waiting n s q : waiting s q →
  ∃ s', evdev_loop n s = Some (take n q, s') ∧ waiting s' (drop n q).
Proof.
  revert s q. induction n as [|n IH]; intros s q R; [by exists s|].
  cbn [evdev_loop]. pose proof (ring_empty _ _ _ _ _ R) as He.
  destruct q as [|c q].
  - rewrite (proj2 He eq_refl), Z.eqb_refl. by exists s.
  - rewrite (proj2 (Z.eqb_neq _ _)) by (rewrite He; done).
    pose proof (ring_tail _ _ _ _ _ R). rewrite bool_decide_eq_true_2 by lia.
    destruct (ring_get _ _ _ _ _ _ R) as [Hc R']. rewrite Hc. cbn [mbind option_bind].
    destruct (IH (s <| ev_tail := (ev_tail s + 1) `mod` EV_BUFFER_SIZE |>) q)
      as (s' & E & ?); [by destruct s|]. exists s'. rewrite E. done.
Qed.

Lemma latest_snoc {A} n (l : list A) x : (0 < n)%nat →
  latest n (latest n l ++ [x]) = latest n (l ++ [x]).
Proof.
  intros Hn. unfold latest. rewrite !length_app, length_drop. cbn [length].
  rewrite <-(drop_app_le l [x] (length l - n)) by lia. rewrite drop_drop. f_equal. lia.
Qed.

Lemma push_all evs s q : waiting s (latest 63 q) →
  ∃ s', foldl (λ o ev, s ← o; evdev_push_event s ev) (Some s) evs = Some s' ∧
        waiting s' (latest 63 (q ++ evs)).
Proof.
  revert s q. induction evs as [|ev evs IH]; intros s q R.
  - exists s. by rewrite app_nil_r.
  - destruct (push_waiting s _ ev R) as (s1 & E & R1). cbn. rewrite E.
    rewrite latest_snoc in R1 by lia. destruct (IH s1 (q ++ [ev]) R1) as (s' & ? & ?).
    exists s'. by rewrite <-app_assoc in *.
Qed.

(** Whatever events are pushed into a new device, none of them outside the
    buffer, a read of [size] bytes returns the first [size / 24] of the last 63
    of them, oldest first, and counts their bytes; the rest of the 63 stays and
    is what the next read finds. *)
Theorem evdev_correct (evs : list input_event) (size : Z) :
  let kept := latest 63 evs in
  let n := Z.to_nat (size / EVENT_SIZE) in
  ∃ s s', foldl (λ o ev, s ← o; evdev_push_event s ev) (Some evdev_state0) evs = Some s ∧
    devfs_evdev_read size s =
      Some (take n kept, Z.of_nat (length (take n kept)) * 24, s') ∧
    waiting s' (drop n kept).
Proof.
  intros kept n. destruct (push_all evs evdev_state0 [] waiting_new) as (s & E & R).
  destruct (loop_waiting n s _ R) as (s' & El & R'). exists s, s'. split; [done|].
  split; [|done]. unfold devfs_evdev_read. fold n. rewrite El. cbn [mbind option_bind].
  do 3 f_equal. apply sint_small; [lia|]. unfold EVENT_SIZE, kept, latest. cbn [app].
  rewrite length_take, length_drop. lia.
Qed.
