(* ===== verification/Vfs.v ===== *)
(** * The tree of files

    Models [lib/libc/fs/vfs.c] and [include/vfs.h]: nodes on the heap linked by
    [parent], [children] and [next], path lookup, and the registration of the
    files of the initial file system.  The drivers behind mount points are a
    parameter.  The theorem is the round trip and its frame: a registered path is
    found, and the lookups of other paths stay as they were. *)

From S2P Require Import Prelude Proc Cstring.

Definition VFS_FILE : Z := 1.
Definition VFS_DIRECTORY : Z := 2.
Definition VFS_DEVICE : Z := 3.
Definition VFS_SYMLINK : Z := 4.

(** [sizeof(vfs_node_t)] *)
Definition sizeof_vfs_node : Z := 216.

(** [link_target] is [NULL] or a string; [n_ops] is the address of the table of
    driver functions. *)
Record vnode := mkVnode {
  n_name : list Z; n_type : Z; n_mode : Z; n_uid : Z; n_gid : Z;
  n_data : Z; n_size : Z; n_ops : Z; is_mountpoint : bool; internal_data : Z;
  link_target : option (list Z);
  n_parent : Z; n_children : Z; n_next : Z }.
#[global] Instance vnode_eta : Etable vnode := λ n,
  mkVnode (n_name n) (n_type n) (n_mode n) (n_uid n) (n_gid n) (n_data n) (n_size n)
    (n_ops n) (is_mountpoint n) (internal_data n) (link_target n) (n_parent n)
    (n_children n) (n_next n).

Section State.
Context `{!KEnv}.

Record vst := mkVst { nodes : gmap Z vnode; root_node : Z; venv : kenv }.
#[global] Instance vst_eta : Etable vst := λ s, mkVst (nodes s) (root_node s) (venv s).
End State.

(** The tables of driver functions: [ops->find_node], if it is not [NULL].  The
    table [mem_ops] has none. *)
Class Drivers `{!KEnv} := {
  mem_ops : Z;
  ops_find_node : Z → option (Z → list Z → M vst Z);
  mem_ops_find : ops_find_node mem_ops = None }.

Section Code.
Context `{!KEnv} `{!Drivers}.

Definition node_load (p : Z) : M vst vnode := λ s, from_opt (nodes s !! p) s.
Definition node_upd (p : Z) (f : vnode → vnode) : M vst unit :=
  n ← node_load p;
  modify (λ s, s <| nodes := <[p := f n]> (nodes s) |>).

Definition vfs_create_node (name : list Z) (type : Z) : M vst Z := λ s,
  match name with
  | [] => Done 0 s
  | _ =>
      let '(p, e) := kmalloc sizeof_vfs_node (venv s) in
      let s := s <| venv := e |> in
      if p =? 0 then Done 0 s else
      Done p (s <| nodes := <[p := mkVnode (strncpy name 127) type 0 0 0 0 0 mem_ops
                                     false 0 None 0 0 0]> (nodes s) |>)
  end.

Definition vfs_add_child (parent child : Z) : M vst unit :=
  if (parent =? 0) || (child =? 0) then mret tt else
  p ← node_load parent;
  if negb (n_type p =? VFS_DIRECTORY) then mret tt else
  c ← node_load child;
  if nz (n_parent c) then mret tt else
  node_upd child (λ c, c <| n_next := n_children p |>) ;;
  node_upd parent (λ p, p <| n_children := child |>) ;;
  node_upd child (λ c, c <| n_parent := parent |>).

(** The loops along [next]; [fuel] is the number of nodes. *)
Fixpoint unlink_after (fuel : nat) (prev child : Z) : M vst unit :=
  match fuel with
  | O => fault
  | S fuel =>
      n ← node_load prev;
      if n_next n =? 0 then mret tt else
      if n_next n =? child then
        c ← node_load child;
        node_upd prev (λ n, n <| n_next := n_next c |>) ;;
        node_upd child (λ c, c <| n_parent := 0 |> <| n_next := 0 |>)
      else unlink_after fuel (n_next n) child
  end.
Definition vfs_remove_child (parent child : Z) : M vst unit :=
  if (parent =? 0) || (child =? 0) then mret tt else
  p ← node_load parent;
  if negb (n_type p =? VFS_DIRECTORY) then mret tt else
  if n_children p =? 0 then mret tt else
  if n_children p =? child then
    c ← node_load child;
    node_upd parent (λ p, p <| n_children := n_next c |>) ;;
    node_upd child (λ c, c <| n_parent := 0 |> <| n_next := 0 |>)
  else
    k ← gets (λ s, size (nodes s));
    unlink_after k (n_children p) child.

Fixpoint find_from (fuel : nat) (curr : Z) (name : list Z) : M vst Z :=
  if curr =? 0 then mret 0 else
  match fuel with
  | O => fault
  | S fuel =>
      n ← node_load curr;
      if strcmp (n_name n) name =? 0 then mret curr else find_from fuel (n_next n) name
  end.
Definition vfs_find_child (parent : Z) (name : list Z) : M vst Z :=
  if parent =? 0 then mret 0 else
  p ← node_load parent;
  if negb (n_type p =? VFS_DIRECTORY) then mret 0 else
  k ← gets (λ s, size (nodes s));
  find_from k (n_children p) name.

(** ** Paths *)

Definition slash : Z := 47.

(** [while (ptr[0] == slash) ptr++] *)
Fixpoint skip_slashes (ptr : list Z) : list Z :=
  match ptr with c :: ptr' => if c =? slash then skip_slashes ptr' else ptr | [] => [] end.
(** [while (ptr[0] && ptr[0] != slash) ptr++]: the part passed, and the rest. *)
Fixpoint span_part (ptr : list Z) : list Z * list Z :=
  match ptr with
  | [] => ([], [])
  | c :: ptr' =>
      if c =? slash then ([], ptr) else let '(part, rest) := span_part ptr' in (c :: part, rest)
  end.

(** [curr->is_mountpoint && curr->ops && curr->ops->find_node] *)
Definition driver_find (n : vnode) : option (Z → list Z → M vst Z) :=
  if is_mountpoint n && nz (n_ops n) then ops_find_node (n_ops n) else None.

(** One step down from [curr]; [0] when there is no such child. *)
Definition step_down (curr : Z) (part : list Z) : M vst Z :=
  n ← node_load curr;
  disk_node ← (match driver_find n with Some f => f curr part | None => mret 0 end);
  if nz disk_node then vfs_add_child curr disk_node ;; mret disk_node
  else vfs_find_child curr part.

(** The loops over the parts of a path; a round takes at least one character. *)
Fixpoint path_from (fuel : nat) (curr : Z) (ptr : list Z) : M vst Z :=
  match skip_slashes ptr with
  | [] => mret curr
  | ptr =>
      match fuel with
      | O => fault
      | S fuel =>
          let '(part, rest) := span_part ptr in
          next ← step_down curr (take 127 part);
          if next =? 0 then mret 0 else path_from fuel next rest
      end
  end.
Definition vfs_path_to_node (path : list Z) : M vst Z :=
  if negb (char_at path =? slash) then mret 0 else
  root ← gets root_node;
  match tail path with
  | [] => mret root
  | ptr => path_from (length ptr) root ptr
  end.

Fixpoint register_from (fuel : nat) (curr : Z) (ptr : list Z) (data size : Z) : M vst unit :=
  match skip_slashes ptr with
  | [] => mret tt
  | ptr =>
      match fuel with
      | O => fault
      | S fuel =>
          let '(part, rest) := span_part ptr in
          let part := take 127 part in
          match rest with
          | [] =>
              file ← vfs_create_node part VFS_FILE;
              whenM (nz file)
                (node_upd file (λ n, n <| n_data := data |> <| n_size := size |>) ;;
                 vfs_add_child curr file)
          | _ =>
              dir ← vfs_find_child curr part;
              dir ← (if nz dir then mret dir else
                     dir ← vfs_create_node part VFS_DIRECTORY;
                     vfs_add_child curr dir ;;
                     mret dir);
              register_from fuel dir rest data size
          end
      end
  end.
Definition vfs_register_file (path : list Z) (data size : Z) : M vst unit :=
  root ← gets root_node;
  if (root =? 0) || negb (char_at path =? slash) then mret tt else
  register_from (length path) root (tail path) data size.
End Code.

(** ** Trees

    [K] gives each node the list of its children, [r] a rank that grows from a
    node to its children, so that there are no cycles. *)

Fixpoint chain (m : gmap Z vnode) (first : Z) (l : list Z) : Prop :=
  match l with
  | [] => first = 0
  | c :: l => first = c ∧ c ≠ 0 ∧ ∃ n, m !! c = Some n ∧ chain m (n_next n) l
  end.

Definition name_of (m : gmap Z vnode) (p : Z) : list Z :=
  match m !! p with Some n => n_name n | None => [] end.
Definition type_of (m : gmap Z vnode) (p : Z) : Z :=
  match m !! p with Some n => n_type n | None => 0 end.

(** The first child with a name. *)
Fixpoint first_named (m : gmap Z vnode) (l : list Z) (x : list Z) : Z :=
  match l with
  | [] => 0
  | c :: l => if decide (name_of m c = x) then c else first_named m l x
  end.

Section Trees.
Context `{!KEnv} `{!KEnvOk} `{!Drivers}.
Implicit Types (s : vst) (m : gmap Z vnode) (K : gmap Z (list Z)) (r : Z → nat).

Record vtree (s : vst) (K : gmap Z (list Z)) (r : Z → nat) : Prop := {
  vt_dom p n : nodes s !! p = Some n → ∃ l, K !! p = Some l ∧ chain (nodes s) (n_children n) l;
  vt_node p l : K !! p = Some l → is_Some (nodes s !! p) ∧ NoDup l;
  vt_kid p l c : K !! p = Some l → c ∈ l →
    (∃ n, nodes s !! c = Some n ∧ n_parent n = p) ∧ (r p < r c)%nat;
  vt_heap p : is_Some (nodes s !! p) → p ≠ 0 ∧ (live (venv s) p ∨ ¬ on_heap p);
  vt_name p n : nodes s !! p = Some n → cstring (n_name n);
  (* no driver is mounted *)
  vt_plain p n : nodes s !! p = Some n → driver_find n = None }.

Definition kids (K : gmap Z (list Z)) (p : Z) : list Z := default [] (K !! p).

(** What [vfs_find_child] and [vfs_path_to_node] look for. *)
Definition child m K (p : Z) (x : list Z) : Z :=
  if decide (type_of m p = VFS_DIRECTORY) then first_named m (kids K p) (take 127 x) else 0.
Fixpoint walk m K (p : Z) (xs : list (list Z)) : Z :=
  match xs with
  | [] => p
  | x :: xs => let c := child m K p x in if decide (c = 0) then 0 else walk m K c xs
  end.

Lemma chain_length m l : NoDup l → (∀ c, c ∈ l → is_Some (m !! c)) → (length l ≤ size m)%nat.
Proof.
  intros Hnd Hin. rewrite <-(size_list_to_set (C := gset Z)) by done. rewrite <-size_dom.
  apply subseteq_size. intros c. rewrite elem_of_list_to_set, elem_of_dom. apply Hin.
Qed.

Lemma find_from_eq s x : cstring x → ∀ l fuel curr,
  chain (nodes s) curr l → (length l ≤ fuel)%nat →
  (∀ c n, c ∈ l → nodes s !! c = Some n → cstring (n_name n)) →
  find_from fuel curr x s = Done (first_named (nodes s) l x) s.
Proof.
  intros Hx. induction l as [|c l IH]; intros fuel curr Hch Hf Hn.
  - cbn in Hch. subst. by destruct fuel.
  - destruct Hch as (-> & Hc & n & Hl & Hch). destruct fuel as [|fuel]; [simpl in Hf; lia|].
    cbn [find_from first_named]. rewrite (proj2 (Z.eqb_neq _ _)) by done.
    rewrite (bind_done _ _ _ n s) by (unfold node_load, from_opt; by rewrite Hl).
    unfold name_of. rewrite Hl.
    assert (cstring (n_name n)) as Hs by (by apply (Hn c); [left|]).
    pose proof (strcmp_eq (n_name n) x Hs Hx) as E.
    destruct (Z.eqb_spec (strcmp (n_name n) x) 0), (decide (n_name n = x)); [done|tauto|tauto|].
    apply IH; [done|simpl in Hf; lia|]. intros. eapply Hn; [by right|done].
Qed.

Lemma find_child_eq s K r p x : vtree s K r → is_Some (nodes s !! p) → cstring x →
  vfs_find_child p (take 127 x) s = Done (child (nodes s) K p x) s.
Proof.
  intros T [n Hn] Hx. destruct (vt_heap _ _ _ T p (mk_is_Some _ _ Hn)) as [Hp _].
  unfold vfs_find_child, child, type_of. rewrite (proj2 (Z.eqb_neq _ _)) by done.
  rewrite (bind_done _ _ _ n s) by (unfold node_load, from_opt; by rewrite Hn). rewrite Hn.
  destruct (Z.eqb_spec (n_type n) VFS_DIRECTORY) as [E|E];
    [rewrite decide_True by done|by rewrite decide_False]. cbn [negb].
  destruct (vt_dom _ _ _ T p n Hn) as (l & HK & Hch). unfold kids. rewrite HK. cbn [default].
  rewrite (bind_done _ _ _ (size (nodes s)) s) by done.
  destruct (vt_node _ _ _ T p l HK) as [_ Hnd].
  apply find_from_eq; [by apply cstring_take|done| |].
  - apply chain_length; [done|]. intros c Hc.
    destruct (vt_kid _ _ _ T p l c HK Hc) as [(n' & Hn' & _) _]. by eexists.
  - intros c n' _ Hn'. by apply (vt_name _ _ _ T c).
Qed.

Lemma first_named_in m l x : first_named m l x ≠ 0 → first_named m l x ∈ l.
Proof.
  induction l as [|c l IH]; [done|]. cbn [first_named].
  case_decide; intros; [left|right; by apply IH].
Qed.

Lemma child_node s K r p x : vtree s K r → child (nodes s) K p x ≠ 0 →
  is_Some (nodes s !! child (nodes s) K p x) ∧ (r p < r (child (nodes s) K p x))%nat.
Proof.
  intros T. unfold child. case_decide; [|done]. intros Hc. pose proof (first_named_in _ _ _ Hc) as Hin.
  unfold kids in *. destruct (K !! p) as [l|] eqn:HK; [|by apply elem_of_nil in Hin].
  destruct (vt_kid _ _ _ T p l _ HK Hin) as [(n & Hn & _) Hr]. split; [by eexists|done].
Qed.

(** ** Spelling a path

    Parts, each after one or more slashes. *)

Definition part_ok (x : list Z) : Prop := x ≠ [] ∧ cstring x ∧ Forall (λ c, c ≠ slash) x.
Definition spell (ps : list (nat * list Z)) : list Z :=
  concat ((λ kx, replicate (S kx.1) slash ++ kx.2) <$> ps).

Lemma skip_slashes_spec k x rest : x ≠ [] → Forall (λ c, c ≠ slash) x →
  skip_slashes (replicate k slash ++ x ++ rest) = x ++ rest.
Proof.
  intros Hx Hs. induction k as [|k IH]; cbn [replicate app]; [|by cbn].
  destruct x as [|c x]; [done|]. apply list.Forall_cons in Hs as [Hc _]. cbn [app skip_slashes].
  by rewrite (proj2 (Z.eqb_neq _ _)).
Qed.

Lemma span_part_spec x ps : Forall (λ c, c ≠ slash) x → span_part (x ++ spell ps) = (x, spell ps).
Proof.
  induction x as [|c x IH]; intros Hs.
  - destruct ps as [|[k y] ps]; [done|]. by cbn.
  - apply list.Forall_cons in Hs as [Hc Hs]. cbn [app span_part].
    rewrite (proj2 (Z.eqb_neq _ _)) by done. by rewrite IH.
Qed.

Lemma spell_cons k x ps : spell ((k, x) :: ps) = slash :: replicate k slash ++ x ++ spell ps.
Proof. unfold spell. cbn. by rewrite <-app_assoc. Qed.

Lemma path_from_eq s K r : vtree s K r → ∀ ps fuel p k,
  Forall (λ kx, part_ok kx.2) ps → is_Some (nodes s !! p) → (length ps ≤ fuel)%nat →
  (ps ≠ [] → k = 0%nat ∨ k = 1%nat) →
  path_from fuel p (drop k (spell ps)) s = Done (walk (nodes s) K p ps.*2) s.
Proof.
  intros T ps. induction ps as [|[j x] ps IH]; intros fuel p k Hps Hp Hf Hk.
  - by destruct k, fuel.
  - destruct fuel as [|fuel]; [simpl in Hf; lia|].
    apply list.Forall_cons in Hps as [(Hne & Hx & Hs) Hps]. cbn [fst snd] in *.
    assert (skip_slashes (drop k (spell ((j, x) :: ps))) = x ++ spell ps) as E.
    { rewrite spell_cons. destruct Hk as [-> | ->]; [done| |]; cbn [drop skip_slashes];
        by apply skip_slashes_spec. }
    cbn [path_from]. rewrite E. destruct (x ++ spell ps) as [|c y] eqn:Ey.
    { by apply app_nil in Ey as [-> _]. }
    rewrite <-Ey, span_part_spec by done. destruct Hp as [n Hn].
    unfold step_down. rewrite (bind_done _ _ _ (child (nodes s) K p x) s).
    2: { rewrite (bind_done _ _ _ n s) by (unfold node_load, from_opt; by rewrite Hn).
         rewrite (vt_plain _ _ _ T p n Hn), (bind_done _ _ _ 0 s) by done. cbn [nz Z.eqb negb].
         by apply (find_child_eq s K r). }
    cbn [fmap list_fmap snd walk]. destruct (decide (child (nodes s) K p x = 0)) as [E0|E0].
    + by rewrite E0.
    + rewrite (proj2 (Z.eqb_neq _ _)) by done. destruct (child_node s K r p x T E0) as [Hc _].
      apply (IH fuel _ 0%nat); [done|done|simpl in Hf; lia|by left].
Qed.

(** ** A new child *)

Definition attach (s : vst) (e : kenv) (curr : Z) (cn : vnode) (p : Z) (n : vnode) : vst :=
  mkVst (<[curr := cn <| n_children := p |>]>
           (<[p := n <| n_next := n_children cn |> <| n_parent := curr |>]> (nodes s)))
    (root_node s) e.
Definition attach_kids K (curr p : Z) : gmap Z (list Z) :=
  <[curr := p :: kids K curr]> (<[p := []]> K).
Definition attach_rank r (curr p : Z) : Z → nat := λ z, if decide (z = p) then S (r curr) else r z.

Lemma chain_frame m m' l : ∀ first, chain m first l →
  (∀ c n, c ∈ l → m !! c = Some n → ∃ n', m' !! c = Some n' ∧ n_next n' = n_next n) →
  chain m' first l.
Proof.
  induction l as [|c l IH]; intros first Hch Hm; [done|].
  destruct Hch as (-> & Hc & n & Hn & Hch). destruct (Hm c n) as (n' & Hn' & E); [by left|done|].
  split_and!; [done|done|]. exists n'. split; [done|]. rewrite E. apply IH; [done|].
  intros. eapply Hm; [by right|done].
Qed.

(** The new node, its parent, or another one. *)
Ltac which z curr p :=
  destruct (decide (z = curr)) as [?|?]; [|destruct (decide (z = p)) as [?|?]]; simplify_eq.

Section Attach.
Context (s : vst) (K : gmap Z (list Z)) (r : Z → nat) (T : vtree s K r).
Context (curr : Z) (cn : vnode) (curr_node : nodes s !! curr = Some cn).
Context (p : Z) (n : vnode) (e : kenv) (alloc : kmalloc sizeof_vfs_node (venv s) = (p, e)).
Context (p_ok : p ≠ 0) (n_new : n_children n = 0) (n_cstring : cstring (n_name n)).
Context (n_plain : driver_find n = None).

Lemma alloc_fresh : nodes s !! p = None ∧ curr ≠ p.
Proof.
  destruct (kmalloc_fresh _ _ _ _ alloc p_ok) as [Hl Hiff].
  assert (nodes s !! p = None) as Hnone.
  { apply eq_None_not_Some. intros Hp. destruct (vt_heap _ _ _ T p Hp) as [_ [?|Hh]]; [done|].
    apply Hh, (live_heap e), Hiff. by left. }
  split; [done|]. intros ->. congruence.
Qed.

Lemma attach_lookup z : nodes (attach s e curr cn p n) !! z =
  if decide (z = curr) then Some (cn <| n_children := p |>)
  else if decide (z = p) then Some (n <| n_next := n_children cn |> <| n_parent := curr |>)
  else nodes s !! z.
Proof.
  cbn. destruct (decide (z = curr)) as [->|]; [by rewrite lookup_insert_eq|].
  rewrite lookup_insert_ne by done.
  destruct (decide (z = p)) as [->|]; [by rewrite lookup_insert_eq|by rewrite lookup_insert_ne].
Qed.

Lemma attach_kids_lookup z : attach_kids K curr p !! z =
  if decide (z = curr) then Some (p :: kids K curr) else if decide (z = p) then Some [] else K !! z.
Proof.
  unfold attach_kids. destruct (decide (z = curr)) as [->|]; [by rewrite lookup_insert_eq|].
  rewrite lookup_insert_ne by done.
  destruct (decide (z = p)) as [->|]; [by rewrite lookup_insert_eq|by rewrite lookup_insert_ne].
Qed.

Lemma old_next z nz : nodes s !! z = Some nz →
  ∃ n', nodes (attach s e curr cn p n) !! z = Some n' ∧ n_next n' = n_next nz ∧
    n_parent n' = n_parent nz ∧ n_name n' = n_name nz ∧ driver_find n' = driver_find nz.
Proof.
  intros Hz. destruct alloc_fresh as [Hnone _]. rewrite attach_lookup.
  case_decide as E1; [subst; rewrite curr_node in Hz; injection Hz as <-; by eexists|].
  case_decide as E2; [subst; congruence|]. by eexists.
Qed.

Lemma kid_old z l c : K !! z = Some l → c ∈ l → c ≠ p ∧ is_Some (nodes s !! c).
Proof.
  intros HK Hc. destruct (vt_kid _ _ _ T z l c HK Hc) as [(nc & Hnc & _) _].
  destruct alloc_fresh as [Hnone _]. split; [|by eexists]. intros ->. congruence.
Qed.

Lemma attach_chain z nz l : nodes s !! z = Some nz → K !! z = Some l →
  chain (nodes (attach s e curr cn p n)) (n_children nz) l.
Proof.
  intros Hz HK. destruct (vt_dom _ _ _ T z nz Hz) as (l' & HK' & Hch). simplify_eq.
  eapply chain_frame; [done|]. intros c nc Hc Hnc.
  destruct (old_next c nc Hnc) as (n' & ? & ? & _). by eexists.
Qed.

Lemma curr_kids : K !! curr = Some (kids K curr).
Proof. destruct (vt_dom _ _ _ T curr cn curr_node) as (l & HK & _). unfold kids. by rewrite HK. Qed.

Lemma attach_tree : vtree (attach s e curr cn p n) (attach_kids K curr p) (attach_rank r curr p).
Proof.
  destruct alloc_fresh as [Hnone Hne]. pose proof curr_kids as HK0.
  destruct (kmalloc_fresh _ _ _ _ alloc p_ok) as [_ Hlive].
  assert (K !! p = None) as HKp.
  { apply eq_None_not_Some. intros [l Hl]. destruct (vt_node _ _ _ T p l Hl) as [[? ?] _]. congruence. }
  split.
  - intros z nz. rewrite attach_lookup, attach_kids_lookup. intros Hz. which z curr p.
    + eexists. split; [done|]. cbn [chain]. split_and!; [done|done|].
      eexists. rewrite attach_lookup, decide_False, decide_True by done. split; [done|].
      by apply (attach_chain curr).
    + eexists. split; [done|]. by cbn.
    + destruct (vt_dom _ _ _ T z nz Hz) as (l & HK & _). exists l. split; [done|].
      by apply (attach_chain z).
  - intros z l. rewrite attach_lookup, attach_kids_lookup. intros HKz.
    which z curr p.
    + split; [by eexists|]. apply list.NoDup_cons. split; [|by apply (vt_node _ _ _ T curr (kids K curr))].
      intros Hin. by destruct (kid_old curr (kids K curr) p HK0 Hin).
    + split; [by eexists|]. by apply list.NoDup_nil.
    + by apply (vt_node _ _ _ T z).
  - intros z l c. rewrite attach_kids_lookup. unfold attach_rank. intros HK Hc.
    which z curr p.
    + apply elem_of_cons in Hc as [->|Hc].
      * split; [|rewrite decide_False, decide_True by done; lia].
        eexists. by rewrite attach_lookup, decide_False, decide_True.
      * destruct (kid_old curr (kids K curr) c HK0 Hc) as [Hcp _].
        destruct (vt_kid _ _ _ T curr (kids K curr) c HK0 Hc) as [(nc & Hnc & Hpar) Hr].
        destruct (old_next c nc Hnc) as (n' & ? & _ & E & _).
        split; [exists n'; by rewrite E|]. by rewrite !decide_False.
    + by apply elem_of_nil in Hc.
    + destruct (kid_old z l c HK Hc) as [Hcp _].
      destruct (vt_kid _ _ _ T z l c HK Hc) as [(nc & Hnc & Hpar) Hr].
      destruct (old_next c nc Hnc) as (n' & ? & _ & E & _).
      split; [exists n'; by rewrite E|]. by rewrite !decide_False.
  - intros z. rewrite attach_lookup. cbn [venv attach]. rewrite Hlive. intros Hz.
    which z curr p.
    + destruct (vt_heap _ _ _ T curr) as [? [?|?]]; [by eexists|auto..].
    + auto.
    + destruct (vt_heap _ _ _ T z Hz) as [? [?|?]]; auto.
  - intros z nz. rewrite attach_lookup. intros Hz. which z curr p.
    + exact (vt_name _ _ _ T curr cn curr_node).
    + exact n_cstring.
    + by apply (vt_name _ _ _ T z).
  - intros z nz. rewrite attach_lookup. intros Hz. which z curr p.
    + exact (vt_plain _ _ _ T curr cn curr_node).
    + exact n_plain.
    + by apply (vt_plain _ _ _ T z).
Qed.

(** The state between [vfs_create_node] and [vfs_add_child]. *)
Definition created : vst := mkVst (<[p := n]> (nodes s)) (root_node s) e.

Lemma created_upd f : node_upd p f created = Done tt (mkVst (<[p := f n]> (nodes s)) (root_node s) e).
Proof.
  unfold node_upd. rewrite (bind_done _ _ _ n created)
    by (unfold node_load, from_opt, created; cbn; by rewrite lookup_insert_eq).
  unfold modify, created. cbn. by rewrite insert_insert_eq.
Qed.

Lemma add_child_eq : n_type cn = VFS_DIRECTORY → n_parent n = 0 →
  vfs_add_child curr p created = Done tt (attach s e curr cn p n).
Proof.
  intros Hty Hpar. destruct alloc_fresh as [Hnone Hne].
  destruct (vt_heap _ _ _ T curr (mk_is_Some _ _ curr_node)) as [Hc0 _].
  unfold vfs_add_child. rewrite !(proj2 (Z.eqb_neq _ _)) by done. cbn [orb].
  rewrite (bind_done _ _ _ cn created)
    by (unfold node_load, from_opt, created; cbn; by rewrite lookup_insert_ne, curr_node by done).
  rewrite Hty. cbn [Z.eqb VFS_DIRECTORY Pos.eqb negb].
  rewrite (bind_done _ _ _ n created)
    by (unfold node_load, from_opt, created; cbn; by rewrite lookup_insert_eq).
  rewrite Hpar. cbn [nz Z.eqb negb]. rewrite (bind_done _ _ _ _ _ (created_upd _)).
  unfold node_upd, node_load, from_opt, mbind, M_bind, modify, attach. cbn.
  rewrite lookup_insert_ne, curr_node by done. cbn.
  rewrite lookup_insert_ne, lookup_insert_eq by done. cbn.
  rewrite insert_insert_ne by done. by rewrite insert_insert_eq.
Qed.
End Attach.

Definition new_node (x : list Z) (type : Z) : vnode :=
  mkVnode (strncpy x 127) type 0 0 0 0 0 mem_ops false 0 None 0 0 0.

Lemma create_eq s x type p e : x ≠ [] → kmalloc sizeof_vfs_node (venv s) = (p, e) → p ≠ 0 →
  vfs_create_node x type s = Done p (created s p (new_node x type) e).
Proof.
  intros Hx Ha Hp. unfold vfs_create_node. destruct x; [done|]. rewrite Ha.
  by rewrite (proj2 (Z.eqb_neq _ _)).
Qed.

(** ** Registration *)

(** [d] nodes can be allocated one after the other. *)
Fixpoint can_alloc (d : nat) (e : kenv) : Prop :=
  match d with
  | O => True
  | S d => let '(p, e') := kmalloc sizeof_vfs_node e in p ≠ 0 ∧ can_alloc d e'
  end.

(** The parts before the last one are directories, as far as they exist. *)
Fixpoint clear m K (p : Z) (xs : list (list Z)) : Prop :=
  match xs with
  | [] => True
  | x :: xs =>
      let c := child m K p x in
      xs ≠ [] → c ≠ 0 → type_of m c = VFS_DIRECTORY ∧ clear m K c xs
  end.

(** From [s] to [s'] the file [f] was added below [curr]: nodes keep everything
    but their list of children, and a directory gets at most one new child, which
    is [f] or has a name that was not there. *)
Record registered s K r s' K' r' (curr f data size : Z) : Prop := {
  rg_tree : vtree s' K' r';
  rg_root : root_node s' = root_node s;
  rg_old p n : nodes s !! p = Some n → ∃ ch, nodes s' !! p = Some (n <| n_children := ch |>);
  rg_kids p l : K !! p = Some l → K' !! p = Some l ∨
    ∃ c, K' !! p = Some (c :: l) ∧ nodes s !! c = None ∧ (r curr ≤ r p)%nat ∧
      (c = f ∨ first_named (nodes s) l (name_of (nodes s') c) = 0);
  rg_rank p : is_Some (nodes s !! p) → r' p = r p;
  rg_new : nodes s !! f = None;
  rg_file : ∃ n, nodes s' !! f = Some n ∧ n_type n = VFS_FILE ∧ n_data n = data ∧ n_size n = size }.

Lemma first_named_ext m m' l x : (∀ c, c ∈ l → name_of m' c = name_of m c) →
  first_named m' l x = first_named m l x.
Proof.
  induction l as [|c l IH]; intros Hn; [done|]. cbn [first_named].
  rewrite (Hn c), IH by (done || (intros; apply Hn; by right) || by left). done.
Qed.

Section Registered.
Context s K r (T : vtree s K r) s' K' r' curr f data size
  (R : registered s K r s' K' r' curr f data size).

Lemma rg_names p l x : K !! p = Some l → first_named (nodes s') l x = first_named (nodes s) l x.
Proof.
  intros HK. apply first_named_ext. intros c Hc.
  destruct (vt_kid _ _ _ T p l c HK Hc) as [(n & Hn & _) _].
  destruct (rg_old _ _ _ _ _ _ _ _ _ _ R c n Hn) as [ch Hch]. unfold name_of. by rewrite Hn, Hch.
Qed.

(** Lookups that succeeded give the same node, or the new file. *)
Lemma rg_child p x : is_Some (nodes s !! p) → child (nodes s) K p x ≠ 0 →
  child (nodes s') K' p x = child (nodes s) K p x ∨
  (child (nodes s') K' p x = f ∧ (r curr ≤ r p)%nat).
Proof.
  intros [n Hn] Hc. destruct (vt_dom _ _ _ T p n Hn) as (l & HK & _).
  destruct (rg_old _ _ _ _ _ _ _ _ _ _ R p n Hn) as [ch Hch].
  unfold child, type_of, kids in *. rewrite Hn, Hch, HK in *. cbn [n_type default] in *.
  change (n_type (n <| n_children := ch |>)) with (n_type n).
  case_decide; [|done]. pose proof (rg_names p l (take 127 x) HK) as E.
  destruct (rg_kids _ _ _ _ _ _ _ _ _ _ R p l HK) as [->|(c & -> & _ & Hr & Hnew)]; cbn [default];
    [by left|]. cbn [id first_named].
    destruct (decide (name_of (nodes s') c = take 127 x)) as [En|]; [|by left].
  destruct Hnew as [->|Hnew]; [by right|]. by rewrite En in Hnew.
Qed.
End Registered.

(** A directory below [curr] is a good place to go on. *)
Lemma registered_below s K r s' K' r' curr d f data size :
  (r curr ≤ r d)%nat → registered s K r s' K' r' d f data size →
  registered s K r s' K' r' curr f data size.
Proof.
  intros Hr [? ? ? Hk ? ? ?]. split; try done. intros p l HK.
  destruct (Hk p l HK) as [?|(c & ? & ? & ? & ?)]; [by left|].
  right. exists c. split_and!; [done|done|lia|done].
Qed.

Section Register.
Context s K r (T : vtree s K r) curr cn (curr_node : nodes s !! curr = Some cn)
  (curr_dir : n_type cn = VFS_DIRECTORY).
Context p e (alloc : kmalloc sizeof_vfs_node (venv s) = (p, e)) (p_ok : p ≠ 0).
Context (x : list Z) (x_ok : cstring x) (type data size : Z).

Definition new_kid : vnode := (new_node (take 127 x) type) <| n_data := data |> <| n_size := size |>.
Abbreviation s1 := (attach s e curr cn p new_kid).
Abbreviation K1 := (attach_kids K curr p).
Abbreviation r1 := (attach_rank r curr p).

Lemma new_kid_name : n_name new_kid = take 127 x.
Proof. change (take 127 (take 127 x) = take 127 x). by rewrite take_take, Nat.min_id. Qed.

Lemma new_kid_tree : vtree s1 K1 r1.
Proof.
  apply attach_tree; try done. rewrite new_kid_name. by apply cstring_take.
Qed.

Lemma new_kid_fresh : nodes s !! p = None ∧ curr ≠ p.
Proof. exact (alloc_fresh s K r T curr cn curr_node p e alloc p_ok). Qed.

Lemma new_kid_old z n : nodes s !! z = Some n → ∃ ch, nodes s1 !! z = Some (n <| n_children := ch |>).
Proof.
  intros Hz. destruct new_kid_fresh as [Hnone _]. rewrite attach_lookup.
  destruct (decide (z = curr)) as [->|]; [eexists; by simplify_eq|].
  destruct (decide (z = p)) as [->|]; [congruence|]. exists (n_children n). rewrite Hz. by destruct n.
Qed.

Lemma new_kid_rank z : is_Some (nodes s !! z) → r1 z = r z.
Proof.
  intros [n Hn]. destruct new_kid_fresh as [Hnone _]. unfold attach_rank.
  rewrite decide_False; [done|]. intros ->. congruence.
Qed.

Lemma new_kid_lookup : nodes s1 !! p
  = Some (new_kid <| n_next := n_children cn |> <| n_parent := curr |>).
Proof.
  destruct new_kid_fresh as [_ Hne]. by rewrite attach_lookup, decide_False, decide_True.
Qed.

Lemma new_kid_child : child (nodes s1) K1 curr x = p.
Proof.
  assert (nodes s1 !! curr = Some (cn <| n_children := p |>)) as E
    by (by rewrite attach_lookup, decide_True).
  assert (K1 !! curr = Some (p :: kids K curr)) as EK by (by rewrite attach_kids_lookup, decide_True).
  unfold child, type_of, kids at 1. rewrite E, EK.
  change (n_type (cn <| n_children := p |>)) with (n_type cn). rewrite curr_dir, decide_True by done.
  cbn [default id first_named]. unfold name_of. rewrite new_kid_lookup.
  change (n_name (new_kid <| n_next := n_children cn |> <| n_parent := curr |>)) with (n_name new_kid).
  by rewrite new_kid_name, decide_True.
Qed.

(** The new node has no children. *)
Lemma new_kid_clear xs : clear (nodes s1) K1 p xs.
Proof.
  destruct xs as [|y xs]; [done|]. intros _ Hc. exfalso. apply Hc. unfold child, kids.
  destruct new_kid_fresh as [_ Hne].
  assert (K1 !! p = Some []) as -> by (by rewrite attach_kids_lookup, decide_False, decide_True).
  by case_decide.
Qed.

Lemma leaf_registered : type = VFS_FILE → registered s K r s1 K1 r1 curr p data size.
Proof.
  intros Hty. split; [apply new_kid_tree|done|apply new_kid_old| |apply new_kid_rank|apply new_kid_fresh|].
  - intros z l HK. rewrite attach_kids_lookup. destruct new_kid_fresh as [Hnone _].
    destruct (decide (z = curr)) as [->|].
    + right. exists p. unfold kids. rewrite HK. split_and!; [done|done|lia|by left].
    + left. rewrite decide_False; [done|]. intros ->.
      destruct (vt_node _ _ _ T p l HK) as [[? ?] _]. congruence.
  - eexists. split; [apply new_kid_lookup|]. by rewrite <-Hty.
Qed.

(** A missing directory was created, and the rest registered below it. *)
Lemma dir_registered s' K' r' f dt sz : child (nodes s) K curr x = 0 →
  registered s1 K1 r1 s' K' r' p f dt sz → registered s K r s' K' r' curr f dt sz.
Proof.
  intros Hno R. destruct new_kid_fresh as [Hnone Hne].
  assert (r1 p = S (r curr)) as Erp by (unfold attach_rank; by rewrite decide_True).
  split; [apply R|by rewrite (rg_root _ _ _ _ _ _ _ _ _ _ R)| | | | |apply R].
  - intros z n Hz. destruct (new_kid_old z n Hz) as [ch Hch].
    destruct (rg_old _ _ _ _ _ _ _ _ _ _ R z _ Hch) as [ch' Hch']. by exists ch'.
  - intros z l HK. destruct (vt_node _ _ _ T z l HK) as [[n Hz] _].
    assert (∀ c, nodes s1 !! c = None → nodes s !! c = None) as Hc.
    { intros c Hc. apply eq_None_not_Some. intros [nc Hnc]. destruct (new_kid_old c nc Hnc). congruence. }
    assert (∀ y, first_named (nodes s1) l y = first_named (nodes s) l y) as Hl.
    { intros y. apply first_named_ext. intros c Hin.
      destruct (vt_kid _ _ _ T z l c HK Hin) as [(nc & Hnc & _) _].
      destruct (new_kid_old c nc Hnc) as [ch Hch]. unfold name_of. by rewrite Hnc, Hch. }
    pose proof (rg_kids _ _ _ _ _ _ _ _ _ _ R z) as Hk. rewrite attach_kids_lookup in Hk.
    rewrite (new_kid_rank z (mk_is_Some _ _ Hz)), Erp in Hk.
    destruct (decide (z = curr)) as [->|].
    + destruct (Hk _ eq_refl) as [HK'|(c & _ & _ & ? & _)]; [|lia].
      right. exists p. unfold kids in HK'. rewrite HK in HK'. split_and!; [done|done|lia|right].
      destruct (rg_old _ _ _ _ _ _ _ _ _ _ R p _ new_kid_lookup) as [ch Hch].
      unfold name_of. rewrite Hch. revert Hno. unfold child, type_of, kids.
      rewrite curr_node, curr_dir, HK, decide_True by done. cbn [default id].
      intros <-. f_equal. exact new_kid_name.
    + rewrite decide_False in Hk by (intros ->; congruence).
      destruct (Hk _ HK) as [?|(c & ? & ? & ? & Hnew)]; [by left|]. right. exists c.
      rewrite Hl in Hnew. split_and!; [done|by apply Hc|lia|done].
  - intros z [n Hz]. destruct (new_kid_old z n Hz) as [ch Hch].
    rewrite (rg_rank _ _ _ _ _ _ _ _ _ _ R) by (by eexists). apply new_kid_rank. by eexists.
  - pose proof (rg_new _ _ _ _ _ _ _ _ _ _ R) as Hf. apply eq_None_not_Some. intros [n Hn].
    destruct (new_kid_old f n Hn). congruence.
Qed.
End Register.

Lemma can_alloc_less d : ∀ e, can_alloc (S d) e → can_alloc d e.
Proof.
  induction d as [|d IH]; intros e He; [done|]. cbn [can_alloc] in *.
  destruct (kmalloc _ e) as [p e']. destruct He as [? He]. split; [done|]. by apply IH.
Qed.

Lemma walk_cons m K p x xs c : child m K p x = c → c ≠ 0 → walk m K p (x :: xs) = walk m K c xs.
Proof. intros E Hc. cbn [walk]. rewrite E. by rewrite decide_False. Qed.

(** A part of the path, up to the choice between leaf and directory. *)
Lemma register_unfold fuel curr k j x ps data size s :
  part_ok x → k = 0%nat ∨ k = 1%nat →
  register_from (S fuel) curr (drop k (spell ((j, x) :: ps))) data size s =
  (match ps with
   | [] =>
       file ← vfs_create_node (take 127 x) VFS_FILE;
       whenM (nz file)
         (node_upd file (λ n, n <| n_data := data |> <| n_size := size |>) ;; vfs_add_child curr file)
   | _ =>
       dir ← vfs_find_child curr (take 127 x);
       dir ← (if nz dir then mret dir else
              dir ← vfs_create_node (take 127 x) VFS_DIRECTORY; vfs_add_child curr dir ;; mret dir);
       register_from fuel dir (drop 0 (spell ps)) data size
   end) s.
Proof.
  intros (Hne & Hx & Hs) Hk. cbn [register_from].
  assert (skip_slashes (drop k (spell ((j, x) :: ps))) = x ++ spell ps) as ->.
  { rewrite spell_cons. destruct Hk as [-> | ->]; cbn [drop skip_slashes]; by apply skip_slashes_spec. }
  destruct (x ++ spell ps) as [|c y] eqn:Ey; [by apply app_nil in Ey as [-> _]|].
  rewrite <-Ey, span_part_spec by done. destruct ps as [|[i z] ps]; [done|].
  by rewrite spell_cons.
Qed.

(** The new nodes hang on the registered path [xs], one per part, and nothing old
    is below a new node. *)
Record on_path s s' K' curr (xs : list (list Z)) : Prop := {
  op_new p c : c ∈ kids K' p → nodes s !! c = None →
    ∃ i, (i < length xs)%nat ∧ walk (nodes s') K' curr (take i xs) = p ∧
      walk (nodes s') K' curr (take (S i) xs) = c;
  op_below p c : c ∈ kids K' p → nodes s !! p = None → nodes s !! c = None }.

(** What registering the parts [ps] below [curr] achieves. *)
Definition registers s K r curr (c : M vst unit) (xs : list (list Z)) (data size : Z) : Prop :=
  ∃ s' K' r' f, c s = Done tt s' ∧ registered s K r s' K' r' curr f data size ∧
    walk (nodes s') K' curr xs = f ∧ on_path s s' K' curr xs.

Section Step.
Context s K r (T : vtree s K r) curr cn (curr_node : nodes s !! curr = Some cn)
  (curr_dir : n_type cn = VFS_DIRECTORY) (x : list Z) (x_ok : part_ok x) (data size : Z).

Lemma part_take : take 127 x ≠ [].
Proof. destruct x_ok as [Hne _]. by destruct x. Qed.

Lemma register_leaf p e : kmalloc sizeof_vfs_node (venv s) = (p, e) → p ≠ 0 →
  registers s K r curr
    (file ← vfs_create_node (take 127 x) VFS_FILE;
     whenM (nz file)
       (node_upd file (λ n, n <| n_data := data |> <| n_size := size |>) ;; vfs_add_child curr file))
    [x] data size.
Proof.
  intros Ha Hp. destruct x_ok as (_ & Hxc & _). eexists _, _, _, p.
  rewrite (bind_done _ _ _ _ _ (create_eq s _ VFS_FILE p e part_take Ha Hp)).
  rewrite (proj2 (nz_true p)) by done. cbn [whenM].
  rewrite (bind_done _ _ _ _ _ (created_upd _ _ _ _ _)).
  set (n := new_kid x VFS_FILE data size).
  assert (walk (nodes (attach s e curr cn p n)) (attach_kids K curr p) curr [x] = p) as W.
  { rewrite (walk_cons _ _ _ _ _ p); [done| |done]. by apply (new_kid_child s K r). }
  destruct (new_kid_fresh s K r T curr cn curr_node p e Ha Hp) as [Hnone Hne].
  assert (∀ z c, c ∈ kids (attach_kids K curr p) z → nodes s !! z = None ∨ nodes s !! c = None →
    z = curr ∧ c = p) as Hk.
  { intros z c. unfold kids at 1. rewrite attach_kids_lookup.
    assert (∀ l, K !! z = Some l → c ∈ l → nodes s !! z = None ∨ nodes s !! c = None → False) as Hold.
    { intros l Hl Hc. destruct (vt_kid _ _ _ T z l c Hl Hc) as [(? & E & _) _].
      destruct (vt_node _ _ _ T z l Hl) as [[? E'] _]. rewrite E, E'. by intros [?|?]. }
    which z curr p; cbn [default id].
    - intros [->|Hc]%elem_of_cons Hor; [done|]. exfalso. eapply Hold; [|done..].
      exact (curr_kids s K r T curr cn curr_node).
    - by intros Hc%elem_of_nil.
    - destruct (K !! z) as [l|] eqn:Hl; cbn [default]; [|by intros Hc%elem_of_nil].
      intros Hc Hor. exfalso. by eapply Hold. }
  split_and!; [| |exact W|split].
  - by apply (add_child_eq s K r T curr cn curr_node p n e Ha Hp).
  - by apply leaf_registered.
  - intros z c Hc Hn. destruct (Hk z c Hc (or_intror Hn)) as [-> ->].
    exists 0%nat. split_and!; [simpl; lia|done|exact W].
  - intros z c Hc Hn. by destruct (Hk z c Hc (or_introl Hn)) as [_ ->].
Qed.

Lemma register_existing c xs : let d := child (nodes s) K curr x in
  d ≠ 0 → registers s K r d c xs data size → registers s K r curr c (x :: xs) data size.
Proof.
  intros d Hd (s' & K' & r' & f & E & R & W & [O1 O2]).
  destruct (child_node s K r curr x T Hd) as [_ Hrd]. fold d in Hrd.
  assert (∀ ys, walk (nodes s') K' curr (x :: ys) = walk (nodes s') K' d ys) as Hw.
  { intros ys. rewrite (walk_cons _ _ _ _ _ d); [done| |done].
    destruct (rg_child _ _ _ T _ _ _ _ _ _ _ R curr x) as [E1|[_ E1]]; [by eexists|done|done|lia]. }
  exists s', K', r', f. split_and!; [done|by eapply registered_below; [|done]; lia|by rewrite Hw|].
  split; [|done]. intros z c' Hc Hn. destruct (O1 z c' Hc Hn) as (i & Hi & W1 & W2).
  exists (S i). cbn [take length]. rewrite !Hw. split_and!; [lia|done|done].
Qed.

Lemma register_created c xs p e : let n := new_kid x VFS_DIRECTORY 0 0 in
  kmalloc sizeof_vfs_node (venv s) = (p, e) → p ≠ 0 → child (nodes s) K curr x = 0 →
  registers (attach s e curr cn p n) (attach_kids K curr p) (attach_rank r curr p) p c xs data size →
  registers s K r curr
    (dir ← vfs_create_node (take 127 x) VFS_DIRECTORY; vfs_add_child curr dir ;; c)
    (x :: xs) data size.
Proof.
  intros n. subst n. set (n := new_kid x VFS_DIRECTORY 0 0).
  intros Ha Hp E0 (s' & K' & r' & f & E & R & W & [O1 O2]). pose proof x_ok as (_ & Hxc & _).
  destruct (new_kid_fresh s K r T curr cn curr_node p e Ha Hp) as [Hnone Hne'].
  pose proof (new_kid_lookup s K r T curr cn curr_node p e Ha Hp x VFS_DIRECTORY 0 0) as Hpn. fold n in Hpn.
  assert (∀ ys, walk (nodes s') K' curr (x :: ys) = walk (nodes s') K' p ys) as Hw.
  { intros ys.
    assert (child (nodes (attach s e curr cn p n)) (attach_kids K curr p) curr x = p) as Ec
      by (by apply (new_kid_child s K r)).
    rewrite (walk_cons _ _ _ _ _ p); [done| |done].
    destruct (rg_child _ _ _ (new_kid_tree s K r T curr cn curr_node p e Ha Hp x Hxc VFS_DIRECTORY 0 0)
      _ _ _ _ _ _ _ R curr x) as [E1|[_ E1]]; [|fold n; by rewrite Ec|fold n in E1; by rewrite E1|].
    + rewrite attach_lookup, decide_True by done. by eexists.
    + unfold attach_rank in E1. rewrite decide_True, decide_False in E1 by done. lia. }
  assert (∀ z, nodes s !! z = None → z = p ∨ nodes (attach s e curr cn p n) !! z = None) as Hnew.
  { intros z Hz. rewrite attach_lookup. destruct (decide (z = p)); [by left|right].
    rewrite decide_False; [done|]. intros ->. congruence. }
  assert (∀ z, nodes (attach s e curr cn p n) !! z = None → nodes s !! z = None) as Hnew'.
  { intros z. rewrite attach_lookup. by repeat case_decide. }
  exists s', K', r', f. split_and!; [|by eapply dir_registered|by rewrite Hw|split].
  - rewrite (bind_done _ _ _ _ _ (create_eq s _ VFS_DIRECTORY p e part_take Ha Hp)).
    by rewrite (bind_done _ _ _ _ _
      (add_child_eq s K r T curr cn curr_node p n e Ha Hp curr_dir eq_refl)).
  - intros z c' Hc Hn. destruct (Hnew c' Hn) as [->|Hn1].
    + exists 0%nat. cbn [take length]. rewrite Hw. split_and!; [lia| |done].
      destruct (rg_old _ _ _ _ _ _ _ _ _ _ R p _ Hpn) as [ch Hch].
      unfold kids in Hc. destruct (K' !! z) as [l|] eqn:Hl; [|by apply elem_of_nil in Hc].
      destruct (vt_kid _ _ _ (rg_tree _ _ _ _ _ _ _ _ _ _ R) z l p Hl Hc) as [(np & Hnp & <-) _].
      rewrite Hch in Hnp. by injection Hnp as <-.
    + destruct (O1 z c' Hc Hn1) as (i & Hi & W1 & W2). exists (S i). cbn [take length].
      rewrite !Hw. split_and!; [lia|done|done].
  - intros z c' Hc Hn. destruct (Hnew z Hn) as [->|Hn1]; [|by eapply Hnew', O2].
    assert (attach_kids K curr p !! p = Some []) as HK
      by (by rewrite attach_kids_lookup, decide_False, decide_True).
    unfold kids in Hc. destruct (rg_kids _ _ _ _ _ _ _ _ _ _ R p [] HK) as [E1|(c2 & E1 & Hc2 & _)];
      rewrite E1 in Hc; cbn [default id] in Hc; [by apply elem_of_nil in Hc|].
    apply list_elem_of_singleton in Hc as ->. by apply Hnew'.
Qed.
End Step.

Lemma register_from_post data size ps : ∀ s K r curr cn fuel k,
  vtree s K r → nodes s !! curr = Some cn → n_type cn = VFS_DIRECTORY → ps ≠ [] →
  Forall (λ kx, part_ok kx.2) ps → (length ps ≤ fuel)%nat → k = 0%nat ∨ k = 1%nat →
  clear (nodes s) K curr ps.*2 → can_alloc (length ps) (venv s) →
  registers s K r curr (register_from fuel curr (drop k (spell ps)) data size) ps.*2 data size.
Proof.
  induction ps as [|[j x] ps IH]; intros s K r curr cn fuel k T Hcn Hty Hne Hps Hf Hk Hcl Hal; [done|].
  destruct fuel as [|fuel]; [simpl in Hf; lia|].
  apply list.Forall_cons in Hps as [Hx Hps]. cbn [snd] in Hx.
  unfold registers. rewrite register_unfold by done.
  cbn [length] in Hal, Hf. pose proof (can_alloc_less _ _ Hal) as Hal'. cbn [can_alloc] in Hal.
  destruct (kmalloc sizeof_vfs_node (venv s)) as [p e] eqn:Ha. destruct Hal as [Hp Hal].
  destruct ps as [|kx ps]; [by apply (register_leaf s K r T curr cn Hcn Hty x Hx data size p e)|].
  set (qs := kx :: ps) in *. change (((j, x) :: qs).*2) with (x :: qs.*2) in *.
  pose proof Hx as (_ & Hxc & _).
  rewrite (bind_done _ _ _ _ _ (find_child_eq s K r curr x T (mk_is_Some _ _ Hcn) Hxc)).
  destruct (decide (child (nodes s) K curr x = 0)) as [E0|E0].
  - rewrite E0. change (nz 0) with false. cbv iota.
    destruct (register_created s K r T curr cn Hcn Hty x Hx data size
      (register_from fuel p (drop 0 (spell qs)) data size) qs.*2 p e Ha Hp E0)
      as (s' & K' & r' & f & E & R & W & O).
    + eapply IH; [by apply new_kid_tree|by apply (new_kid_lookup s K r)|done|done|done|lia|by left| |done].
      by apply (new_kid_clear s K r).
    + exists s', K', r', f. split_and!; [|done..]. rewrite <-E.
      rewrite !(bind_done _ _ _ _ _ (create_eq s _ VFS_DIRECTORY p e (part_take x Hx) Ha Hp)).
      unfold mbind, M_bind.
      rewrite (create_eq s _ VFS_DIRECTORY p e (part_take x Hx) Ha Hp).
      by destruct (vfs_add_child curr p _).
  - rewrite (proj2 (nz_true _)) by done. cbv iota.
    destruct (child_node s K r curr x T E0) as [[dn Hdn] _].
    destruct (Hcl ltac:(by subst qs) E0) as [Hdt Hcl']. unfold type_of in Hdt. rewrite Hdn in Hdt.
    rewrite (bind_done _ _ _ _ s) by done. eapply register_existing; [exact T|exact Hcn|exact E0|].
    by eapply IH; [..|lia|left| |].
Qed.

(** ** Other paths

    Two paths name the same place when their parts agree in the 127 characters
    that count. *)

Definition cut (xs : list (list Z)) : list (list Z) := take 127 <$> xs.

Section Unique.
Context s K r (T : vtree s K r).

Lemma no_null : nodes s !! 0 = None.
Proof. apply eq_None_not_Some. intros Hz. by destruct (vt_heap _ _ _ T 0 Hz). Qed.

Lemma child_null x : child (nodes s) K 0 x = 0.
Proof. unfold child, type_of. by rewrite no_null, decide_False. Qed.

Lemma walk_snoc xs : ∀ p x,
  walk (nodes s) K p (xs ++ [x]) = child (nodes s) K (walk (nodes s) K p xs) x.
Proof.
  induction xs as [|y xs IH]; intros p x; cbn [app walk]; [by case_decide|].
  case_decide; [by rewrite child_null|apply IH].
Qed.

Lemma first_named_name m l x : first_named m l x ≠ 0 → name_of m (first_named m l x) = x.
Proof. induction l as [|c l IH]; [done|]. cbn [first_named]. by case_decide. Qed.

(** A child has the name it was looked up with, and one parent. *)
Lemma child_inv p x : child (nodes s) K p x ≠ 0 →
  child (nodes s) K p x ∈ kids K p ∧ name_of (nodes s) (child (nodes s) K p x) = take 127 x.
Proof.
  unfold child. case_decide; [|done]. intros Hc.
  split; [by apply first_named_in|by apply first_named_name].
Qed.

Lemma kid_parent p p' c : c ∈ kids K p → c ∈ kids K p' → p = p'.
Proof.
  unfold kids. intros Hc1 Hc2.
  destruct (K !! p) as [l|] eqn:E1; [|by apply elem_of_nil in Hc1].
  destruct (K !! p') as [l'|] eqn:E2; [|by apply elem_of_nil in Hc2].
  destruct (vt_kid _ _ _ T p l c E1 Hc1) as [(n & Hn & <-) _].
  destruct (vt_kid _ _ _ T p' l' c E2 Hc2) as [(n' & Hn' & <-) _]. congruence.
Qed.

Lemma walk_rank xs p : walk (nodes s) K p xs ≠ 0 → (r p + length xs ≤ r (walk (nodes s) K p xs))%nat.
Proof.
  induction xs as [|x xs IH] using rev_ind; [simpl; lia|]. rewrite walk_snoc, length_app. intros Hc.
  destruct (child_node s K r _ x T Hc) as [_ Hr]. cbn [length].
  destruct (decide (walk (nodes s) K p xs = 0)) as [E|E]; [by rewrite E, child_null in Hc|].
  specialize (IH E). lia.
Qed.

(** Only one path leads to a node. *)
Lemma walk_unique p xs : ∀ ys, walk (nodes s) K p xs = walk (nodes s) K p ys →
  walk (nodes s) K p xs ≠ 0 → cut xs = cut ys.
Proof.
  induction xs as [|x xs IH] using rev_ind; intros ys; destruct ys as [|y ys _] using rev_ind; [done|..].
  - intros E Hp. pose proof (walk_rank (ys ++ [y]) p) as Hr. rewrite <-E in Hr. specialize (Hr Hp).
    rewrite length_app in Hr. simpl in Hr. lia.
  - intros E Hp. pose proof (walk_rank (xs ++ [x]) p Hp) as Hr. rewrite E in Hr.
    rewrite length_app in Hr. simpl in Hr. lia.
  - rewrite !walk_snoc. intros E Hc. pose proof (child_inv _ x Hc) as [Hk Hn].
    pose proof Hc as Hc'. rewrite E in Hc'. pose proof (child_inv _ y Hc') as [Hk' Hn'].
    rewrite <-E in Hk', Hn'. pose proof (kid_parent _ _ _ Hk Hk') as Ep.
    unfold cut. rewrite !fmap_app. cbn [fmap list_fmap]. f_equal; [|congruence].
    apply IH; [done|]. intros E0. by rewrite E0, child_null in Hc.
Qed.
End Unique.

Section Frame.
Context s K r (T : vtree s K r) s' K' r' curr f data size xs
  (R : registered s K r s' K' r' curr f data size)
  (W : walk (nodes s') K' curr xs = f) (O : on_path s s' K' curr xs)
  (curr_old : is_Some (nodes s !! curr)).
Let T' : vtree s' K' r' := rg_tree _ _ _ _ _ _ _ _ _ _ R.
Abbreviation look := (walk (nodes s) K curr).
Abbreviation look' := (walk (nodes s') K' curr).

(** A lookup that ends in a new node follows the registered path. *)
Lemma new_on_path ys y : child (nodes s') K' (look' ys) y ≠ 0 →
  nodes s !! child (nodes s') K' (look' ys) y = None →
  ∃ i, (i < length xs)%nat ∧ cut (ys ++ [y]) = cut (take (S i) xs) ∧
    look' (take (S i) xs) = child (nodes s') K' (look' ys) y.
Proof.
  intros Hc Hn. destruct (child_inv s' K' _ y Hc) as [Hk _].
  destruct (op_new _ _ _ _ _ O _ _ Hk Hn) as (i & Hi & W1 & W2). exists i. split_and!; [done| |done].
  apply (walk_unique s' K' r' T' curr); rewrite (walk_snoc s' K' r' T'); [done|done].
Qed.

(** One step down from an old node. *)
Lemma old_step p y : is_Some (nodes s !! p) →
  child (nodes s') K' p y = child (nodes s) K p y ∨
  child (nodes s') K' p y ≠ 0 ∧ nodes s !! child (nodes s') K' p y = None ∧
    (child (nodes s') K' p y = f ∨ child (nodes s) K p y = 0).
Proof.
  intros [n Hn]. destruct (vt_dom _ _ _ T p n Hn) as (l & HK & _).
  destruct (rg_old _ _ _ _ _ _ _ _ _ _ R p n Hn) as [ch Hch].
  unfold child, type_of, kids. rewrite Hn, Hch, HK. cbn [default id].
  change (n_type (n <| n_children := ch |>)) with (n_type n).
  case_decide; [|by left].
  pose proof (rg_names s K r T s' K' r' curr f data size R p l (take 127 y) HK) as E.
  destruct (rg_kids _ _ _ _ _ _ _ _ _ _ R p l HK) as [->|(c & HK' & Hc & _ & Hnew)]; cbn [default id];
    [by left|]. rewrite HK'. cbn [default id first_named].
  destruct (decide (name_of (nodes s') c = take 127 y)) as [En|]; [|by left].
  right. split_and!; [|done|by rewrite En in Hnew].
  destruct (vt_kid _ _ _ T' p (c :: l) c HK' ltac:(by left)) as [(nc & Hnc & _) _].
  by destruct (vt_heap _ _ _ T' c (mk_is_Some _ _ Hnc)).
Qed.

Lemma old_walk ys : look ys ≠ 0 → is_Some (nodes s !! look ys).
Proof.
  destruct ys as [|y ys _] using rev_ind; [done|]. rewrite (walk_snoc s K r T).
  intros Hc. by apply (child_node s K r).
Qed.

(** A path that does not start with the registered one leads where it led, or it
    led nowhere and is now one of the directories on the way. *)
Lemma walk_frame ys : ¬ cut xs `prefix_of` cut ys →
  look' ys = look ys ∨
  look ys = 0 ∧ nodes s !! look' ys = None ∧ cut ys `prefix_of` cut xs.
Proof.
  induction ys as [|y ys IH] using rev_ind; intros Hpre; [by left|].
  destruct IH as [E|(E & Hnone & _)].
  { intros [z Hz]. apply Hpre. exists (z ++ cut [y]). unfold cut in *. by rewrite fmap_app, Hz, app_assoc. }
  - rewrite (walk_snoc s' K' r' T'), (walk_snoc s K r T). rewrite E.
    destruct (decide (look ys = 0)) as [E0|E0].
    { left. by rewrite E0, (child_null s K r T), (child_null s' K' r' T'). }
    destruct (old_step (look ys) y (old_walk ys E0)) as [?|(Hc & Hn & Hf)]; [by left|right].
    rewrite <-E in Hc, Hn, Hf. destruct (new_on_path ys y Hc Hn) as (i & Hi & Ecut & Ei).
    assert (child (nodes s') K' (look' ys) y ≠ f) as Hnf.
    { intros Ef. apply Hpre. rewrite Ecut. rewrite <-W in Ef. rewrite Ef in Ei, Hc.
      rewrite (walk_unique s' K' r' T' curr _ _ (eq_sym Ei)); done. }
    rewrite E in Hf, Hnf, Hn. split_and!; [by destruct Hf|done|].
    rewrite Ecut. unfold cut. rewrite fmap_take. apply prefix_take.
  - rewrite (walk_snoc s' K' r' T'), (walk_snoc s K r T). rewrite E, (child_null s K r T).
    destruct (decide (child (nodes s') K' (look' ys) y = 0)) as [E0|Hc]; [by left|right].
    destruct (child_inv s' K' _ y Hc) as [Hk _]. pose proof (op_below _ _ _ _ _ O _ _ Hk Hnone) as Hn.
    destruct (new_on_path ys y Hc Hn) as (i & Hi & Ecut & Ei). split_and!; [done|done|].
    rewrite Ecut. unfold cut. rewrite fmap_take. apply prefix_take.
Qed.
End Frame.

Lemma length_spell ps : Forall (λ kx, part_ok kx.2) ps → (2 * length ps ≤ length (spell ps))%nat.
Proof.
  induction ps as [|[k x] ps IH]; intros Hps; [done|].
  apply list.Forall_cons in Hps as [(Hx & _) Hps]. specialize (IH Hps).
  rewrite spell_cons. cbn [length]. rewrite !length_app. destruct x; [done|]. simpl in *. lia.
Qed.

Lemma path_to_node_eq s K r ps : vtree s K r → is_Some (nodes s !! root_node s) → ps ≠ [] →
  Forall (λ kx, part_ok kx.2) ps →
  vfs_path_to_node (spell ps) s = Done (walk (nodes s) K (root_node s) ps.*2) s.
Proof.
  intros T Hroot Hne Hps. pose proof (length_spell ps Hps) as Hl.
  destruct ps as [|[k x] ps]; [done|]. unfold vfs_path_to_node.
  assert ((char_at (spell ((k, x) :: ps)) =? slash) = true) as -> by (by rewrite spell_cons).
  cbn [negb]. rewrite (bind_done _ _ _ (root_node s) s) by done.
  change (tail (spell ((k, x) :: ps))) with (drop 1 (spell ((k, x) :: ps))).
  pose proof (path_from_eq s K r T ((k, x) :: ps) (length (drop 1 (spell ((k, x) :: ps))))
    (root_node s) 1 Hps Hroot) as E.
  cbn [length] in Hl.
  specialize (E ltac:(rewrite length_drop; cbn [length]; lia) (λ _, or_intror eq_refl)). revert E.
  destruct (drop 1 (spell ((k, x) :: ps))) eqn:Ed; [|done]. intros _.
  apply (f_equal length) in Ed. rewrite length_drop in Ed. cbn [length] in Ed. lia.
Qed.

Lemma register_file_post s K r rn ps data size :
  vtree s K r → nodes s !! root_node s = Some rn → n_type rn = VFS_DIRECTORY →
  ps ≠ [] → Forall (λ kx, part_ok kx.2) ps → clear (nodes s) K (root_node s) ps.*2 →
  can_alloc (length ps) (venv s) →
  ∃ s' K' r' f, vfs_register_file (spell ps) data size s = Done tt s' ∧
    registered s K r s' K' r' (root_node s) f data size ∧
    walk (nodes s') K' (root_node s') ps.*2 = f ∧ vfs_path_to_node (spell ps) s' = Done f s' ∧
    (∀ qs, qs ≠ [] → Forall (λ kx, part_ok kx.2) qs → ¬ cut ps.*2 `prefix_of` cut qs.*2 →
       ∃ n n', vfs_path_to_node (spell qs) s = Done n s ∧ vfs_path_to_node (spell qs) s' = Done n' s' ∧
         (n' = n ∨ n = 0 ∧ cut qs.*2 `prefix_of` cut ps.*2)).
Proof.
  intros T Hrn Hty Hne Hps Hcl Hal. pose proof (length_spell ps Hps) as Hl.
  destruct (vt_heap _ _ _ T _ (mk_is_Some _ _ Hrn)) as [Hr0 _].
  destruct (register_from_post data size ps s K r (root_node s) rn (length (spell ps)) 1
    T Hrn Hty Hne Hps ltac:(lia) ltac:(by right) Hcl Hal) as (s' & K' & r' & f & E & R & W & O).
  destruct (rg_old _ _ _ _ _ _ _ _ _ _ R _ _ Hrn) as [ch Hch].
  assert (∀ qs, qs ≠ [] → Forall (λ kx, part_ok kx.2) qs →
    vfs_path_to_node (spell qs) s' = Done (walk (nodes s') K' (root_node s) qs.*2) s') as Ep.
  { intros qs Hq Hqs. rewrite <-(rg_root _ _ _ _ _ _ _ _ _ _ R) in Hch |- *.
    apply (path_to_node_eq s' K' r'); [apply R|by eexists|done|done]. }
  exists s', K', r', f. split_and!; [|done|by rewrite (rg_root _ _ _ _ _ _ _ _ _ _ R)|by rewrite Ep, W|].
  - unfold vfs_register_file. rewrite (bind_done _ _ _ (root_node s) s) by done.
    rewrite (proj2 (Z.eqb_neq _ _)) by done. destruct ps as [|[k x] ps]; [done|].
    assert ((char_at (spell ((k, x) :: ps)) =? slash) = true) as -> by (by rewrite spell_cons). done.
  - intros qs Hq Hqs Hpre. do 2 eexists. split_and!; [by eapply path_to_node_eq|by apply Ep|].
    destruct (walk_frame s K r T s' K' r' (root_node s) f data size ps.*2 R W O (mk_is_Some _ _ Hrn) qs.*2 Hpre)
      as [?|(? & _ & ?)]; [by left|by right].
Qed.

(** C20: a registered file is found and other paths are not disturbed.  In a tree
    without mounted drivers, for a path of non-empty parts (separated by any
    number of slashes) whose existing prefixes are directories, and with memory
    for the new nodes, [vfs_register_file] returns and [vfs_path_to_node] on the
    same path then gives a new file node with the registered data and size,
    creating missing directories on the way.  The result is again a tree, and no
    node changed except for its list of children ([registered]).  Every path that
    does not start with the registered one (part by part, in the 127 characters
    of a part that the code keeps) is looked up with the same result as before,
    except that the directories created on the way are now found.  Nothing is
    claimed of paths that start with the registered one: the new file hides what
    had that name, and what was below it. *)
Theorem vfs_register_file_correct s K r rn ps data size :
  vtree s K r → nodes s !! root_node s = Some rn → n_type rn = VFS_DIRECTORY →
  ps ≠ [] → Forall (λ kx, part_ok kx.2) ps → clear (nodes s) K (root_node s) ps.*2 →
  can_alloc (length ps) (venv s) →
  ∃ s' K' r' f, vfs_register_file (spell ps) data size s = Done tt s' ∧
    registered s K r s' K' r' (root_node s) f data size ∧
    vfs_path_to_node (spell ps) s' = Done f s' ∧
    (∀ qs, qs ≠ [] → Forall (λ kx, part_ok kx.2) qs → ¬ cut ps.*2 `prefix_of` cut qs.*2 →
       ∃ n n', vfs_path_to_node (spell qs) s = Done n s ∧ vfs_path_to_node (spell qs) s' = Done n' s' ∧
         (n' = n ∨ n = 0 ∧ cut qs.*2 `prefix_of` cut ps.*2)).
Proof.
  intros T Hrn Hty Hne Hps Hcl Hal.
  destruct (register_file_post s K r rn ps data size T Hrn Hty Hne Hps Hcl Hal)
    as (s' & K' & r' & f & E & R & _ & Ep & Hfr). eauto 10.
Qed.
End Trees.
