(* ===== verification/Vfse.v ===== *)
(** * File descriptors and pipes

    Models [lib/libc/fs/vfse.c]: the descriptor table with its reference counts,
    pipes, and the calls on paths.  The state adds to that of the file Vfs the
    open files, the pipes and [vfse_current].  A freed object is gone: using it
    is a [Fault]. *)

From S2P Require Import Prelude Proc Ring Cstring Vfs.

Definition VFSE_O_RDONLY : Z := 0.
Definition VFSE_O_WRONLY : Z := 1.
Definition VFSE_O_RDWR : Z := 2.
Definition VFSE_O_CREAT : Z := 0x40.
Definition VFSE_O_APPEND : Z := 0x400.
Definition VFSE_O_DIRECTORY : Z := 0x10000.
Definition VFSE_F_DUPFD : Z := 0.
Definition VFSE_F_GETFD : Z := 1.
Definition VFSE_F_SETFD : Z := 2.
Definition VFSE_F_GETFL : Z := 3.
Definition VFSE_F_SETFL : Z := 4.
Definition VFSE_S_IFDIR : Z := 0x4000.
Definition VFSE_S_IFCHR : Z := 0x2000.
Definition VFSE_S_IFREG : Z := 0x8000.
Definition VFSE_S_IFLNK : Z := 0xA000.
Definition VFSE_MAX_FDS : Z := 256.

(** Sizes of [vfse_file_t], [struct vfse_pipe], [vfse_process_t] and
    [struct vfse_dirent]. *)
Definition sizeof_vfse_file : Z := 48.
Definition sizeof_vfse_pipe : Z := 40.
Definition sizeof_vfse_process : Z := 6152.
Definition sizeof_vfse_dirent : Z := 268.

(** [p_buffer] is the address of the buffer, [p_bytes] its contents. *)
Record vfse_pipe_t := mkPipe {
  p_buffer : Z; p_bytes : list Z; p_size : Z; read_pos : Z; write_pos : Z;
  read_closed : bool; write_closed : bool }.
#[global] Instance vfse_pipe_eta : Etable vfse_pipe_t := λ p,
  mkPipe (p_buffer p) (p_bytes p) (p_size p) (read_pos p) (write_pos p)
    (read_closed p) (write_closed p).

Record vfse_file := mkVfseFile {
  ef_node : Z; ef_pos : Z; ef_flags : Z; fd_flags : Z; ref_count : Z; ef_pipe : Z }.
#[global] Instance vfse_file_eta : Etable vfse_file := λ f,
  mkVfseFile (ef_node f) (ef_pos f) (ef_flags f) (fd_flags f) (ref_count f) (ef_pipe f).

Record vfse_process := mkVfseProcess { fds : list Z; cwd : list Z; next_fd : Z }.
#[global] Instance vfse_process_eta : Etable vfse_process := λ p,
  mkVfseProcess (fds p) (cwd p) (next_fd p).

Record vfse_stat_t := mkStat {
  st_dev : Z; st_ino : Z; st_mode : Z; st_nlink : Z; st_uid : Z; st_gid : Z;
  st_size : Z; st_blksize : Z; st_blocks : Z }.

Record vfse_dirent := mkDirent {
  d_ino : Z; d_off : Z; d_reclen : Z; d_type : Z; d_name : list Z }.

Section State.
Context `{!KEnv}.
Record est := mkEst {
  vs : vst; efiles : gmap Z vfse_file; pipes : gmap Z vfse_pipe_t;
  vfse_current : option vfse_process }.
#[global] Instance est_eta : Etable est := λ s,
  mkEst (vs s) (efiles s) (pipes s) (vfse_current s).
End State.

(** [ops->read], [ops->write] and [ops->readdir] of the drivers. *)
Class FileOps `{!KEnv} := {
  ops_read : Z → option (Z → Z → Z → M est (Z * list Z));
  ops_write : Z → option (Z → list Z → Z → M est Z);
  ops_readdir : Z → option (Z → Z → Z → M est (Z * list vfse_dirent)) }.

Section Code.
Context `{!KEnv} `{!Drivers} `{!FileOps}.

Definition on_vfs {A} (c : M vst A) : M est A := λ s,
  match c (vs s) with
  | Done a v => Done a (s <| vs := v |>)
  | Panicked v => Panicked (s <| vs := v |>)
  | Fault => Fault
  end.
Definition e_malloc (n : Z) : M est Z := λ s,
  let '(p, e) := kmalloc n (venv (vs s)) in Done p (s <| vs := (vs s) <| venv := e |> |>).
Definition e_free (p : Z) : M est unit := λ s,
  Done tt (s <| vs := (vs s) <| venv := kfree p (venv (vs s)) |> |>
             <| efiles := delete p (efiles s) |> <| pipes := delete p (pipes s) |>).

Definition file_load (f : Z) : M est vfse_file := λ s, from_opt (efiles s !! f) s.
Definition file_upd (f : Z) (g : vfse_file → vfse_file) : M est unit :=
  x ← file_load f;
  modify (λ s, s <| efiles := <[f := g x]> (efiles s) |>).
Definition pipe_load (p : Z) : M est vfse_pipe_t := λ s, from_opt (pipes s !! p) s.
Definition pipe_store (p : Z) (x : vfse_pipe_t) : M est unit :=
  modify (λ s, s <| pipes := <[p := x]> (pipes s) |>).
Definition set_current (x : vfse_process) : M est unit :=
  modify (λ s, s <| vfse_current := Some x |>).

(** [vfse_current->fds[i]] *)
Definition fd_at (pr : vfse_process) (i : Z) : M est Z :=
  if i <? 0 then fault else from_opt (fds pr !! Z.to_nat i).

(** ** The table *)

Definition vfse_alloc_file : M est Z :=
  f ← e_malloc sizeof_vfse_file;
  whenM (nz f) (modify (λ s, s <| efiles := <[f := mkVfseFile 0 0 0 0 0 0]> (efiles s) |>)) ;;
  mret f.

Definition vfse_free_file (f : Z) : M est unit :=
  if f =? 0 then mret tt else
  x ← file_load f;
  whenM (nz (ef_pipe x))
    (p ← pipe_load (ef_pipe x);
     whenM (nz (p_buffer p)) (e_free (p_buffer p)) ;;
     e_free (ef_pipe x)) ;;
  e_free f.

(** One of the two loops of [vfse_alloc_fd]. *)
Definition claim_slot (pr : vfse_process) (file from to : Z) : M est (option Z) :=
  for_up (Z.to_nat (to - from)) from (λ i,
    x ← fd_at pr i;
    if nz x then mret None else
    set_current (pr <| fds := <[Z.to_nat i := file]> (fds pr) |> <| next_fd := i + 1 |>) ;;
    mret (Some i)).
Definition vfse_alloc_fd (file : Z) : M est Z :=
  cur ← gets vfse_current;
  match cur with
  | None => mret (-1)
  | Some pr =>
      r ← claim_slot pr file (next_fd pr) VFSE_MAX_FDS;
      match r with
      | Some i => mret i
      | None => r ← claim_slot pr file 3 (next_fd pr); mret (default (-1) r)
      end
  end.

(** The last lines of [vfse_free_fd]. *)
Definition release_slot (pr : vfse_process) (fd : Z) : vfse_process :=
  let pr := pr <| fds := <[Z.to_nat fd := 0]> (fds pr) |> in
  if fd <? next_fd pr then pr <| next_fd := fd |> else pr.
Definition vfse_free_fd (fd : Z) : M est unit :=
  if (fd <? 0) || (VFSE_MAX_FDS <=? fd) then mret tt else
  cur ← gets vfse_current;
  match cur with
  | None => mret tt
  | Some pr =>
      f ← fd_at pr fd;
      if f =? 0 then mret tt else
      file_upd f (λ x, x <| ref_count := i32 (ref_count x - 1) |>) ;;
      x ← file_load f;
      whenM (ref_count x <=? 0) (vfse_free_file f) ;;
      set_current (release_slot pr fd)
  end.

Definition vfse_get_file (fd : Z) : M est Z :=
  if (fd <? 0) || (VFSE_MAX_FDS <=? fd) then mret 0 else
  cur ← gets vfse_current;
  match cur with None => mret 0 | Some pr => fd_at pr fd end.

Definition vfse_init : M est unit :=
  p ← e_malloc sizeof_vfse_process;
  if p =? 0 then modify (λ s, s <| vfse_current := None |>) else
  set_current (mkVfseProcess (replicate (Z.to_nat VFSE_MAX_FDS) 0) [slash] 3).

Definition vfse_close (fd : Z) : M est Z :=
  f ← vfse_get_file fd;
  if f =? 0 then mret (-1) else vfse_free_fd fd ;; mret 0.

Definition vfse_dup (fd : Z) : M est Z :=
  f ← vfse_get_file fd;
  if f =? 0 then mret (-1) else
  file_upd f (λ x, x <| ref_count := i32 (ref_count x + 1) |>) ;;
  newfd ← vfse_alloc_fd f;
  if newfd <? 0 then
    file_upd f (λ x, x <| ref_count := i32 (ref_count x - 1) |>) ;; mret (-1)
  else mret newfd.

Definition vfse_dup2 (oldfd newfd : Z) : M est Z :=
  if (oldfd <? 0) || (VFSE_MAX_FDS <=? oldfd) then mret (-1) else
  if (newfd <? 0) || (VFSE_MAX_FDS <=? newfd) then mret (-1) else
  cur ← gets vfse_current;
  match cur with
  | None => mret (-1)
  | Some pr =>
      f ← fd_at pr oldfd;
      if f =? 0 then mret (-1) else
      g ← fd_at pr newfd;
      whenM (nz g) (_ ← vfse_close newfd; mret tt) ;;
      file_upd f (λ x, x <| ref_count := i32 (ref_count x + 1) |>) ;;
      cur ← gets vfse_current;
      pr ← from_opt cur;
      set_current (pr <| fds := <[Z.to_nat newfd := f]> (fds pr) |>) ;;
      mret newfd
  end.

Definition vfse_fcntl (fd cmd arg : Z) : M est Z :=
  f ← vfse_get_file fd;
  if f =? 0 then mret (-1) else
  x ← file_load f;
  if cmd =? VFSE_F_DUPFD then
    let minfd := if i32 arg <? 0 then 0 else i32 arg in
    file_upd f (λ x, x <| ref_count := i32 (ref_count x + 1) |>) ;;
    cur ← gets vfse_current;
    pr ← from_opt cur;
    r ← for_up (Z.to_nat (VFSE_MAX_FDS - minfd)) minfd (λ i,
          g ← fd_at pr i;
          if nz g then mret None else
          set_current (pr <| fds := <[Z.to_nat i := f]> (fds pr) |>) ;;
          mret (Some i));
    match r with
    | Some i => mret i
    | None => file_upd f (λ x, x <| ref_count := i32 (ref_count x - 1) |>) ;; mret (-1)
    end
  else if cmd =? VFSE_F_GETFD then mret (fd_flags x)
  else if cmd =? VFSE_F_SETFD then file_upd f (λ x, x <| fd_flags := i32 arg |>) ;; mret 0
  else if cmd =? VFSE_F_GETFL then mret (ef_flags x)
  else if cmd =? VFSE_F_SETFL then file_upd f (λ x, x <| ef_flags := i32 arg |>) ;; mret 0
  else mret (-1).

(** [vfse_open] from the point where the node is known. *)
Definition vfse_open_node (node flags : Z) : M est Z :=
  n ← on_vfs (node_load node);
  if nz (Z.land flags VFSE_O_DIRECTORY) && negb (n_type n =? VFS_DIRECTORY) then mret (-1) else
  f ← vfse_alloc_file;
  if f =? 0 then mret (-1) else
  file_upd f (λ x, x <| ef_node := node |> <| ef_pos := 0 |> <| ef_flags := flags |>
                     <| ref_count := 1 |>) ;;
  whenM (nz (Z.land flags VFSE_O_APPEND)) (file_upd f (λ x, x <| ef_pos := n_size n |>)) ;;
  fd ← vfse_alloc_fd f;
  if fd <? 0 then vfse_free_file f ;; mret (-1) else mret fd.

(** ** Reading, writing, seeking *)

Fixpoint pipe_read (n : nat) (p : vfse_pipe_t) : option (list Z * vfse_pipe_t) :=
  match n with
  | O => Some ([], p)
  | S n =>
      if read_pos p =? write_pos p then Some ([], p) else
      b ← p_bytes p !! Z.to_nat (read_pos p);
      let pos := read_pos p + 1 in
      '(l, p') ← pipe_read n (p <| read_pos := if p_size p <=? pos then 0 else pos |>);
      Some (b :: l, p')
  end.
Fixpoint pipe_write (l : list Z) (p : vfse_pipe_t) : Z * vfse_pipe_t :=
  match l with
  | [] => (0, p)
  | b :: l =>
      let next := (write_pos p + 1) `mod` p_size p in
      if next =? read_pos p then (0, p) else
      let '(n, p') := pipe_write l
        (p <| p_bytes := <[Z.to_nat (write_pos p) := b]> (p_bytes p) |> <| write_pos := next |>) in
      (n + 1, p')
  end.

(** [buf] is the address of the caller's buffer; the bytes read are returned. *)
Definition vfse_read (fd buf count : Z) : M est (Z * list Z) :=
  f ← vfse_get_file fd;
  if f =? 0 then mret (-1, []) else
  if buf =? 0 then mret (-1, []) else
  x ← file_load f;
  if nz (ef_pipe x) then
    p ← pipe_load (ef_pipe x);
    if read_closed p then mret (0, []) else
    '(l, p') ← from_opt (pipe_read (Z.to_nat count) p);
    pipe_store (ef_pipe x) p' ;;
    mret (Z.of_nat (length l), l)
  else if ef_node x =? 0 then mret (-1, []) else
  n ← on_vfs (node_load (ef_node x));
  match (if nz (n_ops n) then ops_read (n_ops n) else None) with
  | None => mret (-1, [])
  | Some rd =>
      '(ret, l) ← rd (ef_node x) count (ef_pos x);
      whenM (0 <? ret) (file_upd f (λ x, x <| ef_pos := u64 (ef_pos x + ret) |>)) ;;
      mret (ret, l)
  end.

Definition vfse_write (fd buf : Z) (l : list Z) : M est Z :=
  f ← vfse_get_file fd;
  if f =? 0 then mret (-1) else
  if buf =? 0 then mret (-1) else
  x ← file_load f;
  if nz (ef_pipe x) then
    p ← pipe_load (ef_pipe x);
    if write_closed p then mret (-1) else
    let '(n, p') := pipe_write l p in
    pipe_store (ef_pipe x) p' ;;
    mret n
  else if ef_node x =? 0 then mret (-1) else
  n ← on_vfs (node_load (ef_node x));
  match (if nz (n_ops n) then ops_write (n_ops n) else None) with
  | None => mret (-1)
  | Some wr =>
      if negb (nz (Z.land (ef_flags x) VFSE_O_WRONLY)) && negb (nz (Z.land (ef_flags x) VFSE_O_RDWR))
      then mret (-1) else
      ret ← wr (ef_node x) l (ef_pos x);
      whenM (0 <? ret)
        (file_upd f (λ x, x <| ef_pos := u64 (ef_pos x + ret) |>) ;;
         x ← file_load f;
         n ← on_vfs (node_load (ef_node x));
         whenM (n_size n <? ef_pos x)
           (on_vfs (node_upd (ef_node x) (λ n, n <| n_size := ef_pos x |>)))) ;;
      mret ret
  end.

Definition vfse_lseek (fd offset whence : Z) : M est Z :=
  f ← vfse_get_file fd;
  if f =? 0 then mret (-1) else
  x ← file_load f;
  if ef_node x =? 0 then mret (-1) else
  if nz (ef_pipe x) then mret (-1) else
  n ← on_vfs (node_load (ef_node x));
  let go new_pos :=
    if new_pos <? 0 then mret (-1) else
    file_upd f (λ x, x <| ef_pos := new_pos |>) ;; mret new_pos in
  if whence =? 0 then go offset
  else if whence =? 1 then go (i64 (ef_pos x + offset))
  else if whence =? 2 then go (i64 (n_size n + offset))
  else mret (-1).

(** ** Pipes

    The result is [pipefd], when the call returns 0. *)
Definition vfse_pipe : M est (Z * (Z * Z)) :=
  p ← e_malloc sizeof_vfse_pipe;
  if p =? 0 then mret (-1, (0, 0)) else
  b ← e_malloc 4096;
  if b =? 0 then e_free p ;; mret (-1, (0, 0)) else
  pipe_store p (mkPipe b (replicate 4096 0) 4096 0 0 false false) ;;
  reader ← vfse_alloc_file;
  writer ← vfse_alloc_file;
  if (reader =? 0) || (writer =? 0) then
    whenM (nz reader) (vfse_free_file reader) ;;
    whenM (nz writer) (vfse_free_file writer) ;;
    e_free b ;; e_free p ;; mret (-1, (0, 0))
  else
    file_upd reader (λ x, x <| ef_pipe := p |> <| ref_count := 1 |> <| ef_flags := VFSE_O_RDONLY |>) ;;
    file_upd writer (λ x, x <| ef_pipe := p |> <| ref_count := 1 |> <| ef_flags := VFSE_O_WRONLY |>) ;;
    r ← vfse_alloc_fd reader;
    w ← vfse_alloc_fd writer;
    if (r <? 0) || (w <? 0) then
      whenM (0 <=? r) (_ ← vfse_close r; mret tt) ;;
      whenM (0 <=? w) (_ ← vfse_close w; mret tt) ;;
      mret (-1, (r, w))
    else mret (0, (r, w)).

(** ** Calls on paths *)

Definition vfse_resolve_path (path : list Z) (out_len : nat) : M est (option (list Z)) :=
  if decide (out_len < 2)%nat then mret None else
  if char_at path =? slash then mret (Some (strncpy path (out_len - 1))) else
  cur ← gets vfse_current;
  match cur with
  | None => mret (Some [slash])
  | Some pr =>
      if decide (cwd pr = []) then mret (Some [slash]) else
      if decide (out_len - 1 ≤ length (cwd pr))%nat then mret None else
      let base := if List.last (cwd pr) 0 =? slash then cwd pr else cwd pr ++ [slash] in
      mret (Some (base ++ strncpy path (out_len - length base - 1)))
  end.

(** Resolve and look up; [0] when either fails. *)
Definition resolve_node (path : list Z) : M est Z :=
  r ← vfse_resolve_path path 4096;
  match r with None => mret 0 | Some a => on_vfs (vfs_path_to_node a) end.

Definition vfse_open (path : list Z) (flags : Z) : M est Z :=
  node ← resolve_node path;
  if node =? 0 then mret (-1) else vfse_open_node node flags.

Definition vfse_fill_stat (node : Z) (n : vnode) : vfse_stat_t :=
  let perm := Z.land (n_mode n) 0x1FF in
  mkStat 0 (u32 node)
    (if n_type n =? VFS_DIRECTORY then Z.lor VFSE_S_IFDIR perm
     else if n_type n =? VFS_FILE then Z.lor VFSE_S_IFREG perm
     else if n_type n =? VFS_DEVICE then Z.lor VFSE_S_IFCHR perm
     else if n_type n =? VFS_SYMLINK then Z.lor VFSE_S_IFLNK perm
     else 0)
    1 (u32 (n_uid n)) (u32 (n_gid n)) (n_size n) 4096 (u64 (n_size n + 511) `div` 512).

Definition vfse_stat (path : list Z) : M est (Z * option vfse_stat_t) :=
  node ← resolve_node path;
  if node =? 0 then mret (-1, None) else
  n ← on_vfs (node_load node);
  mret (0, Some (vfse_fill_stat node n)).
Definition vfse_lstat (path : list Z) : M est (Z * option vfse_stat_t) := vfse_stat path.
Definition vfse_fstat (fd : Z) : M est (Z * option vfse_stat_t) :=
  f ← vfse_get_file fd;
  if f =? 0 then mret (-1, None) else
  x ← file_load f;
  if ef_node x =? 0 then mret (-1, None) else
  n ← on_vfs (node_load (ef_node x));
  mret (0, Some (vfse_fill_stat (ef_node x) n)).

Definition dirent_type (type : Z) : Z :=
  if type =? VFS_DIRECTORY then 4 else if type =? VFS_FILE then 8
  else if type =? VFS_DEVICE then 2 else if type =? VFS_SYMLINK then 10 else 0.

(** The two loops of [vfse_getdents]; [fuel] is the number of nodes. *)
Fixpoint skip_children (fuel : nat) (child idx pos : Z) : M est (Z * Z) :=
  if (child =? 0) || (pos <=? idx) then mret (child, idx) else
  match fuel with
  | O => fault
  | S fuel =>
      n ← on_vfs (node_load child);
      skip_children fuel (n_next n) (u32 (idx + 1)) pos
  end.
Fixpoint list_children (fuel : nat) (f child idx total count : Z) : M est (list vfse_dirent) :=
  if (child =? 0) || (count <? total + sizeof_vfse_dirent) then mret [] else
  match fuel with
  | O => fault
  | S fuel =>
      n ← on_vfs (node_load child);
      let dent := mkDirent (u32 child) (u32 (idx + 1)) sizeof_vfse_dirent (dirent_type (n_type n))
                    (strncpy (n_name n) 255) in
      file_upd f (λ x, x <| ef_pos := u64 (ef_pos x + 1) |>) ;;
      l ← list_children fuel f (n_next n) (u32 (idx + 1)) (total + sizeof_vfse_dirent) count;
      mret (dent :: l)
  end.
Definition vfse_getdents (fd count : Z) : M est (Z * list vfse_dirent) :=
  f ← vfse_get_file fd;
  if f =? 0 then mret (-1, []) else
  x ← file_load f;
  if ef_node x =? 0 then mret (-1, []) else
  n ← on_vfs (node_load (ef_node x));
  if negb (n_type n =? VFS_DIRECTORY) then mret (-1, []) else
  match (if is_mountpoint n && nz (n_ops n) then ops_readdir (n_ops n) else None) with
  | Some rd => rd (ef_node x) (ef_pos x) count
  | None =>
      k ← gets (λ s, size (nodes (vs s)));
      '(child, idx) ← skip_children k (n_children n) 0 (ef_pos x);
      l ← list_children k f child idx 0 count;
      mret (sizeof_vfse_dirent * Z.of_nat (length l), l)
  end.

(** Calls that are not implemented: they look the path up and fail. *)
Definition vfse_mkdir (path : list Z) : M est Z := _ ← resolve_node path; mret (-1).
Definition vfse_rmdir (path : list Z) : M est Z :=
  node ← resolve_node path;
  if node =? 0 then mret (-1) else _ ← on_vfs (node_load node); mret (-1).
Definition vfse_unlink (path : list Z) : M est Z :=
  node ← resolve_node path;
  if node =? 0 then mret (-1) else _ ← on_vfs (node_load node); mret (-1).
Definition vfse_readlink (path : list Z) (buf bufsize : Z) : M est Z :=
  if (buf =? 0) || (bufsize =? 0) then mret (-1) else
  node ← resolve_node path;
  if node =? 0 then mret (-1) else _ ← on_vfs (node_load node); mret (-1).
Definition vfse_umount : M est Z := mret (-1).

Definition vfse_access (path : list Z) : M est Z :=
  node ← resolve_node path;
  mret (if node =? 0 then -1 else 0).

Definition vfse_chdir (path : list Z) : M est Z :=
  cur ← gets vfse_current;
  match cur with
  | None => mret (-1)
  | Some _ =>
      r ← vfse_resolve_path path 4096;
      match r with
      | None => mret (-1)
      | Some a =>
          node ← on_vfs (vfs_path_to_node a);
          if node =? 0 then mret (-1) else
          n ← on_vfs (node_load node);
          if negb (n_type n =? VFS_DIRECTORY) then mret (-1) else
          cur ← gets vfse_current;
          pr ← from_opt cur;
          set_current (pr <| cwd := strncpy a 4095 |>) ;; mret 0
      end
  end.

Definition vfse_getcwd (size : nat) : M est (option (list Z)) :=
  if decide (size = 0)%nat then mret None else
  cur ← gets vfse_current;
  match cur with
  | None => mret (Some [])
  | Some pr => mret (Some (strncpy (cwd pr) (size - 1)))
  end.

Definition vfse_symlink (target linkpath : list Z) : M est Z :=
  r ← vfse_resolve_path linkpath 4096;
  match r with
  | None => mret (-1)
  | Some a =>
      match strrchr a slash with
      | None => mret (-1)
      | Some i =>
          let parent_len := if i =? 0 then 1%nat else Z.to_nat i in
          parent ← on_vfs (vfs_path_to_node (strncpy a parent_len));
          if parent =? 0 then mret (-1) else
          pn ← on_vfs (node_load parent);
          if negb (n_type pn =? VFS_DIRECTORY) then mret (-1) else
          node ← on_vfs (vfs_create_node (drop (Z.to_nat (i + 1)) a) VFS_SYMLINK);
          if node =? 0 then mret (-1) else
          on_vfs (vfs_add_child parent node) ;;
          t ← e_malloc (strlen target + 1);
          on_vfs (node_upd node (λ n, n <| n_type := VFS_SYMLINK |>
            <| link_target := if t =? 0 then None else Some target |>)) ;;
          mret 0
      end
  end.
End Code.

(** ** Pipes are queues *)

Definition pipe_rep (p : vfse_pipe_t) (q : list Z) : Prop :=
  ring (p_size p) (p_bytes p) (write_pos p) (read_pos p) q.

Lemma pipe_read_spec n : ∀ p q, pipe_rep p q →
  ∃ p', pipe_read n p = Some (take n q, p') ∧ pipe_rep p' (drop n q) ∧
    read_closed p' = read_closed p ∧ write_closed p' = write_closed p ∧
    p_buffer p' = p_buffer p ∧ p_size p' = p_size p.
Proof.
  induction n as [|n IH]; intros p q R; cbn [pipe_read].
  - exists p. rewrite drop_0. by split_and!.
  - pose proof (ring_empty _ _ _ _ _ R) as He. destruct q as [|b q].
    + rewrite (proj2 (Z.eqb_eq _ _)) by (symmetry; by apply He). exists p. by split_and!.
    + rewrite (proj2 (Z.eqb_neq _ _)) by (intros E; symmetry in E; by apply He in E).
      destruct (ring_get _ _ _ _ _ _ R) as [Hb R']. rewrite Hb. cbn [mbind option_bind].
      pose proof (ring_tail _ _ _ _ _ R) as Ht.
      assert ((if p_size p <=? read_pos p + 1 then 0 else read_pos p + 1)
        = (read_pos p + 1) `mod` p_size p) as E.
      { destruct (Z.leb_spec (p_size p) (read_pos p + 1)).
        - replace (read_pos p + 1) with (p_size p) by lia. rewrite Z.mod_same; lia.
        - by rewrite Z.mod_small by lia. }
      rewrite E. set (p1 := p <| read_pos := _ |>).
      destruct (IH p1 q R') as (p' & -> & ? & ? & ? & ? & ?). exists p'. by split_and!.
Qed.

Lemma pipe_write_spec l : ∀ p q, pipe_rep p q →
  ∃ p', pipe_write l p = (Z.of_nat (length (enqueue (p_size p) q l) - length q), p') ∧
    pipe_rep p' (enqueue (p_size p) q l) ∧
    read_closed p' = read_closed p ∧ write_closed p' = write_closed p ∧
    p_buffer p' = p_buffer p ∧ p_size p' = p_size p.
Proof.
  induction l as [|b l IH]; intros p q R; cbn [pipe_write].
  - rewrite enqueue_nil, Nat.sub_diag. exists p. by split_and!.
  - pose proof (ring_full _ _ _ _ _ R) as Hf. pose proof (ring_room _ _ _ _ _ R).
    destruct (Z.eqb_spec ((write_pos p + 1) `mod` p_size p) (read_pos p)) as [E|E].
    + rewrite enqueue_full, Nat.sub_diag by (by apply Hf). exists p. by split_and!.
    + assert (Z.of_nat (length q) < p_size p - 1) as Hq by (rewrite Hf in E; lia).
      set (p1 := p <| p_bytes := _ |> <| write_pos := _ |>).
      destruct (IH p1 (q ++ [b])) as (p' & -> & Hrep & ? & ? & ? & ?); [by apply ring_put|].
      change (p_size p1) with (p_size p) in *. rewrite (enqueue_cons _ _ _ _ Hq).
      exists p'. split_and!; try done. f_equal.
      assert (length (q ++ [b]) ≤ length (enqueue (p_size p) (q ++ [b]) l))%nat as Hle
        by (unfold enqueue; rewrite (length_app (q ++ [b])); lia).
      rewrite length_app in *. cbn [length] in *. lia.
Qed.

Section PipeProps.
Context `{!KEnv} `{!Drivers} `{!FileOps}.

(** Descriptor [fd] is an end of the pipe at [p]. *)
Definition pipe_end (s : est) (fd p : Z) : Prop :=
  0 ≤ fd < VFSE_MAX_FDS ∧ p ≠ 0 ∧
  ∃ pr f x, vfse_current s = Some pr ∧ fds pr !! Z.to_nat fd = Some f ∧ f ≠ 0 ∧
    efiles s !! f = Some x ∧ ef_pipe x = p.

Lemma get_file_eq s pr fd f : vfse_current s = Some pr → 0 ≤ fd < VFSE_MAX_FDS →
  fds pr !! Z.to_nat fd = Some f → vfse_get_file fd s = Done f s.
Proof.
  intros Hc Hfd Hf. unfold vfse_get_file. rewrite (proj2 (Z.ltb_ge _ _)), (proj2 (Z.leb_gt _ _)) by lia.
  cbn [orb]. rewrite (bind_done _ _ _ (Some pr) s) by (by rewrite <-Hc).
  unfold fd_at. rewrite (proj2 (Z.ltb_ge _ _)) by lia. unfold from_opt. by rewrite Hf.
Qed.

(** The state in which only the pipe has changed. *)
Definition with_pipe (s : est) (p : Z) (x : vfse_pipe_t) : est :=
  s <| pipes := <[p := x]> (pipes s) |>.

(** C22: a pipe is a bounded queue.  Writing to an end of a pipe that holds [q]
    appends as many of the bytes as fit (one cell of the buffer stays free),
    returns their number, and changes nothing else; reading takes up to [count]
    bytes from the front of the queue, in order. *)
Theorem vfse_pipe_fifo s fd p x q buf :
  pipe_end s fd p → pipes s !! p = Some x → pipe_rep x q → buf ≠ 0 →
  (write_closed x = false → ∀ l, ∃ x',
     vfse_write fd buf l s
     = Done (Z.of_nat (length (enqueue (p_size x) q l) - length q)) (with_pipe s p x') ∧
     pipe_rep x' (enqueue (p_size x) q l) ∧ p_size x' = p_size x) ∧
  (read_closed x = false → ∀ count, ∃ x',
     let got := take (Z.to_nat count) q in
     vfse_read fd buf count s = Done (Z.of_nat (length got), got) (with_pipe s p x') ∧
     pipe_rep x' (drop (Z.to_nat count) q) ∧ p_size x' = p_size x).
Proof.
  intros (Hfd & Hp & pr & f & y & Hc & Hf & Hf0 & Hy & Ey) Hx R Hb.
  split; intros Hcl; [intros l|intros count]; unfold vfse_write, vfse_read;
    rewrite (bind_done _ _ _ _ _ (get_file_eq s pr fd f Hc Hfd Hf));
    rewrite !(proj2 (Z.eqb_neq _ _)) by done;
    rewrite (bind_done _ _ _ y s) by (unfold file_load, from_opt; by rewrite Hy);
    rewrite Ey, (proj2 (nz_true p)) by done;
    rewrite (bind_done _ _ _ x s) by (unfold pipe_load, from_opt; by rewrite Hx); rewrite Hcl.
  - destruct (pipe_write_spec l x q R) as (x' & -> & ? & _ & _ & _ & ?). by exists x'.
  - destruct (pipe_read_spec (Z.to_nat count) x q R) as (x' & -> & ? & _ & _ & _ & ?). by exists x'.
Qed.
End PipeProps.

(** ** Reference counts *)

(** How many slots hold [f]. *)
Fixpoint uses (f : Z) (l : list Z) : Z :=
  match l with [] => 0 | x :: l => (if decide (x = f) then 1 else 0) + uses f l end.

Lemma uses_insert f g h l : ∀ i, l !! i = Some h →
  uses f (<[i := g]> l)
  = uses f l - (if decide (h = f) then 1 else 0) + (if decide (g = f) then 1 else 0).
Proof.
  induction l as [|x l IH]; intros [|i] Hi; [done|done| |].
  - injection Hi as ->. cbn [uses insert list_insert]. lia.
  - cbn [insert list_insert uses]. rewrite IH by done. lia.
Qed.

Lemma uses_range f l : 0 ≤ uses f l ≤ Z.of_nat (length l).
Proof. induction l as [|x l IH]; cbn [uses length]; [lia|]. case_decide; lia. Qed.

Lemma uses_pos f l i : l !! i = Some f → 0 < uses f l.
Proof.
  revert i. induction l as [|x l IH]; intros [|i] Hi; [done|done| |]; cbn [uses].
  - injection Hi as ->. rewrite decide_True by done. pose proof (uses_range f l). lia.
  - specialize (IH i Hi). case_decide; lia.
Qed.

Section FdProps.
Context `{!KEnv} `{!KEnvOk} `{!Drivers} `{!FileOps}.
Implicit Types (s : est) (pr : vfse_process).

(** The table [l] and the open files [m] fit together: a count is the number of
    slots that hold the file (plus [d f] references in flight), no file is kept
    without a reference, and no slot dangles.  The files are not pipes. *)
Record table_ok (e : kenv) (m : gmap Z vfse_file) (l : list Z) (d : Z → Z) : Prop := {
  tb_len : Z.of_nat (length l) = VFSE_MAX_FDS;
  tb_file f x : m !! f = Some x →
    f ≠ 0 ∧ live e f ∧ ef_pipe x = 0 ∧ ref_count x = uses f l + d f ∧ 0 < ref_count x;
  tb_slot f i : l !! i = Some f → f ≠ 0 → is_Some (m !! f) }.

Record fd_inv (s : est) (pr : vfse_process) : Prop := {
  fi_cur : vfse_current s = Some pr;
  fi_next : 0 ≤ next_fd pr ≤ VFSE_MAX_FDS;
  fi_table : table_ok (venv (vs s)) (efiles s) (fds pr) (λ _, 0) }.

(** References in flight to [f]. *)
Definition held (f n : Z) : Z → Z := λ g, if decide (g = f) then n else 0.

Lemma table_fill e m l f i : table_ok e m l (held f 1) → is_Some (m !! f) → f ≠ 0 →
  l !! i = Some 0 → table_ok e m (<[i := f]> l) (λ _, 0).
Proof.
  intros [Hl Hf Hs] Hm Hf0 Hi. split.
  - by rewrite length_insert.
  - intros g x Hx. destruct (Hf g x Hx) as (? & ? & ? & Hr & ?). split_and!; try done.
    rewrite (uses_insert _ _ 0) by done. rewrite Hr. unfold held.
    rewrite (decide_False (P := 0 = g)) by congruence.
    destruct (decide (g = f)), (decide (f = g)); congruence || lia.
  - intros g j Hj Hg. destruct (decide (i = j)) as [->|Hij].
    + rewrite list_lookup_insert_eq in Hj by (by eapply lookup_lt_Some). by simplify_eq.
    + rewrite list_lookup_insert_ne in Hj by done. by eapply Hs.
Qed.

Lemma table_hold e m l f x : table_ok e m l (λ _, 0) → m !! f = Some x →
  table_ok e (<[f := x <| ref_count := i32 (ref_count x + 1) |>]> m) l (held f 1).
Proof.
  intros [Hl Hf Hs] Hx. unfold VFSE_MAX_FDS in *. split; [done| |].
  - intros g y. unfold held. destruct (decide (g = f)) as [->|Hne].
    + rewrite lookup_insert_eq. intros [= <-]. destruct (Hf f x Hx) as (? & ? & ? & Hr & ?).
      pose proof (uses_range f l). cbn.
      rewrite sint_small by (try lia; change (2 ^ (32 - 1)) with 2147483648; lia).
      split_and!; try done; lia.
    + rewrite lookup_insert_ne by done. by apply Hf.
  - intros g j Hj Hg. destruct (decide (g = f)) as [->|]; [by rewrite lookup_insert_eq|].
    rewrite lookup_insert_ne by done. by eapply Hs.
Qed.

Lemma table_unhold e m l f x : table_ok e m l (held f 1) → m !! f = Some x →
  1 < ref_count x →
  table_ok e (<[f := x <| ref_count := i32 (ref_count x - 1) |>]> m) l (λ _, 0).
Proof.
  intros [Hl Hf Hs] Hx Hone. unfold VFSE_MAX_FDS in *. split; [done| |].
  - intros g y. destruct (decide (g = f)) as [->|Hne].
    + rewrite lookup_insert_eq. intros [= <-]. destruct (Hf f x Hx) as (? & ? & ? & Hr & ?).
      pose proof (uses_range f l). unfold held in Hr. rewrite decide_True in Hr by done. cbn.
      rewrite sint_small by (try lia; change (2 ^ (32 - 1)) with 2147483648; lia).
      split_and!; try done; lia.
    + rewrite lookup_insert_ne by done. intros Hy. specialize (Hf g y Hy). unfold held in Hf.
      by rewrite decide_False in Hf.
  - intros g j Hj Hg. destruct (decide (g = f)) as [->|]; [by rewrite lookup_insert_eq|].
    rewrite lookup_insert_ne by done. by eapply Hs.
Qed.

(** Emptying a slot leaves one reference too many, which the code then drops. *)
Lemma table_clear e m l f i : table_ok e m l (λ _, 0) → l !! i = Some f → f ≠ 0 →
  table_ok e m (<[i := 0]> l) (held f 1).
Proof.
  intros [Hl Hf Hs] Hi Hf0. split.
  - by rewrite length_insert.
  - intros g x Hx. destruct (Hf g x Hx) as (? & ? & ? & Hr & ?). split_and!; try done.
    rewrite (uses_insert _ _ f) by done. rewrite Hr. unfold held.
    rewrite (decide_False (P := 0 = g)) by congruence.
    destruct (decide (g = f)), (decide (f = g)); congruence || lia.
  - intros g j Hj Hg. destruct (decide (i = j)) as [->|Hij].
    + rewrite list_lookup_insert_eq in Hj by (by eapply lookup_lt_Some). congruence.
    + rewrite list_lookup_insert_ne in Hj by done. by eapply Hs.
Qed.

Lemma table_drop e m l f x : table_ok e m l (held f 1) → m !! f = Some x → ref_count x = 1 →
  table_ok (kfree f e) (delete f m) l (λ _, 0).
Proof.
  intros [Hl Hf Hs] Hx Hone. destruct (Hf f x Hx) as (? & Hlf & ? & Hr & ?).
  unfold held in Hr. rewrite decide_True in Hr by done. split; [done| |].
  - intros g y. rewrite lookup_delete_Some. intros [Hne Hy].
    destruct (Hf g y Hy) as (? & ? & ? & Hg & ?). unfold held in Hg.
    rewrite decide_False in Hg by done. split_and!; try done. by apply kfree_other.
  - intros g j Hj Hg. rewrite lookup_delete_is_Some. split; [|by eapply Hs].
    intros <-. apply uses_pos in Hj. lia.
Qed.

(** ** The calls *)

(** The file behind a descriptor. *)
Definition at_fd (l : list Z) (fd : Z) : Z :=
  if decide (0 ≤ fd < VFSE_MAX_FDS) then default 0 (l !! Z.to_nat fd) else 0.

Definition set_fds (s : est) (pr : vfse_process) : est := s <| vfse_current := Some pr |>.

Lemma fd_lookup (l : list Z) i : Z.of_nat (length l) = VFSE_MAX_FDS → 0 ≤ i < VFSE_MAX_FDS →
  l !! Z.to_nat i = Some (at_fd l i).
Proof.
  intros Hl Hi. unfold at_fd. rewrite decide_True by done.
  destruct (lookup_lt_is_Some_2 l (Z.to_nat i)) as [x ->]; [lia|done].
Qed.

Lemma fd_at_eq s pr i : Z.of_nat (length (fds pr)) = VFSE_MAX_FDS → 0 ≤ i < VFSE_MAX_FDS →
  fd_at pr i s = Done (at_fd (fds pr) i) s.
Proof.
  intros Hl Hi. unfold fd_at, from_opt. rewrite (proj2 (Z.ltb_ge _ _)) by lia.
  by rewrite (fd_lookup _ _ Hl Hi).
Qed.

Lemma get_file_at s pr fd : vfse_current s = Some pr → Z.of_nat (length (fds pr)) = VFSE_MAX_FDS →
  vfse_get_file fd s = Done (at_fd (fds pr) fd) s.
Proof.
  intros Hc Hl. destruct (decide (0 ≤ fd < VFSE_MAX_FDS)) as [Hfd|Hfd].
  - by apply (get_file_eq s pr), fd_lookup.
  - unfold vfse_get_file, at_fd. rewrite decide_False by done.
    destruct (Z.ltb_spec fd 0), (Z.leb_spec VFSE_MAX_FDS fd); try done. lia.
Qed.

(** A loop that fills the first free slot from [from] on with the process [g i]. *)
Lemma search_slot s pr (g : Z → vfse_process) from to :
  Z.of_nat (length (fds pr)) = VFSE_MAX_FDS → 0 ≤ from → to ≤ VFSE_MAX_FDS →
  ∃ r s', for_up (Z.to_nat (to - from)) from (λ i,
      x ← fd_at pr i;
      if nz x then mret None else set_current (g i) ;; mret (Some i)) s = Done r s' ∧
    match r with
    | None => s' = s
    | Some i => from ≤ i < to ∧ at_fd (fds pr) i = 0 ∧ s' = set_fds s (g i)
    end.
Proof.
  intros Hl Hf Ht. apply wp_run.
  eapply wp_mono; [apply (wp_for_up _ _ _ (λ _ s', s' = s)
    (λ i s', from ≤ i < to ∧ at_fd (fds pr) i = 0 ∧ s' = set_fds s (g i))); [|done]|].
  - intros k s1 Hk ->. apply wp_bind. eapply wp_of_eq; [apply fd_at_eq; [done|lia]|].
    destruct (nz _) eqn:E; [by apply wp_ret|]. apply nz_false in E.
    apply wp_bind, wp_modify, wp_ret. split_and!; [lia|lia|done|done].
  - intros [i|] s'; [done|]. done.
Qed.

Lemma alloc_fd_post s pr f : vfse_current s = Some pr →
  Z.of_nat (length (fds pr)) = VFSE_MAX_FDS → 0 ≤ next_fd pr ≤ VFSE_MAX_FDS →
  ∃ r s', vfse_alloc_fd f s = Done r s' ∧
    ((r = -1 ∧ s' = s) ∨
     (0 ≤ r < VFSE_MAX_FDS ∧ at_fd (fds pr) r = 0 ∧
      s' = set_fds s (pr <| fds := <[Z.to_nat r := f]> (fds pr) |> <| next_fd := r + 1 |>))).
Proof.
  intros Hc Hl Hn. unfold vfse_alloc_fd, claim_slot.
  rewrite (bind_done _ _ _ (Some pr) s) by (by rewrite <-Hc).
  set (g := λ i, pr <| fds := <[Z.to_nat i := f]> (fds pr) |> <| next_fd := i + 1 |>).
  destruct (search_slot s pr g (next_fd pr) VFSE_MAX_FDS Hl) as (r & s1 & E & Hr); [lia|lia|].
  rewrite (bind_done _ _ _ _ _ E). destruct r as [i|].
  - exists i, s1. split; [done|]. right. split_and!; [lia|lia|apply Hr|apply Hr].
  - subst s1. destruct (search_slot s pr g 3 (next_fd pr) Hl) as (r & s1 & E1 & Hr); [lia|lia|].
    rewrite (bind_done _ _ _ _ _ E1). destruct r as [i|].
    + exists i, s1. split; [done|]. right. split_and!; [lia|lia|apply Hr|apply Hr].
    + exists (-1), s1. split; [done|]. left. by subst.
Qed.

Lemma file_upd_eq s f x g : efiles s !! f = Some x →
  file_upd f g s = Done tt (s <| efiles := <[f := g x]> (efiles s) |>).
Proof.
  intros Hx. unfold file_upd.
  by rewrite (bind_done _ _ _ x s) by (unfold file_load, from_opt; by rewrite Hx).
Qed.

Lemma free_file_eq s f x : efiles s !! f = Some x → f ≠ 0 → ef_pipe x = 0 →
  vfse_free_file f s = e_free f s.
Proof.
  intros Hx Hf Hp. unfold vfse_free_file. rewrite (proj2 (Z.eqb_neq _ _)) by done.
  rewrite (bind_done _ _ _ x s) by (unfold file_load, from_opt; by rewrite Hx). by rewrite Hp.
Qed.

(** The open file of a used slot. *)
Lemma inv_file s pr fd : fd_inv s pr → at_fd (fds pr) fd ≠ 0 →
  0 ≤ fd < VFSE_MAX_FDS ∧ fds pr !! Z.to_nat fd = Some (at_fd (fds pr) fd) ∧
  ∃ x, efiles s !! at_fd (fds pr) fd = Some x.
Proof.
  intros [_ _ Ht] Hne. assert (0 ≤ fd < VFSE_MAX_FDS) as Hfd.
  { unfold at_fd in Hne. by case_decide. }
  pose proof (fd_lookup _ _ (tb_len _ _ _ _ Ht) Hfd) as Hl.
  destruct (tb_slot _ _ _ _ Ht _ _ Hl Hne) as [x Hx]. split_and!; [lia|lia|done|by exists x].
Qed.

(** [close] *)

Lemma release_slot_fds pr fd : fds (release_slot pr fd) = <[Z.to_nat fd := 0]> (fds pr).
Proof. unfold release_slot. by destruct (_ <? _). Qed.

Lemma release_slot_next pr fd : 0 ≤ fd < VFSE_MAX_FDS → 0 ≤ next_fd pr ≤ VFSE_MAX_FDS →
  0 ≤ next_fd (release_slot pr fd) ≤ VFSE_MAX_FDS.
Proof.
  intros ? ?. unfold release_slot.
  change (next_fd (pr <| fds := <[Z.to_nat fd := 0]> (fds pr) |>)) with (next_fd pr).
  destruct (_ <? _); cbn; lia.
Qed.

Lemma free_fd_post s pr fd : fd_inv s pr → at_fd (fds pr) fd ≠ 0 →
  ∃ s', vfse_free_fd fd s = Done tt s' ∧ fd_inv s' (release_slot pr fd).
Proof.
  intros HI Hne. destruct (inv_file s pr fd HI Hne) as (Hfd & Hl & x & Hx).
  destruct HI as [Hc Hn Ht]. set (f := at_fd (fds pr) fd) in *.
  pose proof (table_clear _ _ _ _ _ Ht Hl Hne) as Ht1. rewrite <-release_slot_fds in Ht1.
  destruct (tb_file _ _ _ _ Ht f x Hx) as (_ & _ & Hp & Hr & Hpos).
  pose proof (uses_range f (fds pr)) as Hu. rewrite (tb_len _ _ _ _ Ht) in Hu.
  pose proof (release_slot_next pr fd Hfd Hn) as Hn'.
  unfold vfse_free_fd. rewrite (proj2 (Z.ltb_ge _ _)), (proj2 (Z.leb_gt _ _)) by lia. cbn [orb].
  rewrite (bind_done _ _ _ (Some pr) s) by (by rewrite <-Hc).
  rewrite (bind_done _ _ _ f s) by (apply fd_at_eq; [apply Ht|lia]).
  rewrite (proj2 (Z.eqb_neq f 0)) by done.
  rewrite (bind_done _ _ _ _ _ (file_upd_eq s f x _ Hx)).
  assert (i32 (ref_count x - 1) = ref_count x - 1) as E1.
  { unfold VFSE_MAX_FDS in *. apply sint_small; [lia|]. change (2 ^ (32 - 1)) with 2147483648. lia. }
  set (x1 := x <| ref_count := i32 (ref_count x - 1) |>).
  set (s1 := s <| efiles := <[f := x1]> (efiles s) |>).
  assert (efiles s1 !! f = Some x1) as Hx1 by (apply lookup_insert_eq).
  rewrite (bind_done _ _ _ x1 s1) by (unfold file_load, from_opt; by rewrite Hx1).
  change (ref_count x1) with (i32 (ref_count x - 1)). rewrite E1.
  destruct (Z.leb_spec (ref_count x - 1) 0) as [Hz|Hz]; cbn [whenM].
  - rewrite (bind_done _ _ _ _ _ (eq_trans (free_file_eq s1 f x1 Hx1 Hne Hp) eq_refl)).
    eexists. split; [done|]. split; [done|done|].
    cbn. rewrite delete_insert_eq. apply (table_drop _ _ _ _ x); [done|done|lia].
  - eexists. split; [done|]. split; [done|done|].
    apply (table_unhold _ _ _ f x Ht1 Hx). lia.
Qed.

Lemma close_post s pr fd : fd_inv s pr →
  if decide (at_fd (fds pr) fd = 0) then vfse_close fd s = Done (-1) s
  else ∃ s', vfse_close fd s = Done 0 s' ∧ fd_inv s' (release_slot pr fd).
Proof.
  intros HI. pose proof HI as [Hc _ Ht]. unfold vfse_close.
  rewrite (bind_done _ _ _ _ _ (get_file_at s pr fd Hc (tb_len _ _ _ _ Ht))).
  case_decide as E; [by rewrite E|]. rewrite (proj2 (Z.eqb_neq _ _)) by done.
  destruct (free_fd_post s pr fd HI E) as (s' & E' & HI'). exists s'.
  by rewrite (bind_done _ _ _ _ _ E').
Qed.

(** [dup] and [fcntl(F_DUPFD)]: a reference is taken, then a slot looked for. *)

Definition hold (s : est) (f : Z) (x : vfse_file) : est :=
  s <| efiles := <[f := x <| ref_count := i32 (ref_count x + 1) |>]> (efiles s) |>.

Lemma hold_table s pr f x : fd_inv s pr → efiles s !! f = Some x →
  table_ok (venv (vs s)) (efiles (hold s f x)) (fds pr) (held f 1).
Proof. intros [_ _ Ht] Hx. by apply table_hold. Qed.

(** No slot was found: the reference is dropped again. *)
Lemma unhold_post s pr f x : fd_inv s pr → efiles s !! f = Some x →
  ∃ s', file_upd f (λ x, x <| ref_count := i32 (ref_count x - 1) |>) (hold s f x) = Done tt s' ∧
    fd_inv s' pr.
Proof.
  intros HI Hx. pose proof (hold_table s pr f x HI Hx) as Ht1. destruct HI as [Hc Hn Ht].
  assert (efiles (hold s f x) !! f = Some (x <| ref_count := i32 (ref_count x + 1) |>)) as Hx1
    by (apply lookup_insert_eq).
  destruct (tb_file _ _ _ _ Ht f x Hx) as (_ & _ & _ & Hr & Hpos).
  destruct (tb_file _ _ _ _ Ht1 f _ Hx1) as (_ & _ & _ & Hr1 & _).
  unfold held in Hr1. rewrite decide_True in Hr1 by done.
  rewrite (file_upd_eq _ f _ _ Hx1). eexists. split; [done|]. split; [done|done|].
  by apply table_unhold; [| |lia].
Qed.

(** A slot was found: the reference is in the table. *)
Lemma fill_inv s pr f x r n : fd_inv s pr → efiles s !! f = Some x → f ≠ 0 →
  0 ≤ r < VFSE_MAX_FDS → at_fd (fds pr) r = 0 → 0 ≤ n ≤ VFSE_MAX_FDS →
  let pr' := pr <| fds := <[Z.to_nat r := f]> (fds pr) |> <| next_fd := n |> in
  fd_inv (set_fds (hold s f x) pr') pr'.
Proof.
  intros HI Hx Hf Hr H0' Hn. pose proof (hold_table s pr f x HI Hx) as Ht1.
  pose proof HI as [_ _ Ht]. split; [done|done|].
  apply table_fill; [done|eexists; apply lookup_insert_eq|done|].
  rewrite <-H0'. apply fd_lookup; [apply Ht|done].
Qed.

(** What [dup]-like calls do to the table. *)
Definition duplicated (l l' : list Z) (fd r : Z) : Prop :=
  (r = -1 ∧ l' = l) ∨
  (at_fd l fd ≠ 0 ∧ 0 ≤ r < VFSE_MAX_FDS ∧ at_fd l r = 0 ∧ l' = <[Z.to_nat r := at_fd l fd]> l).

Lemma dup_post s pr fd : fd_inv s pr →
  ∃ r s' pr', vfse_dup fd s = Done r s' ∧ fd_inv s' pr' ∧ duplicated (fds pr) (fds pr') fd r.
Proof.
  intros HI. pose proof HI as [Hc Hn Ht]. unfold vfse_dup.
  rewrite (bind_done _ _ _ _ _ (get_file_at s pr fd Hc (tb_len _ _ _ _ Ht))).
  destruct (Z.eqb_spec (at_fd (fds pr) fd) 0) as [E|Hne].
  { exists (-1), s, pr. split_and!; [done|done|by left]. }
  destruct (inv_file s pr fd HI Hne) as (_ & _ & x & Hx). set (f := at_fd (fds pr) fd) in *.
  rewrite (bind_done _ _ _ _ _ (file_upd_eq s f x _ Hx)). fold (hold s f x).
  destruct (alloc_fd_post (hold s f x) pr f Hc (tb_len _ _ _ _ Ht) Hn)
    as (r & s1 & E & [[-> ->]|(Hr & Hz & ->)]); rewrite (bind_done _ _ _ _ _ E).
  - destruct (unhold_post s pr f x HI Hx) as (s' & E' & HI'). exists (-1), s', pr.
    cbn [Z.ltb Z.compare]. rewrite (bind_done _ _ _ _ _ E'). split_and!; [done|done|by left].
  - rewrite (proj2 (Z.ltb_ge _ _)) by lia. eexists r, _, _.
    split_and!; [done|apply fill_inv; try done; lia|by right].
Qed.

Lemma fcntl_dup_post s pr fd arg : fd_inv s pr →
  ∃ r s' pr', vfse_fcntl fd VFSE_F_DUPFD arg s = Done r s' ∧ fd_inv s' pr' ∧
    duplicated (fds pr) (fds pr') fd r ∧ (0 ≤ r → i32 arg ≤ r).
Proof.
  intros HI. pose proof HI as [Hc Hn Ht]. unfold vfse_fcntl.
  rewrite (bind_done _ _ _ _ _ (get_file_at s pr fd Hc (tb_len _ _ _ _ Ht))).
  destruct (Z.eqb_spec (at_fd (fds pr) fd) 0) as [E|Hne].
  { exists (-1), s, pr. split_and!; [done|done|by left|lia]. }
  destruct (inv_file s pr fd HI Hne) as (_ & _ & x & Hx). set (f := at_fd (fds pr) fd) in *.
  rewrite (bind_done _ _ _ x s) by (unfold file_load, from_opt; by rewrite Hx).
  change (VFSE_F_DUPFD =? VFSE_F_DUPFD) with true. cbv iota zeta.
  set (minfd := if i32 arg <? 0 then 0 else i32 arg).
  assert (0 ≤ minfd ∧ i32 arg ≤ minfd) as [Hm Hm'] by (subst minfd; destruct (Z.ltb_spec (i32 arg) 0); lia).
  rewrite (bind_done _ _ _ _ _ (file_upd_eq s f x _ Hx)). fold (hold s f x).
  rewrite (bind_done _ _ _ (Some pr) (hold s f x)) by (by rewrite <-Hc).
  rewrite (bind_done _ _ _ pr (hold s f x)) by done.
  destruct (search_slot (hold s f x) pr (λ i, pr <| fds := <[Z.to_nat i := f]> (fds pr) |>)
    minfd VFSE_MAX_FDS (tb_len _ _ _ _ Ht) Hm ltac:(done)) as (r & s1 & E & Hr).
  rewrite (bind_done _ _ _ _ _ E). destruct r as [i|].
  - destruct Hr as (Hi & Hz & ->). eexists i, _, (pr <| fds := <[Z.to_nat i := f]> (fds pr) |>).
    split_and!; [done| |right; split_and!; done || lia|lia].
    pose proof (fill_inv s pr f x i (next_fd pr) HI Hx Hne ltac:(lia) Hz Hn) as HI'.
    cbv zeta in HI'. by destruct pr.
  - subst s1. destruct (unhold_post s pr f x HI Hx) as (s' & E' & HI').
    exists (-1), s', pr. rewrite (bind_done _ _ _ _ _ E'). split_and!; [done|done|by left|lia].
Qed.

(** The commands of [fcntl] that look at or set flags. *)
Lemma fcntl_flags_post s pr fd cmd arg : fd_inv s pr → cmd ≠ VFSE_F_DUPFD →
  ∃ r s', vfse_fcntl fd cmd arg s = Done r s' ∧ fd_inv s' pr.
Proof.
  intros HI Hcmd. pose proof HI as [Hc Hn Ht]. unfold vfse_fcntl.
  rewrite (bind_done _ _ _ _ _ (get_file_at s pr fd Hc (tb_len _ _ _ _ Ht))).
  destruct (Z.eqb_spec (at_fd (fds pr) fd) 0) as [E|Hne]; [by eexists _, _|].
  destruct (inv_file s pr fd HI Hne) as (_ & _ & x & Hx). set (f := at_fd (fds pr) fd) in *.
  rewrite (bind_done _ _ _ x s) by (unfold file_load, from_opt; by rewrite Hx).
  rewrite (proj2 (Z.eqb_neq cmd VFSE_F_DUPFD)) by done.
  assert (∀ g : vfse_file → vfse_file,
    ref_count (g x) = ref_count x → ef_pipe (g x) = ef_pipe x →
    ∃ s', (file_upd f g ;; mret 0) s = Done 0 s' ∧ fd_inv s' pr) as Hset.
  { intros g Er Ep. rewrite (bind_done _ _ _ _ _ (file_upd_eq s f x _ Hx)).
    eexists. split; [done|]. split; [done|done|]. destruct Ht as [Hl Hf Hs]. split; [done| |].
    - intros h y. destruct (decide (h = f)) as [->|]; cbn.
      + rewrite lookup_insert_eq. intros [= <-]. rewrite Er, Ep. by apply Hf.
      + rewrite lookup_insert_ne by done. apply Hf.
    - intros h j Hj Hh. cbn. rewrite lookup_insert_is_Some'. right. by eapply Hs. }
  destruct (cmd =? VFSE_F_GETFD); [by eexists _, _|].
  destruct (cmd =? VFSE_F_SETFD); [eexists; by apply Hset|].
  destruct (cmd =? VFSE_F_GETFL); [by eexists _, _|].
  destruct (cmd =? VFSE_F_SETFL); [eexists; by apply Hset|by eexists _, _].
Qed.

(** [dup2] *)

Lemma dup2_fill s pr f x b : fd_inv s pr → efiles s !! f = Some x → f ≠ 0 →
  0 ≤ b < VFSE_MAX_FDS → at_fd (fds pr) b = 0 →
  ∃ s' pr', (file_upd f (λ x, x <| ref_count := i32 (ref_count x + 1) |>) ;;
     cur ← gets vfse_current;
     pr ← from_opt cur;
     set_current (pr <| fds := <[Z.to_nat b := f]> (fds pr) |>) ;;
     mret b) s = Done b s' ∧ fd_inv s' pr' ∧ fds pr' = <[Z.to_nat b := f]> (fds pr).
Proof.
  intros HI Hx Hf Hb Hz. pose proof HI as [Hc Hn _].
  rewrite (bind_done _ _ _ _ _ (file_upd_eq s f x _ Hx)). fold (hold s f x).
  rewrite (bind_done _ _ _ (Some pr) (hold s f x)) by (by rewrite <-Hc).
  rewrite (bind_done _ _ _ pr (hold s f x)) by done.
  eexists _, (pr <| fds := <[Z.to_nat b := f]> (fds pr) |>). split_and!; [done| |done].
  pose proof (fill_inv s pr f x b (next_fd pr) HI Hx Hf Hb Hz Hn) as HI'.
  cbv zeta in HI'. by destruct pr.
Qed.

Lemma dup2_post s pr a b : fd_inv s pr → a ≠ b →
  ∃ r s' pr', vfse_dup2 a b s = Done r s' ∧ fd_inv s' pr' ∧
    if decide (at_fd (fds pr) a ≠ 0 ∧ 0 ≤ b < VFSE_MAX_FDS)
    then r = b ∧ fds pr' = <[Z.to_nat b := at_fd (fds pr) a]> (fds pr)
    else r = -1 ∧ fds pr' = fds pr.
Proof.
  intros HI Hab. pose proof HI as [Hc Hn Ht]. pose proof (tb_len _ _ _ _ Ht) as Hl. unfold vfse_dup2.
  destruct (decide (0 ≤ a < VFSE_MAX_FDS)) as [Ha|Ha].
  2: { exists (-1), s, pr. rewrite decide_False
         by (intros [Hne _]; apply Hne; unfold at_fd; by rewrite decide_False).
       destruct (Z.ltb_spec a 0), (Z.leb_spec VFSE_MAX_FDS a); try (by split_and!). lia. }
  rewrite (proj2 (Z.ltb_ge a 0)), (proj2 (Z.leb_gt VFSE_MAX_FDS a)) by lia. cbn [orb].
  destruct (decide (0 ≤ b < VFSE_MAX_FDS)) as [Hb|Hb].
  2: { exists (-1), s, pr. rewrite decide_False by tauto.
       destruct (Z.ltb_spec b 0), (Z.leb_spec VFSE_MAX_FDS b); try (by split_and!). lia. }
  rewrite (proj2 (Z.ltb_ge b 0)), (proj2 (Z.leb_gt VFSE_MAX_FDS b)) by lia. cbn [orb].
  rewrite (bind_done _ _ _ (Some pr) s) by (by rewrite <-Hc).
  rewrite (bind_done _ _ _ _ _ (fd_at_eq s pr a Hl Ha)).
  destruct (Z.eqb_spec (at_fd (fds pr) a) 0) as [E|Hne].
  { exists (-1), s, pr. rewrite decide_False by tauto. by split_and!. }
  rewrite (bind_done _ _ _ _ _ (fd_at_eq s pr b Hl Hb)).
  destruct (inv_file s pr a HI Hne) as (_ & Hla & x & Hx). set (f := at_fd (fds pr) a) in *.
  destruct (nz (at_fd (fds pr) b)) eqn:Eb.
  - apply nz_true in Eb. pose proof (close_post s pr b HI) as Hcl. rewrite decide_False in Hcl by done.
    destruct Hcl as (s1 & E1 & HI1). cbn [whenM].
    rewrite (bind_done _ _ _ tt s1) by (by rewrite (bind_done _ _ _ _ _ E1)).
    pose proof (release_slot_fds pr b) as Ef. pose proof HI1 as [_ _ Ht1].
    assert (fds (release_slot pr b) !! Z.to_nat a = Some f) as Hla1
      by (rewrite Ef, list_lookup_insert_ne by lia; done).
    destruct (tb_slot _ _ _ _ Ht1 _ _ Hla1 Hne) as [x1 Hx1].
    destruct (dup2_fill s1 (release_slot pr b) f x1 b HI1 Hx1 Hne Hb) as (s' & pr' & E' & HI' & Ef').
    { unfold at_fd. rewrite decide_True, Ef, list_lookup_insert_eq by (done || lia). done. }
    exists b, s', pr'. rewrite E', decide_True by done. split_and!; [done|done|done|].
    by rewrite Ef', Ef, list_insert_insert_eq.
  - apply nz_false in Eb. cbn [whenM]. rewrite (bind_done _ _ _ tt s) by done.
    destruct (dup2_fill s pr f x b HI Hx Hne Hb Eb) as (s' & pr' & E' & HI' & Ef').
    exists b, s', pr'. by rewrite E', decide_True.
Qed.

(** [open] *)

Lemma table_env e e' m l d : (∀ q, live e q → live e' q) → table_ok e m l d → table_ok e' m l d.
Proof.
  intros He [Hl Hf Hs]. split; [done| |done]. intros f x Hx.
  destruct (Hf f x Hx) as (? & ? & ? & ? & ?). split_and!; try done. by apply He.
Qed.

Lemma table_new e e' m l f n x : table_ok e m l (λ _, 0) → kmalloc n e = (f, e') → f ≠ 0 →
  ef_pipe x = 0 → ref_count x = 1 → m !! f = None ∧ table_ok e' (<[f := x]> m) l (held f 1).
Proof.
  intros [Hl Hf Hs] Ha Hf0 Hp Hr. destruct (kmalloc_fresh _ _ _ _ Ha Hf0) as [Hnl Hlive].
  assert (m !! f = None) as Hm.
  { apply eq_None_not_Some. intros [y Hy]. by destruct (Hf f y Hy) as (_ & ? & _). }
  split; [done|]. split; [done| |].
  - intros g y. unfold held. destruct (decide (g = f)) as [->|].
    + rewrite lookup_insert_eq. intros [= <-]. split_and!; [done|apply Hlive; by left|done| |lia].
      cut (uses f l = 0); [lia|]. clear -Hs Hm Hf0. induction l as [|z l IH]; [done|]. cbn [uses].
      rewrite decide_False, IH; [done| |].
      * intros g i Hi. by apply (Hs g (S i)).
      * intros ->. destruct (Hs f 0%nat eq_refl Hf0). congruence.
    + rewrite lookup_insert_ne by done. intros Hy. destruct (Hf g y Hy) as (? & ? & ? & ? & ?).
      split_and!; try done. apply Hlive. by right.
  - intros g i Hi Hg. rewrite lookup_insert_is_Some'. right. by eapply Hs.
Qed.

(** An open file, before it gets its slot. *)
Definition opened (s : est) (e : kenv) (f : Z) (x : vfse_file) : est :=
  s <| vs := (vs s) <| venv := e |> |> <| efiles := <[f := x]> (efiles s) |>.

Lemma opened_upd s e f x g : file_upd f g (opened s e f x) = Done tt (opened s e f (g x)).
Proof.
  rewrite (file_upd_eq _ f x) by apply lookup_insert_eq. unfold opened. cbn. by rewrite insert_insert_eq.
Qed.

(** What [open] does to the table and the files. *)
Definition opens (s s' : est) (l l' : list Z) (node flags r : Z) : Prop :=
  (r = -1 ∧ l' = l) ∨
  (0 ≤ r < VFSE_MAX_FDS ∧ at_fd l r = 0 ∧
   ∃ f x, l' = <[Z.to_nat r := f]> l ∧ efiles s !! f = None ∧ efiles s' !! f = Some x ∧
     ef_node x = node ∧ ef_flags x = flags ∧ ref_count x = 1).

Lemma open_slot s pr e f x node flags : fd_inv s pr →
  kmalloc sizeof_vfse_file (venv (vs s)) = (f, e) → f ≠ 0 →
  ef_pipe x = 0 → ref_count x = 1 → ef_node x = node → ef_flags x = flags →
  ∃ r s' pr', (fd ← vfse_alloc_fd f; if fd <? 0 then vfse_free_file f ;; mret (-1) else mret fd)
      (opened s e f x) = Done r s' ∧
    fd_inv s' pr' ∧ opens s s' (fds pr) (fds pr') node flags r.
Proof.
  intros [Hc Hn Ht] Ha Hf0 Hp Hr Hnode Hfl.
  destruct (table_new _ _ _ _ _ _ x Ht Ha Hf0 Hp Hr) as [Hm Ht1].
  assert (efiles (opened s e f x) !! f = Some x) as Hx by apply lookup_insert_eq.
  destruct (alloc_fd_post (opened s e f x) pr f Hc (tb_len _ _ _ _ Ht) Hn)
    as (r & s1 & E & [[-> ->]|(Hr' & Hz & ->)]); rewrite (bind_done _ _ _ _ _ E).
  - cbn [Z.ltb Z.compare].
    rewrite (bind_done _ _ _ _ _ (eq_trans (free_file_eq _ f x Hx Hf0 Hp) eq_refl)).
    eexists (-1), _, pr. split_and!; [done| |by left]. split; [done|done|]. by apply (table_drop _ _ _ _ x).
  - rewrite (proj2 (Z.ltb_ge _ _)) by lia.
    eexists r, _, (pr <| fds := <[Z.to_nat r := f]> (fds pr) |> <| next_fd := r + 1 |>).
    split_and!; [done| |right; split_and!; [lia|lia|done|by exists f, x]].
    split; [done|cbn; lia|]. apply table_fill; [done|by eexists|done|].
    rewrite <-Hz. apply fd_lookup; [apply Ht|done].
Qed.

Lemma open_node_post s pr node flags : fd_inv s pr → is_Some (nodes (vs s) !! node) →
  ∃ r s' pr', vfse_open_node node flags s = Done r s' ∧ fd_inv s' pr' ∧
    opens s s' (fds pr) (fds pr') node flags r.
Proof.
  intros HI [n Hnode]. pose proof HI as [Hc Hn Ht]. unfold vfse_open_node.
  rewrite (bind_done _ _ _ n s)
    by (unfold on_vfs, node_load, from_opt; rewrite Hnode; by destruct s as [[] ? ? ?]).
  destruct (_ && _); [exists (-1), s, pr; split_and!; [done|done|by left]|].
  unfold vfse_alloc_file, e_malloc.
  destruct (kmalloc sizeof_vfse_file (venv (vs s))) as [f e] eqn:Ha.
  destruct (decide (f = 0)) as [->|Hf0].
  - eexists (-1), _, pr. unfold mbind, M_bind. rewrite Ha. split_and!; [done| |by left].
    split; [done|done|]. cbn. eapply table_env; [|done]. intros q. by apply (kmalloc_null _ _ _ Ha).
  - rewrite (bind_done _ _ _ f (opened s e f (mkVfseFile 0 0 0 0 0 0))).
    2: { unfold mbind, M_bind. rewrite Ha. by rewrite (proj2 (nz_true f)). }
    rewrite (proj2 (Z.eqb_neq f 0)) by done. rewrite (bind_done _ _ _ _ _ (opened_upd _ _ _ _ _)).
    destruct (nz (Z.land flags VFSE_O_APPEND)); cbn [whenM].
    + rewrite (bind_done _ _ _ _ _ (opened_upd _ _ _ _ _)). by apply open_slot.
    + rewrite (bind_done _ _ _ tt (opened s e f _) eq_refl). by apply open_slot.
Qed.

(** ** The theorem *)

Inductive fd_call :=
| COpen (node flags : Z) | CClose (fd : Z) | CDup (fd : Z) | CDup2 (oldfd newfd : Z)
| CFcntl (fd cmd arg : Z).

Definition run_call (c : fd_call) : M est Z :=
  match c with
  | COpen node flags => vfse_open_node node flags
  | CClose fd => vfse_close fd
  | CDup fd => vfse_dup fd
  | CDup2 a b => vfse_dup2 a b
  | CFcntl fd cmd arg => vfse_fcntl fd cmd arg
  end.

Definition call_ok (s : est) (c : fd_call) : Prop :=
  match c with COpen node _ => is_Some (nodes (vs s) !! node) | CDup2 a b => a ≠ b | _ => True end.

(** What a call returns and does to the table. *)
Definition call_spec (s s' : est) (c : fd_call) (l l' : list Z) (r : Z) : Prop :=
  match c with
  | COpen node flags => opens s s' l l' node flags r
  | CClose fd => if decide (at_fd l fd = 0) then r = -1 ∧ l' = l
                 else r = 0 ∧ l' = <[Z.to_nat fd := 0]> l
  | CDup fd => duplicated l l' fd r
  | CDup2 a b => if decide (at_fd l a ≠ 0 ∧ 0 ≤ b < VFSE_MAX_FDS)
                 then r = b ∧ l' = <[Z.to_nat b := at_fd l a]> l else r = -1 ∧ l' = l
  | CFcntl fd cmd arg => if decide (cmd = VFSE_F_DUPFD)
                         then duplicated l l' fd r ∧ (0 ≤ r → i32 arg ≤ r) else l' = l
  end.

(** C21: the descriptor table and its reference counts.  In a table of regular
    files every count is the number of descriptors of the file, every file has
    a descriptor and no descriptor dangles.  [open], [close], [dup], [dup2] with
    two different descriptors and [fcntl] always return, keep this, and change
    the table only at the slot they are meant to change; in particular a file
    is freed exactly when its last descriptor is closed. *)
Theorem vfse_fd_correct s pr c : fd_inv s pr → call_ok s c →
  ∃ r s' pr', run_call c s = Done r s' ∧ fd_inv s' pr' ∧ call_spec s s' c (fds pr) (fds pr') r.
Proof.
  intros HI Hok. destruct c as [node flags|fd|fd|a b|fd cmd arg]; cbn [run_call call_spec call_ok] in *.
  - by apply open_node_post.
  - pose proof (close_post s pr fd HI) as Hcl. case_decide.
    + by exists (-1), s, pr.
    + destruct Hcl as (s' & E & HI'). exists 0, s', (release_slot pr fd).
      split_and!; [done|done|done|apply release_slot_fds].
  - by apply dup_post.
  - by apply dup2_post.
  - case_decide as E; [subst cmd; by apply fcntl_dup_post|].
    destruct (fcntl_flags_post s pr fd cmd arg HI E) as (r & s' & E' & HI'). by exists r, s', pr.
Qed.
End FdProps.
