(* ===== verification/Cpio.v ===== *)
(** * The archive of the initial file system

    Models [lib/libc/fs/cpio.c]: an archive in memory, given by its address and
    its bytes, is unpacked into the tree of files.  Reading beyond the bytes is a
    fault. *)

From S2P Require Import Prelude Proc Cstring Vfs Vfse Bytes Printf.

(** ** The code *)

(** The fields of [struct cpio_header] that are used, and its size. *)
Definition H_mode : nat := 14.
Definition H_uid : nat := 22.
Definition H_gid : nat := 30.
Definition H_filesize : nat := 54.
Definition H_namesize : nat := 94.
Definition sizeof_cpio_header : nat := 110.

Definition hex8_step (res c : Z) : Z :=
  let res := u32 (Z.shiftl res 4) in
  if (48 <=? c) && (c <=? 57) then u32 (res + (c - 48))
  else if (65 <=? c) && (c <=? 70) then u32 (res + (c - 65 + 10))
  else if (97 <=? c) && (c <=? 102) then u32 (res + (c - 97 + 10))
  else res.

(** [n] bytes at [o]. *)
Definition bytes_at (img : list Z) (o n : nat) : option (list Z) :=
  if decide (o + n ≤ length img)%nat then Some (take n (drop o img)) else None.

Definition hex8_to_u32 (img : list Z) (o : nat) : option Z := foldl hex8_step 0 <$> bytes_at img o 8.

(** [strncmp(s, l, n) == 0] for a string [l] of [n] characters. *)
Fixpoint same_at (img : list Z) (o : nat) (l : list Z) : option bool :=
  match l with
  | [] => Some true
  | c :: l => d ← img !! o; if d =? c then same_at img (S o) l else Some false
  end.

(** At most [n] characters of the string at [o]. *)
Fixpoint read_str (n : nat) (img : list Z) (o : nat) : option (list Z) :=
  match n with
  | O => Some []
  | S n => c ← img !! o; if c =? 0 then Some [] else cons c <$> read_str n img (S o)
  end.

(** [while (src[0] == '.' && src[1] == '/') src += 2] *)
Fixpoint skip_dots (fuel : nat) (img : list Z) (o : nat) : option nat :=
  match fuel with
  | O => None
  | S fuel =>
      c ← img !! o;
      if c =? 46 then d ← img !! S o; if d =? slash then skip_dots fuel img (S (S o)) else Some o
      else Some o
  end.

(** The string in a buffer, up to its first zero. *)
Fixpoint c_prefix (l : list Z) : list Z :=
  match l with [] => [] | c :: l => if c =? 0 then [] else c :: c_prefix l end.

Definition magic : list Z := [48; 55; 48; 55; 48; 49].
Definition trailer : list Z := [84; 82; 65; 73; 76; 69; 82; 33; 33; 33].

(** The path in [path_buf]. *)
Definition read_path (img : list Z) (o : nat) : option (list Z) :=
  src ← skip_dots (length img) img o;
  c ← img !! src;
  if c =? slash then read_str 255 img src else cons slash <$> read_str 254 img src.

Section Code.
Context `{!KEnv} `{!Drivers}.

(** The last lines of each branch: the node of the path, if it is found, gets
    its type, mode and owner. *)
Definition set_attrs (path : list Z) (type mode uid gid : Z) : M est unit :=
  node ← on_vfs (vfs_path_to_node path);
  whenM (nz node)
    (on_vfs (node_upd node (λ n, n <| n_type := type |> <| n_mode := Z.land mode 0xFFF |>
                                   <| n_uid := uid |> <| n_gid := gid |>))).

Definition put_file (path : list Z) (data filesize mode uid gid : Z) : M est unit :=
  on_vfs (vfs_register_file path data filesize) ;;
  set_attrs path VFS_FILE mode uid gid.

(** [content] is what [memcpy] copies; the target ends at its first zero. *)
Definition put_symlink (path content : list Z) (mode uid gid : Z) : M est unit :=
  vfse_symlink (c_prefix content) path ;;
  set_attrs path VFS_SYMLINK mode uid gid.

Definition put_dir (path : list Z) (mode uid gid : Z) : M est unit :=
  on_vfs (vfs_register_file path 0 0) ;;
  set_attrs path VFS_DIRECTORY mode uid gid.

(** What is done for an entry whose data are at [o]. *)
Definition put_entry (addr : Z) (img : list Z) (path : list Z) (o : nat) (filesize mode uid gid : Z) : M est unit :=
  let file_type := Z.land mode 0xF000 in
  if file_type =? 0x8000 then put_file path (addr + Z.of_nat o) filesize mode uid gid
  else if file_type =? 0xA000 then
    content ← from_opt (bytes_at img o (Z.to_nat (if 255 <? filesize then 255 else filesize)));
    put_symlink path content mode uid gid
  else if file_type =? 0x4000 then put_dir path mode uid gid
  else mret tt.

(** [(n + 3) & ~3] on [size_t] and on [uint32_t]. *)
Definition align4 (n : Z) : Z := Z.land (n + 3) (Z.lnot 3).

(** The loop at the header at [o]; every turn moves on by at least a header, and
    running out of fuel is a fault. *)
Fixpoint cpio_loop (fuel : nat) (addr : Z) (img : list Z) (o : nat) : M est unit :=
  match fuel with
  | O => fault
  | S fuel =>
      m ← from_opt (same_at img o magic);
      if negb m then mret tt else
      filesize ← from_opt (hex8_to_u32 img (o + H_filesize));
      namesize ← from_opt (hex8_to_u32 img (o + H_namesize));
      mode ← from_opt (hex8_to_u32 img (o + H_mode));
      uid ← from_opt (hex8_to_u32 img (o + H_uid));
      gid ← from_opt (hex8_to_u32 img (o + H_gid));
      let filename := (o + sizeof_cpio_header)%nat in
      t ← from_opt (same_at img filename trailer);
      if (t : bool) then mret tt else
      let data := (o + Z.to_nat (align4 (Z.of_nat sizeof_cpio_header + namesize)))%nat in
      path ← from_opt (read_path img filename);
      put_entry addr img path data filesize mode uid gid ;;
      cpio_loop fuel addr img (data + Z.to_nat (Z.land (u32 (filesize + 3)) (Z.lnot 3)))
  end.

Definition cpio_parse (addr : Z) (img : list Z) : M est unit := cpio_loop (S (length img)) addr img 0.
End Code.

(** ** Archives *)

(** An entry as an archiver writes it; [hfill] are the unused fields. *)
Record entry := mkEntry {
  e_name : list Z; e_mode : Z; e_uid : Z; e_gid : Z; e_data : list Z; hfill : Z → Z }.

Definition hex8 (v : Z) : list Z :=
  (λ i, digit_char true ((v `div` 16 ^ i) `mod` 16)) <$> [7; 6; 5; 4; 3; 2; 1; 0].
Definition fill4 (n : nat) : list Z := replicate (Z.to_nat ((- Z.of_nat n) `mod` 4)) 0.

Definition header (e : entry) : list Z :=
  magic ++ hex8 (hfill e 0) ++ hex8 (e_mode e) ++ hex8 (e_uid e) ++ hex8 (e_gid e) ++ hex8 (hfill e 1) ++ hex8 (hfill e 2) ++
  hex8 (Z.of_nat (length (e_data e))) ++ hex8 (hfill e 3) ++ hex8 (hfill e 4) ++ hex8 (hfill e 5) ++ hex8 (hfill e 6) ++
  hex8 (Z.of_nat (length (e_name e)) + 1) ++ hex8 (hfill e 7).
Definition front (e : entry) : list Z :=
  header e ++ e_name e ++ [0] ++ fill4 (sizeof_cpio_header + length (e_name e) + 1).
Definition encode (e : entry) : list Z := front e ++ e_data e ++ fill4 (length (e_data e)).

(** The path of a name: without leading [./], with a slash in front. *)
Fixpoint strip_dots (name : list Z) : list Z :=
  match name with
  | 46 :: 47 :: name => strip_dots name
  | _ => name
  end.
Definition path_of (name : list Z) : list Z :=
  let src := strip_dots name in
  if char_at src =? slash then take 255 src else slash :: take 254 src.

Definition entry_ok (e : entry) : Prop :=
  cstring (e_name e) ∧ take 10 (e_name e) ≠ trailer ∧
  0 ≤ e_mode e < 2 ^ 32 ∧ 0 ≤ e_uid e < 2 ^ 32 ∧ 0 ≤ e_gid e < 2 ^ 32 ∧
  (Z.of_nat (length (e_data e)) < 2 ^ 32 - 4) ∧ (Z.of_nat (length (e_name e)) < 2 ^ 32 - 1).

(** What unpacking an entry does: its data are [o] bytes from the start. *)
Definition unpack1 `{!KEnv} `{!Drivers} (addr : Z) (o : nat) (e : entry) : M est unit :=
  let path := path_of (e_name e) in
  let size := Z.of_nat (length (e_data e)) in
  let file_type := Z.land (e_mode e) 0xF000 in
  if file_type =? 0x8000 then put_file path (addr + Z.of_nat o) size (e_mode e) (e_uid e) (e_gid e)
  else if file_type =? 0xA000 then put_symlink path (take 255 (e_data e)) (e_mode e) (e_uid e) (e_gid e)
  else if file_type =? 0x4000 then put_dir path (e_mode e) (e_uid e) (e_gid e)
  else mret tt.
Fixpoint unpack `{!KEnv} `{!Drivers} (addr : Z) (o : nat) (es : list entry) : M est unit :=
  match es with
  | [] => mret tt
  | e :: es => unpack1 addr (o + length (front e)) e ;; unpack addr (o + length (encode e)) es
  end.

(** ** Strings in the image *)

Lemma same_at_string name rest l p : cstring name → Forall (λ c, c ≠ 0) l →
  same_at (p ++ name ++ 0 :: rest) (length p) l = Some (bool_decide (take (length l) name = l)).
Proof.
  intros Hn Hl. revert p name Hn. induction Hl as [|c l Hc _ IH]; intros p name Hn; cbn [same_at length].
  { rewrite take_0. done. }
  destruct name as [|d name]; rewrite lookup_app_r, Nat.sub_diag by lia; cbn [lookup list_lookup app mbind option_bind].
  - by rewrite (proj2 (Z.eqb_neq 0 c)) by done.
  - apply list.Forall_cons in Hn as [_ Hn]. rewrite firstn_cons. destruct (Z.eqb_spec d c) as [->|Hne].
    + specialize (IH (p ++ [c]) name Hn). rewrite <-app_assoc, length_app, Nat.add_1_r in IH. cbn in IH. rewrite IH. f_equal.
      apply bool_decide_ext. split; [by intros ->|by intros [= ?]].
    + f_equal. symmetry. apply bool_decide_eq_false_2. by intros [= ? ?].
Qed.

Lemma read_str_eq n : ∀ p name rest, cstring name → read_str n (p ++ name ++ 0 :: rest) (length p) = Some (take n name).
Proof.
  induction n as [|n IH]; intros p name rest Hn; cbn [read_str]; [by rewrite take_0|].
  destruct name as [|d name]; rewrite lookup_app_r, Nat.sub_diag by lia; cbn [lookup list_lookup app mbind option_bind]; [done|].
  apply list.Forall_cons in Hn as [Hd Hn]. rewrite (proj2 (Z.eqb_neq d 0)) by lia.
  specialize (IH (p ++ [d]) name rest Hn). rewrite <-app_assoc, length_app, Nat.add_1_r in IH. cbn in IH. by rewrite IH.
Qed.

Lemma skip_dots_eq fuel : ∀ p name rest, cstring name → (length name < fuel)%nat →
  ∃ d, name = d ++ strip_dots name ∧ skip_dots fuel (p ++ name ++ 0 :: rest) (length p) = Some (length (p ++ d)).
Proof.
  induction fuel as [|fuel IH]; intros p name rest Hn Hf; [lia|]. cbn [skip_dots].
  assert (strip_dots name = name → ∃ d, name = d ++ strip_dots name ∧ Some (length p) = Some (length (p ++ d))) as Hstop
    by (intros ->; exists []; by rewrite app_nil_r).
  destruct name as [|c name]; rewrite (lookup_app_r p _ (length p)), Nat.sub_diag by lia; cbn [lookup list_lookup app mbind option_bind].
  { by apply Hstop. }
  destruct (Z.eqb_spec c 46) as [->|Hc].
  2: { apply Hstop. destruct c as [|c|c]; try done. repeat (destruct c as [c|c|]; try done). }
  rewrite lookup_app_r by lia. replace (S (length p) - length p)%nat with 1%nat by lia.
  destruct name as [|d name]; cbn [lookup list_lookup app mbind option_bind]; [by apply Hstop|].
  destruct (Z.eqb_spec d slash) as [->|Hd].
  - apply list.Forall_cons in Hn as [_ [_ Hn]%list.Forall_cons]. cbn in Hf.
    destruct (IH (p ++ [46; 47]) name rest Hn ltac:(lia)) as (dd & Ed & E). rewrite <-app_assoc, length_app in E. cbn in E.
    exists (46 :: 47 :: dd). split; [cbn; by rewrite <-Ed|].
    replace (S (S (length p))) with (length p + 2)%nat by lia. change slash with 47. rewrite E. rewrite <-app_assoc. done.
  - apply Hstop. unfold slash in Hd. destruct d as [|d|d]; try done. repeat (destruct d as [d|d|]; try done).
Qed.

Lemma strip_dots_ok name : cstring name → ∃ d, name = d ++ strip_dots name ∧ cstring (strip_dots name).
Proof.
  intros Hn. destruct (skip_dots_eq (S (length name)) [] name [] Hn) as (d & Ed & _); [lia|]. exists d. split; [done|].
  rewrite Ed in Hn. by apply Forall_app in Hn as [_ Hn].
Qed.

Lemma read_path_eq p name rest : cstring name →
  read_path (p ++ name ++ 0 :: rest) (length p) = Some (path_of name).
Proof.
  intros Hn. unfold read_path.
  destruct (skip_dots_eq (length (p ++ name ++ 0 :: rest)) p name rest Hn) as (d & Ed & ->); [rewrite !length_app; cbn; lia|].
  cbn [mbind option_bind]. assert (cstring (strip_dots name)) as Hs by (rewrite Ed in Hn; by apply Forall_app in Hn as [_ Hn]).
  assert (p ++ name ++ 0 :: rest = (p ++ d) ++ strip_dots name ++ 0 :: rest) as -> by (rewrite Ed at 1; by rewrite <-!app_assoc).
  unfold path_of. set (src := strip_dots name) in *. clearbody src.
  assert (((p ++ d) ++ src ++ 0 :: rest) !! length (p ++ d) = Some (char_at src)) as ->.
  { rewrite lookup_app_r, Nat.sub_diag by lia. by destruct src. }
  cbn [mbind option_bind]. destruct (char_at src =? slash); by rewrite read_str_eq by done.
Qed.

(** ** Reading an entry *)

Lemma hex8_step_eq v d : 0 ≤ v < 2 ^ 28 → 0 ≤ d < 16 → hex8_step v (digit_char true d) = v * 16 + d.
Proof.
  intros Hv Hd. unfold hex8_step, digit_char.
  rewrite (wrap_small 32 (Z.shiftl v 4)) by (rewrite Z.shiftl_mul_pow2; lia). rewrite Z.shiftl_mul_pow2 by lia.
  destruct (Z.ltb_spec d 10).
  - rewrite (proj2 (Z.leb_le 48 (48 + d))), (proj2 (Z.leb_le (48 + d) 57)) by lia. cbn [andb]. rewrite wrap_small by lia. lia.
  - rewrite (proj2 (Z.leb_gt (55 + d) 57)), andb_false_r by lia.
    rewrite (proj2 (Z.leb_le 65 (55 + d))), (proj2 (Z.leb_le (55 + d) 70)) by lia. cbn [andb]. rewrite wrap_small by lia. lia.
Qed.

Lemma hex8_val v : 0 ≤ v < 2 ^ 32 → foldl hex8_step 0 (hex8 v) = v.
Proof.
  intros Hv.
  assert (∀ i j, 0 ≤ i < 7 → j = i + 1 → hex8_step (v `div` 16 ^ j) (digit_char true ((v `div` 16 ^ i) `mod` 16)) = v `div` 16 ^ i) as Hstep.
  { intros i j Hi ->. pose proof (Z.mod_pos_bound (v `div` 16 ^ i) 16 ltac:(lia)). pose proof (Z.pow_pos_nonneg 16 i).
    rewrite Z.pow_add_r, Z.pow_1_r, <-Z.div_div by lia.
    rewrite hex8_step_eq; [pose proof (Z.div_mod (v `div` 16 ^ i) 16); lia| |done].
    split; [apply Z.div_pos; [apply Z.div_pos; lia|lia]|]. rewrite Z.div_div by lia.
    apply Z.div_lt_upper_bound; [lia|]. nia. }
  unfold hex8. cbn [fmap list_fmap foldl].
  rewrite (hex8_step_eq 0), Z.mul_0_l, Z.add_0_l by (done || apply Z.mod_pos_bound; lia).
  rewrite (Z.mod_small (v `div` 16 ^ 7)) by (split; [apply Z.div_pos; lia|apply Z.div_lt_upper_bound; lia]).
  rewrite (Hstep 6 7), (Hstep 5 6), (Hstep 4 5), (Hstep 3 4), (Hstep 2 3), (Hstep 1 2), (Hstep 0 1) by lia. by rewrite Z.div_1_r.
Qed.

Lemma land_not3 n : Z.land n (Z.lnot 3) = 4 * (n `div` 4).
Proof. rewrite <-Z.ldiff_land. change 3 with (Z.ones 2). rewrite Z.ldiff_ones_r, Z.shiftl_mul_pow2, Z.shiftr_div_pow2 by lia. change (2 ^ 2) with 4. lia. Qed.

Lemma fill4_length n : Z.of_nat (n + length (fill4 n)) = 4 * ((Z.of_nat n + 3) `div` 4).
Proof. unfold fill4. rewrite length_replicate. Z.div_mod_to_equations. lia. Qed.

Lemma header_length e : length (header e) = sizeof_cpio_header.
Proof. done. Qed.

Section Entry.
Context (pre post : list Z) (e : entry) (e_ok : entry_ok e).
Notation img := (pre ++ encode e ++ post).

Lemma image_split : ∃ rest, img = pre ++ header e ++ rest.
Proof. unfold encode, front. rewrite <-!app_assoc. eauto. Qed.

Lemma same_at_app l r c : same_at (pre ++ r) (length pre + c) l = same_at r c l.
Proof.
  revert c. induction l as [|d l IH]; intros c; [done|]. cbn [same_at]. rewrite lookup_app_r by lia.
  replace (length pre + c - length pre)%nat with c by lia.
  destruct (r !! c); [|done]. cbn. by rewrite <-IH, <-Nat.add_succ_r.
Qed.

Lemma magic_read : same_at img (length pre) magic = Some true.
Proof. destruct image_split as [rest ->]. rewrite <-(Nat.add_0_r (length pre)), same_at_app. done. Qed.

Lemma field_read o v : (o + 8 <=? sizeof_cpio_header)%nat = true → take 8 (drop o (header e)) = hex8 v → 0 ≤ v < 2 ^ 32 →
  hex8_to_u32 img (length pre + o) = Some v.
Proof.
  intros Ho%Nat.leb_le Ht Hv. destruct image_split as [rest ->]. unfold hex8_to_u32, bytes_at. pose proof (header_length e).
  rewrite decide_True by (rewrite !length_app; lia). rewrite drop_app_ge by lia.
  replace (length pre + o - length pre)%nat with o by lia. rewrite drop_app_le, take_app_le by (rewrite ?length_drop; lia).
  rewrite Ht. cbn [fmap option_fmap option_map]. by rewrite hex8_val.
Qed.

Lemma name_split : img = (pre ++ header e) ++ e_name e ++ 0 :: fill4 (sizeof_cpio_header + length (e_name e) + 1) ++
  e_data e ++ fill4 (length (e_data e)) ++ post.
Proof. unfold encode, front. by rewrite <-!app_assoc. Qed.

Lemma name_at : (length pre + sizeof_cpio_header)%nat = length (pre ++ header e).
Proof. by rewrite length_app. Qed.

Lemma trailer_read : same_at img (length pre + sizeof_cpio_header) trailer = Some false.
Proof.
  destruct e_ok as (Hn & Ht & _). rewrite name_at, name_split, same_at_string by (done || by repeat constructor).
  by rewrite bool_decide_eq_false_2.
Qed.

Lemma path_read : read_path img (length pre + sizeof_cpio_header) = Some (path_of (e_name e)).
Proof. destruct e_ok as (Hn & _). by rewrite name_at, name_split, read_path_eq. Qed.

Lemma front_length : Z.to_nat (align4 (Z.of_nat sizeof_cpio_header + (Z.of_nat (length (e_name e)) + 1))) = length (front e).
Proof.
  unfold align4. rewrite land_not3. pose proof (fill4_length (sizeof_cpio_header + length (e_name e) + 1)) as Hf.
  unfold front. rewrite !length_app, header_length. cbn [length]. rewrite !Nat2Z.inj_add in Hf.
  rewrite Z.add_assoc. change (Z.of_nat 1) with 1 in Hf. lia.
Qed.

Lemma entry_length : (length (front e) + Z.to_nat (Z.land (u32 (Z.of_nat (length (e_data e)) + 3)) (Z.lnot 3)))%nat = length (encode e).
Proof.
  destruct e_ok as (_ & _ & _ & _ & _ & Hd & _). rewrite land_not3, wrap_small by lia. unfold encode. rewrite !length_app.
  pose proof (fill4_length (length (e_data e))) as Hf. lia.
Qed.

Lemma data_read n : (n ≤ length (e_data e))%nat → bytes_at img (length pre + length (front e)) n = Some (take n (e_data e)).
Proof.
  intros Hn. unfold bytes_at, encode. rewrite decide_True by (rewrite !length_app; lia).
  rewrite drop_app_ge by lia. replace (length pre + length (front e) - length pre)%nat with (length (front e)) by lia.
  rewrite <-app_assoc, drop_app_length, <-app_assoc, take_app_le by lia. done.
Qed.

Lemma entry_put `{!KEnv} `{!Drivers} addr :
  put_entry addr img (path_of (e_name e)) (length pre + length (front e)) (Z.of_nat (length (e_data e)))
    (e_mode e) (e_uid e) (e_gid e) = unpack1 addr (length pre + length (front e)) e.
Proof.
  unfold put_entry, unpack1. destruct (_ =? 0x8000); [done|]. destruct (_ =? 0xA000); [|done].
  destruct (Z.ltb_spec 255 (Z.of_nat (length (e_data e)))) as [Hl|Hl]; rewrite data_read by lia; [done|].
  rewrite Nat2Z.id, !take_ge by lia. done.
Qed.
End Entry.

(** ** Unpacking *)

Section Unpack.
Context `{!KEnv} `{!Drivers}.

Lemma from_opt_bind {S A B} (a : A) (f : A → M S B) : from_opt (Some a) ≫= f = f a.
Proof. done. Qed.

Lemma cpio_entry fuel addr pre e post : entry_ok e →
  cpio_loop (S fuel) addr (pre ++ encode e ++ post) (length pre) =
  (unpack1 addr (length pre + length (front e)) e ;;
   cpio_loop fuel addr (pre ++ encode e ++ post) (length pre + length (encode e))).
Proof.
  intros He. pose proof He as (_ & _ & Hm & Hu & Hg & Hd & Hn). cbn [cpio_loop].
  rewrite magic_read, from_opt_bind. cbn [negb].
  rewrite (field_read pre post e H_filesize (Z.of_nat (length (e_data e)))) by (reflexivity || lia).
  rewrite (field_read pre post e H_namesize (Z.of_nat (length (e_name e)) + 1)) by (reflexivity || lia).
  rewrite (field_read pre post e H_mode (e_mode e)), (field_read pre post e H_uid (e_uid e)),
    (field_read pre post e H_gid (e_gid e)) by (reflexivity || lia).
  rewrite !from_opt_bind. rewrite trailer_read, from_opt_bind by done. cbv iota.
  rewrite path_read, from_opt_bind by done. rewrite front_length by done. rewrite entry_put by done.
  by rewrite <-entry_length, Nat.add_assoc by done.
Qed.

(** The end: an entry named as the trailer, or anything without the magic. *)
Definition ends (post : list Z) : Prop :=
  same_at post 0 magic = Some false ∨
  ∃ h rest, post = header h ++ trailer ++ rest.

Lemma cpio_end fuel addr pre post s : ends post → cpio_loop (S fuel) addr (pre ++ post) (length pre) s = Done tt s.
Proof.
  intros Hend. cbn [cpio_loop]. pose proof (same_at_app pre) as Happ.
  destruct Hend as [Hm|(h & rest & ->)].
  - rewrite <-(Nat.add_0_r (length pre)), Happ, Hm. done.
  - assert (∀ o, (o + 8 <=? sizeof_cpio_header)%nat = true → ∃ v, hex8_to_u32 (pre ++ header h ++ trailer ++ rest) (length pre + o) = Some v) as Hf.
    { intros o Ho%Nat.leb_le. eexists. unfold hex8_to_u32, bytes_at.
      rewrite decide_True by (rewrite !length_app, header_length; lia). reflexivity. }
    assert (same_at (pre ++ header h ++ trailer ++ rest) (length pre) magic = Some true) as -> by (rewrite <-(Nat.add_0_r (length pre)), Happ; done).
    rewrite from_opt_bind. cbn [negb].
    destruct (Hf H_filesize eq_refl) as [? ->], (Hf H_namesize eq_refl) as [? ->], (Hf H_mode eq_refl) as [? ->],
      (Hf H_uid eq_refl) as [? ->], (Hf H_gid eq_refl) as [? ->]. rewrite !from_opt_bind.
    replace (same_at _ _ trailer) with (Some true); [done|]. rewrite Happ. reflexivity.
Qed.

Lemma cpio_entries es addr post : Forall entry_ok es → ends post → ∀ pre fuel s, (length es < fuel)%nat →
  cpio_loop fuel addr (pre ++ mjoin (encode <$> es) ++ post) (length pre) s = unpack addr (length pre) es s.
Proof.
  intros Hes Hend. induction Hes as [|e es He _ IH]; intros pre fuel s Hf; (destruct fuel as [|fuel]; [lia|]).
  - by apply cpio_end.
  - rewrite fmap_cons. change (mjoin (encode e :: ?l)) with (encode e ++ mjoin l). rewrite <-app_assoc, cpio_entry by done.
    cbn [unpack]. unfold mbind, M_bind. destruct (unpack1 _ _ _ s) as [[] s'| |]; [|done..]. cbn in Hf.
    rewrite app_assoc, <-length_app. apply IH. lia.
Qed.

(** C37: An archive in the new ASCII format is unpacked entry by entry: whatever
    the names, contents and unused fields, [cpio_parse] registers each file under
    its path with the address and the size of its data, creates each symbolic link
    with its content as target, and each directory, in the order of the archive,
    and stops at the trailer.  An entry whose name only begins with the ten
    characters of the trailer is excluded ([entry_ok]), since the code stops there
    too; paths and targets are cut to the 255 bytes that the code keeps
    ([path_of], [unpack1]). *)
Theorem cpio_parse_correct es addr post s : Forall entry_ok es → ends post →
  cpio_parse addr (mjoin (encode <$> es) ++ post) s = unpack addr 0 es s.
Proof.
  intros Hes Hend. apply (cpio_entries es addr post Hes Hend []).
  assert (length es ≤ length (mjoin (encode <$> es)))%nat; [|rewrite length_app; lia].
  clear. induction es as [|e es IH]; [done|]. rewrite fmap_cons. change (mjoin (encode e :: ?l)) with (encode e ++ mjoin l).
  rewrite length_app. unfold encode at 1, front. rewrite !length_app, header_length. cbn [length]. lia.
Qed.
End Unpack.

(** ** The node of an entry *)

Section Found.
Context `{!KEnv} `{!KEnvOk} `{!Drivers}.

(** The same place in the tree. *)
Definition same_place (n n' : vnode) : Prop :=
  n_name n' = n_name n ∧ n_ops n' = n_ops n ∧ is_mountpoint n' = is_mountpoint n ∧
  n_parent n' = n_parent n ∧ n_children n' = n_children n ∧ n_next n' = n_next n.

Lemma chain_update m p n n' : m !! p = Some n → same_place n n' → ∀ l first, chain m first l → chain (<[p := n']> m) first l.
Proof.
  intros Hp (_ & _ & _ & _ & _ & Hnext). induction l as [|c l IH]; intros first Hc; [done|].
  destruct Hc as (-> & Hc0 & k & Hk & Hl). split_and!; [done..|]. destruct (decide (c = p)) as [->|Hne].
  - exists n'. split; [apply lookup_insert_eq|]. assert (k = n) as -> by congruence. rewrite Hnext. by apply IH.
  - exists k. split; [by rewrite lookup_insert_ne|by apply IH].
Qed.

Lemma vtree_update s K r p n n' : vtree s K r → nodes s !! p = Some n → same_place n n' →
  vtree (s <| nodes := <[p := n']> (nodes s) |>) K r.
Proof.
  intros T Hp Hsame. pose proof Hsame as (Hname & Hops & Hmp & Hpar & Hch & Hnext).
  assert (∀ z k, nodes (s <| nodes := <[p := n']> (nodes s) |>) !! z = Some k →
    ∃ k0, nodes s !! z = Some k0 ∧ same_place k0 k) as Hback.
  { cbn. intros z k [[-> ->]|[? ?]]%lookup_insert_Some; [by exists n|]. exists k. unfold same_place. by split_and!. }
  split.
  - intros z k (k0 & Hk0 & Hs)%Hback. destruct (vt_dom _ _ _ T z k0 Hk0) as (l & Hl & Hc). exists l. split; [done|].
    cbn. destruct Hs as (_ & _ & _ & _ & -> & _). by eapply chain_update.
  - intros z l Hl. destruct (vt_node _ _ _ T z l Hl) as [Hz Hnd]. split; [|done]. cbn. by rewrite lookup_insert_is_Some'; right.
  - intros z l c Hl Hc. destruct (vt_kid _ _ _ T z l c Hl Hc) as [(k & Hk & Hkp) Hr]. split; [|done]. cbn.
    destruct (decide (c = p)) as [->|Hne]; [exists n'; rewrite lookup_insert_eq; split; [done|]|exists k; by rewrite lookup_insert_ne].
    rewrite Hpar. congruence.
  - cbn. intros z [k (k0 & Hk0 & _)%Hback]. by apply (vt_heap _ _ _ T).
  - intros z k (k0 & Hk0 & -> & _)%Hback. by apply (vt_name _ _ _ T z).
  - intros z k (k0 & Hk0 & _ & Ho & Hm & _)%Hback. pose proof (vt_plain _ _ _ T z k0 Hk0) as Hd.
    unfold driver_find in *. by rewrite Ho, Hm.
Qed.

(** A path that ends at a file is not affected by what the file becomes. *)
Lemma walk_update m K f n n' : m !! f = Some n → n_type n = VFS_FILE → n_name n' = n_name n → f ≠ 0 → ∀ xs p,
  walk m K p xs = f → walk (<[f := n']> m) K p xs = f.
Proof.
  intros Hf Hty Hname Hf0. induction xs as [|x xs IH]; intros p Hw; [done|]. cbn [walk] in *.
  assert (child (<[f := n']> m) K p x = child m K p x ∨ child m K p x = 0) as [E|E].
  { unfold child, type_of. destruct (decide (p = f)) as [->|Hne].
    - right. rewrite Hf, Hty. done.
    - left. rewrite lookup_insert_ne by done. repeat case_decide; try done. apply first_named_ext. intros c _.
      unfold name_of. destruct (decide (c = f)) as [->|]; [by rewrite lookup_insert_eq, Hf|by rewrite lookup_insert_ne]. }
  - rewrite E. destruct (decide (child m K p x = 0)); [done|by apply IH].
  - rewrite E in Hw. cbn in Hw. done.
Qed.

(** The entry's node. *)
Definition entry_node (e : entry) (addr : Z) (o : nat) (n : vnode) : Prop :=
  n_mode n = Z.land (e_mode e) 0xFFF ∧ n_uid n = e_uid e ∧ n_gid n = e_gid e ∧
  (Z.land (e_mode e) 0xF000 = 0x8000 → n_type n = VFS_FILE ∧ n_data n = addr + Z.of_nat o ∧ n_size n = Z.of_nat (length (e_data e))) ∧
  (Z.land (e_mode e) 0xF000 = 0x4000 → n_type n = VFS_DIRECTORY).

Lemma on_vfs_done {A} (c : M vst A) s a v : c (vs s) = Done a v → on_vfs c s = Done a (s <| vs := v |>).
Proof. intros E. unfold on_vfs. by rewrite E. Qed.

Lemma put_post s K r rn ps data size type mode uid gid :
  vtree (vs s) K r → nodes (vs s) !! root_node (vs s) = Some rn → n_type rn = VFS_DIRECTORY →
  ps ≠ [] → Forall (λ kx, part_ok kx.2) ps → clear (nodes (vs s)) K (root_node (vs s)) ps.*2 →
  can_alloc (length ps) (venv (vs s)) →
  ∃ v K' r' f n, (on_vfs (vfs_register_file (spell ps) data size) ;; set_attrs (spell ps) type mode uid gid) s = Done tt (s <| vs := v |>) ∧
    vtree v K' r' ∧ root_node v = root_node (vs s) ∧ vfs_path_to_node (spell ps) v = Done f v ∧ nodes (vs s) !! f = None ∧
    nodes v !! f = Some n ∧ n_type n = type ∧ n_mode n = Z.land mode 0xFFF ∧ n_uid n = uid ∧ n_gid n = gid ∧
    n_data n = data ∧ n_size n = size ∧
    (∀ p k, nodes (vs s) !! p = Some k → ∃ ch, nodes v !! p = Some (k <| n_children := ch |>)).
Proof.
  intros T Hrn Hty Hne Hps Hcl Hal.
  destruct (register_file_post (vs s) K r rn ps data size T Hrn Hty Hne Hps Hcl Hal) as (v & K' & r' & f & E & R & W & Ep & _).
  destruct R as [T' Hroot Hold _ _ Hnew (n & Hn & Hnt & Hnd & Hns)].
  destruct (vt_heap _ _ _ T' f (mk_is_Some _ _ Hn)) as [Hf0 _].
  set (n' := n <| n_type := type |> <| n_mode := Z.land mode 0xFFF |> <| n_uid := uid |> <| n_gid := gid |>).
  set (v' := v <| nodes := <[f := n']> (nodes v) |>).
  assert (vtree v' K' r') as T2 by (by eapply vtree_update).
  exists v', K', r', f, n'. split_and!; try done.
  - rewrite (bind_done _ _ _ _ _ (on_vfs_done _ s _ _ E)). unfold set_attrs.
    set (s1 := s <| vs := v |>). pose proof (on_vfs_done (vfs_path_to_node (spell ps)) s1 f v Ep) as E1.
    rewrite (bind_done _ _ _ _ _ E1), (proj2 (nz_true f)) by done. cbn [whenM].
    apply (on_vfs_done (node_upd f _) s1 tt v').
    unfold node_upd. by rewrite (bind_done (node_load f) _ v n v) by (unfold node_load; by rewrite Hn).
  - rewrite (path_to_node_eq v' K' r'); [|done| |done|done].
    + cbn [v' root_node nodes]. f_equal. by eapply walk_update.
    + apply (vt_node _ _ _ T2 _ (kids K' (root_node v'))). unfold kids. cbn. rewrite Hroot. destruct (Hold _ _ Hrn) as [ch Hch].
      destruct (vt_dom _ _ _ T' _ _ Hch) as (l & Hl & _). by rewrite Hl.
  - cbn. apply lookup_insert_eq.
  - intros p k Hk. destruct (Hold p k Hk) as [ch Hch]. exists ch. cbn. rewrite lookup_insert_ne; [done|]. intros ->. congruence.
Qed.

(** Unpacking a regular file or a directory makes its path lead to a new
    node with the entry's type, mode and owner, and for a file the address and
    size of its data; the nodes that were there change in nothing but their lists
    of children, and the tree stays well formed. *)
Theorem unpack_found s K r rn e ps addr o :
  vtree (vs s) K r → nodes (vs s) !! root_node (vs s) = Some rn → n_type rn = VFS_DIRECTORY →
  path_of (e_name e) = spell ps → ps ≠ [] → Forall (λ kx, part_ok kx.2) ps →
  clear (nodes (vs s)) K (root_node (vs s)) ps.*2 → can_alloc (length ps) (venv (vs s)) →
  Z.land (e_mode e) 0xF000 = 0x8000 ∨ Z.land (e_mode e) 0xF000 = 0x4000 →
  ∃ v K' r' f n, unpack1 addr o e s = Done tt (s <| vs := v |>) ∧ vtree v K' r' ∧ root_node v = root_node (vs s) ∧
    vfs_path_to_node (spell ps) v = Done f v ∧ nodes (vs s) !! f = None ∧ nodes v !! f = Some n ∧ entry_node e addr o n ∧
    (∀ p k, nodes (vs s) !! p = Some k → ∃ ch, nodes v !! p = Some (k <| n_children := ch |>)).
Proof.
  intros T Hrn Hty Epath Hne Hps Hcl Hal Hmode. unfold unpack1, entry_node. rewrite Epath.
  destruct Hmode as [-> | ->]; cbn [Z.eqb Pos.eqb]; unfold put_file, put_dir;
    (edestruct put_post as (v & K' & r' & f & n & E & HT & Hroot & Ep & Hnew & Hn & ? & ? & ? & ? & ? & ? & ?); [done..|]);
    exists v, K', r', f, n; rewrite E; by split_and!.
Qed.
End Found.
