(* ===== verification/FsExamples.v ===== *)
(** * Runs of terminals, files and descriptors

    Concrete states, with the memory manager of the file Bump and no mounted
    driver, and the theorems about terminals, paths, descriptors and pipes
    instantiated at them; also a run in which closing both ends of a pipe uses
    freed memory. *)

From S2P Require Import Prelude Proc Bump Ring Tty Cstring Vfs Vfse Cpio.

(** ** Terminals *)

Definition ex_tst : tst := mkTst bump_start (replicate 2 new_tty) 0 [].

Lemma new_tty_rep : tty_rep new_tty [] [].
Proof. split; [by apply ring_new|by vm_compute|done|done|done]. Qed.

(** Enter in canonical mode: the empty line is queued and echoed. *)
Lemma tty_input_char_correct_witness : ∃ t',
  tty_input_char 0 13 ex_tst = Done tt (put_tty ex_tst 0 t' bump_start [Screen 10; Debug 10]) ∧
  tty_rep t' [10] [].
Proof.
  destruct (tty_input_char_correct ex_tst 0 new_tty [] [] 13) as (t' & E & HR & _);
    [done|done|apply new_tty_rep|by left|]. by exists t'.
Defined.

(** A terminal with a line, an empty line and a character in its queue. *)
Definition put_char (c : Z) (t : tty) : tty :=
  t <| cooked_buf := <[Z.to_nat (cooked_head t) := c]> (cooked_buf t) |>
    <| cooked_head := (cooked_head t + 1) `mod` TTY_BUF_SIZE |>.
Definition ex_tty : tty := put_char 98 (put_char 10 (put_char 97 new_tty)).
Definition ex_tst2 : tst := mkTst bump_start [ex_tty] 0 [].

Lemma ex_tty_rep : tty_rep ex_tty [97; 10; 98] [].
Proof.
  apply (rep_put _ [97; 10]); [|done]. apply (rep_put _ [97]); [|done].
  apply (rep_put _ []); [|done]. apply new_tty_rep.
Qed.

Lemma tty_read_correct_witness : ∃ t',
  tty_read 0 100 true ex_tst2 = Done (Finished [97; 10]) (put_tty ex_tst2 0 t' bump_start []) ∧
  tty_rep t' [98] [].
Proof.
  pose proof (tty_read_correct ex_tst2 0 ex_tty [97; 10; 98] [] 100 true) as H.
  destruct H as (t' & E & HR & _); [done|done|apply ex_tty_rep|by left|]. by exists t'.
Defined.

(** ** Paths *)

#[local] Instance ex_drivers : Drivers := {|
  mem_ops := 1; ops_find_node := λ _, None; mem_ops_find := eq_refl |}.
#[local] Instance ex_ops : FileOps := {|
  ops_read := λ _, None; ops_write := λ _, None; ops_readdir := λ _, None |}.

(** The root directory alone. *)
Definition ex_root : Z := 0x10000.
Definition ex_env : bump := mkBump 0x11000 BUMP_LIMIT [ex_root] (λ _, None).
Definition ex_vst : vst := mkVst {[ex_root := new_node [slash] VFS_DIRECTORY]} ex_root ex_env.
Definition ex_kids : gmap Z (list Z) := {[ex_root := []]}.

Lemma ex_vst_node p n :
  nodes ex_vst !! p = Some n → p = ex_root ∧ n = new_node [slash] VFS_DIRECTORY.
Proof. cbn [nodes ex_vst]. rewrite lookup_singleton_Some. naive_solver. Qed.
Lemma ex_kids_list p l : ex_kids !! p = Some l → p = ex_root ∧ l = [].
Proof. unfold ex_kids. rewrite lookup_singleton_Some. naive_solver. Qed.

Lemma ex_tree : vtree ex_vst ex_kids (λ _, 0%nat).
Proof.
  split.
  - intros p n [-> ->]%ex_vst_node. exists []. split; [apply lookup_singleton_eq|done].
  - intros p l [-> ->]%ex_kids_list.
    split; [by eexists; apply lookup_singleton_eq|by apply list.NoDup_nil].
  - intros p l c [-> ->]%ex_kids_list Hc. by apply elem_of_nil in Hc.
  - intros p [n [-> _]%ex_vst_node]. split; [done|left]. split; [by left|done].
  - intros p n [_ ->]%ex_vst_node. by repeat constructor.
  - by intros p n [_ ->]%ex_vst_node.
Qed.

(** [/etc//rc] *)
Definition ex_path : list (nat * list Z) := [(0%nat, [101; 116; 99]); (1%nat, [114; 99])].

(** [/x] is not found, before and after. *)
Lemma vfs_register_file_correct_witness : ∃ s' K' r' f,
  vfs_register_file [47; 101; 116; 99; 47; 47; 114; 99] 0x5000 12 ex_vst = Done tt s' ∧
  registered ex_vst ex_kids (λ _, 0%nat) s' K' r' ex_root f 0x5000 12 ∧
  vfs_path_to_node [47; 101; 116; 99; 47; 47; 114; 99] s' = Done f s' ∧
  vfs_path_to_node [47; 120] s' = Done 0 s'.
Proof.
  destruct (vfs_register_file_correct ex_vst ex_kids (λ _, 0%nat) (new_node [slash] VFS_DIRECTORY)
    ex_path 0x5000 12) as (s' & K' & r' & f & E & R & Ep & Hfr).
  - apply ex_tree.
  - apply lookup_singleton_eq.
  - done.
  - done.
  - repeat constructor; done.
  - vm_compute. intros _ []. done.
  - vm_compute. done.
  - exists s', K', r', f. split_and!; [done|done|done|].
    destruct (Hfr [(0%nat, [120])]) as (n & n' & E1 & E2 & Hn); [done|by repeat constructor|by intros [? [=]]|].
    assert (vfs_path_to_node (spell [(0%nat, [120])]) ex_vst = Done 0 ex_vst) as E0 by by vm_compute.
    rewrite E0 in E1. injection E1 as <-. by destruct Hn as [->|[_ [? [=]]]].
Defined.

(** ** Descriptors *)

Definition ex_file : Z := 0x10100.
Definition ex_env2 : bump := mkBump 0x11000 BUMP_LIMIT [ex_file; ex_root] (λ _, None).
Definition ex_proc : vfse_process :=
  mkVfseProcess (<[3%nat := ex_file]> (replicate 256 0)) [slash] 4.
Definition ex_est : est :=
  mkEst (mkVst (nodes ex_vst) ex_root ex_env2) {[ex_file := mkVfseFile ex_root 0 2 0 1 0]} ∅
    (Some ex_proc).

Lemma ex_fd_inv : fd_inv ex_est ex_proc.
Proof.
  split; [done|done|]. split.
  - by vm_compute.
  - intros f x. cbn [efiles ex_est]. intros [<- <-]%lookup_singleton_Some.
    split_and!; [done|split; [by left|done]|done|by vm_compute|done].
  - intros f i Hi Hf. cut (f = ex_file); [intros ->; eexists; apply lookup_singleton_eq|].
    destruct (decide (i = 3%nat)) as [->|Hne]; [by injection Hi|].
    cbn [fds ex_proc] in Hi. rewrite list_lookup_insert_ne in Hi by done.
    apply lookup_replicate in Hi as [-> _]. done.
Qed.

Lemma vfse_fd_correct_witness : ∃ r s' pr',
  vfse_dup2 3 7 ex_est = Done r s' ∧ fd_inv s' pr' ∧ r = 7 ∧
  fds pr' = <[7%nat := ex_file]> (fds ex_proc).
Proof.
  destruct (vfse_fd_correct ex_est ex_proc (CDup2 3 7) ex_fd_inv) as (r & s' & pr' & E & HI & Hs);
    [done|]. exists r, s', pr'. cbn [call_spec] in Hs. rewrite decide_True in Hs by (by vm_compute).
  by destruct Hs.
Defined.

(** ** Pipes *)

Definition ex_pipe : vfse_pipe_t := mkPipe 0x10300 (replicate 4096 0) 4096 0 0 false false.
Definition ex_est2 : est :=
  mkEst (vs ex_est) {[ex_file := mkVfseFile 0 0 1 0 1 0x10200]} {[0x10200 := ex_pipe]} (Some ex_proc).

Lemma vfse_pipe_fifo_witness : ∃ x',
  vfse_write 3 0x9000 [1; 2; 3] ex_est2 = Done 3 (with_pipe ex_est2 0x10200 x') ∧
  pipe_rep x' [1; 2; 3].
Proof.
  destruct (vfse_pipe_fifo ex_est2 3 0x10200 ex_pipe [] 0x9000) as [Hw _].
  - split_and!; [done|done|done|]. exists ex_proc, ex_file. eexists.
    split_and!; [done|by vm_compute|done|apply lookup_singleton_eq|done].
  - apply lookup_singleton_eq.
  - by apply ring_new.
  - done.
  - destruct (Hw eq_refl [1; 2; 3]) as (x' & E & HR & _). by exists x'.
Defined.

(** Both ends of a pipe share the pipe object, and closing either one frees it:
    after [pipe], [close] of the reader and [close] of the writer, the second
    [close] reads freed memory. *)
Example pipe_close_both :
  (_ ← vfse_init; '(r, (a, b)) ← vfse_pipe; x ← vfse_close a; mret (r, a, b, x))
    (mkEst ex_vst ∅ ∅ None) ≠ Fault ∧
  (_ ← vfse_init; '(r, (a, b)) ← vfse_pipe; _ ← vfse_close a; vfse_close b)
    (mkEst ex_vst ∅ ∅ None) = Fault.
Proof. split; [vm_compute; discriminate|by vm_compute]. Qed.

(** [dup2] of a descriptor onto itself: the file is closed, freed, and then
    written to. *)
Example dup2_self : vfse_dup2 3 3 ex_est = Fault.
Proof. by vm_compute. Qed.

(** ** Archives *)

(** The directory [d], the file [./d/f] of three bytes, and a link to it. *)
Definition ex_dir : entry := mkEntry [100] 0x41ED 0 0 [] (λ _, 0).
Definition ex_regular : entry := mkEntry [46; 47; 100; 47; 102] 0x81A4 7 8 [1; 2; 3] (λ i, i).
Definition ex_link : entry := mkEntry [108] 0xA1FF 0 0 [47; 100; 47; 102] (λ _, 1).
Definition ex_end : list Z := header (mkEntry trailer 0 0 0 [] (λ _, 0)) ++ trailer ++ [0; 0; 0; 0].
Definition ex_boot : est := mkEst ex_vst ∅ ∅ None.

Lemma ex_entries : Forall entry_ok [ex_dir; ex_regular; ex_link].
Proof. repeat constructor; done. Qed.

Lemma cpio_parse_correct_witness :
  let es := [ex_dir; ex_regular; ex_link] in
  cpio_parse 0x900000 (mjoin (encode <$> es) ++ ex_end) ex_boot = unpack 0x900000 0 es ex_boot.
Proof.
  intros es. apply (cpio_parse_correct es 0x900000 ex_end ex_boot); [apply ex_entries|].
  right. by eexists _, _.
Defined.

Lemma unpack_found_witness : ∃ v K' r' f n,
  unpack1 0x900000 112 ex_regular ex_boot = Done tt (ex_boot <| vs := v |>) ∧ vtree v K' r' ∧ root_node v = ex_root ∧
  vfs_path_to_node [47; 100; 47; 102] v = Done f v ∧ nodes ex_vst !! f = None ∧ nodes v !! f = Some n ∧
  entry_node ex_regular 0x900000 112 n ∧
  (∀ p k, nodes ex_vst !! p = Some k → ∃ ch, nodes v !! p = Some (k <| n_children := ch |>)).
Proof.
  apply (unpack_found ex_boot ex_kids (λ _, 0%nat) (new_node [slash] VFS_DIRECTORY) ex_regular
    [(0%nat, [100]); (0%nat, [102])] 0x900000 112).
  - apply ex_tree.
  - apply lookup_singleton_eq.
  - done.
  - done.
  - done.
  - repeat constructor; done.
  - vm_compute. intros _ []. done.
  - vm_compute. done.
  - by left.
Defined.

(** What a lookup finds after unpacking: type, mode, owner, data and size. *)
Definition found_after (es : list entry) (path : list Z) : option (Z * Z * Z * Z * Z) :=
  match cpio_parse 0x900000 (mjoin (encode <$> es) ++ ex_end) ex_boot with
  | Done _ s =>
      match vfs_path_to_node path (vs s) with
      | Done f v => (λ n, (n_type n, n_mode n, n_uid n, n_data n, n_size n)) <$> nodes v !! f
      | _ => None
      end
  | _ => None
  end.

Example archive_run :
  found_after [ex_dir; ex_regular; ex_link] [47; 100] = Some (VFS_DIRECTORY, 0x1ED, 0, 0, 0) ∧
  found_after [ex_dir; ex_regular; ex_link] [47; 100; 47; 102] = Some (VFS_FILE, 0x1A4, 7, 0x9000E4, 3) ∧
  found_after [ex_dir; ex_regular; ex_link] [47; 108] = Some (VFS_SYMLINK, 0x1FF, 0, 0, 0).
Proof. vm_compute. split_and!; reflexivity. Qed.

(** An entry for a directory after one for a file in it makes a second node,
    which hides the first: the file is not found any more. *)
Example late_directory : found_after [ex_regular; ex_dir] [47; 100; 47; 102] = None.
Proof. vm_compute. reflexivity. Qed.

(** The entry [.] that archivers write first becomes a directory named [.]. *)
Example dot_entry :
  found_after [mkEntry [46] 0x41ED 0 0 [] (λ _, 0)] [47; 46] = Some (VFS_DIRECTORY, 0x1ED, 0, 0, 0).
Proof. vm_compute. reflexivity. Qed.
